(* ===== verification/_CoqProject ===== *)
-Q . S2P
Prelude.v
CString.v
HttpConn.v
HttpParse.v
HttpWrite.v
Posix.v
NetBytes.v
Sockets.v
TcpEcho.v
TcpProofs.v
Multiplex.v
MultiplexProofs.v
Udp.v
Threads.v
Tickets.v
ProdCons.v
ProdConsProofs.v
ThreadPool.v
ThreadPoolProofs.v
Condition.v
Server.v
ServerProofs.v
HttpServe.v
Clients.v
ClientsProofs.v
ClientsProgress.v
ServerMain.v
Files.v
FileIO.v
FileProofs.v
FileCount.v
Vectored.v
Fifo.v
Sorting.v
BlockQueue.v
BlockQueueProofs.v
Median.v
Processes.v
Pipes.v
PipesProofs.v
Chat.v
ChatProofs.v
Forks.v
Households.v
ForksProofs.v
WaitProofs.v
SharedMem.v
SharedMemProofs.v
Signals.v
SignalsProofs.v
Shm.v
Outputs.v
Exec.v
ExecProofs.v
Timers.v
TimersProofs.v
Pthreads.v
PthreadsProofs.v
Webbench.v
WebbenchProofs.v
WebbenchCounts.v
Intset.v
IntsetProofs.v
RedisUtil.v
RedisUtilProofs.v
Dict.v
DictProofs.v
DictScan.v
SetType.v
SetTypeProofs.v
