(* ===== verification/Prelude.v ===== *)
(** * A verification development of the web server and its lessons

    The repository teaches Linux programming in C, lesson by lesson, towards a
    web server in C++.  This development models the server, which is the
    program the lessons build up to, and the lessons themselves, and proves
    what makes them correct, or what goes wrong in them.

    ** The program

    webServer/ is a static HTTP server.  [main] (main.cpp) listens on a port
    and waits with epoll; it reads the requests of ready connections, puts the
    connections into the queue of a thread pool (threadPool.h, over the
    wrappers of locker.cpp), and writes the answers the workers have prepared.
    A connection (http_conn.cpp) is a state machine: a read buffer, a line
    splitter, a parser for the request line, the headers and the body, the
    mapped file and the buffers of the answer.  An event disarms its descriptor
    until the owner of the connection re-arms it (EPOLLONESHOT).

    The lessons are programs of one file or two: files and directories
    (lessons 9 to 17), processes, signals and timers (18 to 22, 26, 28), named
    pipes and chats (23, 24), mapped files and shared memory (25, 27), threads,
    locks and semaphores (29, 30), byte order (31), TCP servers (32 to 34),
    select, poll and epoll (35, 36), UDP and local sockets (37), and the
    exercises of lessons 8 and 38.

    Two third-party programs are kept with them: webbench, a load generator
    with which the server is measured, and Redis 5.0.10, on which lesson 7
    practises make; of Redis the data structures behind its sets are modelled.

    ** How the code is modelled

    Code is translated function by function, with the names of the source.
    - [Prelude] and [CString]: bytes, decimal conversion, the string functions
      of the C library on NUL-terminated buffers, the shared tactics.
    - http_conn.cpp is [HttpConn]: the object is the record [http_conn], a
      member function maps the object and the shared part (the epoll object,
      the open descriptors, [userCount]) to new ones.  What [recv] and
      [writev] meet is a script.  [None], [Undefined] and [WUndefined] are
      undefined behaviour; running out of fuel is a separate outcome.
    - threadPool.h and locker.cpp are [ThreadPool], over [Threads], in which a
      program is a pool of threads with program counters and a step executes
      one statement of one of them; properties hold for every interleaving.
      [Condition] holds the class condition of locker.cpp, which nothing uses.
    - main.cpp is [Server] (the event loop, the workers and the one-shot
      discipline of epoll as a step relation) and [ServerMain] (the start and
      the end).  [HttpServe] composes the parts for one client, [Clients] for
      all clients at once, over the steps of the event loop and the workers.
    - The lessons on files and sockets are programs in the monad [M] of
      [Posix]: functions of a [world] that holds files, descriptors,
      connections, the terminal, and scripts of what the outside does.  A
      program returns, exits, blocks for ever, is undefined, or runs out of
      fuel.  [Sockets] and [Files] add the calls on sockets and on files.
      [FileIO] holds lessons 9 to 14, 16, 17 and copy.c of 25, [Vectored]
      rwv.c of 38 and open.cpp of 13, [FileCount] lesson 15, [Fifo] lesson 23
      and of 24 the chats that fork and the examples, each process alone,
      [NetBytes] lesson 31, [TcpEcho] lessons 32 to 34 and the local sockets of 37, [Multiplex] lessons 35 and
      36, [Udp] the datagram programs of 37.
    - The threaded programs of lesson 30 are [Tickets] (mutex.c, sellticket.c,
      deadlock.c, deadlock1.c, rwlock.c) and [ProdCons] (produst.c, cond.c,
      semaphore.c), those of lesson 38 [BlockQueue]; [Sorting] holds lesson 8
      and gdb.c, [Median] the function [middleNumber] of lesson 38.
    - The programs of lesson 29 are [Pthreads]: threads that are created,
      joined, detached and cancelled, with a heap they share.
    - The programs that fork are processes of the kernel of [Processes], which
      has process ids, parents, descriptors, pipes, signals and shared memory:
      a program maps the local state of a process to its next action, and a
      step runs an action of one process or delivers a signal.  [Pipes] holds
      lesson 22, [Forks] lessons 18 (fork.c), 20 (orphan.c, zombie.c), 21 and
      26 (kill.c, sigchld.c), [Exec] hello.c of 18, lesson 19 and exit.c of 20,
      [SharedMem] the shared mappings of 25, [Signals] sigset.c and
      sigprocmask.c of 26.  [Chat] holds chatA.c and chatB.c of 24 as two trees
      of system calls that run together over named pipes.  [Shm] holds the two programs of 27.  [Households] and [Outputs] are what their proofs
      share: a parent with its children, and what a process prints whatever the
      others do.
    - [Timers] adds a clock, interval timers and sleeping processes to that
      kernel, for the other programs of lesson 26 and the daemon of 28.
    - webbench.c and its socket.c are [Webbench]: the global variables are a
      record, the calls those of [Posix] and [Sockets]; an alarm may go off in
      any system call of a child.
    - Of Redis, [Intset] is intset.c, byte by byte in one block of memory;
      [RedisUtil] the conversions of integers in util.c; [Dict] the hash table
      of dict.c, two tables of chains between which buckets are moved; [SetType]
      the set type of t_set.c, which chooses between an integer set and a hash
      table.  [None] is an access outside a block or a failed assertion.

    ** What is proved

    - The server as a whole: [ClientsProgress.clients_served] (at every moment
      each client that has kept to a discipline has received a prefix of the
      answers to its requests, in order and byte by byte, however the clients,
      the event loop and the workers interleave and whatever other clients do;
      the discipline, described at the head of [Clients], is one well-formed GET
      request without a body at a time, arriving whole, and a socket that takes
      the text of an answer at once: what it excludes the code gets wrong),
      [ClientsProgress.clients_answered] (a request of such a client that has
      been read can always still be answered, as long as the others leave a
      worker free), [HttpServe.conversation_served] (the same for one client, as
      one run of the code, with the files that cannot be mapped),
      [ServerProofs.server_owns_connections] (one owner per connection, none
      is forgotten), [ServerMain.server_starts] and [server_start_fails] (which
      failures are noticed).
    - The connection: [HttpParse] (a request is parsed back, parsing returns,
      keeps its indices inside the buffer, collects segments; and where it
      goes wrong: it hangs on a missing body, and answers a cut line),
      [HttpWrite] and [HttpServe.write_delivers_answer] (the answer is built and
      delivered exactly, also over several writes and events; and can be broken
      by a text sent in three pieces).
    - The pool: [ThreadPoolProofs] (each accepted request is processed once,
      in order, and the pool refines a bounded FIFO queue).
    - The network lessons: [TcpProofs], [MultiplexProofs], [Udp] (what a
      client sends comes back; what the epoll server does under every
      schedule, and which clients end it; the select and poll servers' faults).
    - The threads: [Tickets], [ProdConsProofs], [BlockQueueProofs] (invariants
      under every interleaving, deadlocks and their absence).
    - The files: [FileProofs], [FileCount] (copies, the count of a tree against
      a recursive specification).
    - [ChatProofs.chats_understand]: the two chat programs, run together over
      blocking named pipes, exchange what is typed without deadlock, until the
      end of the input leaves both waiting.
    - [Sorting], [Median]: equivalence with the merge sort of the library.
    - The processes, for every schedule: [PipesProofs.ipc_relays] (the pipe
      relays the output of the executed program completely, without deadlock),
      [ForksProofs.sigchld_collects] and [WaitProofs.wait_collects] (no dead
      child is lost), [SharedMemProofs.mmap_ipc_reads] (the parent reads what
      the child wrote), [SignalsProofs.sigprocmask_defers] (blocked signals
      are shown as pending and wait), [ExecProofs.execl_replaces] (the executed program takes the place
      of the child).
    - [TimersProofs.daemon_logs]: the daemon logs every expiry of its timer.
    - [PthreadsProofs.join_hands_over]: a joined thread hands its value over.
    - The load generator: [WebbenchProofs.webbench_requests] composes it with
      the server (its request is served exactly when it is an HTTP/1.1 GET),
      [WebbenchCounts.benchcore_counts] and [bench_adds_up] say what the
      numbers it prints count.
    - Redis: [IntsetProofs.intset_refines_set], [DictProofs.dict_refines_map]
      and [SetTypeProofs.setType_refines_set] refine a set of integers, a
      finite map and a set of strings; the last is proved from the lemmas of
      the first two and of [RedisUtilProofs] ([string2ll_strict],
      [ll2string_roundtrip]).  [DictProofs.dict_rehash_ends]: moving the
      buckets comes to an end.  [DictScan.dict_scan_complete]: the scan by
      reversed cursors misses no key that stays, whatever happens to the table
      between its calls.

    ** Fuel and bounds

    Loops that are not structural take fuel, and the theorems say how much is
    enough: [processRead] needs one turn per byte and two more, [read] one per
    segment, [write] one per [writev], the copy of lesson 10 one turn per
    block, the directory walk its depth, the inner loop of [middleNumber] two
    rounds, the binary search of an integer set one turn per element, the
    search for the next entry of a hash table one turn per bucket and two more,
    the loop of [dictRehashMilliseconds] one turn per bucket of the old table.  Integers are [Z] with their width written out where it matters
    ([to_int32], [to_uint32], [add32]); sizes of buffers are those of the
    source (2048, 1024, 200, ...).

    ** Not modelled

    Of Redis 5.0.10 under lesson07, a third-party program kept as an exercise,
    only the files named above, and of dict.c not the random keys, the
    fingerprints and the statistics, of t_set.c not the commands.  [getopt_long] in webbench is a
    list of options, and the resolution of names a parameter.  The programs of lessons 2 to 7 exercise the compiler and
    make.  webServer2/threadPool.hpp does not compile.  Of main.cpp and
    http_conn.cpp everything is modelled but the store [strtol] makes through
    its second argument; calls on a connection are atomic, so the race on
    [userCount] does not show.  [malloc], [new] and the creation of threads
    outside [Pthreads] and the pool succeed.  Time passes only as the sum of
    the sleeps, but for [Timers].  Of the lessons these are left: mmap.c of 25,
    core.c of 26, sharedmemory.c of 27, which does not compile, and the second
    versions of programs under example/ except those of lessons 9, 12, 23 and
    24. *)
From Stdlib Require Export Ascii ZArith Lia.
From stdpp Require Export base gmap strings pretty list relations.

(** ** Bytes *)

(** A C [char] is an [ascii]; a buffer or a message is a list of them. *)
Abbreviation bytes := (list ascii).

Definition NUL : ascii := "000"%char.
Definition TAB : ascii := "009"%char.
Definition LF : ascii := "010"%char.
Definition CR : ascii := "013"%char.
Definition SP : ascii := " "%char.

(** String literals of the sources, as bytes. *)
Definition B (s : string) : bytes := String.list_ascii_of_string s.

#[global] Arguments B : simpl never.

(** The decimal conversion of [printf]: [%d], [%u], [%ld]. *)
Definition dec (z : Z) : bytes := B (pretty z).

(** Assignment of a wider integer to an [int]: two's complement, 32 bits. *)
Definition to_int32 (z : Z) : Z := (z + 2 ^ 31) mod 2 ^ 32 - 2 ^ 31.

(** The value of a byte as an [unsigned char]. *)
Definition ord (c : ascii) : Z := Z.of_N (N_of_ascii c).

(** ** Automation *)

Create HintDb web discriminated.

(** Opens existentials and conjunctions, substitutes equations. *)
Ltac dex :=
  repeat match goal with
  | H : ∃ x, _ |- _ => let y := fresh x in destruct H as [y H]
  | H : _ ∧ _ |- _ => destruct H
  end; simplify_eq/=.

(** Case analysis on the scrutinee of a [match] or an [if] of the goal. *)
Ltac case_goal :=
  match goal with
  | |- context [match ?x with _ => _ end] => destruct x eqn:?
  end.

(** Equality of lists up to the association of [++]. *)
Ltac app_eq := repeat (progress (simpl; rewrite <- ?app_assoc)); done.

(** Linear arithmetic over lengths of concatenations. *)
Ltac len_lia := repeat (progress (simpl in *; rewrite ?length_app in * )); lia.

(** ** Generic lemmas on lists *)

Section lists.
Context {A : Type}.
Implicit Types l k : list A.

Lemma drop_app_exact l k : drop (length l) (l ++ k) = k.
Proof. by rewrite drop_app_length. Qed.

Lemma take_app_exact l k : take (length l) (l ++ k) = l.
Proof. by rewrite take_app_length. Qed.

Lemma lookup_app_exact l x k : (l ++ x :: k) !! length l = Some x.
Proof. by rewrite lookup_app_r, Nat.sub_diag. Qed.

Lemma insert_app_exact l x y k : <[length l := y]> (l ++ x :: k) = l ++ y :: k.
Proof. rewrite insert_app_r_alt by lia. by rewrite Nat.sub_diag. Qed.

Lemma drop_cons_lookup n l x k : drop n l = x :: k → l !! n = Some x.
Proof.
  intros H. assert (drop n l !! 0 = Some x) as E by by rewrite H.
  rewrite lookup_drop, Nat.add_0_r in E. done.
Qed.

Lemma drop_S_tail n l x k : drop n l = x :: k → drop (S n) l = k.
Proof. intros H. by rewrite <- Nat.add_1_r, <- drop_drop, H. Qed.
End lists.

(** Facts about small numbers and short texts, checked by enumeration. *)
Lemma forallb_below (P : nat → bool) n : forallb P (seq 0 n) = true → ∀ k, k < n → P k = true.
Proof. rewrite forallb_forall. intros H k Hk. apply H, in_seq. lia. Qed.

(** All words of length [n] over [l]. *)
Fixpoint words {A} (l : list A) (n : nat) : list (list A) :=
  match n with
  | 0 => [[]]
  | S n => flat_map (λ x, map (cons x) (words l n)) l
  end.

Lemma elem_of_words {A} (l w : list A) : Forall (λ x, x ∈ l) w → w ∈ words l (length w).
Proof.
  induction 1 as [|x w Hx _ IH]; simpl; [set_solver|].
  apply list_elem_of_In, in_flat_map. exists x. split; [by apply list_elem_of_In|].
  apply in_map. by apply list_elem_of_In.
Qed.

(** ** Integers *)

Lemma to_int32_id z : (- 2 ^ 31 ≤ z < 2 ^ 31)%Z → to_int32 z = z.
Proof. intros. unfold to_int32. rewrite Z.mod_small; lia. Qed.

Lemma to_int32_range z : (- 2 ^ 31 ≤ to_int32 z < 2 ^ 31)%Z.
Proof. unfold to_int32. pose proof (Z.mod_pos_bound (z + 2 ^ 31) (2 ^ 32)). lia. Qed.

Lemma ord_range c : (0 ≤ ord c < 256)%Z.
Proof. unfold ord. pose proof (N_ascii_bounded c). lia. Qed.

(** ** Decimal texts *)

Lemma length_B s : length (B s) = String.length s.
Proof. induction s as [|a s IH]; [done|]. cbn. by rewrite <- IH. Qed.

Lemma pretty_N_go_length (k : nat) x s :
  (x < 10 ^ N.of_nat k)%N → String.length (pretty_N_go x s) ≤ k + String.length s.
Proof.
  revert x s. induction k as [|k IH]; intros x s Hx.
  - replace x with 0%N by (simpl in Hx; lia). by rewrite pretty_N_go_0.
  - destruct (decide (x = 0%N)) as [->|Hne]; [rewrite pretty_N_go_0; lia|].
    rewrite pretty_N_go_step by lia. etransitivity; [apply IH|simpl; lia].
    apply N.Div0.div_lt_upper_bound. rewrite Nat2N.inj_succ, N.pow_succ_r' in Hx. done.
Qed.

(** A non-negative number below [10 ^ k] takes at most [k] digits. *)
Lemma length_dec (k : nat) z :
  0 < k → (0 ≤ z < 10 ^ Z.of_nat k)%Z → length (dec z) ≤ k.
Proof.
  intros Hk [H0 H1]. unfold dec. rewrite length_B. destruct z as [|p|p]; [simpl; lia| |lia].
  change (pretty (Z.pos p)) with (pretty (N.pos p)). unfold pretty, pretty_N.
  rewrite decide_False by done. etransitivity; [apply (pretty_N_go_length k)|simpl; lia].
  apply N2Z.inj_lt. rewrite N2Z.inj_pow, nat_N_Z. done.
Qed.

(** The digits of a number, whatever holds of every digit and of the sign. *)
Lemma Forall_dec (P : ascii → Prop) z :
  P "-"%char → (∀ n, P (pretty_N_char n)) → Forall P (dec z).
Proof.
  intros Hm Hd.
  assert (∀ k x s, (x < 10 ^ N.of_nat k)%N → Forall P (B s) → Forall P (B (pretty_N_go x s))) as A.
  { induction k as [|k IH]; intros x s Hx Hs.
    - replace x with 0%N by (simpl in Hx; lia). by rewrite pretty_N_go_0.
    - destruct (decide (x = 0%N)) as [->|Hne]; [by rewrite pretty_N_go_0|].
      rewrite pretty_N_go_step by lia. apply IH; [|by constructor].
      apply N.Div0.div_lt_upper_bound. by rewrite Nat2N.inj_succ, N.pow_succ_r' in Hx. }
  assert (∀ p, Forall P (B (pretty (N.pos p)))) as E.
  { intros p. unfold pretty, pretty_N. rewrite decide_False by done.
    apply (A (N.to_nat (N.pos p))); [|constructor]. rewrite N2Nat.id. apply N.pow_gt_lin_r. lia. }
  unfold dec. destruct z as [|p|p]; [constructor; [apply (Hd 0%N)|constructor]|apply E|].
  constructor; [done|]. apply E.
Qed.
