(* ===== verification/CString.v ===== *)
(** * The C string functions of the sources

    A [char *] is a suffix of a buffer; its C string is the part of it
    before the first NUL byte, and is undefined when there is none.  The
    functions below are [<string.h>] and [<stdlib.h>] as the lessons and
    the web server use them, on the C string they receive. *)
From S2P Require Import Prelude.

(** The C string at the start of a buffer. *)
Fixpoint cstr (l : bytes) : option bytes :=
  match l with
  | [] => None
  | c :: k => if Ascii.eqb c NUL then Some [] else (c ::.) <$> cstr k
  end.

(** [strlen] of a buffer, where it is defined. *)
Definition strlen (l : bytes) : option nat := length <$> cstr l.

(** Membership in the character list of [strpbrk] and [strspn]. *)
Definition in_set (set : bytes) (c : ascii) : bool := bool_decide (c ∈ set).

(** Index of the first character of [s] that is in [set]. *)
Fixpoint strpbrk (s set : bytes) : option nat :=
  match s with
  | [] => None
  | c :: k => if in_set set c then Some 0 else S <$> strpbrk k set
  end.

(** Index of the first [c] in [s]. *)
Definition strchr (s : bytes) (c : ascii) : option nat := strpbrk s [c].

(** Length of the longest prefix of [s] inside [set]. *)
Fixpoint strspn (s set : bytes) : nat :=
  match s with
  | [] => 0
  | c :: k => if in_set set c then S (strspn k set) else 0
  end.

(** [tolower] and [toupper] in the C locale. *)
Definition tolower (c : ascii) : ascii :=
  let n := N_of_ascii c in
  if ((65 <=? n) && (n <=? 90))%N then ascii_of_N (n + 32) else c.
Definition toupper (c : ascii) : ascii :=
  let n := N_of_ascii c in
  if ((97 <=? n) && (n <=? 122))%N then ascii_of_N (n - 32) else c.

(** [strcasecmp(s, t) == 0] and [strncasecmp(s, t, n) == 0]. *)
Definition strcaseeq (s t : bytes) : bool :=
  bool_decide (tolower <$> s = tolower <$> t).
Definition strncaseeq (s t : bytes) (n : nat) : bool :=
  strcaseeq (take n s) (take n t).

(** [isspace] and [isdigit] in the C locale. *)
Definition isspace (c : ascii) : bool :=
  let n := N_of_ascii c in (((9 <=? n) && (n <=? 13)) || (n =? 32))%N.
Definition isdigit (c : ascii) : bool :=
  let n := N_of_ascii c in ((48 <=? n) && (n <=? 57))%N.
Definition digit (c : ascii) : Z := Z.of_N (N_of_ascii c) - 48.

Fixpoint digits (acc : Z) (s : bytes) : Z :=
  match s with
  | c :: k => if isdigit c then digits (acc * 10 + digit c) k else acc
  | [] => acc
  end.

Fixpoint skip_spaces (s : bytes) : bytes :=
  match s with
  | c :: k => if isspace c then skip_spaces k else s
  | [] => []
  end.

(** [strtol(s, _, 10)] with a 64-bit [long]: leading white space, a sign,
    then digits, clamped to [LONG_MIN] and [LONG_MAX]. *)
Definition strtol (s : bytes) : Z :=
  let clamp z := Z.max (- 2 ^ 63) (Z.min (2 ^ 63 - 1) z) in
  match skip_spaces s with
  | c :: k =>
      if Ascii.eqb c "-" then clamp (- digits 0 k)
      else if Ascii.eqb c "+" then clamp (digits 0 k)
      else clamp (digits 0 (c :: k))
  | [] => 0
  end%Z.

(** [atoi]: [strtol] truncated to an [int]. *)
Definition atoi (s : bytes) : Z := to_int32 (strtol s).

(** ** Lemmas *)

(** A byte that is not NUL. *)
Definition nonNUL (c : ascii) : Prop := c ≠ NUL.

Lemma cstr_app s k : Forall nonNUL s → cstr (s ++ NUL :: k) = Some s.
Proof.
  induction 1 as [|c s Hc _ IH]; [done|]. simpl.
  destruct (Ascii.eqb_spec c NUL); [done|]. by rewrite IH.
Qed.

Lemma cstr_Some l s :
  cstr l = Some s → Forall nonNUL s ∧ ∃ k, l = s ++ NUL :: k.
Proof.
  revert s. induction l as [|c l IH]; intros s; simpl; [done|].
  destruct (Ascii.eqb_spec c NUL) as [->|Hc].
  - intros [= <-]. split; [constructor|]. by exists l.
  - destruct (cstr l) as [s'|]; intros [= <-].
    destruct (IH s') as [? [k ->]]; [done|]. split; [by constructor|]. by exists k.
Qed.

Lemma cstr_None l : cstr l = None ↔ Forall nonNUL l.
Proof.
  induction l as [|c l IH]; simpl; [split; [constructor|done]|].
  destruct (Ascii.eqb_spec c NUL) as [->|Hc].
  - split; [done|]. by inversion 1.
  - rewrite Forall_cons, <- IH. destruct (cstr l); [split; [done|by intros [_ ?]]|by split].
Qed.

Lemma cstr_defined l : NUL ∈ l → ∃ s, cstr l = Some s.
Proof.
  intros H. destruct (cstr l) as [s|] eqn:E; [by exists s|].
  apply cstr_None in E. rewrite Forall_forall in E. by destruct (E NUL H).
Qed.

Lemma strpbrk_app s k set c :
  Forall (λ x, x ∉ set) s → c ∈ set → strpbrk (s ++ c :: k) set = Some (length s).
Proof.
  intros Hs Hc. induction Hs as [|x s Hx _ IH]; simpl.
  - unfold in_set. by rewrite bool_decide_eq_true_2.
  - unfold in_set at 1. rewrite bool_decide_eq_false_2 by done. by rewrite IH.
Qed.

Lemma strpbrk_None s set : Forall (λ x, x ∉ set) s → strpbrk s set = None.
Proof.
  induction 1 as [|x s Hx _ IH]; simpl; [done|].
  unfold in_set at 1. rewrite bool_decide_eq_false_2 by done. by rewrite IH.
Qed.

Lemma strpbrk_Some s set n :
  strpbrk s set = Some n →
  ∃ s1 c s2, s = s1 ++ c :: s2 ∧ length s1 = n ∧ c ∈ set ∧ Forall (λ x, x ∉ set) s1.
Proof.
  revert n. induction s as [|x s IH]; intros n; simpl; [done|].
  unfold in_set at 1. case_bool_decide as Hx.
  - intros [= <-]. by exists [], x, s.
  - destruct (strpbrk s set) as [m|]; intros [= <-].
    destruct (IH m) as (s1 & c & s2 & -> & <- & Hc & Hs); [done|].
    exists (x :: s1), c, s2. split_and!; try done. by constructor.
Qed.

Lemma strcaseeq_refl s : strcaseeq s s = true.
Proof. unfold strcaseeq. by rewrite bool_decide_eq_true_2. Qed.

Lemma strspn_le s set : strspn s set ≤ length s.
Proof. induction s as [|c s IH]; simpl; [lia|]. case_match; lia. Qed.

(** The C string a text contributes to a buffer: up to its first NUL. *)
Definition upto (s : bytes) : bytes := default s (cstr s).

Lemma cstr_upto s k : cstr (s ++ NUL :: k) = Some (upto s).
Proof.
  unfold upto. induction s as [|c s IH]; simpl; [done|].
  destruct (Ascii.eqb_spec c NUL); [done|]. rewrite IH. by destruct (cstr s).
Qed.

Lemma upto_nonNUL s : Forall nonNUL s → upto s = s.
Proof. intros H. unfold upto. by rewrite (proj2 (cstr_None s) H). Qed.

Lemma upto_terminated s k : Forall nonNUL s → upto (s ++ NUL :: k) = s.
Proof. intros H. unfold upto. by rewrite cstr_app. Qed.

Lemma dec_nonNUL z : Forall nonNUL (dec z).
Proof.
  apply Forall_dec; [done|]. intros n. unfold pretty_N_char, nonNUL. by repeat case_match.
Qed.

(** Literals without NUL, by computation. *)
Lemma B_nonNUL s : forallb (λ c, negb (Ascii.eqb c NUL)) (B s) = true → Forall nonNUL (B s).
Proof.
  rewrite forallb_forall, Forall_forall. intros H c Hc. apply list_elem_of_In, H in Hc.
  by destruct (Ascii.eqb_spec c NUL).
Qed.
#[export] Hint Resolve dec_nonNUL : web.
#[export] Hint Extern 1 (Forall nonNUL (B _)) => apply B_nonNUL; reflexivity : web.
#[export] Hint Extern 1 (Forall nonNUL (_ ++ _)) => apply Forall_app_2 : web.
#[export] Hint Extern 1 (Forall nonNUL (_ :: _)) => constructor : web.
#[export] Hint Extern 1 (Forall nonNUL []) => constructor : web.
#[export] Hint Extern 1 (nonNUL _) => discriminate : web.
