(* ===== verification/HttpConn.v ===== *)
(** * The HTTP connection of the web server

    The data and the operations of [webServer/http_conn.h] and
    [webServer/http_conn.cpp]: the connection object, its reading and
    parsing side ([read], [parseLine], [parseRequestLine], [parseHeader],
    [parseContext], [processRead], [doRequest]), its answering side
    ([addResponse] and its users, [processWrite], [write], [unmap]) and the
    functions on the epoll object.  The theorems about them are in the
    files that follow this one.

    A [char *] member is an offset into [readBuffer]; reading a C string
    that has no terminator inside the buffer is undefined behaviour and
    makes the operation return [None]. *)
From S2P Require Import Prelude CString.

(** ** Constants and enumerations *)

Definition READ_BUFFER_SIZE : nat := 2048.
Definition WRITE_BUFFER_SIZE : nat := 2048.
Definition FILENAME_SIZE : nat := 200.

Inductive METHOD := GET | POST | HEAD | PUT | DELETE | TRACE | OPTIONS | CONNECT.

Inductive CHECK_STATE :=
  CHECK_STATE_REQUESTLINE | CHECK_STATE_HEADER | CHECK_STATE_CONTENT.

Inductive HTTP_CODE :=
  NO_REQUEST | GET_REQUEST | BAD_REQUEST | NO_RESOURCE | FORBIDDEN_REQUEST
| FILE_REQUEST | INTERNAL_ERROR | CLOSED_CONNECTION.

Inductive LINE_STATUS := LINE_OK | LINE_BAD | LINE_OPEN.

#[export] Instance CHECK_STATE_eq_dec : EqDecision CHECK_STATE.
Proof. solve_decision. Defined.
#[export] Instance HTTP_CODE_eq_dec : EqDecision HTTP_CODE.
Proof. solve_decision. Defined.
#[export] Instance LINE_STATUS_eq_dec : EqDecision LINE_STATUS.
Proof. solve_decision. Defined.

(** The status lines and bodies of the answers. *)
Definition ok_200_title := B "OK".
Definition error_400_title := B "Bad Request".
Definition error_400_form := B "Your request has bad syntax or is inherently impossible to satisfy." ++ [LF].
Definition error_403_title := B "Forbidden".
Definition error_403_form := B "You do not have permission to get file from this server." ++ [LF].
Definition error_404_title := B "Not Found".
Definition error_404_form := B "The requested file was not found on this server." ++ [LF].
Definition error_500_title := B "Internal Error".
Definition error_500_form := B "There was an unusual problem serving the requested file." ++ [LF].

Definition documentRoot := B "/workspaces/Web/webServer/resources".

(** ** The connection object *)

(** What [stat] fills and the server uses. *)
Record stat_t := Stat { st_mode : Z; st_size : Z }.

Definition S_IROTH : Z := 4.
Definition S_IFMT : Z := 61440.
Definition S_IFDIR : Z := 16384.
Definition S_ISDIR (m : Z) : bool := (Z.land m S_IFMT =? S_IFDIR)%Z.

(** The address [mmap] gave: [nullptr], [MAP_FAILED], or the mapped bytes. *)
Inductive faddr := FNull | FFailed | FMapped (content : bytes).

(** An [iov_base]: into [writeBuffer], or at an offset from [fileAddress]. *)
Inductive iov_ptr := PWrite (off : Z) | PFile (off : Z).
Record iovec := Iovec { iov_base : iov_ptr; iov_len : Z }.

Record http_conn := HttpConn {
  sockfd : Z  (* the socket of the connection, -1 when closed *);
  readBuffer : bytes  (* READ_BUFFER_SIZE bytes *);
  readIndex : nat  (* one past the last byte received *);
  checkIndex : nat  (* the byte the line parser looks at *);
  startLine : nat  (* where the current line starts *);
  checkState : CHECK_STATE;
  method : METHOD;
  realFile : bytes;
  url : option nat  (* pointers into readBuffer, None for nullptr *);
  version : option nat;
  host : option nat;
  contentLength : Z;
  linger : bool;
  writeBuffer : bytes;
  writeIndex : nat;
  fileAddress : faddr  (* the mapped file *);
  fileStat : stat_t;
  iv0 : iovec  (* iv[0] and iv[1] *);
  iv1 : iovec;
  ivCount : nat;
  bytesHaveSend : Z;
  bytesToSend : Z
}.

Definition set_sockfd (v : Z) (c : http_conn) : http_conn :=
  HttpConn v c.(readBuffer) c.(readIndex) c.(checkIndex) c.(startLine) c.(checkState) c.(method) c.(realFile) c.(url) c.(version) c.(host) c.(contentLength) c.(linger) c.(writeBuffer) c.(writeIndex) c.(fileAddress) c.(fileStat) c.(iv0) c.(iv1) c.(ivCount) c.(bytesHaveSend) c.(bytesToSend).
Definition set_readBuffer (v : bytes) (c : http_conn) : http_conn :=
  HttpConn c.(sockfd) v c.(readIndex) c.(checkIndex) c.(startLine) c.(checkState) c.(method) c.(realFile) c.(url) c.(version) c.(host) c.(contentLength) c.(linger) c.(writeBuffer) c.(writeIndex) c.(fileAddress) c.(fileStat) c.(iv0) c.(iv1) c.(ivCount) c.(bytesHaveSend) c.(bytesToSend).
Definition set_readIndex (v : nat) (c : http_conn) : http_conn :=
  HttpConn c.(sockfd) c.(readBuffer) v c.(checkIndex) c.(startLine) c.(checkState) c.(method) c.(realFile) c.(url) c.(version) c.(host) c.(contentLength) c.(linger) c.(writeBuffer) c.(writeIndex) c.(fileAddress) c.(fileStat) c.(iv0) c.(iv1) c.(ivCount) c.(bytesHaveSend) c.(bytesToSend).
Definition set_checkIndex (v : nat) (c : http_conn) : http_conn :=
  HttpConn c.(sockfd) c.(readBuffer) c.(readIndex) v c.(startLine) c.(checkState) c.(method) c.(realFile) c.(url) c.(version) c.(host) c.(contentLength) c.(linger) c.(writeBuffer) c.(writeIndex) c.(fileAddress) c.(fileStat) c.(iv0) c.(iv1) c.(ivCount) c.(bytesHaveSend) c.(bytesToSend).
Definition set_startLine (v : nat) (c : http_conn) : http_conn :=
  HttpConn c.(sockfd) c.(readBuffer) c.(readIndex) c.(checkIndex) v c.(checkState) c.(method) c.(realFile) c.(url) c.(version) c.(host) c.(contentLength) c.(linger) c.(writeBuffer) c.(writeIndex) c.(fileAddress) c.(fileStat) c.(iv0) c.(iv1) c.(ivCount) c.(bytesHaveSend) c.(bytesToSend).
Definition set_checkState (v : CHECK_STATE) (c : http_conn) : http_conn :=
  HttpConn c.(sockfd) c.(readBuffer) c.(readIndex) c.(checkIndex) c.(startLine) v c.(method) c.(realFile) c.(url) c.(version) c.(host) c.(contentLength) c.(linger) c.(writeBuffer) c.(writeIndex) c.(fileAddress) c.(fileStat) c.(iv0) c.(iv1) c.(ivCount) c.(bytesHaveSend) c.(bytesToSend).
Definition set_method (v : METHOD) (c : http_conn) : http_conn :=
  HttpConn c.(sockfd) c.(readBuffer) c.(readIndex) c.(checkIndex) c.(startLine) c.(checkState) v c.(realFile) c.(url) c.(version) c.(host) c.(contentLength) c.(linger) c.(writeBuffer) c.(writeIndex) c.(fileAddress) c.(fileStat) c.(iv0) c.(iv1) c.(ivCount) c.(bytesHaveSend) c.(bytesToSend).
Definition set_realFile (v : bytes) (c : http_conn) : http_conn :=
  HttpConn c.(sockfd) c.(readBuffer) c.(readIndex) c.(checkIndex) c.(startLine) c.(checkState) c.(method) v c.(url) c.(version) c.(host) c.(contentLength) c.(linger) c.(writeBuffer) c.(writeIndex) c.(fileAddress) c.(fileStat) c.(iv0) c.(iv1) c.(ivCount) c.(bytesHaveSend) c.(bytesToSend).
Definition set_url (v : option nat) (c : http_conn) : http_conn :=
  HttpConn c.(sockfd) c.(readBuffer) c.(readIndex) c.(checkIndex) c.(startLine) c.(checkState) c.(method) c.(realFile) v c.(version) c.(host) c.(contentLength) c.(linger) c.(writeBuffer) c.(writeIndex) c.(fileAddress) c.(fileStat) c.(iv0) c.(iv1) c.(ivCount) c.(bytesHaveSend) c.(bytesToSend).
Definition set_version (v : option nat) (c : http_conn) : http_conn :=
  HttpConn c.(sockfd) c.(readBuffer) c.(readIndex) c.(checkIndex) c.(startLine) c.(checkState) c.(method) c.(realFile) c.(url) v c.(host) c.(contentLength) c.(linger) c.(writeBuffer) c.(writeIndex) c.(fileAddress) c.(fileStat) c.(iv0) c.(iv1) c.(ivCount) c.(bytesHaveSend) c.(bytesToSend).
Definition set_host (v : option nat) (c : http_conn) : http_conn :=
  HttpConn c.(sockfd) c.(readBuffer) c.(readIndex) c.(checkIndex) c.(startLine) c.(checkState) c.(method) c.(realFile) c.(url) c.(version) v c.(contentLength) c.(linger) c.(writeBuffer) c.(writeIndex) c.(fileAddress) c.(fileStat) c.(iv0) c.(iv1) c.(ivCount) c.(bytesHaveSend) c.(bytesToSend).
Definition set_contentLength (v : Z) (c : http_conn) : http_conn :=
  HttpConn c.(sockfd) c.(readBuffer) c.(readIndex) c.(checkIndex) c.(startLine) c.(checkState) c.(method) c.(realFile) c.(url) c.(version) c.(host) v c.(linger) c.(writeBuffer) c.(writeIndex) c.(fileAddress) c.(fileStat) c.(iv0) c.(iv1) c.(ivCount) c.(bytesHaveSend) c.(bytesToSend).
Definition set_linger (v : bool) (c : http_conn) : http_conn :=
  HttpConn c.(sockfd) c.(readBuffer) c.(readIndex) c.(checkIndex) c.(startLine) c.(checkState) c.(method) c.(realFile) c.(url) c.(version) c.(host) c.(contentLength) v c.(writeBuffer) c.(writeIndex) c.(fileAddress) c.(fileStat) c.(iv0) c.(iv1) c.(ivCount) c.(bytesHaveSend) c.(bytesToSend).
Definition set_writeBuffer (v : bytes) (c : http_conn) : http_conn :=
  HttpConn c.(sockfd) c.(readBuffer) c.(readIndex) c.(checkIndex) c.(startLine) c.(checkState) c.(method) c.(realFile) c.(url) c.(version) c.(host) c.(contentLength) c.(linger) v c.(writeIndex) c.(fileAddress) c.(fileStat) c.(iv0) c.(iv1) c.(ivCount) c.(bytesHaveSend) c.(bytesToSend).
Definition set_writeIndex (v : nat) (c : http_conn) : http_conn :=
  HttpConn c.(sockfd) c.(readBuffer) c.(readIndex) c.(checkIndex) c.(startLine) c.(checkState) c.(method) c.(realFile) c.(url) c.(version) c.(host) c.(contentLength) c.(linger) c.(writeBuffer) v c.(fileAddress) c.(fileStat) c.(iv0) c.(iv1) c.(ivCount) c.(bytesHaveSend) c.(bytesToSend).
Definition set_fileAddress (v : faddr) (c : http_conn) : http_conn :=
  HttpConn c.(sockfd) c.(readBuffer) c.(readIndex) c.(checkIndex) c.(startLine) c.(checkState) c.(method) c.(realFile) c.(url) c.(version) c.(host) c.(contentLength) c.(linger) c.(writeBuffer) c.(writeIndex) v c.(fileStat) c.(iv0) c.(iv1) c.(ivCount) c.(bytesHaveSend) c.(bytesToSend).
Definition set_fileStat (v : stat_t) (c : http_conn) : http_conn :=
  HttpConn c.(sockfd) c.(readBuffer) c.(readIndex) c.(checkIndex) c.(startLine) c.(checkState) c.(method) c.(realFile) c.(url) c.(version) c.(host) c.(contentLength) c.(linger) c.(writeBuffer) c.(writeIndex) c.(fileAddress) v c.(iv0) c.(iv1) c.(ivCount) c.(bytesHaveSend) c.(bytesToSend).
Definition set_iv0 (v : iovec) (c : http_conn) : http_conn :=
  HttpConn c.(sockfd) c.(readBuffer) c.(readIndex) c.(checkIndex) c.(startLine) c.(checkState) c.(method) c.(realFile) c.(url) c.(version) c.(host) c.(contentLength) c.(linger) c.(writeBuffer) c.(writeIndex) c.(fileAddress) c.(fileStat) v c.(iv1) c.(ivCount) c.(bytesHaveSend) c.(bytesToSend).
Definition set_iv1 (v : iovec) (c : http_conn) : http_conn :=
  HttpConn c.(sockfd) c.(readBuffer) c.(readIndex) c.(checkIndex) c.(startLine) c.(checkState) c.(method) c.(realFile) c.(url) c.(version) c.(host) c.(contentLength) c.(linger) c.(writeBuffer) c.(writeIndex) c.(fileAddress) c.(fileStat) c.(iv0) v c.(ivCount) c.(bytesHaveSend) c.(bytesToSend).
Definition set_ivCount (v : nat) (c : http_conn) : http_conn :=
  HttpConn c.(sockfd) c.(readBuffer) c.(readIndex) c.(checkIndex) c.(startLine) c.(checkState) c.(method) c.(realFile) c.(url) c.(version) c.(host) c.(contentLength) c.(linger) c.(writeBuffer) c.(writeIndex) c.(fileAddress) c.(fileStat) c.(iv0) c.(iv1) v c.(bytesHaveSend) c.(bytesToSend).
Definition set_bytesHaveSend (v : Z) (c : http_conn) : http_conn :=
  HttpConn c.(sockfd) c.(readBuffer) c.(readIndex) c.(checkIndex) c.(startLine) c.(checkState) c.(method) c.(realFile) c.(url) c.(version) c.(host) c.(contentLength) c.(linger) c.(writeBuffer) c.(writeIndex) c.(fileAddress) c.(fileStat) c.(iv0) c.(iv1) c.(ivCount) v c.(bytesToSend).
Definition set_bytesToSend (v : Z) (c : http_conn) : http_conn :=
  HttpConn c.(sockfd) c.(readBuffer) c.(readIndex) c.(checkIndex) c.(startLine) c.(checkState) c.(method) c.(realFile) c.(url) c.(version) c.(host) c.(contentLength) c.(linger) c.(writeBuffer) c.(writeIndex) c.(fileAddress) c.(fileStat) c.(iv0) c.(iv1) c.(ivCount) c.(bytesHaveSend) v.

(** The byte at index [i] of an array. *)
Definition nthb (buf : bytes) (i : nat) : ascii := default NUL (buf !! i).

(** The C string at offset [p] of [readBuffer]. *)
Definition str_at (c : http_conn) (p : nat) : option bytes :=
  cstr (drop p c.(readBuffer)).

(** ** The epoll object and the counter of users *)

Definition EPOLLIN : Z := 1.
Definition EPOLLOUT : Z := 4.
Definition EPOLLERR : Z := 8.
Definition EPOLLHUP : Z := 16.
Definition EPOLLRDHUP : Z := 8192.
Definition EPOLLONESHOT : Z := 1073741824.
Definition EPOLLET : Z := 2147483648.

(** The kernel state the connections share: the interest list of the epoll
    object, the open descriptors, those in non-blocking mode, and the static
    member [userCount]. *)
Record shared := Shared {
  ep : gmap Z Z;
  opened : gset Z;
  nonblocking : gset Z;
  userCount : Z
}.

(** [epoll_ctl]: the three operations, with their error cases. *)
Definition epoll_add (fd ev : Z) (k : shared) : shared :=
  if decide (fd ∈ k.(opened)) then
    match k.(ep) !! fd with
    | Some _ => k                                                  (* EEXIST *)
    | None => Shared (<[fd := ev]> k.(ep)) k.(opened) k.(nonblocking) k.(userCount)
    end
  else k.                                                          (* EBADF *)
Definition epoll_mod (fd ev : Z) (k : shared) : shared :=
  if decide (fd ∈ k.(opened)) then
    match k.(ep) !! fd with
    | Some _ => Shared (<[fd := ev]> k.(ep)) k.(opened) k.(nonblocking) k.(userCount)
    | None => k                                                    (* ENOENT *)
    end
  else k.
Definition epoll_del (fd : Z) (k : shared) : shared :=
  Shared (delete fd k.(ep)) k.(opened) k.(nonblocking) k.(userCount).
(** [close]: the descriptor also leaves the interest list. *)
Definition close (fd : Z) (k : shared) : shared :=
  Shared (delete fd k.(ep)) (k.(opened) ∖ {[fd]}) (k.(nonblocking) ∖ {[fd]}) k.(userCount).

Definition setnonblocking (fd : Z) (k : shared) : shared :=
  if decide (fd ∈ k.(opened))
  then Shared k.(ep) k.(opened) ({[fd]} ∪ k.(nonblocking)) k.(userCount) else k.

Definition addfd (fd : Z) (one_shot : bool) (k : shared) : shared :=
  let events := Z.lor EPOLLIN EPOLLRDHUP in
  let events := if one_shot then Z.lor events EPOLLONESHOT else events in
  setnonblocking fd (epoll_add fd events k).

Definition removefd (fd : Z) (k : shared) : shared := close fd (epoll_del fd k).

Definition modfd (fd ev : Z) (k : shared) : shared :=
  epoll_mod fd (Z.lor (Z.lor (Z.lor ev EPOLLET) EPOLLONESHOT) EPOLLRDHUP) k.

Definition incr_users (d : Z) (k : shared) : shared :=
  Shared k.(ep) k.(opened) k.(nonblocking) (k.(userCount) + d)%Z.

(** ** Opening and closing a connection *)

Definition close_conn (c : http_conn) (k : shared) : http_conn * shared :=
  if (c.(sockfd) =? -1)%Z then (c, k)
  else (set_sockfd (-1) c, incr_users (-1) (removefd c.(sockfd) k)).

(** The private [init]: every member but the socket, the mapping and the
    vector of buffers. *)
Definition init (c : http_conn) : http_conn :=
  HttpConn c.(sockfd) (replicate READ_BUFFER_SIZE NUL) 0 0 0
    CHECK_STATE_REQUESTLINE GET (replicate FILENAME_SIZE NUL) None None None
    0 false (replicate WRITE_BUFFER_SIZE NUL) 0
    c.(fileAddress) c.(fileStat) c.(iv0) c.(iv1) c.(ivCount) 0 0.

(** The public [init]. *)
Definition init_conn (fd : Z) (c : http_conn) (k : shared) : http_conn * shared :=
  (init (set_sockfd fd c), incr_users 1 (addfd fd true k)).

(** ** Reading *)

(** What successive calls of [recv] on a non-blocking socket meet. *)
Inductive recv_ev := RData (d : bytes) | RAgain | REof | RFail.

(** [recv] of at most [n] bytes: [inl] the bytes, [inr] [true] for [EAGAIN]
    and [inr false] for another error.  No byte is returned at the end of the
    stream, and when [n] is 0 while data is pending. *)
Definition recv (n : nat) (rx : list recv_ev) : (bytes + bool) * list recv_ev :=
  match rx with
  | [] => (inr true, [])
  | RAgain :: r => (inr true, r)
  | REof :: r => (inl [], REof :: r)
  | RFail :: r => (inr false, r)
  | RData d :: r =>
      (inl (take n d), if decide (length d ≤ n) then r else RData (drop n d) :: r)
  end.

(** Bytes stored at offset [p]. *)
Definition store (p : nat) (d buf : bytes) : bytes :=
  take p buf ++ d ++ drop (p + length d) buf.

(** The loop of [read]; every turn consumes an event or fills the buffer. *)
Fixpoint read_loop (fuel : nat) (c : http_conn) (rx : list recv_ev)
  : option (bool * http_conn * list recv_ev) :=
  match fuel with
  | 0 => None
  | S fuel =>
      match recv (READ_BUFFER_SIZE - c.(readIndex)) rx with
      | (inr true, r) => Some (true, c, r)
      | (inr false, r) => Some (false, c, r)
      | (inl [], r) => Some (false, c, r)
      | (inl d, r) =>
          read_loop fuel
            (set_readIndex (c.(readIndex) + length d)
              (set_readBuffer (store c.(readIndex) d c.(readBuffer)) c)) r
      end
  end.

Definition read (fuel : nat) (c : http_conn) (rx : list recv_ev)
  : option (bool * http_conn * list recv_ev) :=
  if decide (READ_BUFFER_SIZE ≤ c.(readIndex)) then Some (false, c, rx)
  else read_loop fuel c rx.

(** ** Splitting the request into lines *)

(** The loop of [parseLine]; [n] is the number of unread bytes. *)
Fixpoint parseLine_loop (n : nat) (c : http_conn) : LINE_STATUS * http_conn :=
  match n with
  | 0 => (LINE_OK, c)
  | S n =>
      let i := c.(checkIndex) in
      let temp := nthb c.(readBuffer) i in
      if Ascii.eqb temp CR then
        if i + 1 =? c.(readIndex) then (LINE_OPEN, c)
        else if Ascii.eqb (nthb c.(readBuffer) (i + 1)) LF then
          (LINE_OK, set_checkIndex (i + 2)
                      (set_readBuffer (<[i + 1 := NUL]> (<[i := NUL]> c.(readBuffer))) c))
        else (LINE_BAD, c)
      else if Ascii.eqb temp LF then
        if (1 <? i) && Ascii.eqb (nthb c.(readBuffer) (i - 1)) CR then
          (LINE_OK, set_checkIndex (i + 1)
                      (set_readBuffer (<[i := NUL]> (<[i - 1 := NUL]> c.(readBuffer))) c))
        else (LINE_BAD, c)
      else parseLine_loop n (set_checkIndex (i + 1) c)
  end%nat.

Definition parseLine (c : http_conn) : LINE_STATUS * http_conn :=
  parseLine_loop (c.(readIndex) - c.(checkIndex)) c.

(** ** Parsing a line *)

Definition blank : bytes := [SP; TAB].

(** [parseRequestLine(readBuffer + text)]. *)
Definition parseRequestLine (text : nat) (c : http_conn) : option (HTTP_CODE * http_conn) :=
  s ← str_at c text;
  match strpbrk s blank with
  | None => Some (BAD_REQUEST, set_url None c)
  | Some i =>
      (* *url++ = '\0' *)
      let u := text + i in
      let c := set_url (Some (u + 1)) (set_readBuffer (<[u := NUL]> c.(readBuffer)) c) in
      m ← str_at c text;
      if negb (strcaseeq m (B "GET")) then Some (BAD_REQUEST, c)
      else
        let c := set_method GET c in
        s ← str_at c (u + 1);
        match strpbrk s blank with
        | None => Some (BAD_REQUEST, set_version None c)
        | Some j =>
            let v := u + 1 + j in
            let c := set_version (Some (v + 1)) (set_readBuffer (<[v := NUL]> c.(readBuffer)) c) in
            ver ← str_at c (v + 1);
            if negb (strcaseeq ver (B "HTTP/1.1")) then Some (BAD_REQUEST, c)
            else
              s ← str_at c (u + 1);
              c ← (if strncaseeq s (B "http://") 7 then
                     s' ← str_at c (u + 1 + 7);
                     Some (set_url ((λ k, u + 1 + 7 + k) <$> strchr s' "/"%char) c)
                   else Some c);
              match c.(url) with
              | None => Some (BAD_REQUEST, c)
              | Some p =>
                  if Ascii.eqb (nthb c.(readBuffer) p) "/"
                  then Some (NO_REQUEST, set_checkState CHECK_STATE_HEADER c)
                  else Some (BAD_REQUEST, c)
              end
        end
  end.

(** [parseHeader(readBuffer + text)].  The second argument of [strtol] is not
    the address of a variable of its own; the value it returns is modelled,
    the stray store of the end pointer is not. *)
Definition parseHeader (text : nat) (c : http_conn) : option (HTTP_CODE * http_conn) :=
  s ← str_at c text;
  match s with
  | [] =>
      if (c.(contentLength) =? 0)%Z then Some (GET_REQUEST, c)
      else Some (NO_REQUEST, set_checkState CHECK_STATE_CONTENT c)
  | _ =>
      if strncaseeq s (B "Connection:") 11 then
        let v := drop 11 s in
        let v := drop (strspn v blank) v in
        Some (NO_REQUEST, if strcaseeq v (B "keep-alive") then set_linger true c else c)
      else if strncaseeq s (B "Content-Length:") 15 then
        let v := drop 15 s in
        let v := drop (strspn v blank) v in
        Some (NO_REQUEST, set_contentLength (to_int32 (strtol v)) c)
      else if strncaseeq s (B "Host:") 5 then
        let v := drop 5 s in
        Some (NO_REQUEST, set_host (Some (text + 5 + strspn v blank)) c)
      else Some (NO_REQUEST, c)
  end.

(** [parseContext(readBuffer + text)]; the sum is undefined when it leaves
    [int], the store [text[contentLength] = 0] when it leaves [readBuffer]. *)
Definition parseContext (text : nat) (c : http_conn) : option (HTTP_CODE * http_conn) :=
  let sum := (c.(contentLength) + Z.of_nat c.(checkIndex))%Z in
  if (2 ^ 31 <=? sum)%Z then None
  else if (Z.of_nat c.(readIndex) >=? sum)%Z then
    let p := (Z.of_nat text + c.(contentLength))%Z in
    if ((0 <=? p) && (p <? Z.of_nat READ_BUFFER_SIZE))%Z then
      Some (GET_REQUEST, set_readBuffer (<[Z.to_nat p := NUL]> c.(readBuffer)) c)
    else None
  else Some (NO_REQUEST, c).

(** ** The requested file *)

(** A file of the file system: its status, its bytes, and whether the server
    may open it. *)
Record fnode := FNode { f_mode : Z; f_content : bytes; f_open : bool }.

(** [strncpy(dst, s, n)]: padded with NUL. *)
Definition strncpy (s : bytes) (n : nat) : bytes :=
  take n s ++ replicate (n - length s) NUL.

Definition mmap (f : fnode) : faddr :=
  if f.(f_open) && negb (length f.(f_content) =? 0)%nat then FMapped f.(f_content) else FFailed.

Definition doRequest (fs : gmap bytes fnode) (c : http_conn) : option (HTTP_CODE * http_conn) :=
  u ← c.(url);
  s ← str_at c u;
  let len := length documentRoot in
  let n := FILENAME_SIZE - len - 1 in
  let c := set_realFile (store len (strncpy s n) (store 0 (documentRoot ++ [NUL]) c.(realFile))) c in
  path ← cstr c.(realFile);
  match fs !! path with
  | None => Some (NO_RESOURCE, c)
  | Some f =>
      let c := set_fileStat (Stat f.(f_mode) (Z.of_nat (length f.(f_content)))) c in
      if (Z.land f.(f_mode) S_IROTH =? 0)%Z then Some (FORBIDDEN_REQUEST, c)
      else if S_ISDIR f.(f_mode) then Some (BAD_REQUEST, c)
      else Some (FILE_REQUEST, set_fileAddress (mmap f) c)
  end.

(** ** The main state machine *)

(** The result of running [processRead]: a code, undefined behaviour, or the
    turns ran out. *)
Inductive outcome := Done (r : HTTP_CODE) (c : http_conn) | Undefined | OutOfFuel.

Definition lift (o : option (HTTP_CODE * http_conn)) (k : HTTP_CODE → http_conn → outcome) : outcome :=
  match o with Some (r, c) => k r c | None => Undefined end.

Fixpoint processRead_loop (fuel : nat) (fs : gmap bytes fnode) (lineStatus : LINE_STATUS)
  (c : http_conn) : outcome :=
  match fuel with
  | 0 => OutOfFuel
  | S fuel =>
      let '(lineStatus, c) :=
        if bool_decide (c.(checkState) = CHECK_STATE_CONTENT) && bool_decide (lineStatus = LINE_OK)
        then (lineStatus, c) else parseLine c in
      if negb (bool_decide (lineStatus = LINE_OK)) then Done NO_REQUEST c
      else
        let text := c.(startLine) in
        let c := set_startLine c.(checkIndex) c in
        match c.(checkState) with
        | CHECK_STATE_REQUESTLINE =>
            lift (parseRequestLine text c) (λ ret c,
              if bool_decide (ret = BAD_REQUEST) then Done BAD_REQUEST c
              else processRead_loop fuel fs lineStatus c)
        | CHECK_STATE_HEADER =>
            lift (parseHeader text c) (λ ret c,
              if bool_decide (ret = BAD_REQUEST) then Done BAD_REQUEST c
              else if bool_decide (ret = GET_REQUEST) then lift (doRequest fs c) Done
              else processRead_loop fuel fs lineStatus c)
        | CHECK_STATE_CONTENT =>
            lift (parseContext text c) (λ ret c,
              if bool_decide (ret = GET_REQUEST) then lift (doRequest fs c) Done
              else processRead_loop fuel fs LINE_OPEN c)
        end
  end.

Definition processRead (fuel : nat) (fs : gmap bytes fnode) (c : http_conn) : outcome :=
  processRead_loop fuel fs LINE_OK c.

(** ** Building the answer *)

(** [addResponse]: [s] is the text [vsnprintf] formats.  It stores at most
    [size - 1] bytes and a NUL, also when the text does not fit. *)
Definition vsnprintf (size : nat) (s : bytes) : bytes :=
  match size with 0 => [] | S m => take m s ++ [NUL] end.

Definition addResponse (s : bytes) (c : http_conn) : bool * http_conn :=
  if decide (WRITE_BUFFER_SIZE ≤ c.(writeIndex)) then (false, c)
  else
    let size := WRITE_BUFFER_SIZE - 1 - c.(writeIndex) in
    let c := set_writeBuffer (store c.(writeIndex) (vsnprintf size s) c.(writeBuffer)) c in
    if decide (size ≤ length s) then (false, c)
    else (true, set_writeIndex (c.(writeIndex) + length s) c).

Definition CRLF : bytes := [CR; LF].

Definition addStatusLine (status : Z) (title : bytes) : http_conn → bool * http_conn :=
  addResponse (B "HTTP/1.1" ++ [SP] ++ dec status ++ [SP] ++ title ++ CRLF).
Definition addContentLength (contentLength : Z) : http_conn → bool * http_conn :=
  addResponse (B "Content-Length: " ++ dec contentLength ++ CRLF).
Definition addContentType : http_conn → bool * http_conn :=
  addResponse (B "Content-Type:" ++ B "text/html" ++ CRLF).
Definition addLinger (c : http_conn) : bool * http_conn :=
  addResponse (B "Connection: " ++ (if c.(linger) then B "keep-alive" else B "close") ++ CRLF) c.
Definition addBlankLine : http_conn → bool * http_conn := addResponse CRLF.
Definition addContent (content : bytes) : http_conn → bool * http_conn := addResponse content.

(** The results of the four calls are not looked at. *)
Definition addHeaders (contentLength : Z) (c : http_conn) : bool * http_conn :=
  let c := (addContentLength contentLength c).2 in
  let c := (addContentType c).2 in
  let c := (addLinger c).2 in
  let c := (addBlankLine c).2 in
  (true, c).

(** The part of [processWrite] the four error codes share. *)
Definition error_response (status : Z) (title form : bytes) (c : http_conn) : bool * http_conn :=
  let c := (addStatusLine status title c).2 in
  let c := (addHeaders (to_int32 (Z.of_nat (length form))) c).2 in
  match addContent form c with
  | (false, c) => (false, c)
  | (true, c) =>
      (true, set_bytesToSend (Z.of_nat c.(writeIndex))
               (set_ivCount 1 (set_iv0 (Iovec (PWrite 0) (Z.of_nat c.(writeIndex))) c)))
  end.

Definition processWrite (ret : HTTP_CODE) (c : http_conn) : bool * http_conn :=
  match ret with
  | INTERNAL_ERROR => error_response 500 error_500_title error_500_form c
  | BAD_REQUEST => error_response 400 error_400_title error_400_form c
  | NO_RESOURCE => error_response 404 error_404_title error_404_form c
  | FORBIDDEN_REQUEST => error_response 403 error_403_title error_403_form c
  | FILE_REQUEST =>
      let c := (addStatusLine 200 ok_200_title c).2 in
      let c := (addHeaders (to_int32 c.(fileStat).(st_size)) c).2 in
      (true,
       set_bytesToSend (to_int32 (Z.of_nat c.(writeIndex) + c.(fileStat).(st_size))%Z)
        (set_ivCount 2
         (set_iv1 (Iovec (PFile 0) c.(fileStat).(st_size))
          (set_iv0 (Iovec (PWrite 0) (Z.of_nat c.(writeIndex))) c))))
  | _ => (false, c)
  end.

(** [process], what a worker thread runs. *)
Definition process (fuel : nat) (fs : gmap bytes fnode) (c : http_conn) (k : shared)
  : option (http_conn * shared) :=
  match processRead fuel fs c with
  | Done NO_REQUEST c => Some (c, modfd c.(sockfd) EPOLLIN k)
  | Done readRet c =>
      let '(writeRet, c) := processWrite readRet c in
      let '(c, k) := if writeRet then (c, k) else close_conn c k in
      Some (c, modfd c.(sockfd) EPOLLOUT k)
  | Undefined | OutOfFuel => None
  end.

(** ** Sending the answer *)

Definition unmap (c : http_conn) : http_conn :=
  match c.(fileAddress) with FNull => c | _ => set_fileAddress FNull c end.

(** What [writev] finds behind an [iovec]: bytes; an address outside the
    user space, which it refuses with [EFAULT] whatever the length; or memory
    outside the object the pointer was made from. *)
Inductive span := Bytes (b : bytes) | Efault | Outside.

(** [(char * )-1], the [MAP_FAILED] that [doRequest] stores unchecked for an
    empty file or one it cannot open, is such an address. *)
Definition iov_bytes (c : http_conn) (v : iovec) : span :=
  let sub off buf :=
    if (v.(iov_len) =? 0)%Z then Bytes []
    else if ((0 <=? off) && (off + v.(iov_len) <=? Z.of_nat (length buf)))%Z
    then Bytes (take (Z.to_nat v.(iov_len)) (drop (Z.to_nat off) buf)) else Outside in
  match v.(iov_base) with
  | PWrite off => sub off c.(writeBuffer)
  | PFile off =>
      match c.(fileAddress) with
      | FMapped d => sub off d
      | FFailed => if (off =? 0)%Z then Efault else Outside
      | FNull => sub off []
      end
  end.

(** [writev] looks at the first [ivCount] vectors, and at all their addresses
    before it sends anything. *)
Definition gather (c : http_conn) : span :=
  match iov_bytes c c.(iv0), (if decide (c.(ivCount) = 1) then Bytes [] else iov_bytes c c.(iv1)) with
  | Bytes a, Bytes b => Bytes (a ++ b)
  | Efault, _ | _, Efault => Efault
  | _, _ => Outside
  end.

(** What successive calls of [writev] meet: the room left in the socket
    buffer, no room, or an error. *)
Inductive writev_ev := WRoom (n : nat) | WAgain | WFail.

(** The result of [write]: the value returned, the connection, the shared
    state, the events left and the bytes that reached the socket. *)
Inductive write_result :=
| WDone (r : bool) (c : http_conn) (k : shared) (tx : list writev_ev) (sent : bytes)
| WUndefined
| WOutOfFuel.

(** [iv[0]] and [iv[1]] after [tmp] more bytes went out. *)
Definition advance (tmp : Z) (c : http_conn) : http_conn :=
  let c := set_bytesToSend (c.(bytesToSend) - tmp)%Z c in
  let c := set_bytesHaveSend (c.(bytesHaveSend) + tmp)%Z c in
  if (c.(bytesHaveSend) >=? c.(iv0).(iov_len))%Z then
    set_iv1 (Iovec (PFile (c.(bytesHaveSend) - Z.of_nat c.(writeIndex))%Z) c.(bytesToSend))
      (set_iv0 (Iovec c.(iv0).(iov_base) 0) c)
  else
    set_iv0 (Iovec (PWrite c.(bytesHaveSend)) (c.(iv0).(iov_len) - tmp)%Z) c.

Fixpoint write_loop (fuel : nat) (c : http_conn) (k : shared) (tx : list writev_ev) (sent : bytes)
  : write_result :=
  match fuel with
  | 0 => WOutOfFuel
  | S fuel =>
      match gather c with
      | Outside => WUndefined
      | Efault => WDone false (unmap c) k (tail tx) sent
      | Bytes data =>
          match tx with
          | [] | WAgain :: _ =>
              WDone true c (modfd c.(sockfd) EPOLLOUT k) (tail tx) sent
          | WFail :: tx => WDone false (unmap c) k tx sent
          | WRoom n :: tx =>
              let out := take n data in
              let c := advance (Z.of_nat (length out)) c in
              if (c.(bytesToSend) <=? 0)%Z then
                let c := unmap c in
                let k := modfd c.(sockfd) EPOLLIN k in
                if c.(linger) then WDone true (init c) k tx (sent ++ out)
                else WDone false c k tx (sent ++ out)
              else write_loop fuel c k tx (sent ++ out)
          end
      end
  end.

Definition write (fuel : nat) (c : http_conn) (k : shared) (tx : list writev_ev) : write_result :=
  if (c.(bytesToSend) =? 0)%Z then WDone true (init c) (modfd c.(sockfd) EPOLLIN k) tx []
  else write_loop fuel c k tx [].
