(* ===== verification/HttpParse.v ===== *)
(** * Reading and parsing an HTTP request

    Theorems about the reading side of [http_conn.cpp]: the line splitter,
    the request line, the headers, the main state machine [processRead] and
    the lookup of the requested file. *)
From S2P Require Import Prelude CString HttpConn.

(** ** The buffer invariant *)

(** The indices are ordered inside the buffer and the bytes that were not
    received are still NUL. *)
Record buf_ok (c : http_conn) : Prop := BufOk {
  ok_size : length c.(readBuffer) = READ_BUFFER_SIZE;
  ok_read : c.(readIndex) ≤ READ_BUFFER_SIZE;
  ok_check : c.(checkIndex) ≤ c.(readIndex);
  ok_start : c.(startLine) ≤ c.(checkIndex);
  ok_tail : ∀ i, c.(readIndex) ≤ i → nthb c.(readBuffer) i = NUL
}.

(** A byte that does not end a line. *)
Definition plain (x : ascii) : Prop := x ≠ CR ∧ x ≠ LF.

Lemma nthb_app_exact l x k : nthb (l ++ x :: k) (length l) = x.
Proof. unfold nthb. by rewrite lookup_app_exact. Qed.

Lemma nthb_insert_NUL l i j : nthb l j = NUL → nthb (<[i := NUL]> l) j = NUL.
Proof.
  unfold nthb. intros H. destruct (decide (i = j)) as [->|].
  - destruct (decide (j < length l)).
    + by rewrite list_lookup_insert_eq.
    + rewrite list_insert_ge by lia. done.
  - by rewrite list_lookup_insert_ne.
Qed.

Lemma eqb_ne x y : x ≠ y → Ascii.eqb x y = false.
Proof. intros. by apply Ascii.eqb_neq. Qed.

(** ** The line splitter *)

Section parse_line.
Implicit Types (c : http_conn) (pre l post : bytes).

Lemma parseLine_skip l c pre post m :
  Forall plain l →
  c.(readBuffer) = pre ++ l ++ post → c.(checkIndex) = length pre →
  parseLine_loop (length l + m) c
  = parseLine_loop m (set_checkIndex (length pre + length l) c).
Proof.
  intros Hl. revert c pre. induction Hl as [|x l [Hcr Hlf] _ IH]; intros c pre Hb Hi.
  - simpl. rewrite Nat.add_0_r, <- Hi. by destruct c.
  - simpl length. rewrite Nat.add_succ_l. cbn [parseLine_loop]. rewrite Hb, Hi.
    simpl. rewrite nthb_app_exact. rewrite !eqb_ne by done.
    rewrite (IH (set_checkIndex (length pre + 1) c) (pre ++ [x])).
    + f_equal. unfold set_checkIndex. simpl. f_equal. rewrite length_app. simpl. lia.
    + simpl. by rewrite Hb, <- app_assoc.
    + simpl. by rewrite length_app.
Qed.

(** A terminated line. *)
Lemma parseLine_line c pre l post :
  Forall plain l →
  c.(readBuffer) = pre ++ l ++ CR :: LF :: post → c.(checkIndex) = length pre →
  length pre + length l + 2 ≤ c.(readIndex) →
  parseLine c = (LINE_OK, set_checkIndex (length pre + length l + 2)
                   (set_readBuffer (pre ++ l ++ NUL :: NUL :: post) c)).
Proof.
  intros Hl Hb Hi Hr. unfold parseLine.
  replace (readIndex c - checkIndex c)
    with (length l + S (readIndex c - checkIndex c - length l - 1)) by lia.
  rewrite (parseLine_skip l c pre (CR :: LF :: post)) by done.
  cbn [parseLine_loop]. simpl. rewrite Hb, app_assoc, <- length_app, nthb_app_exact.
  simpl. destruct (Nat.eqb_spec (length (pre ++ l) + 1) (readIndex c)) as [E|_].
  { rewrite length_app in E. lia. }
  assert ((pre ++ l) ++ CR :: LF :: post = ((pre ++ l) ++ [CR]) ++ LF :: post) as E2
    by by rewrite <- (app_assoc (pre ++ l)).
  assert (length (pre ++ l) + 1 = length ((pre ++ l) ++ [CR])) as E1
    by by rewrite (length_app _ [CR]).
  rewrite E1, E2 at 1. rewrite nthb_app_exact. simpl.
  f_equal. rewrite insert_app_exact.
  replace ((pre ++ l) ++ NUL :: LF :: post) with (((pre ++ l) ++ [NUL]) ++ LF :: post)
    by by rewrite <- app_assoc.
  replace (length (pre ++ l) + 1) with (length ((pre ++ l) ++ [NUL]))
    by by rewrite (length_app _ [NUL]).
  rewrite insert_app_exact. unfold set_checkIndex, set_readBuffer. simpl.
  f_equal. by rewrite <- !app_assoc.
Qed.

(** Received bytes without a line end. *)
Lemma parseLine_plain c pre l post :
  Forall plain l →
  c.(readBuffer) = pre ++ l ++ post → c.(checkIndex) = length pre →
  c.(readIndex) = length pre + length l →
  parseLine c = (LINE_OK, set_checkIndex (readIndex c) c).
Proof.
  intros Hl Hb Hi Hr. unfold parseLine.
  replace (readIndex c - checkIndex c) with (length l + 0) by lia.
  rewrite (parseLine_skip l c pre post) by done. simpl. by rewrite Hr.
Qed.

(** A CR that is the last byte received. *)
Lemma parseLine_cr_last c pre l post :
  Forall plain l →
  c.(readBuffer) = pre ++ l ++ CR :: post → c.(checkIndex) = length pre →
  c.(readIndex) = length pre + length l + 1 →
  parseLine c = (LINE_OPEN, set_checkIndex (length pre + length l) c).
Proof.
  intros Hl Hb Hi Hr. unfold parseLine.
  replace (readIndex c - checkIndex c) with (length l + 1) by lia.
  rewrite (parseLine_skip l c pre (CR :: post)) by done.
  cbn [parseLine_loop]. simpl. rewrite Hb, app_assoc, <- length_app, nthb_app_exact.
  simpl. rewrite Hr, <- length_app, Nat.eqb_refl. done.
Qed.

(** A CR followed by another byte than LF. *)
Lemma parseLine_cr_bad c pre l x post :
  Forall plain l → x ≠ LF →
  c.(readBuffer) = pre ++ l ++ CR :: x :: post → c.(checkIndex) = length pre →
  length pre + length l + 2 ≤ c.(readIndex) →
  parseLine c = (LINE_BAD, set_checkIndex (length pre + length l) c).
Proof.
  intros Hl Hx Hb Hi Hr. unfold parseLine.
  replace (readIndex c - checkIndex c)
    with (length l + S (readIndex c - checkIndex c - length l - 1)) by lia.
  rewrite (parseLine_skip l c pre (CR :: x :: post)) by done.
  cbn [parseLine_loop]. simpl. rewrite Hb, app_assoc, <- length_app, nthb_app_exact.
  simpl. destruct (Nat.eqb_spec (length (pre ++ l) + 1) (readIndex c)) as [E|_].
  { rewrite length_app in E. lia. }
  replace ((pre ++ l) ++ CR :: x :: post) with (((pre ++ l) ++ [CR]) ++ x :: post)
    by by rewrite <- (app_assoc (pre ++ l)).
  replace (length (pre ++ l) + 1) with (length ((pre ++ l) ++ [CR]))
    by by rewrite (length_app _ [CR]).
  rewrite nthb_app_exact, eqb_ne by done. done.
Qed.
End parse_line.

(** ** Preservation of the invariant *)

Lemma insert_tail c i :
  (∀ j, c.(readIndex) ≤ j → nthb c.(readBuffer) j = NUL) →
  ∀ j, c.(readIndex) ≤ j → nthb (<[i := NUL]> c.(readBuffer)) j = NUL.
Proof. intros H j Hj. by apply nthb_insert_NUL, H. Qed.

(** Storing a NUL in the buffer keeps the invariant. *)
Lemma buf_ok_insert c i : buf_ok c → buf_ok (set_readBuffer (<[i := NUL]> c.(readBuffer)) c).
Proof.
  intros [? ? ? ? Ht]. split; simpl; try done.
  - by rewrite length_insert.
  - by apply insert_tail.
Qed.

Lemma buf_ok_checkIndex c i :
  buf_ok c → c.(startLine) ≤ i ≤ c.(readIndex) → buf_ok (set_checkIndex i c).
Proof. intros [????] ?. split; simpl; try done; lia. Qed.

Lemma buf_ok_startLine c : buf_ok c → buf_ok (set_startLine c.(checkIndex) c).
Proof. intros [????]. by split; simpl. Qed.

(** The members outside the buffer do not matter. *)
Lemma buf_ok_ext c d :
  buf_ok c → d.(readBuffer) = c.(readBuffer) → d.(readIndex) = c.(readIndex) →
  d.(checkIndex) = c.(checkIndex) → d.(startLine) = c.(startLine) → buf_ok d.
Proof. intros [????] E1 E2 E3 E4. split; rewrite ?E1, ?E2, ?E3, ?E4; done. Qed.

#[export] Hint Resolve buf_ok_insert buf_ok_startLine : web.

(** [b'] is [b] with NUL stored in some places. *)
Definition nulled (b b' : bytes) : Prop :=
  length b' = length b ∧ ∀ i, nthb b' i = nthb b i ∨ nthb b' i = NUL.

#[export] Instance nulled_refl : Reflexive nulled.
Proof. intros b. split; auto. Qed.

#[export] Instance nulled_trans : Transitive nulled.
Proof.
  intros a b c [L1 H1] [L2 H2]. split; [congruence|]. intros i.
  destruct (H1 i) as [<-|E]; [done|].
  destruct (H2 i) as [E2|?]; [|by right]. right. by rewrite E2.
Qed.

Lemma nulled_insert b i : nulled b (<[i := NUL]> b).
Proof.
  split; [by rewrite length_insert|]. intros j. destruct (decide (i = j)) as [->|Hne].
  - destruct (decide (j < length b)).
    + right. unfold nthb. by rewrite list_lookup_insert_eq.
    + left. by rewrite list_insert_ge by lia.
  - left. unfold nthb. by rewrite list_lookup_insert_ne.
Qed.

(** What one run of the line splitter does. *)
Record line_of (c d : http_conn) : Prop := LineOf {
  lo_ok : buf_ok d;
  lo_read : d.(readIndex) = c.(readIndex);
  lo_check : c.(checkIndex) ≤ d.(checkIndex);
  lo_start : d.(startLine) = c.(startLine);
  lo_state : d.(checkState) = c.(checkState);
  lo_url : d.(url) = c.(url);
  lo_length : d.(contentLength) = c.(contentLength);
  lo_real : d.(realFile) = c.(realFile);
  lo_buf : nulled c.(readBuffer) d.(readBuffer)
}.

Lemma line_of_end c i j n :
  buf_ok c → c.(checkIndex) ≤ n ≤ c.(readIndex) →
  line_of c (set_checkIndex n
    (set_readBuffer (<[i := NUL]> (<[j := NUL]> c.(readBuffer))) c)).
Proof.
  intros Hc Hn. pose proof (ok_start _ Hc). split; simpl; try done; try lia.
  - apply (buf_ok_checkIndex (set_readBuffer _ c)); simpl; [|lia].
    by apply (buf_ok_insert (set_readBuffer _ c)), buf_ok_insert.
  - etransitivity; apply nulled_insert.
Qed.

Lemma parseLine_loop_of n c :
  buf_ok c → n = c.(readIndex) - c.(checkIndex) →
  line_of c (parseLine_loop n c).2
  ∧ ((parseLine_loop n c).1 = LINE_OK →
     c.(checkIndex) < (parseLine_loop n c).2.(checkIndex) ∨ c.(checkIndex) = c.(readIndex)).
Proof.
  revert c. induction n as [|n IH]; intros c Hc Hn.
  { pose proof (ok_check _ Hc). split; [by split|]. right. lia. }
  cbn [parseLine_loop]. pose proof (ok_check _ Hc).
  destruct (Ascii.eqb (nthb _ _) CR).
  - destruct (Nat.eqb_spec (checkIndex c + 1) (readIndex c)); [split; [by split|done]|].
    destruct (Ascii.eqb _ LF); [|split; [by split|done]].
    split; [|simpl; lia]. apply line_of_end; [done|lia].
  - destruct (Ascii.eqb _ LF).
    + destruct (_ && _)%bool; [|split; [by split|done]].
      split; [|simpl; lia]. apply line_of_end; [done|lia].
    + pose proof (ok_start _ Hc).
      destruct (IH (set_checkIndex (checkIndex c + 1) c)) as [[] Hp]; simpl in *.
      { apply buf_ok_checkIndex; [done|lia]. }
      { lia. }
      split; [split; try done; lia|]. intros. left. lia.
Qed.

Lemma parseLine_of c st d :
  buf_ok c → parseLine c = (st, d) →
  line_of c d ∧ (st = LINE_OK → c.(checkIndex) < d.(checkIndex) ∨ c.(checkIndex) = c.(readIndex)).
Proof.
  intros Hc H. pose proof (parseLine_loop_of _ c Hc eq_refl) as P.
  unfold parseLine in H. by rewrite H in P.
Qed.

(** [d] comes from [c] by storing NUL bytes in the buffer and changing
    members that are not indices of the parser. *)
Record step_of (c d : http_conn) : Prop := StepOf {
  so_read : d.(readIndex) = c.(readIndex);
  so_check : d.(checkIndex) = c.(checkIndex);
  so_start : d.(startLine) = c.(startLine);
  so_real : d.(realFile) = c.(realFile);
  so_buf : nulled c.(readBuffer) d.(readBuffer)
}.

#[export] Instance step_of_refl : Reflexive step_of.
Proof. intros c. by split. Qed.

#[export] Instance step_of_trans : Transitive step_of.
Proof.
  intros c d e [] []. split; try congruence. by etransitivity.
Qed.

Lemma step_of_insert c i : step_of c (set_readBuffer (<[i := NUL]> c.(readBuffer)) c).
Proof. split; simpl; try done. apply nulled_insert. Qed.

(** A change of members the relation does not look at. *)
Lemma step_of_frame c d e :
  step_of c d → e.(readBuffer) = d.(readBuffer) → e.(readIndex) = d.(readIndex) →
  e.(checkIndex) = d.(checkIndex) → e.(startLine) = d.(startLine) →
  e.(realFile) = d.(realFile) → step_of c e.
Proof. intros [????] E1 E2 E3 E4 E5. split; rewrite ?E1, ?E2, ?E3, ?E4, ?E5; done. Qed.

(** One step of a monadic computation of the sources, without unfolding the
    updates of the connection. *)
Ltac open_bind H := cbn beta match zeta delta [mbind option_bind negb] in H.

Ltac frame_of d := apply (step_of_frame _ d); [|reflexivity..].

Ltac step_frame := match goal with |- step_of ?x _ => by frame_of x end.

Lemma step_of_ok c d : buf_ok c → step_of c d → buf_ok d.
Proof.
  intros [? ? ? ? Ht] [E1 E2 E3 _ [E4 Hb]]. split; try lia.
  intros i Hi. destruct (Hb i) as [->|]; [|done]. apply Ht. lia.
Qed.

Lemma parseRequestLine_step text c r d :
  parseRequestLine text c = Some (r, d) →
  step_of c d ∧ (r = BAD_REQUEST
    ∨ (r = NO_REQUEST ∧ d.(checkState) = CHECK_STATE_HEADER
       ∧ ∃ p, d.(url) = Some p ∧ nthb d.(readBuffer) p = "/"%char))
  ∧ d.(contentLength) = c.(contentLength).
Proof.
  unfold parseRequestLine. intros H.
  destruct (str_at c text) as [s|]; open_bind H; [|done].
  destruct (strpbrk s blank) as [i|]; open_bind H.
  2:{ simplify_eq. split_and!; auto. by frame_of c. }
  set (c1 := set_url _ _) in H.
  assert (step_of c c1) as S1.
  { frame_of (set_readBuffer (<[text + i := NUL]> c.(readBuffer)) c). apply step_of_insert. }
  assert (c1.(contentLength) = c.(contentLength)) as L1 by done.
  clearbody c1. destruct (str_at c1 text) as [m|]; open_bind H; [|done].
  destruct (strcaseeq m (B "GET")); open_bind H; [|by simplify_eq; auto].
  destruct (str_at (set_method GET c1) _) as [s2|]; open_bind H; [|done].
  destruct (strpbrk s2 blank) as [j|]; open_bind H.
  2:{ simplify_eq. split_and!; auto. by frame_of c1. }
  set (c2 := set_version _ _) in H.
  assert (step_of c c2) as S2.
  { transitivity c1; [done|].
    frame_of (set_readBuffer (<[text + i + 1 + j := NUL]> c1.(readBuffer)) c1).
    apply step_of_insert. }
  assert (c2.(contentLength) = c.(contentLength)) as L2 by done.
  clearbody c2. destruct (str_at c2 (_ + 1 + j + 1)) as [v|]; open_bind H; [|done].
  destruct (strcaseeq v (B "HTTP/1.1")); open_bind H; [|by simplify_eq; auto].
  destruct (str_at c2 (text + i + 1)) as [s3|]; open_bind H; [|done].
  assert (∃ c3, step_of c c3 ∧ c3.(contentLength) = c.(contentLength) ∧
    match c3.(url) with
    | None => Some (BAD_REQUEST, c3)
    | Some p => if Ascii.eqb (nthb c3.(readBuffer) p) "/"
                then Some (NO_REQUEST, set_checkState CHECK_STATE_HEADER c3)
                else Some (BAD_REQUEST, c3)
    end = Some (r, d)) as (c3 & S3 & L3 & H3).
  { destruct (strncaseeq s3 (B "http://") 7); open_bind H; [|by exists c2].
    destruct (str_at c2 _) as [s4|]; open_bind H; [|done].
    eexists. split_and!; [| |exact H]; [by frame_of c2|done]. }
  destruct (url c3) as [p|] eqn:Eu; [|by simplify_eq; auto].
  destruct (Ascii.eqb_spec (nthb (readBuffer c3) p) "/"); simplify_eq; [|by auto].
  split_and!; [by frame_of c3| |done]. right. split_and!; try done. by exists p.
Qed.

Lemma parseHeader_step text c r d :
  parseHeader text c = Some (r, d) →
  step_of c d ∧ (r = NO_REQUEST ∨ (r = GET_REQUEST ∧ d = c)) ∧ d.(url) = c.(url)
  ∧ (d.(checkState) = c.(checkState) ∨ (d.(checkState) = CHECK_STATE_CONTENT ∧ c.(contentLength) ≠ 0%Z)).
Proof.
  unfold parseHeader. intros H.
  destruct (str_at c text) as [s|]; simpl in H; [|done].
  repeat case_match; simplify_eq; (split_and!; [step_frame|by auto|done|]); auto.
  right. split; [done|]. by apply Z.eqb_neq.
Qed.

Lemma parseContext_step text c r d :
  parseContext text c = Some (r, d) →
  step_of c d ∧ d.(url) = c.(url) ∧ d.(checkState) = c.(checkState) ∧ (r = GET_REQUEST ∨ (r = NO_REQUEST ∧ d = c)).
Proof.
  unfold parseContext. intros H. cbv zeta in H.
  repeat case_match; simplify_eq; split_and!; auto using step_of_insert; done.
Qed.

(** ** The requested file *)

(** The path [doRequest] builds: [realFile] has room for [FILENAME_SIZE - 1]
    bytes, the document root included. *)
Definition resource (s : bytes) : bytes :=
  documentRoot ++ take (FILENAME_SIZE - length documentRoot - 1) s.

(** What the server answers for a path. *)
Definition serve (fs : gmap bytes fnode) (path : bytes) : HTTP_CODE :=
  match fs !! path with
  | None => NO_RESOURCE
  | Some f =>
      if (Z.land f.(f_mode) S_IROTH =? 0)%Z then FORBIDDEN_REQUEST
      else if S_ISDIR f.(f_mode) then BAD_REQUEST
      else FILE_REQUEST
  end.

Lemma store_0 d buf : store 0 d buf = d ++ drop (length d) buf.
Proof. done. Qed.

Lemma store_app p d a b k :
  length a = p → length b = length d → store p d (a ++ b ++ k) = a ++ d ++ k.
Proof.
  intros <- Hb. unfold store. rewrite take_app_exact. f_equal. f_equal.
  by rewrite <- drop_drop, drop_app_exact, <- Hb, drop_app_exact.
Qed.

Lemma length_strncpy s n : length (strncpy s n) = n.
Proof. unfold strncpy. rewrite length_app, length_take, length_replicate. lia. Qed.

Lemma cstr_strncpy s n k : Forall nonNUL s → cstr (strncpy s n ++ NUL :: k) = Some (take n s).
Proof.
  intros Hs. unfold strncpy. rewrite <- app_assoc.
  destruct (n - length s) as [|m]; simpl; apply cstr_app, Forall_take; done.
Qed.

Lemma cstr_app_l a l : Forall nonNUL a → cstr (a ++ l) = (a ++.) <$> cstr l.
Proof.
  induction 1 as [|c a Hc _ IH]; simpl; [by destruct (cstr l)|].
  destruct (Ascii.eqb_spec c NUL); [done|]. rewrite IH. by destruct (cstr l).
Qed.

Lemma documentRoot_nonNUL : Forall nonNUL documentRoot.
Proof. repeat constructor; done. Qed.

(** The name built in a cleared [realFile]. *)
Lemma realFile_path s :
  Forall nonNUL s →
  cstr (store (length documentRoot)
          (strncpy s (FILENAME_SIZE - length documentRoot - 1))
          (store 0 (documentRoot ++ [NUL]) (replicate FILENAME_SIZE NUL)))
  = Some (resource s).
Proof.
  intros Hs. rewrite store_0.
  assert ((documentRoot ++ [NUL]) ++ drop (length (documentRoot ++ [NUL])) (replicate FILENAME_SIZE NUL)
    = documentRoot ++ replicate (FILENAME_SIZE - length documentRoot - 1) NUL ++ [NUL]) as ->
    by by vm_compute.
  rewrite store_app by (rewrite ?length_strncpy, ?length_replicate; done).
  rewrite cstr_app_l by apply documentRoot_nonNUL.
  by rewrite cstr_strncpy.
Qed.

Lemma str_at_nonNUL c p s : str_at c p = Some s → Forall nonNUL s.
Proof. intros H. by apply cstr_Some in H as [? _]. Qed.

Lemma doRequest_spec fs c u s :
  c.(url) = Some u → str_at c u = Some s → c.(realFile) = replicate FILENAME_SIZE NUL →
  ∃ d, doRequest fs c = Some (serve fs (resource s), d)
    ∧ cstr d.(realFile) = Some (resource s) ∧ d.(linger) = c.(linger)
    ∧ d.(sockfd) = c.(sockfd) ∧ d.(writeIndex) = c.(writeIndex) ∧ d.(writeBuffer) = c.(writeBuffer)
    ∧ d.(bytesHaveSend) = c.(bytesHaveSend)
    ∧ (∀ f, fs !! resource s = Some f → serve fs (resource s) = FILE_REQUEST →
        d.(fileStat) = Stat f.(f_mode) (Z.of_nat (length f.(f_content))) ∧ d.(fileAddress) = mmap f).
Proof.
  intros Hu Hs Hr. unfold doRequest, serve.
  pose proof (realFile_path s (str_at_nonNUL _ _ _ Hs)) as Hp.
  rewrite Hu. cbn [mbind option_bind]. rewrite Hs. cbn [mbind option_bind].
  rewrite Hr. cbn [realFile set_realFile]. rewrite Hp. cbn [mbind option_bind].
  destruct (fs !! resource s) as [f|].
  - destruct (Z.land (f_mode f) S_IROTH =? 0)%Z; [by eexists; split_and!; [done|..]|].
    destruct (S_ISDIR (f_mode f)); [by eexists; split_and!; [done|..]|].
    eexists; split_and!; try done. by intros ? [= ->] _.
  - by eexists; split_and!; [done|..].
Qed.

(** ** Definedness *)

Lemma lookup_nthb (l : bytes) i x : l !! i = Some x → nthb l i = x.
Proof. unfold nthb. by intros ->. Qed.

(** A C string that starts in the received part ends in it, or just after. *)
Lemma str_at_bound c p s :
  buf_ok c → p ≤ c.(readIndex) → str_at c p = Some s → p + length s ≤ c.(readIndex).
Proof.
  intros Hc Hp Hs. apply cstr_Some in Hs as [Hn [k Hk]].
  destruct (decide (p + length s ≤ c.(readIndex))); [done|]. exfalso.
  destruct (lookup_lt_is_Some_2 s (c.(readIndex) - p)) as [x Hx]; [lia|].
  assert (nthb c.(readBuffer) c.(readIndex) = x) as E.
  { apply lookup_nthb. replace (readIndex c) with (p + (readIndex c - p)) by lia.
    rewrite <- lookup_drop, Hk. by apply lookup_app_l_Some. }
  rewrite (ok_tail _ Hc) in E by lia.
  rewrite Forall_lookup in Hn. by destruct (Hn _ _ Hx).
Qed.

Lemma str_at_defined c p :
  buf_ok c → c.(readIndex) < READ_BUFFER_SIZE → p ≤ c.(readIndex) →
  ∃ s, str_at c p = Some s ∧ p + length s ≤ c.(readIndex).
Proof.
  intros Hc Hlt Hp.
  assert (NUL ∈ drop p c.(readBuffer)) as Hin.
  { apply list_elem_of_lookup. exists (c.(readIndex) - p).
    rewrite lookup_drop. replace (p + (readIndex c - p)) with (readIndex c) by lia.
    destruct (lookup_lt_is_Some_2 (readBuffer c) (readIndex c)) as [x Hx].
    { rewrite (ok_size _ Hc). done. }
    rewrite Hx. f_equal. rewrite <- (ok_tail _ Hc (readIndex c)) by lia.
    symmetry. by apply lookup_nthb. }
  destruct (cstr_defined _ Hin) as [s Hs]. exists s. split; [done|].
  by apply (str_at_bound c p s).
Qed.

Lemma str_at_lookup c p s i x : str_at c p = Some s → s !! i = Some x → c.(readBuffer) !! (p + i) = Some x.
Proof.
  intros H Hi. apply cstr_Some in H as [_ [k Hk]].
  rewrite <- lookup_drop, Hk. by apply lookup_app_l_Some.
Qed.

(** The position just after a character found in a string is in the string. *)
Lemma strpbrk_lt s set n : strpbrk s set = Some n → n < length s.
Proof. intros (s1 & c & s2 & -> & <- & _)%strpbrk_Some. rewrite length_app. simpl. lia. Qed.

Lemma strncaseeq_length s t n : strncaseeq s t n = true → min n (length s) = min n (length t).
Proof.
  unfold strncaseeq, strcaseeq. intros H%bool_decide_eq_true.
  apply (f_equal length) in H. by rewrite !length_fmap, !length_take in H.
Qed.

Lemma parseRequestLine_defined text c :
  buf_ok c → c.(readIndex) < READ_BUFFER_SIZE → text ≤ c.(readIndex) →
  is_Some (parseRequestLine text c).
Proof.
  intros Hc Hlt Ht. unfold parseRequestLine.
  destruct (str_at_defined c text) as (s & Hs & Hb); [done..|].
  rewrite Hs. cbn [mbind option_bind].
  destruct (strpbrk s blank) as [i|] eqn:Ei; [|done]. cbv zeta.
  apply strpbrk_lt in Ei. set (c1 := set_url _ _).
  assert (step_of c c1) as S1.
  { frame_of (set_readBuffer (<[text + i := NUL]> c.(readBuffer)) c). apply step_of_insert. }
  assert (buf_ok c1) as Hc1 by by eapply step_of_ok.
  assert (c1.(readIndex) = c.(readIndex)) as R1 by apply S1. clearbody c1.
  destruct (str_at_defined c1 text) as (m & -> & _); [lia || done..|].
  cbn [mbind option_bind]. destruct (negb _); [done|].
  destruct (str_at_defined (set_method GET c1) (text + i + 1)) as (s2 & -> & Hb2);
    [by eapply buf_ok_ext|simpl; lia..|].
  cbn [mbind option_bind]. destruct (strpbrk s2 blank) as [j|] eqn:Ej; [|done].
  apply strpbrk_lt in Ej. cbn [readIndex set_method] in Hb2. set (c2 := set_version _ _).
  assert (step_of c1 c2) as S2.
  { frame_of (set_readBuffer (<[text + i + 1 + j := NUL]> c1.(readBuffer)) c1).
    apply step_of_insert. }
  assert (buf_ok c2) as Hc2 by by eapply step_of_ok.
  assert (c2.(readIndex) = c.(readIndex)) as R2 by (rewrite (so_read _ _ S2); done). clearbody c2.
  destruct (str_at_defined c2 (text + i + 1 + j + 1)) as (v & -> & _); [lia || done..|].
  cbn [mbind option_bind]. destruct (negb _); [done|].
  destruct (str_at_defined c2 (text + i + 1)) as (s3 & -> & Hb3); [lia || done..|].
  cbn [mbind option_bind]. destruct (strncaseeq s3 _ 7) eqn:E7; cbn [mbind option_bind].
  - apply strncaseeq_length in E7. change (length (B "http://")) with 7 in E7.
    destruct (str_at_defined c2 (text + i + 1 + 7)) as (s4 & -> & _); [lia || done..|].
    cbn [mbind option_bind]. by repeat case_match.
  - by repeat case_match.
Qed.

(** No position of the buffer reads [Content-Length:]. *)
Definition no_length_header (b : bytes) : Prop :=
  ∀ p, strncaseeq (drop p b) (B "Content-Length:") 15 = false.

Lemma tolower_NUL x : tolower x = NUL → x = NUL.
Proof.
  destruct x as [[][][][][][][][]]; vm_compute; intros H; congruence.
Qed.

Lemma no_length_header_nulled b b' : nulled b b' → no_length_header b → no_length_header b'.
Proof.
  intros [L H] Hb p. destruct (strncaseeq (drop p b') _ 15) eqn:E; [|done].
  assert (take 15 (drop p b') = take 15 (drop p b)) as Eq.
  2:{ specialize (Hb p). unfold strncaseeq in *. congruence. }
  apply list_eq. intros i. destruct (decide (i < 15)); [|by rewrite !lookup_take_ge by lia].
  rewrite !lookup_take_lt, !lookup_drop by lia.
  unfold strncaseeq, strcaseeq in E. apply bool_decide_eq_true in E.
  apply (f_equal (.!! i)) in E. rewrite !list_lookup_fmap, lookup_take_lt, lookup_drop in E by lia.
  destruct (b' !! (p + i)) as [x|] eqn:Ex; cbn in E.
  2:{ symmetry. rewrite lookup_ge_None in Ex |- *. lia. }
  destruct (lookup_lt_is_Some_2 b (p + i)) as [y Hy].
  { rewrite <- L. by eapply lookup_lt_Some. }
  specialize (H (p + i)). rewrite (lookup_nthb _ _ _ Ex), (lookup_nthb _ _ _ Hy) in H.
  destruct H as [->| ->]; [by rewrite Hy|]. exfalso.
  do 15 (destruct i as [|i]; [vm_compute in E; congruence|]). lia.
Qed.

Lemma strncaseeq_app s k t n : strncaseeq s t n = true → n ≤ length t → strncaseeq (s ++ k) t n = true.
Proof.
  intros H Hn. pose proof (strncaseeq_length _ _ _ H). unfold strncaseeq in *.
  rewrite take_app_le by lia. done.
Qed.

Lemma parseHeader_defined text c :
  buf_ok c → c.(readIndex) < READ_BUFFER_SIZE → text ≤ c.(readIndex) →
  c.(contentLength) = 0%Z → no_length_header c.(readBuffer) →
  ∃ r d, parseHeader text c = Some (r, d) ∧ d.(contentLength) = 0%Z
    ∧ (r = NO_REQUEST → text < c.(readIndex)).
Proof.
  intros Hc Hlt Ht H0 Hno. unfold parseHeader.
  destruct (str_at_defined c text) as (s & Hs & Hb); [done..|].
  rewrite Hs. cbn [mbind option_bind]. destruct s as [|x s].
  - rewrite H0. by eexists _, _.
  - assert (strncaseeq (x :: s) (B "Content-Length:") 15 = false) as E.
    { destruct (strncaseeq (x :: s) _ 15) eqn:E; [|done].
      apply cstr_Some in Hs as [_ [k Hk]]. specialize (Hno text). rewrite Hk in Hno.
      rewrite strncaseeq_app in Hno; done. }
    rewrite E. simpl in Hb.
    destruct (strncaseeq _ (B "Connection:") 11); [|destruct (strncaseeq _ (B "Host:") 5)];
      (eexists _, _; split_and!; [done| |lia]; simpl; try done).
    by case_match.
Qed.

(** ** The main state machine returns *)

(** The states [processRead] goes through on a request that announces no
    body. *)
Record parsing (c : http_conn) : Prop := Parsing {
  pa_ok : buf_ok c;
  pa_lt : c.(readIndex) < READ_BUFFER_SIZE;
  pa_length : c.(contentLength) = 0%Z;
  pa_real : c.(realFile) = replicate FILENAME_SIZE NUL;
  pa_no : no_length_header c.(readBuffer);
  pa_state : match c.(checkState) with
             | CHECK_STATE_REQUESTLINE => True
             | CHECK_STATE_HEADER => ∃ p, c.(url) = Some p ∧ p ≤ c.(readIndex)
             | CHECK_STATE_CONTENT => False
             end
}.

(** The turns left: a turn consumes bytes or changes the state. *)
Definition turns (c : http_conn) : nat :=
  c.(readIndex) - c.(startLine) +
  match c.(checkState) with CHECK_STATE_REQUESTLINE => 2 | _ => 1 end.

Lemma parsing_line c d : parsing c → line_of c d → parsing (set_startLine d.(checkIndex) d).
Proof.
  intros [????? Hs] [Hd E1 E2 E3 E4 E5 E6 E7 E8].
  split; simpl; rewrite ?E1, ?E4, ?E5, ?E6, ?E7; try done.
  - by apply buf_ok_startLine.
  - by eapply no_length_header_nulled.
Qed.

Lemma parsing_request c r d text :
  parsing c → c.(checkState) = CHECK_STATE_REQUESTLINE →
  parseRequestLine text c = Some (r, d) → r ≠ BAD_REQUEST → parsing d.
Proof.
  intros [Hok ???? _] Hst H Hr. apply parseRequestLine_step in H as (S & [?|Hn] & Hl); [done|].
  assert (buf_ok d) as Hd by by eapply step_of_ok.
  destruct Hn as (_ & Es & p & Hu & Hp). destruct S as [E1 E2 E3 E4 E5].
  split; rewrite ?E1, ?E4, ?Es; try done; [congruence|by eapply no_length_header_nulled|].
  exists p. split; [done|]. destruct (decide (p ≤ readIndex c)); [done|].
  rewrite (ok_tail _ Hd) in Hp by lia. done.
Qed.

Lemma parsing_header c r d text :
  parsing c → c.(checkState) = CHECK_STATE_HEADER →
  parseHeader text c = Some (r, d) → d.(contentLength) = 0%Z → parsing d.
Proof.
  intros [Hok ? Hl ?? Hst] Hs H Hd. rewrite Hs in Hst.
  apply parseHeader_step in H as (S & _ & Hu & [Es|[_ []]]); [|done].
  assert (buf_ok d) by by eapply step_of_ok.
  destruct S as [E1 E2 E3 E4 E5].
  split; rewrite ?E1, ?E4, ?Es, ?Hs, ?Hu; try done. by eapply no_length_header_nulled.
Qed.

Lemma processRead_loop_turn fuel fs c :
  c.(checkState) ≠ CHECK_STATE_CONTENT →
  processRead_loop (S fuel) fs LINE_OK c =
  (let '(st, c) := parseLine c in
   if negb (bool_decide (st = LINE_OK)) then Done NO_REQUEST c
   else
     let text := c.(startLine) in
     let c := set_startLine c.(checkIndex) c in
     match c.(checkState) with
     | CHECK_STATE_REQUESTLINE =>
         lift (parseRequestLine text c) (λ ret c,
           if bool_decide (ret = BAD_REQUEST) then Done BAD_REQUEST c
           else processRead_loop fuel fs st c)
     | CHECK_STATE_HEADER =>
         lift (parseHeader text c) (λ ret c,
           if bool_decide (ret = BAD_REQUEST) then Done BAD_REQUEST c
           else if bool_decide (ret = GET_REQUEST) then lift (doRequest fs c) Done
           else processRead_loop fuel fs st c)
     | CHECK_STATE_CONTENT =>
         lift (parseContext text c) (λ ret c,
           if bool_decide (ret = GET_REQUEST) then lift (doRequest fs c) Done
           else processRead_loop fuel fs LINE_OPEN c)
     end).
Proof. intros H. cbn [processRead_loop]. by rewrite (bool_decide_eq_false_2 _ H). Qed.

Lemma processRead_loop_returns fuel fs c :
  parsing c → turns c ≤ fuel → ∃ r d, processRead_loop fuel fs LINE_OK c = Done r d.
Proof.
  revert c. induction fuel as [|fuel IH]; intros c Hc Hf.
  { unfold turns in Hf. case_match; lia. }
  rewrite processRead_loop_turn.
  2:{ intros E. pose proof (pa_state _ Hc) as Hst. by rewrite E in Hst. }
  destruct (parseLine c) as [st d] eqn:El.
  destruct (parseLine_of c st d) as [Hl Hp]; [apply Hc|done|].
  destruct (decide (st = LINE_OK)) as [->|Hne]; simpl.
  2:{ rewrite bool_decide_eq_false_2 by done. by eexists _, _. }
  specialize (Hp eq_refl). pose proof (parsing_line c d Hc Hl) as Hd.
  assert (d.(startLine) ≤ d.(readIndex)) as Hsl.
  { pose proof (lo_ok _ _ Hl) as [? ? ? ? _]. lia. }
  assert (c.(startLine) ≤ c.(checkIndex)) as Hsc by apply Hc.
  pose proof (lo_read _ _ Hl) as Er. pose proof (lo_state _ _ Hl) as Es.
  pose proof (lo_start _ _ Hl) as Ess. pose proof (lo_check _ _ Hl) as Ec.
  unfold turns in Hf. destruct (checkState d) eqn:Est.
  - destruct (parseRequestLine_defined (startLine d) (set_startLine (checkIndex d) d)) as [[r e] Hr];
      [apply Hd|simpl; destruct Hc; lia|done|].
    rewrite Hr. simpl. destruct (decide (r = BAD_REQUEST)) as [->|Hb]; simpl.
    { by eexists _, _. }
    rewrite bool_decide_eq_false_2 by done. apply IH.
    { by eapply parsing_request. }
    apply parseRequestLine_step in Hr as ([E1 E2 E3 _ _] & [?|(_ & Eh & _)] & _); [done|].
    unfold turns. rewrite Eh, E1, E3. simpl. rewrite <- Es in Hf. lia.
  - destruct (parseHeader_defined (startLine d) (set_startLine (checkIndex d) d)) as (r & e & Hr & He & Hlt);
      [apply Hd|simpl; destruct Hc; lia|done|apply Hd..|].
    rewrite Hr. simpl. pose proof Hr as Hr'.
    apply parseHeader_step in Hr' as (S & [->|[-> ->]] & Hu & Hcs); simpl.
    + apply IH; [by eapply parsing_header|]. specialize (Hlt eq_refl). simpl in Hlt.
      destruct S as [E1 E2 E3 _ _]. unfold turns. rewrite E1, E3.
      destruct Hcs as [->|[_ []]]; [|apply Hd]. simpl. rewrite Est. rewrite <- Es in Hf. lia.
    + pose proof (pa_state _ Hd) as Hst. simpl in Hst. rewrite Est in Hst. dex.
      destruct (str_at_defined (set_startLine (checkIndex d) d) p) as (s & Hs & _);
        [apply Hd|apply Hd|done|].
      destruct (doRequest_spec fs (set_startLine (checkIndex d) d) p s) as (e & -> & _);
        [done..|apply Hd|]. simpl. by eexists _, _.
  - pose proof (pa_state _ Hd) as Hst. simpl in Hst. by rewrite Est in Hst.
Qed.

(** ** The main state machine hangs on a missing body *)

(** All received bytes are consumed and the announced body is longer. *)
Record starved (c : http_conn) : Prop := Starved {
  sv_state : c.(checkState) = CHECK_STATE_CONTENT;
  sv_check : c.(checkIndex) = c.(readIndex);
  sv_body : (0 < c.(contentLength))%Z;
  sv_fits : (c.(contentLength) + Z.of_nat c.(checkIndex) < 2 ^ 31)%Z
}.

Lemma parseLine_end c : c.(checkIndex) = c.(readIndex) → parseLine c = (LINE_OK, c).
Proof. intros H. unfold parseLine. by rewrite H, Nat.sub_diag. Qed.

Lemma processRead_starved fuel fs st c : starved c → processRead_loop fuel fs st c = OutOfFuel.
Proof.
  revert st c. induction fuel as [|fuel IH]; intros st c [Hs Hc Hb Hf]; [done|].
  cbn [processRead_loop]. rewrite (bool_decide_eq_true_2 _ Hs). simpl.
  assert ((if bool_decide (st = LINE_OK) then (st, c) else parseLine c) = (LINE_OK, c)) as ->.
  { case_bool_decide; [by subst|by apply parseLine_end]. }
  simpl. rewrite Hs. unfold parseContext. simpl.
  destruct (Z.leb_spec (2 ^ 31) (contentLength c + Z.of_nat (checkIndex c))); [lia|].
  destruct (Z.of_nat (readIndex c) >=? contentLength c + Z.of_nat (checkIndex c))%Z eqn:E; [lia|].
  simpl. by apply IH.
Qed.

(** ** Well-formed requests *)

(** The bytes of a request without a body. *)
Definition request (u : bytes) (hs : list bytes) : bytes :=
  B "GET" ++ SP :: u ++ SP :: B "HTTP/1.1" ++ CRLF ++ concat (map (λ h, h ++ CRLF) hs) ++ CRLF.

(** A path: it starts with a slash and has no blank, line end or NUL. *)
Definition url_ok (u : bytes) : Prop :=
  head u = Some ("/"%char) ∧ Forall (λ x, nonNUL x ∧ (x ∉ blank) ∧ plain x) u.

(** A header line other than [Content-Length]. *)
Definition header_ok (h : bytes) : Prop :=
  h ≠ [] ∧ Forall (λ x, nonNUL x ∧ plain x) h ∧ strncaseeq h (B "Content-Length:") 15 = false.

(** The header that asks for a persistent connection. *)
Definition keep_alive (h : bytes) : bool :=
  strncaseeq h (B "Connection:") 11 &&
  (let v := drop 11 h in strcaseeq (drop (strspn v blank) v) (B "keep-alive")).

(** A cleared connection that received [d]. *)
Definition received (d : bytes) (c : http_conn) : http_conn :=
  set_readIndex (length d)
    (set_readBuffer (d ++ replicate (READ_BUFFER_SIZE - length d) NUL) (init c)).

(** The members that parsing leaves alone. *)
Record same_answer (c d : http_conn) : Prop := SameAnswer {
  sa_sockfd : d.(sockfd) = c.(sockfd);
  sa_real : d.(realFile) = c.(realFile);
  sa_wbuf : d.(writeBuffer) = c.(writeBuffer);
  sa_windex : d.(writeIndex) = c.(writeIndex);
  sa_have : d.(bytesHaveSend) = c.(bytesHaveSend)
}.

#[export] Instance same_answer_refl : Reflexive same_answer.
Proof. intros c. by split. Qed.
#[export] Instance same_answer_trans : Transitive same_answer.
Proof. intros c d e [] []. split; congruence. Qed.

Lemma Forall_SP_blank : SP ∈ blank.
Proof. apply list_elem_of_here. Qed.

Lemma insert_at (a : bytes) x y k n : length a = n → <[n := y]> (a ++ x :: k) = a ++ y :: k.
Proof. intros <-. apply insert_app_exact. Qed.

Lemma drop_at (a : bytes) k n : length a = n → drop n (a ++ k) = k.
Proof. intros <-. apply drop_app_exact. Qed.

Lemma http_prefix u : url_ok u → strncaseeq u (B "http://") 7 = false.
Proof. intros [Hh _]. destruct u as [|x u]; simplify_eq/=. done. Qed.

Lemma url_nonNUL u : url_ok u → Forall nonNUL u.
Proof. intros [_ H]. eapply Forall_impl; [done|]. naive_solver. Qed.

Lemma version_nonNUL : Forall nonNUL (B "HTTP/1.1").
Proof. repeat constructor; done. Qed.

Lemma parseRequestLine_get c u post :
  c.(readBuffer) = B "GET" ++ SP :: u ++ SP :: B "HTTP/1.1" ++ NUL :: post → url_ok u →
  parseRequestLine 0 c = Some (NO_REQUEST,
    set_checkState CHECK_STATE_HEADER
      (set_version (Some (4 + length u + 1))
        (set_readBuffer (B "GET" ++ NUL :: u ++ NUL :: B "HTTP/1.1" ++ NUL :: post)
          (set_method GET (set_url (Some 4) c))))).
Proof.
  intros Hb Hu. pose proof (url_nonNUL u Hu) as Hn. pose proof version_nonNUL as Hv.
  unfold parseRequestLine.
  assert (str_at c 0 = Some (B "GET" ++ SP :: u ++ SP :: B "HTTP/1.1")) as ->.
  { unfold str_at. rewrite Hb. rewrite drop_0.
    replace (B "GET" ++ SP :: u ++ SP :: B "HTTP/1.1" ++ NUL :: post)
      with ((B "GET" ++ SP :: u ++ SP :: B "HTTP/1.1") ++ NUL :: post)
      by app_eq.
    apply cstr_app. repeat (constructor; [done|]). apply Forall_app; split; [done|].
    by constructor. }
  cbn beta match zeta delta [mbind option_bind].
  rewrite strpbrk_app by (done || apply Forall_SP_blank || (repeat constructor; set_solver)).
  change (length (B "GET")) with 3. cbv zeta. rewrite Hb, (insert_at (B "GET")) by done.
  set (c1 := set_url _ _). change (0 + 3 + 1) with 4.
  assert (str_at c1 0 = Some (B "GET")) as -> by done. cbn beta match zeta delta [mbind option_bind].
  rewrite strcaseeq_refl. cbn [negb].
  assert (str_at (set_method GET c1) 4 = Some (u ++ SP :: B "HTTP/1.1")) as ->.
  { unfold str_at. cbn [readBuffer set_method c1 set_url set_readBuffer].
    change (cstr (u ++ SP :: B "HTTP/1.1" ++ NUL :: post) = Some (u ++ SP :: B "HTTP/1.1")).
    replace (u ++ SP :: B "HTTP/1.1" ++ NUL :: post) with ((u ++ SP :: B "HTTP/1.1") ++ NUL :: post)
      by app_eq.
    apply cstr_app, Forall_app; split; [done|]. by constructor. }
  cbn beta match zeta delta [mbind option_bind].
  rewrite strpbrk_app; [|eapply Forall_impl; [apply Hu|naive_solver]|apply Forall_SP_blank].
  cbn [readBuffer set_method c1 set_url set_readBuffer].
  replace (<[4 + length u:=NUL]> (B "GET" ++ NUL :: u ++ SP :: B "HTTP/1.1" ++ NUL :: post))
    with (B "GET" ++ NUL :: u ++ NUL :: B "HTTP/1.1" ++ NUL :: post).
  2:{ symmetry. replace (B "GET" ++ NUL :: u ++ SP :: B "HTTP/1.1" ++ NUL :: post)
        with ((B "GET" ++ NUL :: u) ++ SP :: B "HTTP/1.1" ++ NUL :: post) by app_eq.
      rewrite insert_at by done. app_eq. }
  set (c2 := set_version _ _).
  assert (str_at c2 (4 + length u + 1) = Some (B "HTTP/1.1")) as ->.
  { unfold str_at. cbn [readBuffer c2 set_version set_method c1 set_url set_readBuffer].
    replace (B "GET" ++ NUL :: u ++ NUL :: B "HTTP/1.1" ++ NUL :: post)
      with ((B "GET" ++ NUL :: u ++ [NUL]) ++ B "HTTP/1.1" ++ NUL :: post)
      by app_eq.
    rewrite drop_at by (simpl; rewrite length_app; simpl; lia). by apply cstr_app. }
  cbn beta match zeta delta [mbind option_bind]. rewrite strcaseeq_refl. cbn [negb].
  assert (str_at c2 4 = Some u) as ->.
  { unfold str_at. cbn [readBuffer c2 set_version set_method c1 set_url set_readBuffer].
    change (cstr (u ++ NUL :: B "HTTP/1.1" ++ NUL :: post) = Some u). by apply cstr_app. }
  cbn beta match zeta delta [mbind option_bind]. rewrite http_prefix by done.
  cbn [url c2 set_version set_method c1 set_url set_readBuffer readBuffer].
  destruct u as [|x u]; [by destruct Hu|]. destruct Hu as [[= ->] _]. done.
Qed.

(** The effect of one header line on the connection. *)
Lemma parseHeader_line c pre h post :
  c.(readBuffer) = pre ++ h ++ NUL :: post → header_ok h →
  ∃ d, parseHeader (length pre) c = Some (NO_REQUEST, d)
    ∧ d.(linger) = (c.(linger) || keep_alive h)
    ∧ d.(readBuffer) = c.(readBuffer) ∧ d.(readIndex) = c.(readIndex)
    ∧ d.(checkIndex) = c.(checkIndex) ∧ d.(startLine) = c.(startLine)
    ∧ d.(checkState) = c.(checkState) ∧ d.(contentLength) = c.(contentLength)
    ∧ d.(url) = c.(url) ∧ same_answer c d.
Proof.
  intros Hb (Hne & Hf & Hcl). unfold parseHeader, str_at.
  rewrite Hb, drop_app_exact, cstr_app by (eapply Forall_impl; [done|naive_solver]).
  cbn [mbind option_bind]. destruct h as [|x h]; [done|].
  rewrite Hcl. unfold keep_alive. destruct (strncaseeq _ (B "Connection:") 11); simpl.
  - destruct (strcaseeq _ (B "keep-alive")).
    + eexists. split_and!; [done|..]; try done. by rewrite orb_true_r.
    + eexists. split_and!; [done|..]; try done. by rewrite orb_false_r.
  - destruct (strncaseeq _ (B "Host:") 5); eexists; (split_and!; [done|..]; try done);
      by rewrite orb_false_r.
Qed.

Lemma header_plain h : header_ok h → Forall plain h.
Proof. intros (_ & H & _). eapply Forall_impl; [done|naive_solver]. Qed.

(** The headers and the empty line that ends them. *)
Lemma processRead_headers hs fuel fs c pre post :
  c.(readBuffer) = pre ++ concat (map (λ h, h ++ CRLF) hs) ++ CRLF ++ post →
  c.(checkIndex) = length pre → c.(startLine) = length pre →
  c.(readIndex) = length pre + length (concat (map (λ h, h ++ CRLF) hs)) + 2 →
  c.(checkState) = CHECK_STATE_HEADER → c.(contentLength) = 0%Z →
  Forall header_ok hs → length hs < fuel →
  ∃ d post', processRead_loop fuel fs LINE_OK c = lift (doRequest fs d) Done
    ∧ d.(readBuffer) = pre ++ post' ∧ d.(linger) = (c.(linger) || existsb keep_alive hs)
    ∧ d.(url) = c.(url) ∧ same_answer c d.
Proof.
  revert fuel c pre. induction hs as [|h hs IH]; intros fuel c pre Hb Hi Hs Hr Hst Hl Hok Hf.
  - destruct fuel as [|fuel]; [simpl in Hf; lia|].
    rewrite processRead_loop_turn by by rewrite Hst.
    rewrite (parseLine_line c pre [] post); simpl in *; try done; [|lia].
    rewrite Hst. unfold parseHeader, str_at. simpl.
    rewrite Hs, drop_app_exact. simpl. rewrite Hl. simpl.
    eexists _, _. split_and!; [done|simpl; done|simpl; by rewrite orb_false_r|done|done].
  - destruct fuel as [|fuel]; [simpl in Hf; lia|].
    apply Forall_cons in Hok as [Hh Hok]. simpl in Hr, Hf. rewrite !length_app in Hr. simpl in Hr.
    rewrite processRead_loop_turn by by rewrite Hst.
    rewrite (parseLine_line c pre h (concat (map (λ h, h ++ CRLF) hs) ++ CRLF ++ post)).
    2: by apply header_plain. 2:{ rewrite Hb. app_eq. } 2: done. 2: lia.
    simpl. rewrite Hst, Hs. set (c1 := set_startLine _ _).
    destruct (parseHeader_line c1 pre h (NUL :: concat (map (λ h, h ++ CRLF) hs) ++ CRLF ++ post))
      as (d & -> & Hd1 & Hd2 & Hd3 & Hd4 & Hd5 & Hd6 & Hd7 & Hd8 & Hd9); [done|done|].
    simpl. destruct (IH fuel d (pre ++ h ++ [NUL; NUL])) as (e & post' & -> & He & Hli & Hu & Hsa).
    + rewrite Hd2. simpl. app_eq.
    + rewrite Hd4. simpl. rewrite !length_app. simpl. lia.
    + rewrite Hd5. simpl. rewrite !length_app. simpl. lia.
    + rewrite Hd3. simpl. rewrite !length_app. simpl. lia.
    + by rewrite Hd6.
    + by rewrite Hd7.
    + done.
    + lia.
    + eexists _, (h ++ NUL :: NUL :: post'). split_and!; [done|rewrite He; app_eq|..].
      * rewrite Hli, Hd1. simpl. by rewrite orb_assoc.
      * by rewrite Hu, Hd8.
      * etransitivity; [|done]. by transitivity c1.
Qed.

Lemma requestline_plain u : url_ok u → Forall plain (B "GET" ++ SP :: u ++ SP :: B "HTTP/1.1").
Proof.
  intros [_ Hu]. repeat (constructor; [done|]). apply Forall_app. split.
  - eapply Forall_impl; [done|naive_solver].
  - repeat (constructor; [done|]). constructor.
Qed.

Lemma processRead_request_loop fuel fs c u hs :
  url_ok u → Forall header_ok hs → length (request u hs) ≤ READ_BUFFER_SIZE →
  length hs + 1 < fuel →
  ∃ d, processRead fuel fs (received (request u hs) c) = Done (serve fs (resource u)) d
    ∧ cstr d.(realFile) = Some (resource u) ∧ d.(linger) = existsb keep_alive hs
    ∧ d.(sockfd) = c.(sockfd) ∧ d.(writeIndex) = 0
    ∧ d.(writeBuffer) = replicate WRITE_BUFFER_SIZE NUL ∧ d.(bytesHaveSend) = 0%Z
    ∧ (∀ f, fs !! resource u = Some f → serve fs (resource u) = FILE_REQUEST →
        d.(fileStat) = Stat f.(f_mode) (Z.of_nat (length f.(f_content))) ∧ d.(fileAddress) = mmap f).
Proof.
  intros Hu Hh Hlen Hf. unfold processRead. destruct fuel as [|fuel]; [lia|].
  set (c0 := received (request u hs) c).
  set (zeros := replicate (READ_BUFFER_SIZE - length (request u hs)) NUL).
  set (tail := concat (map (λ h, h ++ CRLF) hs) ++ CRLF ++ zeros).
  set (line := B "GET" ++ SP :: u ++ SP :: B "HTTP/1.1").
  assert (c0.(readBuffer) = [] ++ line ++ CR :: LF :: tail) as Hb.
  { unfold c0, received, request, line, tail. simpl. app_eq. }
  assert (length (request u hs) = length line + 2 + length (concat (map (λ h, h ++ CRLF) hs)) + 2) as Hl.
  { unfold request, line. len_lia. }
  rewrite processRead_loop_turn by done.
  rewrite (parseLine_line c0 [] line tail); [|by apply requestline_plain|done|done|].
  2:{ change (length line + 2 ≤ length (request u hs)). lia. }
  simpl. rewrite (parseRequestLine_get _ u (NUL :: tail)); [|unfold line; simpl; app_eq|done].
  simpl. set (c1 := set_checkState _ _).
  destruct (processRead_headers hs fuel fs c1 (B "GET" ++ NUL :: u ++ NUL :: B "HTTP/1.1" ++ [NUL; NUL]) zeros)
    as (d & post' & -> & Hd & Hli & Hurl & Hsa).
  - simpl. unfold tail. app_eq.
  - unfold line. len_lia.
  - unfold line. len_lia.
  - change (readIndex c1) with (length (request u hs)). rewrite Hl. unfold line.
    clear Hl. len_lia.
  - done.
  - done.
  - done.
  - lia.
  - destruct (doRequest_spec fs d 4 u) as (e & -> & H1 & H2 & H3 & H4 & H5 & H6 & H7).
    + by rewrite Hurl.
    + unfold str_at. rewrite Hd.
      change (cstr ((u ++ NUL :: B "HTTP/1.1" ++ [NUL; NUL]) ++ post') = Some u).
      rewrite <- app_assoc. apply cstr_app. by apply url_nonNUL.
    + by rewrite (sa_real _ _ Hsa).
    + destruct Hsa as [S1 S2 S3 S4 S5]. eexists. split_and!; [done|done|..]; try congruence.
      * by rewrite H2, Hli.
      * by rewrite H3, S1.
      * by rewrite H4, S4.
      * by rewrite H5, S3.
      * by rewrite H6, S5.
      * done.
Qed.

(** ** A request whose body is missing *)

(** The value of a [Content-Length] header, and the length announced after a
    header line, when it was [n] before it. *)
Definition length_value (h : bytes) : Z :=
  let v := drop 15 h in to_int32 (strtol (drop (strspn v blank) v)).
Definition announce (n : Z) (h : bytes) : Z :=
  if strncaseeq h (B "Content-Length:") 15 then length_value h else n.

(** Any header line. *)
Definition line_ok (h : bytes) : Prop := h ≠ [] ∧ Forall (λ x, nonNUL x ∧ plain x) h.

Lemma connection_announces h : strncaseeq h (B "Connection:") 11 = true → strncaseeq h (B "Content-Length:") 15 = false.
Proof.
  unfold strncaseeq, strcaseeq. intros H%bool_decide_eq_true. apply bool_decide_eq_false. intros H2.
  apply (f_equal (take 11)) in H2. rewrite <- !fmap_take, take_take in H2. change (11 `min` 15) with 11 in H2. by rewrite H in H2.
Qed.

Lemma parseHeader_announce c pre h post :
  c.(readBuffer) = pre ++ h ++ NUL :: post → line_ok h →
  ∃ d, parseHeader (length pre) c = Some (NO_REQUEST, d)
    ∧ d.(contentLength) = announce c.(contentLength) h
    ∧ d.(readBuffer) = c.(readBuffer) ∧ d.(readIndex) = c.(readIndex)
    ∧ d.(checkIndex) = c.(checkIndex) ∧ d.(startLine) = c.(startLine) ∧ d.(checkState) = c.(checkState).
Proof.
  intros Hb [Hne Hf]. unfold parseHeader, str_at.
  rewrite Hb, drop_app_exact, cstr_app by (eapply Forall_impl; [done|naive_solver]).
  cbn [mbind option_bind]. destruct h as [|x h]; [done|]. unfold announce.
  destruct (strncaseeq _ (B "Connection:") 11) eqn:Ec.
  - rewrite (connection_announces _ Ec). cbv zeta. destruct (strcaseeq _ _); eexists; by split_and!.
  - destruct (strncaseeq _ (B "Content-Length:") 15); [eexists; by split_and!|].
    destruct (strncaseeq _ (B "Host:") 5); eexists; by split_and!.
Qed.

(** The part of the body that is there, without line ends, is taken for a line;
    then nothing moves any more. *)
Lemma processRead_body_missing fuel fs c pre b post :
  c.(readBuffer) = pre ++ b ++ post → c.(checkIndex) = length pre → c.(readIndex) = length pre + length b →
  c.(checkState) = CHECK_STATE_CONTENT → Forall plain b →
  (Z.of_nat (length b) < c.(contentLength))%Z → (c.(contentLength) + Z.of_nat c.(readIndex) < 2 ^ 31)%Z →
  processRead_loop fuel fs LINE_OK c = OutOfFuel.
Proof.
  intros Hb Hi Hr Hs Hp Hn Hm. destruct fuel as [|fuel]; [done|]. cbn [processRead_loop].
  rewrite (bool_decide_eq_true_2 _ Hs). simpl. rewrite Hs. unfold parseContext. cbn [contentLength checkIndex readIndex set_startLine].
  destruct (Z.leb_spec (2 ^ 31) (contentLength c + Z.of_nat (checkIndex c))); [lia|].
  destruct (Z.of_nat (readIndex c) >=? contentLength c + Z.of_nat (checkIndex c))%Z eqn:E; [lia|]. cbn [lift].
  rewrite bool_decide_eq_false_2 by done. set (c1 := set_startLine _ _).
  destruct fuel as [|fuel]; [done|]. cbn [processRead_loop]. rewrite andb_false_r.
  rewrite (parseLine_plain c1 pre b post) by done. simpl. rewrite Hs. unfold parseContext.
  cbn [contentLength checkIndex readIndex set_startLine set_checkIndex].
  change (contentLength c1) with (contentLength c). change (readIndex c1) with (readIndex c).
  destruct (Z.leb_spec (2 ^ 31) (contentLength c + Z.of_nat (readIndex c))); [lia|].
  destruct (Z.of_nat (readIndex c) >=? contentLength c + Z.of_nat (readIndex c))%Z eqn:E2; [lia|]. cbn [lift].
  rewrite bool_decide_eq_false_2 by done. apply processRead_starved. split; try done; cbn; lia.
Qed.

Lemma processRead_headers_missing hs fuel fs c pre b post :
  c.(readBuffer) = pre ++ concat (map (λ h, h ++ CRLF) hs) ++ CRLF ++ b ++ post →
  c.(checkIndex) = length pre → c.(startLine) = length pre →
  c.(readIndex) = length pre + length (concat (map (λ h, h ++ CRLF) hs)) + 2 + length b →
  c.(checkState) = CHECK_STATE_HEADER → Forall line_ok hs → Forall plain b →
  (Z.of_nat (length b) < foldl announce c.(contentLength) hs)%Z →
  (foldl announce c.(contentLength) hs + Z.of_nat c.(readIndex) < 2 ^ 31)%Z →
  processRead_loop fuel fs LINE_OK c = OutOfFuel.
Proof.
  revert fuel c pre. induction hs as [|h hs IH]; intros fuel c pre Hb Hi Hs Hr Hst Hok Hp Hn Hm;
    (destruct fuel as [|fuel]; [done|]); rewrite processRead_loop_turn by by rewrite Hst.
  - rewrite (parseLine_line c pre [] (b ++ post)); simpl in *; try done; [|lia].
    rewrite Hst. unfold parseHeader, str_at. simpl. rewrite Hs, drop_app_exact. simpl.
    destruct (Z.eqb_spec (contentLength c) 0); [lia|]. simpl.
    apply (processRead_body_missing fuel fs _ (pre ++ [NUL; NUL]) b post); cbn; try done.
    + app_eq.
    + len_lia.
    + len_lia.
  - apply Forall_cons in Hok as [Hh Hok]. simpl in Hr, Hn, Hm. rewrite !length_app in Hr. simpl in Hr.
    rewrite (parseLine_line c pre h (concat (map (λ h, h ++ CRLF) hs) ++ CRLF ++ b ++ post)).
    2:{ eapply Forall_impl; [apply Hh|naive_solver]. } 2:{ rewrite Hb. app_eq. } 2: done. 2: lia.
    simpl. rewrite Hst, Hs. set (c1 := set_startLine _ _).
    destruct (parseHeader_announce c1 pre h (NUL :: concat (map (λ h, h ++ CRLF) hs) ++ CRLF ++ b ++ post))
      as (d & -> & Hd1 & Hd2 & Hd3 & Hd4 & Hd5 & Hd6); [done|done|].
    simpl. change (contentLength c1) with (contentLength c) in Hd1. rewrite <- Hd1 in Hn, Hm.
    change (readIndex c1) with (readIndex c) in Hd3.
    apply (IH fuel d (pre ++ h ++ [NUL; NUL])); try done.
    + rewrite Hd2. simpl. app_eq.
    + rewrite Hd4. simpl. rewrite !length_app. simpl. lia.
    + rewrite Hd5. simpl. rewrite !length_app. simpl. lia.
    + rewrite Hd3. simpl. rewrite !length_app. simpl. lia.
    + by rewrite Hd6.
    + by rewrite Hd3.
Qed.

Lemma processRead_missing fuel fs c u hs b :
  url_ok u → Forall line_ok hs → Forall plain b → length (request u hs ++ b) ≤ READ_BUFFER_SIZE →
  (Z.of_nat (length b) < foldl announce 0 hs < 2 ^ 31 - 2048)%Z →
  processRead fuel fs (received (request u hs ++ b) c) = OutOfFuel.
Proof.
  intros Hu Hh Hp Hlen Hn. unfold processRead. destruct fuel as [|fuel]; [done|].
  set (c0 := received (request u hs ++ b) c).
  set (zeros := replicate (READ_BUFFER_SIZE - length (request u hs ++ b)) NUL).
  set (tail := concat (map (λ h, h ++ CRLF) hs) ++ CRLF ++ b ++ zeros).
  set (line := B "GET" ++ SP :: u ++ SP :: B "HTTP/1.1").
  assert (c0.(readBuffer) = [] ++ line ++ CR :: LF :: tail) as Hb.
  { change (readBuffer c0) with ((request u hs ++ b) ++ zeros). clearbody zeros. unfold request, line, tail. app_eq. }
  assert (length (request u hs ++ b) = length line + 2 + length (concat (map (λ h, h ++ CRLF) hs)) + 2 + length b) as Hl.
  { unfold request, line. len_lia. }
  rewrite processRead_loop_turn by done.
  rewrite (parseLine_line c0 [] line tail); [|by apply requestline_plain|done|done|].
  2:{ change (length line + 2 ≤ length (request u hs ++ b)). lia. }
  simpl. rewrite (parseRequestLine_get _ u (NUL :: tail)); [|unfold line; simpl; app_eq|done].
  simpl. set (c1 := set_checkState _ _).
  assert (readIndex c1 = length (request u hs ++ b)) as Hri by done. change READ_BUFFER_SIZE with 2048 in Hlen.
  apply (processRead_headers_missing hs fuel fs c1 (B "GET" ++ NUL :: u ++ NUL :: B "HTTP/1.1" ++ [NUL; NUL]) b zeros);
    try done; try (rewrite Hri; change (contentLength c1) with 0%Z; lia).
  - simpl. unfold tail. app_eq.
  - unfold line. len_lia.
  - unfold line. len_lia.
  - rewrite Hri, Hl. unfold line. clear Hl. len_lia.
  - change (contentLength c1) with 0%Z. lia.
Qed.

(** ** Receiving *)

Lemma store_received d x n :
  length d + length x ≤ n →
  store (length d) x (d ++ replicate (n - length d) NUL)
  = (d ++ x) ++ replicate (n - length (d ++ x)) NUL.
Proof.
  intros H. replace (n - length d) with (length x + (n - length (d ++ x))) by len_lia.
  rewrite replicate_add, store_app by (rewrite ?length_replicate; done). app_eq.
Qed.

Lemma read_loop_chunks fuel chunks d c rx :
  Forall (λ x, x ≠ []) chunks → length (d ++ concat chunks) ≤ READ_BUFFER_SIZE →
  length chunks < fuel →
  read_loop fuel (received d c) (map RData chunks ++ RAgain :: rx)
  = Some (true, received (d ++ concat chunks) c, rx).
Proof.
  revert fuel d. induction chunks as [|x chunks IH]; intros fuel d Hne Hlen Hf.
  - destruct fuel; [simpl in Hf; lia|]. simpl. by rewrite app_nil_r.
  - destruct fuel as [|fuel]; [simpl in Hf; lia|]. apply Forall_cons in Hne as [Hx Hne].
    simpl concat in *. rewrite !length_app in Hlen.
    cbn [read_loop map app recv readIndex received set_readIndex].
    rewrite take_ge, decide_True by lia.
    destruct x as [|a x]; [done|]. set (y := a :: x) in *.
    replace (set_readIndex (length d + length y) _) with (received (d ++ y) c).
    { rewrite (IH fuel (d ++ y)); [|done|rewrite !length_app; lia|simpl in Hf; lia].
      by rewrite <- app_assoc. }
    unfold received. rewrite <- store_received by lia.
    unfold set_readIndex, set_readBuffer. simpl. by rewrite length_app.
Qed.

Lemma read_loop_overflow fuel chunks d c rx :
  Forall (λ x, x ≠ []) chunks → length d ≤ READ_BUFFER_SIZE →
  READ_BUFFER_SIZE < length (d ++ concat chunks) → length chunks + 1 < fuel →
  ∃ c' rx', read_loop fuel (received d c) (map RData chunks ++ rx) = Some (false, c', rx').
Proof.
  revert fuel d. induction chunks as [|x chunks IH]; intros fuel d Hne Hd Hlen Hf.
  { simpl in Hlen. rewrite app_nil_r in Hlen. lia. }
  destruct fuel as [|fuel]; [lia|]. apply Forall_cons in Hne as [Hx Hne].
  simpl concat in Hlen. rewrite !length_app in Hlen.
  cbn [read_loop map app recv readIndex received set_readIndex].
  destruct (decide (length d = READ_BUFFER_SIZE)) as [E|E].
  { rewrite E, Nat.sub_diag. simpl. by eexists _, _. }
  destruct (take (READ_BUFFER_SIZE - length d) x) as [|a y] eqn:Et.
  { destruct x; [done|]. destruct (READ_BUFFER_SIZE - length d) eqn:E2; [lia|done]. }
  rewrite <- Et. pose proof (length_take x (READ_BUFFER_SIZE - length d)) as L.
  set (y' := take (READ_BUFFER_SIZE - length d) x) in *. clear Et a y.
  replace (set_readIndex (length d + length y') _) with (received (d ++ y') c).
  2:{ unfold received. rewrite <- store_received by lia.
      unfold set_readIndex, set_readBuffer. simpl. by rewrite length_app. }
  case_decide as Hle.
  - unfold y' in *. rewrite take_ge in * by lia. simpl in Hf.
    apply IH; rewrite ?length_app in *; try done; lia.
  - destruct fuel as [|fuel]; [simpl in Hf; lia|].
    cbn [read_loop recv readIndex received set_readIndex].
    assert (READ_BUFFER_SIZE - length (d ++ y') = 0) as -> by (rewrite length_app; lia).
    simpl. by eexists _, _.
Qed.

Lemma received_nil c : received [] c = init c.
Proof. done. Qed.

(** ** Requests without their end *)

Lemma cstr_zeros n : 0 < n → cstr (replicate n NUL) = Some [].
Proof. by destruct n; [lia|]. Qed.

Lemma parseHeader_blank text c :
  str_at c text = Some [] → c.(contentLength) = 0%Z →
  parseHeader text c = Some (GET_REQUEST, c).
Proof. intros Hs Hl. unfold parseHeader. by rewrite Hs, Hl. Qed.

Lemma processRead_cut_line fuel fs c u :
  url_ok u → length (B "GET" ++ SP :: u ++ SP :: B "HTTP/1.1") + 1 < READ_BUFFER_SIZE → 1 < fuel →
  ∃ d, processRead fuel fs (received (B "GET" ++ SP :: u ++ SP :: B "HTTP/1.1") c)
       = Done (serve fs (resource u)) d.
Proof.
  intros Hu Hlen Hf. unfold processRead.
  destruct fuel as [|fuel]; [lia|].
  set (line := B "GET" ++ SP :: u ++ SP :: B "HTTP/1.1") in *.
  set (c0 := received line c).
  destruct (READ_BUFFER_SIZE - length line) as [|[|n]] eqn:En; [lia..|].
  assert (c0.(readBuffer) = [] ++ line ++ NUL :: NUL :: replicate n NUL) as Hb.
  { unfold c0, received. cbn [readBuffer set_readIndex set_readBuffer]. by rewrite En. }
  rewrite processRead_loop_turn by done.
  rewrite (parseLine_plain c0 [] line (NUL :: NUL :: replicate n NUL));
    [|by apply requestline_plain|done..].
  cbn [bool_decide negb]. simpl. rewrite (parseRequestLine_get _ u (NUL :: replicate n NUL)).
  2:{ cbn [readBuffer set_startLine set_checkIndex]. rewrite Hb. unfold line. app_eq. }
  2: done.
  cbn [lift]. set (c1 := set_checkState _ _).
  rewrite bool_decide_eq_false_2 by done. destruct fuel as [|fuel]; [lia|].
  rewrite processRead_loop_turn, parseLine_end by done.
  cbv beta zeta iota. rewrite bool_decide_eq_true_2 by done. cbv beta iota delta [negb].
  change (checkState (set_startLine (checkIndex c1) c1)) with CHECK_STATE_HEADER.
  change (startLine c1) with (length line). cbv beta iota.
  set (c2 := set_startLine (checkIndex c1) c1).
  assert (c2.(readBuffer)
          = (B "GET" ++ NUL :: u ++ NUL :: B "HTTP/1.1") ++ NUL :: NUL :: replicate n NUL) as Hb2.
  { unfold c2, c1. cbn [readBuffer set_startLine set_checkState set_version set_readBuffer]. app_eq. }
  rewrite parseHeader_blank.
  - destruct (doRequest_spec fs c2 4 u) as (e & He & _); [done| |done|].
    + unfold str_at. rewrite Hb2.
      change (cstr ((u ++ NUL :: B "HTTP/1.1") ++ NUL :: NUL :: replicate n NUL) = Some u).
      rewrite <- app_assoc. apply cstr_app. by apply url_nonNUL.
    + exists e. cbn [lift]. rewrite bool_decide_eq_false_2, bool_decide_eq_true_2 by done.
      by rewrite He.
  - unfold str_at. rewrite Hb2, drop_at; [done|unfold line; len_lia].
  - done.
Qed.

(** ** The invariant over the whole state machine *)

Lemma doRequest_ok fs c r d : buf_ok c → doRequest fs c = Some (r, d) → buf_ok d.
Proof.
  unfold doRequest. intros Hc H.
  destruct (url c); open_bind H; [|done]. destruct (str_at c _); open_bind H; [|done].
  destruct (cstr _); open_bind H; [|done].
  repeat case_match; simplify_eq; by apply (buf_ok_ext c).
Qed.

Lemma lift_Done o k r d : lift o k = Done r d → ∃ r' c', o = Some (r', c') ∧ k r' c' = Done r d.
Proof. destruct o as [[r' c']|]; simpl; [|done]. by exists r', c'. Qed.

Lemma processRead_loop_ok fuel fs st c r d :
  buf_ok c → processRead_loop fuel fs st c = Done r d → buf_ok d.
Proof.
  revert st c. induction fuel as [|fuel IH]; intros st c Hc H; [done|].
  cbn [processRead_loop] in H. set (lc := if _ && _ then _ else _) in H.
  assert (buf_ok lc.2) as Hlc.
  { unfold lc. destruct (_ && _)%bool; [done|]. destruct (parseLine c) as [st' e] eqn:E.
    by apply parseLine_of in E as [[] _]. }
  clearbody lc. destruct lc as [st' e]. simpl in Hlc.
  destruct (negb _); [by simplify_eq|]. cbv zeta in H.
  assert (buf_ok (set_startLine (checkIndex e) e)) as He by by apply buf_ok_startLine.
  set (e' := set_startLine _ _) in *. clearbody e'. destruct (checkState e').
  - apply lift_Done in H as (r' & c' & Hp & H).
    apply parseRequestLine_step in Hp as [S _]. pose proof (step_of_ok _ _ He S).
    case_bool_decide; [by simplify_eq|by eapply IH].
  - apply lift_Done in H as (r' & c' & Hp & H).
    apply parseHeader_step in Hp as [S _]. pose proof (step_of_ok _ _ He S).
    case_bool_decide; [by simplify_eq|]. case_bool_decide; [|by eapply IH].
    apply lift_Done in H as (r'' & c'' & Hp & ?). simplify_eq. by eapply doRequest_ok.
  - apply lift_Done in H as (r' & c' & Hp & H).
    apply parseContext_step in Hp as [S _]. pose proof (step_of_ok _ _ He S).
    case_bool_decide; [|by eapply IH].
    apply lift_Done in H as (r'' & c'' & Hp & ?). simplify_eq. by eapply doRequest_ok.
Qed.

Lemma received_ok d c : length d ≤ READ_BUFFER_SIZE → buf_ok (received d c).
Proof.
  intros H. split; simpl; try done; try lia.
  - rewrite length_app, length_replicate. lia.
  - intros i Hi. unfold nthb. rewrite lookup_app_r by done.
    destruct (_ !! _) eqn:E; [|done]. by apply lookup_replicate in E as [-> _].
Qed.

(** ** Properties *)

(** C7. A GET request without a body, received in full, is parsed into the
    answer its path deserves: the state machine returns, within one turn per
    line, the code of the file system for the document root followed by the
    path (cut to the size of [realFile]), with the connection persistent
    exactly when a header asks for it, and with the file mapped when the
    answer is a file. *)
Theorem processRead_serves_request fuel fs c u hs :
  url_ok u → Forall header_ok hs → length (request u hs) ≤ READ_BUFFER_SIZE →
  length hs + 1 < fuel →
  ∃ d, processRead fuel fs (received (request u hs) c) = Done (serve fs (resource u)) d
    ∧ cstr d.(realFile) = Some (resource u) ∧ d.(linger) = existsb keep_alive hs
    ∧ (∀ f, fs !! resource u = Some f → serve fs (resource u) = FILE_REQUEST →
        d.(fileStat) = Stat f.(f_mode) (Z.of_nat (length f.(f_content))) ∧ d.(fileAddress) = mmap f).
Proof.
  intros Hu Hh Hl Hf.
  destruct (processRead_request_loop fuel fs c u hs) as (d & ? & ? & ? & _ & _ & _ & _ & ?);
    [done..|]. by exists d.
Qed.

(** C8. [processRead] always returns on a request that announces no body,
    whatever the other bytes received are, when at least one byte of the
    buffer is left: no turn is undefined and the number of turns is bounded
    by the bytes received. *)
Theorem processRead_returns fuel fs d c :
  length d < READ_BUFFER_SIZE →
  no_length_header (d ++ replicate (READ_BUFFER_SIZE - length d) NUL) → length d + 2 ≤ fuel →
  ∃ r c', processRead fuel fs (received d c) = Done r c'.
Proof.
  intros Hd Hno Hf. apply processRead_loop_returns.
  - split; try done. apply received_ok. lia.
  - unfold turns. simpl. lia.
Qed.

(** C14. A well-formed GET request that announces a body with [Content-Length]
    (the last such header counts) and of whose body only the first bytes have
    arrived, without a line end among them, or none, keeps [processRead] in its
    loop for ever: no number of turns is enough.  The line splitter answers
    [LINE_OK] at the end of the received bytes, so the loop goes on without
    reading more, and the worker is lost.  (The pointer that the code passes to
    [strtol] for the end of the number lies outside the local variable it is made
    from; this is on the assumption that the store there does no harm.) *)
Theorem processRead_hangs fuel fs c u hs b :
  url_ok u → Forall line_ok hs → Forall plain b → length (request u hs ++ b) ≤ READ_BUFFER_SIZE →
  (Z.of_nat (length b) < foldl announce 0 hs < 2 ^ 31 - 2048)%Z →
  processRead fuel fs (received (request u hs ++ b) c) = OutOfFuel.
Proof. apply processRead_missing. Qed.

(** A request that stops inside its first line, with neither the line
    end nor the empty line, is already answered as if it were complete. *)
Theorem processRead_answers_cut_line fuel fs c u :
  url_ok u → length (B "GET" ++ SP :: u ++ SP :: B "HTTP/1.1") + 1 < READ_BUFFER_SIZE → 1 < fuel →
  ∃ d, processRead fuel fs (received (B "GET" ++ SP :: u ++ SP :: B "HTTP/1.1") c)
       = Done (serve fs (resource u)) d.
Proof. apply processRead_cut_line. Qed.

(** [read] collects the segments of a request whatever their sizes: it
    returns [true] and the buffer holds their concatenation followed by NUL
    bytes. *)
Theorem read_collects_segments fuel chunks c rx :
  Forall (λ x, x ≠ []) chunks → length (concat chunks) ≤ READ_BUFFER_SIZE → length chunks < fuel →
  read fuel (init c) (map RData chunks ++ RAgain :: rx) = Some (true, received (concat chunks) c, rx).
Proof.
  intros. unfold read. rewrite decide_False by (simpl; unfold READ_BUFFER_SIZE; lia).
  rewrite <- received_nil. by apply (read_loop_chunks _ _ []).
Qed.

(** C16. [read] refuses a request that does not fit in the buffer. *)
Theorem read_refuses_long_request fuel chunks c rx :
  Forall (λ x, x ≠ []) chunks → READ_BUFFER_SIZE < length (concat chunks) → length chunks + 1 < fuel →
  ∃ c' rx', read fuel (init c) (map RData chunks ++ rx) = Some (false, c', rx').
Proof.
  intros. unfold read. rewrite decide_False by (simpl; unfold READ_BUFFER_SIZE; lia).
  rewrite <- received_nil. apply read_loop_overflow; try done. simpl. lia.
Qed.

(** C9. The parser keeps its indices ordered inside the buffer and the bytes
    after [readIndex] cleared, on every path that returns. *)
Theorem processRead_keeps_buffer fuel fs c r d :
  buf_ok c → processRead fuel fs c = Done r d → buf_ok d.
Proof. apply processRead_loop_ok. Qed.

(** ** Witnesses *)

(** A connection object as [new http_conn[MAX_FD]] leaves it, but for the
    socket. *)
Definition sample_conn : http_conn :=
  HttpConn 5 [] 0 0 0 CHECK_STATE_REQUESTLINE GET [] None None None 0 false [] 0
    FNull (Stat 0 0) (Iovec (PWrite 0) 0) (Iovec (PFile 0) 0) 0 0 0.

Definition sample_fs : gmap bytes fnode :=
  {[ resource (B "/index.html") := FNode 33188 (B "<html></html>") true ]}.

Definition sample_headers : list bytes := [B "Host: localhost"; B "Connection: keep-alive"].

Lemma sample_url_ok : url_ok (B "/index.html").
Proof. split; [done|]. repeat (constructor; [split_and!; done || set_solver|]). constructor. Qed.

Lemma sample_headers_ok : Forall header_ok sample_headers.
Proof.
  repeat constructor; done.
Qed.

Lemma no_length_header_check b :
  forallb (λ p, negb (strncaseeq (drop p b) (B "Content-Length:") 15)) (seq 0 (length b)) = true →
  no_length_header b.
Proof.
  intros H p. destruct (decide (p < length b)).
  - rewrite forallb_forall in H. apply negb_true_iff, H, in_seq. lia.
  - by rewrite drop_ge by lia.
Qed.

Lemma processRead_serves_request_witness :
  ∃ d, processRead 4 sample_fs (received (request (B "/index.html") sample_headers) sample_conn)
       = Done FILE_REQUEST d ∧ d.(linger) = true.
Proof.
  destruct (processRead_serves_request 4 sample_fs sample_conn (B "/index.html") sample_headers)
    as (d & H1 & _ & H2 & _);
    [apply sample_url_ok|apply sample_headers_ok|apply Nat.leb_le; reflexivity|apply Nat.ltb_lt; reflexivity|].
  exists d. split; [exact H1|exact H2].
Defined.

Lemma processRead_returns_witness :
  ∃ r c', processRead 20 sample_fs (received (B "GET /ind" ++ CRLF) sample_conn) = Done r c'.
Proof.
  apply (processRead_returns 20 sample_fs (B "GET /ind" ++ CRLF) sample_conn);
    [apply Nat.ltb_lt; reflexivity| |apply Nat.leb_le; reflexivity].
  apply no_length_header_check. vm_compute. reflexivity.
Defined.

(** A form of ten bytes, three of which have arrived. *)
Definition form_headers : list bytes := [B "Host: localhost"; B "Content-Length: 10"].

Lemma processRead_hangs_witness :
  processRead 1000 sample_fs (received (request (B "/index.html") form_headers ++ B "a=1") sample_conn) = OutOfFuel.
Proof.
  apply (processRead_hangs 1000 sample_fs sample_conn (B "/index.html") form_headers (B "a=1"));
    [apply sample_url_ok|repeat constructor; done|repeat constructor; done|apply Nat.leb_le; reflexivity|].
  split; reflexivity.
Defined.

Lemma processRead_answers_cut_line_witness :
  ∃ d, processRead 2 sample_fs (received (B "GET" ++ SP :: B "/index.html" ++ SP :: B "HTTP/1.1") sample_conn)
       = Done FILE_REQUEST d.
Proof.
  apply (processRead_answers_cut_line 2 sample_fs sample_conn (B "/index.html"));
    [apply sample_url_ok|apply Nat.ltb_lt; reflexivity|apply Nat.ltb_lt; reflexivity].
Defined.

Lemma read_collects_segments_witness :
  read 3 (init sample_conn) (map RData [B "GET /"; B " HTTP/1.1"] ++ [RAgain])
  = Some (true, received (B "GET / HTTP/1.1") sample_conn, []).
Proof.
  apply (read_collects_segments 3 [B "GET /"; B " HTTP/1.1"] sample_conn []);
    [repeat constructor; discriminate|apply Nat.leb_le; reflexivity|apply Nat.ltb_lt; reflexivity].
Defined.

Lemma read_refuses_long_request_witness :
  ∃ c' rx', read 4 (init sample_conn) (map RData [replicate 2000 SP; replicate 100 SP] ++ [])
            = Some (false, c', rx').
Proof.
  apply (read_refuses_long_request 4 [replicate 2000 SP; replicate 100 SP] sample_conn []);
    [repeat constructor; discriminate|apply Nat.ltb_lt; reflexivity|apply Nat.ltb_lt; reflexivity].
Defined.

Lemma processRead_keeps_buffer_witness :
  ∃ d, processRead 4 sample_fs (received (B "GET") sample_conn) = Done BAD_REQUEST d ∧ buf_ok d.
Proof.
  destruct (processRead 4 sample_fs (received (B "GET") sample_conn)) as [r d| |] eqn:E;
    [|vm_compute in E; discriminate..].
  exists d. split.
  - f_equal. vm_compute in E. congruence.
  - apply (processRead_keeps_buffer 4 sample_fs (received (B "GET") sample_conn) r d); [|exact E].
    apply received_ok. apply Nat.leb_le. reflexivity.
Defined.
