(* ===== verification/HttpWrite.v ===== *)
(** * Answering an HTTP request

    Theorems about the answering side of [http_conn.cpp]: the text that
    [processWrite] builds with [addResponse], and the delivery of that text
    and of the mapped file by [write]. *)
From S2P Require Import Prelude CString HttpConn.

(** ** Decimal numbers *)

(** ** The write buffer *)

(** The answer built so far. *)
Definition written (c : http_conn) : bytes := take c.(writeIndex) c.(writeBuffer).

(** The state in which the answer can still grow. *)
Record wbuf_ok (c : http_conn) : Prop := WbufOk {
  wb_size : length c.(writeBuffer) = WRITE_BUFFER_SIZE;
  wb_index : c.(writeIndex) < WRITE_BUFFER_SIZE
}.

(** [c] with the answer [t] built. *)
Record built (c d : http_conn) (t : bytes) : Prop := Built {
  bu_ok : wbuf_ok d;
  bu_text : written d = t;
  bu_same : ∃ w i, d = set_writeIndex i (set_writeBuffer w c)
}.

Lemma written_length c : wbuf_ok c → length (written c) = c.(writeIndex).
Proof. intros [H1 H2]. unfold written. rewrite length_take. lia. Qed.

Lemma length_store p d buf : p + length d ≤ length buf → length (store p d buf) = length buf.
Proof. intros H. unfold store. rewrite !length_app, length_take, length_drop. lia. Qed.

Lemma take_store p d buf n :
  p + n ≤ length buf → n ≤ length d →
  take (p + n) (store p d buf) = take p buf ++ take n d.
Proof.
  intros H1 H2. unfold store. assert (length (take p buf) = p) as L by (rewrite length_take; lia).
  rewrite <- L at 1. by rewrite take_app_add, take_app_le.
Qed.

Lemma addResponse_built s c d t :
  built c d t → length t + length s + 1 < WRITE_BUFFER_SIZE →
  ∃ e, addResponse s d = (true, e) ∧ built c e (t ++ s).
Proof.
  intros [Hok Ht Hs] Hlen. pose proof (written_length d Hok) as Hw. rewrite Ht in Hw.
  destruct Hok as [H1 H2]. unfold addResponse. rewrite decide_False by lia. cbv zeta.
  rewrite decide_False by lia. eexists. split; [done|].
  assert (vsnprintf (WRITE_BUFFER_SIZE - 1 - writeIndex d) s = s ++ [NUL]) as ->.
  { destruct (WRITE_BUFFER_SIZE - 1 - writeIndex d) as [|m] eqn:E; [lia|].
    simpl. by rewrite take_ge by lia. }
  split.
  - split; simpl; [|lia]. rewrite length_store; [done|]. rewrite length_app. simpl. lia.
  - unfold written. simpl. rewrite take_store by (rewrite ?length_app; simpl; lia).
    rewrite take_app_exact. by rewrite <- Ht.
  - destruct Hs as (w & i & ->). by eexists _, _.
Qed.

(** The header lines of every answer, and their block. *)
Definition length_text (len : Z) : bytes := B "Content-Length: " ++ dec len ++ CRLF.
Definition type_text : bytes := B "Content-Type:" ++ B "text/html" ++ CRLF.
Definition linger_text (keep : bool) : bytes :=
  B "Connection: " ++ (if keep then B "keep-alive" else B "close") ++ CRLF.
Definition headers_text (len : Z) (keep : bool) : bytes :=
  length_text len ++ type_text ++ linger_text keep ++ CRLF.

Definition status_text (status : Z) (title : bytes) : bytes :=
  B "HTTP/1.1" ++ [SP] ++ dec status ++ [SP] ++ title ++ CRLF.

Lemma built_linger c d t : built c d t → d.(linger) = c.(linger).
Proof. by intros [_ _ (w & i & ->)]. Qed.

Lemma length_connection (b : bool) : length (if b then B "keep-alive" else B "close") ≤ 10.
Proof. destruct b; vm_compute; lia. Qed.

Lemma length_header_texts len keep :
  length (length_text len) + length type_text + length (linger_text keep) + length CRLF
  ≤ length (dec len) + 68.
Proof.
  unfold length_text, linger_text. rewrite !length_app. pose proof (length_connection keep).
  change (length (B "Content-Length: ")) with 16. change (length type_text) with 24.
  change (length (B "Connection: ")) with 12. change (length CRLF) with 2. lia.
Qed.

Lemma addHeaders_built c d t len :
  built c d t → length t + length (dec len) + 100 < WRITE_BUFFER_SIZE →
  ∃ e, addHeaders len d = (true, e) ∧ built c e (t ++ headers_text len c.(linger)).
Proof.
  intros Hb Hlen. pose proof (length_header_texts len c.(linger)) as L.
  unfold addHeaders, addContentLength, addContentType, addLinger, addBlankLine.
  fold (length_text len) type_text.
  destruct (addResponse_built (length_text len) c d t) as (e1 & -> & H1); [done|lia|].
  destruct (addResponse_built type_text c e1 (t ++ length_text len)) as (e2 & E2 & H2);
    [done|rewrite length_app; lia|].
  cbn [snd]. rewrite E2. cbn [snd]. fold (linger_text e2.(linger)).
  rewrite (built_linger _ _ _ H2).
  destruct (addResponse_built (linger_text c.(linger)) c e2 _ H2) as (e3 & E3 & H3);
    [rewrite !length_app; lia|]. rewrite E3. cbn [snd].
  destruct (addResponse_built CRLF c e3 _ H3) as (e4 & E4 & H4); [rewrite !length_app; lia|].
  rewrite E4. exists e4. split; [done|]. unfold headers_text. by rewrite <- !app_assoc in H4.
Qed.

Lemma built_refl c : wbuf_ok c → built c c (written c).
Proof. intros H. split; try done. exists c.(writeBuffer), c.(writeIndex). by destruct c. Qed.

Lemma error_response_built c status title form :
  wbuf_ok c → c.(writeIndex) = 0 →
  (0 ≤ status < 1000)%Z → length title ≤ 40 → length form ≤ 100 →
  let t := status_text status title ++ headers_text (Z.of_nat (length form)) c.(linger) ++ form in
  ∃ e, error_response status title form c
    = (true, set_bytesToSend (Z.of_nat (length t))
               (set_ivCount 1 (set_iv0 (Iovec (PWrite 0) (Z.of_nat (length t))) e)))
    ∧ built c e t.
Proof.
  intros Hok H0 Hst Hti Hf t. unfold error_response.
  pose proof (built_refl c Hok) as Hb. unfold written in Hb. rewrite H0 in Hb. simpl in Hb.
  assert (length (dec status) ≤ 3) as D1 by (apply length_dec; simpl; lia).
  assert (length (dec (Z.of_nat (length form))) ≤ 3) as D2 by (apply length_dec; simpl; lia).
  assert (length (status_text status title) ≤ 60) as Lst.
  { unfold status_text. rewrite !length_app.
    change (length (B "HTTP/1.1")) with 8. change (length CRLF) with 2. simpl. lia. }
  unfold addStatusLine. fold (status_text status title).
  destruct (addResponse_built (status_text status title) c c []) as (e1 & -> & H1);
    [done|unfold WRITE_BUFFER_SIZE; cbn [length]; lia|].
  cbn [snd]. simpl in H1. rewrite to_int32_id by lia.
  destruct (addHeaders_built c e1 _ (Z.of_nat (length form)) H1) as (d & -> & H2);
    [unfold WRITE_BUFFER_SIZE; lia|]. cbn [snd].
  assert (length (headers_text (Z.of_nat (length form)) (linger c)) ≤ 100) as Lh.
  { unfold headers_text. rewrite !length_app.
    pose proof (length_header_texts (Z.of_nat (length form)) c.(linger)). lia. }
  destruct (addResponse_built form c d _ H2) as (e & He & Hbe).
  { rewrite length_app. unfold WRITE_BUFFER_SIZE. lia. }
  unfold addContent. rewrite He.
  assert (e.(writeIndex) = length t) as Hi.
  { rewrite <- (written_length e) by apply Hbe. rewrite (bu_text _ _ _ Hbe). unfold t. by rewrite <- app_assoc. }
  rewrite Hi. exists e. split; [done|]. unfold t. by rewrite app_assoc.
Qed.

(** The text of the answer for a code, with the persistent-connection flag
    and, for a file, its size. *)
Definition answer_text (r : HTTP_CODE) (keep : bool) (size : Z) : bytes :=
  let error status title form :=
    status_text status title ++ headers_text (Z.of_nat (length form)) keep ++ form in
  match r with
  | INTERNAL_ERROR => error 500%Z error_500_title error_500_form
  | BAD_REQUEST => error 400%Z error_400_title error_400_form
  | NO_RESOURCE => error 404%Z error_404_title error_404_form
  | FORBIDDEN_REQUEST => error 403%Z error_403_title error_403_form
  | FILE_REQUEST => status_text 200 ok_200_title ++ headers_text size keep
  | _ => []
  end.

(** The bytes that follow the text: the mapped file. *)
Definition body (c : http_conn) : bytes :=
  match c.(fileAddress) with FMapped d => d | _ => [] end.

(** ** Delivery *)

(** The first vector once the text is out: empty, its base in the buffer. *)
Definition text_out (v : iovec) : Prop := v.(iov_len) = 0%Z ∧ ∃ off, v.(iov_base) = PWrite off.

(** The connection has [n] bytes of the text [h] and the file [f] behind it;
    either nothing was sent, or the text is out. *)
Record pending (c : http_conn) (h f : bytes) (n : nat) : Prop := Pending {
  pe_text : written c = h;
  pe_ok : wbuf_ok c;
  pe_have : c.(bytesHaveSend) = Z.of_nat n;
  pe_left : c.(bytesToSend) = (Z.of_nat (length h + length f) - Z.of_nat n)%Z;
  pe_max : n ≤ length h + length f;
  pe_count : (c.(ivCount) = 1 ∧ f = []) ∨ (c.(ivCount) = 2 ∧ c.(fileAddress) = FMapped f);
  pe_shape :
    (n = 0 ∧ c.(iv0) = Iovec (PWrite 0) (Z.of_nat (length h))
     ∧ (c.(ivCount) = 2 → c.(iv1) = Iovec (PFile 0) (Z.of_nat (length f))))
    ∨ (length h ≤ n ∧ text_out c.(iv0)
       ∧ c.(iv1) = Iovec (PFile (Z.of_nat n - Z.of_nat (length h))) c.(bytesToSend))
}.

Lemma iov_bytes_write c h :
  wbuf_ok c → written c = h → iov_bytes c (Iovec (PWrite 0) (Z.of_nat (length h))) = Bytes h.
Proof.
  intros Hok Hh. pose proof (written_length c Hok) as L. rewrite Hh in L. destruct Hok as [H1 H2].
  unfold iov_bytes. cbn [iov_len iov_base].
  destruct (Z.eqb_spec (Z.of_nat (length h)) 0) as [E|E].
  { destruct h; [done|simpl in E; lia]. }
  destruct (Z.leb_spec 0 0); [|lia].
  destruct (Z.leb_spec (0 + Z.of_nat (length h)) (Z.of_nat (length (writeBuffer c)))); [|lia].
  cbn [andb]. rewrite Nat2Z.id. simpl. f_equal. by rewrite L, <- Hh.
Qed.

Lemma iov_bytes_file c f n k :
  c.(fileAddress) = FMapped f → n ≤ length f →
  k = (Z.of_nat (length f) - Z.of_nat n)%Z →
  iov_bytes c (Iovec (PFile (Z.of_nat n)) k) = Bytes (drop n f).
Proof.
  intros Hf Hn ->. unfold iov_bytes. cbn [iov_len iov_base]. rewrite Hf.
  destruct (Z.eqb_spec (Z.of_nat (length f) - Z.of_nat n) 0) as [E|E].
  { by rewrite drop_ge by lia. }
  destruct (Z.leb_spec 0 (Z.of_nat n)); [|lia].
  destruct (Z.leb_spec (Z.of_nat n + (Z.of_nat (length f) - Z.of_nat n)) (Z.of_nat (length f))); [|lia].
  cbn [andb]. f_equal. rewrite Nat2Z.id. rewrite take_ge; [done|]. rewrite length_drop. lia.
Qed.

Lemma iov_bytes_out c v : text_out v → iov_bytes c v = Bytes [].
Proof. intros [Hl [off Hb]]. unfold iov_bytes. by rewrite Hb, Hl. Qed.

(** What [writev] is given is what remains to be sent. *)
Lemma gather_pending c h f n : pending c h f n → gather c = Bytes (drop n (h ++ f)).
Proof.
  intros [Ht Hok Hh Hl Hm Hc Hs]. unfold gather.
  destruct Hs as [(-> & E0 & E1)|(Hn & E0 & E1)].
  - rewrite E0, iov_bytes_write by done.
    destruct Hc as [[Ec ->]|[Ec Hf]]; rewrite Ec.
    + done.
    + rewrite decide_False by done. rewrite E1 by done.
      rewrite (iov_bytes_file c f 0); [|done|lia|lia]. done.
  - rewrite (iov_bytes_out c (iv0 c)) by done. rewrite drop_app_ge by done.
    destruct Hc as [[Ec ->]|[Ec Hf]]; rewrite Ec.
    + simpl. by rewrite drop_nil.
    + rewrite decide_False by done. rewrite E1, Hl.
      replace (Z.of_nat n - Z.of_nat (length h))%Z with (Z.of_nat (n - length h)) by lia.
      rewrite (iov_bytes_file c f (n - length h)); [done|done|lia|lia].
Qed.

(** One successful [writev] of [k] bytes that, when it is the first, covers
    the text. *)
Lemma advance_pending c h f n k :
  pending c h f n → n + k ≤ length h + length f → (n = 0 → length h ≤ k) →
  pending (advance (Z.of_nat k) c) h f (n + k).
Proof.
  intros [Ht Hok Hh Hl Hm Hc Hs] Hk Hfirst. pose proof (written_length c Hok) as Lw.
  rewrite Ht in Lw. unfold advance.
  cbn [bytesToSend bytesHaveSend set_bytesToSend set_bytesHaveSend iv0].
  assert ((c.(iv0).(iov_len) ≤ c.(bytesHaveSend) + Z.of_nat k)%Z ∧ length h ≤ n + k) as [Hge Hlk].
  { destruct Hs as [(-> & E0 & _)|(Hn & [E0 _] & _)]; rewrite E0; simpl; lia. }
  destruct (bytesHaveSend c + Z.of_nat k >=? iov_len (iv0 c))%Z eqn:E; [|lia].
  split; cbn [written bytesToSend bytesHaveSend set_iv1 set_iv0 set_bytesToSend set_bytesHaveSend
              ivCount fileAddress iv0 iv1 writeIndex iov_len]; try done; try lia.
  - by destruct Hok.
  - right. split_and!; [lia| |rewrite Hh, Hl, Lw; repeat f_equal; lia].
    split; [done|]. destruct Hs as [(_ & E0 & _)|(_ & [_ E0] & _)]; [rewrite E0; by eexists|exact E0].
Qed.

Lemma unmap_linger c : (unmap c).(linger) = c.(linger).
Proof. unfold unmap. by destruct (fileAddress c). Qed.

Lemma unmap_sockfd c : (unmap c).(sockfd) = c.(sockfd).
Proof. unfold unmap. by destruct (fileAddress c). Qed.

Lemma unmap_null c : (unmap c).(fileAddress) = FNull.
Proof. unfold unmap. by destruct (fileAddress c) eqn:E. Qed.

Lemma advance_linger k c : (advance k c).(linger) = c.(linger) ∧ (advance k c).(sockfd) = c.(sockfd).
Proof. unfold advance. by destruct (_ >=? _)%Z. Qed.

(** The rooms the socket offers, until they cover what remains. *)
Fixpoint covers (rooms : list nat) (left : nat) : bool :=
  match rooms with
  | [] => false
  | r :: rs => if left <=? r then true else covers rs (left - r)
  end.

Lemma write_loop_all fuel rooms c k tx sent h f n :
  pending c h f n → n < length h + length f →
  (n = 0 → match rooms with r :: _ => length h ≤ r | [] => True end) →
  covers rooms (length h + length f - n) = true → length rooms ≤ fuel →
  ∃ d tx', write_loop fuel c k (map WRoom rooms ++ tx) sent
    = WDone c.(linger) d (modfd c.(sockfd) EPOLLIN k) tx' (sent ++ drop n (h ++ f))
    ∧ d.(fileAddress) = FNull ∧ (c.(linger) = true → init d = d).
Proof.
  revert fuel c sent n. induction rooms as [|r rooms IH]; intros fuel c sent n Hp Hn Hfirst Hc Hf; [done|].
  destruct fuel as [|fuel]; [simpl in Hf; lia|].
  cbn [write_loop map app]. rewrite (gather_pending _ _ _ _ Hp).
  set (out := take r (drop n (h ++ f))).
  assert (length out = min r (length h + length f - n)) as Lo.
  { unfold out. rewrite length_take, length_drop, length_app. done. }
  assert (pending (advance (Z.of_nat (length out)) c) h f (n + length out)) as Hp'.
  { apply advance_pending; [done|lia|]. intros ->. specialize (Hfirst eq_refl). simpl in Hfirst. lia. }
  destruct (advance_linger (Z.of_nat (length out)) c) as [Al As].
  set (d := advance _ _) in *. cbv zeta. rewrite (pe_left _ _ _ _ Hp').
  simpl in Hc. destruct (Nat.leb_spec (length h + length f - n) r) as [Hle|Hlt].
  - destruct (Z.leb_spec (Z.of_nat (length h + length f) - Z.of_nat (n + length out)) 0); [|lia].
    assert (out = drop n (h ++ f)) as ->.
    { unfold out. rewrite take_ge; [done|]. rewrite length_drop, length_app. lia. }
    rewrite unmap_linger, unmap_sockfd, Al, As.
    destruct (linger c); eexists _, _; (split; [done|]); (split; [apply unmap_null|]); [intros _; reflexivity|done].
  - destruct (Z.leb_spec (Z.of_nat (length h + length f) - Z.of_nat (n + length out)) 0); [lia|].
    destruct (decide (r = 0)) as [->|Hr].
    { assert (out = []) as -> by done. simpl in Hlt.
      destruct (IH fuel d (sent ++ []) (n + 0)) as (e & tx' & -> & He & Hi);
        [done|lia| |simpl in Hf; rewrite Nat.add_0_r, ?Nat.sub_0_r in *; done|simpl in Hf; lia|].
      { intros E. destruct h; [destruct rooms; simpl; [done|lia]|]. specialize (Hfirst ltac:(lia)). simpl in Hfirst. lia. }
      exists e, tx'. rewrite Al in *. rewrite As, app_nil_r, Nat.add_0_r. done. }
    destruct (IH fuel d (sent ++ out) (n + length out)) as (e & tx' & -> & He & Hi).
    + done.
    + lia.
    + intros. lia.
    + rewrite Lo, Nat.min_l by lia. by rewrite Nat.sub_add_distr.
    + simpl in Hf. lia.
    + exists e, tx'. rewrite Al in *. rewrite As, <- app_assoc. split; [|done]. do 2 f_equal.
      rewrite <- (take_drop r (drop n (h ++ f))). fold out. f_equal.
      rewrite drop_drop. f_equal. lia.
Qed.

(** The rooms end before the answer does: the state is kept for the next
    [EPOLLOUT]. *)
Lemma write_loop_pause fuel rooms c k tx sent h f n :
  pending c h f n → (n = 0 → match rooms with r :: _ => length h ≤ r | [] => True end) →
  n + sum_list rooms < length h + length f → length rooms < fuel →
  ∃ d, write_loop fuel c k (map WRoom rooms ++ WAgain :: tx) sent
    = WDone true d (modfd c.(sockfd) EPOLLOUT k) tx (sent ++ take (sum_list rooms) (drop n (h ++ f)))
    ∧ pending d h f (n + sum_list rooms) ∧ d.(linger) = c.(linger) ∧ d.(sockfd) = c.(sockfd).
Proof.
  revert fuel c sent n. induction rooms as [|r rooms IH]; intros fuel c sent n Hp Hfirst Hn Hf.
  - destruct fuel as [|fuel]; [simpl in Hf; lia|]. cbn [write_loop map app].
    rewrite (gather_pending _ _ _ _ Hp). exists c. simpl.
    rewrite app_nil_r, Nat.add_0_r. done.
  - destruct fuel as [|fuel]; [simpl in Hf; lia|]. simpl in Hn, Hf.
    cbn [write_loop map app]. rewrite (gather_pending _ _ _ _ Hp).
    assert (length (take r (drop n (h ++ f))) = r) as Lo.
    { rewrite length_take, length_drop, length_app. lia. }
    cbv zeta. rewrite Lo. set (d := advance (Z.of_nat r) c).
    assert (pending d h f (n + r)) as Hp'.
    { apply advance_pending; [done|lia|]. intros ->. by apply Hfirst. }
    destruct (advance_linger (Z.of_nat r) c) as [Al As].
    destruct (Z.leb_spec d.(bytesToSend) 0) as [Hle|_].
    { rewrite (pe_left _ _ _ _ Hp') in Hle. lia. }
    destruct (IH fuel d (sent ++ take r (drop n (h ++ f))) (n + r)) as (e & -> & He & Hl & Hs).
    + done.
    + intros E. destruct h; [destruct rooms; simpl; [done|lia]|].
      specialize (Hfirst ltac:(lia)). simpl in Hfirst. lia.
    + lia.
    + lia.
    + exists e. fold d in Al, As. rewrite Hl, Hs, Al, As. split_and!; try done.
      * f_equal. rewrite <- app_assoc. f_equal. simpl.
        replace (drop (n + r) (h ++ f)) with (drop r (drop n (h ++ f)))
          by (rewrite drop_drop; f_equal; lia).
        by rewrite take_take_drop.
      * simpl. by rewrite Nat.add_assoc.
Qed.

(** ** A text sent in more than two pieces *)

Lemma advance_twice c h f a b :
  pending c h f 0 → a < length h → length h - a ≤ a + b < length h →
  let d := advance (Z.of_nat b) (advance (Z.of_nat a) c) in
  text_out d.(iv0) ∧ d.(ivCount) = c.(ivCount)
  ∧ d.(iv1) = Iovec (PFile (Z.of_nat (a + b) - Z.of_nat (length h)))
                (Z.of_nat (length h + length f) - Z.of_nat (a + b))
  ∧ d.(bytesToSend) = (Z.of_nat (length h + length f) - Z.of_nat (a + b))%Z.
Proof.
  intros [Ht Hok Hh Hl Hm Hc Hs] Ha Hb. pose proof (written_length c Hok) as Lw. rewrite Ht in Lw.
  destruct Hs as [(_ & E0 & E1)|(Hn & _)]; [|lia]. change (Z.of_nat 0) with 0%Z in Hh.
  unfold advance at 2. cbn [bytesToSend bytesHaveSend set_bytesToSend set_bytesHaveSend iv0].
  rewrite E0. cbn [iov_len]. rewrite Hh.
  assert ((0 + Z.of_nat a >=? Z.of_nat (length h))%Z = false) as -> by lia.
  unfold advance. cbn [bytesToSend bytesHaveSend set_bytesToSend set_bytesHaveSend iv0 set_iv0 iov_len].
  assert ((0 + Z.of_nat a + Z.of_nat b >=? Z.of_nat (length h) - Z.of_nat a)%Z = true) as -> by lia.
  cbn [bytesToSend bytesHaveSend set_bytesToSend set_bytesHaveSend iv0 set_iv0 iov_len iv1 set_iv1
       ivCount writeIndex]. rewrite Hl, <- ?Lw. split_and!; [split; [done|by eexists]|done| |lia].
  f_equal; [apply f_equal; lia|lia].
Qed.

Lemma write_loop_stuck fuel rooms c k sent :
  text_out c.(iv0) → c.(ivCount) = 1 → (0 < c.(bytesToSend))%Z → fuel = length rooms →
  write_loop fuel c k (map WRoom rooms) sent = WOutOfFuel.
Proof.
  revert fuel c sent. induction rooms as [|r rooms IH]; intros fuel c sent H0 H1 Hb ->; [done|].
  cbn [write_loop map length]. unfold gather. rewrite (iov_bytes_out c (iv0 c)) by done.
  rewrite decide_True by done. cbn [app]. rewrite take_nil. simpl. destruct H0 as [H0 [off Hoff]].
  unfold advance. cbn [bytesToSend bytesHaveSend set_bytesToSend set_bytesHaveSend iv0].
  rewrite H0.
  assert (∀ d, text_out d.(iv0) → d.(ivCount) = 1 → d.(bytesToSend) = c.(bytesToSend) →
    (if (d.(bytesToSend) <=? 0)%Z
     then if (unmap d).(linger) then WDone true (init (unmap d)) (modfd (unmap d).(sockfd) EPOLLIN k) (map WRoom rooms) (sent ++ [])
          else WDone false (unmap d) (modfd (unmap d).(sockfd) EPOLLIN k) (map WRoom rooms) (sent ++ [])
     else write_loop (length rooms) d k (map WRoom rooms) (sent ++ [])) = WOutOfFuel) as Hd.
  { intros d Hd0 Hd1 Hdb. rewrite Hdb. destruct (Z.leb_spec (bytesToSend c) 0); [lia|].
    apply IH; try done. by rewrite Hdb. }
  destruct (_ >=? _)%Z; apply Hd; simpl; try done; try lia; split; [done|by eexists|cbn; lia|by eexists].
Qed.

(** The first piece [a] of a text that it does not complete. *)
Definition first_piece (c : http_conn) (h : bytes) (a : nat) : http_conn :=
  set_iv0 (Iovec (PWrite (Z.of_nat a)) (Z.of_nat (length h) - Z.of_nat a))
    (set_bytesHaveSend (Z.of_nat a) (set_bytesToSend (c.(bytesToSend) - Z.of_nat a)%Z c)).

Lemma advance_first c h f a :
  pending c h f 0 → a < length h → advance (Z.of_nat a) c = first_piece c h a.
Proof.
  intros [Ht Hok Hh Hl Hm Hc Hs] Ha. destruct Hs as [(_ & E0 & E1)|(Hn & _)]; [|lia].
  unfold advance, first_piece. cbn [bytesToSend bytesHaveSend set_bytesToSend set_bytesHaveSend iv0].
  rewrite E0, Hh. cbn [iov_len]. change (Z.of_nat 0) with 0%Z. rewrite Z.add_0_l.
  by assert ((Z.of_nat a >=? Z.of_nat (length h))%Z = false) as -> by lia.
Qed.

Lemma iov_bytes_rest c h a e :
  wbuf_ok c → written c = h → a < length h → e.(writeBuffer) = c.(writeBuffer) →
  iov_bytes e (Iovec (PWrite (Z.of_nat a)) (Z.of_nat (length h) - Z.of_nat a)) = Bytes (drop a h).
Proof.
  intros Hok Ht Ha He. pose proof (written_length c Hok) as Lw. rewrite Ht in Lw.
  destruct Hok as [W1 W2]. unfold iov_bytes. cbn [iov_len iov_base]. rewrite He.
  destruct (Z.eqb_spec (Z.of_nat (length h) - Z.of_nat a) 0); [lia|].
  destruct (Z.leb_spec 0 (Z.of_nat a)); [|lia].
  destruct (Z.leb_spec (Z.of_nat a + (Z.of_nat (length h) - Z.of_nat a))
              (Z.of_nat (length (writeBuffer c)))); [|lia].
  cbn [andb]. f_equal. rewrite Nat2Z.id, <- Nat2Z.inj_sub, Nat2Z.id by lia.
  rewrite <- Ht at 2. unfold written. rewrite <- Lw. by rewrite skipn_firstn_comm.
Qed.

Lemma gather_first c h f a :
  pending c h f 0 → a < length h → gather (first_piece c h a) = Bytes (drop a (h ++ f)).
Proof.
  intros [Ht Hok Hh Hl Hm Hc Hs] Ha. destruct Hs as [(_ & E0 & E1)|(Hn & _)]; [|lia].
  unfold gather. cbn [iv0 first_piece set_iv0 ivCount iv1 set_bytesHaveSend set_bytesToSend].
  rewrite (iov_bytes_rest c h a) by done. rewrite drop_app_le by lia.
  destruct Hc as [[Ec ->]|[Ec Hf]]; rewrite Ec.
  - simpl. by rewrite app_nil_r.
  - rewrite decide_False by done. rewrite E1 by done.
    erewrite (iov_bytes_file _ f 0); [|exact Hf|lia|lia]. done.
Qed.

Lemma write_two_pieces fuel c k h f a b tx :
  pending c h f 0 → a < length h → length h - a ≤ a + b < length h →
  write (2 + fuel) c k (WRoom a :: WRoom b :: tx)
  = write_loop fuel (advance (Z.of_nat b) (advance (Z.of_nat a) c)) k tx
      (take a (h ++ f) ++ take b (drop a (h ++ f))).
Proof.
  intros Hp Ha Hb. pose proof (advance_twice c h f a b Hp Ha Hb) as (_ & _ & _ & Db).
  pose proof (gather_pending _ _ _ _ Hp) as Hg. rewrite drop_0 in Hg.
  pose proof (pe_left _ _ _ _ Hp) as Hl. unfold write.
  destruct (Z.eqb_spec c.(bytesToSend) 0) as [E|_]; [lia|].
  cbn [write_loop plus]. rewrite Hg. cbv zeta.
  assert (length (take a (h ++ f)) = a) as -> by (rewrite length_take, length_app; lia).
  rewrite (advance_first c h f a Hp Ha) in *.
  destruct (Z.leb_spec (bytesToSend (first_piece c h a)) 0) as [Hle|_].
  { simpl in Hle. lia. }
  rewrite (gather_first c h f a Hp Ha).
  assert (length (take b (drop a (h ++ f))) = b) as ->.
  { rewrite length_take, length_drop, length_app. lia. }
  by destruct (Z.leb_spec (bytesToSend (advance (Z.of_nat b) (first_piece c h a))) 0); [lia|].
Qed.

(** A text that the second piece completes is on its way again. *)
Lemma second_piece_pending c h f a b :
  pending c h f 0 → a < length h → length h ≤ a + b ≤ length h + length f →
  pending (advance (Z.of_nat b) (first_piece c h a)) h f (a + b).
Proof.
  intros [Ht Hok Hh Hl Hm Hc Hs] Ha Hb. pose proof (written_length c Hok) as Lw. rewrite Ht in Lw.
  destruct Hok as [W1 W2]. unfold advance, first_piece.
  cbn [bytesToSend bytesHaveSend set_bytesToSend set_bytesHaveSend iv0 set_iv0 iov_len].
  assert ((Z.of_nat a + Z.of_nat b >=? Z.of_nat (length h) - Z.of_nat a)%Z = true) as -> by lia.
  split; cbn [written bytesToSend bytesHaveSend set_iv1 set_iv0 set_bytesToSend set_bytesHaveSend
              ivCount fileAddress iv0 iv1 writeIndex iov_len iov_base]; try done; try lia.
  right. split; [lia|]. split; [split; [done|by eexists]|]. rewrite Hl, Lw. repeat f_equal; lia.
Qed.

Lemma write_in_two_pieces c k h f a b rooms :
  pending c h f 0 → a < length h → length h ≤ a + b → covers (b :: rooms) (length h + length f - a) = true →
  ∃ d tx', write (2 + length rooms) c k (WRoom a :: WRoom b :: map WRoom rooms)
    = WDone c.(linger) d (modfd c.(sockfd) EPOLLIN k) tx' (h ++ f).
Proof.
  intros Hp Ha Hb Hc. pose proof (gather_pending _ _ _ _ Hp) as Hg. rewrite drop_0 in Hg.
  pose proof (pe_left _ _ _ _ Hp) as Hl. unfold write.
  destruct (Z.eqb_spec c.(bytesToSend) 0) as [E|_]; [lia|].
  change (2 + length rooms) with (S (S (length rooms))). cbn [write_loop]. rewrite Hg. cbv zeta.
  assert (length (take a (h ++ f)) = a) as -> by (rewrite length_take, length_app; lia).
  rewrite (advance_first c h f a Hp Ha).
  destruct (Z.leb_spec (bytesToSend (first_piece c h a)) 0) as [Hle|_]; [simpl in Hle; lia|].
  rewrite (gather_first c h f a Hp Ha). cbn [app]. set (out := take b (drop a (h ++ f))).
  assert (length out = min b (length h + length f - a)) as Lo.
  { unfold out. rewrite length_take, length_drop, length_app. done. }
  assert (pending (advance (Z.of_nat (length out)) (first_piece c h a)) h f (a + length out)) as Hp'.
  { apply second_piece_pending; [done|done|lia]. }
  destruct (advance_linger (Z.of_nat (length out)) (first_piece c h a)) as [Al As].
  cbn [linger sockfd first_piece set_iv0 set_bytesHaveSend set_bytesToSend] in Al, As.
  set (d := advance _ _) in *. rewrite (pe_left _ _ _ _ Hp'). cbn [covers] in Hc.
  destruct (Nat.leb_spec (length h + length f - a) b) as [Hle|Hlt].
  - destruct (Z.leb_spec (Z.of_nat (length h + length f) - Z.of_nat (a + length out)) 0); [|lia].
    rewrite unmap_linger, unmap_sockfd, Al, As.
    assert (take a (h ++ f) ++ out = h ++ f) as ->.
    { unfold out. rewrite (take_ge (drop a _)) by (rewrite length_drop, length_app; lia). apply take_drop. }
    destruct (linger c); by eexists _, _.
  - destruct (Z.leb_spec (Z.of_nat (length h + length f) - Z.of_nat (a + length out)) 0); [lia|].
    destruct (write_loop_all (length rooms) rooms d k [] (take a (h ++ f) ++ out) h f (a + length out))
      as (e & tx' & E & _); [done|lia|lia| |done|].
    { rewrite Lo, Nat.min_l by lia. by rewrite Nat.sub_add_distr. }
    rewrite app_nil_r in E. rewrite E, Al, As. eexists e, tx'. f_equal.
    assert (drop (a + length out) (h ++ f) = drop b (drop a (h ++ f))) as -> by (rewrite drop_drop; f_equal; lia).
    unfold out. by rewrite <- app_assoc, take_drop, take_drop.
Qed.

(** ** What [processWrite] prepares *)

Lemma file_response_built c size :
  wbuf_ok c → c.(writeIndex) = 0 → c.(fileStat).(st_size) = size →
  (0 ≤ size < 2 ^ 31 - 4096)%Z →
  let t := answer_text FILE_REQUEST c.(linger) size in
  ∃ e, processWrite FILE_REQUEST c
    = (true, set_bytesToSend (Z.of_nat (length t) + size)%Z
               (set_ivCount 2 (set_iv1 (Iovec (PFile 0) size)
                 (set_iv0 (Iovec (PWrite 0) (Z.of_nat (length t))) e))))
    ∧ built c e t ∧ length t ≤ 200.
Proof.
  intros Hok H0 Hsz Hr t. unfold processWrite, addStatusLine.
  fold (status_text 200 ok_200_title).
  pose proof (built_refl c Hok) as Hb. unfold written in Hb. rewrite H0 in Hb. simpl in Hb.
  assert (length (status_text 200 ok_200_title) = 17) as Lst by done.
  assert (length (dec size) ≤ 10) as Ld by (apply length_dec; simpl; lia).
  destruct (addResponse_built (status_text 200 ok_200_title) c c []) as (e1 & -> & H1);
    [done|unfold WRITE_BUFFER_SIZE; cbn [length]; lia|].
  cbn [snd app] in *.
  assert (e1.(fileStat) = c.(fileStat)) as Ef.
  { by destruct H1 as [_ _ (w & i & ->)]. }
  rewrite Ef, Hsz, (to_int32_id size) by lia.
  destruct (addHeaders_built c e1 _ size H1) as (e2 & -> & H2); [unfold WRITE_BUFFER_SIZE; lia|].
  cbn [snd] in *.
  assert (e2.(fileStat).(st_size) = size) as Ef2.
  { destruct H2 as [_ _ (w & i & ->)]. done. }
  assert (e2.(writeIndex) = length t) as Hi.
  { rewrite <- (written_length e2) by apply H2. by rewrite (bu_text _ _ _ H2). }
  assert (length t ≤ 200) as Lt.
  { unfold t, answer_text, headers_text. rewrite !length_app.
    pose proof (length_header_texts size c.(linger)). lia. }
  cbv zeta. rewrite Ef2, Hi, to_int32_id by lia. by exists e2.
Qed.

(** The codes that lead to an answer. *)
Definition answerable (r : HTTP_CODE) : bool :=
  match r with
  | INTERNAL_ERROR | BAD_REQUEST | NO_RESOURCE | FORBIDDEN_REQUEST | FILE_REQUEST => true
  | _ => false
  end.

(** The file that follows the text. *)
Definition answer_body (r : HTTP_CODE) (c : http_conn) : bytes :=
  match r with FILE_REQUEST => body c | _ => [] end.

Lemma built_pending c e t : built c e t → c.(bytesHaveSend) = 0%Z →
  written (set_bytesToSend 0 e) = t ∧ wbuf_ok e ∧ e.(bytesHaveSend) = 0%Z
  ∧ e.(fileAddress) = c.(fileAddress) ∧ e.(linger) = c.(linger) ∧ e.(sockfd) = c.(sockfd).
Proof. intros [Hok Ht (w & i & ->)] H0. done. Qed.

(** The vector of a file answer, whatever [mmap] has given. *)
Lemma processWrite_file c :
  wbuf_ok c → c.(writeIndex) = 0 → c.(bytesHaveSend) = 0%Z → (0 ≤ c.(fileStat).(st_size) < 2 ^ 31 - 4096)%Z →
  let h := answer_text FILE_REQUEST c.(linger) c.(fileStat).(st_size) in
  ∃ d, processWrite FILE_REQUEST c = (true, d) ∧ written d = h ∧ wbuf_ok d ∧ d.(bytesHaveSend) = 0%Z
    ∧ d.(bytesToSend) = (Z.of_nat (length h) + c.(fileStat).(st_size))%Z ∧ d.(ivCount) = 2
    ∧ d.(iv0) = Iovec (PWrite 0) (Z.of_nat (length h)) ∧ d.(iv1) = Iovec (PFile 0) c.(fileStat).(st_size)
    ∧ d.(fileAddress) = c.(fileAddress) ∧ d.(linger) = c.(linger) ∧ d.(sockfd) = c.(sockfd).
Proof.
  intros Hok H0 Hh Hr h.
  destruct (file_response_built c (st_size (fileStat c)) Hok H0 eq_refl Hr) as (e & He & Hbe & _).
  destruct (built_pending _ _ _ Hbe Hh) as (P1 & [P21 P22] & P3 & P4 & P5 & P6).
  eexists. split; [exact He|]. by split_and!.
Qed.

Lemma processWrite_pending r c :
  answerable r = true → wbuf_ok c → c.(writeIndex) = 0 → c.(bytesHaveSend) = 0%Z →
  (r = FILE_REQUEST → ∃ f, c.(fileAddress) = FMapped f ∧ c.(fileStat).(st_size) = Z.of_nat (length f)
     ∧ (Z.of_nat (length f) < 2 ^ 31 - 4096)%Z) →
  ∃ d, processWrite r c = (true, d)
    ∧ pending d (answer_text r c.(linger) c.(fileStat).(st_size)) (answer_body r c) 0
    ∧ d.(linger) = c.(linger) ∧ d.(sockfd) = c.(sockfd).
Proof.
  intros Hr Hok H0 Hh Hfile.
  assert (∀ status title form,
    (0 ≤ status < 1000)%Z → length title ≤ 40 → length form ≤ 100 →
    ∃ d, error_response status title form c = (true, d)
      ∧ pending d (status_text status title ++ headers_text (Z.of_nat (length form)) c.(linger) ++ form) [] 0
      ∧ d.(linger) = c.(linger) ∧ d.(sockfd) = c.(sockfd)) as Herr.
  { intros status title form Hs Ht Hf.
    destruct (error_response_built c status title form Hok H0 Hs Ht Hf) as (e & He & Hbe).
    destruct (built_pending _ _ _ Hbe Hh) as (P1 & P2 & P3 & P4 & P5 & P6).
    eexists. split; [exact He|]. split; [|by split].
    destruct P2 as [P21 P22].
    split; simpl; try done; try lia; [by left|]. left. done. }
  destruct r; try discriminate Hr.
  { apply (Herr 400%Z error_400_title error_400_form); [lia|vm_compute; lia..]. }
  { apply (Herr 404%Z error_404_title error_404_form); [lia|vm_compute; lia..]. }
  { apply (Herr 403%Z error_403_title error_403_form); [lia|vm_compute; lia..]. }
  2:{ apply (Herr 500%Z error_500_title error_500_form); [lia|vm_compute; lia..]. }
  destruct (Hfile eq_refl) as (f & Hf & Hsz & Hlt).
  destruct (processWrite_file c Hok H0 Hh) as (d & -> & Hw & Hokd & Hhd & Hbs & Hc & E0 & E1 & Hfa & Hl & Hs); [lia|].
  assert (answer_body FILE_REQUEST c = f) as -> by (unfold answer_body, body; by rewrite Hf).
  exists d. split; [done|]. split; [|by split]. split; try done; try lia.
  - right. by rewrite Hfa.
  - left. split_and!; [done|done|]. intros _. by rewrite E1, Hsz.
Qed.

(** A file that could not be mapped: [writev] will refuse the vector. *)
Definition unmapped (r : HTTP_CODE) (c : http_conn) : bool :=
  match r, c.(fileAddress) with FILE_REQUEST, FFailed => true | _, _ => false end.

Lemma processWrite_unmapped c :
  wbuf_ok c → c.(writeIndex) = 0 → c.(bytesHaveSend) = 0%Z → (0 ≤ c.(fileStat).(st_size) < 2 ^ 31 - 4096)%Z →
  c.(fileAddress) = FFailed →
  ∃ d, processWrite FILE_REQUEST c = (true, d) ∧ gather d = Efault ∧ (0 < d.(bytesToSend))%Z
    ∧ d.(fileAddress) = FFailed ∧ d.(linger) = c.(linger) ∧ d.(sockfd) = c.(sockfd).
Proof.
  intros Hok H0 Hh Hr Hf.
  destruct (processWrite_file c Hok H0 Hh Hr) as (d & -> & Hw & Hokd & _ & Hbs & Hc & E0 & E1 & Hfa & Hl & Hs).
  exists d. rewrite Hfa. split_and!; try done.
  - unfold gather. rewrite E0, (iov_bytes_write d) by done. rewrite Hc, decide_False, E1 by done.
    unfold iov_bytes. by rewrite Hfa, Hf.
  - rewrite Hbs. unfold answer_text, status_text. rewrite !length_app. cbn. lia.
Qed.

(** ** Properties *)


(** When the socket is full before the answer is out, [write] reports
    success, waits for [EPOLLOUT] and keeps the position: the bytes sent are
    the next ones of the answer and the state is ready for the rest. *)
Theorem write_resumes fuel c k rooms tx h f n :
  pending c h f n → (n = 0 → match rooms with r :: _ => length h ≤ r | [] => True end) →
  n + sum_list rooms < length h + length f → length rooms < fuel →
  ∃ d, write fuel c k (map WRoom rooms ++ WAgain :: tx)
    = WDone true d (modfd c.(sockfd) EPOLLOUT k) tx (take (sum_list rooms) (drop n (h ++ f)))
    ∧ pending d h f (n + sum_list rooms).
Proof.
  intros Hp Hr Hn Hf. unfold write.
  destruct (Z.eqb_spec c.(bytesToSend) 0) as [E|_]; [rewrite (pe_left _ _ _ _ Hp) in E; lia|].
  destruct (write_loop_pause fuel rooms c k tx [] h f n Hp Hr Hn Hf) as (d & -> & Hd & _).
  by exists d.
Qed.

(** C15. The text of an answer in pieces: when the first [writev] takes only
    [a] bytes of the text [h] and the second one [b] bytes that complete it, the
    answer still arrives whole; but when the second piece does not complete it
    and what was left after the first piece, [length h - a], is at most the
    [a + b] bytes sent by both, then [write], which compares the rest of the
    first buffer with the total sent, takes the text for sent: a file answer
    reads memory before the mapped file, an error answer loops for ever without
    sending its end. *)
Theorem write_breaks_on_split_text c k a b h f rooms :
  pending c h f 0 → a < length h →
  (length h ≤ a + b → covers (b :: rooms) (length h + length f - a) = true →
     ∃ d tx', write (2 + length rooms) c k (WRoom a :: WRoom b :: map WRoom rooms)
       = WDone c.(linger) d (modfd c.(sockfd) EPOLLIN k) tx' (h ++ f))
  ∧ (length h - a ≤ a + b < length h →
     (c.(ivCount) = 2 → write 3 c k (WRoom a :: WRoom b :: map WRoom rooms) = WUndefined)
     ∧ (c.(ivCount) = 1 →
        write (2 + length rooms) c k (WRoom a :: WRoom b :: map WRoom rooms) = WOutOfFuel)).
Proof.
  intros Hp Ha. split; [by apply write_in_two_pieces|]. intros Hb.
  pose proof (advance_twice c h f a b Hp Ha Hb) as (D0 & Dc & D1 & Db).
  split; intros Ec.
  - change 3 with (2 + 1). rewrite (write_two_pieces 1 c k h f) by done. cbn [write_loop].
    assert (gather (advance (Z.of_nat b) (advance (Z.of_nat a) c)) = Outside) as ->; [|done].
    unfold gather. rewrite (iov_bytes_out _ _ D0).
    rewrite Dc, Ec, decide_False by done. rewrite D1. unfold iov_bytes. cbn [iov_len iov_base].
    destruct (Z.eqb_spec (Z.of_nat (length h + length f) - Z.of_nat (a + b)) 0); [lia|].
    destruct (Z.leb_spec 0 (Z.of_nat (a + b) - Z.of_nat (length h))); [lia|].
    destruct (Z.eqb_spec (Z.of_nat (a + b) - Z.of_nat (length h)) 0); [lia|].
    cbn [andb]. by destruct (fileAddress _).
  - rewrite (write_two_pieces _ c k h f) by done.
    apply write_loop_stuck; [done|by rewrite Dc|lia|done].
Qed.

(** ** Witnesses *)

(** A connection ready to answer, and one whose file answer is prepared. *)
Definition ready_conn : http_conn :=
  init (HttpConn 5 [] 0 0 0 CHECK_STATE_REQUESTLINE GET [] None None None 0 false [] 0
    (FMapped (B "<html></html>")) (Stat 33188 13) (Iovec (PWrite 0) 0) (Iovec (PFile 0) 0) 0 0 0).

Definition answered_conn (r : HTTP_CODE) : http_conn := (processWrite r ready_conn).2.

Definition no_shared : shared := Shared ∅ ∅ ∅ 1.

Lemma ready_wbuf_ok : wbuf_ok ready_conn.
Proof. split; [done|]. apply Nat.ltb_lt. reflexivity. Qed.

Lemma answered_pending r :
  answerable r = true →
  pending (answered_conn r) (answer_text r false 13) (answer_body r ready_conn) 0.
Proof.
  intros Hr. destruct (processWrite_pending r ready_conn Hr ready_wbuf_ok eq_refl eq_refl)
    as (d & Hd & Hp & _); [intros _; by eexists|].
  unfold answered_conn. by rewrite Hd.
Qed.


Lemma write_resumes_witness :
  ∃ d, write 2 (answered_conn FILE_REQUEST) no_shared (map WRoom [90] ++ WAgain :: [])
    = WDone true d (modfd 5 EPOLLOUT no_shared) []
        (take 90 (answer_text FILE_REQUEST false 13 ++ B "<html></html>"))
    ∧ pending d (answer_text FILE_REQUEST false 13) (B "<html></html>") 90.
Proof.
  apply (write_resumes 2 (answered_conn FILE_REQUEST) no_shared [90] []
           (answer_text FILE_REQUEST false 13) (B "<html></html>") 0);
    [apply (answered_pending FILE_REQUEST eq_refl)|intros _; apply Nat.leb_le; reflexivity
    |apply Nat.ltb_lt; reflexivity|apply Nat.ltb_lt; reflexivity].
Defined.

Lemma write_breaks_on_split_text_witness :
  write 3 (answered_conn FILE_REQUEST) no_shared (WRoom 30 :: WRoom 25 :: map WRoom [500]) = WUndefined
  ∧ write 3 (answered_conn NO_RESOURCE) no_shared (WRoom 60 :: WRoom 30 :: map WRoom [500]) = WOutOfFuel
  ∧ ∃ d tx', write 3 (answered_conn FILE_REQUEST) no_shared (WRoom 30 :: WRoom 60 :: map WRoom [500])
      = WDone false d (modfd 5 EPOLLIN no_shared) tx' (answer_text FILE_REQUEST false 13 ++ B "<html></html>").
Proof.
  split; [|split].
  - apply (write_breaks_on_split_text (answered_conn FILE_REQUEST) no_shared 30 25
             (answer_text FILE_REQUEST false 13) (B "<html></html>") [500]);
      [apply (answered_pending FILE_REQUEST eq_refl)|apply Nat.ltb_lt; reflexivity
      |split; [apply Nat.leb_le|apply Nat.ltb_lt]; reflexivity|reflexivity].
  - apply (write_breaks_on_split_text (answered_conn NO_RESOURCE) no_shared 60 30
             (answer_text NO_RESOURCE false 13) [] [500]);
      [apply (answered_pending NO_RESOURCE eq_refl)|apply Nat.ltb_lt; reflexivity
      |split; [apply Nat.leb_le|apply Nat.ltb_lt]; reflexivity|reflexivity].
  - apply (write_breaks_on_split_text (answered_conn FILE_REQUEST) no_shared 30 60
             (answer_text FILE_REQUEST false 13) (B "<html></html>") [500]);
      [apply (answered_pending FILE_REQUEST eq_refl)|apply Nat.ltb_lt; reflexivity
      |apply Nat.leb_le; reflexivity|reflexivity].
Defined.
