(* ===== verification/Posix.v ===== *)
(** * Programs over POSIX

    The lessons are C programs made of system calls.  A program is a function
    of the [world] the kernel keeps for the process: files, descriptors,
    connections, the terminal, and scripts of what the outside does next (the
    peers, the readiness of descriptors, the lines typed, the calls that
    fail).  It ends with a value, an exit code, blocked for ever in a system
    call the outside never answers, undefined behaviour, or out of fuel. *)
From S2P Require Import Prelude CString.

(** ** Outcomes *)

Inductive res (A : Type) : Type :=
| Ok (a : A)
| Exit (code : Z)
| Blocked
| UB
| NoFuel.
Arguments Ok {A} a.
Arguments Exit {A} code.
Arguments Blocked {A}.
Arguments UB {A}.
Arguments NoFuel {A}.

(** ** The world of a process *)

(** An inode: a regular file with its bytes, a directory, a named pipe, or
    the file of a local socket. *)
Inductive inode := IFile (mode : Z) (content : bytes) | IDir (mode : Z) | IFifo (mode : Z) | ISock.

(** An open file description. *)
Record ofile := OpenFile { of_path : string; of_off : nat; of_flags : Z }.

(** A socket address: IPv4, both members in network byte order, or the path
    of a local socket. *)
Inductive saddr := Inet (s_addr port : Z) | Unix (path : string).

Definition sin_addr (a : saddr) : Z := match a with Inet x _ => x | Unix _ => 0 end.
Definition sin_port (a : saddr) : Z := match a with Inet _ p => p | Unix _ => 0 end.
Definition sun_path (a : saddr) : bytes := match a with Unix p => B p | Inet _ _ => [] end.

(** What the next [read] on a connection meets; the empty script is the end
    of the stream. *)
Inductive rx := RxData (d : bytes) | RxErr (e : Z).

(** A stream connection: bytes to come, bytes sent, status flags, peer. *)
Record conn := Conn { c_rx : list rx; c_tx : bytes; c_flags : Z; c_peer : saddr }.

(** What a descriptor designates. *)
Inductive odesc :=
| DFile (oid : nat)       (* an open file description *)
| DTerm                   (* the terminal *)
| DSocket (bound : option saddr)   (* a stream socket neither listening nor connected *)
| DDgram (bound : option saddr)    (* a datagram socket *)
| DListen (bound : option saddr)   (* a listening socket *)
| DConn (cid : nat)       (* a stream connection *)
| DEpoll.                 (* the epoll object *)

Record world := World {
  w_files : gmap string inode  (* the file system *);
  w_cwd : string  (* current directory *);
  w_umask : Z  (* file mode creation mask *);
  w_fds : gmap Z odesc  (* descriptor table *);
  w_open : list ofile  (* open file descriptions, shared by duplicates *);
  w_conns : list conn  (* stream connections, in order of creation *);
  w_accept : list (Z + (saddr * list rx))  (* what the next calls of accept and connect meet *);
  w_ready : list (list (Z * Z))  (* what the next readiness waits report *);
  w_dgrams : list (bytes * saddr)  (* datagrams on their way in *);
  w_sent : list (bytes * saddr)  (* datagrams sent, latest last *);
  w_epoll : list (Z * Z)  (* interest list of the epoll object *);
  w_stdin : list bytes  (* lines still to be typed *);
  w_out : bytes  (* standard output *);
  w_err : list (string * Z)  (* perror calls *);
  w_errno : Z  (* errno *);
  w_faults : list (option Z)  (* outcome imposed on the next fallible calls *);
  w_forks : list Z  (* results of the next forks *);
  w_slept : Z  (* microseconds slept *)
}.

Definition set_w_files (v : gmap string inode) (w : world) : world :=
  World v w.(w_cwd) w.(w_umask) w.(w_fds) w.(w_open) w.(w_conns) w.(w_accept) w.(w_ready) w.(w_dgrams) w.(w_sent) w.(w_epoll) w.(w_stdin) w.(w_out) w.(w_err) w.(w_errno) w.(w_faults) w.(w_forks) w.(w_slept).
Definition set_w_cwd (v : string) (w : world) : world :=
  World w.(w_files) v w.(w_umask) w.(w_fds) w.(w_open) w.(w_conns) w.(w_accept) w.(w_ready) w.(w_dgrams) w.(w_sent) w.(w_epoll) w.(w_stdin) w.(w_out) w.(w_err) w.(w_errno) w.(w_faults) w.(w_forks) w.(w_slept).
Definition set_w_umask (v : Z) (w : world) : world :=
  World w.(w_files) w.(w_cwd) v w.(w_fds) w.(w_open) w.(w_conns) w.(w_accept) w.(w_ready) w.(w_dgrams) w.(w_sent) w.(w_epoll) w.(w_stdin) w.(w_out) w.(w_err) w.(w_errno) w.(w_faults) w.(w_forks) w.(w_slept).
Definition set_w_fds (v : gmap Z odesc) (w : world) : world :=
  World w.(w_files) w.(w_cwd) w.(w_umask) v w.(w_open) w.(w_conns) w.(w_accept) w.(w_ready) w.(w_dgrams) w.(w_sent) w.(w_epoll) w.(w_stdin) w.(w_out) w.(w_err) w.(w_errno) w.(w_faults) w.(w_forks) w.(w_slept).
Definition set_w_open (v : list ofile) (w : world) : world :=
  World w.(w_files) w.(w_cwd) w.(w_umask) w.(w_fds) v w.(w_conns) w.(w_accept) w.(w_ready) w.(w_dgrams) w.(w_sent) w.(w_epoll) w.(w_stdin) w.(w_out) w.(w_err) w.(w_errno) w.(w_faults) w.(w_forks) w.(w_slept).
Definition set_w_conns (v : list conn) (w : world) : world :=
  World w.(w_files) w.(w_cwd) w.(w_umask) w.(w_fds) w.(w_open) v w.(w_accept) w.(w_ready) w.(w_dgrams) w.(w_sent) w.(w_epoll) w.(w_stdin) w.(w_out) w.(w_err) w.(w_errno) w.(w_faults) w.(w_forks) w.(w_slept).
Definition set_w_accept (v : list (Z + (saddr * list rx))) (w : world) : world :=
  World w.(w_files) w.(w_cwd) w.(w_umask) w.(w_fds) w.(w_open) w.(w_conns) v w.(w_ready) w.(w_dgrams) w.(w_sent) w.(w_epoll) w.(w_stdin) w.(w_out) w.(w_err) w.(w_errno) w.(w_faults) w.(w_forks) w.(w_slept).
Definition set_w_ready (v : list (list (Z * Z))) (w : world) : world :=
  World w.(w_files) w.(w_cwd) w.(w_umask) w.(w_fds) w.(w_open) w.(w_conns) w.(w_accept) v w.(w_dgrams) w.(w_sent) w.(w_epoll) w.(w_stdin) w.(w_out) w.(w_err) w.(w_errno) w.(w_faults) w.(w_forks) w.(w_slept).
Definition set_w_dgrams (v : list (bytes * saddr)) (w : world) : world :=
  World w.(w_files) w.(w_cwd) w.(w_umask) w.(w_fds) w.(w_open) w.(w_conns) w.(w_accept) w.(w_ready) v w.(w_sent) w.(w_epoll) w.(w_stdin) w.(w_out) w.(w_err) w.(w_errno) w.(w_faults) w.(w_forks) w.(w_slept).
Definition set_w_sent (v : list (bytes * saddr)) (w : world) : world :=
  World w.(w_files) w.(w_cwd) w.(w_umask) w.(w_fds) w.(w_open) w.(w_conns) w.(w_accept) w.(w_ready) w.(w_dgrams) v w.(w_epoll) w.(w_stdin) w.(w_out) w.(w_err) w.(w_errno) w.(w_faults) w.(w_forks) w.(w_slept).
Definition set_w_epoll (v : list (Z * Z)) (w : world) : world :=
  World w.(w_files) w.(w_cwd) w.(w_umask) w.(w_fds) w.(w_open) w.(w_conns) w.(w_accept) w.(w_ready) w.(w_dgrams) w.(w_sent) v w.(w_stdin) w.(w_out) w.(w_err) w.(w_errno) w.(w_faults) w.(w_forks) w.(w_slept).
Definition set_w_stdin (v : list bytes) (w : world) : world :=
  World w.(w_files) w.(w_cwd) w.(w_umask) w.(w_fds) w.(w_open) w.(w_conns) w.(w_accept) w.(w_ready) w.(w_dgrams) w.(w_sent) w.(w_epoll) v w.(w_out) w.(w_err) w.(w_errno) w.(w_faults) w.(w_forks) w.(w_slept).
Definition set_w_out (v : bytes) (w : world) : world :=
  World w.(w_files) w.(w_cwd) w.(w_umask) w.(w_fds) w.(w_open) w.(w_conns) w.(w_accept) w.(w_ready) w.(w_dgrams) w.(w_sent) w.(w_epoll) w.(w_stdin) v w.(w_err) w.(w_errno) w.(w_faults) w.(w_forks) w.(w_slept).
Definition set_w_err (v : list (string * Z)) (w : world) : world :=
  World w.(w_files) w.(w_cwd) w.(w_umask) w.(w_fds) w.(w_open) w.(w_conns) w.(w_accept) w.(w_ready) w.(w_dgrams) w.(w_sent) w.(w_epoll) w.(w_stdin) w.(w_out) v w.(w_errno) w.(w_faults) w.(w_forks) w.(w_slept).
Definition set_w_errno (v : Z) (w : world) : world :=
  World w.(w_files) w.(w_cwd) w.(w_umask) w.(w_fds) w.(w_open) w.(w_conns) w.(w_accept) w.(w_ready) w.(w_dgrams) w.(w_sent) w.(w_epoll) w.(w_stdin) w.(w_out) w.(w_err) v w.(w_faults) w.(w_forks) w.(w_slept).
Definition set_w_faults (v : list (option Z)) (w : world) : world :=
  World w.(w_files) w.(w_cwd) w.(w_umask) w.(w_fds) w.(w_open) w.(w_conns) w.(w_accept) w.(w_ready) w.(w_dgrams) w.(w_sent) w.(w_epoll) w.(w_stdin) w.(w_out) w.(w_err) w.(w_errno) v w.(w_forks) w.(w_slept).
Definition set_w_forks (v : list Z) (w : world) : world :=
  World w.(w_files) w.(w_cwd) w.(w_umask) w.(w_fds) w.(w_open) w.(w_conns) w.(w_accept) w.(w_ready) w.(w_dgrams) w.(w_sent) w.(w_epoll) w.(w_stdin) w.(w_out) w.(w_err) w.(w_errno) w.(w_faults) v w.(w_slept).
Definition set_w_slept (v : Z) (w : world) : world :=
  World w.(w_files) w.(w_cwd) w.(w_umask) w.(w_fds) w.(w_open) w.(w_conns) w.(w_accept) w.(w_ready) w.(w_dgrams) w.(w_sent) w.(w_epoll) w.(w_stdin) w.(w_out) w.(w_err) w.(w_errno) w.(w_faults) w.(w_forks) v.

(** ** The monad *)

Definition M (A : Type) : Type := world → res A * world.

#[export] Instance M_ret : MRet M := λ A a w, (Ok a, w).
#[export] Instance M_bind : MBind M := λ A B f m w,
  match m w with
  | (Ok a, w) => f a w
  | (Exit c, w) => (Exit c, w)
  | (Blocked, w) => (Blocked, w)
  | (UB, w) => (UB, w)
  | (NoFuel, w) => (NoFuel, w)
  end.

(** [exit(code)] and [return code] of [main]. *)
Definition exit {A} (code : Z) : M A := λ w, (Exit code, w).
Definition block {A} : M A := λ w, (Blocked, w).
Definition undefined {A} : M A := λ w, (UB, w).
Definition gets {A} (f : world → A) : M A := λ w, (Ok (f w), w).
Definition modify (f : world → world) : M unit := λ w, (Ok tt, f w).

(** A loop: the body continues with a new local state or breaks. *)
Fixpoint loop {S R : Type} (fuel : nat) (body : S → M (S + R)) (s : S) : M R :=
  match fuel with
  | 0 => λ w, (NoFuel, w)
  | S fuel =>
      r ← body s;
      match r with inl s => loop fuel body s | inr a => mret a end
  end.

(** [for] over the elements of a list, threading the local state. *)
Fixpoint for_each {A S : Type} (l : list A) (body : A → S → M S) (s : S) : M S :=
  match l with
  | [] => mret s
  | x :: l => s ← body x s; for_each l body s
  end.

(** ** Errors *)

Definition ENOENT : Z := 2.
Definition EINTR : Z := 4.
Definition ENXIO : Z := 6.
Definition EBADF : Z := 9.
Definition EAGAIN : Z := 11.
Definition EACCES : Z := 13.
Definition EEXIST : Z := 17.
Definition ENOTDIR : Z := 20.
Definition EISDIR : Z := 21.
Definition EINVAL : Z := 22.
Definition ENOTCONN : Z := 107.

(** A system call that fails with [e]. *)
Definition fail (e : Z) : M Z := modify (set_w_errno e);; mret (-1)%Z.

(** A fallible system call: the world may impose a failure on it. *)
Definition call (m : M Z) : M Z :=
  fs ← gets w_faults;
  match fs with
  | [] => m
  | None :: r => modify (set_w_faults r);; m
  | Some e :: r => modify (set_w_faults r);; fail e
  end.

(** ** The terminal *)

Definition print (s : bytes) : M unit := modify (λ w, set_w_out (w.(w_out) ++ s) w).
Definition perror (s : string) : M unit :=
  modify (λ w, set_w_err (w.(w_err) ++ [(s, w.(w_errno))]) w).
(** [perror(s); exit(code);] *)
Definition die {A} (s : string) (code : Z) : M A := perror s;; exit code.
Definition usleep (n : Z) : M unit := modify (λ w, set_w_slept (w.(w_slept) + n)%Z w).
Definition sleep (n : Z) : M unit := usleep (n * 1000000).

(** [%s]: the C string in a buffer, undefined without a terminator. *)
Definition c_string (buf : bytes) : M bytes :=
  match cstr buf with Some s => mret s | None => undefined end.

(** [fgets(buf, n, stdin)]: a line, cut to [n - 1] bytes, then NUL; at the end
    of input the buffer keeps its contents. *)
Definition fgets (buf : bytes) (n : nat) : M bytes :=
  l ← gets w_stdin;
  match l with
  | [] => mret buf
  | s :: r =>
      let k := take (n - 1) s in
      modify (set_w_stdin (if decide (length s ≤ n - 1) then r else drop (n - 1) s :: r));;
      mret (k ++ NUL :: drop (length k + 1) buf)
  end.

(** ** Descriptors *)

(** The lowest descriptor not in use, searched upwards from [fd]. *)
Fixpoint lowest (fuel : nat) (fd : Z) (m : gmap Z odesc) : Z :=
  match fuel with
  | 0 => fd
  | S fuel => match m !! fd with None => fd | Some _ => lowest fuel (fd + 1)%Z m end
  end.

Definition new_fd (d : odesc) : M Z :=
  m ← gets w_fds;
  let fd := lowest (size m) 0 m in
  modify (set_w_fds (<[fd := d]> m));; mret fd.

Definition fd_desc (fd : Z) : M (option odesc) := gets (λ w, w.(w_fds) !! fd).

Definition close (fd : Z) : M Z :=
  d ← fd_desc fd;
  match d with
  | None => fail EBADF
  | Some _ =>
      modify (λ w, set_w_epoll (filter (λ p, p.1 ≠ fd) w.(w_epoll)) (set_w_fds (delete fd w.(w_fds)) w));;
      mret 0%Z
  end.

Definition dup (fd : Z) : M Z :=
  call (d ← fd_desc fd; match d with None => fail EBADF | Some d => new_fd d end).

Definition dup2 (fd fd1 : Z) : M Z :=
  call (d ← fd_desc fd;
    match d with
    | None => fail EBADF
    | Some d => modify (λ w, set_w_fds (<[fd1 := d]> w.(w_fds)) w);; mret fd1
    end).

(** ** Flags *)

Definition O_RDONLY : Z := 0.
Definition O_WRONLY : Z := 1.
Definition O_RDWR : Z := 2.
Definition O_CREAT : Z := 64.
Definition O_TRUNC : Z := 512.
Definition O_APPEND : Z := 1024.
Definition O_NONBLOCK : Z := 2048.

Definition has (flags bit : Z) : bool := negb (Z.land flags bit =? 0)%Z.
(** The access mode is in the two low bits. *)
Definition readable (flags : Z) : bool := negb (Z.land flags 3 =? O_WRONLY)%Z.
Definition writable (flags : Z) : bool := negb (Z.land flags 3 =? O_RDONLY)%Z.

(** ** Reading and writing *)

(** Bytes written at offset [p] of a file; a gap reads as NUL, and no bytes
    leave the file as it is. *)
Definition write_at (p : nat) (d content : bytes) : bytes :=
  match d with
  | [] => content
  | _ => take p content ++ replicate (p - length content) NUL ++ d ++ drop (p + length d) content
  end.

Definition update_conn (cid : nat) (c : conn) (w : world) : world :=
  set_w_conns (<[cid := c]> w.(w_conns)) w.

(** [read(fd, buf, n)]: the result and the bytes stored. *)
Definition sys_read (fd : Z) (n : nat) : M (Z * bytes) :=
  d ← fd_desc fd;
  match d with
  | Some (DConn cid) =>
      c ← gets (λ w, w.(w_conns) !! cid);
      match c with
      | Some (Conn [] _ _ _) => mret (0%Z, [])
      | Some (Conn (RxErr e :: r) tx fl a) =>
          modify (update_conn cid (Conn r tx fl a));; z ← fail e; mret (z, [])
      | Some (Conn (RxData x :: r) tx fl a) =>
          let got := take n x in
          modify (update_conn cid
            (Conn (if decide (length x ≤ n) then r else RxData (drop n x) :: r) tx fl a));;
          mret (Z.of_nat (length got), got)
      | None => undefined
      end
  | Some (DFile oid) =>
      o ← gets (λ w, w.(w_open) !! oid);
      match o with
      | Some o =>
          if negb (readable o.(of_flags)) then z ← fail EBADF; mret (z, [])
          else
            i ← gets (λ w, w.(w_files) !! o.(of_path));
            match i with
            | Some (IFile _ content) =>
                let got := take n (drop o.(of_off) content) in
                modify (λ w, set_w_open
                  (<[oid := OpenFile o.(of_path) (o.(of_off) + length got) o.(of_flags)]> w.(w_open)) w);;
                mret (Z.of_nat (length got), got)
            | _ => z ← fail EISDIR; mret (z, [])
            end
      | None => undefined
      end
  | Some (DSocket _) => z ← fail EINVAL; mret (z, [])
  | _ => z ← fail EBADF; mret (z, [])
  end.

(** The buffer after [n] bytes [d] were stored at its start. *)
Definition fill (d buf : bytes) : bytes := d ++ drop (length d) buf.

Definition read (fd : Z) (buf : bytes) (n : nat) : M (Z * bytes) :=
  fs ← gets w_faults;
  match fs with
  | Some e :: r => modify (set_w_faults r);; z ← fail e; mret (z, buf)
  | None :: r => modify (set_w_faults r);; '(z, d) ← sys_read fd n; mret (z, fill d buf)
  | [] => '(z, d) ← sys_read fd n; mret (z, fill d buf)
  end.

(** [write(fd, d, length d)]. *)
Definition sys_write (fd : Z) (d : bytes) : M Z :=
  o ← fd_desc fd;
  match o with
  | Some (DConn cid) =>
      c ← gets (λ w, w.(w_conns) !! cid);
      match c with
      | Some (Conn r tx fl a) =>
          modify (update_conn cid (Conn r (tx ++ d) fl a));; mret (Z.of_nat (length d))
      | None => undefined
      end
  | Some DTerm => print d;; mret (Z.of_nat (length d))
  | Some (DFile oid) =>
      o ← gets (λ w, w.(w_open) !! oid);
      match o with
      | Some o =>
          if negb (writable o.(of_flags)) then fail EBADF
          else
            i ← gets (λ w, w.(w_files) !! o.(of_path));
            match i with
            | Some (IFile m content) =>
                let p := if has o.(of_flags) O_APPEND then length content else o.(of_off) in
                modify (λ w, set_w_open
                  (<[oid := OpenFile o.(of_path) (p + length d) o.(of_flags)]> w.(w_open))
                  (set_w_files (<[o.(of_path) := IFile m (write_at p d content)]> w.(w_files)) w));;
                mret (Z.of_nat (length d))
            | _ => fail EBADF
            end
      | None => undefined
      end
  | Some (DSocket _) => fail ENOTCONN
  | _ => fail EBADF
  end.

Definition write (fd : Z) (d : bytes) : M Z := call (sys_write fd d).

(** ** Files *)

(** A path, made absolute. *)
Definition resolve (w : world) (path : string) : string :=
  match path with
  | String c _ => if Ascii.eqb c "/" then path else w.(w_cwd) +:+ "/" +:+ path
  | EmptyString => path
  end.

Definition new_file (path : string) (flags : Z) : M Z :=
  t ← gets w_open;
  modify (set_w_open (t ++ [OpenFile path 0 flags]));; new_fd (DFile (length t)).

(** Opening a named pipe waits for the process at the other end, and fails as
    the script says; the pipe is then a stream. *)
Definition open_fifo (flags : Z) : M Z :=
  l ← gets w_accept;
  match l with
  | [] => block
  | inl e :: r => modify (set_w_accept r);; fail e
  | inr (a, script) :: r =>
      cs ← gets w_conns;
      modify (set_w_accept r);; modify (set_w_conns (cs ++ [Conn script [] flags a]));;
      new_fd (DConn (length cs))
  end.

(** The directory a path is in, and whether it exists; the current directory
    and the root do. *)
Fixpoint before_slash (l : bytes) : option bytes :=
  match l with
  | [] => None
  | c :: l =>
      match before_slash l with
      | Some p => Some (c :: p)
      | None => if Ascii.eqb c "/" then Some [] else None
      end
  end.
Definition parent (p : string) : string :=
  String.string_of_list_ascii (default [] (before_slash (B p))).
Definition is_dir (w : world) (d : string) : bool :=
  bool_decide (d = "") || bool_decide (d = w.(w_cwd))
  || match w.(w_files) !! d with Some (IDir _) => true | _ => false end.

(** [open(path, flags, mode)]. *)
Definition open (path : string) (flags mode : Z) : M Z :=
  call (
    p ← gets (λ w, resolve w path);
    i ← gets (λ w, w.(w_files) !! p);
    match i with
    | None =>
        d ← gets (λ w, is_dir w (parent p));
        if has flags O_CREAT && d then
          modify (λ w, set_w_files (<[p := IFile (Z.land mode (Z.lnot w.(w_umask))) []]> w.(w_files)) w);;
          new_file p flags
        else fail ENOENT
    | Some (IDir _) => if writable flags then fail EISDIR else new_file p flags
    | Some (IFile m _) =>
        (if has flags O_TRUNC && writable flags
         then modify (λ w, set_w_files (<[p := IFile m []]> w.(w_files)) w) else mret tt);;
        new_file p flags
    | Some (IFifo _) => open_fifo flags
    | Some ISock => fail ENXIO
    end).

Definition SEEK_END : Z := 2.
(** [lseek(fd, n, SEEK_END)]. *)
Definition lseek_end (fd : Z) (n : nat) : M Z :=
  call (
    d ← fd_desc fd;
    match d with
    | Some (DFile oid) =>
        o ← gets (λ w, w.(w_open) !! oid);
        match o with
        | Some o =>
            i ← gets (λ w, w.(w_files) !! o.(of_path));
            match i with
            | Some (IFile _ content) =>
                modify (λ w, set_w_open
                  (<[oid := OpenFile o.(of_path) (length content + n) o.(of_flags)]> w.(w_open)) w);;
                mret (Z.of_nat (length content + n))
            | _ => fail EINVAL
            end
        | None => undefined
        end
    | _ => fail EBADF
    end).

(** [fcntl(fd, F_GETFL)] and [fcntl(fd, F_SETFL, flags)]: of the flags only
    [O_APPEND] and [O_NONBLOCK] are settable. *)
Definition settable : Z := Z.lor O_APPEND O_NONBLOCK.
Definition fcntl_getfl (fd : Z) : M Z :=
  call (
    d ← fd_desc fd;
    match d with
    | Some (DFile oid) =>
        o ← gets (λ w, w.(w_open) !! oid);
        match o with Some o => mret (Z.land o.(of_flags) (Z.lor 3 settable)) | None => undefined end
    | Some (DConn cid) =>
        c ← gets (λ w, w.(w_conns) !! cid);
        match c with Some c => mret c.(c_flags) | None => undefined end
    | Some _ => mret O_RDWR
    | None => fail EBADF
    end).
Definition fcntl_setfl (fd flags : Z) : M Z :=
  let merge old := Z.lor (Z.land old (Z.lnot settable)) (Z.land flags settable) in
  call (
    d ← fd_desc fd;
    match d with
    | Some (DFile oid) =>
        modify (λ w, set_w_open
          (alter (λ o, OpenFile o.(of_path) o.(of_off) (merge o.(of_flags))) oid w.(w_open)) w);; mret 0%Z
    | Some (DConn cid) =>
        modify (λ w, set_w_conns
          (alter (λ c, Conn c.(c_rx) c.(c_tx) (merge c.(c_flags)) c.(c_peer)) cid w.(w_conns)) w);; mret 0%Z
    | Some _ => mret 0%Z
    | None => fail EBADF
    end).

(** ** Running programs *)

Lemma bind_ok {A C} (m : M A) (f : A → M C) w a w' :
  m w = (Ok a, w') → (m ≫= f) w = f a w'.
Proof. intros H. unfold mbind, M_bind. by rewrite H. Qed.

Lemma bind_exit {A C} (m : M A) (f : A → M C) w c w' :
  m w = (Exit c, w') → (m ≫= f) w = (Exit c, w').
Proof. intros H. unfold mbind, M_bind. by rewrite H. Qed.

Lemma bind_blocked {A C} (m : M A) (f : A → M C) w w' :
  m w = (Blocked, w') → (m ≫= f) w = (Blocked, w').
Proof. intros H. unfold mbind, M_bind. by rewrite H. Qed.

Lemma bind_UB {A C} (m : M A) (f : A → M C) w w' :
  m w = (UB, w') → (m ≫= f) w = (UB, w').
Proof. intros H. unfold mbind, M_bind. by rewrite H. Qed.

Section loops.
Context {S R : Type} (body : S → M (S + R)).

Lemma loop_next n s w s' w' :
  body s w = (Ok (inl s'), w') → loop (Datatypes.S n) body s w = loop n body s' w'.
Proof. intros H. cbn [loop]. by rewrite (bind_ok _ _ _ _ _ H). Qed.

Lemma loop_break n s w a w' :
  body s w = (Ok (inr a), w') → loop (Datatypes.S n) body s w = (Ok a, w').
Proof. intros H. cbn [loop]. by rewrite (bind_ok _ _ _ _ _ H). Qed.

Lemma loop_exit n s w c w' :
  body s w = (Exit c, w') → loop (Datatypes.S n) body s w = (Exit c, w').
Proof. intros H. cbn [loop]. by rewrite (bind_exit _ _ _ _ _ H). Qed.

Lemma loop_blocked n s w w' :
  body s w = (Blocked, w') → loop (Datatypes.S n) body s w = (Blocked, w').
Proof. intros H. cbn [loop]. by rewrite (bind_blocked _ _ _ _ H). Qed.

Lemma loop_UB n s w w' :
  body s w = (UB, w') → loop (Datatypes.S n) body s w = (UB, w').
Proof. intros H. cbn [loop]. by rewrite (bind_UB _ _ _ _ H). Qed.
End loops.

(** A step of a run: the result of the next call, given by a lemma or by
    computation. *)
Ltac step L := erewrite bind_ok by (eapply L; eauto).
Ltac step_eq := erewrite bind_ok by reflexivity; cbv beta.

(** The world with its fields in view: updates of variables compute. *)
Ltac world_eq := match goal with |- _ = _ => repeat match goal with w : world |- _ => destruct w end; reflexivity end.

Section steps.
Variable w : world.
Hypothesis no_faults : w.(w_faults) = [].

Lemma call_ok m : call m w = m w.
Proof. unfold call. erewrite bind_ok by reflexivity. by rewrite no_faults. Qed.

Lemma read_sys fd buf n z d w' :
  sys_read fd n w = (Ok (z, d), w') → read fd buf n w = (Ok (z, fill d buf), w').
Proof.
  intros H. unfold read. erewrite bind_ok by reflexivity. rewrite no_faults.
  by rewrite (bind_ok _ _ _ _ _ H).
Qed.

Lemma read_data fd buf n cid d r tx fl a :
  w.(w_fds) !! fd = Some (DConn cid) → w.(w_conns) !! cid = Some (Conn (RxData d :: r) tx fl a) →
  length d ≤ n →
  read fd buf n w = (Ok (Z.of_nat (length d), fill d buf), update_conn cid (Conn r tx fl a) w).
Proof.
  intros Hfd Hc Hn. apply read_sys. unfold sys_read.
  erewrite bind_ok by reflexivity. rewrite Hfd. erewrite bind_ok by reflexivity. rewrite Hc.
  rewrite decide_True by done. rewrite take_ge by done. reflexivity.
Qed.

Lemma read_end fd buf n cid tx fl a :
  w.(w_fds) !! fd = Some (DConn cid) → w.(w_conns) !! cid = Some (Conn [] tx fl a) →
  read fd buf n w = (Ok (0%Z, buf), w).
Proof.
  intros Hfd Hc. change buf with (fill [] buf) at 2. apply read_sys. unfold sys_read.
  erewrite bind_ok by reflexivity. rewrite Hfd. erewrite bind_ok by reflexivity. by rewrite Hc.
Qed.

Lemma write_conn fd cid d r tx fl a :
  w.(w_fds) !! fd = Some (DConn cid) → w.(w_conns) !! cid = Some (Conn r tx fl a) →
  write fd d w = (Ok (Z.of_nat (length d)), update_conn cid (Conn r (tx ++ d) fl a) w).
Proof.
  intros Hfd Hc. unfold write. rewrite call_ok. unfold sys_write.
  erewrite bind_ok by reflexivity. rewrite Hfd. erewrite bind_ok by reflexivity. by rewrite Hc.
Qed.
End steps.

Lemma set_faults_nil w : w.(w_faults) = [] → set_w_faults [] w = w.
Proof. destruct w. simpl. by intros ->. Qed.

Lemma c_string_ok buf s w : cstr buf = Some s → c_string buf w = (Ok s, w).
Proof. intros H. unfold c_string. by rewrite H. Qed.

Lemma c_string_UB buf w : cstr buf = None → c_string buf w = (UB, w).
Proof. intros H. unfold c_string. by rewrite H. Qed.

Lemma close_open fd w :
  is_Some (w.(w_fds) !! fd) →
  close fd w = (Ok 0%Z, set_w_epoll (filter (λ p, p.1 ≠ fd) w.(w_epoll)) (set_w_fds (delete fd w.(w_fds)) w)).
Proof. intros [d H]. unfold close. erewrite bind_ok by reflexivity. by rewrite H. Qed.

Lemma fill_nil buf : fill [] buf = buf.
Proof. done. Qed.

Lemma length_fill d buf : length d ≤ length buf → length (fill d buf) = length buf.
Proof. intros. unfold fill. rewrite length_app, length_drop. lia. Qed.

(** ** Fresh descriptors *)

Lemma lowest_spec k fd m :
  (m !! lowest k fd m = None)
  ∨ (lowest k fd m = fd + Z.of_nat k ∧ ∀ i, fd ≤ i < fd + Z.of_nat k → is_Some (m !! i))%Z.
Proof.
  revert fd. induction k as [|k IH]; intros fd; cbn [lowest].
  - right. split; [lia|]. lia.
  - destruct (m !! fd) as [d|] eqn:E; [|by left].
    destruct (IH (fd + 1)%Z) as [H|[H1 H2]]; [by left|]. right. split; [lia|].
    intros i Hi. destruct (decide (i = fd)) as [->|]; [by eexists|]. apply H2. lia.
Qed.

(** A table of [n] entries does not hold 0, ..., [n]. *)
Lemma lowest_fresh m : m !! lowest (size m) 0 m = None.
Proof.
  destruct (lowest_spec (size m) 0 m) as [H|[E H]]; [done|]. rewrite E.
  destruct (m !! (0 + Z.of_nat (size m))%Z) as [d|] eqn:Ed; [|done]. exfalso.
  set (ks := seqZ 0 (Z.of_nat (S (size m)))).
  assert (list_to_set ks ⊆@{gset Z} dom m) as Hs.
  { intros i Hi. rewrite elem_of_list_to_set in Hi. apply elem_of_seqZ in Hi. apply elem_of_dom.
    destruct (decide (i = 0 + Z.of_nat (size m)))%Z as [->|]; [by eexists|]. apply H. lia. }
  apply subseteq_size in Hs. rewrite size_list_to_set in Hs by apply NoDup_seqZ.
  rewrite size_dom in Hs. unfold ks in Hs. rewrite length_seqZ in Hs. lia.
Qed.

Lemma lowest_le k fd m : (fd ≤ lowest k fd m)%Z.
Proof.
  revert fd. induction k as [|k IH]; intros fd; cbn [lowest]; [lia|].
  destruct (m !! fd); [|lia]. specialize (IH (fd + 1)%Z). lia.
Qed.

(** ** The process as it starts *)

Definition std_fds : gmap Z odesc := {[0%Z := DTerm; 1%Z := DTerm; 2%Z := DTerm]}.

(** A process with its three descriptors on the terminal, no file system and
    nothing scripted. *)
Definition start : world :=
  World ∅ "" 18 std_fds [] [] [] [] [] [] [] [] [] [] 0 [] [] 0.

(** What standard output shows after [s] more. *)
Definition say (s : bytes) (w : world) : world := set_w_out (w.(w_out) ++ s) w.

Lemma print_say s w : print s w = (Ok tt, say s w).
Proof. done. Qed.

Lemma say_say s t w : say t (say s w) = say (s ++ t) w.
Proof. unfold say. cbn [w_out set_w_out]. rewrite app_assoc. reflexivity. Qed.

Lemma update_conn_say cid c s w : update_conn cid c (say s w) = say s (update_conn cid c w).
Proof. done. Qed.

Lemma update_conn_update cid c c' w : update_conn cid c (update_conn cid c' w) = update_conn cid c w.
Proof.
  unfold update_conn. cbn [w_conns set_w_conns]. rewrite list_insert_insert_eq. reflexivity.
Qed.

Lemma update_conn_lookup cid c w c0 :
  w.(w_conns) !! cid = Some c0 → (update_conn cid c w).(w_conns) !! cid = Some c.
Proof. intros H. apply list_lookup_insert_eq. by eapply lookup_lt_Some. Qed.
