(* ===== verification/NetBytes.v ===== *)
(** * Byte order and IPv4 addresses

    The conversions the network programs rely on ([htons], [htonl],
    [inet_pton], [inet_ntop]) on a little-endian host, and the programs of
    lesson31, which exercise them. *)
From S2P Require Import Prelude CString Posix.

(** ** Byte order *)

(** The bytes of an integer in memory, lowest address first, and back. *)
Definition octet (x : Z) (i : Z) : Z := x / 256 ^ i mod 256.
Definition of_octets (a b c d : Z) : Z := a + 256 * b + 65536 * c + 16777216 * d.

Definition htons (x : Z) : Z := octet x 1 + 256 * octet x 0.
Definition ntohs (x : Z) : Z := htons x.
Definition htonl (x : Z) : Z := of_octets (octet x 3) (octet x 2) (octet x 1) (octet x 0).
Definition ntohl (x : Z) : Z := htonl x.

(** ** Addresses *)

Definition DOT : ascii := "."%char.

(** [inet_ntop(AF_INET, &x, ...)]. *)
Definition inet_ntop (x : Z) : bytes :=
  dec (octet x 0) ++ DOT :: dec (octet x 1) ++ DOT :: dec (octet x 2) ++ DOT :: dec (octet x 3).

(** The parts of a text between dots. *)
Fixpoint fields (s : bytes) : list bytes :=
  match s with
  | [] => [[]]
  | c :: s =>
      if Ascii.eqb c DOT then [] :: fields s
      else match fields s with f :: fs => (c :: f) :: fs | [] => [[c]] end
  end.

(** A decimal number of at most three digits, without leading zeros, below
    256. *)
Definition part (f : bytes) : option Z :=
  let n := digits 0 f in
  if forallb isdigit f && (length f <=? 3)%nat && (n <? 256)%Z
       && match f with [] => false | c :: r => negb (Ascii.eqb c "0") || bool_decide (r = []) end
  then Some n else None.

(** [inet_pton(AF_INET, s, &x)]: [None] is the result 0, with [x] unchanged. *)
Definition inet_pton (s : bytes) : option Z :=
  match fields s with
  | [a; b; c; d] =>
      a ← part a; b ← part b; c ← part c; d ← part d; Some (of_octets a b c d)
  | _ => None
  end.

Definition INADDR_ANY : Z := 0.

(** ** The programs of lesson31 *)

(** How the machine stores a [short]: the bytes at its two addresses. *)
Inductive endian := BigEndian | LittleEndian.
Definition short_bytes (e : endian) (v : Z) : Z * Z :=
  match e with BigEndian => (octet v 1, octet v 0) | LittleEndian => (octet v 0, octet v 1) end.

(** lesson31/byteorder.c *)
Definition byteorder_main (e : endian) : M unit :=
  let '(b0, b1) := short_bytes e 258 in
  (if ((b0 =? 1) && (b1 =? 2))%Z then print (B "大端存储" ++ [LF])
   else if ((b1 =? 1) && (b0 =? 2))%Z then print (B "小端存储" ++ [LF])
   else print (B "未知存储顺序" ++ [LF]));;
  exit 0.

(** The conversion [%x]. *)
Definition hex_digit (d : Z) : ascii :=
  ascii_of_N (Z.to_N (if (d <? 10)%Z then d + 48 else d + 87)).
Fixpoint hex_go (fuel : nat) (z : Z) (acc : bytes) : bytes :=
  match fuel with
  | 0 => acc
  | S fuel =>
      let acc := hex_digit (z mod 16) :: acc in
      if (z <? 16)%Z then acc else hex_go fuel (z / 16) acc
  end.
Definition hex (z : Z) : bytes := hex_go 8 z [].

Definition quad (sep : bytes) (a b c d : Z) : bytes :=
  dec a ++ sep ++ dec b ++ sep ++ dec c ++ sep ++ dec d.

(** lesson31/bytetrans.c *)
Definition bytetrans_main : M unit :=
  let a := 258%Z in
  let b := htons a in
  print (B "a : " ++ hex a ++ [LF]);;
  print (B "b : " ++ hex b ++ [LF]);;
  let num := of_octets 192 168 1 100 in
  let sum := htonl num in
  print (B "buf : " ++ quad (B ".") 192 168 1 100 ++ [LF]);;
  print (B "p : " ++ quad (B ".") (octet sum 0) (octet sum 1) (octet sum 2) (octet sum 3) ++ [LF]);;
  print (B "------------------------" ++ [LF]);;
  let num1 := of_octets 1 1 168 192 in
  let sum1 := ntohl num1 in
  print (B "buf1 : " ++ quad (B ".") 1 1 168 192 ++ [LF]);;
  print (B "p1 : " ++ quad (B " ") (octet sum1 0) (octet sum1 1) (octet sum1 2) (octet sum1 3) ++ [LF]);;
  let a1 := 513%Z in
  let b1 := htons a1 in
  print (B "a1 : " ++ hex a1 ++ [LF]);;
  print (B "b1 : " ++ hex b1 ++ [LF]);;
  exit 0%Z.

(** lesson31/iptrans.c; [addr] is the printed address of [buf], which is also
    what [inet_ntop] returns. *)
Definition iptrans_main (addr : bytes) : M unit :=
  let ip := B "192.168.23.128" in
  let num := default 0%Z (inet_pton ip) in
  print (B "ip  : " ++ ip ++ [LF]);;
  print (B "num : " ++ dec num ++ B "d" ++ [LF]);;
  print (B "sizeof(char) = " ++ dec 1 ++ [LF]);;
  let buf := inet_ntop num in
  print (B "p   : " ++ addr ++ [LF] ++ B "buf : " ++ addr ++ [LF]);;
  print (B "buf : " ++ buf ++ [LF]);;
  exit 0%Z.

(** lesson31/socket.c declares nothing but an empty [main]. *)
Definition socket_main : M unit := exit 0%Z.

(** ** Lemmas *)

Ltac Zify.zify_post_hook ::= Z.div_mod_to_equations.

Lemma octet_range x i : (0 ≤ octet x i < 256)%Z.
Proof. unfold octet. apply Z.mod_pos_bound. lia. Qed.

Lemma of_octets_octet a b c d :
  (0 ≤ a < 256 → 0 ≤ b < 256 → 0 ≤ c < 256 → 0 ≤ d < 256 →
   octet (of_octets a b c d) 0 = a ∧ octet (of_octets a b c d) 1 = b
   ∧ octet (of_octets a b c d) 2 = c ∧ octet (of_octets a b c d) 3 = d)%Z.
Proof.
  intros. unfold octet, of_octets.
  change (256 ^ 0)%Z with 1%Z. change (256 ^ 1)%Z with 256%Z.
  change (256 ^ 2)%Z with 65536%Z. change (256 ^ 3)%Z with 16777216%Z. lia.
Qed.

Lemma octet_of_octets x :
  (0 ≤ x < 2 ^ 32)%Z → of_octets (octet x 0) (octet x 1) (octet x 2) (octet x 3) = x.
Proof.
  intros. unfold octet, of_octets.
  change (256 ^ 0)%Z with 1%Z. change (256 ^ 1)%Z with 256%Z.
  change (256 ^ 2)%Z with 65536%Z. change (256 ^ 3)%Z with 16777216%Z. lia.
Qed.

Lemma of_octets_range a b c d :
  (0 ≤ a < 256 → 0 ≤ b < 256 → 0 ≤ c < 256 → 0 ≤ d < 256 → 0 ≤ of_octets a b c d < 2 ^ 32)%Z.
Proof. unfold of_octets. lia. Qed.

(** The texts [dec] prints for an octet, by enumeration. *)
Lemma dec_octet n : (0 ≤ n < 256)%Z → part (dec n) = Some n ∧ Forall (λ c, c ≠ DOT) (dec n).
Proof.
  intros H.
  assert (∀ k, k < 256 → bool_decide (part (dec (Z.of_nat k)) = Some (Z.of_nat k))
                         && bool_decide (Forall (λ c, c ≠ DOT) (dec (Z.of_nat k))) = true) as A.
  { apply forallb_below. by vm_compute. }
  rewrite <- (Z2Nat.id n) by lia. specialize (A (Z.to_nat n) ltac:(lia)).
  by apply andb_prop in A as [?%bool_decide_eq_true ?%bool_decide_eq_true].
Qed.

Lemma isdigit_chars c : isdigit c = true → c ∈ B "0123456789".
Proof.
  assert (forallb (λ k, implb (isdigit (ascii_of_nat k)) (bool_decide (ascii_of_nat k ∈ B "0123456789")))
            (seq 0 256) = true) as A by by vm_compute.
  intros H. pose proof (forallb_below _ _ A (nat_of_ascii c) (nat_ascii_bounded c)) as E.
  cbv beta in E. rewrite ascii_nat_embedding, H in E. by apply bool_decide_eq_true in E.
Qed.

Lemma part_Some f n : part f = Some n → f = dec n ∧ (0 ≤ n < 256)%Z.
Proof.
  assert (∀ k, k < 4 → forallb (λ f, match part f with
            | Some n => bool_decide (f = dec n) && ((0 <=? n) && (n <? 256))%Z | None => true end)
            (words (B "0123456789") k) = true) as A.
  { apply forallb_below. by vm_compute. }
  intros H. assert (forallb isdigit f = true ∧ length f ≤ 3) as [Hd Hl].
  { unfold part in H. case_match eqn:E; [|done].
    repeat apply andb_prop in E as [E ?]. split; [done|]. by apply Nat.leb_le. }
  assert (f ∈ words (B "0123456789") (length f)) as Hf.
  { apply elem_of_words, Forall_forall. intros c Hc. apply isdigit_chars.
    rewrite forallb_forall in Hd. by apply Hd, list_elem_of_In. }
  specialize (A (length f) ltac:(lia)). rewrite forallb_forall in A.
  apply list_elem_of_In, A in Hf. rewrite H in Hf.
  apply andb_prop in Hf as [?%bool_decide_eq_true ?]. split; [done|]. lia.
Qed.

Lemma fields_app a s : Forall (λ c, c ≠ DOT) a → fields (a ++ DOT :: s) = a :: fields s.
Proof.
  induction 1 as [|c a Hc _ IH]; [done|]. cbn [fields app].
  destruct (Ascii.eqb_spec c DOT); [done|]. by rewrite IH.
Qed.

Lemma fields_plain a : Forall (λ c, c ≠ DOT) a → fields a = [a].
Proof.
  induction 1 as [|c a Hc _ IH]; [done|]. cbn [fields].
  destruct (Ascii.eqb_spec c DOT); [done|]. by rewrite IH.
Qed.

(** The dots put back. *)
Fixpoint join (fs : list bytes) : bytes :=
  match fs with [] => [] | [f] => f | f :: fs => f ++ DOT :: join fs end.

Lemma fields_join s : join (fields s) = s ∧ fields s ≠ [].
Proof.
  induction s as [|c s [IH Hs]]; [done|]. cbn [fields].
  destruct (Ascii.eqb_spec c DOT) as [->|Hc].
  - split; [|done]. destruct (fields s) as [|f fs]; [done|]. simpl in *. by rewrite IH.
  - destruct (fields s) as [|f fs]; [done|]. split; [|done].
    destruct fs; simpl in *; by rewrite IH.
Qed.

Lemma inet_ntop_pton x : (0 ≤ x < 2 ^ 32)%Z → inet_pton (inet_ntop x) = Some x.
Proof.
  intros Hx. unfold inet_pton, inet_ntop.
  pose proof (λ i, dec_octet (octet x i) (octet_range x i)) as H.
  rewrite !fields_app, fields_plain by apply H.
  rewrite !(proj1 (H _)). simpl. by rewrite octet_of_octets.
Qed.

Lemma inet_pton_ntop s x : inet_pton s = Some x → inet_ntop x = s ∧ (0 ≤ x < 2 ^ 32)%Z.
Proof.
  unfold inet_pton. destruct (fields_join s) as [<- _].
  destruct (fields (join (fields s))) as [|a [|b [|c [|d [|]]]]] eqn:E; try done.
  rewrite (proj1 (fields_join s)) in E. rewrite E.
  destruct (part a) as [a'|] eqn:Ea; [|done]. destruct (part b) as [b'|] eqn:Eb; [|done].
  destruct (part c) as [c'|] eqn:Ec; [|done]. destruct (part d) as [d'|] eqn:Ed; [|done].
  apply part_Some in Ea as [-> ?], Eb as [-> ?], Ec as [-> ?], Ed as [-> ?].
  intros [= <-]. unfold inet_ntop. pose proof (of_octets_octet a' b' c' d') as (-> & -> & -> & ->); try done.
  split; [done|]. by apply of_octets_range.
Qed.

Lemma htons_htons x : (0 ≤ x < 2 ^ 16)%Z → ntohs (htons x) = x.
Proof.
  intros. unfold ntohs, htons, octet. change (256 ^ 0)%Z with 1%Z. change (256 ^ 1)%Z with 256%Z. lia.
Qed.
