(* ===== verification/Sockets.v ===== *)
(** * Sockets and readiness

    The network part of the world: stream and datagram sockets, the waits for
    readiness ([select], [poll], [epoll]), [fork] and the calls on local
    socket files. *)
From S2P Require Import Prelude CString Posix NetBytes.

(** ** Errors *)

Definition ENOTSOCK : Z := 88.
Definition EADDRINUSE : Z := 98.

(** ** Stream sockets *)

Definition set_desc (fd : Z) (d : odesc) : M unit :=
  modify (λ w, set_w_fds (<[fd := d]> w.(w_fds)) w).

(** [socket(PF_INET or AF_LOCAL, SOCK_STREAM, 0)] and [SOCK_DGRAM]. *)
Definition socket_stream : M Z := call (new_fd (DSocket None)).
Definition socket_dgram : M Z := call (new_fd (DDgram None)).

(** [bind]: a local address creates the file of the socket. *)
Definition bind (fd : Z) (a : saddr) : M Z :=
  call (
    d ← fd_desc fd;
    used ← gets (λ w, match a with
      | Unix p => bool_decide (is_Some (w.(w_files) !! resolve w p)) | Inet _ _ => false end);
    let mark := match a with
      | Unix p => modify (λ w, set_w_files (<[resolve w p := ISock]> w.(w_files)) w)
      | Inet _ _ => mret tt end in
    match d with
    | Some (DSocket None) =>
        if (used : bool) then fail EADDRINUSE else mark;; set_desc fd (DSocket (Some a));; mret 0%Z
    | Some (DDgram None) =>
        if (used : bool) then fail EADDRINUSE else mark;; set_desc fd (DDgram (Some a));; mret 0%Z
    | Some _ => fail EINVAL
    | None => fail EBADF
    end).

Definition listen (fd : Z) (backlog : Z) : M Z :=
  call (
    d ← fd_desc fd;
    match d with
    | Some (DSocket a) => set_desc fd (DListen a);; mret 0%Z
    | Some (DListen _) => mret 0%Z
    | Some _ => fail EINVAL
    | None => fail EBADF
    end).

(** A new connection with the given script and peer. *)
Definition new_conn (a : saddr) (script : list rx) : M nat :=
  l ← gets w_conns;
  modify (set_w_conns (l ++ [Conn script [] O_RDWR a]));; mret (length l).

(** [accept(fd, &a, &len)]: the result and the address, which keeps its value
    when the call fails. *)
Definition accept (fd : Z) (a : saddr) : M (Z * saddr) :=
  d ← fd_desc fd;
  match d with
  | Some (DListen _) =>
      l ← gets w_accept;
      match l with
      | [] => block
      | inl e :: r => modify (set_w_accept r);; z ← fail e; mret (z, a)
      | inr (peer, script) :: r =>
          modify (set_w_accept r);;
          cid ← new_conn peer script;
          cfd ← new_fd (DConn cid); mret (cfd, peer)
      end
  | Some _ => z ← fail EINVAL; mret (z, a)
  | None => z ← fail EBADF; mret (z, a)
  end.

Definition connect (fd : Z) (a : saddr) : M Z :=
  d ← fd_desc fd;
  match d with
  | Some (DSocket _) =>
      l ← gets w_accept;
      match l with
      | [] => block
      | inl e :: r => modify (set_w_accept r);; fail e
      | inr (_, script) :: r =>
          modify (set_w_accept r);;
          cid ← new_conn a script; set_desc fd (DConn cid);; mret 0%Z
      end
  | Some _ => fail EINVAL
  | None => fail EBADF
  end.

Definition setsockopt (fd : Z) : M Z :=
  call (d ← fd_desc fd; match d with None => fail EBADF | Some _ => mret 0%Z end).

(** [recv] and [send] without flags. *)
Definition recv := read.
Definition send := write.

Definition unlink (path : string) : M Z :=
  call (
    p ← gets (λ w, resolve w path);
    i ← gets (λ w, w.(w_files) !! p);
    match i with
    | None => fail ENOENT
    | Some (IDir _) => fail EISDIR
    | Some _ => modify (λ w, set_w_files (delete p w.(w_files)) w);; mret 0%Z
    end).

(** ** Datagrams *)

(** [recvfrom(fd, buf, n, 0, &a, &len)]: a longer datagram is cut. *)
Definition recvfrom (fd : Z) (buf : bytes) (n : nat) (a : saddr) : M (Z * bytes * saddr) :=
  d ← fd_desc fd;
  match d with
  | Some (DDgram _) =>
      l ← gets w_dgrams;
      match l with
      | [] => block
      | (x, peer) :: r =>
          modify (set_w_dgrams r);;
          let got := take n x in
          mret (Z.of_nat (length got), fill got buf, peer)
      end
  | _ => z ← fail EBADF; mret (z, buf, a)
  end.

Definition sendto (fd : Z) (d : bytes) (a : saddr) : M Z :=
  call (
    o ← fd_desc fd;
    match o with
    | Some (DDgram _) =>
        modify (λ w, set_w_sent (w.(w_sent) ++ [(d, a)]) w);; mret (Z.of_nat (length d))
    | _ => fail EBADF
    end).

(** ** Readiness *)

Definition EPOLLIN : Z := 1.
Definition EPOLLOUT : Z := 4.
Definition EPOLLERR : Z := 8.
Definition EPOLLHUP : Z := 16.
Definition EPOLLET : Z := 2147483648.
Definition POLLIN : Z := 1.
Definition POLLERR : Z := 8.
Definition POLLHUP : Z := 16.

Definition epoll_create : M Z := call (modify (set_w_epoll []);; new_fd DEpoll).

Definition epoll_registered (fd : Z) (l : list (Z * Z)) : option Z :=
  snd <$> List.find (λ p, (p.1 =? fd)%Z) l.

(** [EPOLL_CTL_ADD] and [EPOLL_CTL_DEL]. *)
Definition epoll_add (epfd fd ev : Z) : M Z :=
  call (
    e ← fd_desc epfd; d ← fd_desc fd;
    l ← gets w_epoll;
    match e, d with
    | Some DEpoll, Some _ =>
        if bool_decide (is_Some (epoll_registered fd l)) then fail EEXIST
        else modify (set_w_epoll (l ++ [(fd, ev)]));; mret 0%Z
    | _, _ => fail EBADF
    end).
Definition epoll_del (epfd fd : Z) : M Z :=
  call (
    e ← fd_desc epfd; d ← fd_desc fd;
    l ← gets w_epoll;
    match e, d with
    | Some DEpoll, Some _ =>
        if bool_decide (is_Some (epoll_registered fd l))
        then modify (set_w_epoll (filter (λ p, p.1 ≠ fd) l));; mret 0%Z
        else fail ENOENT
    | _, _ => fail EBADF
    end).

(** The first entry of each descriptor. *)
Fixpoint once (seen : list Z) (r : list (Z * Z)) : list (Z * Z) :=
  match r with
  | [] => []
  | p :: r => if decide (p.1 ∈ seen) then once seen r else p :: once (p.1 :: seen) r
  end.

(** What a report of the outside gives for the interest list: the events
    asked for, errors and hang-ups, of registered descriptors, each one once. *)
Definition epoll_report (l : list (Z * Z)) (r : list (Z * Z)) : list (Z * Z) :=
  once [] $ omap (λ p, match epoll_registered p.1 l with
    | Some ask =>
        let ev := Z.land p.2 (Z.lor ask (Z.lor EPOLLERR EPOLLHUP)) in
        if (ev =? 0)%Z then None else Some (p.1, ev)
    | None => None
    end) r.

(** The first report that has something for the caller, and the script left. *)
Fixpoint next_report {A} (f : list (Z * Z) → list A) (script : list (list (Z * Z)))
  : option (list A * list (list (Z * Z))) :=
  match script with
  | [] => None
  | r :: script => match f r with [] => next_report f script | l => Some (l, script) end
  end.

(** [epoll_wait(epfd, evs, maxevents, -1)]: [None] is the result -1. *)
Definition epoll_wait (epfd : Z) (maxevents : nat) : M (option (list (Z * Z))) :=
  fs ← gets w_faults;
  match fs with
  | Some e :: r => modify (set_w_faults r);; _ ← fail e; mret None
  | _ =>
      modify (set_w_faults (tail fs));;
      d ← fd_desc epfd;
      match d with
      | Some DEpoll =>
          l ← gets w_epoll; script ← gets w_ready;
          match next_report (epoll_report l) script with
          | None => block
          | Some (evs, r) => modify (set_w_ready r);; mret (Some (take maxevents evs))
          end
      | _ => _ ← fail EBADF; mret None
      end
  end.

(** [select(nfds, &set, NULL, NULL, NULL)]: the descriptors of the set below
    [nfds] that are ready; [None] is the result -1. *)
Definition select (nfds : Z) (set : list Z) : M (option (list Z)) :=
  fs ← gets w_faults;
  match fs with
  | Some e :: r => modify (set_w_faults r);; _ ← fail e; mret None
  | _ =>
      modify (set_w_faults (tail fs));;
      fds ← gets w_fds;
      if forallb (λ fd, bool_decide (is_Some (fds !! fd)) || (nfds <=? fd)%Z) set then
        script ← gets w_ready;
        match next_report (λ r, omap (λ p, if bool_decide (p.1 ∈ set) && (p.1 <? nfds)%Z
                                           then Some p.1 else None) r) script with
        | None => block
        | Some (l, r) => modify (set_w_ready r);; mret (Some l)
        end
      else _ ← fail EBADF; mret None
  end.

(** [struct pollfd] without the constant member [events], which is [POLLIN]. *)
Record pollfd := PollFd { pfd : Z; revents : Z }.

(** The [revents] of an entry for a report. *)
Definition poll_events (r : list (Z * Z)) (fd : Z) : Z :=
  if (fd <? 0)%Z then 0%Z
  else match epoll_registered fd r with
       | Some ev => Z.land ev (Z.lor POLLIN (Z.lor POLLERR POLLHUP)) | None => 0%Z end.

(** [poll(fds, n, -1)]: the first [n] entries get their [revents]. *)
Definition poll_report (fds : list pollfd) (n : nat) (r : list (Z * Z)) : list pollfd :=
  map (λ p, PollFd p.(pfd) (poll_events r p.(pfd))) (take n fds) ++ drop n fds.
Definition poll_count (fds : list pollfd) (n : nat) : nat :=
  length (filter (λ p, p.(revents) ≠ 0%Z) (take n fds)).

Definition poll (fds : list pollfd) (n : nat) : M (Z * list pollfd) :=
  fs ← gets w_faults;
  match fs with
  | Some e :: r => modify (set_w_faults r);; z ← fail e; mret (z, fds)
  | _ =>
      modify (set_w_faults (tail fs));;
      script ← gets w_ready;
      match next_report (λ r, let fds' := poll_report fds n r in
                              if decide (poll_count fds' n = 0) then [] else [fds']) script with
      | Some ([fds'], r) =>
          modify (set_w_ready r);; mret (Z.of_nat (poll_count fds' n), fds')
      | _ => block
      end
  end.

(** ** Processes *)

(** [fork()]: the process that goes on is the one the script chooses; 0 in
    the child, the child's pid in the parent. *)
Definition fork : M Z :=
  l ← gets w_forks;
  match l with
  | [] => block
  | pid :: r => modify (set_w_forks r);; if (pid <? 0)%Z then fail EAGAIN else mret pid
  end.

(** ** Lemmas *)

Section net_steps.
Variable w : world.
Hypothesis no_faults : w.(w_faults) = [].

Lemma accept_conn fd a b peer script r :
  w.(w_fds) !! fd = Some (DListen b) → w.(w_accept) = inr (peer, script) :: r →
  accept fd a w =
    (let w1 := set_w_conns (w.(w_conns) ++ [Conn script [] O_RDWR peer]) (set_w_accept r w) in
     let cfd := lowest (size w.(w_fds)) 0 w.(w_fds) in
     (Ok (cfd, peer), set_w_fds (<[cfd := DConn (length w.(w_conns))]> w.(w_fds)) w1)).
Proof.
  intros Hfd Hl. unfold accept. step_eq. rewrite Hfd. step_eq. rewrite Hl. reflexivity.
Qed.

Lemma accept_block fd a b :
  w.(w_fds) !! fd = Some (DListen b) → w.(w_accept) = [] → accept fd a w = (Blocked, w).
Proof. intros Hfd Hl. unfold accept. step_eq. rewrite Hfd. step_eq. by rewrite Hl. Qed.

Lemma connect_conn fd a b peer script r :
  w.(w_fds) !! fd = Some (DSocket b) → w.(w_accept) = inr (peer, script) :: r →
  connect fd a w =
    (Ok 0%Z, set_w_fds (<[fd := DConn (length w.(w_conns))]> w.(w_fds))
       (set_w_conns (w.(w_conns) ++ [Conn script [] O_RDWR a]) (set_w_accept r w))).
Proof.
  intros Hfd Hl. unfold connect. step_eq. rewrite Hfd. step_eq. rewrite Hl. reflexivity.
Qed.

Lemma setsockopt_ok fd d : w.(w_fds) !! fd = Some d → setsockopt fd w = (Ok 0%Z, w).
Proof. intros H. unfold setsockopt. rewrite call_ok by done. step_eq. by rewrite H. Qed.

Lemma bind_inet fd x p :
  w.(w_fds) !! fd = Some (DSocket None) →
  bind fd (Inet x p) w = (Ok 0%Z, set_w_fds (<[fd := DSocket (Some (Inet x p))]> w.(w_fds)) w).
Proof. intros H. unfold bind. rewrite call_ok by done. step_eq. rewrite H. reflexivity. Qed.

Lemma listen_ok fd b backlog :
  w.(w_fds) !! fd = Some (DSocket b) →
  listen fd backlog w = (Ok 0%Z, set_w_fds (<[fd := DListen b]> w.(w_fds)) w).
Proof. intros H. unfold listen. rewrite call_ok by done. step_eq. rewrite H. reflexivity. Qed.
End net_steps.

Lemma socket_start w :
  w.(w_faults) = [] → w.(w_fds) = std_fds →
  socket_stream w = (Ok 3%Z, set_w_fds (<[3%Z := DSocket None]> std_fds) w).
Proof. destruct w. simpl. intros -> ->. reflexivity. Qed.
