(* ===== verification/TcpEcho.v ===== *)
(** * TCP servers and clients that serve one connection at a time

    lesson32 (server, client, echo server, echo client), lesson33 (client,
    server with a process per connection, server with a thread per
    connection), lesson34 (upper-casing server, client), the clients of
    lesson35 and lesson36, and the local-socket pair of lesson37.

    Local arrays the source does not initialise are arguments of the model:
    the theorems hold for every initial content. *)
From S2P Require Import Prelude CString Posix NetBytes Sockets.

(** [if (ret == -1) { perror(msg); exit(-1); }] *)
Definition check (ret : Z) (msg : string) : M unit :=
  if (ret =? -1)%Z then die msg (-1) else mret tt.

Definition zeros (n : nat) : bytes := replicate n NUL.

(** [num++] of an [int]. *)
Definition incr (num : Z) : M Z :=
  if (num =? 2 ^ 31 - 1)%Z then undefined else mret (num + 1)%Z.

(** [sprintf(buf, ...)] of text [s]. *)
Definition sprintf (s buf : bytes) : M bytes :=
  if decide (length s + 1 ≤ length buf) then mret (fill (s ++ [NUL]) buf) else undefined.

(** The opening of a server: socket, bind to a port of any address, listen. *)
Definition tcp_listener (port backlog : Z) : M Z :=
  lfd ← socket_stream; check lfd "socket";;
  ret ← bind lfd (Inet INADDR_ANY (htons port)); check ret "bind";;
  ret ← listen lfd backlog; check ret "listen";;
  mret lfd.

(** The opening of a client: socket, connect to a port of an address. *)
Definition tcp_connect (ip : string) (port : Z) (sin_addr : Z) : M Z :=
  fd ← socket_stream; check fd "socket";;
  ret ← connect fd (Inet (default sin_addr (inet_pton (B ip))) (htons port)); check ret "connect";;
  mret fd.

(** ** lesson32 *)

Definition show_client (a : saddr) : M unit :=
  print (B "client information :" ++ [LF] ++ B "ip : " ++ inet_ntop (sin_addr a) ++ [LF]
         ++ B "port : " ++ dec (ntohs (sin_port a)) ++ [LF]).

(** lesson32/echoServer.c: the body of [while(1)]. *)
Definition echoServer_turn (cfd : Z) (_ : unit) : M (unit + unit) :=
  let recvBuf := zeros 1024 in
  '(recvLen, recvBuf) ← read cfd recvBuf 1024;
  closed ← (if (recvLen =? -1)%Z then die "read" (-1)
            else if (recvLen >? 0)%Z then
              s ← c_string recvBuf; print (B "recv client data : " ++ s ++ [LF]);; mret false
            else print (B "client closed..." ++ [LF]);; mret true);
  if (closed : bool) then mret (inr tt)
  else s ← c_string recvBuf; write cfd s;; mret (inl tt).

Definition echoServer_main (fuel : nat) (clientaddr : saddr) : M unit :=
  sfd ← tcp_listener 8080 8;
  '(cfd, clientaddr) ← accept sfd clientaddr; check cfd "accept";;
  show_client clientaddr;;
  loop fuel (echoServer_turn cfd) tt;;
  close sfd;; close cfd;;
  exit 0.

(** lesson32/server.c: [recvBuf] is never cleared. *)
Definition server_turn (cfd : Z) (recvBuf : bytes) : M (bytes + unit) :=
  '(recvLen, recvBuf) ← read cfd recvBuf 1024;
  closed ← (if (recvLen =? -1)%Z then die "read" (-1)
            else if (recvLen >? 0)%Z then
              s ← c_string recvBuf; print (B "recv client data : " ++ s ++ [LF]);; mret false
            else print (B "client closed..." ++ [LF]);; mret true);
  if (closed : bool) then mret (inr tt)
  else write cfd (B "Hello, I'm the server!");; mret (inl recvBuf).

Definition server_main (fuel : nat) (clientaddr : saddr) (recvBuf : bytes) : M unit :=
  lfd ← tcp_listener 9999 8;
  '(cfd, clientaddr) ← accept lfd clientaddr; check cfd "accept";;
  show_client clientaddr;;
  loop fuel (server_turn cfd) recvBuf;;
  close lfd;; close cfd;;
  exit 0.

(** What the clients do with the answer: [true] when the server has closed. *)
Definition client_answer (len : Z) (recvBuf text bye : bytes) : M bool :=
  if (len =? -1)%Z then die "read" (-1)
  else if (len >? 0)%Z then s ← c_string recvBuf; print (text ++ s ++ [LF]);; mret false
  else print (bye ++ [LF]);; mret true.

(** lesson32/client.c *)
Definition client_turn (fd : Z) (recvBuf : bytes) : M (bytes + unit) :=
  write fd (B "Hello, I'm the client!");; sleep 1;;
  '(len, recvBuf) ← read fd recvBuf 1024;
  closed ← client_answer len recvBuf (B "recv server data : ") (B "server closed...");
  mret (if (closed : bool) then inr tt else inl recvBuf).

Definition client_main (fuel : nat) (sin_addr : Z) (recvBuf : bytes) : M unit :=
  fd ← tcp_connect "192.168.29.135" 9999 sin_addr;
  loop fuel (client_turn fd) recvBuf;;
  close fd;; exit 0.

(** lesson32/echoClient.c: the second [memset] clears [recvBuf] again and
    leaves [sendBuf] as it is. *)
Definition echoClient_turn (fd : Z) (sendBuf : bytes) : M (bytes + unit) :=
  let recvBuf := zeros 1024 in
  sendBuf ← fgets sendBuf 1024;
  s ← c_string sendBuf; write fd s;;
  '(len, recvBuf) ← read fd recvBuf 1024;
  closed ← client_answer len recvBuf (B "recv server data : ") (B "server closed...");
  mret (if (closed : bool) then inr tt else inl sendBuf).

Definition echoClient_main (fuel : nat) (sendBuf : bytes) : M unit :=
  fd ← socket_stream; check fd "socket";;
  match inet_pton (B "192.168.29.134") with
  | None => die "inet_pton" (-1)
  | Some ip =>
      ret ← connect fd (Inet ip (htons 9999)); check ret "connect";;
      loop fuel (echoClient_turn fd) sendBuf;;
      close fd;; exit 0
  end.

(** ** lesson33 *)

(** lesson33/client.c *)
Definition client33_turn (fd : Z) (st : Z * bytes * bytes) : M (Z * bytes * bytes + unit) :=
  let '(num, sendBuf, recvBuf) := st in
  sendBuf ← sprintf (B "num = " ++ dec num ++ [LF]) sendBuf;
  num ← incr num;
  s ← c_string sendBuf; write fd (s ++ [NUL]);;
  '(len, recvBuf) ← read fd recvBuf 1024;
  closed ← client_answer len recvBuf (B "recv server data : ") (B "server closed...");
  if (closed : bool) then mret (inr tt) else sleep 1;; mret (inl (num, sendBuf, recvBuf)).

Definition client33_main (fuel : nat) (sin_addr : Z) (recvBuf sendBuf : bytes) : M unit :=
  fd ← tcp_connect "192.168.29.135" 9999 sin_addr;
  loop fuel (client33_turn fd) (1%Z, sendBuf, recvBuf);;
  close fd;; exit 0.

(** The conversation of a child process of concurrencyServer.c, and of a
    thread of server.c: the same code. *)
Definition talk_turn (cfd : Z) (recvBuf : bytes) : M (bytes + unit) :=
  '(len, recvBuf) ← read cfd recvBuf 1024;
  closed ← (if (len =? -1)%Z then die "read" (-1)
            else if (len >? 0)%Z then
              s ← c_string recvBuf; print (B "recv client data : " ++ s ++ [LF]);; mret false
            else print (B "clinet closed..." ++ [LF]);; mret true);
  if (closed : bool) then mret (inr tt)
  else s ← c_string recvBuf; write cfd (s ++ [NUL]);; mret (inl recvBuf).

Definition show_peer (a : saddr) : M unit :=
  print (B "client ip is : " ++ inet_ntop (sin_addr a) ++ B ", port is : "
         ++ dec (ntohs (sin_port a)) ++ [LF]).

(** lesson33/concurrencyServer.c: the handler of SIGCHLD; [waits] is what the
    calls of [waitpid(-1, NULL, WNOHANG)] return. *)
Fixpoint recyleChild (waits : list Z) : M (list Z) :=
  match waits with
  | [] => mret []
  | ret :: waits =>
      if (ret =? -1)%Z then mret waits
      else if (ret =? 0)%Z then mret waits
      else if (ret >? 0)%Z then
        print (B "child process pid : " ++ dec ret ++ B " had recycled" ++ [LF]);; recyleChild waits
      else recyleChild waits
  end.

Definition child_process (fuel : nat) (cfd : Z) (clientAddr : saddr) (recvBuf : bytes) : M unit :=
  show_peer clientAddr;;
  loop fuel (talk_turn cfd) recvBuf;;
  close cfd;;
  exit 0.

(** A turn of the parent: a signal that interrupts [accept] has run the
    handler when [accept] returns. *)
Definition concurrencyServer_turn (fuel : nat) (lfd : Z) (recvBuf : bytes)
  (st : saddr * list Z) : M (saddr * list Z + unit) :=
  let '(clientAddr, waits) := st in
  '(cfd, clientAddr) ← accept lfd clientAddr;
  if (cfd =? -1)%Z then
    e ← gets w_errno;
    if (e =? EINTR)%Z then waits ← recyleChild waits; mret (inl (clientAddr, waits))
    else die "accept" (-1)
  else
    pid ← fork;
    if (pid =? 0)%Z then child_process fuel cfd clientAddr recvBuf;; mret (inr tt)
    else mret (inl (clientAddr, waits)).

Definition concurrencyServer_main (fuel : nat) (clientAddr : saddr) (waits : list Z) (recvBuf : bytes)
  : M unit :=
  lfd ← tcp_listener 9999 128;
  loop fuel (concurrencyServer_turn fuel lfd recvBuf) (clientAddr, waits);;
  close lfd;; exit 0.

(** lesson33/server.c *)
Record sockInfo := SockInfo { si_fd : Z; si_addr : saddr; si_tid : Z }.

(** The thread of a connection; it gives its slot back. *)
Definition working (fuel : nat) (pinfo : sockInfo) (recvBuf : bytes) : M sockInfo :=
  show_peer pinfo.(si_addr);;
  loop fuel (talk_turn pinfo.(si_fd)) recvBuf;;
  close pinfo.(si_fd);;
  mret (SockInfo (-1) pinfo.(si_addr) pinfo.(si_tid)).

Definition max_clients : nat := 1024.

(** Threads that end set the [fd] of their slot to -1. *)
Definition release (slots : list nat) (sockInfos : list sockInfo) : list sockInfo :=
  foldr (alter (λ s, SockInfo (-1) s.(si_addr) s.(si_tid))) sockInfos slots.

(** The search for a free slot, from index [i]; [ends] tells which threads
    end before each look at the table. *)
Fixpoint find_slot (fuel : nat) (sockInfos : list sockInfo) (ends : list (list nat)) (i : nat)
  : M (nat * list sockInfo * list (list nat)) :=
  match fuel with
  | 0 => λ w, (NoFuel, w)
  | S fuel =>
      let sockInfos := release (default [] (head ends)) sockInfos in
      match sockInfos !! i with
      | None => undefined
      | Some s =>
          if (s.(si_fd) =? -1)%Z then mret (i, sockInfos, tail ends)
          else if i =? max_clients - 1 then sleep 1;; find_slot fuel sockInfos (tail ends) (0 + 1)
          else find_slot fuel sockInfos (tail ends) (i + 1)
      end
  end%nat.

(** The state of the accepting loop: the address, the table, the ends of
    threads to come, and the threads created with their arguments. *)
Record accepting := Accepting {
  ac_addr : saddr; ac_infos : list sockInfo; ac_ends : list (list nat); ac_created : list nat
}.

Definition serverThreads_turn (fuel : nat) (lfd : Z) (st : accepting) : M (accepting + unit) :=
  '(cfd, clientAddr) ← accept lfd st.(ac_addr); check cfd "accept";;
  '(i, sockInfos, ends) ← find_slot fuel st.(ac_infos) st.(ac_ends) 0;
  let sockInfos := alter (λ s, SockInfo cfd clientAddr s.(si_tid)) i sockInfos in
  mret (inl (Accepting clientAddr sockInfos ends (st.(ac_created) ++ [i]))).

Definition serverThreads_main (fuel : nat) (clientAddr : saddr) (ends : list (list nat)) : M unit :=
  lfd ← tcp_listener 9999 128;
  let sockInfos := replicate max_clients (SockInfo (-1) (Inet 0 0) (-1)) in
  loop fuel (serverThreads_turn fuel lfd) (Accepting clientAddr sockInfos ends []);;
  close lfd;; exit 0.

(** ** lesson34 *)

(** lesson34/server_tcp.c *)
Definition server_tcp_turn (cfd : Z) (recvBuf : bytes) : M (bytes + unit) :=
  '(len, recvBuf) ← recv cfd recvBuf 1024;
  closed ← (if (len =? -1)%Z then die "recv" (-1)
            else if (len =? 0)%Z then print (B "客户端已经断开连接..." ++ [LF]);; mret true
            else s ← c_string recvBuf; print (B "read buf = " ++ s ++ [LF]);; mret false);
  if (closed : bool) then mret (inr tt)
  else
    let recvBuf := map toupper (take (Z.to_nat len) recvBuf) ++ drop (Z.to_nat len) recvBuf in
    s ← c_string recvBuf; print (B "after buf = " ++ s ++ [LF]);;
    ret ← send cfd (s ++ [NUL]); check ret "send";;
    mret (inl recvBuf).

Definition server_tcp_main (fuel : nat) (cliaddr : saddr) : M unit :=
  lfd ← socket_stream; check lfd "socket";;
  setsockopt lfd;;
  ret ← bind lfd (Inet INADDR_ANY (htons 9999)); check ret "bind";;
  ret ← listen lfd 8; check ret "listen";;
  '(cfd, cliaddr) ← accept lfd cliaddr; check cfd "accpet";;
  print (B "client's ip is " ++ inet_ntop (sin_addr cliaddr) ++ B ", and port is "
         ++ dec (ntohs (sin_port cliaddr)) ++ [LF]);;
  loop fuel (server_tcp_turn cfd) (zeros 1024);;
  close cfd;; close lfd;;
  exit 0.

(** lesson34/client_tcp.c: one buffer for both directions. *)
Definition client34_turn (fd : Z) (_ : unit) : M (unit + unit) :=
  sendBuf ← fgets (zeros 1024) 1024;
  s ← c_string sendBuf; write fd (s ++ [NUL]);;
  '(len, sendBuf) ← read fd sendBuf 1024;
  closed ← client_answer len sendBuf (B "read buf = ") (B "服务器已经断开连接...");
  mret (if (closed : bool) then inr tt else inl tt).

Definition client34_main (fuel : nat) (sin_addr : Z) : M unit :=
  fd ← tcp_connect "192.168.29.135" 9999 sin_addr;
  loop fuel (client34_turn fd) tt;;
  close fd;; exit 0.

(** ** The clients of lesson35 and lesson36: the same file. *)
Definition client35_turn (fd : Z) (_ : unit) : M (unit + unit) :=
  let sendBuf := zeros 1024 in
  let recvBuf := zeros 1024 in
  sendBuf ← fgets sendBuf 1024;
  s ← c_string sendBuf; write fd (s ++ [NUL]);;
  '(len, recvBuf) ← read fd recvBuf 1024;
  closed ← client_answer len recvBuf (B "read buf = ") (B "服务器已经断开连接...");
  if (closed : bool) then mret (inr tt) else usleep 1000;; mret (inl tt).

Definition client35_main (fuel : nat) (sin_addr : Z) : M unit :=
  fd ← tcp_connect "192.168.29.135" 9999 sin_addr;
  loop fuel (client35_turn fd) tt;;
  close fd;; exit 0.

Definition client36_main (fuel : nat) (sin_addr : Z) : M unit := client35_main fuel sin_addr.

(** ** The local sockets of lesson37 *)

(** lesson37/ipc_server.c *)
Definition ipc_server_turn (cfd : Z) (recvBuf : bytes) : M (bytes + unit) :=
  '(recvLen, recvBuf) ← recv cfd recvBuf 128;
  if (recvLen =? -1)%Z then die "recv" (-1)
  else if (recvLen =? 0)%Z then print (B "client closed..." ++ [LF]);; mret (inr tt)
  else
    s ← c_string recvBuf; print (B "client : " ++ s ++ [LF]);;
    send cfd s;; mret (inl recvBuf).

Definition ipc_server_main (fuel : nat) (clientAddr : saddr) (recvBuf : bytes) : M unit :=
  unlink "server.sock";;
  lfd ← socket_stream; check lfd "socket";;
  ret ← bind lfd (Unix "server.sock"); check ret "bind";;
  ret ← listen lfd 100; check ret "listen";;
  '(cfd, clientAddr) ← accept lfd clientAddr; check cfd "accept";;
  print (B "client socket filename : " ++ sun_path clientAddr ++ [LF]);;
  loop fuel (ipc_server_turn cfd) recvBuf;;
  close lfd;; close cfd;;
  exit 0.

(** lesson37/ipc_client.c *)
Definition ipc_client_turn (cfd : Z) (num : Z) : M (Z + unit) :=
  let sendBuf := zeros 128 in
  let recvBuf := zeros 128 in
  sendBuf ← sprintf (B "hello, I'm client " ++ dec num ++ [LF]) sendBuf;
  num ← incr num;
  s ← c_string sendBuf; send cfd (s ++ [NUL]);;
  print (B "client : " ++ s ++ [LF]);;
  '(recvLen, recvBuf) ← recv cfd recvBuf 128;
  if (recvLen =? -1)%Z then die "recv" (-1)
  else if (recvLen =? 0)%Z then print (B "server closed..." ++ [LF]);; mret (inr tt)
  else
    s ← c_string recvBuf; print (B "server : " ++ s ++ [LF]);;
    sleep 1;; mret (inl num).

(** The result of [connect] is not looked at: the test repeats that of
    [socket]. *)
Definition ipc_client_main (fuel : nat) : M unit :=
  unlink "client.sock";;
  cfd ← socket_stream; check cfd "socket";;
  ret ← bind cfd (Unix "client.sock"); check ret "bind";;
  ret ← connect cfd (Unix "server.sock"); check cfd "connect";;
  loop fuel (ipc_client_turn cfd) 0%Z;;
  close cfd;; exit 0.
