(* ===== verification/TcpProofs.v ===== *)
(** * What the TCP programs exchange

    The interface [Conversation] says what one turn of a serving loop does
    with a segment; [conversation_runs] gives the whole exchange.  Each server
    and client of [TcpEcho] instantiates it, and the theorems run the [main]
    functions from [start]. *)
From S2P Require Import Prelude CString Posix NetBytes Sockets TcpEcho.

(** ** Conversations *)

(** From [w] to [w'] the process printed [o] and the connection became [c]. *)
Record evolves (cid : nat) (o : bytes) (c : conn) (w w' : world) : Prop := {
  ev_out : w'.(w_out) = w.(w_out) ++ o;
  ev_conns : w'.(w_conns) = <[cid := c]> w.(w_conns);
  ev_fds : w'.(w_fds) = w.(w_fds);
  ev_faults : w'.(w_faults) = w.(w_faults)
}.

(** The descriptor designates the connection and no call is made to fail. *)
Record serving (cfd : Z) (cid : nat) (w : world) : Prop := {
  sv_fd : w.(w_fds) !! cfd = Some (DConn cid);
  sv_ok : w.(w_faults) = []
}.

(** A loop that serves one connection: in local state [s] the segment [d] is
    answered by [reply s d] and shown as [shown s d]; at the end of the stream
    the loop sends [last s], shows [bye s] and stops. *)
Class Conversation {S : Type} (turn : S → M (S + unit)) (cfd : Z) (cid : nat) := {
  accepts : S → bytes → Prop;
  next : S → bytes → S;
  reply : S → bytes → bytes;
  shown : S → bytes → bytes;
  last : S → bytes;
  bye : S → bytes;
  ends : S → Prop;
  turn_data : ∀ w s d r tx fl a,
    serving cfd cid w → w.(w_conns) !! cid = Some (Conn (RxData d :: r) tx fl a) → accepts s d →
    ∃ w', turn s w = (Ok (inl (next s d)), w')
      ∧ evolves cid (shown s d) (Conn r (tx ++ reply s d) fl a) w w';
  turn_end : ∀ w s tx fl a,
    serving cfd cid w → w.(w_conns) !! cid = Some (Conn [] tx fl a) → ends s →
    ∃ w', turn s w = (Ok (inr tt), w') ∧ evolves cid (bye s) (Conn [] (tx ++ last s) fl a) w w'
}.

Section conversation.
Context {S : Type} (turn : S → M (S + unit)) (cfd : Z) (cid : nat) `{!Conversation turn cfd cid}.

Fixpoint accepted (s : S) (ds : list bytes) : Prop :=
  match ds with [] => ends s | d :: ds => accepts s d ∧ accepted (next s d) ds end.
Fixpoint replies (s : S) (ds : list bytes) : bytes :=
  match ds with [] => last s | d :: ds => reply s d ++ replies (next s d) ds end.
Fixpoint display (s : S) (ds : list bytes) : bytes :=
  match ds with [] => bye s | d :: ds => shown s d ++ display (next s d) ds end.

Lemma evolves_trans o1 o2 c1 c2 w w1 w2 :
  evolves cid o1 c1 w w1 → evolves cid o2 c2 w1 w2 → evolves cid (o1 ++ o2) c2 w w2.
Proof.
  intros [A1 A2 A3 A4] [B1 B2 B3 B4]. split; try congruence.
  - by rewrite B1, A1, app_assoc.
  - by rewrite B2, A2, list_insert_insert_eq.
Qed.

Lemma evolves_serving o c w w' : evolves cid o c w w' → serving cfd cid w → serving cfd cid w'.
Proof. intros [] []. split; congruence. Qed.

(** The whole exchange: every segment in its turn, then the end. *)
Lemma conversation_runs fuel ds s w tx fl a :
  serving cfd cid w → w.(w_conns) !! cid = Some (Conn (map RxData ds) tx fl a) → accepted s ds →
  length ds < fuel →
  ∃ w', loop fuel turn s w = (Ok tt, w')
    ∧ evolves cid (display s ds) (Conn [] (tx ++ replies s ds) fl a) w w'.
Proof.
  revert fuel s w tx. induction ds as [|d ds IH]; intros [|fuel] s w tx Hw Hc Hs Hf; try (simpl in Hf; lia).
  - destruct (turn_end w s tx fl a Hw Hc Hs) as (w' & E & He).
    exists w'. split; [|done]. by rewrite (loop_break _ _ _ _ _ _ E).
  - destruct Hs as [Hd Hs].
    destruct (turn_data w s d (map RxData ds) tx fl a Hw Hc Hd) as (w1 & E & He).
    rewrite (loop_next _ _ _ _ _ _ E).
    destruct (IH fuel (next s d) w1 (tx ++ reply s d)) as (w' & E' & He'); try done.
    + by eapply evolves_serving.
    + rewrite (ev_conns _ _ _ _ _ He). apply list_lookup_insert_eq. by eapply lookup_lt_Some.
    + simpl in Hf. lia.
    + exists w'. split; [done|]. simpl. rewrite app_assoc. by eapply evolves_trans.
Qed.

(** The exchange so far, when more is to come. *)
Lemma conversation_prefix fuel (P : S → Prop) ds s w r tx fl a :
  serving cfd cid w → w.(w_conns) !! cid = Some (Conn (map RxData ds ++ r) tx fl a) → P s →
  (∀ s d, P s → d ∈ ds → accepts s d ∧ P (next s d)) →
  ∃ s' w' o tx', loop (length ds + fuel) turn s w = loop fuel turn s' w'
    ∧ P s' ∧ serving cfd cid w' ∧ evolves cid o (Conn r tx' fl a) w w'.
Proof.
  revert s w tx. induction ds as [|d ds IH]; intros s w tx Hw Hc Hs Hds.
  - exists s, w, [], tx. split_and!; try done. split; try done; [by rewrite app_nil_r|].
    by rewrite list_insert_id.
  - destruct (Hds s d Hs) as [Hd Hn]; [by left|].
    destruct (turn_data w s d (map RxData ds ++ r) tx fl a Hw Hc Hd) as (w1 & E & He).
    destruct (IH (next s d) w1 (tx ++ reply s d)) as (s' & w' & o & tx' & E' & Hs' & Hw' & He'); try done.
    + by eapply evolves_serving.
    + rewrite (ev_conns _ _ _ _ _ He). apply list_lookup_insert_eq. by eapply lookup_lt_Some.
    + intros s0 d0 H0 Hd0. apply Hds; [done|by right].
    + exists s', w', (shown s d ++ o), tx'. split_and!; try done; [|by eapply evolves_trans].
      change (length (d :: ds) + fuel) with (Datatypes.S (length ds + fuel)).
      by rewrite (loop_next _ _ _ _ _ _ E).
Qed.
End conversation.

(** Solves the descriptor and script conditions of a step in a world that was
    updated since the hypotheses were stated. *)
Ltac world_cond :=
  solve [ eassumption | eapply sv_fd; eassumption | eapply sv_ok; eassumption
        | eapply update_conn_lookup; eassumption | eauto | lia ].

(** ** Texts in buffers *)

Lemma fill_zeros s n : length s < n → cstr (fill s (zeros n)) = Some (upto s).
Proof.
  intros H. unfold fill, zeros. rewrite drop_replicate.
  destruct (n - length s) as [|k] eqn:E; [lia|]. apply cstr_upto.
Qed.

(** A terminated text hides what the buffer held. *)
Lemma fill_terminated s k buf : Forall nonNUL s → cstr (fill (s ++ NUL :: k) buf) = Some s.
Proof. intros H. unfold fill. rewrite <- app_assoc. by apply cstr_app. Qed.

(** The line a program prints for the text [d]. *)
Definition heard (label : string) (d : bytes) : bytes := B label ++ upto d ++ [LF].

(** A turn is found by its name, never by its body. *)
#[export] Typeclasses Opaque echoServer_turn server_turn talk_turn server_tcp_turn ipc_server_turn
  client33_turn.

(** ** Steps of a turn *)

(** The tests of the number of bytes a call returned. *)
Ltac len_tests :=
  repeat match goal with
  | |- context [(Z.of_nat ?n =? ?z)%Z] => rewrite (proj2 (Z.eqb_neq (Z.of_nat n) z)) by lia
  | |- context [(Z.of_nat ?n >? 0)%Z] =>
      rewrite (proj2 (Z.gtb_lt (Z.of_nat n) 0)) by lia
  | |- context [Z.to_nat (Z.of_nat ?n)] => rewrite (Nat2Z.id n)
  end.

(** The text a buffer holds. *)
Ltac text L := erewrite bind_ok by (apply c_string_ok; eapply L; eauto; lia).
(** Tests of constants, and a call that is a computation of the world. *)
Ltac decides :=
  repeat match goal with
  | |- context [(?a =? ?b)%Z] =>
      let v := eval vm_compute in (a =? b)%Z in
      match v with true => change (a =? b)%Z with true | false => change (a =? b)%Z with false end
  end; cbv beta iota.
Ltac goes := erewrite bind_ok by reflexivity; cbv beta iota; decides.
(** The next call is a sequence, run by [tac]. *)
Tactic Notation "runs" tactic3(tac) := erewrite bind_ok; [|tac; reflexivity]; cbv beta iota.
Ltac reads := erewrite bind_ok by (eapply read_data; world_cond); cbv beta iota; len_tests.
Ltac reads_end := erewrite bind_ok by (eapply read_end; world_cond); cbv beta iota.
Ltac writes := erewrite bind_ok by (eapply write_conn; world_cond); cbv beta.
(** The end of a turn: the connection and the output as announced. *)
Ltac turned :=
  eexists; split; [reflexivity|]; split; try done; simpl;
  rewrite ?list_insert_insert_eq, ?app_nil_r, <- ?app_assoc;
  first [done | app_eq | by rewrite ?list_insert_id].

(** ** The echo server of lesson32 *)

#[export] Program Instance echoServer_conversation cfd cid : Conversation (echoServer_turn cfd) cfd cid := {|
  accepts _ d := 0 < length d < 1024;
  next _ _ := tt;
  reply _ d := upto d;
  shown _ d := heard "recv client data : " d;
  last _ := [];
  bye _ := B "client closed..." ++ [LF];
  ends _ := True
|}.
Next Obligation.
  intros cfd cid w [] d r tx fl a [Hfd Hok] Hc Hd. unfold echoServer_turn.
  reads. runs (text fill_zeros). text fill_zeros. writes. turned.
Qed.
Next Obligation.
  intros cfd cid w [] tx fl a [Hfd Hok] Hc _. unfold echoServer_turn. reads_end. goes. turned.
Qed.

(** ** The other conversations *)

(** A text sent with its terminator, shorter than the buffer. *)
Definition terminated (n : nat) (d : bytes) : Prop :=
  ∃ m, d = m ++ [NUL] ∧ Forall nonNUL m ∧ length m < n.

Lemma terminated_string n d buf : terminated n d → cstr (fill d buf) = Some (upto d).
Proof.
  intros (m & -> & Hm & _). rewrite fill_terminated by done. by rewrite upto_terminated.
Qed.

Lemma terminated_length n d : terminated n d → 0 < length d ≤ n.
Proof. intros (m & -> & _ & ?). rewrite length_app. simpl. lia. Qed.

Lemma map_terminated n ds :
  Forall (terminated n) ds → map (λ d, upto d ++ [NUL]) ds = ds.
Proof.
  induction 1 as [|d ds (m & -> & Hm & _) _ IH]; simpl; [done|]. by rewrite IH, upto_terminated.
Qed.

#[export] Program Instance talk_conversation cfd cid : Conversation (talk_turn cfd) cfd cid := {|
  accepts _ d := terminated 1024 d;
  next buf d := fill d buf;
  reply _ d := upto d ++ [NUL];
  shown _ d := heard "recv client data : " d;
  last _ := [];
  bye _ := B "clinet closed..." ++ [LF];
  ends _ := True
|}.
Next Obligation.
  intros cfd cid w buf d r tx fl a [Hfd Hok] Hc Hd. pose proof (terminated_length _ _ Hd).
  unfold talk_turn. reads. runs (text terminated_string). text terminated_string. writes. turned.
Qed.
Next Obligation.
  intros cfd cid w buf tx fl a [Hfd Hok] Hc _. unfold talk_turn. reads_end. goes. turned.
Qed.

(** The server of lesson32 answers every segment the same way; what it shows
    is the buffer, where the segment lies over the earlier ones. *)
#[export] Program Instance server_conversation cfd cid : Conversation (server_turn cfd) cfd cid := {|
  accepts buf d := 0 < length d ≤ 1024 ∧ is_Some (cstr (fill d buf));
  next buf d := fill d buf;
  reply _ _ := B "Hello, I'm the server!";
  shown buf d := B "recv client data : " ++ upto (fill d buf) ++ [LF];
  last _ := [];
  bye _ := B "client closed..." ++ [LF];
  ends _ := True
|}.
Next Obligation.
  intros cfd cid w buf d r tx fl a [Hfd Hok] Hc [Hd [s Hs]]. unfold server_turn.
  assert (upto (fill d buf) = s) as -> by (unfold upto; by rewrite Hs).
  reads. runs (erewrite bind_ok by (by apply c_string_ok)). writes. turned.
Qed.
Next Obligation.
  intros cfd cid w buf tx fl a [Hfd Hok] Hc _. unfold server_turn. reads_end. goes. turned.
Qed.

Lemma take_fill d buf : take (length d) (fill d buf) = d.
Proof. apply take_app_exact. Qed.
Lemma drop_fill d buf : drop (length d) (fill d buf) = drop (length d) buf.
Proof. apply drop_app_exact. Qed.

Lemma toupper_nonNUL c : nonNUL c → nonNUL (toupper c).
Proof.
  intros H. unfold toupper, nonNUL. case_match eqn:E; [|done]. intros F.
  apply (f_equal N_of_ascii) in F. revert E F. destruct c as [[] [] [] [] [] [] [] []]; by vm_compute.
Qed.

#[export] Program Instance server_tcp_conversation cfd cid : Conversation (server_tcp_turn cfd) cfd cid := {|
  accepts _ d := terminated 1024 d;
  next buf d := map toupper d ++ drop (length d) buf;
  reply _ d := map toupper (upto d) ++ [NUL];
  shown _ d := B "read buf = " ++ upto d ++ [LF] ++ B "after buf = " ++ map toupper (upto d) ++ [LF];
  last _ := [];
  bye _ := B "客户端已经断开连接..." ++ [LF];
  ends _ := True
|}.
Next Obligation.
  intros cfd cid w buf d r tx fl a [Hfd Hok] Hc Hd. pose proof (terminated_length _ _ Hd).
  unfold server_tcp_turn, recv. reads. runs (text terminated_string).
  rewrite take_fill, drop_fill.
  assert (cstr (map toupper d ++ drop (length d) buf) = Some (map toupper (upto d))) as E.
  { destruct Hd as (m & -> & Hm & _). rewrite map_app, <- app_assoc, upto_terminated by done.
    apply cstr_app, Forall_map. eapply Forall_impl; [done|]. apply toupper_nonNUL. }
  erewrite bind_ok by by apply c_string_ok. goes.
  unfold send. erewrite bind_ok by (eapply write_conn; world_cond). unfold check. len_tests. goes.
  turned.
Qed.
Next Obligation.
  intros cfd cid w buf tx fl a [Hfd Hok] Hc _. unfold server_tcp_turn. reads_end. goes. turned.
Qed.

#[export] Program Instance ipc_server_conversation cfd cid : Conversation (ipc_server_turn cfd) cfd cid := {|
  accepts _ d := terminated 128 d;
  next buf d := fill d buf;
  reply _ d := upto d;
  shown _ d := heard "client : " d;
  last _ := [];
  bye _ := B "client closed..." ++ [LF];
  ends _ := True
|}.
Next Obligation.
  intros cfd cid w buf d r tx fl a [Hfd Hok] Hc Hd. pose proof (terminated_length _ _ Hd).
  unfold ipc_server_turn, recv, send. reads. text terminated_string. goes. writes. turned.
Qed.
Next Obligation.
  intros cfd cid w buf tx fl a [Hfd Hok] Hc _. unfold ipc_server_turn. reads_end. turned.
Qed.

(** ** Opening and closing *)

Definition listener (port : Z) : odesc := DListen (Some (Inet INADDR_ANY (htons port))).

Lemma tcp_listener_start port backlog w :
  w.(w_faults) = [] → w.(w_fds) = std_fds →
  tcp_listener port backlog w = (Ok 3%Z, set_w_fds (<[3%Z := listener port]> std_fds) w).
Proof. destruct w. simpl. intros -> ->. reflexivity. Qed.

Lemma lowest_listening l : lowest (size (<[3%Z := l]> std_fds)) 0 (<[3%Z := l]> std_fds) = 4%Z.
Proof. reflexivity. Qed.

(** The world when a server has accepted its client. *)
Definition connected (port : Z) (peer : saddr) (script : list rx) : world :=
  set_w_fds (<[4%Z := DConn 0]> (<[3%Z := listener port]> std_fds))
    (set_w_conns [Conn script [] O_RDWR peer] start).

(** What [show_client] prints. *)
Definition client_line (peer : saddr) : bytes :=
  B "client information :" ++ [LF] ++ B "ip : " ++ inet_ntop (sin_addr peer) ++ [LF]
  ++ B "port : " ++ dec (ntohs (sin_port peer)) ++ [LF].

(** The address the clients connect to, and their world when connected. *)
Definition server_addr : saddr := Inet (default 0%Z (inet_pton (B "192.168.29.135"))) (htons 9999).
Definition joined (script : list rx) : world :=
  set_w_fds (<[3%Z := DConn 0]> std_fds) (set_w_conns [Conn script [] O_RDWR server_addr] start).

(** What [show_peer] prints. *)
Definition peer_line (peer : saddr) : bytes :=
  B "client ip is : " ++ inet_ntop (sin_addr peer) ++ B ", port is : "
  ++ dec (ntohs (sin_port peer)) ++ [LF].

(** A process whose first client sends the segments [ds]. *)
Definition client_at (peer : saddr) (ds : list bytes) : world :=
  set_w_accept [inr (peer, map RxData ds)] start.

Lemma tcp_connect_start sin_addr peer ds :
  tcp_connect "192.168.29.135" 9999 sin_addr (client_at peer ds) = (Ok 3%Z, joined (map RxData ds)).
Proof. reflexivity. Qed.

Lemma accept_connected port a peer ds :
  accept 3 a (set_w_fds (<[3%Z := listener port]> std_fds) (client_at peer ds))
  = (Ok (4%Z, peer), connected port peer (map RxData ds)).
Proof. reflexivity. Qed.

(** The two descriptors of a server closed, in either order. *)
Lemma close_two fd fd' w port :
  (fd, fd') = (3, 4)%Z ∨ (fd, fd') = (4, 3)%Z →
  w.(w_fds) = <[4%Z := DConn 0]> (<[3%Z := listener port]> std_fds) →
  ∃ w', (close fd;; close fd';; exit (A:=unit) 0) w = (Exit 0, w')
    ∧ w'.(w_fds) = std_fds ∧ w'.(w_conns) = w.(w_conns) ∧ w'.(w_out) = w.(w_out).
Proof.
  intros Hfd H. destruct w. simpl in H. subst.
  destruct Hfd as [[= -> ->]|[= -> ->]]; (eexists; split; [reflexivity|]; by split_and!).
Qed.

Lemma replies_concat {S} (turn : S → M (S + unit)) cfd cid `{!Conversation turn cfd cid} f s ds :
  (∀ s d, reply s d = f d) → (∀ s, last s = []) → replies turn cfd cid s ds = concat (map f ds).
Proof. intros H1 H2. revert s. induction ds as [|d ds IH]; intros s; simpl; [done|]. by rewrite H1, IH. Qed.

Lemma display_concat {S} (turn : S → M (S + unit)) cfd cid `{!Conversation turn cfd cid} f b s ds :
  (∀ s d, shown s d = f d) → (∀ s, bye s = b) → display turn cfd cid s ds = concat (map f ds) ++ b.
Proof.
  intros H1 H2. revert s. induction ds as [|d ds IH]; intros s; simpl; [done|]. by rewrite H1, IH, app_assoc.
Qed.

Lemma accepted_Forall {S} (turn : S → M (S + unit)) cfd cid `{!Conversation turn cfd cid} (P : bytes → Prop) s ds :
  (∀ s d, P d → accepts s d) → (∀ s, ends s) → Forall P ds → accepted turn cfd cid s ds.
Proof. intros H1 H2 H. revert s. induction H; intros s; simpl; [done|]. split; auto. Qed.

(** A server that talks to its client and closes its two descriptors. *)
Lemma serve_one {S} (turn : S → M (S + unit)) `{!Conversation turn 4 0} fuel port peer ds intro s fd fd' :
  (fd, fd') = (3, 4)%Z ∨ (fd, fd') = (4, 3)%Z →
  accepted turn 4 0 s ds → length ds < fuel →
  ∃ w, (loop fuel turn s;; close fd;; close fd';; exit (A:=unit) 0)
         (say intro (connected port peer (map RxData ds))) = (Exit 0, w)
    ∧ w.(w_conns) = [Conn [] (replies turn 4 0 s ds) O_RDWR peer]
    ∧ w.(w_out) = intro ++ display turn 4 0 s ds
    ∧ w.(w_fds) = std_fds.
Proof.
  intros Hfd Hs Hf.
  destruct (conversation_runs turn 4 0 fuel ds s (say intro (connected port peer (map RxData ds)))
    [] O_RDWR peer) as (w1 & E & [Ho Hc Hd _]); try done.
  rewrite (bind_ok _ _ _ _ _ E).
  destruct (close_two fd fd' w1 port) as (w & E' & H1 & H2 & H3); [done|done|].
  exists w. split_and!; [exact E'|by rewrite H2, Hc|by rewrite H3, Ho|done].
Qed.

(** ** The servers from start to exit *)

(** The echo server serves its client to the end: it sends back every
    segment (up to a NUL byte in it), shows each one, and exits with both
    descriptors closed. *)
Theorem echoServer_echoes fuel a peer ds :
  Forall (λ d, 0 < length d < 1024) ds → length ds < fuel →
  ∃ w, echoServer_main fuel a (client_at peer ds) = (Exit 0, w)
    ∧ w.(w_conns) = [Conn [] (concat (map upto ds)) O_RDWR peer]
    ∧ w.(w_out) = client_line peer
         ++ concat (map (heard "recv client data : ") ds)
         ++ B "client closed..." ++ [LF]
    ∧ w.(w_fds) = std_fds.
Proof.
  intros Hds Hf. unfold echoServer_main.
  erewrite bind_ok by by apply tcp_listener_start. erewrite bind_ok by apply accept_connected.
  cbv beta iota. goes. goes.
  destruct (serve_one (echoServer_turn 4) fuel 8080 peer ds (client_line peer) tt 3 4)
    as (w & E & Hc & Ho & Hfd); [by left| |done|].
  { exact (accepted_Forall (echoServer_turn 4) 4 0 _ _ _ (λ _ _ H, H) (λ _, I) Hds). }
  exists w. split_and!; [exact E| | |done].
  - by rewrite Hc, (replies_concat _ _ _ upto).
  - rewrite Ho. by rewrite (display_concat _ _ _ (heard "recv client data : ") (B "client closed..." ++ [LF])).
Qed.

(** The child process of the concurrent server, from the fork on. *)
Lemma child_process_runs fuel buf peer ds w :
  serving 4 0 w → w.(w_conns) = [Conn (map RxData ds) [] O_RDWR peer] →
  Forall (terminated 1024) ds → length ds < fuel →
  ∃ w', child_process fuel 4 peer buf w = (Exit 0, w')
    ∧ w'.(w_conns) = [Conn [] (concat ds) O_RDWR peer]
    ∧ w'.(w_out) = w.(w_out) ++ peer_line peer
         ++ concat (map (heard "recv client data : ") ds)
         ++ B "clinet closed..." ++ [LF].
Proof.
  intros [Hfd Hok] Hc Hds Hf. unfold child_process, show_peer.
  erewrite bind_ok by apply print_say.
  destruct (conversation_runs (talk_turn 4) 4 0 fuel ds buf (say (peer_line peer) w) [] O_RDWR peer)
    as (w1 & E & [Ho Hc' Hd _]);
    [by split|by rewrite (Hc : w_conns (say _ w) = _)
    |exact (accepted_Forall (talk_turn 4) 4 0 _ _ _ (λ _ _ H, H) (λ _, I) Hds)|done|].
  erewrite bind_ok by exact E. erewrite bind_ok by (apply close_open; rewrite Hd; by exists (DConn 0)).
  eexists. split; [reflexivity|]. split.
  - transitivity (w_conns w1); [done|]. rewrite Hc', (Hc : w_conns (say _ w) = _). simpl.
    rewrite (replies_concat (talk_turn 4) 4 0 (λ d, upto d ++ [NUL])) by done.
    by erewrite map_terminated.
  - transitivity (w_out w1); [done|]. rewrite Ho.
    rewrite (display_concat _ _ _ (heard "recv client data : ") (B "clinet closed..." ++ [LF])) by done.
    change (w_out (say (peer_line peer) w)) with (w_out w ++ peer_line peer). by rewrite <- app_assoc.
Qed.

Lemma fork_script pid r w :
  w.(w_forks) = pid :: r → (0 ≤ pid)%Z → fork w = (Ok pid, set_w_forks r w).
Proof.
  intros H Hp. unfold fork. erewrite bind_ok by reflexivity. rewrite H.
  erewrite bind_ok by reflexivity. by rewrite (proj2 (Z.ltb_ge _ _)).
Qed.

(** A child process of the concurrent server returns to its client
    exactly the terminated messages it received, whatever its buffer held,
    and exits when the client closes. *)
Theorem concurrencyServer_child_echoes fuel a waits buf peer ds :
  Forall (terminated 1024) ds → length ds < fuel →
  ∃ w, concurrencyServer_main fuel a waits buf (set_w_forks [0%Z] (client_at peer ds)) = (Exit 0, w)
    ∧ w.(w_conns) = [Conn [] (concat ds) O_RDWR peer]
    ∧ w.(w_out) = peer_line peer
         ++ concat (map (heard "recv client data : ") ds)
         ++ B "clinet closed..." ++ [LF].
Proof.
  intros Hds Hf. unfold concurrencyServer_main.
  erewrite bind_ok by by apply tcp_listener_start.
  destruct (child_process_runs fuel buf peer ds
    (set_w_forks [] (set_w_forks [0%Z] (connected 9999 peer (map RxData ds))))) as (w & E & Hw); try done.
  exists w. split; [|done]. apply bind_exit. destruct fuel as [|fuel]; [lia|].
  apply loop_exit. unfold concurrencyServer_turn.
  rewrite (bind_ok _ _ _ (4%Z, peer) (set_w_forks [0%Z] (connected 9999 peer (map RxData ds)))) by reflexivity.
  cbv beta iota. decides. erewrite bind_ok by by apply fork_script. decides.
  by rewrite (bind_exit _ _ _ _ _ E).
Qed.

(** The server of lesson34 returns every terminated message in upper
    case. *)
Theorem server_tcp_uppercases fuel a peer ds :
  Forall (terminated 1024) ds → length ds < fuel →
  ∃ w, server_tcp_main fuel a (client_at peer ds) = (Exit 0, w)
    ∧ w.(w_conns) = [Conn [] (concat (map (map toupper) ds)) O_RDWR peer]
    ∧ w.(w_fds) = std_fds.
Proof.
  intros Hds Hf. unfold server_tcp_main.
  erewrite bind_ok by by apply socket_start. goes.
  erewrite bind_ok by by eapply setsockopt_ok. erewrite bind_ok by by apply bind_inet. goes.
  erewrite bind_ok by by eapply listen_ok. goes.
  rewrite (bind_ok _ _ _ (4%Z, peer) (connected 9999 peer (map RxData ds))) by reflexivity.
  cbv beta iota. goes. erewrite bind_ok by apply print_say.
  destruct (serve_one (server_tcp_turn 4) fuel 9999 peer ds
    (B "client's ip is " ++ inet_ntop (sin_addr peer) ++ B ", and port is "
     ++ dec (ntohs (sin_port peer)) ++ [LF]) (zeros 1024) 4 3) as (w & E & Hc & _ & Hfd);
    [by right|exact (accepted_Forall (server_tcp_turn 4) 4 0 _ _ _ (λ _ _ H, H) (λ _, I) Hds)|done|].
  exists w. split_and!; [exact E| |done]. rewrite Hc.
  rewrite (replies_concat (server_tcp_turn 4) 4 0 (λ d, map toupper (upto d) ++ [NUL])) by done.
  do 3 f_equal. clear -Hds. induction Hds as [|d ds (m & -> & Hm & _) _ IH]; simpl; [done|].
  by rewrite IH, upto_terminated, map_app.
Qed.

(** ** The client of lesson33 *)

Definition message (num : Z) : bytes := B "num = " ++ dec num ++ [LF].

Lemma message_terminated num : (0 ≤ num < 2 ^ 31)%Z → terminated 1024 (message num ++ [NUL]).
Proof.
  intros H. exists (message num). unfold message. split_and!; [done|auto 10 with web|].
  rewrite !length_app, length_B. pose proof (length_dec 10 num). simpl. lia.
Qed.

Lemma sprintf_message num buf w :
  (0 ≤ num < 2 ^ 31)%Z → length buf = 1024 →
  sprintf (message num) buf w = (Ok (fill (message num ++ [NUL]) buf), w).
Proof.
  intros H Hb. unfold sprintf. pose proof (terminated_length _ _ (message_terminated num H)) as L.
  rewrite length_app in L. change (length [NUL]) with 1 in L. by rewrite decide_True by lia.
Qed.

Definition counting (num : Z) (sendBuf : bytes) : Prop :=
  (0 ≤ num < 2 ^ 31 - 1)%Z ∧ length sendBuf = 1024.

Lemma incr_ok num w : (0 ≤ num < 2 ^ 31 - 1)%Z → incr num w = (Ok (num + 1)%Z, w).
Proof. intros H. unfold incr. by rewrite (proj2 (Z.eqb_neq _ _)) by lia. Qed.

#[export] Program Instance client33_conversation fd cid : Conversation (client33_turn fd) fd cid := {|
  accepts st d := counting st.1.1 st.1.2 ∧ terminated 1024 d;
  next st d := ((st.1.1 + 1)%Z, fill (message st.1.1 ++ [NUL]) st.1.2, fill d st.2);
  reply st _ := message st.1.1 ++ [NUL];
  shown _ d := heard "recv server data : " d;
  last st := message st.1.1 ++ [NUL];
  bye _ := B "server closed..." ++ [LF];
  ends st := counting st.1.1 st.1.2
|}.
Next Obligation.
  intros fd cid w [[num sb] rb] d r tx fl a [Hfd Hok] Hc [[Hn Hb] Hd]. simpl in *.
  pose proof (terminated_length _ _ Hd).
  unfold client33_turn. erewrite bind_ok by (apply sprintf_message; [lia|done]).
  erewrite bind_ok by (apply incr_ok; lia).
  erewrite bind_ok by (apply c_string_ok, fill_terminated; unfold message; auto 10 with web).
  writes. reads. unfold client_answer. len_tests. runs (text terminated_string). goes. turned.
Qed.
Next Obligation.
  intros fd cid w [[num sb] rb] tx fl a [Hfd Hok] Hc [Hn Hb]. simpl in *.
  unfold client33_turn. erewrite bind_ok by (apply sprintf_message; [lia|done]).
  erewrite bind_ok by (apply incr_ok; lia).
  erewrite bind_ok by (apply c_string_ok, fill_terminated; unfold message; auto 10 with web).
  writes. reads_end. goes. turned.
Qed.

(** The messages the client sends in [n] rounds. *)
Definition messages (i n : nat) : list bytes :=
  map (λ k, message (Z.of_nat k) ++ [NUL]) (seq i n).

Lemma messages_terminated i n :
  (Z.of_nat (i + n) < 2 ^ 31)%Z → Forall (terminated 1024) (messages i n).
Proof.
  intros H. unfold messages. apply Forall_map, Forall_forall. intros k Hk.
  apply list_elem_of_In, in_seq in Hk. apply message_terminated. lia.
Qed.

Lemma client33_rounds i n sb rb fd cid ds :
  length ds = n → Forall (terminated 1024) ds →
  (Z.of_nat (i + n) < 2 ^ 31 - 1)%Z → length sb = 1024 →
  let st := (Z.of_nat i, sb, rb) in
  accepted (client33_turn fd) fd cid st ds
  ∧ replies (client33_turn fd) fd cid st ds = concat (messages i (S n)).
Proof.
  intros <- Hds Hn Hs. revert i sb rb Hn Hs.
  induction Hds as [|d ds Hd _ IH]; intros i sb rb Hn Hs; cbn [length] in *.
  - split; [split; simpl; [lia|done]|]. simpl. by rewrite app_nil_r.
  - destruct (IH (S i) (fill (message (Z.of_nat i) ++ [NUL]) sb) (fill d rb)) as [A R].
    { lia. }
    { rewrite length_fill; [done|]. rewrite Hs. apply (terminated_length 1024), message_terminated. lia. }
    replace (Z.of_nat (S i)) with (Z.of_nat i + 1)%Z in A, R by lia.
    split; [split; [split; [split; simpl; [lia|done]|done]|exact A]|].
    change (messages i (S (S (length ds)))) with
      ((message (Z.of_nat i) ++ [NUL]) :: messages (S i) (S (length ds))).
    cbn [concat]. rewrite <- R. reflexivity.
Qed.

(** The client of lesson33 and the echoing servers understand each other:
    the client that gets its messages back for [n] rounds sends the numbered
    messages 1 to [n + 1], shows each answer, and exits when the server
    closes; and every message it sends is one the servers return as it is. *)
Theorem client33_talks fuel sin_addr recvBuf sendBuf peer n :
  length sendBuf = 1024 → (Z.of_nat n < 2 ^ 31 - 2)%Z → n < fuel →
  ∃ w, client33_main fuel sin_addr recvBuf sendBuf (client_at peer (messages 1 n)) = (Exit 0, w)
    ∧ w.(w_conns) = [Conn [] (concat (messages 1 (n + 1))) O_RDWR server_addr]
    ∧ w.(w_out) = concat (map (heard "recv server data : ") (messages 1 n)) ++ B "server closed..." ++ [LF]
    ∧ w.(w_fds) = std_fds
    ∧ Forall (terminated 1024) (messages 1 (n + 1)).
Proof.
  intros Hs Hn Hf.
  destruct (client33_rounds 1 n sendBuf recvBuf 3 0 (messages 1 n)) as [Ha Hr];
    [by unfold messages; rewrite length_map, length_seq|apply messages_terminated; lia|lia|done|].
  unfold client33_main. erewrite bind_ok by apply tcp_connect_start.
  destruct (conversation_runs (client33_turn 3) 3 0 fuel (messages 1 n) (1%Z, sendBuf, recvBuf)
    (joined (map RxData (messages 1 n))) [] O_RDWR server_addr) as (w1 & E & [Ho Hc Hd _]);
    [by split|done|done|by unfold messages; rewrite length_map, length_seq|].
  erewrite bind_ok by exact E. erewrite bind_ok by (apply close_open; rewrite Hd; by exists (DConn 0)).
  eexists. split; [reflexivity|]. split_and!.
  - transitivity (w_conns w1); [done|]. rewrite Hc, app_nil_l.
    change 1%Z with (Z.of_nat 1). rewrite Hr. by rewrite Nat.add_1_r.
  - transitivity (w_out w1); [done|]. rewrite Ho.
    by rewrite (display_concat _ _ _ (heard "recv server data : ") (B "server closed..." ++ [LF])).
  - transitivity (delete 3%Z (w_fds w1)); [done|]. by rewrite Hd.
  - apply messages_terminated. lia.
Qed.

(** A segment that fills the 1024 bytes of the buffer without a NUL makes
    the echo server read past the buffer ([%s] and [strlen] find no
    terminator), whatever it served before. *)
Theorem echoServer_full_buffer fuel a peer ds d rest :
  Forall (λ d, 0 < length d < 1024) ds → length d = 1024 → Forall nonNUL d → length ds < fuel →
  ∃ w, echoServer_main fuel a (client_at peer (ds ++ d :: rest)) = (UB, w).
Proof.
  intros Hds Hd Hn Hf. unfold echoServer_main.
  erewrite bind_ok by by apply tcp_listener_start. erewrite bind_ok by apply accept_connected.
  cbv beta iota. goes. goes.
  destruct (conversation_prefix (echoServer_turn 4) 4 0 (fuel - length ds) (λ _, True) ds tt
    (say (client_line peer) (connected 8080 peer (map RxData (ds ++ d :: rest))))
    (map RxData (d :: rest)) [] O_RDWR peer)
    as (s' & w1 & o & tx & E & _ & [Hfd Hok] & He); [by split|by rewrite map_app|done| |].
  { intros s x _ Hx. split; [|done]. rewrite Forall_forall in Hds. by apply Hds. }
  replace (length ds + (fuel - length ds)) with fuel in E by lia.
  assert (w1.(w_conns) !! 0 = Some (Conn (map RxData (d :: rest)) tx O_RDWR peer)) as Hc.
  { by rewrite (ev_conns _ _ _ _ _ He). }
  eexists. eapply bind_UB. etransitivity; [exact E|].
  destruct (fuel - length ds) as [|k] eqn:Ek; [lia|]. apply loop_UB.
  unfold echoServer_turn. cbn [map] in Hc. reads. apply bind_UB, bind_UB, c_string_UB, cstr_None.
  unfold fill, zeros. rewrite drop_ge by (rewrite length_replicate; lia). by rewrite app_nil_r.
Qed.

(** ** The table of the threaded server *)

Lemma release_length slots t : length (release slots t) = length t.
Proof. induction slots as [|i slots IH]; simpl; [done|]. by rewrite length_alter. Qed.

Lemma release_other slots t j : j ∉ slots → release slots t !! j = t !! j.
Proof.
  induction slots as [|i slots IH]; [done|]. intros H. apply not_elem_of_cons in H as [H1 H2].
  simpl. rewrite list_lookup_alter_ne by done. by apply IH.
Qed.

Definition busy (s : sockInfo) : Prop := s.(si_fd) ≠ (-1)%Z.

(** When no thread ends during the search, a client gets the first free
    slot of the table, and no slot in use is touched. *)
Theorem find_slot_first t i s fuel w :
  length t ≤ max_clients → (∀ j s, j < i → t !! j = Some s → busy s) →
  t !! i = Some s → s.(si_fd) = (-1)%Z → i < fuel →
  find_slot fuel t [] 0 w = (Ok (i, t, []), w).
Proof.
  intros Hl Hb Hi Hs Hf. pose proof (lookup_lt_Some _ _ _ Hi) as Hlt.
  assert (∀ k m, k + m = i → find_slot (fuel - k) t [] k w = (Ok (i, t, []), w)) as A.
  { intros k m. revert k. induction m as [|m IH]; intros k Hk.
    - replace k with i by lia. destruct (fuel - i) as [|n] eqn:E; [lia|]. simpl.
      by rewrite Hi, Hs.
    - destruct (fuel - k) as [|n] eqn:E; [lia|]. cbn [find_slot release foldr default head].
      destruct (lookup_lt_is_Some_2 t k) as [s' Hk']; [lia|]. rewrite Hk'.
      rewrite (proj2 (Z.eqb_neq _ _)) by (apply (Hb k s'); [lia|done]).
      destruct (Nat.eqb_spec k (max_clients - 1)); [lia|].
      replace n with (fuel - (k + 1)) by lia. apply IH. lia. }
  rewrite <- (Nat.sub_0_r fuel). apply (A 0 i). lia.
Qed.

(** The search over slots 1 and up while only slot 0 is ever freed. *)
Lemma find_slot_starves fuel t ends i w :
  length t = max_clients → 0 < i < max_clients →
  (∀ j s, 0 < j → t !! j = Some s → busy s) → Forall (Forall (λ j, j = 0)) ends →
  ∃ w', find_slot fuel t ends i w = (NoFuel, w').
Proof.
  revert t ends i w. induction fuel as [|fuel IH]; intros t ends i w Hl Hi Hb He; [by exists w|].
  cbn [find_slot]. set (t' := release _ t).
  assert (∀ j, 0 < j → t' !! j = t !! j) as Ht.
  { intros j Hj. apply release_other. destruct ends as [|e ends]; simpl; [apply not_elem_of_nil|].
    apply Forall_cons in He as [He _]. rewrite Forall_forall in He. intros Hin.
    apply He in Hin. lia. }
  assert (length t' = max_clients) as Hl' by (unfold t'; by rewrite release_length).
  destruct (lookup_lt_is_Some_2 t' i) as [s Hs]; [lia|]. rewrite Hs.
  rewrite (proj2 (Z.eqb_neq _ _)) by (apply (Hb i s); [lia|by rewrite <- Ht by lia]).
  assert (Forall (Forall (λ j, j = 0)) (tail ends)) by (destruct He; simpl; [constructor|done]).
  assert (∀ j s, 0 < j → t' !! j = Some s → busy s) by (intros j s' ??; apply (Hb j); [done|by rewrite <- Ht]).
  destruct (Nat.eqb_spec i (max_clients - 1)) as [_|Hne].
  - erewrite bind_ok by reflexivity. apply IH; auto. unfold max_clients. lia.
  - apply IH; auto. lia.
Qed.

(** A client that finds the table full is never given slot 0, even when
    the thread of slot 0 is the one that ends: the search restarts at slot 1
    and, as long as no other slot is freed, never ends. *)
Theorem find_slot_misses_first fuel t ends w :
  length t = max_clients → Forall busy t → Forall (Forall (λ j, j = 0)) ends →
  ∃ w', find_slot fuel t ([] :: ends) 0 w = (NoFuel, w').
Proof.
  intros Hl Hb He.
  destruct fuel as [|fuel]; [by exists w|]. cbn [find_slot].
  change (release _ t) with t.
  destruct (lookup_lt_is_Some_2 t 0) as [s Hs]; [rewrite Hl; unfold max_clients; lia|]. rewrite Hs.
  rewrite Forall_lookup in Hb. rewrite (proj2 (Z.eqb_neq _ _)) by by apply (Hb 0 s).
  destruct (Nat.eqb_spec 0 (max_clients - 1)) as [E|_]; [unfold max_clients in E; lia|].
  apply find_slot_starves; [done|unfold max_clients; simpl; lia| |done]. intros j s' _ Hj. by apply (Hb j).
Qed.

(** ** The parent of the concurrent server *)

(** Descriptors 0 to [n - 1] are in use and no other. *)
Record packed (n : nat) (m : gmap Z odesc) : Prop := {
  pk_used : ∀ i, (0 ≤ i < Z.of_nat n)%Z → is_Some (m !! i);
  pk_free : ∀ i, (Z.of_nat n ≤ i)%Z → m !! i = None;
  pk_size : size m = n
}.

Lemma lowest_packed n m : packed n m → lowest (size m) 0 m = Z.of_nat n.
Proof.
  intros [Hu Hf ->].
  assert (∀ k i, (0 ≤ i)%Z → (i + Z.of_nat k = Z.of_nat n)%Z → lowest k i m = Z.of_nat n) as A.
  { induction k as [|k IH]; intros i Hi E; [simpl; lia|]. cbn [lowest].
    destruct (Hu i) as [d ->]; [lia|]. apply IH; lia. }
  by apply A.
Qed.

Lemma packed_insert n m d : packed n m → packed (S n) (<[Z.of_nat n := d]> m).
Proof.
  intros [Hu Hf Hs]. split.
  - intros i Hi. destruct (decide (i = Z.of_nat n)) as [->|]; [rewrite lookup_insert_eq; eauto|].
    rewrite lookup_insert_ne by done. apply Hu. lia.
  - intros i Hi. rewrite lookup_insert_ne by lia. apply Hf. lia.
  - rewrite map_size_insert_None by (apply Hf; lia). by rewrite Hs.
Qed.

(** The accepting parent: listening on 3, the connections from 4 on. *)
Record parent (k : nat) (w : world) : Prop := {
  pa_packed : packed (4 + k) w.(w_fds);
  pa_listen : ∃ b, w.(w_fds) !! 3%Z = Some (DListen b);
  pa_conns : length w.(w_conns) = k;
  pa_open : ∀ i, i < k → w.(w_fds) !! Z.of_nat (4 + i) = Some (DConn i)
}.

Lemma parent_turn fuel buf a waits k w peer script cs pid pids :
  parent k w → w.(w_accept) = inr (peer, script) :: cs → w.(w_forks) = pid :: pids → (0 < pid)%Z →
  ∃ w', concurrencyServer_turn fuel 3 buf (a, waits) w = (Ok (inl (peer, waits)), w')
    ∧ parent (S k) w' ∧ w'.(w_accept) = cs ∧ w'.(w_forks) = pids.
Proof.
  intros [Hp [b Hl] Hc Ho] Ha Hf Hpid. unfold concurrencyServer_turn.
  erewrite bind_ok by by eapply accept_conn. rewrite (lowest_packed _ _ Hp). cbv beta iota zeta.
  rewrite (proj2 (Z.eqb_neq _ _)) by lia.
  erewrite bind_ok by (apply fork_script; [exact Hf|lia]).
  rewrite (proj2 (Z.eqb_neq _ _)) by lia. eexists. split; [reflexivity|].
  split_and!; [|done|done]. split; cbn [w_fds w_conns set_w_fds set_w_conns set_w_accept set_w_forks].
  - by apply packed_insert.
  - exists b. by rewrite lookup_insert_ne by lia.
  - rewrite length_app. simpl. lia.
  - intros i Hi. destruct (decide (i = k)) as [->|].
    + by rewrite lookup_insert_eq, Hc.
    + rewrite lookup_insert_ne by lia. apply Ho. lia.
Qed.

Lemma parent_loop fuel n buf cs pids a waits k w :
  parent k w → w.(w_accept) = map inr cs → w.(w_forks) = pids → Forall (λ p, (0 < p)%Z) pids →
  length pids = length cs → length cs < n →
  ∃ w', loop n (concurrencyServer_turn fuel 3 buf) (a, waits) w = (Blocked, w')
    ∧ parent (k + length cs) w'.
Proof.
  revert n pids a k w. induction cs as [|[peer script] cs IH];
    intros [|n] pids a k w Hw Ha Hf Hp Hl Hn; simpl in Hn; try lia.
  - exists w. rewrite Nat.add_0_r. split; [|done]. apply loop_blocked.
    unfold concurrencyServer_turn. apply bind_blocked. destruct (pa_listen _ _ Hw) as [b Hb].
    by eapply accept_block.
  - destruct pids as [|pid pids]; [done|]. apply Forall_cons in Hp as [Hp1 Hp].
    destruct (parent_turn fuel buf a waits k w peer script (map inr cs) pid pids) as (w1 & E & Hw1 & Ha1 & Hf1);
      try done.
    rewrite (loop_next _ _ _ _ _ _ E).
    destruct (IH n pids peer (S k) w1) as (w' & E' & Hw'); try done; [by injection Hl|lia|].
    exists w'. split; [done|]. cbn [length]. by rewrite Nat.add_succ_r.
Qed.

(** The parent of the concurrent server never closes the descriptors of
    the connections it hands to its children: when [n] clients were accepted
    and all children forked, it waits for the next client with all [n]
    connections open. *)
Theorem concurrencyServer_parent_leaks fuel a waits buf cs pids :
  Forall (λ p, (0 < p)%Z) pids → length pids = length cs → length cs < fuel →
  ∃ w, concurrencyServer_main fuel a waits buf
         (set_w_forks pids (set_w_accept (map inr cs) start)) = (Blocked, w)
    ∧ ∀ i, i < length cs → w.(w_fds) !! Z.of_nat (4 + i) = Some (DConn i).
Proof.
  intros Hp Hl Hf. unfold concurrencyServer_main.
  erewrite bind_ok by by apply tcp_listener_start.
  destruct (parent_loop fuel fuel buf cs pids a waits 0
    (set_w_fds (<[3%Z := listener 9999]> std_fds) (set_w_forks pids (set_w_accept (map inr cs) start))))
    as (w & E & Hw); try done.
  - split; try done; [|by eexists|lia]. apply (packed_insert 3). split; [| |done].
    + intros i Hi. assert (i = 0 ∨ i = 1 ∨ i = 2)%Z as [->|[->| ->]] by lia; eexists; reflexivity.
    + intros i Hi. unfold std_fds. by rewrite !lookup_insert_ne, lookup_singleton_ne by lia.
  - exists w. split; [by apply bind_blocked|]. apply (pa_open _ _ Hw).
Qed.

(** The local client does not notice that [connect] failed: it announces
    a message nobody gets and dies of the next [recv]. *)
Theorem ipc_client_ignores_connect fuel e :
  0 < fuel →
  ∃ w, ipc_client_main fuel (set_w_accept [inl e] start) = (Exit (-1), w)
    ∧ w.(w_out) = B "client : hello, I'm client 0" ++ [LF; LF]
    ∧ w.(w_err) = [("recv", EINVAL)]%string.
Proof.
  destruct fuel as [|fuel]; [lia|]. intros _.
  exists (ipc_client_main (S fuel) (set_w_accept [inl e] start)).2. vm_compute. by split_and!.
Qed.

(** ** Witnesses *)

Definition localhost : saddr := Inet 16777343 (htons 5000).

Lemma echoServer_echoes_witness :
  ∃ w, echoServer_main 3 localhost (client_at localhost [B "ab"; B "c"]) = (Exit 0, w)
    ∧ w.(w_conns) = [Conn [] (B "abc") O_RDWR localhost]
    ∧ w.(w_out) = client_line localhost
         ++ concat (map (heard "recv client data : ") [B "ab"; B "c"]) ++ B "client closed..." ++ [LF]
    ∧ w.(w_fds) = std_fds.
Proof.
  apply (echoServer_echoes 3 localhost localhost [B "ab"; B "c"]);
    [repeat constructor; simpl; lia|simpl; lia].
Defined.

Lemma hello_terminated : Forall (terminated 1024) [B "hi" ++ [NUL]].
Proof.
  constructor; [|constructor]. exists (B "hi"). split_and!; [done|repeat constructor; discriminate|simpl; lia].
Qed.

Lemma concurrencyServer_child_echoes_witness :
  ∃ w, concurrencyServer_main 2 localhost [] (zeros 1024)
         (set_w_forks [0%Z] (client_at localhost [B "hi" ++ [NUL]])) = (Exit 0, w)
    ∧ w.(w_conns) = [Conn [] (B "hi" ++ [NUL]) O_RDWR localhost]
    ∧ w.(w_out) = peer_line localhost
         ++ concat (map (heard "recv client data : ") [B "hi" ++ [NUL]]) ++ B "clinet closed..." ++ [LF].
Proof.
  apply (concurrencyServer_child_echoes 2 localhost [] (zeros 1024) localhost [B "hi" ++ [NUL]]);
    [apply hello_terminated|simpl; lia].
Defined.

Lemma server_tcp_uppercases_witness :
  ∃ w, server_tcp_main 2 localhost (client_at localhost [B "hi" ++ [NUL]]) = (Exit 0, w)
    ∧ w.(w_conns) = [Conn [] (B "HI" ++ [NUL]) O_RDWR localhost] ∧ w.(w_fds) = std_fds.
Proof.
  apply (server_tcp_uppercases 2 localhost localhost [B "hi" ++ [NUL]]);
    [apply hello_terminated|simpl; lia].
Defined.

Lemma client33_talks_witness :
  ∃ w, client33_main 3 0 [] (zeros 1024) (client_at localhost (messages 1 2)) = (Exit 0, w)
    ∧ w.(w_conns) = [Conn [] (concat (messages 1 3)) O_RDWR server_addr]
    ∧ w.(w_out) = concat (map (heard "recv server data : ") (messages 1 2)) ++ B "server closed..." ++ [LF]
    ∧ w.(w_fds) = std_fds ∧ Forall (terminated 1024) (messages 1 3).
Proof. apply (client33_talks 3 0 [] (zeros 1024) localhost 2); [apply length_replicate|lia|lia]. Defined.

Lemma echoServer_full_buffer_witness :
  ∃ w, echoServer_main 2 localhost
         (client_at localhost ([B "ab"] ++ replicate 1024 SP :: [])) = (UB, w).
Proof.
  apply (echoServer_full_buffer 2 localhost localhost [B "ab"] (replicate 1024 SP) []);
    [repeat constructor; simpl; lia|apply length_replicate|by apply Forall_replicate|simpl; lia].
Defined.

Definition free_slot : sockInfo := SockInfo (-1) (Inet 0 0) (-1).
Definition used_slot (fd : Z) : sockInfo := SockInfo fd localhost 1.

Lemma find_slot_first_witness :
  find_slot 3 [used_slot 4; used_slot 5; free_slot] [] 0 start
  = (Ok (2, [used_slot 4; used_slot 5; free_slot], []), start).
Proof.
  apply (find_slot_first [used_slot 4; used_slot 5; free_slot] 2 free_slot);
    [simpl; unfold max_clients; lia| |done|done|lia].
  intros [|[|j]] s Hj; [intros [= <-]; discriminate|intros [= <-]; discriminate|lia].
Defined.

Lemma find_slot_misses_first_witness :
  ∃ w, find_slot 3000 (replicate 1024 (used_slot 4)) [[]; [0]] 0 start = (NoFuel, w).
Proof.
  apply (find_slot_misses_first 3000 (replicate 1024 (used_slot 4)) [[0]]);
    [apply length_replicate|by apply Forall_replicate|by repeat constructor].
Defined.

Lemma concurrencyServer_parent_leaks_witness :
  ∃ w, concurrencyServer_main 3 localhost [] []
         (set_w_forks [100; 101]%Z (set_w_accept (map inr [(localhost, []); (localhost, [])]) start))
       = (Blocked, w)
    ∧ ∀ i, i < 2 → w.(w_fds) !! Z.of_nat (4 + i) = Some (DConn i).
Proof.
  apply (concurrencyServer_parent_leaks 3 localhost [] [] [(localhost, []); (localhost, [])] [100; 101]%Z);
    [repeat constructor; lia|done|simpl; lia].
Defined.

Lemma ipc_client_ignores_connect_witness :
  ∃ w, ipc_client_main 1 (set_w_accept [inl ENOENT] start) = (Exit (-1), w)
    ∧ w.(w_out) = B "client : hello, I'm client 0" ++ [LF; LF]
    ∧ w.(w_err) = [("recv", EINVAL)]%string.
Proof. apply (ipc_client_ignores_connect 1 ENOENT). lia. Defined.
