(* ===== verification/Multiplex.v ===== *)
(** * Servers that multiplex their clients

    lesson35 ([select], [poll], [epoll]) and lesson36 (level-triggered and
    edge-triggered [epoll]).  One process serves all connections; each report
    of readiness is handled in one turn of [while(1)]. *)
From S2P Require Import Prelude CString Posix NetBytes Sockets TcpEcho.

(** What the servers do with a ready client: [true] when it has closed. *)
Definition serve_ready (size : nat) (code : Z) (fd : Z) : M bool :=
  let recvBuf := zeros size in
  '(recvLen, recvBuf) ← read fd recvBuf size;
  if (recvLen =? -1)%Z then die "read" code
  else if (recvLen =? 0)%Z then print (B "client closed..." ++ [LF]);; mret true
  else
    s ← c_string recvBuf; print (B "read recvBuf = " ++ s ++ [LF]);;
    write fd (s ++ [NUL]);; mret false.

(** ** lesson35/select.c *)

Definition FD_SETSIZE : Z := 1024.
Definition FD_SET (fd : Z) (set : list Z) : M (list Z) :=
  if ((0 <=? fd) && (fd <? FD_SETSIZE))%Z
  then mret (if decide (fd ∈ set) then set else set ++ [fd]) else undefined.
Definition FD_CLR (fd : Z) (set : list Z) : list Z := filter (λ x, x ≠ fd) set.

Definition select_client (tmp : list Z) (i : Z) (rdset : list Z) : M (list Z) :=
  if decide (i ∈ tmp) then
    closed ← serve_ready 1024 0 i;
    if (closed : bool) then close i;; mret (FD_CLR i rdset) else mret rdset
  else mret rdset.

Definition select_turn (lfd : Z) (clientAddr : saddr) (st : list Z * Z) : M (list Z * Z + unit) :=
  let '(rdset, maxfd) := st in
  r ← select (maxfd + 1) rdset;
  match r with
  | None => die "select" (-1)
  | Some [] => mret (inl (rdset, maxfd))
  | Some tmp =>
      '(rdset, maxfd) ←
        (if decide (lfd ∈ tmp) then
           '(cfd, _) ← accept lfd clientAddr;
           rdset ← FD_SET cfd rdset;
           mret (rdset, if (maxfd >? cfd)%Z then maxfd else cfd)
         else mret (rdset, maxfd));
      (* for (int i = lfd + 1; i < maxfd; ++i) *)
      rdset ← for_each (seqZ (lfd + 1) (maxfd - (lfd + 1))) (select_client tmp) rdset;
      mret (inl (rdset, maxfd))
  end.

Definition select_main (fuel : nat) (clientAddr : saddr) : M unit :=
  lfd ← tcp_listener 9999 8;
  rdset ← FD_SET lfd [];
  loop fuel (select_turn lfd clientAddr) (rdset, lfd);;
  close lfd;; exit 0.

(** ** lesson35/poll.c *)

(** The first free entry from index 1 on. *)
Definition free_entry (fds : list pollfd) : option nat :=
  (λ p, S p.1) <$> list_find (λ p, p.(pfd) = (-1)%Z) (tail fds).

Definition poll_client (i : nat) (fds : list pollfd) : M (list pollfd) :=
  match fds !! i with
  | None => undefined
  | Some p =>
      if has p.(revents) POLLIN then
        closed ← serve_ready 1024 0 p.(pfd);
        if (closed : bool) then close p.(pfd);; mret (<[i := PollFd (-1) p.(revents)]> fds) else mret fds
      else mret fds
  end.

Definition poll_turn (lfd : Z) (clientAddr : saddr) (st : list pollfd * nat) : M (list pollfd * nat + unit) :=
  let '(fds, nfds) := st in
  '(ret, fds) ← poll fds (nfds + 1);
  if (ret =? -1)%Z then die "poll" (-1)
  else if (ret =? 0)%Z then mret (inl (fds, nfds))
  else
    '(fds, nfds) ←
      (if has (from_option revents 0%Z (fds !! 0)) POLLIN then
         '(cfd, _) ← accept lfd clientAddr;
         match free_entry fds with
         | Some i => mret (alter (λ p, PollFd cfd p.(revents)) i fds, Nat.max nfds i)
         | None => mret (fds, nfds)
         end
       else mret (fds, nfds));
    fds ← for_each (seq 1 nfds) poll_client fds;
    mret (inl (fds, nfds)).

(** [junk] is what the member [revents] of the 1024 entries holds before
    [poll] first writes it. *)
Definition poll_main (fuel : nat) (clientAddr : saddr) (junk : list Z) : M unit :=
  lfd ← tcp_listener 9999 8;
  let fds := map (PollFd (-1)) junk in
  let fds := alter (λ p, PollFd lfd p.(revents)) 0 fds in
  loop fuel (poll_turn lfd clientAddr) (fds, 0);;
  close lfd;; exit 0.

(** ** lesson35/epoll.c and lesson36/epoll_lt.c *)

(** A reported event; the two programs differ in the size of [recvBuf]. *)
Definition epoll_event (size : nat) (epfd lfd : Z) (p : Z * Z) (clientAddr : saddr) : M saddr :=
  if (p.1 =? lfd)%Z then
    '(cfd, clientAddr) ← accept lfd clientAddr;
    show_peer clientAddr;;
    epoll_add epfd cfd EPOLLIN;;
    mret clientAddr
  else
    closed ← serve_ready size (-1) p.1;
    (if (closed : bool) then epoll_del epfd p.1;; close p.1;; mret tt else mret tt);;
    mret clientAddr.

Definition epoll_turn (size : nat) (epfd lfd : Z) (clientAddr : saddr) : M (saddr + unit) :=
  r ← epoll_wait epfd 1024;
  match r with
  | None => die "epoll_wait" (-1)
  | Some epevs =>
      print (B "ret = " ++ dec (Z.of_nat (length epevs)) ++ [LF]);;
      clientAddr ← for_each epevs (epoll_event size epfd lfd) clientAddr;
      mret (inl clientAddr)
  end.

Definition epoll_server (size : nat) (fuel : nat) (clientAddr : saddr) : M unit :=
  lfd ← tcp_listener 9999 8;
  epfd ← epoll_create;
  epoll_add epfd lfd EPOLLIN;;
  loop fuel (epoll_turn size epfd lfd) clientAddr;;
  close lfd;; close epfd;; exit 0.

Definition epoll_main := epoll_server 1024.
Definition epoll_lt_main := epoll_server 5.

(** ** lesson36/epoll_et.c *)

(** [while ((recvLen = read(fd, recvBuf, 5)) > 0) ...]: the result is the last
    [recvLen]. *)
Definition et_drain_turn (fd : Z) (recvBuf : bytes) : M (bytes + Z) :=
  '(recvLen, recvBuf) ← read fd recvBuf 5;
  if (recvLen >? 0)%Z then
    s ← c_string recvBuf; print (B "recv data : " ++ s ++ [LF]);;
    write fd (take (Z.to_nat recvLen) recvBuf);; mret (inl recvBuf)
  else mret (inr recvLen).

Definition et_event (fuel : nat) (epfd lfd : Z) (p : Z * Z) (clientAddr : saddr) : M saddr :=
  if (p.1 =? lfd)%Z then
    '(cfd, clientAddr) ← accept lfd clientAddr;
    flag ← fcntl_getfl cfd;
    fcntl_setfl cfd (Z.lor flag O_NONBLOCK);;
    show_peer clientAddr;;
    epoll_add epfd cfd (Z.lor EPOLLIN EPOLLET);;
    mret clientAddr
  else if has p.2 EPOLLOUT then mret clientAddr
  else
    recvLen ← loop fuel (et_drain_turn p.1) (zeros 6);
    (if (recvLen =? 0)%Z then
       print (B "client closed..." ++ [LF]);; epoll_del epfd p.1;; close p.1;; mret tt
     else
       e ← gets w_errno;
       if (e =? EAGAIN)%Z then print (B "data over....." ++ [LF]) else die "read" (-1));;
    mret clientAddr.

Definition epoll_et_turn (fuel : nat) (epfd lfd : Z) (clientAddr : saddr) : M (saddr + unit) :=
  r ← epoll_wait epfd 1024;
  match r with
  | None => die "epoll_wait" (-1)
  | Some epevs =>
      print (B "ret = " ++ dec (Z.of_nat (length epevs)) ++ [LF]);;
      clientAddr ← for_each epevs (et_event fuel epfd lfd) clientAddr;
      mret (inl clientAddr)
  end.

Definition epoll_et_main (fuel : nat) (clientAddr : saddr) : M unit :=
  lfd ← tcp_listener 9999 8;
  epfd ← epoll_create;
  epoll_add epfd lfd EPOLLIN;;
  loop fuel (epoll_et_turn fuel epfd lfd) clientAddr;;
  close lfd;; close epfd;; exit 0.

(** ** lesson36/test_et.c *)

Definition STDIN_FILENO : Z := 0.

Definition test_et_event (epfd : Z) (p : Z * Z) (i : nat) : M nat :=
  print (B "i = " ++ dec (Z.of_nat i) ++ [LF]);;
  (if (p.1 =? STDIN_FILENO)%Z then
     print (B "hello world" ++ [LF]);;
     epoll_add epfd STDIN_FILENO (Z.lor EPOLLIN EPOLLET);; mret tt
   else mret tt);;
  mret (i + 1).

Definition test_et_turn (epfd : Z) (_ : unit) : M (unit + unit) :=
  r ← epoll_wait epfd 5;
  for_each (default [] r) (test_et_event epfd) 0;;
  mret (inl tt).

Definition test_et_main (fuel : nat) : M unit :=
  epfd ← epoll_create;
  epoll_add epfd STDIN_FILENO (Z.lor EPOLLIN EPOLLET);;
  loop fuel (test_et_turn epfd) tt.
