(* ===== verification/MultiplexProofs.v ===== *)
(** * The multiplexing servers keep their clients apart

    An invariant of the [epoll] server over every schedule of reports and
    connections, the exact effect of one event, the draining loop of the
    edge-triggered server, and the defects of the [select] and [poll]
    servers. *)
From S2P Require Import Prelude CString Posix NetBytes Sockets TcpEcho TcpProofs Multiplex.

(** ** Steps of the epoll calls *)

(** The calls on the epoll object change its interest list and [errno] only;
    the list never grows beyond [l]. *)
Record same_net (l : list (Z * Z)) (w w' : world) : Prop := {
  sn_fds : w'.(w_fds) = w.(w_fds);
  sn_conns : w'.(w_conns) = w.(w_conns);
  sn_accept : w'.(w_accept) = w.(w_accept);
  sn_faults : w'.(w_faults) = w.(w_faults);
  sn_ready : w'.(w_ready) = w.(w_ready);
  sn_out : w'.(w_out) = w.(w_out);
  sn_epoll : ∀ p, p ∈ w'.(w_epoll) → p ∈ l
}.

Lemma epoll_add_any epfd fd ev w :
  w.(w_faults) = [] →
  ∃ z w', epoll_add epfd fd ev w = (Ok z, w') ∧ same_net (w.(w_epoll) ++ [(fd, ev)]) w w'.
Proof.
  intros Hok. unfold epoll_add. rewrite call_ok by done. do 3 step_eq.
  assert (∀ e, same_net (w.(w_epoll) ++ [(fd, ev)]) w (set_w_errno e w)) as F.
  { intros e. split; try done. simpl. set_solver. }
  repeat case_match; try (eexists _, _; split; [reflexivity|apply F]).
  eexists _, _. split; [reflexivity|]. by split.
Qed.

Lemma epoll_del_any epfd fd w :
  w.(w_faults) = [] →
  ∃ z w', epoll_del epfd fd w = (Ok z, w') ∧ same_net w.(w_epoll) w w'.
Proof.
  intros Hok. unfold epoll_del. rewrite call_ok by done. do 3 step_eq.
  assert (∀ e, same_net w.(w_epoll) w (set_w_errno e w)) as F by by intros e; split.
  repeat case_match; try (eexists _, _; split; [reflexivity|apply F]).
  eexists _, _. split; [reflexivity|]. split; try done. simpl. intros p Hp.
  by apply list_elem_of_filter in Hp as [_ ?].
Qed.

(** ** One event *)

Lemma read_piece w fd buf n cid d r tx fl a :
  serving fd cid w → w.(w_conns) !! cid = Some (Conn (RxData d :: r) tx fl a) →
  read fd buf n w =
    (Ok (Z.of_nat (length (take n d)), fill (take n d) buf),
     update_conn cid (Conn (if decide (length d ≤ n) then r else RxData (drop n d) :: r) tx fl a) w).
Proof.
  intros [Hfd Hok] Hc. apply read_sys; [done|]. unfold sys_read.
  step_eq. rewrite Hfd. step_eq. rewrite Hc. reflexivity.
Qed.

Lemma read_error w fd buf n cid e r tx fl a :
  serving fd cid w → w.(w_conns) !! cid = Some (Conn (RxErr e :: r) tx fl a) →
  read fd buf n w = (Ok (-1, buf)%Z, set_w_errno e (update_conn cid (Conn r tx fl a) w)).
Proof.
  intros [Hfd Hok] Hc. change buf with (fill [] buf) at 2. apply read_sys; [done|]. unfold sys_read.
  step_eq. rewrite Hfd. step_eq. rewrite Hc. reflexivity.
Qed.

(** What is left of the input after a [read] of [n] bytes met the segment [d]. *)
Definition after_read (n : nat) (d : bytes) (r : list rx) : list rx :=
  if decide (length d ≤ n) then r else RxData (drop n d) :: r.

Definition echo (d : bytes) : bytes := upto d ++ [NUL].

Lemma piece_string size d s : cstr (fill (take size d) (zeros size)) = Some s → s = upto (take size d).
Proof.
  intros H. destruct (decide (length (take size d) < size)) as [Hl|Hl].
  - rewrite fill_zeros in H by done. by injection H as <-.
  - unfold fill, zeros in H. rewrite drop_replicate in H. replace (size - length (take size d)) with 0 in H by lia.
    cbn [replicate] in H. rewrite app_nil_r in H. unfold upto. by rewrite H.
Qed.

Lemma serve_ready_piece size code fd cid w d r tx fl a s :
  serving fd cid w → w.(w_conns) !! cid = Some (Conn (RxData d :: r) tx fl a) → 0 < length d → 0 < size →
  cstr (fill (take size d) (zeros size)) = Some s →
  serve_ready size code fd w =
    (Ok false, say (heard "read recvBuf = " (take size d))
                 (update_conn cid (Conn (after_read size d r) (tx ++ echo (take size d)) fl a) w)).
Proof.
  intros Hsv Hc Hd Hn Hs. assert (0 < length (take size d)) as Ht by (rewrite length_take; lia).
  unfold serve_ready. erewrite bind_ok by by eapply read_piece. cbv beta iota. len_tests.
  erewrite bind_ok by by apply c_string_ok. erewrite bind_ok by apply print_say. destruct Hsv as [Hfd Hok].
  erewrite bind_ok by (eapply write_conn; world_cond). cbv beta.
  rewrite update_conn_say, update_conn_update. rewrite (piece_string _ _ _ Hs). reflexivity.
Qed.

Lemma serve_ready_flood size code fd cid w d r tx fl a :
  serving fd cid w → w.(w_conns) !! cid = Some (Conn (RxData d :: r) tx fl a) → 0 < length d → 0 < size →
  cstr (fill (take size d) (zeros size)) = None →
  serve_ready size code fd w = (UB, update_conn cid (Conn (after_read size d r) tx fl a) w) ∧ size ≤ length d.
Proof.
  intros Hsv Hc Hd Hn Hs. assert (0 < length (take size d)) as Ht by (rewrite length_take; lia). split.
  - unfold serve_ready. erewrite bind_ok by by eapply read_piece. cbv beta iota. len_tests.
    by apply bind_UB, c_string_UB.
  - destruct (decide (size ≤ length d)); [done|]. rewrite fill_zeros in Hs; [done|]. rewrite length_take. lia.
Qed.

Lemma serve_ready_error size code fd cid w e r tx fl a :
  serving fd cid w → w.(w_conns) !! cid = Some (Conn (RxErr e :: r) tx fl a) →
  ∃ w', serve_ready size code fd w = (Exit code, w') ∧ w'.(w_conns) = <[cid := Conn r tx fl a]> w.(w_conns).
Proof.
  intros Hsv Hc. eexists. split.
  - unfold serve_ready. erewrite bind_ok by by eapply read_error. cbv beta iota. decides. reflexivity.
  - reflexivity.
Qed.

Lemma serve_ready_data size code fd cid w d r tx fl a :
  serving fd cid w → w.(w_conns) !! cid = Some (Conn (RxData d :: r) tx fl a) → 0 < length d < size →
  serve_ready size code fd w =
    (Ok false, say (heard "read recvBuf = " d) (update_conn cid (Conn r (tx ++ echo d) fl a) w)).
Proof.
  intros Hsv Hc Hd. erewrite serve_ready_piece by (try done; try lia; apply fill_zeros; rewrite length_take; lia).
  unfold after_read. by rewrite decide_True, take_ge by lia.
Qed.

Lemma serve_ready_end size code fd cid w tx fl a :
  serving fd cid w → w.(w_conns) !! cid = Some (Conn [] tx fl a) →
  serve_ready size code fd w = (Ok true, say (B "client closed..." ++ [LF]) w).
Proof. intros [Hfd Hok] Hc. unfold serve_ready. reads_end. reflexivity. Qed.

(** ** Hosting many clients *)

(** The pieces that successive [read]s of [size] bytes take from a client's
    stream, and what is left of it. *)
Inductive pieces (size : nat) (sc : list rx) : list bytes → list rx → Prop :=
| pieces_none : pieces size sc [] sc
| pieces_more sent d r :
    pieces size sc sent (RxData d :: r) → pieces size sc (sent ++ [take size d]) (after_read size d r).

(** What the clients accepted so far may see: each got the echo of the pieces
    read from it, in order, and nothing else. *)
Definition answered (size : nat) (cs : list (saddr * list rx)) (conns : list conn) : Prop :=
  ∀ i c, conns !! i = Some c → ∃ peer sc sent rest,
    cs !! i = Some (peer, sc) ∧ pieces size sc sent rest ∧ c.(c_tx) = concat (map echo sent).

(** And the rest of its stream is still to come. *)
Definition faithful (size : nat) (cs : list (saddr * list rx)) (conns : list conn) : Prop :=
  ∀ i c, conns !! i = Some c → ∃ peer sc sent rest,
    cs !! i = Some (peer, sc) ∧ pieces size sc sent rest ∧ c = Conn rest (concat (map echo sent)) O_RDWR peer.

Lemma faithful_answered size cs conns : faithful size cs conns → answered size cs conns.
Proof. intros Hf i c Hi. destruct (Hf i c Hi) as (peer & sc & sent & rest & ? & ? & ->). by exists peer, sc, sent, rest. Qed.

Lemma answered_insert size cs conns cid rx' tx fl a rest :
  faithful size cs conns → conns !! cid = Some (Conn rest tx fl a) →
  answered size cs (<[cid := Conn rx' tx fl a]> conns).
Proof.
  intros Hf Hc i c Hi. apply list_lookup_insert_Some in Hi as [(<- & <- & _)|[Hne Hi]]; [|by eapply faithful_answered].
  destruct (Hf _ _ Hc) as (peer & sc & sent & rest' & Hcs & Hp & [= -> -> -> ->]). by exists peer, sc, sent, rest'.
Qed.

(** A piece left over comes from a segment at least as long; an error is one of
    the stream. *)
Lemma pieces_from size sc sent rest :
  pieces size sc sent rest →
  (∀ d, RxData d ∈ rest → ∃ d0, RxData d0 ∈ sc ∧ length d ≤ length d0) ∧ (∀ e, RxErr e ∈ rest → RxErr e ∈ sc).
Proof.
  induction 1 as [|sent d r _ [IHd IHe]]; [split; eauto|]. unfold after_read. case_decide.
  - split; [intros d' Hd'; apply IHd; by right|intros e He; apply IHe; by right].
  - split.
    + intros d' [[= ->]|Hd']%elem_of_cons; [|apply IHd; by right].
      destruct (IHd d) as (d0 & ? & ?); [by left|]. exists d0. split; [done|]. rewrite length_drop. lia.
    + intros e [[=]|He]%elem_of_cons. apply IHe. by right.
Qed.

(** No segment of a stream is empty. *)
Definition solid (sc : list rx) : Prop := ∀ d, RxData d ∈ sc → 0 < length d.

Lemma pieces_solid size sc sent rest : pieces size sc sent rest → solid sc → solid rest.
Proof.
  induction 1 as [|sent d r _ IH]; [done|]. intros Hs d' Hd'. unfold after_read in Hd'. case_decide.
  - apply IH; [done|by right].
  - apply elem_of_cons in Hd' as [[= ->]|Hd']; [rewrite length_drop; lia|]. apply IH; [done|by right].
Qed.

(** A client whose connection breaks, and one with a segment that can fill the
    buffer. *)
Definition broken (cs : list (saddr * list rx)) : Prop :=
  ∃ peer sc e, (peer, sc) ∈ cs ∧ RxErr e ∈ sc.
Definition flooding (size : nat) (cs : list (saddr * list rx)) : Prop :=
  ∃ peer sc d, (peer, sc) ∈ cs ∧ RxData d ∈ sc ∧ size ≤ length d.

(** The client at the head of the line, as [accept] meets it. *)
Definition arriving (c : saddr * list rx) : Z + (saddr * list rx) := inr c.

Section hosts.
Variables (size : nat) (cs : list (saddr * list rx)).
Hypotheses (size_pos : 0 < size) (solids : Forall (λ c, solid c.2) cs).

Record hosting (w : world) : Prop := {
  ho_ok : w.(w_faults) = [];
  ho_listen : ∃ b, w.(w_fds) !! 3%Z = Some (DListen b);
  ho_epoll : w.(w_fds) !! 4%Z = Some DEpoll;
  ho_conns : ∀ fd cid, w.(w_fds) !! fd = Some (DConn cid) → cid < length w.(w_conns);
  ho_line : w.(w_accept) = map arriving (drop (length w.(w_conns)) cs);
  ho_faithful : faithful size cs w.(w_conns);
  ho_asked : ∀ p, p ∈ w.(w_epoll) → p.1 = 3%Z ∨ ∃ cid, w.(w_fds) !! p.1 = Some (DConn cid)
}.

(** An event the server can be told of. *)
Definition known (w : world) (fd : Z) : Prop := fd = 3%Z ∨ ∃ cid, w.(w_fds) !! fd = Some (DConn cid).

Lemma hosting_same l w w' :
  hosting w → same_net l w w' → (∀ p, p ∈ l → known w p.1) → hosting w'.
Proof.
  intros [H1 [b H2] H3 H4 H5 H6 H7] [S1 S2 S3 S4 _ _ S5] Hl. split; rewrite ?S1, ?S2, ?S3, ?S4; eauto.
  intros p Hp. apply Hl, S5, Hp.
Qed.

Lemma hosting_say s w : hosting w → hosting (say s w).
Proof. intros []. by split. Qed.

Lemma faithful_insert conns cid d rest tx a :
  faithful size cs conns → conns !! cid = Some (Conn (RxData d :: rest) tx O_RDWR a) →
  faithful size cs (<[cid := Conn (after_read size d rest) (tx ++ echo (take size d)) O_RDWR a]> conns).
Proof.
  intros Hf Hc i c Hi. apply list_lookup_insert_Some in Hi as [(<- & <- & _)|[Hne Hi]]; [|by apply Hf].
  destruct (Hf _ _ Hc) as (peer & sc & sent & rest' & Hcs & Hp & [= <- -> ->]).
  exists peer, sc, (sent ++ [take size d]), (after_read size d rest). split; [done|]. split; [by constructor|].
  rewrite map_app, concat_app. cbn [map concat]. by rewrite app_nil_r.
Qed.

Lemma hosting_serve w cid d rest tx a :
  hosting w → w.(w_conns) !! cid = Some (Conn (RxData d :: rest) tx O_RDWR a) →
  hosting (update_conn cid (Conn (after_read size d rest) (tx ++ echo (take size d)) O_RDWR a) w).
Proof.
  intros [H1 H2 H3 H4 H5 H6 H7] Hc.
  split; cbn [update_conn w_conns set_w_conns w_fds w_faults w_accept w_epoll];
    rewrite ?length_insert; try done.
  by apply faithful_insert.
Qed.

Lemma hosting_close w fd cid w' :
  hosting w → w.(w_fds) !! fd = Some (DConn cid) → close fd w = (Ok 0%Z, w') →
  hosting w' ∧ w'.(w_ready) = w.(w_ready)
  ∧ ∀ q, q ≠ fd → w'.(w_fds) !! q = w.(w_fds) !! q.
Proof.
  intros [H1 [b H2] H3 H4 H5 H6 H7] Hfd E. rewrite close_open in E by by eexists.
  injection E as <-. split; [|split; [done|]].
  - split; cbn [w_conns w_fds w_faults w_accept w_epoll set_w_epoll set_w_fds]; try done.
    + exists b. rewrite lookup_delete_ne; [done|]. congruence.
    + rewrite lookup_delete_ne; [done|]. congruence.
    + intros fd' cid' [_ ?]%lookup_delete_Some. eauto.
    + intros p [Hp Hq]%list_elem_of_filter. destruct (H7 p Hq) as [|[c Hc]]; [by left|].
      right. exists c. by rewrite lookup_delete_ne.
  - intros q Hq. cbn [w_fds set_w_epoll set_w_fds]. by rewrite lookup_delete_ne.
Qed.

Lemma hosting_accept w peer ds cs' a :
  hosting w → drop (length w.(w_conns)) cs = (peer, ds) :: cs' →
  ∃ cfd w', accept 3 a w = (Ok (cfd, peer), w') ∧ hosting w'
    ∧ w.(w_fds) !! cfd = None ∧ w'.(w_ready) = w.(w_ready)
    ∧ (∃ cid, w'.(w_fds) !! cfd = Some (DConn cid))
    ∧ ∀ q, q ≠ cfd → w'.(w_fds) !! q = w.(w_fds) !! q.
Proof.
  intros [H1 [b H2] H3 H4 H5 H6 H7] Hcs.
  pose proof (lowest_fresh w.(w_fds)) as Hfresh. set (cfd := lowest _ _ _) in *.
  rewrite Hcs in H5. simpl in H5. eexists cfd, _. split; [by eapply accept_conn|]. cbv zeta.
  fold cfd. cbn [w_fds w_ready set_w_fds set_w_conns set_w_accept].
  split_and!; [|done|done|rewrite lookup_insert_eq; eauto|intros q Hq; by rewrite lookup_insert_ne].
  split; cbn [w_conns w_fds w_faults w_accept w_epoll set_w_fds set_w_conns set_w_accept];
    rewrite ?length_app; try done.
  - exists b. rewrite lookup_insert_ne; [done|]. congruence.
  - rewrite lookup_insert_ne; [done|]. congruence.
  - intros fd cid [[_ [= <-]]|[_ Hc]]%lookup_insert_Some; [simpl; lia|]. apply H4 in Hc. lia.
  - by rewrite <- drop_drop, Hcs.
  - intros i c Hi. apply lookup_app_Some in Hi as [Hi|[Hl Hi]]; [by apply H6|].
    destruct (i - length (w_conns w)) as [|n] eqn:E; [|done]. injection Hi as <-.
    exists peer, ds, [], ds. split; [|split; [constructor|done]]. replace i with (length (w_conns w)) by lia.
    by apply drop_cons_lookup in Hcs.
  - intros p Hp. destruct (H7 p Hp) as [|[c Hc]]; [by left|]. right. exists c.
    rewrite lookup_insert_ne; [done|]. intros Heq. rewrite <- Heq in Hc. congruence.
Qed.

(** The server goes on after an event of [fd]: the other descriptors it may
    hear of stay known. *)
Definition goes_on (fd : Z) (m : M saddr) (w : world) : Prop :=
  ∃ a w', m w = (Ok a, w') ∧ hosting w' ∧ w'.(w_ready) = w.(w_ready)
    ∧ ∀ q, q ≠ fd → known w q → known w' q.

Lemma epoll_event_accept w p a peer ds cs' :
  hosting w → p.1 = 3%Z → drop (length w.(w_conns)) cs = (peer, ds) :: cs' →
  goes_on p.1 (epoll_event size 4 3 p a) w.
Proof.
  intros Hw E3 Ecs. unfold goes_on, epoll_event. rewrite E3, Z.eqb_refl.
  destruct (hosting_accept w peer ds cs' a Hw Ecs) as (cfd & w1 & E & Hw1 & Hn & Hr & [cid Hcid] & Hq).
  rewrite (bind_ok _ _ _ _ _ E). unfold show_peer. erewrite bind_ok by apply print_say.
  destruct (epoll_add_any 4 cfd EPOLLIN (say (peer_line peer) w1)) as (z & w2 & E2 & Hs); [apply Hw1|].
  rewrite (bind_ok _ _ _ _ _ E2). eexists peer, w2. split; [reflexivity|].
  pose proof (hosting_say (peer_line peer) _ Hw1) as Hw1'.
  split_and!; [|by rewrite (sn_ready _ _ _ Hs)|].
  - eapply hosting_same; [done|done|]. intros p' [Hp'|Hp']%elem_of_app; [by apply Hw1'|].
    apply list_elem_of_singleton in Hp' as ->. right. by exists cid.
  - intros q _ [->|[c Hc]]; [by left|]. right. exists c. rewrite (sn_fds _ _ _ Hs).
    change (w_fds (say _ w1)) with (w_fds w1). rewrite Hq; [done|]. congruence.
Qed.

Lemma epoll_event_close w p a cid tx b :
  hosting w → p.1 ≠ 3%Z → serving p.1 cid w → w.(w_conns) !! cid = Some (Conn [] tx O_RDWR b) →
  goes_on p.1 (epoll_event size 4 3 p a) w.
Proof.
  intros Hw Hne Hsv Hc. unfold goes_on, epoll_event. rewrite (proj2 (Z.eqb_neq _ _)) by done.
  erewrite bind_ok by by eapply serve_ready_end. cbv beta iota.
  destruct (epoll_del_any 4 p.1 (say (B "client closed..." ++ [LF]) w)) as (z & w2 & E2 & Hs); [apply Hw|].
  pose proof (hosting_say (B "client closed..." ++ [LF]) _ Hw) as Hw1.
  assert (hosting w2) as Hw2 by (eapply hosting_same; [done|done|apply Hw1]).
  assert (w2.(w_fds) !! p.1 = Some (DConn cid)) as Hf2 by (rewrite (sn_fds _ _ _ Hs); apply Hsv).
  pose proof (close_open p.1 w2 (ex_intro _ _ Hf2)) as E3.
  destruct (hosting_close w2 p.1 cid _ Hw2 Hf2 E3) as (Hw3 & Hr3 & Hq3).
  eexists a, _. split.
  { erewrite bind_ok; [reflexivity|]. rewrite (bind_ok _ _ _ _ _ E2), (bind_ok _ _ _ _ _ E3). reflexivity. }
  split_and!; [done|by rewrite Hr3, (sn_ready _ _ _ Hs)|].
  intros q Hqne [->|[c' Hc']]; [by left|]. right. exists c'. by rewrite Hq3, (sn_fds _ _ _ Hs).
Qed.

Lemma epoll_event_data w p a cid d rest tx b s :
  hosting w → p.1 ≠ 3%Z → serving p.1 cid w →
  w.(w_conns) !! cid = Some (Conn (RxData d :: rest) tx O_RDWR b) → 0 < length d →
  cstr (fill (take size d) (zeros size)) = Some s →
  goes_on p.1 (epoll_event size 4 3 p a) w.
Proof.
  intros Hw Hne Hsv Hc Hd Hs. unfold goes_on, epoll_event. rewrite (proj2 (Z.eqb_neq _ _)) by done.
  erewrite bind_ok by by eapply serve_ready_piece. cbv beta iota. eexists a, _.
  split; [reflexivity|]. split_and!; [|done|done]. apply hosting_say. by apply hosting_serve.
Qed.

(** A computation that ends the server, because of a client. *)
Definition fails {A} (m : M A) (w : world) : Prop :=
  ∃ w', (m w = (Exit (-1), w') ∧ broken cs ∨ m w = (UB, w') ∧ flooding size cs) ∧ answered size cs w'.(w_conns).

Lemma fails_bind {A C} (m : M A) (f : A → M C) w : fails m w → fails (m ≫= f) w.
Proof.
  intros (w' & [[H Hb]|[H Hb]] & Ha); exists w'; (split; [|done]); [left|right]; (split; [|done]).
  - by apply bind_exit.
  - by apply bind_UB.
Qed.

Lemma fails_after {A C} (m : M A) (f : A → M C) w a w1 : m w = (Ok a, w1) → fails (f a) w1 → fails (m ≫= f) w.
Proof. intros E (w' & H & Ha). exists w'. by rewrite (bind_ok _ _ _ _ _ E). Qed.

Lemma epoll_event_fails w p a cid c :
  hosting w → p.1 ≠ 3%Z → serving p.1 cid w → w.(w_conns) !! cid = Some c →
  (∃ e r, c.(c_rx) = RxErr e :: r)
  ∨ (∃ d r, c.(c_rx) = RxData d :: r ∧ 0 < length d ∧ cstr (fill (take size d) (zeros size)) = None) →
  fails (epoll_event size 4 3 p a) w.
Proof.
  intros Hw Hne Hsv Hc H. unfold epoll_event. rewrite (proj2 (Z.eqb_neq _ _)) by done. apply fails_bind.
  pose proof (ho_faithful _ Hw) as Hf. destruct (Hf _ _ Hc) as (peer & sc & sent & rest & Hcs & Hp & ->). cbn [c_rx] in H.
  apply list_elem_of_lookup_2 in Hcs. destruct (pieces_from _ _ _ _ Hp) as [Hd He].
  destruct H as [(e & r & ->)|(d & r & -> & Hpos & Hs)].
  - destruct (serve_ready_error size (-1) p.1 cid w e r _ _ _ Hsv Hc) as (w' & E & Hw').
    exists w'. split; [left; split; [done|]|rewrite Hw'; by eapply answered_insert]. exists peer, sc, e. split; [done|]. apply He. by left.
  - destruct (serve_ready_flood size (-1) p.1 cid w d r _ _ _ Hsv Hc Hpos size_pos Hs) as [E Hl].
    eexists. split; [right; split; [exact E|]|by eapply answered_insert].
    destruct (Hd d) as (d0 & ? & ?); [by left|]. exists peer, sc, d0. split_and!; [done|done|lia].
Qed.

(** The outcome of an event: the server goes on, waits for a client that does
    not come, or is ended by a client. *)
Lemma epoll_event_hosting w p a :
  hosting w → known w p.1 →
  goes_on p.1 (epoll_event size 4 3 p a) w ∨ epoll_event size 4 3 p a w = (Blocked, w) ∨ fails (epoll_event size 4 3 p a) w.
Proof.
  intros Hw Hp. destruct (decide (p.1 = 3%Z)) as [E3|Hne].
  - destruct (drop (length w.(w_conns)) cs) as [|[peer ds] cs'] eqn:Ecs;
      [right; left|left; by eapply epoll_event_accept].
    unfold epoll_event. rewrite E3, Z.eqb_refl. apply bind_blocked.
    destruct (ho_listen _ Hw) as [b Hb]. eapply accept_block; [done|]. by rewrite (ho_line _ Hw), Ecs.
  - destruct Hp as [|[cid Hcid]]; [done|].
    destruct (lookup_lt_is_Some_2 w.(w_conns) cid) as [c Hc]; [by eapply ho_conns|].
    assert (serving p.1 cid w) as Hsv by (split; [done|apply Hw]).
    destruct (ho_faithful _ Hw _ _ Hc) as (peer & sc & sent & rest & Hcs & Hpc & Ec).
    assert (solid rest) as Hso.
    { eapply pieces_solid; [exact Hpc|]. exact (Forall_lookup_1 _ _ _ _ solids Hcs). }
    destruct rest as [|[d|e] r].
    + subst c. left. by eapply epoll_event_close.
    + assert (0 < length d) as Hd by (apply Hso; by left).
      destruct (cstr (fill (take size d) (zeros size))) as [s|] eqn:Es.
      * subst c. left. by eapply epoll_event_data.
      * right; right. eapply epoll_event_fails; try done. right. exists d, r. by rewrite Ec.
    + right; right. eapply epoll_event_fails; try done. left. exists e, r. by rewrite Ec.
Qed.

(** ** A report, a turn, a run *)

Lemma once_spec seen r p : p ∈ once seen r → p ∈ r ∧ p.1 ∉ seen.
Proof.
  revert seen. induction r as [|q r IH]; intros seen; simpl; [by intros ?%elem_of_nil|].
  case_decide as Hq.
  - intros [??]%IH. split; [by right|done].
  - intros [->|[Hp Hs]%IH]%elem_of_cons; [split; [by left|done]|].
    apply not_elem_of_cons in Hs as [_ Hs]. split; [by right|done].
Qed.

Lemma once_NoDup seen r : NoDup (fst <$> once seen r).
Proof.
  revert seen. induction r as [|q r IH]; intros seen; simpl; [constructor|].
  case_decide; [apply IH|]. simpl. constructor; [|apply IH].
  intros (p & E & Hp)%list_elem_of_fmap. apply once_spec in Hp as [_ Hp].
  apply not_elem_of_cons in Hp as [Hp _]. done.
Qed.

Lemma epoll_report_asked l r p : p ∈ epoll_report l r → ∃ ev, (p.1, ev) ∈ l.
Proof.
  intros [Hp _]%once_spec. apply list_elem_of_omap in Hp as (q & _ & E).
  cbv beta zeta in E. destruct (epoll_registered q.1 l) as [ask|] eqn:Eq; [|done].
  destruct (_ =? 0)%Z; [done|].
  injection E as <-. simpl. exists ask. unfold epoll_registered in Eq.
  destruct (List.find _ l) as [[fd ev]|] eqn:Ef; [|done]. injection Eq as <-.
  apply find_some in Ef as [Hin Hb]. simpl in Hb. apply Z.eqb_eq in Hb as <-.
  by apply list_elem_of_In.
Qed.

Lemma next_report_Some {A} (f : list (Z * Z) → list A) script l r :
  next_report f script = Some (l, r) → length r < length script ∧ ∃ x, l = f x.
Proof.
  induction script as [|x script IH]; simpl; [done|]. destruct (f x) eqn:E.
  - intros H. destruct (IH H). split; [lia|done].
  - intros [= <- <-]. split; [lia|]. by exists x.
Qed.

Lemma epoll_events_hosting evs a w :
  hosting w → NoDup (fst <$> evs) → (∀ p, p ∈ evs → known w p.1) →
  fails (for_each evs (epoll_event size 4 3) a) w
  ∨ ∃ w', hosting w' ∧ w'.(w_ready) = w.(w_ready)
    ∧ ((∃ a', for_each evs (epoll_event size 4 3) a w = (Ok a', w'))
       ∨ for_each evs (epoll_event size 4 3) a w = (Blocked, w')).
Proof.
  revert a w. induction evs as [|p evs IH]; intros a w Hw Hnd Hk.
  - right. exists w. split_and!; try done. left. by exists a.
  - simpl in Hnd. apply NoDup_cons in Hnd as [Hni Hnd]. cbn [for_each].
    destruct (epoll_event_hosting w p a Hw) as [(a1 & w1 & E & Hw1 & Hr1 & Hq1)|[E|Hf]]; [apply Hk; by left| | |].
    + destruct (IH a1 w1 Hw1 Hnd) as [Hf|(w' & Hw' & Hr' & H)].
      { intros q Hq. apply Hq1; [|apply Hk; by right]. intros Eq. apply Hni. rewrite <- Eq.
        by apply list_elem_of_fmap_2. }
      { left. by eapply fails_after. }
      right. exists w'. split_and!; [done|congruence|]. by rewrite (bind_ok _ _ _ _ _ E).
    + right. exists w. split_and!; try done. right. by apply bind_blocked.
    + left. by apply fails_bind.
Qed.

Lemma epoll_wait_hosting w :
  hosting w →
  epoll_wait 4 1024 w = (Blocked, w)
  ∨ ∃ evs w', epoll_wait 4 1024 w = (Ok (Some evs), w') ∧ hosting w'
      ∧ length w'.(w_ready) < length w.(w_ready)
      ∧ NoDup (fst <$> evs) ∧ ∀ p, p ∈ evs → known w' p.1.
Proof.
  intros Hw. unfold epoll_wait. step_eq. rewrite (ho_ok _ Hw). do 2 step_eq.
  cbn [set_w_faults w_fds tail]. rewrite (ho_epoll _ Hw). do 2 step_eq.
  rewrite (set_faults_nil w) by apply Hw.
  destruct (next_report (epoll_report (w_epoll w)) (w_ready w)) as [[l r]|] eqn:E; [right|by left].
  apply next_report_Some in E as (Hlen & x & ->).
  eexists _, (set_w_ready r w). split; [reflexivity|]. split; [destruct Hw; by split|].
  split; [done|]. split.
  - rewrite fmap_take. eapply sublist_NoDup; [apply once_NoDup|apply sublist_take].
  - intros p Hp. apply subseteq_take in Hp.
    destruct (epoll_report_asked _ _ _ Hp) as [ev Hev]. apply (ho_asked _ Hw) in Hev. done.
Qed.

Lemma epoll_turns_hosting fuel a w :
  hosting w →
  fails (loop fuel (epoll_turn size 4 3) a) w
  ∨ ∃ r w', loop fuel (epoll_turn size 4 3) a w = (r, w') ∧ hosting w'
      ∧ (r = Blocked ∨ r = NoFuel) ∧ (length w.(w_ready) < fuel → r = Blocked).
Proof.
  revert a w. induction fuel as [|fuel IH]; intros a w Hw.
  { right. exists NoFuel, w. split_and!; [done|done|by right|lia]. }
  destruct (epoll_wait_hosting w Hw) as [E|(evs & w1 & E & Hw1 & Hr1 & Hnd & Hk)].
  { right. exists Blocked, w. split_and!; [by apply loop_blocked, bind_blocked|done|by left|done]. }
  set (w1' := say (B "ret = " ++ dec (Z.of_nat (length evs)) ++ [LF]) w1).
  assert (∀ x, for_each evs (epoll_event size 4 3) a w1' = x →
    epoll_turn size 4 3 a w = match x with (Ok a', w2) => (Ok (inl a'), w2) | (Exit c, w2) => (Exit c, w2)
      | (Blocked, w2) => (Blocked, w2) | (UB, w2) => (UB, w2) | (NoFuel, w2) => (NoFuel, w2) end) as T.
  { intros x <-. unfold epoll_turn. rewrite (bind_ok _ _ _ _ _ E). erewrite bind_ok by apply print_say.
    reflexivity. }
  destruct (epoll_events_hosting evs a w1') as [(w2 & H & Ha)|(w2 & Hw2 & Hr2 & H)]; [by apply hosting_say|done|done| |].
  { left. exists w2. split; [|done]. destruct H as [[E' Hb]|[E' Hb]]; [left|right]; (split; [|done]).
    - by apply loop_exit, (T _ E').
    - by apply loop_UB, (T _ E'). }
  destruct H as [[a' E']|E'].
  - destruct (IH a' w2 Hw2) as [(w' & Hf & Ha)|(r & w' & E'' & Hw' & Hor & Hfuel)].
    + left. exists w'. rewrite (loop_next _ _ _ _ _ _ (T _ E')). done.
    + right. rewrite (loop_next _ _ _ _ _ _ (T _ E')).
      exists r, w'. split_and!; try done. intros Hl. apply Hfuel. rewrite Hr2. simpl. lia.
  - right. exists Blocked, w2. split_and!; [by apply loop_blocked, (T _ E')|done|by left|done].
Qed.
End hosts.

(** A process whose clients are [cs], told of readiness by [ready]. *)
Definition hosted (cs : list (saddr * list rx)) (ready : list (list (Z * Z))) : world :=
  set_w_ready ready (set_w_accept (map arriving cs) start).

Lemma hosted_start cs ready :
  hosting 1024 cs (set_w_epoll [(3, EPOLLIN)]%Z
    (set_w_fds (<[4%Z := DEpoll]> (<[3%Z := listener 9999]> std_fds)) (hosted cs ready))).
Proof.
  split; try done.
  - by eexists.
  - intros fd cid H. cbn [w_fds set_w_epoll set_w_fds] in H. unfold std_fds in H.
    repeat (apply lookup_insert_Some in H as [[_ [=]]|[_ H]]). apply lookup_singleton_Some in H as [_ [=]].
  - intros p Hp. apply list_elem_of_singleton in Hp as ->. by left.
Qed.


(** One event of a connection serves it: its next segment is read, shown
    and echoed and nothing else changes; at the end of the stream it is
    unregistered and closed. *)
Theorem epoll_event_serves size epfd lfd fd ev a w cid sc tx b :
  fd ≠ lfd → serving fd cid w → w.(w_conns) !! cid = Some (Conn sc tx O_RDWR b) →
  (∀ d r, sc = RxData d :: r → 0 < length d < size →
     epoll_event size epfd lfd (fd, ev) a w =
       (Ok a, say (heard "read recvBuf = " d) (update_conn cid (Conn r (tx ++ echo d) O_RDWR b) w)))
  ∧ (sc = [] → ∃ w', epoll_event size epfd lfd (fd, ev) a w = (Ok a, w')
       ∧ w'.(w_fds) !! fd = None ∧ (∀ p, p ∈ w'.(w_epoll) → p.1 ≠ fd) ∧ w'.(w_conns) = w.(w_conns)).
Proof.
  intros Hne Hsv Hc. unfold epoll_event. cbn [fst]. rewrite (proj2 (Z.eqb_neq _ _)) by done. split.
  - intros d r -> Hd. by erewrite bind_ok by by eapply serve_ready_data.
  - intros ->. erewrite bind_ok by by eapply serve_ready_end. cbv beta iota.
    destruct (epoll_del_any epfd fd (say (B "client closed..." ++ [LF]) w)) as (z & w2 & E2 & Hs); [apply Hsv|].
    assert (is_Some (w2.(w_fds) !! fd)) as Hf by (rewrite (sn_fds _ _ _ Hs); eexists; apply Hsv).
    pose proof (close_open fd w2 Hf) as E3. eexists. split.
    { erewrite bind_ok; [reflexivity|]. rewrite (bind_ok _ _ _ _ _ E2), (bind_ok _ _ _ _ _ E3). reflexivity. }
    cbn [w_fds w_epoll w_conns set_w_epoll set_w_fds]. split_and!; [by rewrite lookup_delete_eq| |].
    + by intros p [? _]%list_elem_of_filter.
    + by rewrite (sn_conns _ _ _ Hs).
Qed.

(** ** Reading in small pieces *)

(** The buffer of the edge-triggered server: its last byte stays NUL. *)
Definition guarded (buf : bytes) : Prop := length buf = 6 ∧ buf !! 5 = Some NUL.

Lemma guarded_fill d buf : guarded buf → length d ≤ 5 → guarded (fill d buf).
Proof.
  intros [Hl Hn] Hd. split; [rewrite length_fill; lia|]. unfold fill.
  rewrite lookup_app_r by done. rewrite lookup_drop. by replace (length d + (5 - length d)) with 5 by lia.
Qed.

Lemma guarded_string buf : guarded buf → ∃ s, cstr buf = Some s.
Proof. intros [_ H]. apply cstr_defined. by eapply list_elem_of_lookup_2. Qed.

Lemma et_drain_piece fd cid w buf d r tx fl a :
  serving fd cid w → w.(w_conns) !! cid = Some (Conn (RxData d :: r) tx fl a) → guarded buf → 0 < length d →
  ∃ buf' o w', et_drain_turn fd buf w = (Ok (inl buf'), w') ∧ guarded buf'
    ∧ evolves cid o (Conn (if decide (length d ≤ 5) then r else RxData (drop 5 d) :: r) (tx ++ take 5 d) fl a) w w'.
Proof.
  intros Hsv Hc Hb Hd. assert (0 < length (take 5 d) ≤ 5) as Ht by (rewrite length_take; lia).
  pose proof (guarded_fill _ _ Hb (proj2 Ht)) as Hb'. destruct (guarded_string _ Hb') as [s Hs].
  unfold et_drain_turn. erewrite bind_ok by by eapply read_piece. cbv beta iota. len_tests.
  erewrite bind_ok by by apply c_string_ok. erewrite bind_ok by apply print_say.
  rewrite take_fill. destruct Hsv as [Hfd Hok].
  erewrite bind_ok by (eapply write_conn; world_cond).
  do 3 eexists. split; [reflexivity|]. split; [done|]. split; try done.
  simpl. by rewrite list_insert_insert_eq.
Qed.

(** The loop reads until [EAGAIN] and echoes every byte. *)
Lemma et_drain_runs fuel fd cid w buf ds r tx fl a :
  serving fd cid w → w.(w_conns) !! cid = Some (Conn (map RxData ds ++ RxErr EAGAIN :: r) tx fl a) →
  guarded buf → Forall (λ d, 0 < length d) ds → length (concat ds) < fuel →
  ∃ o w', loop fuel (et_drain_turn fd) buf w = (Ok (-1)%Z, w') ∧ w'.(w_errno) = EAGAIN
    ∧ evolves cid o (Conn r (tx ++ concat ds) fl a) w w'.
Proof.
  revert w buf ds tx. induction fuel as [|fuel IH]; intros w buf ds tx Hsv Hc Hb Hds Hf; [lia|].
  destruct ds as [|d ds].
  - eexists [], _. split.
    { eapply loop_break. unfold et_drain_turn. erewrite bind_ok by (eapply read_error; [exact Hsv|exact Hc]). reflexivity. }
    split; [done|]. split; try done; simpl; by rewrite app_nil_r.
  - apply Forall_cons in Hds as [Hd Hds].
    destruct (et_drain_piece fd cid w buf d _ tx fl a Hsv Hc Hb Hd) as (buf1 & o1 & w1 & E & Hb1 & He1).
    set (ds1 := if decide (length d ≤ 5) then ds else drop 5 d :: ds).
    assert (take 5 d ++ concat ds1 = concat (d :: ds)) as Hcat.
    { unfold ds1. case_decide; cbn [concat]; [by rewrite take_ge by done|]. by rewrite app_assoc, take_drop. }
    destruct (IH w1 buf1 ds1 (tx ++ take 5 d)) as (o & w' & E' & Herr & He').
    + by eapply evolves_serving.
    + rewrite (ev_conns _ _ _ _ _ He1), list_lookup_insert_eq by by eapply lookup_lt_Some.
      do 2 f_equal. unfold ds1. by case_decide.
    + done.
    + unfold ds1. case_decide; [done|]. constructor; [rewrite length_drop; lia|done].
    + rewrite <- Hcat, length_app, length_take in Hf. lia.
    + exists (o1 ++ o), w'. split; [by rewrite (loop_next _ _ _ _ _ _ E)|]. split; [done|].
      rewrite <- Hcat, app_assoc. by eapply evolves_trans.
Qed.

(** C23. The edge-triggered server leaves no data behind: on an event of a
    connection it reads, five bytes at a time, until the socket is empty, and
    the client gets back exactly the bytes it sent, in order, however they
    were cut into segments. *)
Theorem epoll_et_drains fuel epfd lfd fd ev addr w cid ds r tx fl a :
  fd ≠ lfd → has ev EPOLLOUT = false → serving fd cid w →
  w.(w_conns) !! cid = Some (Conn (map RxData ds ++ RxErr EAGAIN :: r) tx fl a) →
  Forall (λ d, 0 < length d) ds → length (concat ds) < fuel →
  ∃ o w', et_event fuel epfd lfd (fd, ev) addr w = (Ok addr, w')
    ∧ evolves cid (o ++ B "data over....." ++ [LF]) (Conn r (tx ++ concat ds) fl a) w w'.
Proof.
  intros Hne Hev Hsv Hc Hds Hf. unfold et_event. cbn [fst snd].
  rewrite (proj2 (Z.eqb_neq _ _)) by done. rewrite Hev.
  destruct (et_drain_runs fuel fd cid w (zeros 6) ds r tx fl a) as (o & w1 & E & Herr & He); try done.
  rewrite (bind_ok _ _ _ _ _ E). cbv beta. decides.
  eexists o, _. split.
  { erewrite bind_ok; [reflexivity|]. step_eq. rewrite Herr, Z.eqb_refl. apply print_say. }
  destruct He as [Ho ? ? ?]. split; try done. simpl. by rewrite Ho, app_assoc.
Qed.

(** The buffer of the level-triggered server has five bytes and is read
    to the last one: five bytes without NUL make [printf] and [strlen] run
    past it. *)
Theorem epoll_lt_overruns epfd lfd fd ev addr w cid d r tx fl a :
  fd ≠ lfd → serving fd cid w → w.(w_conns) !! cid = Some (Conn (RxData d :: r) tx fl a) →
  5 ≤ length d → Forall nonNUL d →
  ∃ w', epoll_event 5 epfd lfd (fd, ev) addr w = (UB, w').
Proof.
  intros Hne Hsv Hc Hd Hn. eexists.
  unfold epoll_event. cbn [fst]. rewrite (proj2 (Z.eqb_neq _ _)) by done. apply bind_UB.
  unfold serve_ready. erewrite bind_ok by by eapply read_piece. cbv beta iota.
  assert (length (take 5 d) = 5) as Hl by (rewrite length_take; lia).
  rewrite Hl. decides. apply bind_UB, c_string_UB, cstr_None.
  unfold fill. rewrite drop_ge by (rewrite Hl; done). rewrite app_nil_r. by apply Forall_take.
Qed.

(** ** The highest descriptor of the select server *)

(** The select server with one client, on descriptor 4. *)
Definition one_client (peer : saddr) (ds : list bytes) (ready : list (list (Z * Z))) : world :=
  set_w_ready ready (connected 9999 peer (map RxData ds)).

Lemma select_ignores peer ds a ready :
  select_turn 3 a ([3; 4]%Z, 4%Z) (one_client peer ds ([(4, 1)]%Z :: ready))
  = (Ok (inl ([3; 4]%Z, 4%Z)), one_client peer ds ready).
Proof. reflexivity. Qed.

(** The select server never serves the client with the highest
    descriptor (its loop stops before [maxfd]): however often the only client
    is reported readable, nothing is read from it and nothing is sent. *)
Theorem select_starves_highest fuel a peer ds k :
  k + 1 < fuel →
  ∃ w, select_main fuel a (hosted [(peer, map RxData ds)] ([(3, 1)]%Z :: replicate k [(4, 1)]%Z)) = (Blocked, w)
    ∧ w.(w_conns) = [Conn (map RxData ds) [] O_RDWR peer].
Proof.
  intros Hf. exists (one_client peer ds []). split; [|done]. unfold select_main.
  erewrite bind_ok by by apply tcp_listener_start. step_eq. apply bind_blocked.
  destruct fuel as [|fuel]; [lia|].
  rewrite (loop_next _ _ _ _ ([3; 4]%Z, 4%Z) (one_client peer ds (replicate k [(4, 1)]%Z))) by reflexivity.
  assert (k < fuel) as Hk by lia. clear Hf. revert fuel Hk.
  induction k as [|k IH]; intros [|fuel] Hk; try lia.
  - by apply loop_blocked.
  - cbn [replicate]. rewrite (loop_next _ _ _ _ _ _ (select_ignores peer ds a _)). apply IH. lia.
Qed.

(** ** The uninitialised entries of the poll server *)

(** The poll server looks at the [revents] of the entry it has just given
    to a new client, which [poll] has not written: what the array held before
    decides whether it reads from the client at once. *)
Theorem poll_trusts_junk fuel a peer d ds j0 j1 junk :
  0 < length d < 1024 → 1 < fuel →
  ∃ w, poll_main fuel a (j0 :: j1 :: junk) (hosted [(peer, map RxData (d :: ds))] [[(3, 1)]%Z]) = (Blocked, w)
    ∧ w.(w_conns) = [if has j1 POLLIN then Conn (map RxData ds) (echo d) O_RDWR peer
                     else Conn (map RxData (d :: ds)) [] O_RDWR peer].
Proof.
  intros Hd Hf. unfold poll_main. erewrite bind_ok by by apply tcp_listener_start.
  destruct fuel as [|[|fuel]]; try lia.
  set (w1 := one_client peer (d :: ds) []).
  set (fds := PollFd 3 1 :: PollFd 4 j1 :: map (PollFd (-1)) junk).
  assert (∃ w2, poll_client 1 fds w1 = (Ok fds, w2) ∧ w2.(w_ready) = [] ∧ w2.(w_faults) = []
    ∧ w2.(w_conns) = [if has j1 POLLIN then Conn (map RxData ds) (echo d) O_RDWR peer
                      else Conn (map RxData (d :: ds)) [] O_RDWR peer]) as (w2 & E & Hr & Hok & Hc).
  { unfold poll_client. cbn [lookup fds list_lookup revents pfd]. destruct (has j1 POLLIN).
    - erewrite bind_ok by (eapply (serve_ready_data 1024 0 4 0); [by split|done|done]).
      eexists. by split_and!.
    - eexists. by split_and!. }
  exists w2. split; [|done]. apply bind_blocked.
  rewrite (loop_next _ _ _ _ (fds, 1) w2); [|].
  - apply loop_blocked. unfold poll_turn, poll. apply bind_blocked. step_eq. rewrite Hok. do 2 step_eq.
    change (set_w_faults (tail []) w2) with (set_w_faults [] w2).
    rewrite (set_faults_nil w2) by done. by rewrite Hr.
  - unfold poll_turn. rewrite (bind_ok _ _ _ (1%Z, PollFd 3 1 :: map (PollFd (-1)) (j1 :: junk))
      (set_w_ready [] (set_w_fds (<[3%Z := listener 9999]> std_fds) (hosted [(peer, map RxData (d :: ds))] [])))) by reflexivity.
    cbv beta iota. decides. rewrite (bind_ok _ _ _ (fds, 1) w1) by reflexivity.
    rewrite (bind_ok _ _ _ fds w2); [done|]. cbn [seq for_each]. by rewrite (bind_ok _ _ _ _ _ E).
Qed.

(** ** Witnesses *)

Definition ECONNRESET : Z := 104.
Definition two_clients : list (saddr * list rx) :=
  [(localhost, [RxData (B "ab"); RxData (B "c"); RxErr ECONNRESET]); (localhost, [RxData (B "x")])].
Definition reports : list (list (Z * Z)) := [[(3, 1)]; [(3, 1); (5, 1)]; [(6, 1); (5, 1)]; [(5, 1)]]%Z.


(** A process with one connection, on descriptor 5. *)
Definition one_conn (sc : list rx) : world :=
  set_w_fds (<[5%Z := DConn 0]> std_fds) (set_w_conns [Conn sc [] O_RDWR localhost] start).

Lemma one_conn_serving sc : serving 5 0 (one_conn sc).
Proof. by split. Qed.

Lemma epoll_event_serves_witness :
  epoll_event 1024 4 3 (5, 1)%Z localhost (one_conn [RxData (B "hi")]) =
    (Ok localhost, say (heard "read recvBuf = " (B "hi"))
       (update_conn 0 (Conn [] ([] ++ echo (B "hi")) O_RDWR localhost) (one_conn [RxData (B "hi")]))).
Proof.
  refine (proj1 (epoll_event_serves 1024 4 3 5 1 localhost (one_conn [RxData (B "hi")]) 0
    [RxData (B "hi")] [] localhost _ (one_conn_serving _) eq_refl) (B "hi") [] eq_refl _); [lia|simpl; lia].
Defined.

Lemma epoll_et_drains_witness :
  ∃ o w, et_event 20 4 3 (5, 1)%Z localhost (one_conn ([RxData (B "hello world")] ++ [RxErr EAGAIN])) = (Ok localhost, w)
    ∧ evolves 0 (o ++ B "data over....." ++ [LF]) (Conn [] ([] ++ B "hello world") O_RDWR localhost)
        (one_conn ([RxData (B "hello world")] ++ [RxErr EAGAIN])) w.
Proof.
  apply (epoll_et_drains 20 4 3 5 1 localhost (one_conn ([RxData (B "hello world")] ++ [RxErr EAGAIN])) 0
    [B "hello world"] [] [] O_RDWR localhost); [lia|done|apply one_conn_serving|done| |simpl; lia].
  repeat constructor; simpl; lia.
Defined.

Lemma epoll_lt_overruns_witness :
  ∃ w, epoll_event 5 4 3 (5, 1)%Z localhost (one_conn [RxData (B "hello")]) = (UB, w).
Proof.
  apply (epoll_lt_overruns 4 3 5 1 localhost (one_conn [RxData (B "hello")]) 0 (B "hello") [] [] O_RDWR localhost);
    [lia|apply one_conn_serving|done|simpl; lia|repeat constructor; discriminate].
Defined.

Lemma select_starves_highest_witness :
  ∃ w, select_main 10 localhost (hosted [(localhost, map RxData [B "hi"])] ([(3, 1)]%Z :: replicate 5 [(4, 1)]%Z)) = (Blocked, w)
    ∧ w.(w_conns) = [Conn (map RxData [B "hi"]) [] O_RDWR localhost].
Proof. apply (select_starves_highest 10 localhost localhost [B "hi"] 5). lia. Defined.

Lemma poll_trusts_junk_witness :
  ∃ w, poll_main 2 localhost [0; 1]%Z (hosted [(localhost, map RxData [B "hi"])] [[(3, 1)]%Z]) = (Blocked, w)
    ∧ w.(w_conns) = [Conn [] (echo (B "hi")) O_RDWR localhost].
Proof. apply (poll_trusts_junk 2 localhost localhost (B "hi") [] 0 1 []); [simpl; lia|lia]. Defined.
