(* ===== verification/Udp.v ===== *)
(** * Datagram programs

    lesson37: the UDP echo pair, the broadcasting and the multicasting pair,
    and the memory probe of the same lesson. *)
From S2P Require Import Prelude CString Posix NetBytes Sockets TcpEcho TcpProofs.

(** ** The programs *)

(** The opening of the receivers: a datagram socket bound to port 9999. *)
Definition udp_bound : M Z :=
  fd ← socket_dgram; check fd "socket";;
  ret ← bind fd (Inet INADDR_ANY (htons 9999)); check ret "bind";;
  mret fd.

(** lesson37/server_udp.c *)
Definition server_udp_turn (fd : Z) (st : bytes * saddr) : M (bytes * saddr + unit) :=
  let '(recvBuf, clientAddr) := st in
  '(recvLen, recvBuf, clientAddr) ← recvfrom fd recvBuf 128 clientAddr;
  print (B "client IP : " ++ inet_ntop (sin_addr clientAddr) ++ B ", Port : "
         ++ dec (ntohs (sin_port clientAddr)) ++ [LF]);;
  s ← c_string recvBuf; print (B "client : " ++ s ++ [LF]);;
  ret ← sendto fd (s ++ [NUL]) clientAddr; check ret "sendto";;
  mret (inl (recvBuf, clientAddr)).

Definition server_udp_main (fuel : nat) (recvBuf : bytes) (clientAddr : saddr) : M unit :=
  fd ← udp_bound;
  loop fuel (server_udp_turn fd) (recvBuf, clientAddr);;
  close fd;; exit 0.

(** lesson37/client_udp.c *)
Definition client_udp_turn (fd : Z) (serverAddr : saddr) (num : Z) : M (Z + unit) :=
  let sendBuf := zeros 128 in
  let recvBuf := zeros 128 in
  sendBuf ← sprintf (B "hello, I'm client " ++ dec num ++ [LF]) sendBuf;
  num ← incr num;
  s ← c_string sendBuf;
  ret ← sendto fd (s ++ [NUL]) serverAddr; check ret "sendto";;
  '(recvLen, recvBuf, _) ← recvfrom fd recvBuf 128 serverAddr;
  s ← c_string recvBuf; print (B "server : " ++ s ++ [LF]);;
  sleep 1;;
  mret (inl num).

Definition client_udp_main (fuel : nat) (sin_addr : Z) : M unit :=
  fd ← socket_dgram; check fd "socket";;
  let serverAddr := Inet (default sin_addr (inet_pton (B "192.168.29.135"))) (htons 9999) in
  loop fuel (client_udp_turn fd serverAddr) 0%Z;;
  close fd;; exit 0.

(** A turn of the two senders: the text shown differs. *)
Definition announce_turn (label : string) (fd : Z) (clientAddr : saddr) (st : Z * bytes) : M (Z * bytes + unit) :=
  let '(num, sendBuf) := st in
  sendBuf ← sprintf (B "hello, client..." ++ dec num ++ [LF]) sendBuf;
  num ← incr num;
  s ← c_string sendBuf;
  ret ← sendto fd (s ++ [NUL]) clientAddr; check ret "sendto";;
  print (B label ++ s ++ [LF]);;
  sleep 1;;
  mret (inl (num, sendBuf)).

(** lesson37/broadcast_server.c *)
Definition broadcast_server_main (fuel : nat) (sin_addr : Z) (sendBuf : bytes) : M unit :=
  fd ← socket_dgram; check fd "socket";;
  setsockopt fd;;
  let clientAddr := Inet (default sin_addr (inet_pton (B "192.168.29.255"))) (htons 9999) in
  loop fuel (announce_turn "boardcast data : " fd clientAddr) (1%Z, sendBuf);;
  close fd;; exit 0.

(** lesson37/multi_server.c *)
Definition multi_server_main (fuel : nat) (sin_addr : Z) (sendBuf : bytes) : M unit :=
  fd ← socket_dgram; check fd "socket";;
  setsockopt fd;;
  let clientAddr := Inet (default sin_addr (inet_pton (B "239.0.0.10"))) (htons 9999) in
  loop fuel (announce_turn "multicast data : " fd clientAddr) (1%Z, sendBuf);;
  close fd;; exit 0.

(** The loop of the two receivers. *)
Definition listen_turn (fd : Z) (_ : unit) : M (unit + unit) :=
  let recvBuf := zeros 128 in
  '(recvLen, recvBuf, _) ← recvfrom fd recvBuf 128 (Inet 0 0);
  s ← c_string recvBuf; print (B "server : " ++ s ++ [LF]);;
  mret (inl tt).

(** lesson37/broadcast_client.c *)
Definition broadcast_client_main (fuel : nat) : M unit :=
  fd ← udp_bound;
  loop fuel (listen_turn fd) tt;;
  close fd;; exit 0.

(** lesson37/multi_client.c: joining the group is one [setsockopt]. *)
Definition multi_client_main (fuel : nat) : M unit :=
  fd ← udp_bound;
  setsockopt fd;;
  loop fuel (listen_turn fd) tt;;
  close fd;; exit 0.

(** lesson37/requireMemory.c: [malloc] is the argument [granted]; sizes are
    32-bit unsigned numbers. *)
Definition u32 (z : Z) : Z := z mod 2 ^ 32.

Fixpoint probe (fuel : nat) (granted : Z → bool) (blocksize count maximum : Z) : option Z :=
  match fuel with
  | 0 => None
  | S fuel =>
      let size := u32 (maximum + u32 (blocksize * count)) in
      if granted size then probe fuel granted blocksize (count + 1) size else Some maximum
  end.

Definition requireMemory_main (fuel : nat) (granted : Z → bool) : M unit :=
  let maximum := (1024 * 1024 * 1024)%Z in
  match probe fuel granted (1024 * 1024) 1 maximum ≫= λ m,
        probe fuel granted 1024 1 m ≫= λ m, probe fuel granted 1 1 m with
  | None => λ w, (NoFuel, w)
  | Some maximum => print (B "maximum malloc size = " ++ dec maximum ++ B " bytes" ++ [LF]);; exit 0
  end.

(** ** Datagrams out and in *)

Lemma recvfrom_next fd buf n a w b d peer r :
  w.(w_fds) !! fd = Some (DDgram b) → w.(w_dgrams) = (d, peer) :: r → length d ≤ n →
  recvfrom fd buf n a w = (Ok (Z.of_nat (length d), fill d buf, peer), set_w_dgrams r w).
Proof.
  intros Hfd Hd Hn. unfold recvfrom. step_eq. rewrite Hfd. step_eq. rewrite Hd. step_eq.
  by rewrite take_ge.
Qed.

Lemma recvfrom_block fd buf n a w b :
  w.(w_fds) !! fd = Some (DDgram b) → w.(w_dgrams) = [] → recvfrom fd buf n a w = (Blocked, w).
Proof. intros Hfd Hd. unfold recvfrom. step_eq. rewrite Hfd. step_eq. by rewrite Hd. Qed.

Lemma sendto_ok fd d a w b :
  w.(w_faults) = [] → w.(w_fds) !! fd = Some (DDgram b) →
  sendto fd d a w = (Ok (Z.of_nat (length d)), set_w_sent (w.(w_sent) ++ [(d, a)]) w).
Proof. intros Hok Hfd. unfold sendto. rewrite call_ok by done. step_eq. by rewrite Hfd. Qed.

Lemma check_ok z msg w : z ≠ (-1)%Z → check z msg w = (Ok tt, w).
Proof. intros H. unfold check. by rewrite (proj2 (Z.eqb_neq _ _)). Qed.

(** The datagram socket, bound or not. *)
Definition datagram_fd (b : option saddr) (w : world) : Prop :=
  w.(w_fds) !! 3%Z = Some (DDgram b) ∧ w.(w_faults) = [].

Lemma server_udp_turn_echoes buf a b w d peer r :
  datagram_fd b w → w.(w_dgrams) = (d, peer) :: r → terminated 128 d →
  ∃ w', server_udp_turn 3 (buf, a) w = (Ok (inl (fill d buf, peer)), w')
    ∧ datagram_fd b w' ∧ w'.(w_dgrams) = r ∧ w'.(w_sent) = w.(w_sent) ++ [(d, peer)].
Proof.
  intros [Hfd Hok] Hd Ht. pose proof (terminated_length _ _ Ht).
  assert (upto d ++ [NUL] = d) as Hu.
  { destruct Ht as (m & -> & Hm & _). by rewrite upto_terminated. }
  unfold server_udp_turn. erewrite bind_ok by (eapply recvfrom_next; eauto; lia). cbv beta iota.
  erewrite bind_ok by apply print_say.
  erewrite bind_ok by by eapply c_string_ok, terminated_string. erewrite bind_ok by apply print_say.
  erewrite bind_ok by by eapply sendto_ok. erewrite bind_ok by (apply check_ok; lia).
  eexists. split; [reflexivity|]. split; [by split|]. split; [done|]. simpl. by rewrite Hu.
Qed.

Lemma server_udp_loop fuel ds buf a b w :
  datagram_fd b w → w.(w_dgrams) = ds → Forall (terminated 128) ds.*1 → length ds < fuel →
  ∃ w', loop fuel (server_udp_turn 3) (buf, a) w = (Blocked, w') ∧ w'.(w_sent) = w.(w_sent) ++ ds.
Proof.
  revert fuel buf a w. induction ds as [|[d peer] ds IH]; intros [|fuel] buf a w Hw Hd Ht Hf;
    simpl in Hf; try lia.
  - exists w. rewrite app_nil_r. split; [|done]. apply loop_blocked. unfold server_udp_turn.
    apply bind_blocked. eapply recvfrom_block; [apply Hw|done].
  - simpl in Ht. apply Forall_cons in Ht as [Ht Hts].
    destruct (server_udp_turn_echoes buf a b w d peer ds Hw Hd Ht) as (w1 & E & Hw1 & Hd1 & Hs1).
    rewrite (loop_next _ _ _ _ _ _ E).
    destruct (IH fuel (fill d buf) peer w1) as (w' & E' & Hs'); try done; [lia|].
    exists w'. split; [done|]. by rewrite Hs', Hs1, <- app_assoc.
Qed.

(** The UDP server returns every terminated datagram to the address it
    came from, in order, whatever the senders and whatever its buffer held,
    and then waits for the next one. *)
Theorem server_udp_echoes fuel buf a ds :
  Forall (terminated 128) ds.*1 → length ds < fuel →
  ∃ w, server_udp_main fuel buf a (set_w_dgrams ds start) = (Blocked, w) ∧ w.(w_sent) = ds.
Proof.
  intros Ht Hf. unfold server_udp_main.
  rewrite (bind_ok _ _ _ 3%Z (set_w_fds (<[3%Z := DDgram (Some (Inet INADDR_ANY (htons 9999)))]> std_fds)
    (set_w_dgrams ds start))) by reflexivity.
  destruct (server_udp_loop fuel ds buf a (Some (Inet INADDR_ANY (htons 9999)))
    (set_w_fds (<[3%Z := DDgram (Some (Inet INADDR_ANY (htons 9999)))]> std_fds) (set_w_dgrams ds start)))
    as (w & E & Hs); try done.
  exists w. split; [by apply bind_blocked|done].
Qed.

(** ** The senders *)

Definition announcement (num : Z) : bytes := B "hello, client..." ++ dec num ++ [LF].

Lemma announcement_terminated num : (0 ≤ num < 2 ^ 31)%Z → terminated 128 (announcement num ++ [NUL]).
Proof.
  intros H. exists (announcement num). unfold announcement. split_and!; [done|auto 10 with web|].
  rewrite !length_app, length_B. pose proof (length_dec 10 num). simpl. lia.
Qed.

(** The numbered datagrams [i], [i + 1], ..., [n] of them. *)
Definition announcements (i n : nat) (a : saddr) : list (bytes * saddr) :=
  map (λ k, (announcement (Z.of_nat k) ++ [NUL], a)) (seq i n).

Lemma announce_prefix label a num buf w :
  (0 ≤ num < 2 ^ 31 - 1)%Z → length buf = 128 →
  announce_turn label 3 a (num, buf) w =
    (ret ← sendto 3 (announcement num ++ [NUL]) a; check ret "sendto";;
     print (B label ++ announcement num ++ [LF]);; sleep 1;;
     mret (inl (num + 1, fill (announcement num ++ [NUL]) buf)%Z)) w.
Proof.
  intros Hn Hb. unfold announce_turn.
  pose proof (terminated_length _ _ (announcement_terminated num ltac:(lia))) as L.
  rewrite length_app in L. change (length [NUL]) with 1 in L.
  unfold sprintf. rewrite decide_True by (unfold announcement in L; lia).
  step_eq. erewrite bind_ok by (apply incr_ok; lia).
  erewrite bind_ok by (apply c_string_ok, fill_terminated; auto 10 with web). reflexivity.
Qed.

Lemma announce_loop label fuel n i a buf w b e :
  length buf = 128 → (Z.of_nat (i + n) < 2 ^ 31 - 1)%Z → n < fuel →
  w.(w_fds) !! 3%Z = Some (DDgram b) → w.(w_faults) = replicate n None ++ [Some e] →
  ∃ w', loop fuel (announce_turn label 3 a) (Z.of_nat i, buf) w = (Exit (-1), w')
    ∧ w'.(w_sent) = w.(w_sent) ++ announcements i n a
    ∧ w'.(w_err) = w.(w_err) ++ [("sendto", e)]%string.
Proof.
  revert fuel i buf w. induction n as [|n IH]; intros [|fuel] i buf w Hb Hn Hf Hfd Hfl; try lia.
  - eexists. split.
    { apply loop_exit. rewrite announce_prefix by (done || lia). unfold sendto, call.
      erewrite bind_ok by (step_eq; rewrite Hfl; reflexivity). reflexivity. }
    simpl. by rewrite app_nil_r.
  - pose proof (terminated_length _ _ (announcement_terminated (Z.of_nat i) ltac:(lia))) as L.
    assert (announce_turn label 3 a (Z.of_nat i, buf) w =
      (Ok (inl (Z.of_nat i + 1, fill (announcement (Z.of_nat i) ++ [NUL]) buf)%Z),
       set_w_slept (w.(w_slept) + 1 * 1000000) (say (B label ++ announcement (Z.of_nat i) ++ [LF])
         (set_w_sent (w.(w_sent) ++ [(announcement (Z.of_nat i) ++ [NUL], a)])
           (set_w_faults (replicate n None ++ [Some e]) w))))) as E.
    { rewrite announce_prefix by (done || lia). unfold sendto, call.
      erewrite bind_ok.
      2:{ step_eq. rewrite Hfl. cbn [replicate app]. do 2 step_eq. cbn [set_w_faults w_fds]. rewrite Hfd.
          reflexivity. }
      erewrite bind_ok by (apply check_ok; lia). reflexivity. }
    rewrite (loop_next _ _ _ _ _ _ E). replace (Z.of_nat i + 1)%Z with (Z.of_nat (S i)) by lia.
    edestruct (IH fuel (S i)) as (w' & E' & Hs & He); [|lia|lia| | |exists w'; split; [exact E'|]]; try done.
    { rewrite length_fill; lia. }
    rewrite Hs, He. split; [|done]. cbn. by rewrite <- app_assoc.
Qed.

(** The broadcasting server numbers its datagrams from 1 and sends each
    to the broadcast address, until a [sendto] fails: then it reports the
    error and exits with -1. *)
Theorem broadcast_server_announces fuel x buf n e :
  length buf = 128 → (Z.of_nat n < 2 ^ 31 - 2)%Z → n < fuel →
  ∃ w, broadcast_server_main fuel x buf (set_w_faults (replicate (2 + n) None ++ [Some e]) start) = (Exit (-1), w)
    ∧ w.(w_sent) = announcements 1 n (Inet (of_octets 192 168 29 255) (htons 9999))
    ∧ w.(w_err) = [("sendto", e)]%string.
Proof.
  intros Hb Hn Hf. unfold broadcast_server_main.
  set (w0 := set_w_fds (<[3%Z := DDgram None]> std_fds) (set_w_faults (replicate n None ++ [Some e]) start)).
  rewrite (bind_ok _ _ _ 3%Z (set_w_faults (None :: replicate n None ++ [Some e]) w0)) by reflexivity.
  rewrite (bind_ok _ _ _ tt (set_w_faults (None :: replicate n None ++ [Some e]) w0)) by reflexivity.
  rewrite (bind_ok _ _ _ 0%Z w0) by reflexivity.
  replace (inet_pton (B "192.168.29.255")) with (Some (of_octets 192 168 29 255)) by by vm_compute.
  cbn [default from_option].
  destruct (announce_loop "boardcast data : " fuel n 1 (Inet (of_octets 192 168 29 255) (htons 9999)) buf w0 None e)
    as (w & E & Hs & He); try done; [lia|].
  exists w. split; [by apply bind_exit|]. by rewrite Hs, He.
Qed.

(** ** Witnesses *)

Lemma server_udp_echoes_witness :
  ∃ w, server_udp_main 3 [] localhost
         (set_w_dgrams [(B "a" ++ [NUL], localhost); (B "bc" ++ [NUL], Inet 1 2)] start) = (Blocked, w)
    ∧ w.(w_sent) = [(B "a" ++ [NUL], localhost); (B "bc" ++ [NUL], Inet 1 2)].
Proof.
  apply (server_udp_echoes 3 [] localhost [(B "a" ++ [NUL], localhost); (B "bc" ++ [NUL], Inet 1 2)]);
    [|simpl; lia].
  constructor; [|constructor; [|constructor]];
    [exists (B "a")|exists (B "bc")]; (split_and!; [done|auto with web|simpl; lia]).
Defined.

Lemma broadcast_server_announces_witness :
  ∃ w, broadcast_server_main 5 0 (zeros 128) (set_w_faults (replicate 4 None ++ [Some EACCES]) start) = (Exit (-1), w)
    ∧ w.(w_sent) = announcements 1 2 (Inet (of_octets 192 168 29 255) (htons 9999))
    ∧ w.(w_err) = [("sendto", EACCES)]%string.
Proof. apply (broadcast_server_announces 5 0 (zeros 128) 2 EACCES); [apply length_replicate|lia|lia]. Defined.
