(* ===== verification/Threads.v ===== *)
(** * Programs with threads

    A program is a pool: shared data, the threads created so far with their
    local states (program counter and local variables), and the commands the
    main thread has left.  A step lets one thread execute its next statement;
    which one is up to the scheduler, so a property of the program holds in
    every state reachable by any sequence of steps. *)
From S2P Require Import Prelude.

(** What [main] does with its threads. *)
Inductive command (L : Type) :=
| Create (i : nat) (entry : L)   (* pthread_create, slot [i] of the pool *)
| Join (i : nat)                 (* pthread_join *)
| Detach (i : nat)               (* pthread_detach *)
| Forever.                       (* while(1) sleep(10), or pthread_exit *)
Arguments Create {L} i entry.
Arguments Join {L} i.
Arguments Detach {L} i.
Arguments Forever {L}.

(** A mutex of the default kind: the thread that holds it.  Locking waits
    while it is held, by the same thread too. *)
Definition mutex := option nat.

Record pool (G L : Type) := Pool { shared : G; threads : list (option L); main : list (command L) }.
Arguments Pool {G L} shared threads main.
Arguments shared {G L} p.
Arguments threads {G L} p.
Arguments main {G L} p.

Section pools.
Context {G L : Type}.
(** One statement of thread [tid], with the input [o] the outside provides:
    the new shared data and local state, or [None] while it waits. *)
Variable exec : nat → Z → G → L → option (G * L).
(** The thread function has returned. *)
Variable finished : L → bool.

Definition thread_step (tid : nat) (o : Z) (p : pool G L) : option (pool G L) :=
  match p.(threads) !! tid with
  | Some (Some l) =>
      match exec tid o p.(shared) l with
      | Some (g, l) => Some (Pool g (<[tid := Some l]> p.(threads)) p.(main))
      | None => None
      end
  | _ => None
  end.

Definition main_step (p : pool G L) : option (pool G L) :=
  match p.(main) with
  | Create i entry :: r => Some (Pool p.(shared) (<[i := Some entry]> p.(threads)) r)
  | Join i :: r =>
      match p.(threads) !! i with
      | Some (Some l) => if finished l then Some (Pool p.(shared) p.(threads) r) else None
      | _ => None
      end
  | Detach i :: r => Some (Pool p.(shared) p.(threads) r)
  | Forever :: _ | [] => None
  end.

Inductive step (p : pool G L) : pool G L → Prop :=
| step_thread tid o p' : thread_step tid o p = Some p' → step p p'
| step_main p' : main_step p = Some p' → step p p'.

Definition reachable : pool G L → pool G L → Prop := rtc step.

(** A schedule: the choices of the scheduler, a thread with its input or the
    main thread; choices that cannot run are skipped. *)
Definition choose (c : option (nat * Z)) (p : pool G L) : pool G L :=
  default p match c with Some (tid, o) => thread_step tid o p | None => main_step p end.
Definition run (cs : list (option (nat * Z))) (p : pool G L) : pool G L := foldl (λ p c, choose c p) p cs.

Lemma run_reachable cs p : reachable p (run cs p).
Proof.
  revert p. induction cs as [|c cs IH]; intros p; [apply rtc_refl|]. simpl.
  unfold reachable in *. etransitivity; [|apply IH]. unfold choose.
  destruct c as [[tid o]|]; [destruct (thread_step tid o p) eqn:E|destruct (main_step p) eqn:E];
    simpl; try apply rtc_refl; apply rtc_once; [by eapply step_thread|by apply step_main].
Qed.

(** Safety: what holds at the start and is kept by every step. *)
Lemma reachable_invariant (P : pool G L → Prop) p0 p :
  reachable p0 p → P p0 → (∀ p p', P p → step p p' → P p') → P p.
Proof. intros H. induction H; eauto. Qed.

(** The steps of a thread and of [main], on the parts of the pool. *)
Lemma thread_step_Some tid o p p' :
  thread_step tid o p = Some p' →
  ∃ l g' l', p.(threads) !! tid = Some (Some l) ∧ exec tid o p.(shared) l = Some (g', l')
    ∧ p' = Pool g' (<[tid := Some l']> p.(threads)) p.(main).
Proof.
  unfold thread_step. destruct (p.(threads) !! tid) as [[l|]|]; try done.
  destruct (exec tid o p.(shared) l) as [[g' l']|] eqn:E; [|done]. intros [= <-]. eauto 10.
Qed.

Lemma main_step_Some p p' :
  main_step p = Some p' →
  p'.(shared) = p.(shared)
  ∧ ((∃ i e r, p.(main) = Create i e :: r ∧ p'.(threads) = <[i := Some e]> p.(threads) ∧ p'.(main) = r)
     ∨ (∃ i r, p.(main) = Join i :: r ∧ p'.(threads) = p.(threads) ∧ p'.(main) = r
          ∧ ∃ l, p.(threads) !! i = Some (Some l) ∧ finished l = true)
     ∨ (∃ i r, p.(main) = Detach i :: r ∧ p'.(threads) = p.(threads) ∧ p'.(main) = r)).
Proof.
  unfold main_step. destruct (p.(main)) as [|[i e|i|i|] r]; try done.
  - intros [= <-]. split; [done|]. left. eauto 10.
  - destruct (p.(threads) !! i) as [[l|]|] eqn:E; try done. destruct (finished l) eqn:F; [|done].
    intros [= <-]. split; [done|]. right. left. eauto 10.
  - intros [= <-]. split; [done|]. right. right. eauto 10.
Qed.
End pools.

(** The creation commands of [n] threads. *)
Definition create_all {L} (n : nat) (entry : nat → L) : list (command L) :=
  map (λ i, Create i (entry i)) (seq 0 n).
Definition join_all {L} (n : nat) : list (command L) := map Join (seq 0 n).
Definition detach_all {L} (n : nat) : list (command L) := map Detach (seq 0 n).

(** ** The mains that create, then join, their threads *)

Section fork_join.
Context {G L : Type} (exec : nat → Z → G → L → option (G * L)) (finished : L → bool).
Context (n : nat) (entry : nat → L) (ending : list (command L)).
Hypothesis finished_stops : ∀ tid o g l, finished l = true → exec tid o g l = None.
Hypothesis ending_quiet : ∀ c, c ∈ ending → c = Forever ∨ ∃ i, c = Detach i.

Definition fork_join : list (command L) := create_all n entry ++ join_all n ++ ending.

(** What [main] knows at command [k]: the threads created, and those joined,
    which have finished. *)
Record forked (k : nat) (p : pool G L) : Prop := {
  fj_main : p.(main) = drop k fork_join;
  fj_len : length p.(threads) = n;
  fj_fresh : ∀ i, k ≤ i → i < n → p.(threads) !! i = Some None;
  fj_created : ∀ i, i < n → i < k → ∃ l, p.(threads) !! i = Some (Some l);
  fj_joined : ∀ i, i < n → n + i < k → ∃ l, p.(threads) !! i = Some (Some l) ∧ finished l = true
}.

Lemma forked_start g : forked 0 (Pool g (replicate n None) fork_join).
Proof.
  split; try lia; [done|apply length_replicate|]. intros i _ Hi. by apply lookup_replicate_2.
Qed.

Lemma fork_join_lookup k c :
  fork_join !! k = Some c →
  (k < n ∧ c = Create k (entry k)) ∨ (n ≤ k < 2 * n ∧ c = Join (k - n)) ∨ (2 * n ≤ k ∧ c ∈ ending).
Proof.
  unfold fork_join, create_all, join_all. rewrite lookup_app_Some, length_map, length_seq.
  intros [H|[Hk H]].
  - left. apply list_lookup_fmap_Some in H as (i & -> & Hi).
    apply lookup_seq in Hi as [-> ?]. by split.
  - rewrite lookup_app_Some, length_map, length_seq in H. right. destruct H as [H|[Hk' H]].
    + left. apply list_lookup_fmap_Some in H as (i & -> & Hi). apply lookup_seq in Hi as [-> ?].
      split; [lia|done].
    + right. split; [lia|]. by eapply list_elem_of_lookup_2.
Qed.

Lemma forked_thread k p tid l g' l' o :
  forked k p → p.(threads) !! tid = Some (Some l) → exec tid o p.(shared) l = Some (g', l') →
  forked k (Pool g' (<[tid := Some l']> p.(threads)) p.(main)).
Proof.
  intros [Hm Hl Hfr Hc Hj] Ht E. pose proof (lookup_lt_Some _ _ _ Ht) as Hlt.
  split; cbn [threads Threads.main]; [done|by rewrite length_insert|..].
  - intros i Hk Hi. rewrite list_lookup_insert_ne; [by apply Hfr|]. intros ->.
    rewrite Hfr in Ht by done. done.
  - intros i Hi Hk. destruct (decide (i = tid)) as [->|]; [exists l'; by apply list_lookup_insert_eq|].
    rewrite list_lookup_insert_ne by done. by apply Hc.
  - intros i Hi Hk. destruct (Hj i Hi Hk) as (li & Hli & Hf). exists li. split; [|done].
    rewrite list_lookup_insert_ne; [done|]. intros ->. rewrite Hli in Ht. injection Ht as ->.
    by rewrite finished_stops in E.
Qed.

Lemma forked_main k p p' :
  forked k p → main_step finished p = Some p' →
  forked (S k) p' ∧ p'.(shared) = p.(shared)
  ∧ (p'.(threads) = p.(threads) ∨ k < n ∧ p.(threads) !! k = Some None ∧ p'.(threads) = <[k := Some (entry k)]> p.(threads)).
Proof.
  intros [Hm Hl Hfr Hc Hj] E. apply main_step_Some in E as [Hs E].
  assert (∀ c r, p.(main) = c :: r → fork_join !! k = Some c ∧ drop (S k) fork_join = r) as Hd.
  { intros c r H. rewrite Hm in H. split; [by eapply drop_cons_lookup|by eapply drop_S_tail]. }
  destruct E as [(i0 & e & r & H & Ht & Hr)|[(i0 & r & H & Ht & Hr & l & Hi0 & Hf)|(i0 & r & H & Ht & Hr)]].
  - destruct (Hd _ _ H) as [Hk Hdr]. apply fork_join_lookup in Hk as [[Hlt [= -> ->]]|[[_ [=]]|[_ Hin]]].
    2:{ by destruct (ending_quiet _ Hin) as [[=]|[? [=]]]. }
    split; [|split; [done|right; split_and!; [done|by apply Hfr|done]]]. split; [congruence|by rewrite Ht, length_insert|..]; rewrite Ht.
    + intros i Hk Hi. rewrite list_lookup_insert_ne by lia. apply Hfr; lia.
    + intros i Hi Hk. destruct (decide (i = k)) as [->|].
      * exists (entry k). apply list_lookup_insert_eq. lia.
      * rewrite list_lookup_insert_ne by done. apply Hc; lia.
    + intros i Hi Hk. lia.
  - destruct (Hd _ _ H) as [Hk Hdr]. apply fork_join_lookup in Hk as [[_ [=]]|[[Hlt [= ->]]|[_ Hin]]].
    2:{ by destruct (ending_quiet _ Hin) as [[=]|[? [=]]]. }
    split; [|split; [done|by left]]. split; [congruence|by rewrite Ht|..]; rewrite Ht.
    + intros i Hk Hi. apply Hfr; lia.
    + intros i Hi Hk. apply Hc; lia.
    + intros i Hi Hk. destruct (decide (i = k - n)) as [->|]; [by exists l|]. apply Hj; lia.
  - destruct (Hd _ _ H) as [Hk Hdr]. apply fork_join_lookup in Hk as [[_ [=]]|[[_ [=]]|[Hge _]]].
    split; [|split; [done|by left]]. split; [congruence|by rewrite Ht|..]; rewrite Ht.
    + intros i Hk Hi. apply Hfr; lia.
    + intros i Hi Hk. apply Hc; lia.
    + intros i Hi Hk. apply Hj; lia.
Qed.

(** [main] waits only at a [Join], for a thread that has not finished. *)
Lemma forked_waits k p :
  forked k p → main_step finished p = None →
  (2 * n ≤ k) ∨ ∃ i l, i < n ∧ p.(threads) !! i = Some (Some l) ∧ finished l = false.
Proof.
  intros [Hm Hl Hfr Hc Hj] E. destruct (decide (2 * n ≤ k)) as [|Hk]; [by left|right].
  assert (∃ c, fork_join !! k = Some c) as [c Hck].
  { apply lookup_lt_is_Some_2. unfold fork_join, create_all, join_all.
    rewrite !length_app, !length_map, !length_seq. lia. }
  unfold main_step in E. rewrite Hm in E. erewrite drop_S in E by exact Hck.
  apply fork_join_lookup in Hck as [[_ ->]|[[Hlt ->]|[? _]]]; [done| |lia].
  destruct (Hc (k - n)) as [l Hi]; [lia|lia|]. rewrite Hi in E. exists (k - n), l.
  split; [lia|]. split; [done|]. by destruct (finished l).
Qed.

(** All threads are joined exactly when no [Join] is left. *)
Lemma forked_no_join k p i : forked k p → 2 * n ≤ k → Join i ∉ p.(main).
Proof.
  intros Hk Hge H. rewrite (fj_main _ _ Hk) in H. apply list_elem_of_lookup_1 in H as [j Hj].
  rewrite lookup_drop in Hj. apply fork_join_lookup in Hj as [[? _]|[[? _]|[_ Hin]]]; [lia|lia|].
  by destruct (ending_quiet _ Hin) as [[=]|[? [=]]].
Qed.

Lemma forked_all_joined k p : forked k p → 0 < n → (∀ i, Join i ∉ p.(main)) → 2 * n ≤ k.
Proof.
  intros Hk Hn H. destruct (decide (2 * n ≤ k)) as [|Hlt]; [done|exfalso]. apply (H (n - 1)).
  rewrite (fj_main _ _ Hk). apply (list_elem_of_lookup_2 _ (2 * n - 1 - k)). rewrite lookup_drop.
  replace (k + (2 * n - 1 - k)) with (n + (n - 1)) by lia. unfold fork_join, create_all, join_all.
  rewrite lookup_app_r; rewrite length_map, length_seq; [|lia].
  rewrite lookup_app_l by (rewrite length_map, length_seq; lia).
  replace (n + (n - 1) - n) with (n - 1) by lia. apply list_lookup_fmap_Some.
  exists (n - 1). split; [done|]. apply lookup_seq. lia.
Qed.

(** After the joins every thread has finished. *)
Lemma forked_finished k p i l :
  forked k p → 2 * n ≤ k → p.(threads) !! i = Some (Some l) → finished l = true.
Proof.
  intros Hk Hge Hi. assert (i < n) by (rewrite <- (fj_len _ _ Hk); by eapply lookup_lt_Some).
  destruct (fj_joined _ _ Hk i) as (l' & Hl' & Hf); [lia|lia|]. congruence.
Qed.
End fork_join.

(** ** Threads yet to be created *)

Section starting.
Context {G L : Type} (exec : nat → Z → G → L → option (G * L)) (finished : L → bool).
Context (entry : nat → L → Prop).

Definition created (c : command L) : option nat := match c with Create i _ => Some i | _ => None end.

(** The slots of the threads to come are empty, and they start at an entry. *)
Record starting (p : pool G L) : Prop := {
  st_empty : ∀ i e, Create i e ∈ p.(main) → p.(threads) !! i = Some None ∧ entry i e;
  st_once : NoDup (omap created p.(main))
}.

Lemma starting_thread p tid l g' l' :
  starting p → p.(threads) !! tid = Some (Some l) →
  starting (Pool g' (<[tid := Some l']> p.(threads)) p.(main)).
Proof.
  intros [He Ho] Hl. split; [|done]. simpl. intros i e Hi. destruct (He i e Hi) as [Hn Hen].
  split; [|done]. rewrite list_lookup_insert_ne; [done|]. intros ->. congruence.
Qed.

Lemma starting_main p p' :
  starting p → main_step finished p = Some p' →
  starting p' ∧ p'.(shared) = p.(shared)
  ∧ (p'.(threads) = p.(threads)
     ∨ ∃ i e, p.(threads) !! i = Some None ∧ entry i e ∧ p'.(threads) = <[i := Some e]> p.(threads)).
Proof.
  intros [He Ho] E. apply main_step_Some in E as [Hs E].
  destruct E as [(i & e & r & H & Ht & <-)|[(i & r & H & Ht & <- & _)|(i & r & H & Ht & <-)]];
    rewrite H in He, Ho; simpl in Ho.
  - apply NoDup_cons in Ho as [Hni Ho]. destruct (He i e) as [Hn Hen]; [by left|].
    split; [|split; [done|right; eauto]]. split; [|done]. rewrite Ht. intros j e' Hj.
    destruct (He j e') as [Hn' Hen']; [by right|]. split; [|done].
    rewrite list_lookup_insert_ne; [done|]. intros ->. apply Hni, list_elem_of_omap. eauto.
  - split; [|split; [done|by left]]. split; [|done]. rewrite Ht. intros j e' Hj. apply He. by right.
  - split; [|split; [done|by left]]. split; [|done]. rewrite Ht. intros j e' Hj. apply He. by right.
Qed.
End starting.

(** The mains that create [n] threads and let them run. *)
Lemma starting_spawn {G L} (g : G) n (entry : nat → L) (ending : list (command L)) :
  (∀ c, c ∈ ending → created c = None) →
  starting (λ i e, e = entry i) (Pool g (replicate n None) (create_all n entry ++ ending)).
Proof.
  intros Hq. split; simpl.
  - intros i e [H|H]%elem_of_app; [|by apply Hq in H].
    apply list_elem_of_fmap in H as (j & [= -> ->] & Hj). apply elem_of_seq in Hj.
    split; [|done]. apply lookup_replicate_2. lia.
  - rewrite omap_app. replace (omap created ending) with (@nil nat).
    2:{ induction ending as [|c cs IH]; simpl; [done|]. rewrite (Hq c) by by left.
        apply IH. intros. apply Hq. by right. }
    rewrite app_nil_r. replace (omap created (create_all n entry)) with (seq 0 n); [apply NoDup_seq|].
    unfold create_all. generalize 0 as k. induction n as [|n IH]; intros k; simpl; [done|].
    by rewrite <- IH.
Qed.

(** ** Accounts over the threads of a pool *)

Section totals.
Context {L : Type}.
Implicit Types (f g : L → nat) (ts : list (option L)).

Definition total f ts : nat := sum_list (map (from_option f 0) ts).

Lemma total_insert f ts t l l' :
  ts !! t = Some l →
  total f (<[t := l']> ts) + from_option f 0 l = total f ts + from_option f 0 l'.
Proof.
  unfold total. revert t. induction ts as [|x ts IH]; intros [|t] H; simpl in *; try done.
  - injection H as ->. lia.
  - specialize (IH t H). lia.
Qed.

Lemma total_le f g ts : (∀ l, f l ≤ g l) → total f ts ≤ total g ts.
Proof.
  intros H. unfold total. induction ts as [|[l|] ts IH]; simpl; [done|specialize (H l); lia|done].
Qed.

Lemma total_none f n : total f (replicate n None) = 0.
Proof. unfold total. by induction n. Qed.

(** An account that is not empty has a thread that contributes to it. *)
Lemma total_pos f ts : 0 < total f ts → ∃ t l, ts !! t = Some (Some l) ∧ 0 < f l.
Proof.
  unfold total. induction ts as [|[l|] ts IH]; simpl; intros H; [lia| |].
  - destruct (decide (0 < f l)); [by exists 0, l|]. destruct IH as (t & l' & Ht & ?); [lia|]. by exists (S t), l'.
  - destruct IH as (t & l' & Ht & ?); [lia|]. by exists (S t), l'.
Qed.
End totals.

(** ** What the threads of a pool hold *)

Section holdings.
Context {L A : Type} (f : L → option A).
Implicit Types ts : list (option L).

Definition holdings ts : list A := omap (λ l, l ≫= f) ts.

Lemma holdings_insert ts t l l' :
  ts !! t = Some l →
  option_list (l ≫= f) ++ holdings (<[t := l']> ts) ≡ₚ option_list (l' ≫= f) ++ holdings ts.
Proof.
  unfold holdings. revert t. induction ts as [|x ts IH]; intros [|t] H; simpl in *; try done.
  - injection H as ->. destruct (l ≫= f), (l' ≫= f); simpl; try done. apply Permutation_swap.
  - specialize (IH t H). destruct (x ≫= f) as [a|]; [|done].
    rewrite <- !Permutation_middle, IH. done.
Qed.

(** Balance: what came in is what went out and what is held. *)
Lemma holdings_balance (a a' b b' x x' h h' : list A) :
  a ≡ₚ b ++ h → x ++ h' ≡ₚ x' ++ h → a' ++ b ++ x ≡ₚ a ++ b' ++ x' → a' ≡ₚ b' ++ h'.
Proof.
  intros Ha Hx Hb. apply (Permutation_app_inv_r (b ++ x)). rewrite Hb, Ha.
  rewrite <- (app_assoc b' h'), (app_assoc h'), (Permutation_app_comm h' b), <- (app_assoc b h').
  rewrite (Permutation_app_comm h' x), Hx, (Permutation_app_comm x' h).
  rewrite <- (app_assoc b h), !(app_assoc b'), (Permutation_app_comm b' b), <- (app_assoc b b').
  apply Permutation_app_head. rewrite !(app_assoc h), !(app_assoc b'), (Permutation_app_comm b' h). done.
Qed.

Lemma holdings_none n : holdings (replicate n None) = [].
Proof. unfold holdings. by induction n. Qed.

Lemma holdings_nil ts : (∀ t l, ts !! t = Some (Some l) → f l = None) → holdings ts = [].
Proof.
  unfold holdings. induction ts as [|[l|] ts IH]; intros H; simpl; [done| |].
  - rewrite (H 0 l) by done. apply IH. intros t. apply (H (S t)).
  - apply IH. intros t. apply (H (S t)).
Qed.
End holdings.

(** ** A mutex that guards data *)

Section guarded.
Context {G L : Type} (mtx : G → mutex) (inside : L → bool) (ok : G → L → Prop).

(** The mutex is held by the thread whose statement is inside the critical
    section; what that thread relies on holds. *)
Record guarded (p : pool G L) : Prop := {
  gd_held : ∀ t, mtx p.(shared) = Some t → ∃ k, p.(threads) !! t = Some (Some k) ∧ inside k = true;
  gd_in : ∀ t k, p.(threads) !! t = Some (Some k) → inside k = true → mtx p.(shared) = Some t ∧ ok p.(shared) k
}.

Lemma guarded_outside p tid l g' l' :
  guarded p → p.(threads) !! tid = Some (Some l) → inside l = false → inside l' = false →
  mtx g' = mtx p.(shared) → (∀ k, ok p.(shared) k → ok g' k) →
  guarded (Pool g' (<[tid := Some l']> p.(threads)) p.(main)).
Proof.
  intros [Hh Hi] Hl H1 H2 Em Ho. split; cbn [shared threads]; rewrite Em.
  - intros t Et. destruct (Hh t Et) as (k & Hk & Hki). exists k. split; [|done].
    rewrite list_lookup_insert_ne; [done|]. intros ->. congruence.
  - intros t k [(<- & [= <-] & _)|[_ Hk]]%list_lookup_insert_Some Hki; [congruence|].
    destruct (Hi t k Hk Hki). auto.
Qed.

Lemma guarded_holder p tid l g' l' :
  guarded p → p.(threads) !! tid = Some (Some l) → inside l = true ∨ mtx p.(shared) = None →
  mtx g' = Some tid → inside l' = true → ok g' l' →
  guarded (Pool g' (<[tid := Some l']> p.(threads)) p.(main)).
Proof.
  intros [Hh Hi] Hl Hor Em Hl' Hok. pose proof (lookup_lt_Some _ _ _ Hl) as Hlt.
  split; cbn [shared threads]; rewrite Em.
  - intros t [= <-]. exists l'. by rewrite list_lookup_insert_eq.
  - intros t k [(<- & [= <-] & _)|[Hne Hk]]%list_lookup_insert_Some Hki; [done|]. exfalso.
    destruct (Hi t k Hk Hki) as [Et _]. destruct Hor as [Hin|Hn]; [|congruence].
    destruct (Hi tid l Hl Hin). congruence.
Qed.

Lemma guarded_unlock p tid l g' l' :
  guarded p → p.(threads) !! tid = Some (Some l) → inside l = true → mtx g' = None → inside l' = false →
  guarded (Pool g' (<[tid := Some l']> p.(threads)) p.(main)).
Proof.
  intros [Hh Hi] Hl Hin Em Hl'. split; cbn [shared threads]; rewrite Em; [done|].
  intros t k [(<- & [= <-] & _)|[Hne Hk]]%list_lookup_insert_Some Hki; [congruence|].
  destruct (Hi t k Hk Hki) as [Et _]. destruct (Hi tid l Hl Hin). congruence.
Qed.

(** A new thread starts outside. *)
Lemma guarded_create p i e r :
  guarded p → p.(threads) !! i = Some None → inside e = false →
  guarded (Pool p.(shared) (<[i := Some e]> p.(threads)) r).
Proof.
  intros [Hh Hi] Hn He. split; cbn [shared threads].
  - intros t Et. destruct (Hh t Et) as (k & Hk & Hki). exists k. split; [|done].
    rewrite list_lookup_insert_ne; [done|]. intros ->. congruence.
  - intros t k [(<- & [= <-] & _)|[_ Hk]]%list_lookup_insert_Some Hki; [congruence|]. eauto.
Qed.
End guarded.
