(* ===== verification/Tickets.v ===== *)
(** * Threads that share data: lesson30

    mutex.c (tickets sold under a mutex), sellticket.c (tickets in a local
    variable), deadlock.c (a mutex locked twice), deadlock1.c (two mutexes in
    opposite orders) and rwlock.c (readers and writers), one module each. *)
From S2P Require Import Prelude Threads.

(** The numbers [n], [n - 1], ..., [k] of them. *)
Definition countdown (n : Z) (k : nat) : list Z := map (λ i, (n - Z.of_nat i)%Z) (seq 0 k).

Lemma countdown_snoc n k : countdown n (S k) = countdown n k ++ [(n - Z.of_nat k)%Z].
Proof. unfold countdown. by rewrite seq_S, map_app. Qed.

Lemma length_countdown n k : length (countdown n k) = k.
Proof. unfold countdown. by rewrite length_map, length_seq. Qed.

(** ** mutex.c *)
Module Mutex.

(** The globals, and the tickets printed so far with their seller. *)
Record data := Data { tickets : Z; mtx : mutex; sold : list (nat * Z) }.

(** The statements of [sell]; [tickets--] is a load and a store, and the
    value loaded is what [printf] prints. *)
Inductive pc := While | Sleep | Lock | If | Load | Store (v : Z) | Print (v : Z) | Unlock | Return.

Definition sell (tid : nat) (o : Z) (g : data) (l : pc) : option (data * pc) :=
  match l with
  | While => Some (g, if (g.(tickets) >? 0)%Z then Sleep else Return)
  | Sleep => Some (g, Lock)
  | Lock =>
      match g.(mtx) with
      | None => Some (Data g.(tickets) (Some tid) g.(sold), If)
      | Some _ => None
      end
  | If => Some (g, if (g.(tickets) >? 0)%Z then Load else Unlock)
  | Load => Some (g, Store g.(tickets))
  | Store v => Some (Data (v - 1) g.(mtx) g.(sold), Print v)
  | Print v => Some (Data g.(tickets) g.(mtx) (g.(sold) ++ [(tid, v)]), Unlock)
  | Unlock => Some (Data g.(tickets) None g.(sold), While)
  | Return => None
  end.

Definition finished (l : pc) : bool := match l with Return => true | _ => false end.

(** [main]: [n] sellers are created, joined, then detached. *)
Definition commands (n : nat) : list (command pc) :=
  create_all n (λ _, While) ++ join_all n ++ detach_all n ++ [Forever].
Definition program (n : nat) (stock : Z) : pool data pc :=
  Pool (Data stock None []) (replicate n None) (commands n).
Definition mutex_main : pool data pc := program 3 1000.

Definition steps := reachable sell finished.

(** *** The invariant *)

(** Between [lock] and [unlock]. *)
Definition inside (l : pc) : bool :=
  match l with If | Load | Store _ | Print _ | Unlock => true | _ => false end.

(** The account when no update is under way. *)
Definition settled (stock : Z) (g : data) : Prop := g.(tickets) = (stock - Z.of_nat (length g.(sold)))%Z.

(** The account as the holder of the mutex sees it. *)
Definition holder_ok (stock : Z) (g : data) (l : pc) : Prop :=
  match l with
  | Load => settled stock g ∧ (0 < g.(tickets))%Z
  | Store v => settled stock g ∧ (0 < g.(tickets))%Z ∧ v = g.(tickets)
  | Print v => v = (stock - Z.of_nat (length g.(sold)))%Z ∧ g.(tickets) = (v - 1)%Z ∧ (0 < v)%Z
  | _ => settled stock g
  end.

Record good (n : nat) (stock : Z) (p : pool data pc) : Prop := {
  g_len : length p.(threads) = n;
  g_log : map snd p.(shared).(sold) = countdown stock (length p.(shared).(sold));
  g_pos : (0 ≤ p.(shared).(tickets))%Z;
  g_free : p.(shared).(mtx) = None → settled stock p.(shared);
  g_held : ∀ t, p.(shared).(mtx) = Some t → ∃ l, p.(threads) !! t = Some (Some l) ∧ inside l = true;
  g_in : ∀ t l, p.(threads) !! t = Some (Some l) → inside l = true →
    p.(shared).(mtx) = Some t ∧ holder_ok stock p.(shared) l;
  g_done : ∀ t, p.(threads) !! t = Some (Some Return) → p.(shared).(tickets) = 0%Z
}.

(** A step outside the critical section, which leaves the data alone. *)
Lemma good_outside n stock p tid l l' :
  good n stock p → p.(threads) !! tid = Some (Some l) → inside l = false → inside l' = false →
  (l' = Return → p.(shared).(tickets) = 0%Z) →
  good n stock (Pool p.(shared) (<[tid := Some l']> p.(threads)) p.(main)).
Proof.
  intros [Hn Hlog Hpos Hfree Hheld Hin Hdone] Hl Ho Ho' Hr. pose proof (lookup_lt_Some _ _ _ Hl) as Hlt.
  split; cbn [threads Threads.shared]; try done.
  - by rewrite length_insert.
  - intros t Ht. destruct (Hheld t Ht) as (lt & Hlt' & Hi). exists lt. split; [|done].
    rewrite list_lookup_insert_ne; [done|]. intros ->. congruence.
  - intros t lt Ht Hi. apply list_lookup_insert_Some in Ht as [(-> & [= ->] & _)|[_ Ht]]; [congruence|eauto].
  - intros t Ht. apply list_lookup_insert_Some in Ht as [(-> & [= ->] & _)|[_ Ht]]; eauto.
Qed.

(** A step of the thread that holds the mutex, takes it or gives it back. *)
Lemma good_holder n stock p tid l g' l' :
  good n stock p → p.(threads) !! tid = Some (Some l) →
  p.(shared).(mtx) = None ∨ p.(shared).(mtx) = Some tid →
  g'.(mtx) = (if inside l' then Some tid else None) →
  (inside l' = true → holder_ok stock g' l') → (inside l' = false → settled stock g') →
  map snd g'.(sold) = countdown stock (length g'.(sold)) → (0 ≤ g'.(tickets))%Z →
  (p.(shared).(tickets) = 0%Z → g'.(tickets) = 0%Z) → l' ≠ Return →
  good n stock (Pool g' (<[tid := Some l']> p.(threads)) p.(main)).
Proof.
  intros [Hn Hlog Hpos Hfree Hheld Hin Hdone] Hl Hm Hm' Hin' Hout' Hlog' Hpos' Hz Hnr.
  pose proof (lookup_lt_Some _ _ _ Hl) as Hlt.
  split; cbn [threads Threads.shared]; try done.
  - by rewrite length_insert.
  - intros E. apply Hout'. rewrite E in Hm'. by destruct (inside l').
  - intros t E. rewrite E in Hm'. destruct (inside l') eqn:Ei; [|done]. injection Hm' as ->.
    exists l'. split; [|done]. by apply list_lookup_insert_eq.
  - intros t lt Ht Hi. apply list_lookup_insert_Some in Ht as [(-> & [= ->] & _)|[Hne Ht]].
    + rewrite Hi in Hm'. auto.
    + destruct (Hin t lt Ht Hi) as [E _]. destruct Hm; congruence.
  - intros t Ht. apply list_lookup_insert_Some in Ht as [(-> & [= ->] & _)|[_ Ht]]; [done|eauto].
Qed.

Lemma sell_good n stock p tid o l g' l' :
  good n stock p → p.(threads) !! tid = Some (Some l) → sell tid o p.(shared) l = Some (g', l') →
  good n stock (Pool g' (<[tid := Some l']> p.(threads)) p.(main)).
Proof.
  intros Hp Hl E. pose proof (g_in _ _ _ Hp tid l Hl) as Hin. pose proof (g_pos _ _ _ Hp) as Hpos.
  pose proof (g_log _ _ _ Hp) as Hlog.
  destruct l as [| | | | |v|v| |]; simpl in E; simplify_eq.
  - eapply good_outside; [done|done|done|by destruct (_ >? 0)%Z|].
    destruct (Z.gtb_spec (tickets (Threads.shared p)) 0); [done|]. intros _. lia.
  - by eapply good_outside.
  - destruct (mtx (Threads.shared p)) eqn:Em; simplify_eq.
    eapply good_holder; try done; [by left|]. intros _. by apply (g_free _ _ _ Hp).
  - destruct Hin as [Em Hs]; [done|]. eapply good_holder; try done; [by right|by destruct (_ >? 0)%Z|..].
    + destruct (Z.gtb_spec (tickets (Threads.shared p)) 0); simpl; [|done]. intros _. split; [done|lia].
    + by destruct (_ >? 0)%Z.
  - destruct Hin as [Em [Hs Hp0]]; [done|]. eapply good_holder; try done. by right.
  - destruct Hin as [Em (Hs & Hp0 & ->)]; [done|]. eapply good_holder; try done; simpl; try (by right); try lia.
  - destruct Hin as [Em (Hv & Ht & Hp0)]; [done|]. eapply good_holder; try done; simpl; try (by right).
    + intros _. unfold settled. simpl. rewrite length_app. simpl. lia.
    + rewrite map_app, length_app, Nat.add_1_r, countdown_snoc, Hlog. simpl. by rewrite <- Hv.
  - destruct Hin as [Em Hs]; [done|]. eapply good_holder; try done. by right.
Qed.

(** A new thread is outside the critical section. *)
Lemma good_create n stock p tid ms :
  good n stock p → p.(threads) !! tid = Some None →
  good n stock (Pool p.(shared) (<[tid := Some While]> p.(threads)) ms).
Proof.
  intros [Hn Hlog Hpos Hfree Hheld Hin Hdone] Hl.
  split; cbn [threads Threads.shared]; try done.
  - by rewrite length_insert.
  - intros t Ht. destruct (Hheld t Ht) as (lt & Hlt' & Hi). exists lt. split; [|done].
    rewrite list_lookup_insert_ne; [done|]. intros ->. congruence.
  - intros t lt Ht Hi. apply list_lookup_insert_Some in Ht as [(-> & [= <-] & _)|[_ Ht]]; [done|eauto].
  - intros t Ht. apply list_lookup_insert_Some in Ht as [(_ & [=] & _)|[_ Ht]]; eauto.
Qed.

(** *** The program *)

Lemma mutex_finished_stops tid o g l : finished l = true → sell tid o g l = None.
Proof. by destruct l. Qed.

Lemma mutex_ending_quiet n (c : command pc) : c ∈ detach_all n ++ [Forever] → c = Forever ∨ ∃ i, c = Detach i.
Proof.
  intros [H|H]%elem_of_app.
  - right. apply list_elem_of_fmap in H as (i & -> & _). eauto.
  - left. by apply list_elem_of_singleton in H.
Qed.

Definition inv (n : nat) (stock : Z) (p : pool data pc) : Prop :=
  good n stock p ∧ ∃ k, forked finished n (λ _, While) (detach_all n ++ [Forever]) k p.

Lemma mutex_inv_start n stock : (0 ≤ stock)%Z → inv n stock (program n stock).
Proof.
  intros Hs. split; [|exists 0; apply forked_start].
  split; simpl; [apply length_replicate|done|done| |done|..].
  - intros _. unfold settled. simpl. lia.
  - by intros t l [[=] _]%lookup_replicate.
  - by intros t [[=] _]%lookup_replicate.
Qed.

Lemma mutex_inv_step n stock p p' : inv n stock p → step sell finished p p' → inv n stock p'.
Proof.
  intros [Hg [k Hk]] [tid o p1 E|p1 E].
  - apply thread_step_Some in E as (l & g' & l' & Hl & E & ->). split; [by eapply sell_good|].
    exists k. by eapply (forked_thread sell finished _ _ _ mutex_finished_stops).
  - pose proof (forked_main _ _ _ _ (mutex_ending_quiet n) _ _ _ Hk E) as (Hk' & Hs & Ht).
    split; [|by exists (S k)]. destruct p1 as [g1 t1 m1]; simpl in *. subst g1.
    destruct Ht as [->|(_ & Hn & ->)]; [by destruct Hg; split|by apply good_create].
Qed.

Lemma mutex_inv_reachable n stock p : (0 ≤ stock)%Z → steps (program n stock) p → inv n stock p.
Proof. intros Hs H. eapply reachable_invariant; [done|by apply mutex_inv_start|apply mutex_inv_step]. Qed.

(** A thread that has not returned can run, or another one can. *)
Lemma thread_progress n stock p i l :
  good n stock p → p.(threads) !! i = Some (Some l) → finished l = false → ∃ p', step sell finished p p'.
Proof.
  intros Hg Hl Hf.
  assert (∀ t lt, p.(threads) !! t = Some (Some lt) → is_Some (sell t 0 p.(shared) lt) → ∃ p', step sell finished p p') as A.
  { intros t lt Ht [[g' l'] E]. eexists. eapply (step_thread _ _ _ t 0). unfold thread_step.
    rewrite Ht, E. reflexivity. }
  destruct (sell i 0 p.(shared) l) as [r|] eqn:E; [by eapply A; eauto|].
  destruct l; try done. simpl in E. destruct (mtx (Threads.shared p)) as [t|] eqn:Em; [|done].
  destruct (g_held _ _ _ Hg t Em) as (lt & Ht & Hi). apply (A t lt Ht). by destruct lt; try done; eexists.
Qed.

(** When all threads are joined the account is closed. *)
Lemma all_joined n stock k p :
  good n stock p → forked finished n (λ _, While) (detach_all n ++ [Forever]) k p →
  0 < n → (∀ i, Join i ∉ p.(main)) → Z.of_nat (length p.(shared).(sold)) = stock.
Proof.
  intros Hg Hk Hn Hj. pose proof (forked_all_joined _ _ _ _ _ _ Hk Hn Hj) as Hge.
  assert (∀ i l, p.(threads) !! i = Some (Some l) → l = Return) as Hall.
  { intros i l Hi. pose proof (forked_finished _ _ _ _ _ _ _ _ Hk Hge Hi) as Hf. by destruct l. }
  destruct (fj_joined _ _ _ _ _ _ Hk 0) as (l & Hl & _); [lia|lia|].
  rewrite (Hall 0 l Hl) in Hl. pose proof (g_done _ _ _ Hg 0 Hl) as Hz.
  destruct (mtx p.(shared)) as [t|] eqn:Em.
  - destruct (g_held _ _ _ Hg t Em) as (lt & Ht & Hi). by rewrite (Hall t lt Ht) in Hi.
  - pose proof (g_free _ _ _ Hg Em) as Hs. unfold settled in Hs. lia.
Qed.

(** C27. The ticket sellers under the mutex, under every interleaving: the
    tickets are sold in order from 1000 down, each exactly once, never below
    1; at most one seller is between [lock] and [unlock]; when [main] has
    joined its threads all 1000 tickets are sold; and until then some thread
    can always run. *)
Theorem tickets_sold_once p :
  steps mutex_main p →
  map snd p.(shared).(sold) = countdown 1000 (length p.(shared).(sold))
  ∧ (0 ≤ p.(shared).(tickets))%Z
  ∧ (∀ t t' l l', p.(threads) !! t = Some (Some l) → p.(threads) !! t' = Some (Some l') →
       inside l = true → inside l' = true → t = t')
  ∧ ((∀ i, Join i ∉ p.(main)) → length p.(shared).(sold) = 1000)
  ∧ ((∃ i, Join i ∈ p.(main)) → ∃ p', step sell finished p p').
Proof.
  intros H. apply mutex_inv_reachable in H as [Hg [k Hk]]; [|lia].
  split_and!; [apply Hg|apply Hg| | |].
  - intros t t' l l' Ht Ht' Hi Hi'. destruct (g_in _ _ _ Hg t l Ht Hi) as [E _].
    destruct (g_in _ _ _ Hg t' l' Ht' Hi') as [E' _]. congruence.
  - intros Hj. pose proof (all_joined _ _ _ _ Hg Hk ltac:(lia) Hj). lia.
  - intros [i Hi]. destruct (main_step finished p) as [p'|] eqn:E; [exists p'; by apply step_main|].
    destruct (forked_waits _ _ _ _ _ _ Hk E) as [Hge|(j & l & _ & Hl & Hf)]; [|by eapply thread_progress].
    by destruct (forked_no_join _ _ _ _ (mutex_ending_quiet 3) _ _ i Hk Hge).
Qed.

(** A run in which two sellers meet at the mutex. *)
Definition sample : pool data pc :=
  run sell finished ([None; None; None] ++ concat (replicate 7 [Some (0, 0%Z); Some (1, 0%Z)])) mutex_main.

Lemma tickets_sold_once_witness :
  map snd sample.(shared).(sold) = [1000%Z] ∧ (∃ i, Join i ∈ sample.(main)) ∧ ∃ p', step sell finished sample p'.
Proof.
  destruct (tickets_sold_once sample (run_reachable _ _ _ _)) as (H & _ & _ & _ & Hp).
  assert (sample.(main) = join_all 3 ++ detach_all 3 ++ [Forever]) as Em by by vm_compute.
  assert (∃ i, Join i ∈ sample.(main)) as Hj by (exists 0; rewrite Em; by left).
  split; [exact H|]. split; [exact Hj|]. apply Hp, Hj.
Defined.
End Mutex.

(** ** sellticket.c *)
Module SellTicket.

(** [tickets] is a local variable: every thread has its own 100. *)
Inductive pc := While (tickets : Z) | Sleep (tickets : Z) | Print (tickets : Z) | Return.

(** The shared data is the output alone. *)
Definition sell (tid : nat) (o : Z) (sold : list (nat * Z)) (l : pc) : option (list (nat * Z) * pc) :=
  match l with
  | While t => Some (sold, if (t >? 0)%Z then Sleep t else Return)
  | Sleep t => Some (sold, Print t)
  | Print t => Some (sold ++ [(tid, t)], While (t - 1))
  | Return => None
  end.

Definition finished (l : pc) : bool := match l with Return => true | _ => false end.

Definition sellticket_main : pool (list (nat * Z)) pc :=
  Pool [] (replicate 3 None)
    (create_all 3 (λ _, While 100) ++ join_all 3 ++ detach_all 3 ++ [Forever]).
End SellTicket.

(** ** deadlock.c *)
Module Deadlock.

Record data := Data { tickets : Z; mtx : mutex; sold : list (nat * Z) }.

(** [sell] locks the mutex twice and unlocks it once. *)
Inductive pc := While | Sleep | Lock | LockAgain | If | Load | Store (v : Z) | Print (v : Z) | Unlock | Return.

Definition lock (tid : nat) (g : data) (next : pc) : option (data * pc) :=
  match g.(mtx) with
  | None => Some (Data g.(tickets) (Some tid) g.(sold), next)
  | Some _ => None
  end.

Definition sell (tid : nat) (o : Z) (g : data) (l : pc) : option (data * pc) :=
  match l with
  | While => Some (g, if (g.(tickets) >? 0)%Z then Sleep else Return)
  | Sleep => Some (g, Lock)
  | Lock => lock tid g LockAgain
  | LockAgain => lock tid g If
  | If => Some (g, if (g.(tickets) >? 0)%Z then Load else Unlock)
  | Load => Some (g, Store g.(tickets))
  | Store v => Some (Data (v - 1) g.(mtx) g.(sold), Print v)
  | Print v => Some (Data g.(tickets) g.(mtx) (g.(sold) ++ [(tid, v)]), Unlock)
  | Unlock => Some (Data g.(tickets) None g.(sold), While)
  | Return => None
  end.

Definition finished (l : pc) : bool := match l with Return => true | _ => false end.

Definition deadlock_main : pool data pc :=
  Pool (Data 1000 None []) (replicate 3 None)
    (create_all 3 (λ _, While) ++ join_all 3 ++ detach_all 3 ++ [Forever]).

Definition steps := reachable sell finished.

(** Before the second lock, which waits for the thread itself. *)
Definition early (l : pc) : Prop := l = While ∨ l = Sleep ∨ l = Lock ∨ l = LockAgain.

Record stuck_inv (p : pool data pc) : Prop := {
  si_full : p.(shared).(tickets) = 1000%Z ∧ p.(shared).(sold) = [];
  si_early : ∀ t l, p.(threads) !! t = Some (Some l) → early l;
  si_holds : ∀ t, p.(threads) !! t = Some (Some LockAgain) → p.(shared).(mtx) = Some t
}.

Lemma stuck_inv_thread p tid o l g' l' :
  stuck_inv p → p.(threads) !! tid = Some (Some l) → sell tid o p.(shared) l = Some (g', l') →
  stuck_inv (Pool g' (<[tid := Some l']> p.(threads)) p.(main)).
Proof.
  intros [[Ht Hs] He Hh] Hl E. unfold early in *.
  assert (∀ g2, g2.(tickets) = 1000%Z ∧ g2.(sold) = [] → early l' →
    (∀ t, p.(threads) !! t = Some (Some LockAgain) → g2.(mtx) = Some t) →
    (l' = LockAgain → g2.(mtx) = Some tid) →
    stuck_inv (Pool g2 (<[tid := Some l']> p.(threads)) p.(main))) as K.
  { intros g2 H1 H2 H3 H4. split; cbn [Threads.shared threads]; [done|..].
    - intros t lt [(-> & [= <-] & _)|[_ Hlt]]%list_lookup_insert_Some; [done|by eapply He].
    - intros t [(-> & [= ->] & _)|[_ Hlt]]%list_lookup_insert_Some; auto. }
  destruct (He tid l Hl) as [->|[->|[->| ->]]]; simpl in E.
  - rewrite Ht in E. change (1000 >? 0)%Z with true in E. simplify_eq. apply K; [done|unfold early; auto|done|done].
  - simplify_eq. apply K; [done|unfold early; auto|done|done].
  - unfold lock in E. destruct (mtx (Threads.shared p)) eqn:Em; simplify_eq.
    apply K; [done|unfold early; auto| |done]. intros t Hlt. by specialize (Hh t Hlt).
  - unfold lock in E. by rewrite (Hh tid Hl) in E.
Qed.

Lemma stuck_inv_create p i ms :
  stuck_inv p → stuck_inv (Pool p.(shared) (<[i := Some While]> p.(threads)) ms).
Proof.
  intros [Hf He Hh]. split; simpl; [done|..].
  - intros t l [(-> & [= <-] & _)|[_ Hl]]%list_lookup_insert_Some; [by left|by eapply He].
  - intros t [(_ & [=] & _)|[_ Hl]]%list_lookup_insert_Some. auto.
Qed.

Definition inv (p : pool data pc) : Prop :=
  stuck_inv p ∧ starting (λ _ e, e = While) p ∧ Join 0 ∈ p.(main).

Lemma deadlock_inv_start : inv deadlock_main.
Proof.
  split; [|split; [|simpl; set_solver]].
  - split; simpl; [done|..].
    + by intros t l [[=] _]%(lookup_replicate 3).
    + by intros t [[=] _]%(lookup_replicate 3).
  - apply (starting_spawn _ 3 (λ _, While)). intros c Hc.
    repeat (apply elem_of_cons in Hc as [->|Hc]; [done|]). by apply elem_of_nil in Hc.
Qed.

Lemma deadlock_inv_step p p' : inv p → step sell finished p p' → inv p'.
Proof.
  intros (Hp & Hst & Hj) [tid o p1 E|p1 E].
  - apply thread_step_Some in E as (l & g' & l' & Hl & E & ->).
    split; [by eapply stuck_inv_thread|]. split; [by eapply starting_thread|done].
  - pose proof (starting_main _ _ _ _ Hst E) as (Hst' & Hs & Ht). split; [|split; [done|]].
    + destruct p1 as [g1 t1 m1]; simpl in *. subst g1.
      destruct Ht as [->|(i & e & _ & -> & ->)]; [by destruct Hp; split|by apply stuck_inv_create].
    + apply main_step_Some in E as [_ [(i & e & r & H & _ & ->)|[(i & r & H & _ & -> & l & Hl & Hf)|(i & r & H & _ & ->)]]];
        rewrite H in Hj; apply elem_of_cons in Hj as [[=]|Hj]; try done.
      apply (si_early _ Hp) in Hl. by destruct Hl as [->|[->|[->| ->]]].
Qed.

(** With the mutex locked twice no ticket is ever sold, under any
    interleaving, no seller returns and [main] never gets past its first join;
    the seller that holds the mutex waits for itself, and all others that
    reach it wait too. *)
Theorem deadlock_sells_nothing p :
  steps deadlock_main p →
  p.(shared).(sold) = [] ∧ p.(shared).(tickets) = 1000%Z ∧ Join 0 ∈ p.(main)
  ∧ (∀ t l, p.(threads) !! t = Some (Some l) → finished l = false)
  ∧ (∀ t u l o, p.(threads) !! t = Some (Some LockAgain) → p.(threads) !! u = Some (Some l) →
       l = Lock ∨ l = LockAgain → thread_step sell u o p = None).
Proof.
  intros H. assert (inv p) as (Hp & _ & Hj).
  { eapply reachable_invariant; [exact H|apply deadlock_inv_start|apply deadlock_inv_step]. }
  split_and!; [apply Hp|apply Hp|done| |].
  - intros t l Hl. apply (si_early _ Hp) in Hl. by destruct Hl as [->|[->|[->| ->]]].
  - intros t u l o Ht Hu Hl. apply (si_holds _ Hp) in Ht. unfold thread_step. rewrite Hu.
    destruct Hl as [->| ->]; simpl; unfold lock; by rewrite Ht.
Qed.

Definition sample : pool data pc :=
  run sell finished ([None; None; None] ++ concat (replicate 5 [Some (0, 0%Z); Some (1, 0%Z)])) deadlock_main.

Lemma deadlock_sells_nothing_witness :
  sample.(threads) !! 0 = Some (Some LockAgain) ∧ sample.(threads) !! 1 = Some (Some Lock)
  ∧ thread_step sell 1 0 sample = None ∧ sample.(shared).(sold) = [].
Proof.
  destruct (deadlock_sells_nothing sample (run_reachable _ _ _ _)) as (H & _ & _ & _ & Hw).
  split_and!; [reflexivity|reflexivity| |exact H]. apply (Hw 0 1 Lock); [reflexivity|reflexivity|by left].
Defined.
End Deadlock.

(** ** deadlock1.c *)
Module Deadlock1.

Inductive worker := WorkA | WorkB.
(** The statements of [workA] and [workB]; the first mutex is [mutex1] for
    [workA] and [mutex2] for [workB]. *)
Inductive stage := LockFirst | Sleep | LockSecond | Print | UnlockSecond | UnlockFirst | Return.
Inductive name := Mutex1 | Mutex2.
#[export] Instance stage_eq_dec : EqDecision stage.
Proof. solve_decision. Defined.

Record data := Data { mutex1 : mutex; mutex2 : mutex; out : list worker }.

Definition first_of (w : worker) : name := match w with WorkA => Mutex1 | WorkB => Mutex2 end.
Definition second_of (w : worker) : name := match w with WorkA => Mutex2 | WorkB => Mutex1 end.

Definition get (m : name) (g : data) : mutex := match m with Mutex1 => g.(mutex1) | Mutex2 => g.(mutex2) end.
Definition put (m : name) (v : mutex) (g : data) : data :=
  match m with Mutex1 => Data v g.(mutex2) g.(out) | Mutex2 => Data g.(mutex1) v g.(out) end.

Definition lock (m : name) (tid : nat) (g : data) : option data :=
  match get m g with None => Some (put m (Some tid) g) | Some _ => None end.

Definition work (tid : nat) (o : Z) (g : data) (l : worker * stage) : option (data * (worker * stage)) :=
  let '(w, s) := l in
  match s with
  | LockFirst => g ← lock (first_of w) tid g; Some (g, (w, Sleep))
  | Sleep => Some (g, (w, LockSecond))
  | LockSecond => g ← lock (second_of w) tid g; Some (g, (w, Print))
  | Print => Some (Data g.(mutex1) g.(mutex2) (g.(out) ++ [w]), (w, UnlockSecond))
  | UnlockSecond => Some (put (second_of w) None g, (w, UnlockFirst))
  | UnlockFirst => Some (put (first_of w) None g, (w, Return))
  | Return => None
  end.

Definition finished (l : worker * stage) : bool := match l.2 with Return => true | _ => false end.

Definition entry (i : nat) : worker * stage := (if decide (i = 0) then WorkA else WorkB, LockFirst).
Definition deadlock1_main : pool data (worker * stage) :=
  Pool (Data None None []) (replicate 2 None) (create_all 2 entry ++ join_all 2 ++ []).

Definition steps := reachable work finished.

(** Which mutexes a thread holds at a stage. *)
Definition owns (m : name) (l : worker * stage) : bool :=
  match l.2 with
  | Sleep | LockSecond | UnlockFirst => match m, l.1 with Mutex1, WorkA | Mutex2, WorkB => true | _, _ => false end
  | Print | UnlockSecond => true
  | _ => false
  end.

Record inv (p : pool data (worker * stage)) : Prop := {
  i_owner : ∀ m t, get m p.(shared) = Some t ↔ ∃ l, p.(threads) !! t = Some (Some l) ∧ owns m l = true;
  i_worker : ∀ t l, p.(threads) !! t = Some (Some l) → l.1 = (entry t).1;
  i_main : ∃ k, forked finished 2 entry [] k p
}.

Lemma work_worker tid o g l g' l' : work tid o g l = Some (g', l') → l'.1 = l.1.
Proof.
  destruct l as [w []]; simpl; try destruct (lock _ _ _); intros E; simplify_eq/=; done.
Qed.

(** A step changes the owner of a mutex exactly when the thread's own claim
    to it changes, and only from or to nobody. *)
Lemma work_owner tid o g l g' l' m :
  work tid o g l = Some (g', l') →
  (owns m l' = owns m l ∧ get m g' = get m g)
  ∨ (owns m l = false ∧ owns m l' = true ∧ get m g = None ∧ get m g' = Some tid)
  ∨ (owns m l = true ∧ owns m l' = false ∧ get m g' = None).
Proof.
  destruct l as [[] []], m; simpl; unfold lock; simpl; try destruct (mutex1 g) eqn:?; try destruct (mutex2 g) eqn:?;
    intros E; simplify_eq/=; auto 10.
Qed.

Lemma inv_owner_step p tid o l g' l' m t :
  inv p → p.(threads) !! tid = Some (Some l) → work tid o p.(shared) l = Some (g', l') →
  get m g' = Some t ↔ ∃ l0, <[tid := Some l']> p.(threads) !! t = Some (Some l0) ∧ owns m l0 = true.
Proof.
  intros [Ho Hw _] Hl E. pose proof (lookup_lt_Some _ _ _ Hl) as Hlt.
  pose proof (Ho m t) as Ht. pose proof (Ho m tid) as Htid.
  destruct (decide (t = tid)) as [->|Hne].
  - rewrite list_lookup_insert_eq by done.
    assert (get m p.(shared) = Some tid ↔ owns m l = true) as Hself.
    { rewrite Htid. split; [intros (l0 & Hl0 & ?); congruence|eauto]. }
    destruct (work_owner _ _ _ _ _ _ m E) as [[E1 ->]|[(E1 & E2 & E3 & ->)|(E1 & E2 & ->)]].
    + rewrite Hself, <- E1. split; [eauto|]. intros (l0 & [= ->] & ?). congruence.
    + split; [eauto|done].
    + split; [done|]. intros (l0 & [= ->] & ?). congruence.
  - rewrite list_lookup_insert_ne by done. rewrite <- Ht.
    destruct (work_owner _ _ _ _ _ _ m E) as [[E1 ->]|[(E1 & E2 & E3 & ->)|(E1 & E2 & ->)]]; [done|..].
    + rewrite E3. split; congruence.
    + split; [done|]. intros Ht'. destruct Htid as [_ Htid]. rewrite Htid in Ht' by eauto. congruence.
Qed.

Lemma deadlock1_finished_stops tid o g l : finished l = true → work tid o g l = None.
Proof. by destruct l as [w []]. Qed.

Lemma nothing_more (c : command (worker * stage)) : c ∈ [] → c = Forever ∨ ∃ i, c = Detach i.
Proof. by intros H%elem_of_nil. Qed.

Lemma deadlock1_inv_step p p' : inv p → step work finished p p' → inv p'.
Proof.
  intros Hp [tid o p1 E|p1 E].
  - apply thread_step_Some in E as (l & g' & l' & Hl & E & ->). split.
    + intros m t. by eapply inv_owner_step.
    + intros t lt [(-> & [= <-] & _)|[_ Hlt]]%list_lookup_insert_Some; [|by eapply i_worker].
      rewrite (work_worker _ _ _ _ _ _ E). by eapply i_worker.
    + destruct (i_main _ Hp) as [k Hk]. exists k.
      by eapply (forked_thread work finished _ _ _ deadlock1_finished_stops).
  - destruct (i_main _ Hp) as [k Hk].
    pose proof (forked_main _ _ _ _ nothing_more _ _ _ Hk E) as (Hk' & Hs & Ht).
    destruct p1 as [g1 t1 m1]; simpl in *. subst g1. destruct Hp as [Ho Hw _]. split; simpl; [..|by exists (S k)].
    + destruct Ht as [->|(_ & Hn & ->)]; [done|]. intros m t. rewrite (Ho m t).
      split; intros (l & Hl & Hown); exists l; (split; [|done]).
      * rewrite list_lookup_insert_ne; [done|]. intros ->. congruence.
      * apply list_lookup_insert_Some in Hl as [(-> & [= <-] & _)|[_ Hl]]; [by destruct m|done].
    + destruct Ht as [->|(_ & Hn & ->)]; [done|].
      intros t l [(-> & [= <-] & _)|[_ Hl]]%list_lookup_insert_Some; [done|by eapply Hw].
Qed.

Lemma deadlock1_inv_start : inv deadlock1_main.
Proof.
  split; [| |exists 0; apply forked_start].
  - intros m t. split; [by destruct m|]. by intros (l & [[=] _]%(lookup_replicate 2) & _).
  - by intros t l [[=] _]%(lookup_replicate 2).
Qed.

(** Each thread holds its first mutex and waits for the other's. *)
Definition embrace (p : pool data (worker * stage)) : Prop :=
  p.(threads) = [Some (WorkA, LockSecond); Some (WorkB, LockSecond)]
  ∧ p.(shared).(mutex1) = Some 0 ∧ p.(shared).(mutex2) = Some 1.

(** A thread that waits, waits for a mutex the other thread holds. *)
Lemma waiting p t l :
  inv p → p.(threads) !! t = Some (Some l) → finished l = false → work t 0 p.(shared) l = None →
  ∃ m u l', owns m l = false ∧ p.(threads) !! u = Some (Some l') ∧ owns m l' = true ∧ u ≠ t
    ∧ m = (if decide (l.2 = LockFirst) then first_of l.1 else second_of l.1)
    ∧ (l.2 = LockFirst ∨ l.2 = LockSecond).
Proof.
  intros Hp Hl Hf E.
  assert (∃ m, (∃ u, get m p.(shared) = Some u) ∧ owns m l = false
    ∧ m = (if decide (l.2 = LockFirst) then first_of l.1 else second_of l.1)
    ∧ (l.2 = LockFirst ∨ l.2 = LockSecond)) as (m & [u Hu] & Hown & Hm & Hst).
  { destruct l as [[] []]; simpl in E; try done; unfold lock in E; simpl in E;
      [exists Mutex1; destruct (mutex1 _) eqn:?|exists Mutex2; destruct (mutex2 _) eqn:?
      |exists Mutex2; destruct (mutex2 _) eqn:?|exists Mutex1; destruct (mutex1 _) eqn:?];
      try done; simpl; eauto 10. }
  exists m, u. pose proof Hu as Hu'. apply (i_owner _ Hp) in Hu as (l' & Hl' & Hown').
  exists l'. split_and!; try done. intros ->. congruence.
Qed.

Lemma stuck_embrace p :
  inv p → (∀ p', ¬ step work finished p p') → p.(main) ≠ [] → embrace p.
Proof.
  intros Hp Hstuck Hm. destruct (i_main _ Hp) as [k Hk].
  assert (∀ t l, p.(threads) !! t = Some (Some l) → work t 0 p.(shared) l = None) as Hno.
  { intros t l Hl. destruct (work t 0 p.(shared) l) as [[g' l']|] eqn:E; [|done].
    destruct (Hstuck (Pool g' (<[t := Some l']> p.(threads)) p.(main))). eapply (step_thread _ _ _ t 0).
    unfold thread_step. by rewrite Hl, E. }
  assert (main_step finished p = None) as Hmn.
  { destruct (main_step finished p) as [p'|] eqn:E; [|done]. by destruct (Hstuck p'); apply step_main. }
  destruct (forked_waits _ _ _ _ _ _ Hk Hmn) as [Hge|(i & l & Hi & Hl & Hf)].
  { destruct Hm. rewrite (fj_main _ _ _ _ _ _ Hk). by apply drop_ge. }
  destruct (waiting p i l Hp Hl Hf (Hno i l Hl)) as (m & u & l' & Ho & Hl' & Ho' & Hne & Hm' & Hst).
  pose proof (fj_len _ _ _ _ _ _ Hk) as Hlen.
  assert (u < 2) as Hu by (rewrite <- Hlen; by eapply lookup_lt_Some).
  assert (finished l' = false) as Hf' by by destruct l' as [? []], m.
  destruct (waiting p u l' Hp Hl' Hf' (Hno u l' Hl')) as (m' & v & l2 & Ho2 & Hl2 & Ho2' & Hne2 & Hm2 & Hst2).
  pose proof (i_worker _ Hp i l Hl) as Hwi. pose proof (i_worker _ Hp u l' Hl') as Hwu.
  assert (v = i) as ->.
  { assert (v < 2) by (rewrite <- Hlen; by eapply lookup_lt_Some). lia. }
  rewrite Hl in Hl2. injection Hl2 as <-.
  assert (get Mutex1 p.(shared) = Some 0 ∧ get Mutex2 p.(shared) = Some 1
    ∧ p.(threads) !! 0 = Some (Some (WorkA, LockSecond)) ∧ p.(threads) !! 1 = Some (Some (WorkB, LockSecond))) as (E1 & E2 & T0 & T1).
  { pose proof (i_owner _ Hp Mutex1 0) as O1. pose proof (i_owner _ Hp Mutex2 1) as O2.
    assert (i = 0 ∧ u = 1 ∨ i = 1 ∧ u = 0) as [[-> ->]|[-> ->]] by lia;
      destruct l as [w s], l' as [w' s']; simpl in Hwi, Hwu, Hst, Hst2; subst w w';
      destruct Hst as [->| ->], Hst2 as [->| ->]; simpl in *; subst m m'; try done;
      split_and!; try done; (apply O1 || apply O2); eauto. }
  split; [|done]. destruct (p.(threads)) as [|a [|b [|]]]; simpl in *; congruence.
Qed.

(** The two threads can block each other for ever, and this is the only
    way the program fails to end: a state with both threads waiting for the
    mutex of the other is reachable, no step leads out of it, and every
    reachable state without a step is that one or the end of [main]. *)
Theorem deadlock1_embrace :
  (∃ p, steps deadlock1_main p ∧ embrace p ∧ p.(shared).(out) = [])
  ∧ (∀ p p', steps deadlock1_main p → embrace p → p.(main) = join_all 2 → ¬ step work finished p p')
  ∧ (∀ p, steps deadlock1_main p → (∀ p', ¬ step work finished p p') → p.(main) = [] ∨ embrace p).
Proof.
  split_and!.
  - exists (run work finished [None; None; Some (0, 0%Z); Some (1, 0%Z); Some (0, 0%Z); Some (1, 0%Z)] deadlock1_main).
    split; [apply run_reachable|]. by vm_compute.
  - intros p p' _ (Ht & E1 & E2) Hm [tid o p1 E|p1 E].
    + apply thread_step_Some in E as (l & g' & l' & Hl & E & _). rewrite Ht in Hl.
      destruct tid as [|[|tid]]; simpl in Hl; simplify_eq; simpl in E; unfold lock in E; simpl in E;
        by rewrite ?E1, ?E2 in E.
    + unfold main_step in E. by rewrite Hm, Ht in E.
  - intros p H Hs. assert (inv p) as Hp.
    { eapply reachable_invariant; [exact H|apply deadlock1_inv_start|apply deadlock1_inv_step]. }
    destruct (p.(main)) as [|c r] eqn:Em; [by left|right]. apply stuck_embrace; [done|done|]. by rewrite Em.
Qed.
End Deadlock1.

(** ** rwlock.c *)
Module RwLock.

(** What was printed, in order: the numbers written and read. *)
Inductive entry := Wrote (tid : nat) (num : Z) | Read (tid : nat) (num : Z).

(** The lock: the writer that holds it, and the number of readers. *)
Record data := Data { num : Z; writer : option nat; readers : nat; log : list entry }.

(** The statements of [writeNum] and of [readNum]; [num++] is a load and a
    store; past [INT_MAX] the increment is undefined and has no step. *)
Inductive pc :=
| WLock | WLoad | WStore (v : Z) | WPrint | WUnlock | WSleep
| RLock | RPrint | RUnlock | RSleep.

Definition rdwr (tid : nat) (o : Z) (g : data) (l : pc) : option (data * pc) :=
  match l with
  | WLock =>
      match g.(writer), g.(readers) with
      | None, 0 => Some (Data g.(num) (Some tid) 0 g.(log), WLoad)
      | _, _ => None
      end
  | WLoad => Some (g, WStore g.(num))
  | WStore v =>
      if decide (v < 2147483647)%Z then Some (Data (v + 1) g.(writer) g.(readers) g.(log), WPrint) else None
  | WPrint => Some (Data g.(num) g.(writer) g.(readers) (g.(log) ++ [Wrote tid g.(num)]), WUnlock)
  | WUnlock => Some (Data g.(num) None g.(readers) g.(log), WSleep)
  | WSleep => Some (g, WLock)
  | RLock =>
      match g.(writer) with
      | None => Some (Data g.(num) None (S g.(readers)) g.(log), RPrint)
      | Some _ => None
      end
  | RPrint => Some (Data g.(num) g.(writer) g.(readers) (g.(log) ++ [Read tid g.(num)]), RUnlock)
  | RUnlock => Some (Data g.(num) g.(writer) (g.(readers) - 1) g.(log), RSleep)
  | RSleep => Some (g, RLock)
  end.

Definition finished (l : pc) : bool := false.

(** Three writers and five readers, detached. *)
Definition start_of (i : nat) : pc := if decide (i < 3) then WLock else RLock.
Definition rwlock_main : pool data pc :=
  Pool (Data 1 None 0 []) (replicate 8 None) (create_all 8 start_of ++ (detach_all 8 ++ [Forever])).

Definition steps := reachable rdwr finished.

(** *** The invariant *)

(** The log tells a sequential story from [n]: each write adds one, each read
    shows the last number written; the result is the number at the end. *)
Fixpoint story (n : Z) (log : list entry) : option Z :=
  match log with
  | [] => Some n
  | Wrote _ v :: log => if (v =? n + 1)%Z then story v log else None
  | Read _ v :: log => if (v =? n)%Z then story n log else None
  end.

Lemma story_snoc n log e m :
  story n log = Some m → story n (log ++ [e]) = story m [e].
Proof.
  revert n. induction log as [|[t v|t v] log IH]; intros n; simpl; [by intros [= ->]|..];
    case_match; try done; apply IH.
Qed.

Definition writing (l : pc) : bool := match l with WLoad | WStore _ | WPrint | WUnlock => true | _ => false end.
Definition reading (l : option pc) : bool := match l with Some RPrint | Some RUnlock => true | _ => false end.

(** The number of readers in a pool. *)
Definition count (ts : list (option pc)) : nat := length (filter (λ l, reading l = true) ts).

(** What the log must say, given what the writer is about. *)
Definition writer_ok (g : data) (l : pc) : Prop :=
  match l with
  | WStore v => story 1 g.(log) = Some g.(num) ∧ v = g.(num)
  | WPrint => story 1 g.(log) = Some (g.(num) - 1)%Z
  | _ => story 1 g.(log) = Some g.(num)
  end.

Record inv (p : pool data pc) : Prop := {
  i_readers : p.(shared).(readers) = count p.(threads);
  i_writer : ∀ t, p.(shared).(writer) = Some t → ∃ l, p.(threads) !! t = Some (Some l) ∧ writing l = true;
  i_alone : is_Some p.(shared).(writer) → p.(shared).(readers) = 0;
  i_writing : ∀ t l, p.(threads) !! t = Some (Some l) → writing l = true →
    p.(shared).(writer) = Some t ∧ writer_ok p.(shared) l;
  i_story : p.(shared).(writer) = None → story 1 p.(shared).(log) = Some p.(shared).(num)
}.

Lemma count_insert ts t l l' :
  ts !! t = Some l →
  count (<[t := l']> ts) + (if reading l then 1 else 0) = count ts + (if reading l' then 1 else 0).
Proof.
  unfold count. revert t. induction ts as [|x ts IH]; intros [|t] H; simpl in *; try done.
  - injection H as ->. rewrite !filter_cons. destruct (reading l), (reading l'); simpl; repeat case_decide; simpl; lia || done.
  - specialize (IH t H). rewrite !filter_cons. case_decide; simpl; lia.
Qed.

(** A step of a writer: it takes the lock, works under it or gives it back. *)
Lemma inv_writer p tid l g' l' :
  inv p → p.(threads) !! tid = Some (Some l) → reading (Some l) = false → reading (Some l') = false →
  p.(shared).(writer) = None ∧ p.(shared).(readers) = 0 ∨ p.(shared).(writer) = Some tid →
  g'.(readers) = p.(shared).(readers) → g'.(writer) = (if writing l' then Some tid else None) →
  (if writing l' then writer_ok g' l' else story 1 g'.(log) = Some g'.(num)) →
  inv (Pool g' (<[tid := Some l']> p.(threads)) p.(main)).
Proof.
  intros [Hr Hw Ha Hin Hs] Hl Hrl Hrl' Hm Hr' Hw' Hok. pose proof (lookup_lt_Some _ _ _ Hl) as Hlt.
  pose proof (count_insert _ _ _ (Some l') Hl) as Hc. rewrite Hrl, Hrl' in Hc.
  assert (p.(shared).(readers) = 0) as H0 by (destruct Hm as [[_ ?]|E]; [done|apply Ha; eauto]).
  split; cbn [Threads.shared threads].
  - lia.
  - intros t E. rewrite E in Hw'. destruct (writing l') eqn:Ei; [|done]. injection Hw' as ->.
    exists l'. split; [by apply list_lookup_insert_eq|done].
  - intros _. lia.
  - intros t lt [(-> & [= ->] & _)|[Hne Hlt']]%list_lookup_insert_Some Hi.
    + rewrite Hi in Hw', Hok. auto.
    + destruct (Hin t lt Hlt' Hi) as [E _]. destruct Hm as [[? _]|?]; congruence.
  - intros E. rewrite Hw' in E. by destruct (writing l').
Qed.

(** A step of a thread that does not write: with no writer about, or without
    touching the data. *)
Lemma inv_reader p tid l g' l' :
  inv p → p.(threads) !! tid = Some (Some l) → writing l = false → writing l' = false →
  g'.(readers) + (if reading (Some l) then 1 else 0) = p.(shared).(readers) + (if reading (Some l') then 1 else 0) →
  g' = p.(shared) ∨ p.(shared).(writer) = None ∧ g'.(writer) = None ∧ story 1 g'.(log) = Some g'.(num) →
  inv (Pool g' (<[tid := Some l']> p.(threads)) p.(main)).
Proof.
  intros [Hr Hw Ha Hin Hs] Hl Hwl Hwl' Hrd Hg. pose proof (lookup_lt_Some _ _ _ Hl) as Hlt.
  pose proof (count_insert _ _ _ (Some l') Hl) as Hc.
  split; cbn [Threads.shared threads].
  - lia.
  - intros t E. destruct Hg as [->|(_ & E' & _)]; [|congruence].
    destruct (Hw t E) as (lt & Hlt' & Hi). exists lt. split; [|done].
    rewrite list_lookup_insert_ne; [done|]. intros ->. congruence.
  - destruct Hg as [->|(_ & E' & _)]; [done|]. rewrite E'. by intros [? [=]].
  - intros t lt [(-> & [= ->] & _)|[Hne Hlt']]%list_lookup_insert_Some Hi; [congruence|].
    destruct (Hin t lt Hlt' Hi) as [E Hok]. destruct Hg as [->|(E' & _)]; [done|congruence].
  - destruct Hg as [->|(_ & _ & ?)]; [done|]. done.
Qed.

(** While a reader is inside there is no writer. *)
Lemma reader_alone p tid l :
  inv p → p.(threads) !! tid = Some (Some l) → reading (Some l) = true →
  p.(shared).(writer) = None ∧ 0 < p.(shared).(readers).
Proof.
  intros Hp Hl Hrl. pose proof (count_insert _ _ _ None Hl) as Hc. rewrite Hrl in Hc. simpl in Hc.
  rewrite <- (i_readers _ Hp) in Hc. split; [|lia].
  destruct (writer p.(shared)) eqn:E; [|done]. rewrite (i_alone _ Hp) in Hc by by rewrite E. lia.
Qed.

Lemma rwlock_inv_thread p tid o l g' l' :
  inv p → p.(threads) !! tid = Some (Some l) → rdwr tid o p.(shared) l = Some (g', l') →
  inv (Pool g' (<[tid := Some l']> p.(threads)) p.(main)).
Proof.
  intros Hp Hl E. pose proof (i_writing _ Hp tid l Hl) as Hin. pose proof (i_story _ Hp) as Hs.
  destruct l; simpl in E; simplify_eq.
  - destruct (writer (Threads.shared p)) eqn:Ew; [done|].
    destruct (readers (Threads.shared p)) eqn:Er; simplify_eq.
    eapply inv_writer; try done; [by left|]. simpl. by apply Hs.
  - destruct Hin as [Ew Hok]; [done|]. eapply inv_writer; try done. by right.
  - destruct Hin as [Ew [Hok ->]]; [done|]. case_decide; simplify_eq. eapply inv_writer; try done; [by right|].
    simpl. rewrite Hok. f_equal. lia.
  - destruct Hin as [Ew Hok]; [done|]. simpl in Hok. eapply inv_writer; try done; [by right|].
    simpl. rewrite (story_snoc _ _ _ _ Hok). simpl. by rewrite (proj2 (Z.eqb_eq _ _)) by lia.
  - destruct Hin as [Ew Hok]; [done|]. eapply inv_writer; try done. by right.
  - eapply inv_reader; try done. by left.
  - destruct (writer (Threads.shared p)) eqn:Ew; simplify_eq.
    eapply inv_reader; try done; [simpl; lia|]. right. split_and!; [done|done|by apply Hs].
  - destruct (reader_alone p tid RPrint) as [Ew _]; try done. rewrite Ew in *.
    eapply inv_reader; try done. right. split_and!; [done|done|].
    simpl. rewrite (story_snoc _ _ _ _ (Hs eq_refl)). simpl. by rewrite Z.eqb_refl.
  - destruct (reader_alone p tid RUnlock) as [Ew H0]; try done. rewrite Ew in *.
    eapply inv_reader; try done; [simpl; lia|]. right. split_and!; [done|done|by apply Hs].
  - eapply inv_reader; try done. by left.
Qed.

(** *** The program *)

Definition whole (p : pool data pc) : Prop := inv p ∧ starting (λ i e, e = start_of i) p.

Lemma whole_start : whole rwlock_main.
Proof.
  split.
  - split; simpl; try done; by intros t l [[=] _]%(lookup_replicate 8).
  - apply starting_spawn. intros c Hc. repeat (apply elem_of_cons in Hc as [->|Hc]; [done|]).
    by apply elem_of_nil in Hc.
Qed.

Lemma whole_step p p' : whole p → step rdwr finished p p' → whole p'.
Proof.
  intros [Hp Hst] [tid o p1 E|p1 E].
  - apply thread_step_Some in E as (l & g' & l' & Hl & E & ->).
    split; [by eapply rwlock_inv_thread|by eapply starting_thread].
  - pose proof (starting_main _ _ _ _ Hst E) as (Hst' & Hs & Ht). split; [|done].
    destruct p1 as [g1 t1 m1]; simpl in *. subst g1.
    destruct Ht as [->|(i & e & Hn & -> & ->)]; [by destruct Hp; split|].
    assert (writing (start_of i) = false ∧ reading (Some (start_of i)) = false) as [Hw Hr]
      by (unfold start_of; by case_decide).
    pose proof (count_insert _ _ _ (Some (start_of i)) Hn) as Hc. rewrite Hr in Hc. simpl in Hc.
    destruct Hp as [H1 H2 H3 H4 H5]. split; simpl; try done; [lia|..].
    + intros t E'. destruct (H2 t E') as (l & Hl & Hi). exists l. split; [|done].
      rewrite list_lookup_insert_ne; [done|]. intros ->. congruence.
    + intros t l [(-> & [= <-] & _)|[_ Hl]]%list_lookup_insert_Some Hi; [congruence|eauto].
Qed.

(** C28. Readers and writers, under every interleaving: a writer is alone
    under the lock; and the printed lines tell a sequential story: each write
    prints the number one above the last one written, each read prints the
    last number written. *)
Theorem rwlock_sequential p :
  steps rwlock_main p →
  is_Some (story 1 p.(shared).(log))
  ∧ (∀ t l, p.(threads) !! t = Some (Some l) → writing l = true →
       ∀ u l', p.(threads) !! u = Some (Some l') → u ≠ t → writing l' = false ∧ reading (Some l') = false).
Proof.
  intros H. assert (whole p) as [Hp _].
  { eapply reachable_invariant; [exact H|apply whole_start|apply whole_step]. }
  split.
  - destruct (writer p.(shared)) as [t|] eqn:Ew; [|rewrite (i_story _ Hp Ew); eauto].
    destruct (i_writer _ Hp t Ew) as (l & Hl & Hi). destruct (i_writing _ Hp t l Hl Hi) as [_ Hok].
    destruct l; simpl in Hok; try done; destruct_and?; by eexists.
  - intros t l Hl Hi u l' Hl' Hne. destruct (i_writing _ Hp t l Hl Hi) as [Ew _]. split.
    + destruct (writing l') eqn:E; [|done]. destruct (i_writing _ Hp u l' Hl' E). congruence.
    + destruct (reading (Some l')) eqn:E; [|done]. destruct (reader_alone p u l' Hp Hl' E). congruence.
Qed.

Definition sample : pool data pc :=
  run rdwr finished (replicate 8 None ++ concat (replicate 12 [Some (0, 0%Z); Some (3, 0%Z); Some (4, 0%Z)])) rwlock_main.

Lemma rwlock_sequential_witness :
  is_Some (story 1 sample.(shared).(log)) ∧ length sample.(shared).(log) = 4.
Proof. split; [apply (rwlock_sequential sample (run_reachable _ _ _ _))|by vm_compute]. Defined.
End RwLock.
