(* ===== verification/ProdCons.v ===== *)
(** * Producers and customers: lesson30

    produst.c (a linked list under a mutex), cond.c (customers wait on a
    condition variable) and semaphore.c (two semaphores bound the list).  The
    nodes live on a heap, so that a use of NULL or of a freed node shows: the
    thread that makes it crashes. *)
From S2P Require Import Prelude Threads.

(** [struct node] as [malloc] leaves it: [None] is an indeterminate member. *)
Record node := Node { num : option Z; next : option (option nat) }.

Inductive entry := Added (tid : nat) (num : Z) | Deleted (tid : nat) (num : Z).

(** The globals of the three programs, the heap and the output. *)
Record data := Data {
  heap : gmap nat node;
  head : option nat;
  mtx : mutex;
  cond : list nat  (* threads waiting on the condition variable *);
  psem : nat;
  csem : nat;
  log : list entry
}.

Definition set_heap (h : gmap nat node) (g : data) : data := Data h g.(head) g.(mtx) g.(cond) g.(psem) g.(csem) g.(log).
Definition set_head (x : option nat) (g : data) : data := Data g.(heap) x g.(mtx) g.(cond) g.(psem) g.(csem) g.(log).
Definition set_mtx (x : mutex) (g : data) : data := Data g.(heap) g.(head) x g.(cond) g.(psem) g.(csem) g.(log).
Definition set_cond (x : list nat) (g : data) : data := Data g.(heap) g.(head) g.(mtx) x g.(psem) g.(csem) g.(log).
Definition set_psem (x : nat) (g : data) : data := Data g.(heap) g.(head) g.(mtx) g.(cond) x g.(csem) g.(log).
Definition set_csem (x : nat) (g : data) : data := Data g.(heap) g.(head) g.(mtx) g.(cond) g.(psem) x g.(log).
Definition print (e : entry) (g : data) : data :=
  Data g.(heap) g.(head) g.(mtx) g.(cond) g.(psem) g.(csem) (g.(log) ++ [e]).

(** The statements of the producers and the customers, with their local
    pointers; [Crash] is undefined behaviour. *)
Inductive pc :=
| PWait | PLock | PMalloc | PNext (newnode : nat) | PHead (newnode : nat) | PNum (newnode : nat)
| PPrint (newnode : nat) | PSignal | PUnlock | PPost | PSleep
| CWait | CLock | CIf | CTmp | CAdvance (tmp : option nat) | CPrint (tmp : option nat) | CFree (tmp : option nat)
| CCondWait | CBlocked | CRelock | CUnlock | CPost | CSleep
| Crash.

Definition lock (tid : nat) (g : data) (l : pc) : option (data * pc) :=
  match g.(mtx) with None => Some (set_mtx (Some tid) g, l) | Some _ => None end.

(** The statements on the list, the same in the three programs; [pend] and
    [cend] are what follows them.  [malloc] succeeds; the input is the address it returns,
    or the value of [rand()]. *)
Definition list_step (pend cend : pc) (tid : nat) (o : Z) (g : data) (l : pc) : option (data * pc) :=
  match l with
  | PMalloc =>
      let a := Z.to_nat o in
      if decide (a ∈ dom g.(heap)) then None
      else Some (set_heap (<[a := Node None None]> g.(heap)) g, PNext a)
  | PNext a =>
      match g.(heap) !! a with
      | Some nd => Some (set_heap (<[a := Node nd.(num) (Some g.(head))]> g.(heap)) g, PHead a)
      | None => Some (g, Crash)
      end
  | PHead a => Some (set_head (Some a) g, PNum a)
  | PNum a =>
      match g.(heap) !! a with
      | Some nd => Some (set_heap (<[a := Node (Some (o mod 256)%Z) nd.(next)]> g.(heap)) g, PPrint a)
      | None => Some (g, Crash)
      end
  | PPrint a =>
      match g.(heap) !! a ≫= num with
      | Some v => Some (print (Added tid v) g, pend)
      | None => Some (g, Crash)
      end
  | CTmp => Some (g, CAdvance g.(head))
  | CAdvance tmp =>
      match g.(head) ≫= λ a, g.(heap) !! a ≫= next with
      | Some x => Some (set_head x g, CPrint tmp)
      | None => Some (g, Crash)
      end
  | CPrint tmp =>
      match tmp ≫= λ a, g.(heap) !! a ≫= num with
      | Some v => Some (print (Deleted tid v) g, CFree tmp)
      | None => Some (g, Crash)
      end
  | CFree tmp =>
      match tmp with
      | None => Some (g, cend)
      | Some a =>
          match g.(heap) !! a with
          | Some _ => Some (set_heap (delete a g.(heap)) g, cend)
          | None => Some (g, Crash)
          end
      end
  | _ => None
  end.

Definition unlock (g : data) (l : pc) : option (data * pc) := Some (set_mtx None g, l).

(** ** produst.c *)
Definition produst (tid : nat) (o : Z) (g : data) (l : pc) : option (data * pc) :=
  match l with
  | PLock => lock tid g PMalloc
  | PUnlock => unlock g PSleep
  | PSleep => Some (g, PLock)
  | CLock => lock tid g CIf
  | CIf => Some (g, if bool_decide (g.(head) = None) then CUnlock else CTmp)
  | CUnlock => unlock g CSleep
  | CSleep => Some (g, CLock)
  | _ => list_step PUnlock CUnlock tid o g l
  end.

(** ** cond.c *)

(** A signal wakes the first waiting thread, if there is one; a wait gives the
    mutex up, is woken (also spuriously, when the input is 1), and takes the
    mutex again. *)
Definition condvar (tid : nat) (o : Z) (g : data) (l : pc) : option (data * pc) :=
  match l with
  | PLock => lock tid g PMalloc
  | PSignal => Some (set_cond (tail g.(cond)) g, PUnlock)
  | PUnlock => unlock g PSleep
  | PSleep => Some (g, PLock)
  | CLock => lock tid g CIf
  | CIf => Some (g, if bool_decide (g.(head) = None) then CCondWait else CTmp)
  | CCondWait => Some (set_cond (g.(cond) ++ [tid]) (set_mtx None g), CBlocked)
  | CBlocked =>
      if decide (tid ∉ g.(cond)) then Some (g, CRelock)
      else if (o =? 1)%Z then Some (set_cond (filter (λ t, t ≠ tid) g.(cond)) g, CRelock) else None
  | CRelock => lock tid g CUnlock
  | CUnlock => unlock g CLock
  | _ => list_step PSignal CUnlock tid o g l
  end.

(** ** semaphore.c *)
Definition semaphore (tid : nat) (o : Z) (g : data) (l : pc) : option (data * pc) :=
  match l with
  | PWait => match g.(psem) with 0 => None | S n => Some (set_psem n g, PLock) end
  | PLock => lock tid g PMalloc
  | PUnlock => unlock g PPost
  | PPost => Some (set_csem (S g.(csem)) g, PSleep)
  | PSleep => Some (g, PWait)
  | CWait => match g.(csem) with 0 => None | S n => Some (set_csem n g, CLock) end
  | CLock => lock tid g CTmp
  | CUnlock => unlock g CPost
  | CPost => Some (set_psem (S g.(psem)) g, CWait)
  | _ => list_step PUnlock CUnlock tid o g l
  end.

(** ** The mains: five producers and five customers, detached *)

Definition finished (l : pc) : bool := false.

Definition commands (p c : pc) : list (command pc) :=
  create_all 10 (λ i, if Nat.even i then p else c) ++ (detach_all 10 ++ [Forever]).

Definition produst_main : pool data pc :=
  Pool (Data ∅ None None [] 0 0 []) (replicate 10 None) (commands PLock CLock).
Definition cond_main : pool data pc :=
  Pool (Data ∅ None None [] 0 0 []) (replicate 10 None) (commands PLock CLock).
Definition semaphore_main : pool data pc :=
  Pool (Data ∅ None None [] 8 0 []) (replicate 10 None) (commands PWait CWait).
