(* ===== verification/ProdConsProofs.v ===== *)
(** * The list of the producers and customers

    Whatever the interleaving, the list stays a list of live nodes, no thread
    touches NULL or a freed node, what is printed is a history of a stack, and
    the semaphores bound the number of nodes. *)
From S2P Require Import Prelude Threads ProdCons.

(** ** Linked lists on the heap *)

Fixpoint chain (h : gmap nat node) (p : option nat) (ids : list nat) : Prop :=
  match ids with
  | [] => p = None
  | a :: ids => p = Some a ∧ ∃ nd x, h !! a = Some nd ∧ nd.(next) = Some x ∧ chain h x ids
  end.

Lemma chain_insert h p ids a nd : a ∉ ids → chain h p ids → chain (<[a := nd]> h) p ids.
Proof.
  revert p. induction ids as [|b ids IH]; intros p; simpl; [done|].
  intros [Hne Ha]%not_elem_of_cons (-> & nd' & x & Hb & Hx & Hc). split; [done|].
  exists nd', x. rewrite lookup_insert_ne by done. auto.
Qed.

Lemma chain_delete h p ids a : a ∉ ids → chain h p ids → chain (delete a h) p ids.
Proof.
  revert p. induction ids as [|b ids IH]; intros p; simpl; [done|].
  intros [Hne Ha]%not_elem_of_cons (-> & nd' & x & Hb & Hx & Hc). split; [done|].
  exists nd', x. rewrite lookup_delete_ne by done. auto.
Qed.

(** The list is [ids], and the nodes of the heap are those of the list and
    the node [extra] a thread has in its hands. *)
Record linked (g : data) (ids : list nat) (extra : option nat) : Prop := {
  lk_nodup : NoDup ids;
  lk_chain : chain g.(heap) g.(head) ids;
  lk_dom : ∀ a, a ∈ dom g.(heap) ↔ a ∈ ids ∨ extra = Some a;
  lk_extra : ∀ a, extra = Some a → a ∉ ids
}.

(** The number in a node. *)
Definition value (g : data) (a : nat) : option Z := g.(heap) !! a ≫= num.

Definition values (g : data) (ids : list nat) (vs : list Z) : Prop := Forall2 (λ a v, value g a = Some v) ids vs.

(** What the output says is on the stack: [None] when it is no history of a
    stack. *)
Fixpoint stack (vs : list Z) (log : list entry) : option (list Z) :=
  match log with
  | [] => Some vs
  | Added _ v :: log => stack (v :: vs) log
  | Deleted _ v :: log =>
      match vs with
      | x :: vs => if (x =? v)%Z then stack vs log else None
      | [] => None
      end
  end.

Lemma stack_snoc vs log e vs' : stack vs log = Some vs' → stack vs (log ++ [e]) = stack vs' [e].
Proof.
  revert vs. induction log as [|[t v|t v] log IH]; intros vs; simpl; [by intros [= ->]|apply IH|].
  destruct vs as [|x vs]; [done|]. case_match; [apply IH|done].
Qed.

(** The list holds what the output says. *)
Definition agrees (g : data) (ids : list nat) : Prop :=
  ∃ vs, values g ids vs ∧ stack [] g.(log) = Some vs.

Definition settled (g : data) (ids : list nat) : Prop := linked g ids None ∧ agrees g ids.

(** The list as the holder of the mutex knows it. *)
Definition holder_ok (g : data) (ids : list nat) (l : pc) : Prop :=
  match l with
  | PNext a => linked g ids (Some a) ∧ agrees g ids
  | PHead a => linked g ids (Some a) ∧ agrees g ids ∧ g.(heap) !! a ≫= next = Some g.(head)
  | PNum a => linked g ids None ∧ ∃ r, ids = a :: r ∧ agrees g r
  | PPrint a => linked g ids None ∧ ∃ r v, ids = a :: r ∧ agrees g r ∧ value g a = Some v
  | CAdvance tmp => settled g ids ∧ tmp = g.(head)
  | CPrint tmp => ∃ a v vs, tmp = Some a ∧ linked g ids (Some a) ∧ value g a = Some v
      ∧ values g ids vs ∧ stack [] g.(log) = Some (v :: vs)
  | CFree tmp => ∃ a, tmp = Some a ∧ linked g ids (Some a) ∧ agrees g ids
  | Crash => False
  | _ => settled g ids
  end.

(** The nodes a thread answers for: those a producer has allocated and not yet
    announced, and the one a customer is entitled to. *)
Definition weight (l : pc) : nat :=
  match l with
  | PNext _ | PHead _ | PNum _ | PPrint _ | PSignal | PUnlock | PPost => 1
  | CLock | CTmp | CAdvance _ | CPrint _ | CFree _ => 1
  | _ => 0
  end.

Lemma values_insert g h ids vs :
  (∀ a, a ∈ ids → h !! a = g.(heap) !! a) → values g ids vs → values (set_heap h g) ids vs.
Proof.
  intros Hh Hv. induction Hv as [|a v ids vs E Hv IH]; [constructor|]. constructor.
  - unfold value in *. simpl. rewrite Hh; [done|by left].
  - apply IH. intros b Hb. apply Hh. by right.
Qed.

Lemma linked_None_size g ids : linked g ids None → 0 < size g.(heap) → ids ≠ [].
Proof.
  intros Hl Hs ->. assert (g.(heap) = ∅) as E.
  { apply map_empty. intros a. apply not_elem_of_dom. rewrite (lk_dom _ _ _ Hl).
    intros [?%elem_of_nil|[=]]; done. }
  rewrite E, map_size_empty in Hs. lia.
Qed.

(** Between [lock] and [unlock]. *)
Definition inside (l : pc) : bool :=
  match l with
  | PMalloc | PNext _ | PHead _ | PNum _ | PPrint _ | PSignal | PUnlock => true
  | CIf | CTmp | CAdvance _ | CPrint _ | CFree _ | CCondWait | CUnlock => true
  | _ => false
  end.

(** ** The statements on the list *)

(** What a statement on the list leaves alone, and the nodes it accounts for. *)
Record local (g g' : data) (l l' : pc) : Prop := {
  lo_mtx : g'.(mtx) = g.(mtx);
  lo_psem : g'.(psem) = g.(psem);
  lo_csem : g'.(csem) = g.(csem);
  lo_size : size g'.(heap) + weight l = size g.(heap) + weight l';
  lo_in : inside l' = true
}.

Lemma malloc_ok g ids a :
  settled g ids → a ∉ dom g.(heap) →
  let g' := set_heap (<[a := Node None None]> g.(heap)) g in
  holder_ok g' ids (PNext a) ∧ local g g' PMalloc (PNext a).
Proof.
  intros [[Hn Hc Hd He] (vs & Hv & Hs)] Ha g'.
  assert (a ∉ ids) as Hai by (intros Hi; apply Ha, Hd; by left).
  split; [split|].
  - split; simpl; [done|by apply chain_insert| |by intros ? [= <-]].
    intros b. rewrite dom_insert, elem_of_union, elem_of_singleton, Hd. naive_solver.
  - exists vs. split; [|done]. apply values_insert; [|done]. intros b Hb.
    rewrite lookup_insert_ne; [done|]. by intros ->.
  - split; try done. simpl. rewrite map_size_insert_None by by apply not_elem_of_dom. lia.
Qed.

(** A node outside the list is changed. *)
Lemma write_extra g ids a nd nd' :
  linked g ids (Some a) → agrees g ids → g.(heap) !! a = Some nd →
  let g' := set_heap (<[a := nd']> g.(heap)) g in
  linked g' ids (Some a) ∧ agrees g' ids ∧ size g'.(heap) = size g.(heap).
Proof.
  intros [Hn Hc Hd He] (vs & Hv & Hs) Ha g'. pose proof (He a eq_refl) as Hai. split_and!.
  - split; simpl; [done|by apply chain_insert| |done].
    intros b. rewrite dom_insert_lookup by by eexists. apply Hd.
  - exists vs. split; [|done]. apply values_insert; [|done]. intros b Hb.
    rewrite lookup_insert_ne; [done|]. by intros ->.
  - simpl. by rewrite map_size_insert_Some by by eexists.
Qed.

Lemma link_ok g ids a :
  linked g ids (Some a) → g.(heap) !! a ≫= next = Some g.(head) → linked (set_head (Some a) g) (a :: ids) None.
Proof.
  intros [Hn Hc Hd He] Hnx. split; simpl.
  - constructor; [by apply He|done].
  - destruct (g.(heap) !! a) as [nd|] eqn:E; [|done]. split; [done|]. by exists nd, g.(head).
  - intros b. rewrite Hd, elem_of_cons. naive_solver.
  - done.
Qed.

Lemma number_ok g a r v nd :
  linked g (a :: r) None → agrees g r → g.(heap) !! a = Some nd →
  let g' := set_heap (<[a := Node (Some v) nd.(next)]> g.(heap)) g in
  linked g' (a :: r) None ∧ agrees g' r ∧ value g' a = Some v ∧ size g'.(heap) = size g.(heap).
Proof.
  intros [Hn Hc Hd He] (vs & Hv & Hs) Ha g'. apply NoDup_cons in Hn as [Har Hn]. split_and!.
  - split; simpl; [by constructor| | |done].
    + destruct Hc as (-> & nd' & x & Hnd & Hx & Hc). rewrite Ha in Hnd. injection Hnd as <-.
      split; [done|]. eexists _, x. rewrite lookup_insert_eq. split; [done|]. split; [done|].
      by apply chain_insert.
    + intros b. rewrite dom_insert_lookup by by eexists. apply Hd.
  - exists vs. split; [|done]. apply values_insert; [|done]. intros b Hb.
    rewrite lookup_insert_ne; [done|]. by intros ->.
  - unfold value. simpl. by rewrite lookup_insert_eq.
  - simpl. by rewrite map_size_insert_Some by by eexists.
Qed.

(** The head is taken off the list. *)
Lemma advance_ok g ids :
  settled g ids → ids ≠ [] →
  ∃ a r v vs x, ids = a :: r ∧ g.(head) = Some a ∧ g.(heap) !! a ≫= next = Some x ∧ value g a = Some v
    ∧ linked (set_head x g) r (Some a) ∧ values g r vs ∧ stack [] g.(log) = Some (v :: vs).
Proof.
  intros [[Hn Hc Hd He] (vs & Hv & Hs)] Hne. destruct ids as [|a r]; [done|].
  apply NoDup_cons in Hn as [Har Hn]. destruct Hc as (Hh & nd & x & Hnd & Hx & Hc).
  inversion Hv as [|? v ? vs' Hva Hvr]; subst. exists a, r, v, vs', x.
  split_and!; try done; [by rewrite Hnd|]. split; simpl; try done.
  - intros b. rewrite Hd, elem_of_cons. naive_solver.
  - by intros b [= <-].
Qed.

Lemma free_ok g ids a :
  linked g ids (Some a) → agrees g ids →
  let g' := set_heap (delete a g.(heap)) g in
  settled g' ids ∧ S (size g'.(heap)) = size g.(heap) ∧ is_Some (g.(heap) !! a).
Proof.
  intros [Hn Hc Hd He] (vs & Hv & Hs) g'. pose proof (He a eq_refl) as Hai.
  assert (is_Some (g.(heap) !! a)) as [nd Hnd] by (apply elem_of_dom, Hd; by right).
  split_and!; [|simpl|by eexists].
  - split; [split; simpl; [done|by apply chain_delete| |done]|].
    + intros b. rewrite dom_delete, elem_of_difference, elem_of_singleton, Hd.
      split; [naive_solver|]. intros [Hb|[=]]. split; [by left|]. by intros ->.
    + exists vs. split; [|done]. apply values_insert; [|done]. intros b Hb.
      rewrite lookup_delete_ne; [done|]. by intros ->.
  - rewrite map_size_delete_Some by by eexists. assert (size (heap g) ≠ 0); [|lia].
    intros E. apply map_size_empty_inv in E. by rewrite E in Hnd.
Qed.

(** Printing changes neither heap nor list. *)
Lemma linked_print g ids x e : linked g ids x → linked (print e g) ids x.
Proof. intros []. by split. Qed.

Lemma list_step_ok pend tid o g ids l g' l' :
  holder_ok g ids l → (∀ tmp, l = CAdvance tmp → ids ≠ []) → pend = PUnlock ∨ pend = PSignal →
  list_step pend CUnlock tid o g l = Some (g', l') →
  ∃ ids', holder_ok g' ids' l' ∧ local g g' l l'.
Proof.
  intros H Hadv Hp E. destruct l; simpl in H, E; try done.
  - case_decide as Ha; [done|]. simplify_eq. exists ids. by apply malloc_ok.
  - destruct H as [Hl Ha]. destruct (heap g !! newnode) as [nd|] eqn:En; simplify_eq.
    2:{ apply not_elem_of_dom in En. destruct En. apply (lk_dom _ _ _ Hl). by right. }
    destruct (write_extra g ids newnode nd (Node (num nd) (Some (head g))) Hl Ha En) as (H1 & H2 & H3).
    exists ids. split; [|by split; try done; simpl in *; rewrite H3]. split_and!; [done|done|].
    simpl. by rewrite lookup_insert_eq.
  - destruct H as (Hl & Ha & Hn). simplify_eq. exists (newnode :: ids). split; [|by split].
    split; [by apply link_ok|]. exists ids. split; [done|]. done.
  - destruct H as (Hl & r & -> & Ha). destruct (heap g !! newnode) as [nd|] eqn:En; simplify_eq.
    2:{ apply not_elem_of_dom in En. destruct En. apply (lk_dom _ _ _ Hl). left. by left. }
    destruct (number_ok g newnode r (o mod 256) nd Hl Ha En) as (H1 & H2 & H3 & H4).
    exists (newnode :: r). split; [|by split; try done; simpl in *; rewrite H4].
    split; [done|]. by exists r, (o mod 256)%Z.
  - destruct H as (Hl & r & v & -> & (vs & Hv & Hs) & Hva). unfold value in Hva. rewrite Hva in E. simplify_eq.
    exists (newnode :: r). split; [|by destruct Hp as [-> | ->]].
    assert (settled (print (Added tid v) g) (newnode :: r)) as Hset; [|by destruct Hp as [-> | ->]].
    split; [by apply linked_print|]. exists (v :: vs). split; [by constructor|].
    simpl. by rewrite (stack_snoc _ _ _ _ Hs).
  - simplify_eq. exists ids. by split; [|split].
  - destruct H as [Hs ->]. destruct (advance_ok g ids Hs) as (a & r & v & vs & x & -> & Hh & Hx & Hva & Hl & Hvs & Hst);
      [by eapply Hadv|]. rewrite Hh in E. simpl in E. rewrite Hx in E. simplify_eq.
    exists r. split; [|by split]. exists a, v, vs. split_and!; try done.
  - destruct H as (a & v & vs & -> & Hl & Hva & Hvs & Hst). simpl in E. unfold value in Hva.
    rewrite Hva in E. simplify_eq. exists ids. split; [|by split]. exists a. split_and!; [done|by apply linked_print|].
    exists vs. split; [done|]. simpl. rewrite (stack_snoc _ _ _ _ Hst). simpl. by rewrite Z.eqb_refl.
  - destruct H as (a & -> & Hl & Ha). destruct (free_ok g ids a Hl Ha) as (Hs & Hsz & [nd Hnd]).
    rewrite Hnd in E. simplify_eq. exists ids. split; [done|]. split; try done. simpl in *. lia.
Qed.

(** ** The pool *)

Record safe (ids : list nat) (p : pool data pc) : Prop := {
  s_free : p.(shared).(mtx) = None → settled p.(shared) ids;
  s_held : ∀ t, p.(shared).(mtx) = Some t → ∃ l, p.(threads) !! t = Some (Some l) ∧ inside l = true;
  s_in : ∀ t l, p.(threads) !! t = Some (Some l) → inside l = true →
    p.(shared).(mtx) = Some t ∧ holder_ok p.(shared) ids l;
  s_alive : ∀ t, p.(threads) !! t ≠ Some (Some Crash)
}.

(** The holder of the mutex works, or the mutex changes hands. *)
Lemma safe_holder ids ids' p tid l g' l' :
  safe ids p → p.(threads) !! tid = Some (Some l) →
  p.(shared).(mtx) = None ∨ p.(shared).(mtx) = Some tid →
  g'.(mtx) = (if inside l' then Some tid else None) → holder_ok g' ids' l' →
  (inside l' = false → settled g' ids') →
  safe ids' (Pool g' (<[tid := Some l']> p.(threads)) p.(main)).
Proof.
  intros [Hf Hh Hi Ha] Hl Hm Hm' Hok Hset. pose proof (lookup_lt_Some _ _ _ Hl) as Hlt.
  split; cbn [Threads.shared threads].
  - intros E. apply Hset. rewrite Hm' in E. by destruct (inside l').
  - intros t E. rewrite Hm' in E. destruct (inside l') eqn:Ei; [|done]. injection E as <-.
    exists l'. split; [by apply list_lookup_insert_eq|done].
  - intros t lt [(-> & [= ->] & _)|[Hne Hlt']]%list_lookup_insert_Some Hin.
    + rewrite Hin in Hm'. done.
    + destruct (Hi t lt Hlt' Hin) as [E _]. destruct Hm; congruence.
  - intros t [(_ & [= ->] & _)|[_ H]]%list_lookup_insert_Some; [done|by eapply Ha].
Qed.

(** What [holder_ok] says is about heap, head and output. *)
Definition same_list (g g' : data) : Prop := g'.(heap) = g.(heap) ∧ g'.(head) = g.(head) ∧ g'.(log) = g.(log).

Lemma linked_same g g' ids x : same_list g g' → linked g ids x → linked g' ids x.
Proof. intros (E1 & E2 & _) [H1 H2 H3 H4]. split; rewrite ?E1, ?E2; done. Qed.

Lemma values_same g g' ids vs : same_list g g' → values g ids vs → values g' ids vs.
Proof. intros (E1 & _ & _). unfold values, value. by rewrite E1. Qed.

Lemma agrees_same g g' ids : same_list g g' → agrees g ids → agrees g' ids.
Proof. intros E (vs & Hv & Hs). exists vs. split; [by eapply values_same|]. by destruct E as (_ & _ & ->). Qed.

Lemma holder_same g g' ids l : same_list g g' → holder_ok g ids l → holder_ok g' ids l.
Proof.
  intros E. pose proof E as (E1 & E2 & E3).
  destruct l; simpl; unfold settled, value; rewrite ?E1, ?E2, ?E3;
    naive_solver eauto using linked_same, agrees_same, values_same.
Qed.

(** A thread outside acts on what the list does not depend on. *)
Lemma safe_outside ids p tid l g' l' :
  safe ids p → p.(threads) !! tid = Some (Some l) → inside l = false → inside l' = false → l' ≠ Crash →
  same_list p.(shared) g' → g'.(mtx) = p.(shared).(mtx) →
  safe ids (Pool g' (<[tid := Some l']> p.(threads)) p.(main)).
Proof.
  intros [Hf Hh Hi Ha] Hl Ho Ho' Hnc Hs Hm. pose proof (lookup_lt_Some _ _ _ Hl) as Hlt.
  split; cbn [Threads.shared threads]; rewrite ?Hm.
  - intros E. destruct (Hf E). split; [by eapply linked_same|by eapply agrees_same].
  - intros t E. destruct (Hh t E) as (lt & Hlt' & Hin). exists lt. split; [|done].
    rewrite list_lookup_insert_ne; [done|]. intros ->. congruence.
  - intros t lt [(-> & [= ->] & _)|[Hne Hlt']]%list_lookup_insert_Some Hin; [congruence|].
    destruct (Hi t lt Hlt' Hin) as [E Hok]. split; [done|]. by eapply holder_same.
  - intros t [(_ & [= ->] & _)|[_ H]]%list_lookup_insert_Some; [done|by eapply Ha].
Qed.

Lemma safe_create ids p tid e ms :
  safe ids p → p.(threads) !! tid = Some None → inside e = false → e ≠ Crash →
  safe ids (Pool p.(shared) (<[tid := Some e]> p.(threads)) ms).
Proof.
  intros [Hf Hh Hi Ha] Hl Ho Hnc. split; cbn [Threads.shared threads].
  - done.
  - intros t E. destruct (Hh t E) as (lt & Hlt' & Hin). exists lt. split; [|done].
    rewrite list_lookup_insert_ne; [done|]. intros ->. congruence.
  - intros t lt [(-> & [= <-] & _)|[Hne Hlt']]%list_lookup_insert_Some Hin; [congruence|by apply Hi].
  - intros t [(_ & [= ->] & _)|[_ H]]%list_lookup_insert_Some; [done|by eapply Ha].
Qed.

Lemma safe_history ids p : safe ids p → is_Some (stack [] p.(shared).(log)).
Proof.
  intros Hs.
  assert (∀ r, agrees p.(shared) r → is_Some (stack [] p.(shared).(log))) as A by (intros r (vs & _ & ->); eauto).
  destruct (p.(shared).(mtx)) as [t|] eqn:Em; [|destruct (s_free _ _ Hs Em); eauto].
  destruct (s_held _ _ Hs t Em) as (l & Hl & Hi). destruct (s_in _ _ Hs t l Hl Hi) as [_ Hok].
  destruct l; simpl in Hok; try done; try (destruct Hok as [_ Ha]; by eapply A).
  - destruct Hok as (_ & Ha & _). by eapply A.
  - destruct Hok as (_ & r & _ & Ha). by eapply A.
  - destruct Hok as (_ & r & v & _ & Ha & _). by eapply A.
  - destruct Hok as ([_ Ha] & _). by eapply A.
  - destruct Hok as (a & v & vs & _ & _ & _ & _ & ->). eauto.
  - destruct Hok as (a & _ & _ & Ha). by eapply A.
Qed.

(** A statement on the list, in any of the programs. *)
Lemma safe_list pend ids p tid o l g' l' :
  safe ids p → p.(threads) !! tid = Some (Some l) → (∀ tmp, l = CAdvance tmp → ids ≠ []) →
  pend = PUnlock ∨ pend = PSignal → list_step pend CUnlock tid o p.(shared) l = Some (g', l') →
  ∃ ids', safe ids' (Pool g' (<[tid := Some l']> p.(threads)) p.(main)) ∧ local p.(shared) g' l l'
    ∧ inside l = true.
Proof.
  intros Hs Hl Hadv Hp E.
  assert (inside l = true) as Hi by by destruct l.
  destruct (s_in _ _ Hs tid l Hl Hi) as [Hm Hok].
  destruct (list_step_ok pend tid o p.(shared) ids l g' l' Hok Hadv Hp E) as (ids' & Hok' & Hlo).
  exists ids'. split_and!; [|done|done]. eapply safe_holder; [done|done|by right| |done|].
  - by rewrite (lo_mtx _ _ _ _ Hlo), (lo_in _ _ _ _ Hlo).
  - by rewrite (lo_in _ _ _ _ Hlo).
Qed.

(** Taking and giving back the mutex. *)
Lemma safe_lock ids p tid l l' g' :
  safe ids p → p.(threads) !! tid = Some (Some l) → lock tid p.(shared) l' = Some (g', l') →
  inside l' = true → (∀ g, settled g ids → holder_ok g ids l') →
  safe ids (Pool g' (<[tid := Some l']> p.(threads)) p.(main))
  ∧ g' = set_mtx (Some tid) p.(shared) ∧ p.(shared).(mtx) = None.
Proof.
  intros Hs Hl E Hi Hok. unfold lock in E. destruct (p.(shared).(mtx)) eqn:Em; simplify_eq.
  split; [|done]. pose proof (s_free _ _ Hs Em) as [Hlk Hag].
  assert (settled (set_mtx (Some tid) p.(shared)) ids) as Hset.
  { split; [by apply (linked_same p.(shared))|by apply (agrees_same p.(shared))]. }
  eapply safe_holder; [done|done|by left|by rewrite Hi|by apply Hok|by rewrite Hi].
Qed.

Lemma safe_unlock ids p tid l l' g' :
  safe ids p → p.(threads) !! tid = Some (Some l) → inside l = true → inside l' = false → l' ≠ Crash →
  holder_ok p.(shared) ids l = settled p.(shared) ids →
  same_list p.(shared) g' → g'.(mtx) = None →
  safe ids (Pool g' (<[tid := Some l']> p.(threads)) p.(main)).
Proof.
  intros Hs Hl Hi Hi' Hnc Hok Hsame Hm. destruct (s_in _ _ Hs tid l Hl Hi) as [Em Hh].
  rewrite Hok in Hh. destruct Hh as [Hlk Hag].
  assert (settled g' ids) as Hset by (split; [by eapply linked_same|by eapply agrees_same]).
  eapply safe_holder; [done|done|by right|by rewrite Hi'| |done]. by destruct l'.
Qed.

(** ** produst.c and cond.c: the customers look before they take *)

Definition looked (g : data) (l : pc) : Prop := match l with CTmp | CAdvance _ => g.(head) ≠ None | _ => True end.

Definition inv (p : pool data pc) : Prop :=
  ∃ ids, safe ids p ∧ ∀ t l, p.(threads) !! t = Some (Some l) → looked p.(shared) l.

Lemma looked_update ids ids' p tid g' l l' :
  safe ids p → (∀ t l, p.(threads) !! t = Some (Some l) → looked p.(shared) l) →
  p.(threads) !! tid = Some (Some l) →
  safe ids' (Pool g' (<[tid := Some l']> p.(threads)) p.(main)) → looked g' l' →
  g'.(head) = p.(shared).(head) ∨ inside l = true →
  inv (Pool g' (<[tid := Some l']> p.(threads)) p.(main)).
Proof.
  intros Hs Hk Hl Hs' Hl' Hh. exists ids'. split; [done|]. cbn [Threads.shared threads].
  intros t lt [(-> & [= ->] & _)|[Hne Hlt]]%list_lookup_insert_Some; [done|].
  destruct Hh as [E|Hi].
  - specialize (Hk t lt Hlt). destruct lt; simpl in *; congruence.
  - destruct (s_in _ _ Hs tid l Hl Hi) as [Em _].
    destruct (inside lt) eqn:Eit; [|by destruct lt].
    destruct (s_in _ _ Hs t lt Hlt Eit). congruence.
Qed.

Lemma inv_list pend ids p tid o l g' l' :
  safe ids p → (∀ t l, p.(threads) !! t = Some (Some l) → looked p.(shared) l) →
  p.(threads) !! tid = Some (Some l) → pend = PUnlock ∨ pend = PSignal →
  list_step pend CUnlock tid o p.(shared) l = Some (g', l') →
  inv (Pool g' (<[tid := Some l']> p.(threads)) p.(main)).
Proof.
  intros Hs Hk Hl Hp E. pose proof (Hk tid l Hl) as Hlk.
  destruct (safe_list pend ids p tid o l g' l' Hs Hl) as (ids' & Hs' & Hlo & Hi); try done.
  { intros tmp -> ->. destruct (s_in _ _ Hs tid _ Hl eq_refl) as [_ [[Hll _] _]].
    by apply (lk_chain _ _ _) in Hll. }
  eapply looked_update; try done; [|by right].
  destruct l; simpl in E; repeat case_match; simplify_eq; try done; by destruct Hp as [-> | ->].
Qed.

(** The mutex is taken to look, or to allocate. *)
Lemma inv_lock ids p tid l l' g' :
  safe ids p → (∀ t l, p.(threads) !! t = Some (Some l) → looked p.(shared) l) →
  p.(threads) !! tid = Some (Some l) → l' = PMalloc ∨ l' = CIf ∨ l' = CUnlock →
  lock tid p.(shared) l' = Some (g', l') →
  inv (Pool g' (<[tid := Some l']> p.(threads)) p.(main)).
Proof.
  intros Hs Hk Hl Hl' E.
  destruct (safe_lock ids p tid l l' g' Hs Hl E) as (Hs' & -> & _); [by destruct Hl' as [->|[->| ->]]..|].
  eapply looked_update; try done; [by destruct Hl' as [->|[->| ->]]|by left].
Qed.

Lemma lock_pc tid g l0 g' l' : lock tid g l0 = Some (g', l') → l' = l0.
Proof. unfold lock. case_match; congruence. Qed.

(** The mutex is given back, or the thread waits without it. *)
Lemma inv_unlock ids p tid l l' g' :
  safe ids p → (∀ t l, p.(threads) !! t = Some (Some l) → looked p.(shared) l) →
  p.(threads) !! tid = Some (Some l) → l = PUnlock ∨ l = CUnlock ∨ l = CCondWait →
  inside l' = false → l' ≠ Crash → same_list p.(shared) g' → g'.(mtx) = None →
  inv (Pool g' (<[tid := Some l']> p.(threads)) p.(main)).
Proof.
  intros Hs Hk Hl Hu Hi Hnc Hsame Hm. eapply looked_update; [done|done|done| | |].
  - eapply safe_unlock; try done; by destruct Hu as [->|[->| ->]].
  - by destruct l'.
  - right. by destruct Hu as [->|[->| ->]].
Qed.

Lemma inv_outside ids p tid l l' g' :
  safe ids p → (∀ t l, p.(threads) !! t = Some (Some l) → looked p.(shared) l) →
  p.(threads) !! tid = Some (Some l) → inside l = false → inside l' = false → l' ≠ Crash →
  same_list p.(shared) g' → g'.(mtx) = p.(shared).(mtx) →
  inv (Pool g' (<[tid := Some l']> p.(threads)) p.(main)).
Proof.
  intros Hs Hk Hl Hi Hi' Hnc Hsame Hm. eapply looked_update; [done|done|done|by eapply safe_outside|by destruct l'|].
  left. by destruct Hsame as (_ & -> & _).
Qed.

(** A customer looks at the head. *)
Lemma inv_if ids p tid other :
  safe ids p → (∀ t l, p.(threads) !! t = Some (Some l) → looked p.(shared) l) →
  p.(threads) !! tid = Some (Some CIf) → other = CUnlock ∨ other = CCondWait →
  inv (Pool p.(shared) (<[tid := Some (if bool_decide (p.(shared).(head) = None) then other else CTmp)]>
    p.(threads)) p.(main)).
Proof.
  intros Hs Hk Hl Ho. destruct (s_in _ _ Hs tid _ Hl eq_refl) as [Em Hok].
  eapply looked_update; try done; [| |by right].
  - eapply safe_holder; try done; [by right|..];
      case_bool_decide; try done; by destruct Ho as [-> | ->].
  - case_bool_decide; [by destruct Ho as [-> | ->]|done].
Qed.

Lemma produst_inv p tid o l g' l' :
  inv p → p.(threads) !! tid = Some (Some l) → produst tid o p.(shared) l = Some (g', l') →
  inv (Pool g' (<[tid := Some l']> p.(threads)) p.(main)).
Proof.
  intros (ids & Hs & Hk) Hl E.
  destruct l; simpl in E; try done; try (apply (inv_list PUnlock ids p tid o _ _ _ Hs Hk Hl); [by left|exact E]).
  - pose proof (lock_pc _ _ _ _ _ E) as ->. apply (inv_lock ids p tid _ _ _ Hs Hk Hl); auto.
  - unfold unlock in E. simplify_eq. apply (inv_unlock ids p tid _ _ _ Hs Hk Hl); auto; by split_and!.
  - simplify_eq. apply (inv_outside ids p tid _ _ _ Hs Hk Hl); auto; by split_and!.
  - pose proof (lock_pc _ _ _ _ _ E) as ->. apply (inv_lock ids p tid _ _ _ Hs Hk Hl); auto.
  - simplify_eq. apply (inv_if ids); auto.
  - unfold unlock in E. simplify_eq. apply (inv_unlock ids p tid _ _ _ Hs Hk Hl); auto; by split_and!.
  - simplify_eq. apply (inv_outside ids p tid _ _ _ Hs Hk Hl); auto; by split_and!.
Qed.

Lemma condvar_inv p tid o l g' l' :
  inv p → p.(threads) !! tid = Some (Some l) → condvar tid o p.(shared) l = Some (g', l') →
  inv (Pool g' (<[tid := Some l']> p.(threads)) p.(main)).
Proof.
  intros (ids & Hs & Hk) Hl E.
  destruct l; simpl in E; try done; try (apply (inv_list PSignal ids p tid o _ _ _ Hs Hk Hl); [by right|exact E]).
  - pose proof (lock_pc _ _ _ _ _ E) as ->. apply (inv_lock ids p tid _ _ _ Hs Hk Hl); auto.
  - simplify_eq. destruct (s_in _ _ Hs tid _ Hl eq_refl) as [Em Hok].
    eapply looked_update; try done; [|by left]. eapply (safe_holder ids ids); try done; [by right|].
    by eapply (holder_same p.(shared) _ _ PUnlock).
  - unfold unlock in E. simplify_eq. apply (inv_unlock ids p tid _ _ _ Hs Hk Hl); auto; by split_and!.
  - simplify_eq. apply (inv_outside ids p tid _ _ _ Hs Hk Hl); auto; by split_and!.
  - pose proof (lock_pc _ _ _ _ _ E) as ->. apply (inv_lock ids p tid _ _ _ Hs Hk Hl); auto.
  - simplify_eq. apply (inv_if ids); auto.
  - simplify_eq. apply (inv_unlock ids p tid _ _ _ Hs Hk Hl); auto; by split_and!.
  - repeat case_decide; repeat case_match; simplify_eq; apply (inv_outside ids p tid _ _ _ Hs Hk Hl); auto; by split_and!.
  - pose proof (lock_pc _ _ _ _ _ E) as ->. apply (inv_lock ids p tid _ _ _ Hs Hk Hl); auto.
  - unfold unlock in E. simplify_eq. apply (inv_unlock ids p tid _ _ _ Hs Hk Hl); auto; by split_and!.
Qed.

(** The start, and the creation of threads. *)
Definition origin (p c : pc) (i : nat) (e : pc) : Prop := e = if Nat.even i then p else c.

Lemma safe_start n ps ms : safe [] (Pool (Data ∅ None None [] ps 0 []) (replicate n None) ms).
Proof.
  split; simpl; [|done| |].
  - intros _. split; [|exists []; by split; [constructor|]].
    split; simpl; [constructor|done| |done]. intros a. rewrite dom_empty.
    split; [by intros ?%elem_of_empty|by intros [?%elem_of_nil|[=]]].
  - by intros t l [[=] _]%lookup_replicate.
  - by intros t [[=] _]%lookup_replicate.
Qed.

Lemma commands_start (g : data) p c :
  starting (origin p c) (Pool g (replicate 10 None) (commands p c)).
Proof.
  apply starting_spawn. intros x Hx. repeat (apply elem_of_cons in Hx as [->|Hx]; [done|]).
  by apply elem_of_nil in Hx.
Qed.

Lemma inv_create p i e ms :
  inv p → p.(threads) !! i = Some None → inside e = false → e ≠ Crash →
  inv (Pool p.(shared) (<[i := Some e]> p.(threads)) ms).
Proof.
  intros (ids & Hs & Hk) Hn Hi Hnc. exists ids. split; [by apply safe_create|]. simpl.
  intros t l [(-> & [= <-] & _)|[_ Hl]]%list_lookup_insert_Some; [by destruct e|by eapply Hk].
Qed.

Lemma inv_reachable exec p :
  (∀ p tid o l g' l', inv p → p.(threads) !! tid = Some (Some l) → exec tid o p.(shared) l = Some (g', l') →
     inv (Pool g' (<[tid := Some l']> p.(threads)) p.(main))) →
  reachable exec finished produst_main p → inv p.
Proof.
  intros Hstep H.
  cut (inv p ∧ starting (origin PLock CLock) p); [by intros [? _]|].
  apply (reachable_invariant exec finished (λ p, inv p ∧ starting (origin PLock CLock) p) produst_main p H).
  - split; [|apply commands_start]. exists []. split; [apply safe_start|].
    by intros t l [[=] _]%(lookup_replicate 10).
  - clear H p. intros p p' [Hp Hst] [tid o p1 E|p1 E].
    + apply thread_step_Some in E as (l & g' & l' & Hl & E & ->).
      split; [by eapply Hstep|by eapply starting_thread].
    + pose proof (starting_main _ _ _ _ Hst E) as (Hst' & Hs & Ht). split; [|done].
      destruct p1 as [g1 t1 m1]; simpl in *. subst g1.
      destruct Ht as [->|(i & e & Hn & He & ->)].
      * destruct Hp as (ids & [] & ?). by exists ids.
      * apply inv_create; [done|done|..]; unfold origin in He; by destruct (Nat.even i), e.
Qed.

(** C30. The list of produst.c and cond.c is never corrupted, under any
    interleaving of the ten threads: no thread uses NULL or a freed node or
    frees a node twice, and what the threads print is the history of a stack:
    a customer deletes exactly the number added last and not yet deleted. *)
Theorem list_never_corrupt p :
  reachable produst finished produst_main p ∨ reachable condvar finished cond_main p →
  (∀ t, p.(threads) !! t ≠ Some (Some Crash)) ∧ is_Some (stack [] p.(shared).(log)).
Proof.
  intros H. assert (inv p) as (ids & Hs & _).
  { destruct H as [H|H]; (eapply inv_reachable; [|exact H]); [apply produst_inv|apply condvar_inv]. }
  split; [apply Hs|by eapply safe_history].
Qed.

(** ** semaphore.c: the accounts of the semaphores *)

(** The permits a thread has taken and not yet given on. *)
Definition permit (l : pc) : nat :=
  match l with
  | PLock | PMalloc | PNext _ | PHead _ | PNum _ | PPrint _ | PSignal | PUnlock | PPost => 1
  | CLock | CIf | CTmp | CAdvance _ | CPrint _ | CFree _ | CCondWait | CUnlock | CPost => 1
  | _ => 0
  end.

Record bounded (p : pool data pc) : Prop := {
  b_nodes : size p.(shared).(heap) = p.(shared).(csem) + total weight p.(threads);
  b_permits : p.(shared).(psem) + p.(shared).(csem) + total permit p.(threads) = 8
}.

Definition sem_inv (p : pool data pc) : Prop := (∃ ids, safe ids p) ∧ bounded p.

(** A step keeps the accounts when it moves nodes and permits together. *)
Lemma bounded_update p tid l g' l' :
  bounded p → p.(threads) !! tid = Some (Some l) →
  size g'.(heap) + p.(shared).(csem) + weight l = size p.(shared).(heap) + g'.(csem) + weight l' →
  g'.(psem) + g'.(csem) + permit l' = p.(shared).(psem) + p.(shared).(csem) + permit l →
  bounded (Pool g' (<[tid := Some l']> p.(threads)) p.(main)).
Proof.
  intros [Hn Hp] Hl E1 E2.
  pose proof (total_insert weight _ _ _ (Some l') Hl) as Hw. simpl in Hw.
  pose proof (total_insert permit _ _ _ (Some l') Hl) as Hq. simpl in Hq.
  split; cbn [Threads.shared threads]; lia.
Qed.

(** A customer past its semaphore finds a node. *)
Lemma customer_finds ids p tid tmp :
  safe ids p → bounded p → p.(threads) !! tid = Some (Some (CAdvance tmp)) → ids ≠ [].
Proof.
  intros Hs [Hn _] Hl. destruct (s_in _ _ Hs tid _ Hl eq_refl) as [_ [[Hlk _] _]].
  apply (linked_None_size _ _ Hlk). rewrite Hn.
  pose proof (total_insert weight _ _ _ None Hl) as Hw. simpl in Hw. lia.
Qed.

Lemma sem_list p tid o l g' l' :
  sem_inv p → p.(threads) !! tid = Some (Some l) →
  list_step PUnlock CUnlock tid o p.(shared) l = Some (g', l') →
  sem_inv (Pool g' (<[tid := Some l']> p.(threads)) p.(main)).
Proof.
  intros [[ids Hs] Hb] Hl E.
  destruct (safe_list PUnlock ids p tid o l g' l' Hs Hl) as (ids' & Hs' & [_ H1 H2 H3 H4] & Hi); [|by left|done|].
  { intros tmp ->. by eapply customer_finds. }
  split; [by exists ids'|]. apply (bounded_update _ _ _ _ _ Hb Hl); [lia|].
  rewrite H1, H2. by destruct l, l'; simpl in *.
Qed.

Lemma sem_thread p tid o l g' l' :
  sem_inv p → p.(threads) !! tid = Some (Some l) → semaphore tid o p.(shared) l = Some (g', l') →
  sem_inv (Pool g' (<[tid := Some l']> p.(threads)) p.(main)).
Proof.
  intros Hp Hl E. pose proof Hp as [[ids Hs] Hb].
  destruct l; simpl in E; try done; try exact (sem_list _ _ o _ _ _ Hp Hl E).
  - destruct (psem p.(shared)) eqn:Eq; simplify_eq.
    split; [exists ids; by apply (safe_outside ids p tid _ _ _ Hs Hl)|].
    apply (bounded_update _ _ _ _ _ Hb Hl); simpl; lia.
  - pose proof (lock_pc _ _ _ _ _ E) as ->.
    destruct (safe_lock ids p tid _ _ _ Hs Hl E) as (Hs' & -> & _); [done|done|].
    split; [by exists ids|]. apply (bounded_update _ _ _ _ _ Hb Hl); simpl; lia.
  - unfold unlock in E. simplify_eq.
    split; [exists ids; by apply (safe_unlock ids p tid _ _ _ Hs Hl)|].
    apply (bounded_update _ _ _ _ _ Hb Hl); simpl; lia.
  - simplify_eq. split; [exists ids; by apply (safe_outside ids p tid _ _ _ Hs Hl)|].
    apply (bounded_update _ _ _ _ _ Hb Hl); simpl; lia.
  - simplify_eq. split; [exists ids; by apply (safe_outside ids p tid _ _ _ Hs Hl)|].
    apply (bounded_update _ _ _ _ _ Hb Hl); simpl; lia.
  - destruct (csem p.(shared)) eqn:Eq; simplify_eq.
    split; [exists ids; by apply (safe_outside ids p tid _ _ _ Hs Hl)|].
    apply (bounded_update _ _ _ _ _ Hb Hl); simpl; lia.
  - pose proof (lock_pc _ _ _ _ _ E) as ->.
    destruct (safe_lock ids p tid _ _ _ Hs Hl E) as (Hs' & -> & _); [done|done|].
    split; [by exists ids|]. apply (bounded_update _ _ _ _ _ Hb Hl); simpl; lia.
  - unfold unlock in E. simplify_eq.
    split; [exists ids; by apply (safe_unlock ids p tid _ _ _ Hs Hl)|].
    apply (bounded_update _ _ _ _ _ Hb Hl); simpl; lia.
  - simplify_eq. split; [exists ids; by apply (safe_outside ids p tid _ _ _ Hs Hl)|].
    apply (bounded_update _ _ _ _ _ Hb Hl); simpl; lia.
Qed.

Lemma sem_create p i e ms :
  sem_inv p → p.(threads) !! i = Some None → inside e = false → e ≠ Crash → weight e = 0 → permit e = 0 →
  sem_inv (Pool p.(shared) (<[i := Some e]> p.(threads)) ms).
Proof.
  intros [[ids Hs] [Hn Hp]] Hl Hi Hnc Hw Hq. split; [exists ids; by apply safe_create|].
  pose proof (total_insert weight _ _ _ (Some e) Hl) as E1. simpl in E1.
  pose proof (total_insert permit _ _ _ (Some e) Hl) as E2. simpl in E2.
  split; simpl; lia.
Qed.

Lemma sem_reachable p : reachable semaphore finished semaphore_main p → sem_inv p.
Proof.
  intros H. cut (sem_inv p ∧ starting (origin PWait CWait) p); [by intros [? _]|].
  apply (reachable_invariant semaphore finished (λ p, sem_inv p ∧ starting (origin PWait CWait) p)
    semaphore_main p H).
  - split; [|apply commands_start]. split; [exists []; apply safe_start|]. by split.
  - clear H p. intros p p' [Hp Hst] [tid o p1 E|p1 E].
    + apply thread_step_Some in E as (l & g' & l' & Hl & E & ->).
      split; [by eapply sem_thread|by eapply starting_thread].
    + pose proof (starting_main _ _ _ _ Hst E) as (Hst' & Hs & Ht). split; [|done].
      destruct p1 as [g1 t1 m1]; simpl in *. subst g1.
      destruct Ht as [->|(i & e & Hn & He & ->)].
      * destruct Hp as [[ids []] []]. split; [by exists ids|by split].
      * apply sem_create; [done|done|..]; unfold origin in He; by destruct (Nat.even i), e.
Qed.

(** C29. The semaphores of semaphore.c bound the list and make the customers'
    look unnecessary, under any interleaving: no thread ever uses NULL or a
    freed node although no customer tests the head, at most eight nodes are
    allocated, and the output is the history of a stack. *)
Theorem semaphore_bounds_list p :
  reachable semaphore finished semaphore_main p →
  (∀ t, p.(threads) !! t ≠ Some (Some Crash)) ∧ size p.(shared).(heap) ≤ 8
  ∧ is_Some (stack [] p.(shared).(log)).
Proof.
  intros H. apply sem_reachable in H as [[ids Hs] [Hn Hp]].
  split_and!; [apply Hs| |by eapply safe_history].
  assert (total weight p.(threads) ≤ total permit p.(threads)); [|lia].
  apply total_le. by intros []; simpl; lia.
Qed.

(** ** Witnesses *)

(** A producer adds a node and a customer takes it. *)
Definition turn_of (t n : nat) (o : Z) : list (option (nat * Z)) := replicate n (Some (t, o)).
Definition sample_produst : pool data pc :=
  run produst finished (replicate 10 None ++ turn_of 0 8 5 ++ turn_of 1 7 0) produst_main.
Definition sample_semaphore : pool data pc :=
  run semaphore finished (replicate 10 None ++ turn_of 1 3 0 ++ turn_of 0 9 7 ++ turn_of 1 7 0) semaphore_main.

Lemma list_never_corrupt_witness :
  is_Some (stack [] sample_produst.(shared).(log)) ∧ sample_produst.(shared).(log) = [Added 0 5; Deleted 1 5].
Proof.
  split; [|by vm_compute]. apply (list_never_corrupt sample_produst). left. apply run_reachable.
Defined.

Lemma semaphore_bounds_list_witness :
  size sample_semaphore.(shared).(heap) ≤ 8 ∧ sample_semaphore.(shared).(log) = [Added 0 7; Deleted 1 7].
Proof.
  split; [|by vm_compute]. apply (semaphore_bounds_list sample_semaphore). apply run_reachable.
Defined.
