(* ===== verification/ThreadPool.v ===== *)
(** * The thread pool of the web server: threadPool.h, locker.h, locker.cpp

    The pool is a queue of requests under a mutex, a semaphore that counts the
    requests, worker threads that run [run], and the threads that call
    [append]; the template parameter [T] is the type of requests, and [None]
    is [nullptr].  The ghost logs record what happened to the requests. *)
From S2P Require Import Prelude Threads.

(** ** locker.h *)
Module Locker.

(** The calls return [None] while they wait; the results [true] and [false]
    say whether the call of pthreads succeeded. *)
Definition lock (tid : nat) (m : mutex) : option (mutex * bool) :=
  match m with None => Some (Some tid, true) | Some _ => None end.
Definition unlock (m : mutex) : mutex * bool := (None, true).

Definition SEM_VALUE_MAX : Z := 2147483647.

Definition wait (s : Z) : option (Z * bool) := if (0 <? s)%Z then Some ((s - 1)%Z, true) else None.
Definition post (s : Z) : Z * bool := if (s <? SEM_VALUE_MAX)%Z then ((s + 1)%Z, true) else (s, false).
End Locker.

(** ** threadPool.h *)
Section threadPool.
Context {T : Type}.

Record data := Data {
  maxRequests : Z;
  workQueue : list (option T);
  queueLocker : mutex;
  queueStat : Z;
  stop : bool;
  (* the logs: requests accepted by [append], removed by [run], handed to
     [process], and the results of the calls of [append] *)
  accepted : list (option T);
  taken : list (option T);
  processed : list (nat * T);
  answers : list (option T * bool)
}.

Definition set_workQueue (q : list (option T)) (g : data) : data :=
  Data g.(maxRequests) q g.(queueLocker) g.(queueStat) g.(stop) g.(accepted) g.(taken) g.(processed) g.(answers).
Definition set_queueLocker (m : mutex) (g : data) : data :=
  Data g.(maxRequests) g.(workQueue) m g.(queueStat) g.(stop) g.(accepted) g.(taken) g.(processed) g.(answers).
Definition set_queueStat (s : Z) (g : data) : data :=
  Data g.(maxRequests) g.(workQueue) g.(queueLocker) s g.(stop) g.(accepted) g.(taken) g.(processed) g.(answers).
Definition set_stop (b : bool) (g : data) : data :=
  Data g.(maxRequests) g.(workQueue) g.(queueLocker) g.(queueStat) b g.(accepted) g.(taken) g.(processed) g.(answers).
Definition log_accepted (r : option T) (g : data) : data :=
  Data g.(maxRequests) g.(workQueue) g.(queueLocker) g.(queueStat) g.(stop) (g.(accepted) ++ [r]) g.(taken) g.(processed) g.(answers).
Definition log_taken (r : option T) (g : data) : data :=
  Data g.(maxRequests) g.(workQueue) g.(queueLocker) g.(queueStat) g.(stop) g.(accepted) (g.(taken) ++ [r]) g.(processed) g.(answers).
Definition log_processed (t : nat) (r : T) (g : data) : data :=
  Data g.(maxRequests) g.(workQueue) g.(queueLocker) g.(queueStat) g.(stop) g.(accepted) g.(taken) (g.(processed) ++ [(t, r)]) g.(answers).
Definition log_answer (r : option T) (b : bool) (g : data) : data :=
  Data g.(maxRequests) g.(workQueue) g.(queueLocker) g.(queueStat) g.(stop) g.(accepted) g.(taken) g.(processed) (g.(answers) ++ [(r, b)]).

(** The statements of [append(request)]; a caller goes on with the requests
    in [rest]. *)
Inductive append_pc := ALock | ASize | ARefuse | APush | AUnlock | APost.

(** The statements of [run]. *)
Inductive run_pc :=
| RWhile | RWait | RLock | REmpty | RContinue | RFront | RPop (request : option T)
| RUnlock (request : option T) | RNull (request : option T) | RProcess (request : T) | RReturn.

Inductive local :=
| Run (l : run_pc)
| Append (l : append_pc) (request : option T) (rest : list (option T))
| Idle.

(** The next call of [append], or none. *)
Definition call (rs : list (option T)) : local :=
  match rs with r :: rs => Append ALock r rs | [] => Idle end.

Definition append (tid : nat) (g : data) (l : append_pc) (request : option T) (rest : list (option T))
  : option (data * local) :=
  match l with
  | ALock =>
      match Locker.lock tid g.(queueLocker) with
      | Some (m, _) => Some (set_queueLocker m g, Append ASize request rest)
      | None => None
      end
  | ASize =>
      Some (g, Append (if (g.(maxRequests) <? Z.of_nat (length g.(workQueue)))%Z then ARefuse else APush) request rest)
  | ARefuse => Some (log_answer request false (set_queueLocker (Locker.unlock g.(queueLocker)).1 g), call rest)
  | APush => Some (log_accepted request (set_workQueue (g.(workQueue) ++ [request]) g), Append AUnlock request rest)
  | AUnlock => Some (set_queueLocker (Locker.unlock g.(queueLocker)).1 g, Append APost request rest)
  | APost => Some (log_answer request true (set_queueStat (Locker.post g.(queueStat)).1 g), call rest)
  end.

(** [run]; [front] and [pop_front] of an empty list are undefined, and have
    no step. *)
Definition run_step (tid : nat) (g : data) (l : run_pc) : option (data * run_pc) :=
  match l with
  | RWhile => Some (g, if g.(stop) then RReturn else RWait)
  | RWait =>
      match Locker.wait g.(queueStat) with
      | Some (s, _) => Some (set_queueStat s g, RLock)
      | None => None
      end
  | RLock =>
      match Locker.lock tid g.(queueLocker) with
      | Some (m, _) => Some (set_queueLocker m g, REmpty)
      | None => None
      end
  | REmpty => Some (g, match g.(workQueue) with [] => RContinue | _ => RFront end)
  | RContinue => Some (set_queueLocker (Locker.unlock g.(queueLocker)).1 g, RWhile)
  | RFront => match g.(workQueue) with r :: _ => Some (g, RPop r) | [] => None end
  | RPop r =>
      match g.(workQueue) with
      | _ :: q => Some (log_taken r (set_workQueue q g), RUnlock r)
      | [] => None
      end
  | RUnlock r => Some (set_queueLocker (Locker.unlock g.(queueLocker)).1 g, RNull r)
  | RNull r => Some (g, match r with None => RWhile | Some t => RProcess t end)
  | RProcess t => Some (log_processed tid t g, RWhile)
  | RReturn => None
  end.

Definition pool_step (tid : nat) (o : Z) (g : data) (l : local) : option (data * local) :=
  match l with
  | Run l => match run_step tid g l with Some (g, l) => Some (g, Run l) | None => None end
  | Append l r rs => append tid g l r rs
  | Idle => None
  end.

Definition finished (l : local) : bool := match l with Run RReturn | Idle => true | _ => false end.

(** [worker] calls [run] on the pool. *)
Definition worker : local := Run RWhile.

(** The constructor: [create i] and [detach i] are what pthreads answers for
    thread [i].  [None] is the exception thrown; otherwise the data of the
    pool and the threads started. *)
Definition threadPool (threadNumber maxRequests : Z) (create detach : nat → Z) : option (data * list (command local)) :=
  if ((threadNumber <=? 0) || (maxRequests <=? 0))%Z then None
  else
    let n := Z.to_nat threadNumber in
    if forallb (λ i, (create i =? 0) && (detach i =? 0))%Z (seq 0 n)
    then Some (Data maxRequests [] None 0 false [] [] [] [],
               flat_map (λ i, [Create i worker; Detach i]) (seq 0 n))
    else None.

(** The destructor, on the data the threads see. *)
Definition destroy (g : data) : data := set_stop true g.

(** A program with a pool: once it is constructed, callers append their
    requests. *)
Definition program (threadNumber maxRequests : Z) (callers : list (list (option T))) : option (pool data local) :=
  match threadPool threadNumber maxRequests (λ _, 0%Z) (λ _, 0%Z) with
  | Some (g, cs) =>
      let n := Z.to_nat threadNumber in
      Some (Pool g (replicate (n + length callers) None)
                 (cs ++ imap (λ i rs, Create (n + i) (call rs)) callers))
  | None => None
  end.
End threadPool.
Arguments data : clear implicits.
Arguments local : clear implicits.
Arguments run_pc : clear implicits.
