(* ===== verification/ThreadPoolProofs.v ===== *)
(** * The thread pool serves every request: proofs about ThreadPool *)
From S2P Require Import Prelude Threads ThreadPool.

Section proofs.
Context {T : Type}.
Abbreviation data := (ThreadPool.data T).
Abbreviation local := (ThreadPool.local T).
Implicit Types (p : pool data local) (l : local) (g : data).

(** Between [queueLocker.lock()] and [queueLocker.unlock()]. *)
Definition inside l : bool :=
  match l with
  | Run (REmpty | RContinue | RFront | RPop _ | RUnlock _) => true
  | Append (ASize | ARefuse | APush | AUnlock) _ _ => true
  | _ => false
  end.

(** What the holder of the mutex knows about the queue. *)
Definition holder_ok (max : Z) (q : list (option T)) l : Prop :=
  match l with
  | Run RContinue => False
  | Run RFront => q ≠ []
  | Run (RPop r) => ∃ q', q = r :: q'
  | Append ARefuse _ _ => (max < Z.of_nat (length q))%Z
  | Append APush _ _ => (Z.of_nat (length q) ≤ max)%Z
  | _ => True
  end.

(** The units of the semaphore a thread has taken before it removes a request,
    or owes after it added one. *)
Definition pend l : nat :=
  match l with
  | Run (RLock | REmpty | RFront | RPop _) => 1
  | Append (AUnlock | APost) _ _ => 1
  | _ => 0
  end.

(** The request a worker is about to process, and the one a caller is about
    to be told was accepted. *)
Definition flying l : option T :=
  match l with Run (RUnlock r | RNull r) => r | Run (RProcess t) => Some t | _ => None end.
Definition posting l : option (option T) :=
  match l with Append (AUnlock | APost) r _ => Some r | _ => None end.

Definition granted (a : list (option T * bool)) : list (option T) :=
  omap (λ x : option T * bool, if x.2 then Some x.1 else None) a.

Lemma granted_snoc a r b : granted (a ++ [(r, b)]) = granted a ++ (if b then [r] else []).
Proof. unfold granted. rewrite omap_app. simpl. by destruct b. Qed.

Record locked (max : Z) p : Prop := {
  l_held : ∀ t, p.(shared).(queueLocker) = Some t → ∃ l, p.(threads) !! t = Some (Some l) ∧ inside l = true;
  l_in : ∀ t l, p.(threads) !! t = Some (Some l) → inside l = true →
    p.(shared).(queueLocker) = Some t ∧ holder_ok max p.(shared).(workQueue) l
}.

Record accounts (max : Z) p : Prop := {
  a_max : p.(shared).(maxRequests) = max;
  a_stop : p.(shared).(stop) = false;
  a_bound : (Z.of_nat (length p.(shared).(workQueue)) ≤ max + 1)%Z;
  a_fifo : p.(shared).(accepted) = p.(shared).(taken) ++ p.(shared).(workQueue);
  a_sem : (0 ≤ p.(shared).(queueStat))%Z;
  a_count : (p.(shared).(queueStat) + Z.of_nat (total pend p.(threads)) = Z.of_nat (length p.(shared).(workQueue)))%Z;
  a_done : omap id p.(shared).(taken) ≡ₚ map snd p.(shared).(processed) ++ holdings flying p.(threads);
  a_told : p.(shared).(accepted) ≡ₚ granted p.(shared).(answers) ++ holdings posting p.(threads);
  a_runs : ∀ t, p.(threads) !! t ≠ Some (Some (Run RReturn))
}.

(** *** The mutex *)

Lemma locked_outside max p tid l g' l' :
  locked max p → p.(threads) !! tid = Some (Some l) → inside l = false → inside l' = false →
  g'.(queueLocker) = p.(shared).(queueLocker) → g'.(workQueue) = p.(shared).(workQueue) →
  locked max (Pool g' (<[tid := Some l']> p.(threads)) p.(main)).
Proof.
  intros [Hh Hi] Hl Hi1 Hi2 Em Eq. split; simpl; rewrite Em.
  - intros t Et. destruct (Hh t Et) as (k & Hk & Hki). exists k. split; [|done].
    rewrite list_lookup_insert_ne; [done|]. intros ->. congruence.
  - intros t k [(<- & [= <-] & _)|[_ Hk]]%list_lookup_insert_Some Hki; [congruence|]. rewrite Eq. eauto.
Qed.

(** The holder moves on under the mutex, or takes it. *)
Lemma locked_holder max p tid l g' l' :
  locked max p → p.(threads) !! tid = Some (Some l) →
  inside l = true ∨ p.(shared).(queueLocker) = None → g'.(queueLocker) = Some tid → inside l' = true →
  holder_ok max g'.(workQueue) l' →
  locked max (Pool g' (<[tid := Some l']> p.(threads)) p.(main)).
Proof.
  intros [Hh Hi] Hl Hor Em Hl' Hok. pose proof (lookup_lt_Some _ _ _ Hl) as Hlt.
  split; simpl; rewrite Em.
  - intros t [= <-]. exists l'. by rewrite list_lookup_insert_eq.
  - intros t k [(<- & [= <-] & _)|[Hne Hk]]%list_lookup_insert_Some Hki; [done|]. exfalso.
    destruct (Hi t k Hk Hki) as [Et _]. destruct Hor as [Hin|Hn]; [|congruence].
    destruct (Hi tid l Hl Hin). congruence.
Qed.

Lemma locked_unlock max p tid l g' l' :
  locked max p → p.(threads) !! tid = Some (Some l) → inside l = true → g'.(queueLocker) = None →
  inside l' = false → locked max (Pool g' (<[tid := Some l']> p.(threads)) p.(main)).
Proof.
  intros [Hh Hi] Hl Hin Em Hl'. split; simpl; rewrite Em; [done|].
  intros t k [(<- & [= <-] & _)|[Hne Hk]]%list_lookup_insert_Some Hki; [congruence|].
  destruct (Hi t k Hk Hki) as [Et _]. destruct (Hi tid l Hl Hin). congruence.
Qed.

(** *** The accounts *)

Lemma accounts_update max p tid l g' l' :
  accounts max p → p.(threads) !! tid = Some (Some l) →
  g'.(maxRequests) = p.(shared).(maxRequests) → g'.(stop) = p.(shared).(stop) →
  (Z.of_nat (length g'.(workQueue)) ≤ max + 1)%Z → (0 ≤ g'.(queueStat))%Z →
  g'.(accepted) = g'.(taken) ++ g'.(workQueue) →
  (g'.(queueStat) + Z.of_nat (pend l') + Z.of_nat (length p.(shared).(workQueue))
    = p.(shared).(queueStat) + Z.of_nat (pend l) + Z.of_nat (length g'.(workQueue)))%Z →
  omap id g'.(taken) ++ map snd p.(shared).(processed) ++ option_list (flying l)
    ≡ₚ omap id p.(shared).(taken) ++ map snd g'.(processed) ++ option_list (flying l') →
  g'.(accepted) ++ granted p.(shared).(answers) ++ option_list (posting l)
    ≡ₚ p.(shared).(accepted) ++ granted g'.(answers) ++ option_list (posting l') →
  l' ≠ Run RReturn →
  accounts max (Pool g' (<[tid := Some l']> p.(threads)) p.(main)).
Proof.
  intros [Hm Hs Hb Hf Hn Hc Hd Ht Hr] Hl Em Es Eb En Ef Ec Ed Et El.
  pose proof (total_insert pend _ _ _ (Some l') Hl) as Hp. simpl in Hp.
  pose proof (holdings_insert flying _ _ _ (Some l') Hl) as H1. simpl in H1.
  pose proof (holdings_insert posting _ _ _ (Some l') Hl) as H2. simpl in H2.
  split; simpl; [congruence|congruence|done|done|done|lia| | |].
  - exact (holdings_balance _ _ _ _ _ _ _ _ Hd H1 Ed).
  - exact (holdings_balance _ _ _ _ _ _ _ _ Ht H2 Et).
  - intros t [(<- & [= ?] & _)|[_ Hk]]%list_lookup_insert_Some; [done|by eapply Hr].
Qed.

(** *** The steps *)

Definition inv (max : Z) p : Prop := locked max p ∧ accounts max p.

(** A step that moves no request. *)
Lemma accounts_quiet max p tid l g' l' :
  accounts max p → p.(threads) !! tid = Some (Some l) →
  g' = p.(shared) ∨ (∃ m, g' = set_queueLocker m p.(shared)) →
  pend l' = pend l → flying l' = flying l → posting l' = posting l → l' ≠ Run RReturn →
  accounts max (Pool g' (<[tid := Some l']> p.(threads)) p.(main)).
Proof.
  intros Ha Hl Hg Ep Ef Eo Hne. pose proof Ha as [].
  destruct Hg as [->|[m ->]]; (eapply accounts_update; [done|exact Hl|..]; simpl; rewrite ?Ep, ?Ef, ?Eo; try done).
Qed.

Lemma call_plain rs :
  inside (call rs) = false ∧ pend (call rs) = 0 ∧ flying (call rs) = None ∧ posting (call rs) = None
  ∧ call rs ≠ Run RReturn.
Proof. by destruct rs. Qed.

(** A worker past the semaphore finds a request. *)
Lemma worker_finds max p tid l :
  accounts max p → p.(threads) !! tid = Some (Some l) → pend l = 1 → p.(shared).(workQueue) ≠ [].
Proof.
  intros Ha Hl Hp Hq. pose proof (a_count _ _ Ha) as Hc. rewrite Hq in Hc. simpl in Hc.
  pose proof (total_insert pend _ _ _ None Hl) as Ht. simpl in Ht. pose proof (a_sem _ _ Ha). lia.
Qed.

Lemma run_thread max p tid (l : run_pc T) g' (l' : run_pc T) :
  inv max p → p.(threads) !! tid = Some (Some (Run l)) → run_step tid p.(shared) l = Some (g', l') →
  inv max (Pool g' (<[tid := Some (Run l')]> p.(threads)) p.(main)).
Proof.
  intros [Hk Ha] Hl E. pose proof (l_in _ _ Hk tid _ Hl) as Hin. pose proof Ha as [].
  destruct l; simpl in E.
  - rewrite a_stop0 in E. simplify_eq.
    split; [by eapply locked_outside|by eapply accounts_quiet; eauto].
  - unfold Locker.wait in E. destruct (0 <? _)%Z eqn:Es; simplify_eq. apply Z.ltb_lt in Es.
    split; [by eapply locked_outside|]. eapply accounts_update; eauto; simpl; lia.
  - unfold Locker.lock in E. destruct (queueLocker _) eqn:Em; simplify_eq.
    split; [apply (locked_holder _ _ _ _ _ _ Hk Hl); [by right|done..]|eapply accounts_quiet; eauto].
  - destruct Hin as [Em _]; [done|]. destruct (workQueue _) as [|r q] eqn:Eq; simplify_eq.
    { by destruct (worker_finds _ _ _ _ Ha Hl). }
    split; [|eapply accounts_quiet; eauto]. apply (locked_holder _ _ _ _ _ _ Hk Hl); [by left|done|done|]. simpl. by rewrite Eq.
  - by destruct Hin.
  - destruct Hin as [Em _]; [done|]. destruct (workQueue _) as [|r q] eqn:Eq; simplify_eq.
    split; [|eapply accounts_quiet; eauto]. apply (locked_holder _ _ _ _ _ _ Hk Hl); [by left|done|done|]. simpl. rewrite Eq. by exists q.
  - destruct Hin as [Em [q Eq]]; [done|]. rewrite Eq in E. simplify_eq. rewrite Eq in *.
    split; [apply (locked_holder _ _ _ _ _ _ Hk Hl); [by left|done..]|]. eapply accounts_update; eauto; simpl in *; rewrite ?Eq; simpl; try lia.
    + rewrite a_fifo0. by rewrite <- app_assoc.
    + rewrite omap_app. simpl. rewrite app_nil_r. destruct request; simpl; [|by rewrite !app_nil_r].
      rewrite <- app_assoc. f_equiv. apply Permutation_app_comm.
  - simplify_eq. split; [by eapply locked_unlock|eapply accounts_quiet; eauto].
  - destruct request; simplify_eq; (split; [by eapply locked_outside|eapply accounts_quiet; eauto]).
  - simplify_eq. split; [by eapply locked_outside|]. eapply accounts_update; eauto; simpl; try done.
    rewrite map_app. simpl. by rewrite app_nil_r.
  - done.
Qed.

Lemma append_thread max p tid (l : append_pc) r rs g' l' :
  (max < Locker.SEM_VALUE_MAX)%Z → inv max p → p.(threads) !! tid = Some (Some (Append l r rs)) →
  append tid p.(shared) l r rs = Some (g', l') →
  inv max (Pool g' (<[tid := Some l']> p.(threads)) p.(main)).
Proof.
  intros Hmax [Hk Ha] Hl E. pose proof (l_in _ _ Hk tid _ Hl) as Hin. pose proof Ha as [].
  destruct (call_plain rs) as (Hc1 & Hc2 & Hc3 & Hc4 & Hc5). destruct l; simpl in E.
  - unfold Locker.lock in E. destruct (queueLocker _) eqn:Em; simplify_eq.
    split; [apply (locked_holder _ _ _ _ _ _ Hk Hl); [by right|done..]|eapply accounts_quiet; eauto].
  - destruct Hin as [Em _]; [done|]. destruct (_ <? _)%Z eqn:Es; simplify_eq;
      (split; [|eapply accounts_quiet; eauto]); (apply (locked_holder _ _ _ _ _ _ Hk Hl); [by left|done|done|]); simpl;
      [by apply Z.ltb_lt in Es|by apply Z.ltb_ge in Es].
  - simplify_eq. split; [by eapply locked_unlock|]. eapply accounts_update; eauto; simpl; rewrite ?Hc2, ?Hc3, ?Hc4; try done.
    rewrite granted_snoc. simpl. by rewrite !app_nil_r.
  - destruct Hin as [Em Hok]; [done|]. simplify_eq. simpl in Hok.
    split; [apply (locked_holder _ _ _ _ _ _ Hk Hl); [by left|done..]|]. eapply accounts_update; eauto; simpl; rewrite ?length_app; simpl; try lia; try done.
    + by rewrite a_fifo0, <- app_assoc.
    + rewrite app_nil_r, <- app_assoc. f_equiv. apply Permutation_app_comm.
  - simplify_eq. split; [by eapply locked_unlock|eapply accounts_quiet; eauto].
  - simplify_eq. split; [by eapply locked_outside|].
    pose proof (total_insert pend _ _ _ None Hl) as Ht. simpl in Ht.
    unfold Locker.post. rewrite (proj2 (Z.ltb_lt _ _)) by lia.
    eapply accounts_update; eauto; simpl; rewrite ?Hc2, ?Hc3, ?Hc4; try lia; try done.
    rewrite granted_snoc. simpl. by rewrite !app_nil_r.
Qed.

Lemma pool_thread max p tid o l g' l' :
  (max < Locker.SEM_VALUE_MAX)%Z → inv max p → p.(threads) !! tid = Some (Some l) →
  pool_step tid o p.(shared) l = Some (g', l') →
  inv max (Pool g' (<[tid := Some l']> p.(threads)) p.(main)).
Proof.
  intros Hmax Hp Hl E. destruct l as [l|l r rs|]; simpl in E; [|by eapply append_thread|done].
  destruct (run_step _ _ _) as [[g1 l1]|] eqn:E'; simplify_eq. by eapply run_thread.
Qed.

(** *** The program *)

Definition entry (n : nat) (i : nat) l : Prop := if decide (i < n) then l = worker else ∃ rs, l = call rs.

Definition plain (c : command local) : Prop := is_Some (created c) ∨ ∃ i, c = Detach i.

(** The whole invariant: the parts above, the threads to come, and the first
    worker. *)
Record whole (n : nat) (max : Z) p : Prop := {
  w_inv : inv max p;
  w_start : starting (entry n) p;
  w_plain : ∀ c, c ∈ p.(main) → plain c;
  w_some : 0 < n;
  w_first : (∃ e, Create 0 e ∈ p.(main)) ∨ ∃ s : run_pc T, p.(threads) !! 0 = Some (Some (Run s))
}.

Lemma pool_create max p i l ms :
  inv max p → p.(threads) !! i = Some None → (∃ n, entry n i l) →
  inv max (Pool p.(shared) (<[i := Some l]> p.(threads)) ms).
Proof.
  intros [[Hh Hi] []] Hn [n He].
  assert (inside l = false ∧ pend l = 0 ∧ flying l = None ∧ posting l = None ∧ l ≠ Run RReturn) as (H1 & H2 & H3 & H4 & H5).
  { unfold entry in He. case_decide; [by subst l|]. destruct He as [rs ->]. apply call_plain. }
  pose proof (total_insert pend _ _ _ (Some l) Hn) as Et. simpl in Et.
  pose proof (holdings_insert flying _ _ _ (Some l) Hn) as E1. simpl in E1. rewrite H3 in E1. simpl in E1.
  pose proof (holdings_insert posting _ _ _ (Some l) Hn) as E2. simpl in E2. rewrite H4 in E2. simpl in E2.
  split; split; simpl; try done.
  - intros t Em. destruct (Hh t Em) as (k & Hk & Hki). exists k. split; [|done].
    rewrite list_lookup_insert_ne; [done|]. intros ->. congruence.
  - intros t k [(<- & [= <-] & _)|[_ Hk]]%list_lookup_insert_Some Hki; [congruence|eauto].
  - lia.
  - by rewrite E1.
  - by rewrite E2.
  - intros t [(<- & [= ?] & _)|[_ Hk]]%list_lookup_insert_Some; [done|by eapply a_runs0].
Qed.

Lemma whole_thread n max p tid o l g' l' :
  (max < Locker.SEM_VALUE_MAX)%Z → whole n max p → p.(threads) !! tid = Some (Some l) →
  pool_step tid o p.(shared) l = Some (g', l') →
  whole n max (Pool g' (<[tid := Some l']> p.(threads)) p.(main)).
Proof.
  intros Hmax [Hv Hs Hq H0 Hf] Hl E. split; [by eapply pool_thread|by eapply starting_thread|done|done|].
  destruct Hf as [Hf|[s Hf]]; [by left|right]. simpl. destruct (decide (tid = 0)) as [->|].
  - rewrite Hf in Hl. injection Hl as <-. simpl in E. destruct (run_step _ _ _) as [[g1 l1]|]; simplify_eq.
    exists l1. apply list_lookup_insert_eq. by eapply lookup_lt_Some.
  - exists s. by rewrite list_lookup_insert_ne.
Qed.

Lemma whole_main n max p p' :
  whole n max p → main_step finished p = Some p' → whole n max p'.
Proof.
  intros [Hv Hs Hq H0 Hf] E. pose proof (starting_main _ _ _ _ Hs E) as (Hs' & Eg & _).
  apply main_step_Some in E as [_ E]. destruct p' as [g ts ms]; simpl in *. subst g.
  assert (∀ c r, p.(main) = c :: r → (∀ c, c ∈ r → plain c)
    ∧ ((∃ e, c = Create 0 e) ∨ (∃ e, Create 0 e ∈ r) ∨ ∃ s : run_pc T, p.(threads) !! 0 = Some (Some (Run s)))) as Hr.
  { intros c r E'. split; [intros c' Hc; apply Hq; rewrite E'; by right|].
    destruct Hf as [[e He]|Hf]; [|by eauto]. rewrite E' in He. apply elem_of_cons in He as [<-|He]; eauto. }
  destruct E as [(i & e & r & H & -> & ->)|[(i & r & H & -> & -> & _)|(i & r & H & -> & ->)]];
    destruct (Hr _ _ H) as [Hp Hc]; split; try done; simpl.
  - destruct (st_empty _ _ Hs i e) as [Hn He]; [rewrite H; by left|]. apply pool_create; eauto.
  - destruct (st_empty _ _ Hs i e) as [Hn He]; [rewrite H; by left|]. destruct (decide (i = 0)) as [->|Hne].
    + right. unfold entry in He. rewrite decide_True in He by done. exists RWhile. subst e.
      apply list_lookup_insert_eq. by eapply lookup_lt_Some.
    + destruct Hc as [[e' [= ? ?]]|[Hc|[s Hc]]]; [done|by left|right]. exists s. by rewrite list_lookup_insert_ne.
  - by destruct Hv as [[] []]; split; split.
  - destruct Hc as [[e' [=]]|Hc]; done.
  - by destruct Hv as [[] []]; split; split.
  - destruct Hc as [[e' [=]]|Hc]; done.
Qed.

Lemma program_Some n max callers p0 :
  program n max callers = Some p0 → (0 < n)%Z ∧ (0 < max)%Z ∧
  p0 = Pool (Data max [] None 0 false [] [] [] []) (replicate (Z.to_nat n + length callers) None)
    (flat_map (λ i, [Create i worker; Detach i]) (seq 0 (Z.to_nat n))
     ++ imap (λ i rs, Create (Z.to_nat n + i) (call rs)) callers).
Proof.
  unfold program, threadPool. destruct (_ || _) eqn:E; [done|]. apply orb_false_iff in E as [E1 E2].
  apply Z.leb_gt in E1, E2.
  rewrite (proj2 (forallb_forall _ _)) by done. intros [= <-]. done.
Qed.

(** The commands of the constructor and of the callers. *)
Lemma command_cases n (callers : list (list (option T))) c :
  c ∈ flat_map (λ i, [Create i worker; Detach i]) (seq 0 n) ++ imap (λ i rs, Create (n + i) (call rs)) callers →
  (∃ i, i < n ∧ c = Create i worker) ∨ (∃ i, c = Detach i)
  ∨ ∃ i rs, i < length callers ∧ c = Create (n + i) (call rs).
Proof.
  intros [H|H]%elem_of_app.
  - apply list_elem_of_In, in_flat_map in H as (i & Hi & H). apply in_seq in Hi.
    destruct H as [<-|[<-|[]]]; [left; exists i|right; left; by exists i]. split; [lia|done].
  - apply list_elem_of_lookup_1 in H as [i Hi]. rewrite list_lookup_imap_Some in Hi.
    destruct Hi as (rs & Hrs & ->). right. right. exists i, rs. split; [by eapply lookup_lt_Some|done].
Qed.

Lemma created_slots n (callers : list (list (option T))) :
  omap created (flat_map (λ i, [Create i worker; Detach i]) (seq 0 n) ++ imap (λ i rs, Create (n + i) (call rs)) callers)
  = seq 0 (n + length callers).
Proof.
  rewrite omap_app, seq_app. f_equal; simpl.
  - generalize 0 as k. induction n as [|n IH]; intros k; simpl; [done|]. by rewrite IH.
  - revert n. induction callers as [|rs cs IH]; intros n; simpl; [done|]. rewrite Nat.add_0_r. f_equal.
    rewrite <- (IH (S n)). f_equal. apply imap_ext. intros i x _. simpl. f_equal. lia.
Qed.

Lemma pool_start n max callers p0 :
  program n max callers = Some p0 → whole (Z.to_nat n) max p0.
Proof.
  intros H. apply program_Some in H as (Hn & Hm & ->). split; simpl; [| |..].
  - split; split; simpl; try done; try lia.
    + intros t l Hl. apply lookup_replicate in Hl as [[=] _].
    + rewrite total_none. lia.
    + by rewrite holdings_none.
    + by rewrite holdings_none.
    + intros t Ht. apply lookup_replicate in Ht as [[=] _].
  - split; simpl; [|rewrite created_slots; apply NoDup_seq].
    intros i e H. apply command_cases in H as [(j & Hj & [= -> ->])|[[j [=]]|(j & rs & Hj & [= -> ->])]]; unfold entry.
    + rewrite decide_True by done. split; [|done]. apply lookup_replicate_2. lia.
    + rewrite decide_False by lia. split; [|eauto]. apply lookup_replicate_2. lia.
  - intros c H. apply command_cases in H as [(j & _ & ->)|[[j ->]|(j & rs & _ & ->)]]; unfold plain; simpl; eauto.
  - lia.
  - left. exists worker. apply elem_of_app. left. destruct (Z.to_nat n) eqn:E; [lia|]. simpl. by left.
Qed.

Lemma whole_reachable n max callers p0 p :
  program n max callers = Some p0 → (max < Locker.SEM_VALUE_MAX)%Z →
  reachable pool_step finished p0 p → whole (Z.to_nat n) max p.
Proof.
  intros H Hmax Hr. apply (reachable_invariant pool_step finished (whole (Z.to_nat n) max) p0 p Hr).
  - by eapply pool_start.
  - clear Hr p. intros p p' Hp [tid o p1 E|p1 E]; [|by eapply whole_main].
    apply thread_step_Some in E as (l & g' & l' & Hl & E & ->). by eapply whole_thread.
Qed.

(** *** Progress *)

(** The holder of the mutex can always go on. *)
Lemma holder_steps max tid o g l :
  inside l = true → holder_ok max g.(workQueue) l → pool_step tid o g l ≠ None.
Proof.
  destruct l as [[]|[]|]; simpl; try done; intros _ Hok; [by destruct (workQueue g)|].
  destruct Hok as [q ->]. done.
Qed.

(** A thread that cannot go on waits at the semaphore, or has ended. *)
Lemma blocked_at tid o g l :
  g.(queueLocker) = None → inside l = false → l ≠ Run RReturn → pool_step tid o g l = None →
  l = Idle ∨ l = Run RWait ∧ (g.(queueStat) ≤ 0)%Z.
Proof.
  destruct l as [[]|[]|]; simpl; try done; unfold Locker.lock, Locker.wait; intros Em; rewrite ?Em; try done.
  - destruct (0 <? _)%Z eqn:E; [done|]. apply Z.ltb_ge in E. by right.
  - by left.
Qed.

Lemma stuck_idle n max p :
  whole n max p → (∀ p', ¬ step pool_step finished p p') →
  p.(shared).(workQueue) = [] ∧ holdings flying p.(threads) = [] ∧ holdings posting p.(threads) = []
  ∧ ∀ t l, p.(threads) !! t = Some (Some l) → l = Idle ∨ l = Run RWait.
Proof.
  intros [[Hk Ha] _ Hq _ Hf] Hstuck.
  assert (∀ t l, p.(threads) !! t = Some (Some l) → pool_step t 0 p.(shared) l = None) as Hn.
  { intros t l Hl. destruct (pool_step t 0 (shared p) l) as [[g' l']|] eqn:E; [|done]. exfalso.
    eapply Hstuck, (step_thread _ _ _ t 0). unfold thread_step. by rewrite Hl, E. }
  assert (p.(main) = []) as Hm.
  { destruct (p.(main)) as [|c r] eqn:E; [done|]. exfalso.
    destruct (main_step finished p) as [p'|] eqn:E'; [by eapply Hstuck, step_main|].
    unfold main_step in E'. rewrite E in E'. destruct (Hq c) as [[i Hi]|[i ->]]; [by left|by destruct c|done]. }
  assert (p.(shared).(queueLocker) = None) as Em.
  { destruct (queueLocker (shared p)) as [t|] eqn:E; [|done]. destruct (l_held _ _ Hk t E) as (l & Hl & Hi).
    destruct (l_in _ _ Hk t l Hl Hi) as [_ Hok]. by destruct (holder_steps _ t 0 _ _ Hi Hok (Hn _ _ Hl)). }
  assert (∀ t l, p.(threads) !! t = Some (Some l) → l = Idle ∨ l = Run RWait ∧ (p.(shared).(queueStat) ≤ 0)%Z) as Hb.
  { intros t l Hl. apply (blocked_at t 0); [done| | |by apply Hn].
    - destruct (inside l) eqn:E; [|done]. destruct (l_in _ _ Hk t l Hl E). congruence.
    - intros ->. by apply (a_runs _ _ Ha t). }
  assert (∀ t l, p.(threads) !! t = Some (Some l) → pend l = 0 ∧ flying l = None ∧ posting l = None) as Hz.
  { intros t l Hl. by destruct (Hb t l Hl) as [->|[-> _]]. }
  split_and!.
  - apply length_zero_iff_nil. pose proof (a_count _ _ Ha) as Hc. pose proof (a_sem _ _ Ha).
    destruct (decide (0 < total pend p.(threads))) as [Hp|]; [|].
    { apply total_pos in Hp as (t & l & Hl & Hp). destruct (Hz t l Hl). lia. }
    destruct Hf as [[e He]|[s Hs]]; [rewrite Hm in He; by apply elem_of_nil in He|].
    destruct (Hb 0 _ Hs) as [[=]|[_ Hle]]. lia.
  - apply holdings_nil. intros t l Hl. by destruct (Hz t l Hl) as (_ & ? & _).
  - apply holdings_nil. intros t l Hl. by destruct (Hz t l Hl) as (_ & _ & ?).
  - intros t l Hl. destruct (Hb t l Hl) as [?|[? _]]; eauto.
Qed.

(** *** The pool as a bounded queue *)

(** The abstract queue: the requests that wait, those handed out, in order,
    and those refused. *)
Record fifo := Fifo { f_waiting : list (option T); f_taken : list (option T); f_refused : list (option T) }.

Inductive fifo_step (max : Z) : fifo → fifo → Prop :=
| fifo_append r q t x :
    (Z.of_nat (length q) ≤ max)%Z → fifo_step max (Fifo q t x) (Fifo (q ++ [r]) t x)
| fifo_refuse r q t x :
    (max < Z.of_nat (length q))%Z → fifo_step max (Fifo q t x) (Fifo q t (x ++ [r]))
| fifo_take r q t x : fifo_step max (Fifo (r :: q) t x) (Fifo q (t ++ [r]) x).

Definition refused (a : list (option T * bool)) : list (option T) :=
  omap (λ x : option T * bool, if x.2 then None else Some x.1) a.
Definition abstract g : fifo := Fifo g.(workQueue) g.(taken) (refused g.(answers)).

Lemma refused_snoc a r b : refused (a ++ [(r, b)]) = refused a ++ (if b then [] else [r]).
Proof. unfold refused. rewrite omap_app. simpl. by destruct b. Qed.

Lemma thread_refines max p tid o l g' l' :
  inv max p → p.(threads) !! tid = Some (Some l) → pool_step tid o p.(shared) l = Some (g', l') →
  abstract g' = abstract p.(shared) ∨ fifo_step max (abstract p.(shared)) (abstract g').
Proof.
  intros [Hk Ha] Hl E. pose proof (l_in _ _ Hk tid _ Hl) as Hin. destruct l as [l|l r rs|]; simpl in E; [| |done].
  - destruct (run_step tid (shared p) l) as [[g1 l1]|] eqn:E1; simplify_eq.
    destruct l; simpl in E1; try (repeat case_match; simplify_eq; by left).
    destruct Hin as [_ [q Eq]]; [done|]. rewrite Eq in E1. simplify_eq. right.
    unfold abstract. simpl. rewrite Eq. apply fifo_take.
  - destruct l; simpl in E; try (repeat case_match; simplify_eq; by left).
    + destruct Hin as [_ Hok]; [done|]. simplify_eq. right. unfold abstract. simpl.
      rewrite refused_snoc. by apply fifo_refuse.
    + destruct Hin as [_ Hok]; [done|]. simplify_eq. right. by apply fifo_append.
    + simplify_eq. left. unfold abstract. simpl. by rewrite refused_snoc, app_nil_r.
Qed.

(** C5. The thread pool of the server, for any number of workers and callers,
    under every interleaving: requests leave the queue in the order in which
    they came, each once; a request that left it is processed by exactly one
    worker; at most [maxRequests + 1] requests wait; the mutex is held by one
    thread at a time, and no worker that passed the semaphore finds the queue
    empty; and the pool comes to rest only when every accepted request has
    been processed and every caller has been told which of its requests
    were accepted. *)
Theorem pool_serves_requests n max (callers : list (list (option T))) p0 p :
  program n max callers = Some p0 → (max < Locker.SEM_VALUE_MAX)%Z →
  reachable pool_step finished p0 p →
  let g := p.(shared) in
  g.(accepted) = g.(taken) ++ g.(workQueue)
  ∧ omap id g.(taken) ≡ₚ map snd g.(processed) ++ holdings flying p.(threads)
  ∧ (Z.of_nat (length g.(workQueue)) ≤ max + 1)%Z
  ∧ (∀ t t' l l', p.(threads) !! t = Some (Some l) → p.(threads) !! t' = Some (Some l') →
       inside l = true → inside l' = true → t = t')
  ∧ (∀ t, p.(threads) !! t ≠ Some (Some (Run RContinue)))
  ∧ ((∀ p', ¬ step pool_step finished p p') →
       g.(workQueue) = [] ∧ omap id g.(accepted) ≡ₚ map snd g.(processed)
       ∧ g.(accepted) ≡ₚ granted g.(answers)
       ∧ ∀ t l, p.(threads) !! t = Some (Some l) → l = Idle ∨ l = Run RWait).
Proof.
  intros H Hmax Hr g. pose proof (whole_reachable _ _ _ _ _ H Hmax Hr) as Hw.
  pose proof (w_inv _ _ _ Hw) as [Hk Ha]. split_and!; try apply Ha.
  - intros t t' l l' Ht Ht' Hi Hi'. destruct (l_in _ _ Hk t l Ht Hi), (l_in _ _ Hk t' l' Ht' Hi'). congruence.
  - intros t Ht. by destruct (l_in _ _ Hk t _ Ht).
  - intros Hs. destruct (stuck_idle _ _ _ Hw Hs) as (Hq & Hf & Ho & Hall).
    pose proof (a_done _ _ Ha) as Hd. pose proof (a_told _ _ Ha) as Ht. subst g.
    rewrite Hf, app_nil_r in Hd. rewrite Ho, app_nil_r in Ht. split_and!; [done| |done|done].
    rewrite (a_fifo _ _ Ha), Hq, app_nil_r. done.
Qed.

(** C6. The pool implements the bounded queue: it starts empty, and every
    step of every thread, in any interleaving, leaves the abstract queue as it
    is, appends a request to it while at most [maxRequests] wait, refuses one
    while more wait, or hands out the first. *)
Theorem pool_refines_fifo n max (callers : list (list (option T))) p0 :
  program n max callers = Some p0 → (max < Locker.SEM_VALUE_MAX)%Z →
  abstract p0.(shared) = Fifo [] [] []
  ∧ ∀ p p', reachable pool_step finished p0 p → step pool_step finished p p' →
      abstract p'.(shared) = abstract p.(shared) ∨ fifo_step max (abstract p.(shared)) (abstract p'.(shared)).
Proof.
  intros H Hmax. split; [by apply program_Some in H as (_ & _ & ->)|]. intros p p' Hr Hs.
  pose proof (w_inv _ _ _ (whole_reachable _ _ _ _ _ H Hmax Hr)) as Hi. destruct Hs as [tid o p1 E|p1 E].
  - apply thread_step_Some in E as (l & g' & l' & Hl & E & ->). by eapply thread_refines.
  - left. apply main_step_Some in E as [E _]. by rewrite E.
Qed.
End proofs.

(** Two workers and a caller with two requests: one has been processed, the
    other has just been taken. *)
Definition sample_pool : pool (ThreadPool.data nat) (ThreadPool.local nat) :=
  default (Pool (Data 0 [] None 0 false [] [] [] []) [] []) (program 2 4 [[Some 7; Some 8]]).
Definition sample_run : pool (ThreadPool.data nat) (ThreadPool.local nat) :=
  run pool_step finished (replicate 5 None ++ replicate 10 (Some (2, 0%Z)) ++ replicate 9 (Some (0, 0%Z))
    ++ replicate 6 (Some (1, 0%Z))) sample_pool.

Lemma pool_serves_requests_witness :
  program 2 4 [[Some 7; Some 8]] = Some sample_pool
  ∧ sample_run.(shared).(accepted) = [Some 7; Some 8]
  ∧ sample_run.(shared).(processed) = [(0, 7)] ∧ holdings flying sample_run.(threads) = [8]
  ∧ omap id sample_run.(shared).(taken) ≡ₚ map snd sample_run.(shared).(processed) ++ holdings flying sample_run.(threads).
Proof.
  assert (program 2 4 [[Some 7; Some 8]] = Some sample_pool) as H by by vm_compute.
  split_and!; [exact H|by vm_compute|by vm_compute|by vm_compute|].
  apply (pool_serves_requests 2 4 [[Some 7; Some 8]] sample_pool sample_run H); [by vm_compute|apply run_reachable].
Defined.

Lemma pool_refines_fifo_witness :
  abstract sample_pool.(shared) = Fifo [] [] []
  ∧ abstract sample_run.(shared) = Fifo [] [Some 7; Some 8] []
  ∧ ∀ p', step pool_step finished sample_run p' →
      abstract p'.(shared) = abstract sample_run.(shared)
      ∨ fifo_step 4 (abstract sample_run.(shared)) (abstract p'.(shared)).
Proof.
  destruct (pool_refines_fifo 2 4 [[Some 7; Some 8]] sample_pool) as [H0 H]; [by vm_compute|by vm_compute|].
  split; [exact H0|]. split; [by vm_compute|]. intros p'. apply H. apply run_reachable.
Defined.
