(* ===== verification/Condition.v ===== *)
(** * The class condition of the web server: locker.h, locker.cpp

    A condition variable beside a mutex, used by threads that run arbitrary
    sequences of calls.  [wait] gives the mutex back and blocks until it is
    woken, then takes the mutex again before it returns. *)
From S2P Require Import Prelude Threads ThreadPool.

(** The calls of the classes locker and condition. *)
Inductive op := OLock | OUnlock | OWait | OTimewait | OSignal | OBroadcast.
#[export] Instance op_eq : EqDecision op.
Proof. solve_decision. Defined.

(** The mutex, the threads that wait on the condition variable, and the
    results of the calls. *)
Record data := Data { mtx : mutex; cond : list nat; results : list (nat * op * bool) }.

(** Where a thread is in its next call: at its start, blocked inside a wait,
    or about to take the mutex again, with the result the wait will have. *)
Inductive pc := Call | Blocked | Relock (ok : bool).
Record local := Local { at_pc : pc; ops : list op }.

Definition return_ (tid : nat) (o : op) (ok : bool) (g : data) : data := Data g.(mtx) g.(cond) (g.(results) ++ [(tid, o, ok)]).
Definition set_mtx (m : mutex) (g : data) : data := Data m g.(cond) g.(results).
Definition set_cond (c : list nat) (g : data) : data := Data g.(mtx) c g.(results).

(** The constructors, given what the call of pthreads returns; [None] is an
    exception. *)
Definition new_locker (init : Z) : option mutex := if negb (init =? 0)%Z then None else Some None.
Definition new_condition (init : Z) : option (list nat) := if negb (init =? 0)%Z then None else Some [].
Definition new_semaphore (init num : Z) : option Z := if negb (init =? 0)%Z then None else Some num.

(** [signal] and [broadcast]: the first thread that waits goes on, or all. *)
Definition signal (g : data) : data * bool := (set_cond (tail g.(cond)) g, true).
Definition broadcast (g : data) : data * bool := (set_cond [] g, true).

(** The first part of [wait(mutex)] and of [timewait(mutex, t)]. *)
Definition wait (tid : nat) (g : data) : data := set_cond (g.(cond) ++ [tid]) (set_mtx None g).

(** A blocked thread goes on when it has been woken; the input 1 is a spurious
    wake-up, the input 2 the end of the time of [timewait], which then returns
    [false]. *)
Definition wake (tid : nat) (i : Z) (timed : bool) (g : data) : option (data * bool) :=
  if decide (tid ∉ g.(cond)) then Some (g, true)
  else if (i =? 1)%Z then Some (set_cond (filter (λ t, t ≠ tid) g.(cond)) g, true)
  else if (i =? 2)%Z && timed then Some (set_cond (filter (λ t, t ≠ tid) g.(cond)) g, false)
  else None.

Definition exec (tid : nat) (i : Z) (g : data) (l : local) : option (data * local) :=
  match l with
  | Local _ [] => None
  | Local Call (o :: r) =>
      match o with
      | OLock => match Locker.lock tid g.(mtx) with Some (m, b) => Some (return_ tid o b (set_mtx m g), Local Call r) | None => None end
      | OUnlock => let '(m, b) := Locker.unlock g.(mtx) in Some (return_ tid o b (set_mtx m g), Local Call r)
      | OWait | OTimewait => Some (wait tid g, Local Blocked (o :: r))
      | OSignal => let '(g, b) := signal g in Some (return_ tid o b g, Local Call r)
      | OBroadcast => let '(g, b) := broadcast g in Some (return_ tid o b g, Local Call r)
      end
  | Local Blocked (o :: r) =>
      match wake tid i (bool_decide (o = OTimewait)) g with
      | Some (g, b) => Some (g, Local (Relock b) (o :: r))
      | None => None
      end
  | Local (Relock b) (o :: r) =>
      match Locker.lock tid g.(mtx) with Some (m, _) => Some (return_ tid o b (set_mtx m g), Local Call r) | None => None end
  end.

Definition finished (l : local) : bool := match l.(ops) with [] => true | _ => false end.

(** Threads that run the given calls. *)
Definition program (scripts : list (list op)) : pool data local :=
  Pool (Data None [] []) (map (λ os, Some (Local Call os)) scripts) [Forever].

(** ** Proper use *)

(** A thread unlocks and waits only with the mutex, locks only without it, and
    has given it back at the end. *)
Fixpoint proper (held : bool) (os : list op) : bool :=
  match os with
  | [] => negb held
  | OLock :: r => negb held && proper true r
  | OUnlock :: r => held && proper false r
  | (OWait | OTimewait) :: r => held && proper true r
  | (OSignal | OBroadcast) :: r => proper held r
  end.

(** The calls that are left are those of a thread that has the mutex. *)
Fixpoint inside (os : list op) : bool :=
  match os with
  | [] | OLock :: _ => false
  | (OUnlock | OWait | OTimewait) :: _ => true
  | (OSignal | OBroadcast) :: r => inside r
  end.

Lemma proper_inside held os : proper held os = true → inside os = held.
Proof.
  revert held. induction os as [|[] os IH]; intros held H; cbn in *; try (by destruct held); by apply IH.
Qed.

(** What holds of each thread: it has the mutex exactly when its calls say so,
    and it is blocked exactly while it waits. *)
Definition thread_ok (g : data) (tid : nat) (l : local) : Prop :=
  match l.(at_pc) with
  | Call => proper (bool_decide (g.(mtx) = Some tid)) l.(ops) = true ∧ (tid ∉ g.(cond))
  | Blocked => g.(mtx) ≠ Some tid ∧ proper true l.(ops) = true ∧ ∃ o r, l.(ops) = o :: r ∧ (o = OWait ∨ o = OTimewait)
  | Relock b => g.(mtx) ≠ Some tid ∧ proper true l.(ops) = true ∧ (tid ∉ g.(cond))
      ∧ ∃ o r, l.(ops) = o :: r ∧ (o = OWait ∧ b = true ∨ o = OTimewait)
  end.

Record ok (p : pool data local) : Prop := {
  ok_threads : ∀ t l, p.(threads) !! t = Some (Some l) → thread_ok p.(shared) t l;
  ok_holder : ∀ t, p.(shared).(mtx) = Some t → ∃ l, p.(threads) !! t = Some (Some l);
  ok_waits : ∀ t o b, (t, o, b) ∈ p.(shared).(results) → o = OTimewait ∨ b = true
}.

Lemma thread_ok_frame g g' t l :
  (g'.(mtx) = Some t ↔ g.(mtx) = Some t) → (t ∈ g'.(cond) → t ∈ g.(cond)) → thread_ok g t l → thread_ok g' t l.
Proof.
  intros Hm Hc. unfold thread_ok. destruct (at_pc l).
  - intros [H1 H2]. split; [|auto]. by rewrite (bool_decide_ext _ _ Hm).
  - intros (H1 & H2). split; [|done]. by rewrite Hm.
  - intros (H1 & H2 & H3 & H4). split_and!; auto. by rewrite Hm.
Qed.

(** A thread changes its own state and what it may of the shared data. *)
Lemma ok_update p tid l g' l' :
  ok p → p.(threads) !! tid = Some (Some l) →
  (∀ t, t ≠ tid → g'.(mtx) = Some t ↔ p.(shared).(mtx) = Some t) → (∀ t, t ≠ tid → t ∈ g'.(cond) → t ∈ p.(shared).(cond)) →
  thread_ok g' tid l' → (∀ t o b, (t, o, b) ∈ g'.(results) → (t, o, b) ∈ p.(shared).(results) ∨ o = OTimewait ∨ b = true) →
  ok (Pool g' (<[tid := Some l']> p.(threads)) p.(main)).
Proof.
  intros [Ht Hh Hw] Hl Hm Hc Hl' Hr. pose proof (lookup_lt_Some _ _ _ Hl) as Hlt. split; cbn.
  - intros t x Hx. apply list_lookup_insert_Some in Hx as [(-> & [= ->] & _)|[Hne Hx]]; [done|].
    eapply thread_ok_frame; [by apply Hm|by apply Hc|by apply Ht].
  - intros t E. destruct (decide (t = tid)) as [->|Hne]; [exists l'; by apply list_lookup_insert_eq|].
    apply Hm in E; [|done]. rewrite list_lookup_insert_ne by done. by apply Hh.
  - intros t o b H. destruct (Hr t o b H) as [H'|]; [by eapply Hw|done].
Qed.

Lemma proper_bool held os (P : Prop) `{Decision P} : proper held os = true → (P ↔ held = true) → proper (bool_decide P) os = true.
Proof. intros H1 H2. case_bool_decide; destruct held; naive_solver. Qed.

(** The obligations of [ok_update] that concern the results and the mutex. *)
Ltac obligations Hlog Hm :=
  lazymatch goal with
  | |- ∀ t o b, _ ∈ results _ → _ => first [by left|intros ? ? ? Hin; eapply Hlog; [exact Hin|naive_solver]]
  | |- ∀ t, _ → _ ↔ _ => first [done|cbn; intros t Ht; rewrite Hm; split; congruence]
  | |- ∀ t, _ → _ → _ => first [done|by cbn; intros t Ht [?|?%list_elem_of_singleton]%elem_of_app|idtac]
  | |- ok _ => done
  | |- thread_ok _ _ _ => idtac
  | |- _ => done
  end.

Lemma exec_ok p tid i l g' l' :
  ok p → p.(threads) !! tid = Some (Some l) → exec tid i p.(shared) l = Some (g', l') →
  ok (Pool g' (<[tid := Some l']> p.(threads)) p.(main)).
Proof.
  intros Hp Hl E. pose proof (ok_threads _ Hp _ _ Hl) as Hok.
  assert (∀ o b t o' b' g, (t, o', b') ∈ results (return_ tid o b g) → o = OTimewait ∨ b = true →
    (t, o', b') ∈ g.(results) ∨ o' = OTimewait ∨ b' = true) as Hlog.
  { intros o b t o' b' g H Hb. cbn in H. apply elem_of_app in H as [H|H%list_elem_of_singleton]; [by left|]. right. naive_solver. }
  destruct l as [[| |b] [|o r]]; try done; unfold thread_ok in Hok; cbn [at_pc ops] in Hok; cbn [exec] in E.
  - destruct Hok as [Hpr Hnc]. destruct o; cbn [proper] in Hpr.
    + unfold Locker.lock in E. destruct (mtx (shared p)) as [h|] eqn:Em; [done|]. injection E as <- <-.
      eapply ok_update; obligations Hlog Em.
      split; [|done]. cbn. rewrite bool_decide_true by done. by apply andb_prop in Hpr as [_ Hpr].
    + apply andb_prop in Hpr as [Hh Hpr]. apply bool_decide_eq_true in Hh. injection E as <- <-.
      eapply ok_update; obligations Hlog Hh. split; [cbn; by rewrite bool_decide_false|done].
    + apply andb_prop in Hpr as [Hh Hpr]. apply bool_decide_eq_true in Hh. injection E as <- <-.
      eapply ok_update; obligations Hlog Hh. cbn. split_and!; try done. exists OWait, r. split; [done|by left].
    + apply andb_prop in Hpr as [Hh Hpr]. apply bool_decide_eq_true in Hh. injection E as <- <-.
      eapply ok_update; obligations Hlog Hh. cbn. split_and!; try done. exists OTimewait, r. split; [done|by right].
    + injection E as <- <-. assert (∀ t, t ∈ tail (cond (shared p)) → t ∈ cond (shared p)) as Htl.
      { intros t. destruct (cond (shared p)); [done|]. by right. }
      eapply ok_update; obligations Hlog Hnc; [by intros t _ Ht; apply Htl|]. split; [done|cbn; auto].
    + injection E as <- <-. eapply ok_update; obligations Hlog Hnc; [by intros t _ Ht%elem_of_nil|]. split; [done|by intros Ht%elem_of_nil].
  - destruct Hok as (Hnm & Hpr & o' & r' & [= <- <-] & Ho). destruct (wake _ _ _ _) as [[g b]|] eqn:Ew; [|done]. injection E as <- <-.
    unfold wake in Ew. assert (mtx g = mtx (shared p) ∧ results g = results (shared p) ∧ (tid ∉ cond g) ∧ (∀ t, t ∈ cond g → t ∈ cond (shared p))
      ∧ (b = true ∨ o = OTimewait)) as (Em & Er & Hnc & Hsub & Hb).
    { assert (∀ t, t ∈ filter (λ t, t ≠ tid) (cond (shared p)) → t ≠ tid ∧ t ∈ cond (shared p)) as Hf
        by (intros t Ht; by apply list_elem_of_filter in Ht).
      destruct (decide (tid ∉ cond (shared p))); [injection Ew as <- <-; naive_solver|].
      destruct (i =? 1)%Z; [injection Ew as <- <-; cbn; naive_solver|]. destruct (i =? 2)%Z; [|done].
      cbn [andb] in Ew. case_bool_decide; [|done]. injection Ew as <- <-. cbn. naive_solver. }
    eapply ok_update; try done; [intros t Ht; by rewrite Em|by intros t _ Ht; apply Hsub| |by intros ? ? ?; rewrite Er; left].
    cbn. split_and!; [by rewrite Em|done|done|]. exists o, r. split; [done|]. destruct Ho as [->| ->]; [left|by right].
    destruct Hb as [->|]; done.
  - destruct Hok as (Hnm & Hpr & Hnc & o' & r' & [= <- <-] & Ho). unfold Locker.lock in E.
    destruct (mtx (shared p)) as [h|] eqn:Em; [done|]. injection E as <- <-.
    eapply ok_update; obligations Hlog Em.
    split; [|done]. cbn. rewrite bool_decide_true by done. destruct Ho as [[-> _]| ->]; exact Hpr.
Qed.

Lemma ok_reach scripts p :
  Forall (λ os, proper false os = true) scripts → reachable exec finished (program scripts) p → ok p.
Proof.
  intros Hs H. eapply (reachable_invariant _ _ (λ p, ok p ∧ p.(main) = [Forever])) in H as [H _]; [done| |].
  - split; [|done]. split; cbn; [|done|by intros ? ? ? ?%elem_of_nil]. intros t l Hl. apply list_lookup_fmap_Some in Hl as (os & [= ->] & Hos).
    split; [|by intros ?%elem_of_nil]. cbn. eapply Forall_lookup in Hs; done.
  - intros q q' [Hq Hm] [tid i q'' E|q'' E].
    + apply thread_step_Some in E as (l & g' & l' & Hl & E & ->). split; [by eapply exec_ok|done].
    + unfold main_step in E. by rewrite Hm in E.
Qed.

(** Threads that use the classes properly, for every interleaving, every
    spurious wake-up and every end of a time: at most one thread is between the
    calls that take and give back the mutex, also after [wait] and [timewait]
    have returned, and none of these is blocked; [wait] never fails. *)
Lemma condition_exclusive scripts p :
  Forall (λ os, proper false os = true) scripts → reachable exec finished (program scripts) p →
  (∀ t1 t2 os1 os2, p.(threads) !! t1 = Some (Some (Local Call os1)) → p.(threads) !! t2 = Some (Some (Local Call os2)) →
     inside os1 = true → inside os2 = true → t1 = t2)
  ∧ (∀ t, p.(shared).(mtx) = Some t → ∃ os, p.(threads) !! t = Some (Some (Local Call os)) ∧ inside os = true)
  ∧ (∀ t b, (t, OWait, b) ∈ p.(shared).(results) → b = true).
Proof.
  intros Hs H. pose proof (ok_reach _ _ Hs H) as [Ht Hh Hw].
  assert (∀ t os, p.(threads) !! t = Some (Some (Local Call os)) → inside os = bool_decide (p.(shared).(mtx) = Some t)) as Hin.
  { intros t os Hl. destruct (Ht _ _ Hl) as [Hpr _]. by apply proper_inside. }
  split_and!.
  - intros t1 t2 os1 os2 H1 H2 I1 I2. rewrite (Hin _ _ H1) in I1. rewrite (Hin _ _ H2) in I2.
    apply bool_decide_eq_true in I1, I2. congruence.
  - intros t E. destruct (Hh t E) as [[[] os] Hl].
    + exists os. split; [done|]. rewrite (Hin _ _ Hl). by apply bool_decide_eq_true.
    + by destruct (Ht _ _ Hl).
    + by destruct (Ht _ _ Hl).
  - intros t b Hr. by destruct (Hw _ _ _ Hr).
Qed.
