(* ===== verification/Server.v ===== *)
(** * The web server: main.cpp

    The event loop over the epoll object, the connections in the array
    [users], and the workers of the thread pool.  The kernel reports events
    and disarms the descriptors it reports (EPOLLONESHOT); the main thread
    handles them one by one; workers take connections from the queue and run
    [process].  The calls of one thread interleave freely with those of the
    others; [close_conn], [read], [write] and [process] are single steps. *)
From S2P Require Import Prelude CString HttpConn.

Definition MAX_FD : Z := 65535.

(** The default size of the thread pool and of its queue (threadPool.h). *)
Definition threadNumber : nat := 8.
Definition maxRequests : Z := 10000.

Record server := Server {
  users : gmap Z http_conn  (* the initialised objects of the array *);
  kernel : shared;
  events : list (Z * Z)  (* events reported by epoll_wait, not yet handled *);
  queue : list Z  (* the work queue: indices into users *);
  busy : list Z  (* connections taken by a worker *);
  abandoned : gset Z  (* connections append has refused *)
}.

(** ** The epoll object *)

(** The bits of a mask that are not events. *)
Definition private : Z := Z.lor EPOLLONESHOT EPOLLET.
Definition public (m : Z) : Z := Z.land m (Z.lnot private).
Definition armed (m : Z) : bool := negb (public m =? 0)%Z.
Definition has_bit (ev m : Z) : bool := negb (Z.land ev m =? 0)%Z.
Definition hangup : Z := Z.lor EPOLLRDHUP (Z.lor EPOLLHUP EPOLLERR).

(** A mask [m] allows the report of [ev]: some of its events, an error or a
    hang-up, unless it is disarmed. *)
Definition allows (m ev : Z) : bool :=
  armed m && negb (ev =? 0)%Z && (Z.land ev (Z.lnot (Z.lor (public m) (Z.lor EPOLLHUP EPOLLERR))) =? 0)%Z.

(** [epoll_wait] reports [ev] on [fd], which is disarmed if it is one-shot. *)
Definition report (e : Z * Z) (k : shared) : option shared :=
  match k.(ep) !! e.1 with
  | Some m =>
      if allows m e.2 then
        Some (if has_bit m EPOLLONESHOT
              then Shared (<[e.1 := Z.land m private]> k.(ep)) k.(opened) k.(nonblocking) k.(userCount) else k)
      else None
  | None => None
  end.
Fixpoint reports (evs : list (Z * Z)) (k : shared) : option shared :=
  match evs with
  | [] => Some k
  | e :: evs => report e k ≫= reports evs
  end.

Section server.
Variable listenfd : Z.
(** What an object of the array holds before its first [init]. *)
Variable fresh : http_conn.

Definition set_user (fd : Z) (ck : http_conn * shared) (s : server) : server :=
  Server (<[fd := ck.1]> s.(users)) ck.2 s.(events) s.(queue) s.(busy) s.(abandoned).

(** [threadPool::append], whose result the server ignores. *)
Definition append (fd : Z) (s : server) : server :=
  if (maxRequests <? Z.of_nat (length s.(queue)))%Z
  then Server s.(users) s.(kernel) s.(events) s.(queue) s.(busy) ({[fd]} ∪ s.(abandoned))
  else Server s.(users) s.(kernel) s.(events) (s.(queue) ++ [fd]) s.(busy) s.(abandoned).

(** A new client: [connfd] is what [accept] returns, [None] for a failure. *)
Definition on_accept (connfd : option Z) (s : server) : option server :=
  match connfd with
  | None => Some s
  | Some connfd =>
      let k := s.(kernel) in
      let k := Shared k.(ep) ({[connfd]} ∪ k.(opened)) k.(nonblocking) k.(userCount) in
      if (k.(userCount) >=? MAX_FD)%Z then
        Some (Server s.(users) (close connfd k) s.(events) s.(queue) s.(busy) s.(abandoned))
      else if ((0 <=? connfd) && (connfd <? MAX_FD))%Z then
        Some (set_user connfd (init_conn connfd (default fresh (s.(users) !! connfd)) k) s)
      else None
  end.

(** An event on a connection; [rx] and [tx] are what [recv] and [writev] meet. *)
Definition on_event (fuel : nat) (fd ev : Z) (rx : list recv_ev) (tx : list writev_ev) (s : server) : option server :=
  match s.(users) !! fd with
  | None => None
  | Some c =>
      if has_bit ev hangup then Some (set_user fd (close_conn c s.(kernel)) s)
      else if has_bit ev EPOLLIN then
        match read fuel c rx with
        | Some (true, c, _) => Some (append fd (set_user fd (c, s.(kernel)) s))
        | Some (false, c, _) => Some (set_user fd (close_conn c s.(kernel)) s)
        | None => None
        end
      else if has_bit ev EPOLLOUT then
        match write fuel c s.(kernel) tx with
        | WDone true c k _ _ => Some (set_user fd (c, k) s)
        | WDone false c k _ _ => Some (set_user fd (close_conn c k) s)
        | _ => None
        end
      else Some s
  end.

(** The body of the loop over the reported events. *)
Definition handle (fuel : nat) (connfd : option Z) (rx : list recv_ev) (tx : list writev_ev) (s : server)
  : option server :=
  match s.(events) with
  | [] => None
  | (fd, ev) :: evs =>
      let s := Server s.(users) s.(kernel) evs s.(queue) s.(busy) s.(abandoned) in
      if (fd =? listenfd)%Z then on_accept connfd s else on_event fuel fd ev rx tx s
  end.

(** A worker takes a request, and processes it. *)
Definition take_request (s : server) : option server :=
  match s.(queue) with
  | fd :: q =>
      if decide (length s.(busy) < threadNumber)
      then Some (Server s.(users) s.(kernel) s.(events) q (fd :: s.(busy)) s.(abandoned)) else None
  | [] => None
  end.
Definition work (fuel : nat) (fs : gmap bytes fnode) (fd : Z) (s : server) : option server :=
  match s.(users) !! fd with
  | Some c =>
      match process fuel fs c s.(kernel) with
      | Some (c, k) =>
          Some (Server (<[fd := c]> s.(users)) k s.(events) s.(queue)
                  (filter (λ x, x ≠ fd) s.(busy)) s.(abandoned))
      | None => None
      end
  | None => None
  end.

(** The server once it listens: [listenfd] registered, nobody connected;
    [others] are the remaining open descriptors. *)
Definition listening (others : gset Z) : server :=
  Server ∅ (addfd listenfd false (Shared ∅ ({[listenfd]} ∪ others) ∅ 0)) [] [] [] ∅.

Inductive step (s : server) : server → Prop :=
| step_wait evs k :
    s.(events) = [] → reports evs s.(kernel) = Some k → NoDup (map fst evs) →
    step s (Server s.(users) k evs s.(queue) s.(busy) s.(abandoned))
| step_handle fuel connfd rx tx s' :
    (∀ fd, connfd = Some fd → (fd ∉ s.(kernel).(opened)) ∧ (0 ≤ fd)%Z) →
    handle fuel connfd rx tx s = Some s' → step s s'
| step_take s' : take_request s = Some s' → step s s'
| step_work fuel fs fd s' : fd ∈ s.(busy) → work fuel fs fd s = Some s' → step s s'.

Definition reachable (others : gset Z) : server → Prop := rtc step (listening others).
End server.
