(* ===== verification/ServerProofs.v ===== *)
(** * Every connection has one owner: proofs about Server *)
From S2P Require Import Prelude CString HttpConn HttpWrite Server.

(** ** What the operations of a connection do to its socket *)

(** Case analysis of a function that returns a connection. *)
Ltac cases_conn :=
  repeat (case_match || simplify_option_eq || simplify_eq/= ); try done.

Lemma parseLine_loop_sockfd n c : (parseLine_loop n c).2.(sockfd) = c.(sockfd).
Proof. revert c. induction n as [|n IH]; intros c; simpl; [done|]. repeat case_match; try done. by rewrite IH. Qed.

Lemma parseRequestLine_sockfd text c r d : parseRequestLine text c = Some (r, d) → d.(sockfd) = c.(sockfd).
Proof.
  unfold parseRequestLine. intros H. simplify_option_eq; cases_conn.
Qed.

Lemma parseHeader_sockfd text c r d : parseHeader text c = Some (r, d) → d.(sockfd) = c.(sockfd).
Proof. unfold parseHeader. intros H. simplify_option_eq; cases_conn. Qed.

Lemma parseContext_sockfd text c r d : parseContext text c = Some (r, d) → d.(sockfd) = c.(sockfd).
Proof. unfold parseContext. intros H. cases_conn. Qed.

Lemma doRequest_sockfd fs c r d : doRequest fs c = Some (r, d) → d.(sockfd) = c.(sockfd).
Proof.
  unfold doRequest, mbind, option_bind. destruct (url c); [|done]. destruct (str_at c n); [|done].
  destruct (cstr _) as [path|]; [|done]. destruct (fs !! path) as [f|]; [|by intros [= <- <-]].
  destruct (_ =? 0)%Z; [by intros [= <- <-]|]. destruct (S_ISDIR _); by intros [= <- <-].
Qed.

Lemma lift_returns o (k : HTTP_CODE → http_conn → outcome) r d :
  lift o k = Done r d → ∃ r' c', o = Some (r', c') ∧ k r' c' = Done r d.
Proof. destruct o as [[r' c']|]; [|done]. simpl. eauto. Qed.

Lemma processRead_loop_sockfd fuel fs st c r d :
  processRead_loop fuel fs st c = Done r d → d.(sockfd) = c.(sockfd).
Proof.
  revert st c. induction fuel as [|fuel IH]; intros st c; cbn [processRead_loop]; [done|].
  set (x := if bool_decide (c.(checkState) = CHECK_STATE_CONTENT) && bool_decide (st = LINE_OK)
    then (st, c) else parseLine c).
  assert (x.2.(sockfd) = c.(sockfd)) as Hx by (unfold x; case_match; [done|apply parseLine_loop_sockfd]).
  destruct x as [st' c']. simpl in Hx. rewrite <- Hx.
  destruct (negb _); [by intros [= <- <-]|]. intros H. change (sockfd c') with (sockfd (set_startLine (checkIndex c') c')).
  set (c1 := set_startLine (checkIndex c') c') in *.
  destruct (checkState c1); apply lift_returns in H as (r' & c2 & E & H).
  - rewrite <- (parseRequestLine_sockfd _ _ _ _ E). case_match; [by simplify_eq|by eapply IH].
  - rewrite <- (parseHeader_sockfd _ _ _ _ E). repeat case_match; [by simplify_eq| |by eapply IH].
    apply lift_returns in H as (r3 & c3 & E3 & H). simplify_eq. by eapply doRequest_sockfd.
  - rewrite <- (parseContext_sockfd _ _ _ _ E). case_match; [|by eapply IH].
    apply lift_returns in H as (r3 & c3 & E3 & H). simplify_eq. by eapply doRequest_sockfd.
Qed.

Lemma addResponse_sockfd s c b d : addResponse s c = (b, d) → d.(sockfd) = c.(sockfd).
Proof. unfold addResponse. repeat case_match; by intros [= <- <-]. Qed.

#[local] Opaque addResponse.

Lemma addHeaders_sockfd n c b d : addHeaders n c = (b, d) → d.(sockfd) = c.(sockfd).
Proof.
  unfold addHeaders. destruct (addContentLength n c) as [b1 c1] eqn:E1. cbn [snd].
  destruct (addContentType c1) as [b2 c2] eqn:E2. cbn [snd].
  destruct (addLinger c2) as [b3 c3] eqn:E3. cbn [snd].
  destruct (addBlankLine c3) as [b4 c4] eqn:E4. cbn [snd]. intros [= <- <-].
  unfold addContentLength, addContentType, addLinger, addBlankLine in *.
  apply addResponse_sockfd in E1, E2, E3, E4. congruence.
Qed.

Lemma error_response_sockfd st t f c b d : error_response st t f c = (b, d) → d.(sockfd) = c.(sockfd).
Proof.
  unfold error_response. destruct (addStatusLine st t c) as [b1 c1] eqn:E1. cbn [snd].
  destruct (addHeaders _ c1) as [b2 c2] eqn:E2. cbn [snd].
  destruct (addContent f c2) as [b3 c3] eqn:E3. unfold addStatusLine, addContent in *.
  apply addResponse_sockfd in E1, E3. apply addHeaders_sockfd in E2. intros H.
  assert (d.(sockfd) = c3.(sockfd)) as Hd.
  { apply (f_equal (λ x, sockfd x.2)) in H. cbn [snd] in H. rewrite <- H. by destruct b3. }
  congruence.
Qed.

Lemma processWrite_sockfd r c b d : processWrite r c = (b, d) → d.(sockfd) = c.(sockfd).
Proof.
  destruct r; cbn [processWrite];
    [by intros [= <- <-]|by intros [= <- <-]|apply error_response_sockfd|apply error_response_sockfd
    |apply error_response_sockfd| |apply error_response_sockfd|by intros [= <- <-]].
  destruct (addStatusLine 200 ok_200_title c) as [b1 c1] eqn:E1. cbn [snd].
  destruct (addHeaders _ c1) as [b2 c2] eqn:E2. cbn [snd]. unfold addStatusLine in *.
  apply addResponse_sockfd in E1. apply addHeaders_sockfd in E2. intros H.
  apply (f_equal (λ x, sockfd x.2)) in H. cbn [snd] in H. rewrite <- H.
  change (sockfd c2 = sockfd c). congruence.
Qed.

Lemma read_loop_sockfd fuel c rx b d rx' :
  read_loop fuel c rx = Some (b, d, rx') → d.(sockfd) = c.(sockfd).
Proof.
  revert c rx. induction fuel as [|fuel IH]; intros c rx; cbn [read_loop]; [done|].
  destruct (recv _ _) as [[[|x s]|[]] r]; try by intros [= <- <- <-].
  intros H. by apply IH in H.
Qed.

Lemma read_sockfd fuel c rx b d rx' : read fuel c rx = Some (b, d, rx') → d.(sockfd) = c.(sockfd).
Proof. unfold read. case_match; [by intros [= <- <- <-]|]. apply read_loop_sockfd. Qed.

(** [modfd] with one of the two events the server waits for. *)
Definition rearmed (fd : Z) (k k' : shared) : Prop := k' = modfd fd EPOLLIN k ∨ k' = modfd fd EPOLLOUT k.

Lemma write_loop_effect fuel c k tx sent r d k' tx' sent' :
  write_loop fuel c k tx sent = WDone r d k' tx' sent' →
  d.(sockfd) = c.(sockfd) ∧ (rearmed c.(sockfd) k k' ∨ r = false ∧ k' = k).
Proof.
  revert c tx sent. induction fuel as [|fuel IH]; intros c tx sent; cbn [write_loop]; [done|].
  destruct (gather c) as [b| |]; [|by intros [= <- <- <- <- <-]; rewrite unmap_sockfd; auto|done]. unfold rearmed.
  destruct tx as [|[n| |] tx]; [by intros [= <- <- <- <- <-]; eauto| |by intros [= <- <- <- <- <-]; eauto|].
  2:{ intros [= <- <- <- <- <-]. rewrite unmap_sockfd. eauto. }
  destruct (advance_linger (Z.of_nat (length (take n b))) c) as [_ Es].
  destruct (_ <=? 0)%Z; [destruct (linger _)|intros H; apply IH in H; by rewrite Es in H];
    intros [= <- <- <- <- <-]; simpl; rewrite unmap_sockfd, Es; eauto.
Qed.

Lemma write_effect fuel c k tx r d k' tx' sent' :
  write fuel c k tx = WDone r d k' tx' sent' →
  d.(sockfd) = c.(sockfd) ∧ (rearmed c.(sockfd) k k' ∨ r = false ∧ k' = k).
Proof.
  unfold write. case_match; [|apply write_loop_effect].
  intros [= <- <- <- <- <-]. unfold rearmed. eauto.
Qed.

Lemma process_effect fuel fs c k d k' fd :
  process fuel fs c k = Some (d, k') → c.(sockfd) = fd → fd ≠ (-1)%Z → (-1)%Z ∉ k.(opened) →
  d.(sockfd) = fd ∧ rearmed fd k k' ∨ d.(sockfd) = (-1)%Z ∧ k' = incr_users (-1) (removefd fd k).
Proof.
  unfold process. intros H <- Hne Hneg. unfold rearmed.
  destruct (processRead fuel fs c) as [r c1| |] eqn:E; try done.
  apply processRead_loop_sockfd in E. rewrite <- E in *. destruct (processWrite r c1) as [b c2] eqn:Ew.
  apply processWrite_sockfd in Ew. unfold close_conn in H.
  rewrite (proj2 (Z.eqb_neq (sockfd c2) (-1))) in H by congruence.
  assert (modfd (-1) EPOLLOUT (incr_users (-1) (removefd (sockfd c2) k)) = incr_users (-1) (removefd (sockfd c2) k)) as Em.
  { unfold modfd, epoll_mod. rewrite decide_False; [done|]. simpl. set_solver. }
  destruct r, b; simplify_eq/=; rewrite ?Em, ?Ew; eauto.
Qed.

(** ** The invariant *)

Definition add_mask : Z := Z.lor (Z.lor EPOLLIN EPOLLRDHUP) EPOLLONESHOT.
Definition mod_mask (ev : Z) : Z := Z.lor (Z.lor (Z.lor ev EPOLLET) EPOLLONESHOT) EPOLLRDHUP.

(** The masks a connection is registered with, armed and disarmed. *)
Definition masks : list Z :=
  [add_mask; mod_mask EPOLLIN; mod_mask EPOLLOUT; EPOLLONESHOT; private].

(** The events the kernel may report on a connection. *)
Definition all_events : Z := Z.lor hangup (Z.lor EPOLLIN EPOLLOUT).
Definition known (ev : Z) : Prop := ev ≠ 0%Z ∧ Z.land ev (Z.lnot all_events) = 0%Z.

Lemma mask_disarmed m : m ∈ masks → armed m = true →
  has_bit m EPOLLONESHOT = true ∧ Z.land m private ∈ masks ∧ armed (Z.land m private) = false.
Proof.
  unfold masks. rewrite !elem_of_cons, elem_of_nil.
  intros [->|[->|[->|[->|[->|[]]]]]] H; try done;
    (split; [reflexivity|split; [|reflexivity]]); apply (bool_decide_unpack _); vm_compute; exact I.
Qed.

Lemma mask_known m ev : m ∈ masks → allows m ev = true → known ev.
Proof.
  unfold allows. intros Hm H. apply andb_prop in H as [H Hs]. apply andb_prop in H as [_ Hz].
  apply negb_true_iff, Z.eqb_neq in Hz. apply Z.eqb_eq in Hs. split; [done|].
  assert (Z.lor (Z.lnot (Z.lor (public m) (Z.lor EPOLLHUP EPOLLERR))) (Z.lnot all_events)
    = Z.lnot (Z.lor (public m) (Z.lor EPOLLHUP EPOLLERR))) as E.
  { revert Hm. unfold masks. rewrite !elem_of_cons, elem_of_nil.
    intros [->|[->|[->|[->|[->|[]]]]]]; reflexivity. }
  rewrite <- E, Z.land_lor_distr_r in Hs. by apply Z.lor_eq_0_iff in Hs as [_ Hs].
Qed.

(** An event is one of the three kinds the loop looks at. *)
Lemma known_handled ev :
  known ev → has_bit ev hangup = true ∨ has_bit ev EPOLLIN = true ∨ has_bit ev EPOLLOUT = true.
Proof.
  intros [Hne Hk]. unfold has_bit. destruct (Z.eqb_spec (Z.land ev hangup) 0) as [H1|]; [|by left].
  destruct (Z.eqb_spec (Z.land ev EPOLLIN) 0) as [H2|]; [|by right; left].
  destruct (Z.eqb_spec (Z.land ev EPOLLOUT) 0) as [H3|]; [|by right; right]. exfalso. apply Hne.
  transitivity (Z.land ev (Z.lor all_events (Z.lnot all_events))); [symmetry; apply Z.land_m1_r|].
  rewrite Z.land_lor_distr_r, Hk. unfold all_events. by rewrite !Z.land_lor_distr_r, H1, H2, H3.
Qed.

Section invariant.
Variable listenfd : Z.
Variable fresh : http_conn.
Implicit Types (k : shared) (us : gmap Z http_conn) (conns ab : gset Z) (own : list Z).

(** [conns] are the open connections, [own] those reported to the main thread,
    queued, or taken by a worker. *)
Record inv conns own us k ab : Prop := {
  i_count : k.(userCount) = Z.of_nat (size conns);
  i_conn : ∀ fd, fd ∈ conns ↔ ∃ c, us !! fd = Some c ∧ c.(sockfd) ≠ (-1)%Z;
  i_self : ∀ fd c, us !! fd = Some c → c.(sockfd) = fd ∨ c.(sockfd) = (-1)%Z;
  i_open : ∀ fd, fd ∈ conns → fd ∈ k.(opened) ∧ fd ≠ listenfd;
  i_reg : ∀ fd, fd ∈ conns → ∃ m, k.(ep) !! fd = Some m ∧ m ∈ masks;
  i_ep : ∀ fd, is_Some (k.(ep) !! fd) → fd = listenfd ∨ fd ∈ conns;
  i_listen : listenfd ∈ k.(opened) ∧ k.(ep) !! listenfd = Some (Z.lor EPOLLIN EPOLLRDHUP);
  i_neg : (-1)%Z ∉ k.(opened);
  i_nodup : NoDup own;
  i_owned : ∀ fd, fd ∈ own → fd ∈ conns ∧ (fd ∉ ab) ∧ ∃ m, k.(ep) !! fd = Some m ∧ armed m = false;
  i_ab : ∀ fd, fd ∈ ab → fd ∈ conns ∧ ∃ m, k.(ep) !! fd = Some m ∧ armed m = false;
  i_place : ∀ fd m, fd ∈ conns → k.(ep) !! fd = Some m → armed m = true ∨ fd ∈ own ∨ fd ∈ ab
}.

(** Only the set of owned connections matters. *)
#[global] Instance inv_perm : Proper ((=) ==> (≡ₚ) ==> (=) ==> (=) ==> (=) ==> iff) inv.
Proof.
  assert (∀ conns own own' us k ab, own ≡ₚ own' → inv conns own us k ab → inv conns own' us k ab) as H.
  { intros conns own own' us k ab E []. split; try done; [by rewrite <- E|..].
    - intros fd Hfd. rewrite <- E in Hfd. eauto.
    - intros fd m Hfd Hm. rewrite <- E. eauto. }
  intros ? ? -> own own' E ? ? -> ? ? -> ? ? ->. split; by apply H.
Qed.

(** *** Reports *)

Lemma inv_report conns own us k ab fd ev k' :
  inv conns own us k ab → report (fd, ev) k = Some k' →
  fd = listenfd ∧ k' = k ∨ fd ≠ listenfd ∧ known ev ∧ inv conns (fd :: own) us k' ab.
Proof.
  intros [] H. unfold report in H. simpl in H. destruct (ep k !! fd) as [m|] eqn:Em; [|done].
  destruct (allows m ev) eqn:Ea; [|done]. destruct (decide (fd = listenfd)) as [->|Hne].
  - left. split; [done|]. destruct i_listen0 as [_ El]. rewrite El in Em. injection Em as <-. by injection H as <-.
  - right. destruct (i_ep0 fd) as [|Hc]; [by exists m|done|]. destruct (i_reg0 fd Hc) as (m' & Em' & Hm).
    rewrite Em in Em'. injection Em' as <-. assert (armed m = true) as Har by (unfold allows in Ea; by destruct (armed m)).
    destruct (mask_disarmed m Hm Har) as (Hone & Hm2 & Har2). rewrite Hone in H. injection H as <-.
    split_and!; [done|by apply (mask_known m)|].
    assert (fd ∉ own) as Hown by (intros Ho; apply i_owned0 in Ho as (_ & _ & ? & ? & ?); congruence).
    assert (fd ∉ ab) as Hab by (intros Ho; apply i_ab0 in Ho as (_ & ? & ? & ?); congruence).
    split; try done; simpl.
    + intros x Hx. destruct (decide (x = fd)) as [->|]; [rewrite lookup_insert_eq; eauto|].
      rewrite lookup_insert_ne by done. eauto.
    + intros x Hx. apply i_ep0. rewrite lookup_insert_is_Some in Hx. destruct Hx as [<-|[_ Hx]]; [by exists m|done].
    + by rewrite lookup_insert_ne.
    + by constructor.
    + intros x [->|Hx]%elem_of_cons; [rewrite lookup_insert_eq; eauto 10|].
      rewrite lookup_insert_ne by congruence. eauto.
    + intros x Hx. rewrite lookup_insert_ne by congruence. eauto.
    + intros x m' Hx Hm'. destruct (decide (x = fd)) as [->|]; [right; left; by left|].
      rewrite lookup_insert_ne in Hm' by done. destruct (i_place0 x m' Hx Hm') as [|[|]]; [by left|right; left; by right|by right; right].
Qed.

(** *** The outcomes for a connection: kept, armed again, closed, given up *)

Lemma inv_keep conns own us k ab fd c :
  inv conns (fd :: own) us k ab → c.(sockfd) = fd → inv conns (fd :: own) (<[fd := c]> us) k ab.
Proof.
  intros [] Hs. assert (fd ≠ (-1)%Z) as Hn.
  { intros ->. destruct (i_owned0 (-1)%Z) as [Hc _]; [by left|]. by apply i_open0 in Hc as [? _]. }
  split; try done.
  - intros x. destruct (decide (x = fd)) as [->|]; [|rewrite lookup_insert_ne by done; apply i_conn0].
    rewrite lookup_insert_eq. split; [intros _; exists c; by rewrite Hs|]. intros _. apply i_owned0. by left.
  - intros x d [[<- <-]|[_ Hx]]%lookup_insert_Some; eauto.
Qed.

Lemma inv_rearm conns own us k ab fd k' :
  inv conns (fd :: own) us k ab → rearmed fd k k' → inv conns own us k' ab.
Proof.
  intros [] Hr. destruct (i_owned0 fd) as (Hc & Hab & m & Em & Har); [by left|].
  assert (∃ m', m' ∈ masks ∧ armed m' = true
    ∧ k' = Shared (<[fd := m']> k.(ep)) k.(opened) k.(nonblocking) k.(userCount)) as (m' & Hm' & Har' & ->).
  { destruct (i_open0 fd Hc) as [Ho _]. unfold rearmed, modfd, epoll_mod in Hr.
    rewrite !decide_True, Em in Hr by done.
    destruct Hr as [->| ->]; eexists; (split; [|split; [|done]]); try reflexivity; unfold masks;
      apply (bool_decide_unpack _); vm_compute; exact I. }
  apply NoDup_cons in i_nodup0 as [Hni Hnd]. destruct (i_open0 fd Hc) as [_ Hnl].
  split; try done; simpl.
  - intros x Hx. destruct (decide (x = fd)) as [->|]; [rewrite lookup_insert_eq; eauto|].
    rewrite lookup_insert_ne by done. eauto.
  - intros x Hx. apply i_ep0. rewrite lookup_insert_is_Some in Hx. destruct Hx as [<-|[_ Hx]]; [by exists m|done].
  - by rewrite lookup_insert_ne.
  - intros x Hx. rewrite lookup_insert_ne by (intros ->; done). apply i_owned0. by right.
  - intros x Hx. rewrite lookup_insert_ne by (intros ->; done). eauto.
  - intros x y Hx [[<- <-]|[Hne Hy]]%lookup_insert_Some; [by left|].
    destruct (i_place0 x y Hx Hy) as [|[[->|]%elem_of_cons|]]; [by left|done|by right; left|by right; right].
Qed.

Lemma inv_close conns own us k ab fd c :
  inv conns (fd :: own) us k ab → c.(sockfd) = (-1)%Z →
  inv (conns ∖ {[fd]}) own (<[fd := c]> us) (incr_users (-1) (removefd fd k)) ab.
Proof.
  intros [] Hs. destruct (i_owned0 fd) as (Hc & Hab & m & Em & Har); [by left|].
  destruct (i_open0 fd Hc) as [Ho Hnl]. apply NoDup_cons in i_nodup0 as [Hni Hnd].
  unfold incr_users, removefd, close, epoll_del. simpl. rewrite delete_delete_eq.
  assert (∀ x, x ∈ conns ∖ {[fd]} ↔ x ∈ conns ∧ x ≠ fd) as Hd by set_solver.
  split; simpl; try done.
  - rewrite i_count0, size_difference, size_singleton by set_solver.
    assert (size conns ≠ 0) by (rewrite size_non_empty_iff; set_solver). lia.
  - intros x. rewrite Hd. destruct (decide (x = fd)) as [->|].
    + rewrite lookup_insert_eq. split; [by intros [_ ?]|]. intros (d & [= <-] & ?). done.
    + rewrite lookup_insert_ne by done. rewrite i_conn0. naive_solver.
  - intros x d [[<- <-]|[_ Hx]]%lookup_insert_Some; [by right|eauto].
  - intros x [Hx Hne]%Hd. destruct (i_open0 x Hx). set_solver.
  - intros x [Hx Hne]%Hd. rewrite lookup_delete_ne by done. eauto.
  - intros x [y Hy]. apply lookup_delete_Some in Hy as [Hne Hy].
    destruct (i_ep0 x) as [|Hx]; [by exists y|by left|right; by apply Hd].
  - rewrite lookup_delete_ne by done. destruct i_listen0. split; [set_solver|done].
  - set_solver.
  - intros x Hx. assert (x ≠ fd) by (intros ->; done). rewrite lookup_delete_ne by done.
    destruct (i_owned0 x) as (? & ? & ?); [by right|]. split_and!; [by apply Hd|done|done].
  - intros x Hx. assert (x ≠ fd) by (intros ->; done). rewrite lookup_delete_ne by done.
    destruct (i_ab0 x) as (? & ?); [done|]. split; [by apply Hd|done].
  - intros x y [Hx Hne]%Hd Hy. rewrite lookup_delete_ne in Hy by done.
    destruct (i_place0 x y Hx Hy) as [|[[->|]%elem_of_cons|]]; [by left|done|by right; left|by right; right].
Qed.

Lemma inv_abandon conns own us k ab fd :
  inv conns (fd :: own) us k ab → inv conns own us k ({[fd]} ∪ ab).
Proof.
  intros []. destruct (i_owned0 fd) as (Hc & Hab & Hm); [by left|].
  apply NoDup_cons in i_nodup0 as [Hni Hnd]. split; try done.
  - intros x Hx. destruct (i_owned0 x) as (? & ? & ?); [by right|]. split_and!; [done|set_solver|done].
  - intros x [->%elem_of_singleton|Hx]%elem_of_union; [by split|eauto].
  - intros x y Hx Hy. destruct (i_place0 x y Hx Hy) as [|[[->|]%elem_of_cons|]]; [by left|..].
    + right; right. set_solver.
    + by right; left.
    + right; right. set_solver.
Qed.

(** *** New connections *)

Definition with_opened (fd : Z) k : shared := Shared k.(ep) ({[fd]} ∪ k.(opened)) k.(nonblocking) k.(userCount).

Lemma unopened conns own us k ab fd :
  inv conns own us k ab → fd ∉ k.(opened) → (fd ∉ conns) ∧ fd ≠ listenfd ∧ k.(ep) !! fd = None.
Proof.
  intros [] Hf. assert (fd ∉ conns) as Hc by (intros Hc; by apply i_open0 in Hc as [? _]).
  assert (fd ≠ listenfd) as Hl by (intros ->; by destruct i_listen0).
  split_and!; [done|done|]. destruct (ep k !! fd) eqn:E; [|done]. by destruct (i_ep0 fd) as [|?]; [by eexists|..].
Qed.

Lemma inv_refuse conns own us k ab fd :
  inv conns own us k ab → fd ∉ k.(opened) → inv conns own us (close fd (with_opened fd k)) ab.
Proof.
  intros Hi Hf. destruct (unopened _ _ _ _ _ _ Hi Hf) as (Hc & Hl & He). destruct Hi.
  unfold close, with_opened. simpl. rewrite delete_id by done.
  replace (({[fd]} ∪ opened k) ∖ {[fd]}) with (opened k) by set_solver. by split.
Qed.

Lemma addfd_new fd k :
  k.(ep) !! fd = None →
  addfd fd true (with_opened fd k)
  = Shared (<[fd := add_mask]> k.(ep)) ({[fd]} ∪ k.(opened)) ({[fd]} ∪ k.(nonblocking)) k.(userCount).
Proof.
  intros He. assert (fd ∈ {[fd]} ∪ k.(opened)) as Ho by set_solver.
  unfold addfd, setnonblocking, epoll_add, with_opened. simpl.
  rewrite (decide_True (P := fd ∈ {[fd]} ∪ k.(opened)) _ _ Ho), He. simpl.
  by rewrite (decide_True (P := fd ∈ {[fd]} ∪ k.(opened)) _ _ Ho).
Qed.

Lemma inv_accept conns own us k ab fd c d k' :
  inv conns own us k ab → fd ∉ k.(opened) → (0 ≤ fd)%Z → init_conn fd c (with_opened fd k) = (d, k') →
  inv ({[fd]} ∪ conns) own (<[fd := d]> us) k' ab.
Proof.
  intros Hi Hf Hp H. destruct (unopened _ _ _ _ _ _ Hi Hf) as (Hc & Hl & He). destruct Hi.
  assert (d.(sockfd) = fd ∧ ∃ nb, k' = Shared (<[fd := add_mask]> k.(ep)) ({[fd]} ∪ k.(opened)) nb (k.(userCount) + 1))
    as (Hd & nb & ->).
  { pose proof (f_equal (λ x, sockfd x.1) H) as H1. pose proof (f_equal snd H) as H2.
    cbn [snd fst init_conn] in H1, H2. split; [by rewrite <- H1|]. rewrite <- H2, (addfd_new _ _ He). by eexists. }
  assert (∀ x, x ∈ own ∨ x ∈ ab → x ≠ fd) as Hx by (intros x [Hx|Hx] ->; naive_solver).
  split; simpl; try done.
  - rewrite i_count0, size_union, size_singleton by set_solver. lia.
  - intros x. destruct (decide (x = fd)) as [->|Hne].
    + rewrite lookup_insert_eq. split; [|set_solver]. intros _. exists d. split; [done|]. rewrite Hd. lia.
    + rewrite lookup_insert_ne by done. rewrite <- i_conn0. set_solver.
  - intros x e [[<- <-]|[_ Hxe]]%lookup_insert_Some; eauto.
  - intros x [->%elem_of_singleton|Hxc]%elem_of_union; [set_solver|]. destruct (i_open0 x Hxc). set_solver.
  - intros x [->%elem_of_singleton|Hxc]%elem_of_union.
    + exists add_mask. rewrite lookup_insert_eq. split; [done|]. by left.
    + rewrite lookup_insert_ne by (intros ->; done). eauto.
  - intros x [<-|[_ Hs]]%lookup_insert_is_Some; [right; set_solver|].
    destruct (i_ep0 x Hs); [by left|right; set_solver].
  - rewrite lookup_insert_ne by done. destruct i_listen0. split; [set_solver|done].
  - assert (fd ≠ (-1)%Z) by lia. set_solver.
  - intros x Hxo. rewrite lookup_insert_ne by (apply not_eq_sym, Hx; by left).
    destruct (i_owned0 x Hxo) as (? & ? & ?). split_and!; [set_solver|done|done].
  - intros x Hxo. rewrite lookup_insert_ne by (apply not_eq_sym, Hx; by right).
    destruct (i_ab0 x Hxo) as (? & ?). split; [set_solver|done].
  - intros x m Hxc [[<- <-]|[Hne Hm]]%lookup_insert_Some; [by left|].
    apply (i_place0 x m); [set_solver|done].
Qed.

(** ** The steps *)

Definition conn_events (s : server) : list Z := filter (λ x, x ≠ listenfd) (map fst s.(events)).
Definition owned (s : server) : list Z := conn_events s ++ s.(queue) ++ s.(busy).

Record good conns (s : server) : Prop := {
  g_inv : inv conns (owned s) s.(users) s.(kernel) s.(abandoned);
  g_known : Forall (λ e : Z * Z, e.1 ≠ listenfd → known e.2) s.(events)
}.

Lemma inv_reports evs conns own us k ab k' :
  inv conns own us k ab → reports evs k = Some k' →
  inv conns (filter (λ x, x ≠ listenfd) (map fst evs) ++ own) us k' ab
  ∧ Forall (λ e : Z * Z, e.1 ≠ listenfd → known e.2) evs.
Proof.
  revert own k. induction evs as [|[fd ev] evs IH]; intros own k Hi H; simpl in H.
  - injection H as <-. by split.
  - destruct (report (fd, ev) k) as [k1|] eqn:E; [|done]. simpl in H.
    destruct (inv_report _ _ _ _ _ _ _ _ Hi E) as [[-> ->]|(Hne & Hk & Hi')].
    + destruct (IH _ _ Hi H) as [H1 H2]. split; [|by constructor].
      cbn [map fst]. rewrite filter_cons_False by (intros Hn; by apply Hn). exact H1.
    + destruct (IH _ _ Hi' H) as [H1 H2]. split; [|by constructor].
      cbn [map fst]. rewrite filter_cons_True by done. simpl. by rewrite Permutation_middle.
Qed.

Lemma removefd_rearmed fd k k' : rearmed fd k k' → incr_users (-1) (removefd fd k') = incr_users (-1) (removefd fd k).
Proof.
  intros H. unfold rearmed, modfd, epoll_mod in H. unfold incr_users, removefd, close, epoll_del.
  destruct (decide _); [|by destruct H as [->| ->]].
  destruct (ep k !! fd); [|by destruct H as [->| ->]]. destruct H as [->| ->]; simpl; by rewrite delete_insert_eq.
Qed.

Lemma close_conn_open c k : c.(sockfd) ≠ (-1)%Z →
  close_conn c k = (set_sockfd (-1) c, incr_users (-1) (removefd c.(sockfd) k)).
Proof. intros H. unfold close_conn. by rewrite (proj2 (Z.eqb_neq _ _)). Qed.

(** The object of an owned connection. *)
Lemma owned_user conns own us k ab fd :
  inv conns (fd :: own) us k ab → ∃ c, us !! fd = Some c ∧ c.(sockfd) = fd ∧ fd ≠ (-1)%Z.
Proof.
  intros []. destruct (i_owned0 fd) as (Hc & _); [by left|]. pose proof Hc as Hc'.
  apply i_conn0 in Hc as (c & Hu & Hs). exists c. destruct (i_self0 fd c Hu); [|done].
  split_and!; [done|done|]. congruence.
Qed.

(** The event loop on one event of a connection. *)
Lemma on_event_good conns s evs fd ev fuel rx tx s' :
  inv conns (fd :: conn_events (Server s.(users) s.(kernel) evs s.(queue) s.(busy) s.(abandoned)) ++ s.(queue) ++ s.(busy))
    s.(users) s.(kernel) s.(abandoned) → known ev →
  on_event fuel fd ev rx tx (Server s.(users) s.(kernel) evs s.(queue) s.(busy) s.(abandoned)) = Some s' →
  (∃ conns', inv conns' (owned s') s'.(users) s'.(kernel) s'.(abandoned)) ∧ s'.(events) = evs.
Proof.
  intros Hi Hk H. destruct (owned_user _ _ _ _ _ _ Hi) as (c & Hu & Hs & Hn). unfold on_event in H. simpl in H.
  rewrite Hu in H. destruct (has_bit ev hangup) eqn:E1.
  { rewrite close_conn_open, Hs in H by congruence. injection H as <-. split; [|done].
    eexists. by apply inv_close. }
  destruct (has_bit ev EPOLLIN) eqn:E2.
  { destruct (read fuel c rx) as [[[b d] rx']|] eqn:Er; [|done]. apply read_sockfd in Er. destruct b.
    - injection H as <-. unfold append, set_user. simpl. case_match; (split; [|done]); exists conns.
      + apply inv_abandon, inv_keep; [done|congruence].
      + unfold owned. simpl. eapply inv_perm; [done| |done..|apply inv_keep; [exact Hi|congruence]].
        unfold conn_events. simpl. rewrite Permutation_middle. apply Permutation_app_head.
        rewrite <- app_assoc. simpl. by rewrite Permutation_middle.
    - rewrite close_conn_open in H by congruence. injection H as <-. split; [|done]. eexists.
      simpl. rewrite Er, Hs. by apply inv_close. }
  destruct (has_bit ev EPOLLOUT) eqn:E3; [|by destruct (known_handled ev Hk) as [|[|]]; congruence].
  destruct (write fuel c (kernel s) tx) as [r d k' tx' sent'| |] eqn:Ew; [|done|done].
  apply write_effect in Ew as [Hd Hr]. rewrite Hs in Hr. destruct r.
  - injection H as <-. split; [|done]. exists conns. simpl. destruct Hr as [Hr|[[=] _]].
    eapply inv_rearm; [|exact Hr]. apply inv_keep; [done|congruence].
  - rewrite close_conn_open in H by congruence. injection H as <-. split; [|done]. eexists. simpl.
    rewrite Hd, Hs. replace (incr_users (-1) (removefd fd k')) with (incr_users (-1) (removefd fd (kernel s))).
    + by apply inv_close.
    + destruct Hr as [Hr|[_ ->]]; [by rewrite (removefd_rearmed _ _ _ Hr)|done].
Qed.

Lemma handle_good conns s fuel connfd rx tx s' :
  good conns s → (∀ fd, connfd = Some fd → (fd ∉ s.(kernel).(opened)) ∧ (0 ≤ fd)%Z) →
  handle listenfd fresh fuel connfd rx tx s = Some s' → ∃ conns', good conns' s'.
Proof.
  intros [Hi Hk] Hf H. unfold handle in H. unfold owned, conn_events in Hi.
  destruct (s.(events)) as [|[fd ev] evs] eqn:Ee; [done|]. inversion Hk as [|? ? Hk1 Hk2]; subst.
  cbn [map fst] in Hi. destruct (Z.eqb_spec fd listenfd) as [->|Hne].
  - rewrite filter_cons_False in Hi by (intros Hn; by apply Hn). unfold on_accept in H.
    destruct connfd as [fd|]; [|injection H as <-; by exists conns]. destruct (Hf fd eq_refl) as [Hfd Hp].
    cbn [kernel users userCount] in H. destruct (_ >=? _)%Z.
    + injection H as <-. exists conns. split; [|done]. by apply inv_refuse.
    + destruct (_ && _); [|done]. injection H as <-. unfold set_user.
      destruct (init_conn fd _ _) as [d k'] eqn:E. exists ({[fd]} ∪ conns). split; [|done].
      by eapply inv_accept; [exact Hi|exact Hfd|done|].
  - rewrite filter_cons_True in Hi by done.
    destruct (on_event_good conns s evs fd ev fuel rx tx s') as [[conns' Hi'] He]; [exact Hi|by apply Hk1|done|].
    exists conns'. split; [done|]. by rewrite He.
Qed.

(** The connection a worker has in hand, apart from the rest. *)
Lemma NoDup_pick (x : Z) l : NoDup l → x ∈ l → l ≡ₚ x :: filter (λ y, y ≠ x) l.
Proof.
  intros Hn Hx. apply NoDup_Permutation; [done| |].
  - constructor; [rewrite list_elem_of_filter; by intros [? _]|by apply NoDup_filter].
  - intros y. rewrite elem_of_cons, list_elem_of_filter. destruct (decide (y = x)); naive_solver.
Qed.

Lemma work_good conns s fuel fs fd s' :
  good conns s → fd ∈ s.(busy) → work fuel fs fd s = Some s' → ∃ conns', good conns' s'.
Proof.
  intros [Hi Hk] Hb H.
  assert (inv conns (fd :: conn_events s ++ s.(queue) ++ filter (λ x, x ≠ fd) s.(busy)) s.(users) s.(kernel) s.(abandoned)) as Hi'.
  { eapply inv_perm; [done| |done..|exact Hi]. unfold owned.
    assert (NoDup s.(busy)) as Hn by (apply i_nodup in Hi; by apply NoDup_app in Hi as (_ & _ & (_ & _ & ?)%NoDup_app)).
    rewrite (NoDup_pick fd s.(busy) Hn Hb) at 2. by rewrite !app_assoc, Permutation_middle. }
  destruct (owned_user _ _ _ _ _ _ Hi') as (c & Hu & Hs & Hne). unfold work in H. rewrite Hu in H.
  destruct (process fuel fs c (kernel s)) as [[d k']|] eqn:E; [|done]. injection H as <-.
  destruct (process_effect _ _ _ _ _ _ fd E) as [[Hd Hr]|[Hd ->]]; [done|done|apply Hi| |].
  - exists conns. split; [|done]. simpl. eapply inv_rearm; [|exact Hr]. by apply inv_keep.
  - exists (conns ∖ {[fd]}). split; [|done]. simpl. by apply inv_close.
Qed.

Lemma good_step conns s s' : good conns s → step listenfd fresh s s' → ∃ conns', good conns' s'.
Proof.
  intros Hg [evs k He H Hnd|fuel connfd rx tx s1 Hf H|s1 H|fuel fs fd s1 Hb H].
  - destruct Hg as [Hi Hk]. exists conns. unfold owned, conn_events in Hi. rewrite He in Hi. simpl in Hi.
    destruct (inv_reports _ _ _ _ _ _ _ Hi H) as [H1 H2]. by split.
  - by eapply handle_good.
  - exists conns. destruct Hg as [Hi Hk]. unfold take_request in H. destruct (s.(queue)) as [|fd q] eqn:Eq; [done|].
    case_match; [|done]. injection H as <-. split; [|done]. simpl.
    eapply inv_perm; [done| |done..|exact Hi]. unfold owned, conn_events. simpl. rewrite Eq.
    apply Permutation_app_head. simpl. by rewrite Permutation_middle.
  - by eapply work_good.
Qed.

Lemma good_start others : (-1)%Z ≠ listenfd → (-1)%Z ∉ others → good ∅ (listening listenfd others).
Proof.
  intros Hn Ho. split; [|constructor]. unfold listening, addfd, setnonblocking, epoll_add, owned, conn_events. simpl.
  rewrite (decide_True (P := listenfd ∈ {[listenfd]} ∪ others)) by set_solver. rewrite lookup_empty. simpl.
  rewrite (decide_True (P := listenfd ∈ {[listenfd]} ∪ others)) by set_solver.
  split; simpl; try done; try set_solver.
  - intros fd [<-|[_ H]]%lookup_insert_is_Some; [by left|]. rewrite lookup_empty in H. by destruct H.
  - rewrite lookup_insert_eq. split; [set_solver|done].
  - constructor.
Qed.

(** The open connections of the server, counted from the objects. *)
Definition open_conns (s : server) : gset Z := dom (filter (λ p, p.2.(sockfd) ≠ (-1)%Z) s.(users)).

Lemma open_conns_inv conns own s :
  inv conns own s.(users) s.(kernel) s.(abandoned) → open_conns s = conns.
Proof.
  intros Hi. apply set_eq. intros fd. rewrite (i_conn _ _ _ _ _ Hi). unfold open_conns. rewrite elem_of_dom.
  split.
  - intros [c Hc]. apply map_lookup_filter_Some in Hc as [Hc ?]. eauto.
  - intros (c & Hc & Hs). exists c. by apply map_lookup_filter_Some.
Qed.

Lemma reachable_good others s :
  (-1)%Z ≠ listenfd → (-1)%Z ∉ others → reachable listenfd fresh others s → ∃ conns, good conns s.
Proof.
  intros Hn Ho H. unfold reachable in H.
  assert (∃ conns, good conns (listening listenfd others)) as H0 by (exists ∅; by apply good_start).
  revert H0. induction H as [|x y z Hxy _ IH]; [done|]. intros [conns Hg]. apply IH. by eapply good_step.
Qed.

(** A connection is given up only when the queue is full. *)
Lemma step_abandons s s' fd :
  step listenfd fresh s s' → fd ∈ s'.(abandoned) → fd ∉ s.(abandoned) →
  (maxRequests < Z.of_nat (length s.(queue)))%Z.
Proof.
  intros [evs k He H Hnd|fuel connfd rx tx s1 Hf H|s1 H|fuel fs x s1 Hb H] Hin Hout; [done| | |].
  - unfold handle in H. destruct (s.(events)) as [|[x ev] evs]; [done|].
    destruct (x =? listenfd)%Z.
    + unfold on_accept in H. destruct connfd; [|by injection H as <-].
      destruct (_ >=? _)%Z; [by injection H as <-|]. destruct (_ && _); [by injection H as <-|done].
    + unfold on_event in H. destruct (_ !! x); [|done]. destruct (has_bit ev hangup); [by injection H as <-|].
      destruct (has_bit ev EPOLLIN).
      * destruct (read _ _ _) as [[[[] d] rx']|]; [|by injection H as <-|done]. injection H as <-.
        unfold append in Hin. simpl in Hin. destruct (_ <? _)%Z eqn:E; [by apply Z.ltb_lt in E|done].
      * destruct (has_bit ev EPOLLOUT); [|by injection H as <-].
        destruct (write _ _ _ _) as [[]| |]; by simplify_eq.
  - unfold take_request in H. destruct (s.(queue)); [done|]. case_match; by simplify_eq.
  - unfold work in H. destruct (_ !! x); [|done]. destruct (process _ _ _ _) as [[]|]; by simplify_eq.
Qed.
End invariant.

(** C4. The web server, for any clients and any interleaving of the event
    loop and the workers: [userCount] is the number of open connections; each
    connection has one owner at a time (it is reported to the main thread, in
    the work queue, or in the hands of a worker, once), and while it has one
    the kernel reports no event on it; and every open connection is waited for
    by epoll or has an owner, except those for which [append] was refused,
    which happens only when more than [maxRequests] requests wait. *)
Theorem server_owns_connections listenfd fresh others s :
  (-1)%Z ≠ listenfd → (-1)%Z ∉ others → reachable listenfd fresh others s →
  s.(kernel).(userCount) = Z.of_nat (size (open_conns s))
  ∧ NoDup (owned listenfd s)
  ∧ (∀ fd, fd ∈ owned listenfd s →
       fd ∈ open_conns s ∧ ∃ m, s.(kernel).(ep) !! fd = Some m ∧ ∀ ev, allows m ev = false)
  ∧ (∀ fd, fd ∈ open_conns s →
       (∃ m, s.(kernel).(ep) !! fd = Some m ∧ armed m = true) ∨ fd ∈ owned listenfd s ∨ fd ∈ s.(abandoned))
  ∧ (∀ s' fd, step listenfd fresh s s' → fd ∈ s'.(abandoned) → fd ∉ s.(abandoned) →
       (maxRequests < Z.of_nat (length s.(queue)))%Z).
Proof.
  intros Hn Ho H. destruct (reachable_good _ _ _ _ Hn Ho H) as (conns & Hi & _).
  rewrite (open_conns_inv _ _ _ _ Hi). split_and!; [apply Hi|apply Hi| | |].
  - intros fd Hfd. apply (i_owned _ _ _ _ _ _ Hi) in Hfd as (Hc & _ & m & Hm & Ha). split; [done|].
    exists m. split; [done|]. intros ev. unfold allows. by rewrite Ha.
  - intros fd Hfd. destruct (i_reg _ _ _ _ _ _ Hi fd Hfd) as (m & Hm & _).
    destruct (i_place _ _ _ _ _ _ Hi fd m Hfd Hm) as [|]; [left; by exists m|by right].
  - intros s' fd. apply step_abandons.
Qed.

(** A client connects, is accepted as descriptor 5, sends a request line, and
    its connection is taken by a worker. *)
Definition blank_conn : http_conn :=
  HttpConn 0 [] 0 0 0 CHECK_STATE_REQUESTLINE GET [] None None None 0 false [] 0
    FNull (Stat 0 0) (Iovec (PWrite 0) 0) (Iovec (PFile 0) 0) 0 0 0.
Definition client_sends : list recv_ev := [RData (B "GET / HTTP/1.1" ++ [CR; LF])].

Definition waited (evs : list (Z * Z)) (s : server) : server :=
  Server s.(users) (default s.(kernel) (reports evs s.(kernel))) evs s.(queue) s.(busy) s.(abandoned).
Definition stage0 : server := listening 3 {[0; 1; 2; 4]}%Z.
Definition stage1 : server := waited [(3%Z, EPOLLIN)] stage0.
Definition stage2 : server := default stage1 (handle 3 blank_conn 2 (Some 5%Z) [] [] stage1).
Definition stage3 : server := waited [(5%Z, EPOLLIN)] stage2.
Definition stage4 : server := default stage3 (handle 3 blank_conn 3 None client_sends [] stage3).
Definition stage5 : server := default stage4 (take_request stage4).

Lemma stage_reachable : reachable 3 blank_conn {[0; 1; 2; 4]}%Z stage5.
Proof.
  unfold reachable. apply rtc_l with stage1.
  { apply step_wait; [reflexivity|by vm_compute|apply NoDup_singleton]. }
  apply rtc_l with stage2.
  { apply (step_handle _ _ _ 2 (Some 5%Z) [] []); [|by vm_compute].
    intros fd [= <-]. split; [apply (bool_decide_unpack _); vm_compute; exact I|lia]. }
  apply rtc_l with stage3.
  { apply step_wait; [by vm_compute|by vm_compute|apply NoDup_singleton]. }
  apply rtc_l with stage4.
  { by apply (step_handle _ _ _ 3 None client_sends []); [|vm_compute]. }
  apply rtc_once, step_take. by vm_compute.
Qed.

Lemma server_owns_connections_witness :
  owned 3 stage5 = [5%Z] ∧ stage5.(kernel).(userCount) = 1%Z
  ∧ stage5.(kernel).(userCount) = Z.of_nat (size (open_conns stage5)).
Proof.
  split; [by vm_compute|]. split; [by vm_compute|].
  apply (server_owns_connections 3 blank_conn {[0; 1; 2; 4]}%Z stage5);
    [done|apply (bool_decide_unpack _); vm_compute; exact I|apply stage_reachable].
Defined.
