(* ===== verification/HttpServe.v ===== *)
(** * A client and the web server, from request to answer

    The path of a request through the server, composed from the parts: the
    kernel reports the connection readable and main.cpp reads it, a worker
    processes it, the kernel reports it writable and main.cpp writes the
    answer, in as many such events as the socket needs; on a persistent
    connection this repeats. *)
From S2P Require Import Prelude CString HttpConn HttpParse HttpWrite Server ServerProofs.

(** ** One request *)

(** The bytes of a request in segments of any sizes, and, for each event that
    reports the socket writable, the room it has at each [writev] until it is
    full. *)
Record turn := Turn { t_url : bytes; t_headers : list bytes; t_chunks : list bytes; t_rooms : list (list nat) }.
Definition socket (rooms : list nat) : list writev_ev := map WRoom rooms ++ [WAgain].

(** What main.cpp does with an answer: one [write] for each event that reports
    the connection writable, until the answer is out or the connection is
    closed. *)
Fixpoint deliver (fuel : nat) (fd : Z) (c : http_conn) (k : shared) (evs : list (list writev_ev))
  : option (bool * http_conn * shared * bytes) :=
  match evs with
  | [] => Some (true, c, k, [])
  | tx :: evs =>
      k ← report (fd, EPOLLOUT) k;
      match write fuel c k tx with
      | WDone true c k _ sent =>
          if (0 <? c.(bytesToSend))%Z then
            '(open, c, k, rest) ← deliver fuel fd c k evs;
            Some (open, c, k, sent ++ rest)
          else Some (true, c, k, sent)
      | WDone false c k _ sent => let '(c, k) := close_conn c k in Some (false, c, k, sent)
      | _ => None
      end
  end.

(** What main.cpp and a worker do with a connection from the event that
    reports its request to the end of the answer: whether it stays open, the
    connection, the kernel, and the bytes sent. *)
Definition exchange (fuel : nat) (fs : gmap bytes fnode) (fd : Z) (rx : list recv_ev) (evs : list (list writev_ev))
  (c : http_conn) (k : shared) : option (bool * http_conn * shared * bytes) :=
  k ← report (fd, EPOLLIN) k;
  match read fuel c rx with
  | Some (true, c, _) =>
      '(c, k) ← process fuel fs c k;
      deliver fuel fd c k evs
  | Some (false, c, _) => let '(c, k) := close_conn c k in Some (false, c, k, [])
  | None => None
  end.

(** The requests of a connection, as long as it stays open. *)
Fixpoint conversation (fuel : nat) (fs : gmap bytes fnode) (fd : Z) (ts : list turn) (c : http_conn) (k : shared)
  : option (bool * http_conn * shared * bytes) :=
  match ts with
  | [] => Some (true, c, k, [])
  | t :: ts =>
      '(open, c, k, sent) ← exchange fuel fs fd (map RData t.(t_chunks) ++ [RAgain]) (map socket t.(t_rooms)) c k;
      if (open : bool) then
        '(open, c, k, rest) ← conversation fuel fs fd ts c k;
        Some (open, c, k, sent ++ rest)
      else Some (false, c, k, sent)
  end.

(** ** What the server promises *)

(** The answer to a request: the text for the code of the file and, for a
    file that may be read, its bytes. *)
Definition keeps (t : turn) : bool := existsb keep_alive t.(t_headers).
Definition content (fs : gmap bytes fnode) (t : turn) : bytes :=
  match fs !! resource t.(t_url) with
  | Some f => if bool_decide (serve fs (resource t.(t_url)) = FILE_REQUEST) then f.(f_content) else []
  | None => []
  end.
Definition head_text (fs : gmap bytes fnode) (t : turn) : bytes :=
  answer_text (serve fs (resource t.(t_url))) (keeps t) (Z.of_nat (length (content fs t))).
Definition answer (fs : gmap bytes fnode) (t : turn) : bytes := head_text fs t ++ content fs t.

(** Whether the file of a file answer could be mapped: [mmap] refuses an empty
    file and one that could not be opened. *)
Definition mapped (fs : gmap bytes fnode) (t : turn) : bool :=
  match fs !! resource t.(t_url) with
  | Some f => negb (bool_decide (serve fs (resource t.(t_url)) = FILE_REQUEST))
              || match mmap f with FFailed => false | _ => true end
  | None => true
  end.

(** What a connection gets, and whether it is still open: the answers up to the
    first request that does not ask for a persistent connection; a file that
    cannot be mapped ends the connection without an answer. *)
Fixpoint dialogue (fs : gmap bytes fnode) (ts : list turn) : bool * bytes :=
  match ts with
  | [] => (true, [])
  | t :: ts =>
      if mapped fs t then
        if keeps t then let '(open, rest) := dialogue fs ts in (open, answer fs t ++ rest)
        else (false, answer fs t)
      else (false, [])
  end.

(** The answers to requests whose files can be mapped. *)
Fixpoint answers (fs : gmap bytes fnode) (ts : list turn) : bytes :=
  match ts with
  | [] => []
  | t :: ts => answer fs t ++ (if keeps t then answers fs ts else [])
  end.

(** A well-formed request that arrives whole: no [recv] of the [read] that
    collects its segments meets an empty socket before the last of them. *)
Record request_ok (fuel : nat) (fs : gmap bytes fnode) (t : turn) : Prop := {
  ro_url : url_ok t.(t_url);
  ro_headers : Forall header_ok t.(t_headers);
  ro_bytes : concat t.(t_chunks) = request t.(t_url) t.(t_headers);
  ro_chunks : Forall (λ x, x ≠ []) t.(t_chunks);
  ro_size : length (concat t.(t_chunks)) ≤ READ_BUFFER_SIZE;
  ro_file : ∀ f, fs !! resource t.(t_url) = Some f →
    (Z.of_nat (length f.(f_content)) < 2 ^ 31 - 4096)%Z;
  ro_fuel : length t.(t_chunks) < fuel ∧ length t.(t_headers) + 1 < fuel
}.

(** And a socket that takes the text in its first [writev] and the rest in any
    number of pieces and events. *)
Record turn_ok (fuel : nat) (fs : gmap bytes fnode) (t : turn) : Prop := {
  to_request : request_ok fuel fs t;
  to_first : mapped fs t = true → match concat t.(t_rooms) with r :: _ => length (head_text fs t) ≤ r | [] => False end;
  to_rooms : mapped fs t = true → covers (concat t.(t_rooms)) (length (answer fs t)) = true;
  to_event : t.(t_rooms) ≠ [];
  to_fuel : Forall (λ rooms, length rooms < fuel) t.(t_rooms)
}.

(** ** The kernel *)

(** [fd] is open, one-shot, and [ev] may be reported on it. *)
Record waits (fd ev : Z) (k : shared) : Prop := {
  wt_open : fd ∈ k.(opened);
  wt_mask : ∃ m, k.(ep) !! fd = Some m ∧ has_bit m EPOLLONESHOT = true ∧ allows m ev = true
}.

Lemma modfd_waits fd ev k m :
  ev = EPOLLIN ∨ ev = EPOLLOUT → fd ∈ k.(opened) → k.(ep) !! fd = Some m →
  waits fd ev (modfd fd ev k) ∧ (modfd fd ev k).(userCount) = k.(userCount).
Proof.
  intros Hev Ho Hm. unfold modfd, epoll_mod. rewrite decide_True, Hm by done. split; [|done].
  split; [done|]. eexists. cbn [ep]. rewrite lookup_insert_eq. split; [done|].
  by destruct Hev as [->| ->].
Qed.

Lemma report_waits fd ev k :
  waits fd ev k → ∃ k', report (fd, ev) k = Some k' ∧ fd ∈ k'.(opened) ∧ is_Some (k'.(ep) !! fd)
    ∧ k'.(userCount) = k.(userCount).
Proof.
  intros [Ho (m & Hm & H1 & Ha)]. unfold report. cbn [fst snd]. rewrite Hm, Ha, H1. eexists. split; [done|].
  cbn [opened ep userCount]. split; [done|]. split; [|done]. rewrite lookup_insert_eq. by eexists.
Qed.

Lemma init_conn_waits fd c k :
  fd ∈ k.(opened) → k.(ep) !! fd = None →
  waits fd EPOLLIN (init_conn fd c k).2 ∧ (init_conn fd c k).2.(userCount) = (k.(userCount) + 1)%Z.
Proof.
  intros Ho Hn. unfold init_conn, addfd. cbn [snd].
  set (ev := Z.lor (Z.lor EPOLLIN EPOLLRDHUP) EPOLLONESHOT).
  assert (epoll_add fd ev k = Shared (<[fd := ev]> k.(ep)) k.(opened) k.(nonblocking) k.(userCount)) as ->.
  { unfold epoll_add. by rewrite decide_True, Hn. }
  unfold setnonblocking. cbn [opened]. rewrite decide_True by done. split; [|done].
  split; [done|]. exists ev. cbn [ep incr_users]. by rewrite lookup_insert_eq.
Qed.

(** ** The steps of an exchange *)

Lemma init_id_received c d : init c = c → received d (init c) = received d c.
Proof. by intros ->. Qed.

Lemma serve_answerable fs p : answerable (serve fs p) = true.
Proof. unfold serve. by repeat case_match. Qed.

Lemma answer_text_size r keep n m : r ≠ FILE_REQUEST → answer_text r keep n = answer_text r keep m.
Proof. by destruct r. Qed.

Lemma content_other fs t : serve fs (resource t.(t_url)) ≠ FILE_REQUEST → content fs t = [].
Proof. intros H. unfold content. case_match; [|done]. by rewrite bool_decide_eq_false_2. Qed.

Lemma content_file fs t :
  serve fs (resource t.(t_url)) = FILE_REQUEST →
  ∃ f, fs !! resource t.(t_url) = Some f ∧ content fs t = f.(f_content).
Proof.
  intros H. unfold content. destruct (fs !! resource t.(t_url)) as [f|] eqn:E.
  - exists f. by rewrite bool_decide_eq_true_2.
  - unfold serve in H. by rewrite E in H.
Qed.

Lemma mmap_cases f : mmap f = FMapped f.(f_content) ∨ mmap f = FFailed.
Proof. unfold mmap. case_match; auto. Qed.

Lemma mapped_file fs t f :
  fs !! resource t.(t_url) = Some f → serve fs (resource t.(t_url)) = FILE_REQUEST →
  mmap f = if mapped fs t then FMapped f.(f_content) else FFailed.
Proof.
  intros Hf Hs. unfold mapped. rewrite Hf, Hs, bool_decide_eq_true_2 by done. by destruct (mmap_cases f) as [->| ->].
Qed.

Lemma mapped_other fs t : mapped fs t = false → serve fs (resource t.(t_url)) = FILE_REQUEST.
Proof. unfold mapped. case_match; [|done]. case_bool_decide; done. Qed.

(** What the worker finds out about the request. *)
Lemma processRead_turn fuel fs t c :
  request_ok fuel fs t →
  ∃ d, processRead fuel fs (received (concat t.(t_chunks)) c) = Done (serve fs (resource t.(t_url))) d
    ∧ wbuf_ok d ∧ d.(linger) = keeps t ∧ d.(sockfd) = c.(sockfd) ∧ d.(writeIndex) = 0 ∧ d.(bytesHaveSend) = 0%Z
    ∧ (serve fs (resource t.(t_url)) = FILE_REQUEST →
         d.(fileStat).(st_size) = Z.of_nat (length (content fs t)) ∧ (Z.of_nat (length (content fs t)) < 2 ^ 31 - 4096)%Z
         ∧ d.(fileAddress) = if mapped fs t then FMapped (content fs t) else FFailed).
Proof.
  intros Ht. pose proof (ro_size _ _ _ Ht) as Hsz. rewrite (ro_bytes _ _ _ Ht) in Hsz |- *.
  destruct (processRead_request_loop fuel fs c t.(t_url) t.(t_headers))
    as (d & Hd & _ & Hl & Hsock & Hwi & Hwb & Hh & Hf); [apply Ht|apply Ht|done|apply Ht|].
  exists d. split; [done|]. split_and!; try done.
  { split; [rewrite Hwb; apply length_replicate|]. rewrite Hwi. apply Nat.ltb_lt. reflexivity. }
  intros E. destruct (content_file fs t E) as (f & Hlk & ->). pose proof (ro_file _ _ _ Ht f Hlk) as Hlt.
  destruct (Hf f Hlk E) as [Hst Hm]. rewrite Hst, Hm, (mapped_file fs t f Hlk E). by cbn [st_size].
Qed.

(** The worker prepares the answer and arms the connection for writing. *)
Lemma process_request fuel fs t c k :
  request_ok fuel fs t → mapped fs t = true →
  ∃ d, process fuel fs (received (concat t.(t_chunks)) c) k = Some (d, modfd c.(sockfd) EPOLLOUT k)
    ∧ pending d (head_text fs t) (content fs t) 0 ∧ d.(linger) = keeps t ∧ d.(sockfd) = c.(sockfd).
Proof.
  intros Ht Hmp. destruct (processRead_turn fuel fs t c Ht) as (d & Hd & Hok & Hl & Hsock & Hwi & Hh & Hfile).
  unfold process. rewrite Hd. set (r := serve fs (resource t.(t_url))) in *. rewrite Hmp in Hfile.
  assert (answerable r = true) as Hr by apply serve_answerable.
  destruct (processWrite_pending r d Hr Hok Hwi Hh) as (e & He & Hp & Hel & Hes).
  { intros E. destruct (Hfile E) as (? & ? & ?). by exists (content fs t). }
  rewrite He. exists e. split; [|split; [|split; [by rewrite Hel|by rewrite Hes]]].
  - rewrite <- Hsock, <- Hes. by destruct r.
  - unfold head_text. fold r. rewrite <- Hl. destruct (decide (r = FILE_REQUEST)) as [E|E].
    + destruct (Hfile E) as (Hn & _ & Hb). rewrite Hn, E in Hp. rewrite E. cbn [answer_body] in Hp.
      unfold body in Hp. by rewrite Hb in Hp.
    + rewrite (content_other fs t E). rewrite (answer_text_size r _ _ (Z.of_nat 0) E) in Hp.
      by destruct r.
Qed.

(** And for a file that cannot be mapped, one that [writev] will refuse. *)
Lemma process_unmapped fuel fs t c k :
  request_ok fuel fs t → mapped fs t = false →
  ∃ d, process fuel fs (received (concat t.(t_chunks)) c) k = Some (d, modfd c.(sockfd) EPOLLOUT k)
    ∧ gather d = Efault ∧ (0 < d.(bytesToSend))%Z ∧ d.(sockfd) = c.(sockfd).
Proof.
  intros Ht Hmp. destruct (processRead_turn fuel fs t c Ht) as (d & Hd & Hok & Hl & Hsock & Hwi & Hh & Hfile).
  unfold process. rewrite Hd. rewrite (mapped_other fs t Hmp) in *. rewrite Hmp in Hfile.
  destruct (Hfile eq_refl) as (Hn & Hlt & Hf).
  destruct (processWrite_unmapped d Hok Hwi Hh) as (e & -> & Hg & Hb & _ & _ & Hes); [lia|done|].
  exists e. rewrite Hes, Hsock. done.
Qed.

(** The answer goes out, and the connection is ready for the next request or
    closed. *)
Definition after (fd : Z) (keep : bool) (users : Z) (c : http_conn) (k : shared) : Prop :=
  if keep then init c = c ∧ c.(sockfd) = fd ∧ waits fd EPOLLIN k ∧ k.(userCount) = users
  else c.(sockfd) = (-1)%Z ∧ (fd ∉ k.(opened)) ∧ k.(ep) !! fd = None ∧ k.(userCount) = (users - 1)%Z.

Lemma head_text_pos fs t : 0 < length (head_text fs t).
Proof.
  unfold head_text. pose proof (serve_answerable fs (resource t.(t_url))) as H.
  destruct (serve _ _); try discriminate H; cbn [answer_text]; unfold status_text; rewrite !length_app; cbn; lia.
Qed.

(** The event loop reads the whole request. *)
Lemma read_request fuel fs t c :
  request_ok fuel fs t → init c = c →
  read fuel c (map RData t.(t_chunks) ++ [RAgain]) = Some (true, received (concat t.(t_chunks)) c, []).
Proof.
  intros Ht Hi. rewrite <- Hi at 1. unfold read. rewrite decide_False by (apply Nat.ltb_nlt; reflexivity).
  rewrite <- received_nil. apply (read_loop_chunks _ _ []); apply Ht.
Qed.

(** *** Delivery *)

Lemma close_after fd c k :
  c.(sockfd) = fd → fd ≠ (-1)%Z → ∃ d k', close_conn c k = (d, k') ∧ after fd false k.(userCount) d k'
    ∧ d.(fileAddress) = c.(fileAddress).
Proof.
  intros <- Hfd. unfold close_conn. rewrite (proj2 (Z.eqb_neq _ _) Hfd). eexists _, _. split; [done|].
  split; [|done]. split_and!; [done| | |cbn; lia]; cbn; [set_solver|apply lookup_delete_eq].
Qed.

(** One event at which the rest of the answer goes out. *)
Lemma deliver_rest fuel fd c k rooms evs h f n :
  pending c h f n → n < length h + length f → c.(sockfd) = fd → fd ≠ (-1)%Z → waits fd EPOLLOUT k →
  (n = 0 → match rooms with r :: _ => length h ≤ r | [] => True end) →
  covers rooms (length h + length f - n) = true → length rooms ≤ fuel →
  ∃ d k', deliver fuel fd c k (socket rooms :: evs) = Some (c.(linger), d, k', drop n (h ++ f))
    ∧ after fd c.(linger) k.(userCount) d k' ∧ d.(fileAddress) = FNull.
Proof.
  intros Hp Hn Hs Hfd Hw Hfirst Hc Hf. cbn [deliver].
  destruct (report_waits _ _ _ Hw) as (k1 & -> & Ho & [m Hm] & Hu). cbn [mbind option_bind]. unfold write, socket.
  destruct (Z.eqb_spec c.(bytesToSend) 0) as [E|_]; [rewrite (pe_left _ _ _ _ Hp) in E; lia|].
  destruct (write_loop_all fuel rooms c k1 [WAgain] [] h f n) as (e & tx' & E & Hfa & Hini); try done.
  pose proof (write_loop_effect _ _ _ _ _ _ _ _ _ _ E) as [Hes _]. rewrite E, Hs in *. cbn [app].
  destruct (modfd_waits fd EPOLLIN k1 m) as [Hw2 Hu2]; [by left|done|done|].
  destruct (linger c).
  - assert (e.(bytesToSend) = 0%Z) as -> by (by rewrite <- (Hini eq_refl)). eexists _, _. split; [done|]. split; [|done].
    split_and!; [by apply Hini|done|done|congruence].
  - destruct (close_after fd e (modfd fd EPOLLIN k1) Hes Hfd) as (d & k' & -> & Ha & Hd). eexists d, k'. split; [done|].
    split; [|congruence]. by rewrite <- Hu, <- Hu2.
Qed.

Lemma covers_app a b n :
  0 < n → covers (a ++ b) n = true → covers a n = true ∨ sum_list a < n ∧ covers b (n - sum_list a) = true.
Proof.
  revert n. induction a as [|r a IH]; intros n Hn; cbn [app covers].
  - intros Hb. right. rewrite Nat.sub_0_r. by split.
  - destruct (Nat.leb_spec n r); [by left|]. intros Hc. destruct (IH (n - r) ltac:(lia) Hc) as [|[Hlt Hb]]; [by left|right].
    cbn. split; [lia|]. by rewrite Nat.sub_add_distr.
Qed.

(** Any number of events, between which the socket is full. *)
Lemma deliver_all fuel fd rooms c k h f n :
  pending c h f n → n < length h + length f → 0 < length h → c.(sockfd) = fd → fd ≠ (-1)%Z → waits fd EPOLLOUT k →
  (n = 0 → match concat rooms with r :: _ => length h ≤ r | [] => True end) →
  covers (concat rooms) (length h + length f - n) = true → Forall (λ r, length r < fuel) rooms →
  ∃ d k', deliver fuel fd c k (map socket rooms) = Some (c.(linger), d, k', drop n (h ++ f))
    ∧ after fd c.(linger) k.(userCount) d k' ∧ d.(fileAddress) = FNull.
Proof.
  revert c k n. induction rooms as [|r rooms IH]; intros c k n Hp Hn Hh Hs Hfd Hw Hfirst Hc Hf; [done|].
  apply Forall_cons in Hf as [Hr Hf]. cbn [concat map] in *.
  assert (n = 0 → match r with m :: _ => length h ≤ m | [] => True end) as Hfirst1.
  { intros E. specialize (Hfirst E). by destruct r. }
  apply covers_app in Hc as [Hc|[Hlt Hc]]; [|  |lia].
  { apply deliver_rest; try done. lia. }
  cbn [deliver]. destruct (report_waits _ _ _ Hw) as (k1 & -> & Ho & [m Hm] & Hu). cbn [mbind option_bind]. unfold write.
  change (socket r) with (map WRoom r ++ [WAgain]).
  destruct (Z.eqb_spec c.(bytesToSend) 0) as [E|_]; [rewrite (pe_left _ _ _ _ Hp) in E; lia|].
  destruct (write_loop_pause fuel r c k1 [] [] h f n Hp Hfirst1 ltac:(lia) Hr) as (d & -> & Hp' & Hl' & Hs').
  rewrite (pe_left _ _ _ _ Hp'), Hs. destruct (Z.ltb_spec 0 (Z.of_nat (length h + length f) - Z.of_nat (n + sum_list r))); [|lia].
  destruct (modfd_waits fd EPOLLOUT k1 m) as [Hw2 Hu2]; [by right|done|done|].
  destruct (IH d (modfd fd EPOLLOUT k1) (n + sum_list r)) as (e & k' & -> & Ha & He); try done; [lia|congruence| | |].
  { intros E. assert (n = 0) as -> by lia. specialize (Hfirst eq_refl). destruct r as [|x r]; [done|]. cbn in *. lia. }
  { by rewrite Nat.sub_add_distr. }
  cbn [mbind option_bind app]. rewrite Hl' in *. exists e, k'. split; [|split; [by rewrite <- Hu, <- Hu2|done]].
  do 2 f_equal. rewrite <- (take_drop (sum_list r) (drop n (h ++ f))) at 2. by rewrite drop_drop.
Qed.

(** An answer that [writev] refuses ends the connection. *)
Lemma deliver_unmapped fuel fd c k tx evs :
  gather c = Efault → (0 < c.(bytesToSend))%Z → c.(sockfd) = fd → fd ≠ (-1)%Z → waits fd EPOLLOUT k → 0 < fuel →
  ∃ d k', deliver fuel fd c k (tx :: evs) = Some (false, d, k', []) ∧ after fd false k.(userCount) d k'.
Proof.
  intros Hg Hb Hs Hfd Hw Hf. cbn [deliver].
  destruct (report_waits _ _ _ Hw) as (k1 & -> & _ & _ & Hu). cbn [mbind option_bind]. unfold write.
  destruct (Z.eqb_spec c.(bytesToSend) 0) as [E|_]; [lia|]. destruct fuel as [|fuel]; [lia|]. cbn [write_loop]. rewrite Hg.
  destruct (close_after fd (unmap c) k1) as (d & k' & -> & Ha & _); [by rewrite unmap_sockfd|done|].
  exists d, k'. by rewrite <- Hu.
Qed.

Lemma exchange_served fuel fs fd t c k :
  turn_ok fuel fs t → fd ≠ (-1)%Z → init c = c → c.(sockfd) = fd → waits fd EPOLLIN k →
  let open := mapped fs t && keeps t in
  ∃ d k', exchange fuel fs fd (map RData t.(t_chunks) ++ [RAgain]) (map socket t.(t_rooms)) c k
    = Some (open, d, k', if mapped fs t then answer fs t else []) ∧ after fd open k.(userCount) d k'.
Proof.
  intros Ht Hfd Hi Hs Hw open. unfold exchange.
  destruct (report_waits _ _ _ Hw) as (k1 & -> & Ho1 & [m1 Hm1] & Hu1). cbn [mbind option_bind].
  pose proof (to_request _ _ _ Ht) as Hq. rewrite (read_request fuel fs t c Hq Hi), <- Hu1.
  destruct (modfd_waits fd EPOLLOUT k1 m1) as [Hw2 <-]; [by right|done|done|].
  destruct (mapped fs t) eqn:Emp; cbn [andb] in open.
  - destruct (process_request fuel fs t c k1 Hq Emp) as (d & -> & Hp & Hl & Hds). rewrite Hs in *.
    cbn [mbind option_bind]. pose proof (head_text_pos fs t) as Hpos.
    destruct (deliver_all fuel fd t.(t_rooms) d (modfd fd EPOLLOUT k1) (head_text fs t) (content fs t) 0)
      as (e & k' & E & Ha & _); try done; try lia; try apply Ht.
    { intros _. pose proof (to_first _ _ _ Ht Emp). by destruct (concat (t_rooms t)). }
    { rewrite Nat.sub_0_r, <- length_app. by apply Ht. }
    rewrite drop_0, Hl in *. by exists e, k'.
  - destruct (process_unmapped fuel fs t c k1 Hq Emp) as (d & -> & Hg & Hb & Hds). rewrite Hs in *.
    cbn [mbind option_bind]. pose proof (to_event _ _ _ Ht). pose proof (to_fuel _ _ _ Ht) as Hf.
    destruct (t_rooms t) as [|r rooms]; [done|]. apply Forall_cons in Hf as [Hf _]. apply deliver_unmapped; try done. lia.
Qed.

Lemma conversation_ready fuel fs fd ts c k :
  Forall (turn_ok fuel fs) ts → fd ≠ (-1)%Z → init c = c → c.(sockfd) = fd → waits fd EPOLLIN k →
  ∃ d k', conversation fuel fs fd ts c k = Some ((dialogue fs ts).1, d, k', (dialogue fs ts).2)
    ∧ after fd (dialogue fs ts).1 k.(userCount) d k'.
Proof.
  revert c k. induction ts as [|t ts IH]; intros c k Hts Hfd Hi Hs Hw.
  { exists c, k. by split. }
  apply Forall_cons in Hts as [Ht Hts]. cbn [conversation dialogue].
  destruct (exchange_served fuel fs fd t c k Ht Hfd Hi Hs Hw) as (d & k1 & -> & Ha).
  cbn [mbind option_bind]. destruct (mapped fs t); cbn [andb] in *; [|by exists d, k1].
  destruct (keeps t); [|by exists d, k1].
  destruct Ha as (Hi1 & Hs1 & Hw1 & Hu1). destruct (IH d k1 Hts Hfd Hi1 Hs1 Hw1) as (e & k2 & -> & He).
  cbn [mbind option_bind]. exists e, k2. destruct (dialogue fs ts) as [o b']. split; [done|]. by rewrite <- Hu1.
Qed.

(** ** Properties *)

(** C11. An answer [h ++ f] that is prepared on an open connection is delivered
    completely and in order, in any number of pieces and over any number of
    events that report the socket writable, between which it is full, provided
    the first [writev] that sends anything takes at least the text [h] and the
    socket takes all of the answer in the end: the bytes that reach the socket
    are the text and the file, the file is unmapped, and the connection is then
    armed for the next request if it is persistent and closed if it is not. *)
Theorem write_delivers_answer fuel fd c k rooms h f :
  pending c h f 0 → 0 < length h → c.(sockfd) = fd → fd ≠ (-1)%Z → waits fd EPOLLOUT k →
  match concat rooms with r :: _ => length h ≤ r | [] => False end →
  covers (concat rooms) (length h + length f) = true → Forall (λ r, length r < fuel) rooms →
  ∃ d k', deliver fuel fd c k (map socket rooms) = Some (c.(linger), d, k', h ++ f)
    ∧ after fd c.(linger) k.(userCount) d k' ∧ d.(fileAddress) = FNull.
Proof.
  intros Hp Hh Hs Hfd Hw Hr Hc Hf. apply (deliver_all fuel fd rooms c k h f 0); try done; [lia| |by rewrite Nat.sub_0_r].
  intros _. by destruct (concat rooms).
Qed.

(** C3. A connection is served from [accept] to its last answer, whatever the
    object [users[fd]] held before.  Its client sends well-formed GET requests
    without a body (at most 2048 bytes, for paths whose files are smaller than
    2^31 - 4096 bytes), each of them when the last answer is out, in segments
    of any sizes that are all there before the server's [recv] finds the socket
    empty; its socket takes the text of an answer in the first [writev] that
    sends anything, and the rest in any number of pieces and events.  The server
    then answers every request in turn with exactly the text and the file its
    path deserves, up to the first that does not ask for a persistent connection;
    then the connection is closed and forgotten, and otherwise it is open and
    waits for the next request.  A request for a readable file that cannot be
    mapped, because it is empty or cannot be opened, gets no answer: [writev]
    refuses it and the connection is closed. *)
Theorem conversation_served fuel fs fd ts c k :
  Forall (turn_ok fuel fs) ts → fd ≠ (-1)%Z → fd ∈ k.(opened) → k.(ep) !! fd = None →
  ∃ d k', conversation fuel fs fd ts (init_conn fd c k).1 (init_conn fd c k).2
      = Some ((dialogue fs ts).1, d, k', (dialogue fs ts).2)
    ∧ after fd (dialogue fs ts).1 (k.(userCount) + 1) d k'.
Proof.
  intros Hts Hfd Ho Hn. destruct (init_conn_waits fd c k Ho Hn) as [Hw <-].
  by apply conversation_ready.
Qed.

(** ** Witnesses: two answers, one of them over two events; then an empty file *)

Definition empty_path : bytes := resource (B "/empty").
Definition shop_fs : gmap bytes fnode := <[empty_path := FNode 33188 [] true]> sample_fs.

Definition first_turn : turn :=
  Turn (B "/index.html") sample_headers
    [take 20 (request (B "/index.html") sample_headers); drop 20 (request (B "/index.html") sample_headers)] [[100]; [20; 40]].
Definition second_turn : turn := Turn (B "/none") [] [request (B "/none") []] [[500]].
Definition third_turn : turn := Turn (B "/empty") sample_headers [request (B "/empty") sample_headers] [[500]].
Definition sample_kernel : shared := Shared ∅ {[5%Z]} ∅ 0.

Lemma second_url_ok : url_ok (B "/none").
Proof. split; [done|]. repeat (constructor; [split_and!; done || set_solver|]). constructor. Qed.

Lemma third_url_ok : url_ok (B "/empty").
Proof. split; [done|]. repeat (constructor; [split_and!; done || set_solver|]). constructor. Qed.

Lemma sample_files p f : sample_fs !! p = Some f → (Z.of_nat (length f.(f_content)) < 2 ^ 31 - 4096)%Z.
Proof. unfold sample_fs. intros [_ <-]%lookup_singleton_Some. done. Qed.

Lemma shop_files p f : shop_fs !! p = Some f → (Z.of_nat (length f.(f_content)) < 2 ^ 31 - 4096)%Z.
Proof. unfold shop_fs. intros [[_ <-]|[_ H]]%lookup_insert_Some; [done|by eapply sample_files]. Qed.

Lemma first_request_ok fs :
  (∀ p f, fs !! p = Some f → (Z.of_nat (length f.(f_content)) < 2 ^ 31 - 4096)%Z) → request_ok 5 fs first_turn.
Proof.
  intros Hf. split; cbn [t_url t_headers t_chunks first_turn];
    [apply sample_url_ok|apply sample_headers_ok|reflexivity|repeat constructor; discriminate|apply Nat.leb_le; reflexivity
    |apply Hf|split; apply Nat.leb_le; reflexivity].
Qed.

Lemma second_request_ok fs :
  (∀ p f, fs !! p = Some f → (Z.of_nat (length f.(f_content)) < 2 ^ 31 - 4096)%Z) → request_ok 5 fs second_turn.
Proof.
  intros Hf. split; cbn [t_url t_headers t_chunks second_turn];
    [apply second_url_ok|constructor|reflexivity|repeat constructor; discriminate|apply Nat.leb_le; reflexivity
    |apply Hf|split; apply Nat.leb_le; reflexivity].
Qed.

Lemma third_request_ok : request_ok 5 shop_fs third_turn.
Proof.
  split; cbn [t_url t_headers t_chunks third_turn];
    [apply third_url_ok|apply sample_headers_ok|reflexivity|repeat constructor; discriminate|apply Nat.leb_le; reflexivity
    |apply shop_files|split; apply Nat.leb_le; reflexivity].
Qed.

Lemma shop_turns_ok : Forall (turn_ok 5 shop_fs) [first_turn; third_turn; second_turn].
Proof.
  repeat (apply Forall_cons; split); [| | |constructor]; split;
    [apply first_request_ok, shop_files| | | | |apply third_request_ok| | | | |apply second_request_ok, shop_files| | | |];
    try reflexivity; try done; try (intros _; apply Nat.leb_le; reflexivity); repeat (constructor; [apply Nat.ltb_lt; reflexivity|]); constructor.
Qed.

Lemma conversation_served_witness :
  ∃ d k', conversation 5 shop_fs 5 [first_turn; third_turn; second_turn]
      (init_conn 5 sample_conn sample_kernel).1 (init_conn 5 sample_conn sample_kernel).2
    = Some (false, d, k', answer sample_fs first_turn) ∧ k'.(userCount) = 0%Z.
Proof.
  destruct (conversation_served 5 shop_fs 5 [first_turn; third_turn; second_turn] sample_conn sample_kernel)
    as (d & k' & H & Ha);
    [apply shop_turns_ok|discriminate|by apply (bool_decide_unpack _); vm_compute|reflexivity|].
  replace (dialogue shop_fs [first_turn; third_turn; second_turn]) with (false, answer sample_fs first_turn) in H, Ha
    by (vm_compute; reflexivity).
  exists d, k'. split; [exact H|]. destruct Ha as (_ & _ & _ & Hu). exact Hu.
Defined.

Lemma write_delivers_answer_witness :
  ∃ d k', deliver 3 5 (answered_conn FILE_REQUEST) (Shared {[5%Z := mod_mask EPOLLOUT]} {[5%Z]} ∅ 1) (map socket [[90]; []; [3; 60]])
    = Some (false, d, k', answer_text FILE_REQUEST false 13 ++ B "<html></html>") ∧ d.(fileAddress) = FNull.
Proof.
  destruct (write_delivers_answer 3 5 (answered_conn FILE_REQUEST) (Shared {[5%Z := mod_mask EPOLLOUT]} {[5%Z]} ∅ 1) [[90]; []; [3; 60]]
              (answer_text FILE_REQUEST false 13) (B "<html></html>")) as (d & k' & H & _ & Hd);
    [apply (answered_pending FILE_REQUEST eq_refl)|apply Nat.ltb_lt; reflexivity|reflexivity|discriminate| 
    |apply Nat.leb_le; reflexivity|reflexivity|repeat (constructor; [apply Nat.ltb_lt; reflexivity|]); constructor|].
  { split; [by apply (bool_decide_unpack _); vm_compute|]. by exists (mod_mask EPOLLOUT). }
  exists d, k'. split; [exact H|exact Hd].
Defined.
