(* ===== verification/Clients.v ===== *)
(** * All clients of the web server

    The server of Server.v with the clients at the other ends of its
    connections.  The event loop, the eight workers and any number of clients
    interleave in every way Server.v allows, and every step of Server.v is a
    step here ([step_cstep]).

    The state holds a record for each client that has kept to the following
    discipline since it was accepted.  It has a script of well-formed GET
    requests without a body, of at most 2048 bytes each, for paths whose files
    are smaller than 2^31 - 4096 bytes and, when they are readable, not empty and
    open to the server.  It sends the next request when the answer to the last
    one is out; the request arrives whole before the server's [recv] finds the
    socket empty.  The first [writev] of an answer that sends anything takes its
    text (the status line and the header); the rest may need any number of
    pieces and of events.  It may hang up, or its connection break, at any time.

    A client that does anything else, like all clients that never agreed to the
    discipline, is no longer in the record: its connection goes on in the server
    with arbitrary results of [recv] and [writev].  What the discipline excludes
    is what the code does not get right: a request cut by an empty socket
    ([HttpParse.processRead_answers_cut_line]), a body that is announced and
    missing ([HttpParse.processRead_hangs]), a text sent in pieces
    ([HttpWrite.write_breaks_on_split_text]), and an empty file
    ([HttpServe.conversation_served]). *)
From S2P Require Import Prelude CString HttpConn HttpParse HttpWrite Server ServerProofs HttpServe.

(** ** Clients *)

Inductive stage :=
| Asking                  (* its next request, if any, has not been read *)
| Asked                   (* its request has been read *)
| Answering (n : nat)     (* its answer is prepared, and [n] bytes of it sent *)
| Gone.
#[export] Instance stage_eq : EqDecision stage.
Proof. solve_decision. Defined.

Record client := Client {
  script : list turn;
  asked : nat  (* how many requests of the script have been read *);
  at_stage : stage;
  got : bytes  (* all bytes sent to it *)
}.

Definition goes (st : stage) (x : client) : client := Client x.(script) x.(asked) st x.(got).
(** The request that is being answered. *)
Definition current (x : client) : option turn := match x.(asked) with S j => x.(script) !! j | 0 => None end.

Section clients.
Variables (listenfd : Z) (fresh : http_conn) (fuel : nat) (fs : gmap bytes fnode).

(** The client after [d] has been sent to it by a [write] that returned [r]. *)
Definition hears (t : turn) (n : nat) (r : bool) (d : bytes) (x : client) : client :=
  Client x.(script) x.(asked)
    (if decide (n + length d = length (answer fs t)) then if keeps t then Asking else Gone
     else if r then Answering (n + length d) else Gone)
    (x.(got) ++ d).

(** The requests of a client in the record. *)
Definition disciplined (t : turn) : Prop := request_ok fuel fs t ∧ mapped fs t = true.

(** What may happen between client [x] and its connection [c] when an event of
    the connection is handled: what [recv] and [writev] meet, and the client
    afterwards.  A request arrives whole, and the first [writev] of an answer
    takes its text; the rest of the answer may need any number of events. *)
Inductive meets (c : http_conn) (k : shared) (ev : Z) (x : client) : list recv_ev → list writev_ev → client → Prop :=
| meets_hangup rx tx :
    has_bit ev hangup = true → meets c k ev x rx tx (goes Gone x)
| meets_request t :
    has_bit ev hangup = false → has_bit ev EPOLLIN = true →
    x.(at_stage) = Asking → x.(script) !! x.(asked) = Some t →
    meets c k ev x (map RData t.(t_chunks) ++ [RAgain]) [] (Client x.(script) (S x.(asked)) Asked x.(got))
| meets_end e :
    has_bit ev hangup = false → has_bit ev EPOLLIN = true → e = REof ∨ e = RFail →
    meets c k ev x [e] [] (goes Gone x)
| meets_room t n tx r c' k' tx' d :
    has_bit ev hangup = false → has_bit ev EPOLLIN = false → has_bit ev EPOLLOUT = true →
    x.(at_stage) = Answering n → current x = Some t →
    (n = 0 → match tx with WRoom m :: _ => length (head_text fs t) ≤ m | _ => True end) → length tx < fuel →
    write fuel c k tx = WDone r c' k' tx' d →
    meets c k ev x [] tx (hears t n r d x).

(** ** The server with its clients *)

Definition system : Type := server * gmap Z client.

(** The clients after an [accept] of one with script [ts]. *)
Definition welcome (connfd : option Z) (ts : list turn) (s : server) (cs : gmap Z client) : gmap Z client :=
  match connfd with
  | Some fd => if (s.(kernel).(userCount) >=? MAX_FD)%Z then cs else <[fd := Client ts 0 Asking []]> cs
  | None => cs
  end.

Inductive cstep : system → system → Prop :=
| cstep_wait s cs evs k :
    s.(events) = [] → reports evs s.(kernel) = Some k → NoDup (map fst evs) →
    cstep (s, cs) (Server s.(users) k evs s.(queue) s.(busy) s.(abandoned), cs)
| cstep_accept s cs ev evs connfd ts s' :
    s.(events) = (listenfd, ev) :: evs →
    (∀ fd, connfd = Some fd → (fd ∉ s.(kernel).(opened)) ∧ (0 ≤ fd)%Z) →
    Forall disciplined ts →
    handle listenfd fresh fuel connfd [] [] s = Some s' →
    cstep (s, cs) (s', welcome connfd ts s cs)
| cstep_event s cs fd ev evs c x rx tx x' s' :
    s.(events) = (fd, ev) :: evs → fd ≠ listenfd →
    s.(users) !! fd = Some c → cs !! fd = Some x → meets c s.(kernel) ev x rx tx x' →
    handle listenfd fresh fuel None rx tx s = Some s' →
    cstep (s, cs) (s', <[fd := x']> cs)
| cstep_take s cs s' : take_request s = Some s' → cstep (s, cs) (s', cs)
| cstep_work s cs fd x s' :
    fd ∈ s.(busy) → cs !! fd = Some x → x.(at_stage) = Asked →
    work fuel fs fd s = Some s' → cstep (s, cs) (s', <[fd := goes (Answering 0) x]> cs)
(* everybody else, and a client that leaves the discipline *)
| cstep_other_accept s cs ev evs connfd n rx tx s' :
    s.(events) = (listenfd, ev) :: evs →
    (∀ fd, connfd = Some fd → (fd ∉ s.(kernel).(opened)) ∧ (0 ≤ fd)%Z) →
    handle listenfd fresh n connfd rx tx s = Some s' →
    cstep (s, cs) (s', match connfd with Some fd => delete fd cs | None => cs end)
| cstep_other_event s cs fd ev evs connfd n rx tx s' :
    s.(events) = (fd, ev) :: evs → fd ≠ listenfd →
    handle listenfd fresh n connfd rx tx s = Some s' →
    cstep (s, cs) (s', delete fd cs)
| cstep_other_work s cs fd n fs' s' :
    fd ∈ s.(busy) → work n fs' fd s = Some s' → cstep (s, cs) (s', delete fd cs).

Definition creachable (others : gset Z) : system → Prop := rtc cstep (listening listenfd others, ∅).

(** It is the server of Server.v. *)
Lemma cstep_step a b : cstep a b → step listenfd fresh a.1 b.1.
Proof.
  intros [|? ? ? ? ? ? ? He Hf ? H|? ? ? ? ? ? ? ? ? ? ? ? ? ? ? ? H| | | |s cs fd ev evs connfd n rx tx s' He Hne H|];
    cbn [fst].
  - by apply step_wait.
  - by eapply step_handle.
  - by eapply step_handle; [|exact H].
  - by apply step_take.
  - by eapply step_work.
  - by eapply step_handle.
  - apply (step_handle listenfd fresh s n None rx tx s'); [done|]. unfold handle in *. rewrite He in *.
    by rewrite (proj2 (Z.eqb_neq fd listenfd)) in * by done.
  - by eapply step_work.
Qed.

(** And nothing the server can do is left out. *)
Lemma step_cstep s cs s' : step listenfd fresh s s' → ∃ cs', cstep (s, cs) (s', cs').
Proof.
  intros [evs k He Hr Hn|n connfd rx tx s1 Hf H|s1 H|n fs' fd s1 Hb H].
  - eexists. by apply cstep_wait.
  - destruct (s.(events)) as [|[fd ev] evs] eqn:He; [unfold handle in H; by rewrite He in H|].
    destruct (decide (fd = listenfd)) as [->|Hne]; eexists; [by eapply cstep_other_accept|by eapply cstep_other_event].
  - eexists. by apply cstep_take.
  - eexists. by eapply cstep_other_work.
Qed.

Lemma creachable_reachable others a : creachable others a → reachable listenfd fresh others a.1.
Proof.
  unfold creachable, reachable. change (listening listenfd others) with (listening listenfd others, ∅ : gmap Z client).1 at 2.
  induction 1 as [|x y z Hxy _ IH]; [apply rtc_refl|]. eapply rtc_l; [by apply cstep_step|done].
Qed.
End clients.
