(* ===== verification/ClientsProofs.v ===== *)
(** * Every client of the web server is served *)
From S2P Require Import Prelude CString HttpConn HttpParse HttpWrite Server ServerProofs HttpServe Clients.

(** ** One event of the answer *)

(** Whatever the socket does after the text: the bytes sent are the next ones
    of the answer, and the connection is finished, paused, or broken. *)
Lemma write_loop_any fuel tx c k sent h f n :
  pending c h f n → n < length h + length f → 0 < length h →
  (n = 0 → match tx with WRoom m :: _ => length h ≤ m | _ => True end) → length tx < fuel →
  ∃ r d k' tx' out, write_loop fuel c k tx sent = WDone r d k' tx' (sent ++ out)
    ∧ out = take (length out) (drop n (h ++ f)) ∧ d.(sockfd) = c.(sockfd)
    ∧ (r = true ∧ n + length out < length h + length f ∧ pending d h f (n + length out) ∧ d.(linger) = c.(linger)
         ∧ k' = modfd c.(sockfd) EPOLLOUT k
       ∨ n + length out = length h + length f ∧ r = c.(linger) ∧ k' = modfd c.(sockfd) EPOLLIN k ∧ (r = true → init d = d)
       ∨ r = false ∧ n + length out < length h + length f ∧ k' = k).
Proof.
  revert fuel c sent n. induction tx as [|[m| |] tx IH]; intros fuel c sent n Hp Hn Hh Hfirst Hf;
    (destruct fuel as [|fuel]; [simpl in Hf; lia|]); cbn [write_loop]; rewrite (gather_pending _ _ _ _ Hp).
  - exists true, c, (modfd c.(sockfd) EPOLLOUT k), [], []. rewrite app_nil_r, Nat.add_0_r. auto 10.
  - set (out := take m (drop n (h ++ f))).
    assert (length out = min m (length h + length f - n)) as Lo.
    { unfold out. by rewrite length_take, length_drop, length_app. }
    assert (pending (advance (Z.of_nat (length out)) c) h f (n + length out)) as Hp'.
    { apply advance_pending; [done|lia|]. intros ->. specialize (Hfirst eq_refl). simpl in Hfirst. lia. }
    destruct (advance_linger (Z.of_nat (length out)) c) as [Al As].
    set (d := advance _ _) in *. cbv zeta. rewrite (pe_left _ _ _ _ Hp').
    assert (out = take (length out) (drop n (h ++ f))) as Eo.
    { rewrite Lo. unfold out. rewrite <- (length_app h f), <- length_drop.
      destruct (decide (m ≤ length (drop n (h ++ f)))); [by rewrite Nat.min_l|]. by rewrite Nat.min_r, !take_ge by lia. }
    destruct (Z.leb_spec (Z.of_nat (length h + length f) - Z.of_nat (n + length out)) 0).
    + rewrite unmap_linger, unmap_sockfd, Al, As.
      destruct (linger c) eqn:El; eexists _, _, _, _, out; (split; [done|]); (split; [done|]);
        (split; [cbn; by rewrite unmap_sockfd|]); right; left; (split; [lia|]); split_and!; done.
    + destruct (IH fuel d (sent ++ out) (n + length out)) as (r & e & k' & tx' & o2 & -> & Ho2 & Hs & Hor);
        [done|lia|done| |simpl in Hf; lia|].
      { intros Hz. specialize (Hfirst ltac:(lia)). simpl in Hfirst. lia. }
      exists r, e, k', tx', (out ++ o2). rewrite app_assoc, length_app, Nat.add_assoc, <- Al, <- As.
      split; [done|]. split; [|by split].
      by rewrite <- take_take_drop, drop_drop, <- Eo, <- Ho2.
  - exists true, c, (modfd c.(sockfd) EPOLLOUT k), tx, []. rewrite app_nil_r, Nat.add_0_r. auto 10.
  - exists false, (unmap c), k, tx, []. rewrite app_nil_r, Nat.add_0_r, unmap_sockfd. auto 10.
Qed.

(** ** Answers *)

Lemma answers_app fs a b : forallb keeps a = true → answers fs (a ++ b) = answers fs a ++ answers fs b.
Proof.
  induction a as [|t a IH]; [done|]. cbn [forallb app answers]. intros [Ht Ha]%andb_prop.
  rewrite Ht, IH, app_assoc by done. done.
Qed.

Lemma answer_length fs t : length (answer fs t) = length (head_text fs t) + length (content fs t).
Proof. apply length_app. Qed.

(** ** Masks and events *)

(** The masks of a stage: those the server sets, and only while it waits. *)
Definition masked (st : stage) (m : Z) : Prop :=
  armed m = true →
  match st with
  | Asking => m = add_mask ∨ m = mod_mask EPOLLIN
  | Answering _ => m = mod_mask EPOLLOUT
  | Asked | Gone => False
  end.
(** The events that can be pending at a stage. *)
Definition fits (st : stage) (ev : Z) : Prop :=
  match st with
  | Asking => has_bit ev EPOLLOUT = false
  | Answering _ => has_bit ev EPOLLIN = false
  | Asked | Gone => False
  end.

Lemma land_disjoint a s b : Z.land a (Z.lnot s) = 0%Z → Z.land s b = 0%Z → Z.land a b = 0%Z.
Proof.
  intros H1 H2. apply Z.bits_inj. intros i.
  pose proof (f_equal (λ z, Z.testbit z i) H1) as E1. pose proof (f_equal (λ z, Z.testbit z i) H2) as E2. cbv beta in E1, E2.
  rewrite Z.land_spec, Z.bits_0 in *. destruct (Z.ltb_spec i 0); [by rewrite Z.testbit_neg_r|].
  rewrite Z.lnot_spec in E1 by done. by destruct (Z.testbit a i), (Z.testbit s i), (Z.testbit b i).
Qed.

Lemma masked_fits st m ev : masked st m → allows m ev = true → fits st ev.
Proof.
  intros Hm Ha. unfold allows in Ha. apply andb_prop in Ha as [[Har _]%andb_prop Hs]. apply Z.eqb_eq in Hs.
  specialize (Hm Har). unfold fits, has_bit.
  destruct st; try done; [destruct Hm as [->| ->]|subst m]; rewrite (land_disjoint _ _ _ Hs); done.
Qed.

(** The masks after [epoll_wait]. *)
Lemma reports_other evs k k' fd :
  reports evs k = Some k' → fd ∉ map fst evs → k'.(ep) !! fd = k.(ep) !! fd.
Proof.
  revert k. induction evs as [|[x ev] evs IH]; intros k H Hn; cbn in H; [by injection H as <-|].
  destruct (report (x, ev) k) as [k1|] eqn:E; [|done]. cbn in H, Hn. apply not_elem_of_cons in Hn as [Hne Hn].
  rewrite (IH _ H Hn). unfold report in E. cbn in E. destruct (ep k !! x); [|done]. destruct (allows _ _); [|done].
  injection E as <-. case_match; [|done]. cbn. by rewrite lookup_insert_ne.
Qed.

Lemma reports_at evs k k' fd ev m :
  reports evs k = Some k' → NoDup (map fst evs) → (fd, ev) ∈ evs → k.(ep) !! fd = Some m → m ∈ masks →
  allows m ev = true ∧ ∃ m', k'.(ep) !! fd = Some m' ∧ armed m' = false.
Proof.
  revert k. induction evs as [|[x e] evs IH]; intros k H Hnd Hin Hm Hms; [by apply elem_of_nil in Hin|]. cbn in H.
  destruct (report (x, e) k) as [k1|] eqn:E; [|done]. cbn in H, Hnd. apply NoDup_cons in Hnd as [Hx Hnd].
  apply elem_of_cons in Hin as [[= -> ->]|Hin].
  - rewrite (reports_other _ _ _ _ H Hx). unfold report in E. cbn in E. rewrite Hm in E.
    destruct (allows m e) eqn:Ea; [|done]. split; [done|].
    assert (armed m = true) as Har by (unfold allows in Ea; by destruct (armed m)).
    destruct (mask_disarmed m Hms Har) as (Hone & _ & Hdis). rewrite Hone in E. injection E as <-. cbn.
    rewrite lookup_insert_eq. eauto.
  - apply (IH k1); try done. assert (fd ≠ x) as Hne.
    { intros ->. apply Hx. apply list_elem_of_fmap. by exists (x, ev). }
    rewrite <- Hm. eapply (reports_other [(x, e)]); [cbn; by rewrite E|].
    cbn. by intros ?%list_elem_of_singleton.
Qed.

(** ** The invariant *)

Section invariant.
Variables (listenfd : Z) (fresh : http_conn) (fuel : nat) (fs : gmap bytes fnode).
Implicit Types (s : server) (cs : gmap Z client) (x : client).

(** What the object of the connection holds at each stage of its client. *)
Definition object x (c : http_conn) : Prop :=
  match x.(at_stage) with
  | Asking => init c = c
  | Asked => ∃ t c0, current x = Some t ∧ c = received (concat t.(t_chunks)) c0
  | Answering n =>
      ∃ t, current x = Some t ∧ pending c (head_text fs t) (content fs t) n ∧ n < length (answer fs t)
        ∧ c.(linger) = keeps t
  | Gone => True
  end.

(** What the client has got: the answers to its earlier requests, all of which
    kept the connection, and a part of the current one. *)
Definition past x : list turn := take (pred x.(asked)) x.(script).
Definition ledger x : Prop :=
  match x.(at_stage) with
  | Asking => forallb keeps (take x.(asked) x.(script)) = true ∧ x.(got) = answers fs (take x.(asked) x.(script))
  | Asked => forallb keeps (past x) = true ∧ x.(got) = answers fs (past x)
  | Answering n =>
      forallb keeps (past x) = true
      ∧ ∃ t, current x = Some t ∧ x.(got) = answers fs (past x) ++ take n (answer fs t)
  | Gone => x.(got) `prefix_of` answers fs x.(script)
  end.

Record live s (fd : Z) x (c : http_conn) (m : Z) : Prop := {
  lv_user : s.(users) !! fd = Some c;
  lv_sock : c.(sockfd) = fd;
  lv_object : object x c;
  lv_mask : s.(kernel).(ep) !! fd = Some m;
  lv_masked : masked x.(at_stage) m;
  lv_events : ∀ ev, (fd, ev) ∈ s.(events) → fits x.(at_stage) ev
}.

Record client_ok s (fd : Z) x : Prop := {
  co_script : Forall (disciplined fuel fs) x.(script);
  co_ledger : ledger x;
  co_live : x.(at_stage) ≠ Gone → ∃ c m, live s fd x c m
}.

(** The connection of a client is open as long as it has not gone. *)
Definition linked s cs : Prop :=
  ∀ fd x, cs !! fd = Some x → (∃ c, s.(users) !! fd = Some c ∧ c.(sockfd) ≠ (-1)%Z) ↔ x.(at_stage) ≠ Gone.

Record all_served s cs : Prop := {
  as_good : ∃ conns, good listenfd conns s;
  as_clients : ∀ fd x, cs !! fd = Some x → client_ok s fd x;
  as_linked : linked s cs;
  as_working : ∀ fd x, fd ∈ s.(queue) ++ s.(busy) → cs !! fd = Some x → x.(at_stage) = Asked
}.

(** *** Ledgers *)

Lemma current_take x t : current x = Some t → take x.(asked) x.(script) = past x ++ [t].
Proof. unfold current, past. destruct (asked x) as [|j]; [done|]. intros Hj. by apply take_S_r. Qed.

Lemma current_script x t : current x = Some t → x.(script) = past x ++ t :: drop x.(asked) x.(script).
Proof.
  intros H. rewrite <- (take_drop x.(asked) x.(script)) at 1. rewrite (current_take _ _ H), <- app_assoc. done.
Qed.

Lemma current_ok s fd x t : client_ok s fd x → current x = Some t → disciplined fuel fs t.
Proof.
  intros [Hs _ _] Ht. unfold current in Ht. destruct (asked x); [done|]. eapply Forall_lookup_1; [exact Hs|exact Ht].
Qed.

(** The part of an answer a client may have got is a prefix of all answers. *)
Lemma part_prefix x t n :
  current x = Some t → forallb keeps (past x) = true →
  (answers fs (past x) ++ take n (answer fs t)) `prefix_of` answers fs x.(script).
Proof.
  intros Ht Hk. rewrite (current_script x t Ht), answers_app by done. apply prefix_app. cbn [answers].
  apply prefix_app_r. exists (drop n (answer fs t)). by rewrite take_drop.
Qed.

Lemma ledger_prefix x : ledger x → (x.(at_stage) = Asked → is_Some (current x)) → x.(got) `prefix_of` answers fs x.(script).
Proof.
  unfold ledger. destruct (at_stage x) as [| |n|].
  - intros [Hk ->] _. rewrite <- (take_drop x.(asked) x.(script)) at 2. rewrite answers_app by done. by eexists.
  - intros [Hk ->] H. destruct (H eq_refl) as [t Ht]. pose proof (part_prefix x t 0 Ht Hk) as Hp.
    by rewrite take_0, app_nil_r in Hp.
  - intros (Hk & t & Ht & ->) _. by apply part_prefix.
  - done.
Qed.

(** A client that goes keeps what it has got. *)
Lemma gone_ok s s' fd x : client_ok s fd x → client_ok s' fd (goes Gone x).
Proof.
  intros Hx. split; [apply Hx| |done]. cbn. apply ledger_prefix; [apply Hx|].
  intros E. destruct (co_live _ _ _ Hx) as (c & m & Hl); [by rewrite E|]. pose proof (lv_object _ _ _ _ _ Hl) as Ho.
  unfold object in Ho. rewrite E in Ho. destruct Ho as (t & _ & Ht & _). by exists t.
Qed.

(** *** Frames *)

Lemma client_frame s s' fd x :
  client_ok s fd x → s'.(users) !! fd = s.(users) !! fd → s'.(kernel).(ep) !! fd = s.(kernel).(ep) !! fd →
  (∀ ev, (fd, ev) ∈ s'.(events) → (fd, ev) ∈ s.(events)) → client_ok s' fd x.
Proof.
  intros [Hs Hl Hv] Hu Hm He. split; [done|done|]. intros Hg. destruct (Hv Hg) as (c & m & []).
  exists c, m. split; try done; [by rewrite Hu|by rewrite Hm|]. auto.
Qed.

(** The kernel changes only what concerns [fd]. *)
Definition only (fd : Z) (k k' : shared) : Prop := ∀ y, y ≠ fd → k'.(ep) !! y = k.(ep) !! y.

Lemma modfd_only fd ev k : only fd k (modfd fd ev k).
Proof.
  intros y Hy. unfold modfd, epoll_mod. case_decide; [|done]. case_match; [|done]. cbn. by rewrite lookup_insert_ne.
Qed.
Lemma removefd_only fd d k : only fd k (incr_users d (removefd fd k)).
Proof. intros y Hy. cbn. by rewrite !lookup_delete_ne. Qed.
Lemma only_trans fd k k' k'' : only fd k k' → only fd k' k'' → only fd k k''.
Proof. intros H1 H2 y Hy. by rewrite H2, H1. Qed.

Lemma modfd_at fd ev k m :
  fd ∈ k.(opened) → k.(ep) !! fd = Some m → (modfd fd ev k).(ep) !! fd = Some (mod_mask ev).
Proof. intros Ho Hm. unfold modfd, epoll_mod. rewrite decide_True, Hm by done. cbn. by rewrite lookup_insert_eq. Qed.

(** A step that concerns the connection [fd] only. *)
Lemma served_at s cs s' fd x x' :
  all_served s cs → (∃ conns, good listenfd conns s') → cs !! fd = Some x → x.(at_stage) ≠ Gone →
  (∀ y, y ≠ fd → s'.(users) !! y = s.(users) !! y) → only fd s.(kernel) s'.(kernel) →
  (∀ y ev, y ≠ fd → (y, ev) ∈ s'.(events) → (y, ev) ∈ s.(events)) →
  (∀ y, y ≠ fd → y ∈ s'.(queue) ++ s'.(busy) → y ∈ s.(queue) ++ s.(busy)) →
  (fd ∈ s'.(queue) ++ s'.(busy) → x'.(at_stage) = Asked) → client_ok s' fd x' → ((∃ c, s'.(users) !! fd = Some c ∧ c.(sockfd) ≠ (-1)%Z) ↔ x'.(at_stage) ≠ Gone) →
  all_served s' (<[fd := x']> cs).
Proof.
  intros [Hg Hc Hl Hw] Hg' Hx Hst Hu Hk He Hq Hqx Hok Hlink. split; [done| | |].
  - intros y z [[<- <-]|[Hy Hz]]%lookup_insert_Some; [done|]. eapply client_frame; eauto.
  - intros y z [[<- <-]|[Hy Hz]]%lookup_insert_Some; [done|]. rewrite Hu by done. by apply Hl.
  - intros y z Hy [[<- <-]|[Hne Hz]]%lookup_insert_Some; [auto|]. eauto.
Qed.

(** A step of a connection that is not, or no longer, in the record. *)
Lemma served_drop s cs s' fd :
  all_served s cs → (∃ conns, good listenfd conns s') →
  (∀ y, y ≠ fd → s'.(users) !! y = s.(users) !! y) → only fd s.(kernel) s'.(kernel) →
  (∀ y ev, y ≠ fd → (y, ev) ∈ s'.(events) → (y, ev) ∈ s.(events)) →
  (∀ y, y ≠ fd → y ∈ s'.(queue) ++ s'.(busy) → y ∈ s.(queue) ++ s.(busy)) →
  all_served s' (delete fd cs).
Proof.
  intros [Hg Hc Hl Hw] Hg' Hu Hk He Hq. split; [done| | |].
  - intros y z [Hy Hz]%lookup_delete_Some. eapply client_frame; eauto.
  - intros y z [Hy Hz]%lookup_delete_Some. rewrite Hu by done. by apply Hl.
  - intros y z Hy [Hne Hz]%lookup_delete_Some. eauto.
Qed.

(** *** Owned connections *)

Lemma owned_facts conns s fd :
  good listenfd conns s → fd ∈ owned listenfd s →
  fd ∈ s.(kernel).(opened) ∧ fd ≠ (-1)%Z ∧ ∃ m, s.(kernel).(ep) !! fd = Some m ∧ armed m = false.
Proof.
  intros [Hi _] Hfd. destruct (i_owned _ _ _ _ _ _ Hi fd Hfd) as (Hc & _ & Hm).
  destruct (i_open _ _ _ _ _ _ Hi fd Hc) as [Ho _]. split_and!; [done| |done].
  intros ->. by apply (i_neg _ _ _ _ _ _ Hi).
Qed.

Lemma event_owned s fd ev evs : s.(events) = (fd, ev) :: evs → fd ≠ listenfd → fd ∈ owned listenfd s.
Proof.
  intros He Hne. unfold owned, conn_events. rewrite He. apply elem_of_app. left. cbn [map fst].
  rewrite filter_cons_True by done. by left.
Qed.

Lemma event_once conns s fd ev evs :
  good listenfd conns s → s.(events) = (fd, ev) :: evs → fd ≠ listenfd → fd ∉ map fst evs.
Proof.
  intros [Hi _] He Hne Hin. pose proof (i_nodup _ _ _ _ _ _ Hi) as Hn. unfold owned, conn_events in Hn.
  rewrite He in Hn. cbn [map fst] in Hn. rewrite filter_cons_True in Hn by done. cbn in Hn.
  apply NoDup_cons in Hn as [Hn _]. apply Hn, elem_of_app. left. by apply list_elem_of_filter.
Qed.

Lemma event_idle conns s fd ev evs :
  good listenfd conns s → s.(events) = (fd, ev) :: evs → fd ≠ listenfd → fd ∉ s.(queue) ++ s.(busy).
Proof.
  intros [Hi _] He Hne Hin. pose proof (i_nodup _ _ _ _ _ _ Hi) as Hn. unfold owned, conn_events in Hn.
  rewrite He in Hn. cbn [map fst] in Hn. rewrite filter_cons_True in Hn by done. cbn in Hn.
  apply NoDup_cons in Hn as [Hn _]. apply Hn, elem_of_app. by right.
Qed.

Lemma busy_quiet conns s fd ev :
  good listenfd conns s → fd ∈ s.(busy) → (fd, ev) ∉ s.(events).
Proof.
  intros [Hi _] Hb Hin. assert (fd ∈ owned listenfd s) as Ho by (unfold owned; set_solver).
  destruct (i_owned _ _ _ _ _ _ Hi fd Ho) as (Hc & _). destruct (i_open _ _ _ _ _ _ Hi fd Hc) as [_ Hne].
  pose proof (i_nodup _ _ _ _ _ _ Hi) as Hn. unfold owned, conn_events in Hn. apply NoDup_app in Hn as (_ & Hn & _).
  apply (Hn fd); [|set_solver]. apply list_elem_of_filter. split; [done|]. apply list_elem_of_fmap. by exists (fd, ev).
Qed.

Lemma in_tail {A B} (y : A) (z : B) evs (e : A * B) es : evs = e :: es → (y, z) ∈ es → (y, z) ∈ evs.
Proof. intros ->. by right. Qed.

(** The client whose connection is handled is there. *)
Lemma handled_live s cs fd ev evs x :
  all_served s cs → s.(events) = (fd, ev) :: evs → fd ≠ listenfd → cs !! fd = Some x →
  x.(at_stage) ≠ Gone ∧ ∃ c m, live s fd x c m ∧ fits x.(at_stage) ev.
Proof.
  intros [[conns Hg] Hc Hl _] He Hne Hx. pose proof (event_owned _ _ _ _ He Hne) as Ho.
  assert (at_stage x ≠ Gone) as Hst.
  { apply (Hl fd x Hx). apply (i_conn _ _ _ _ _ _ (g_inv _ _ _ Hg)). by apply (i_owned _ _ _ _ _ _ (g_inv _ _ _ Hg)). }
  split; [done|].
  destruct (co_live _ _ _ (Hc fd x Hx) Hst) as (c & m & Hv). exists c, m. split; [done|].
  apply (lv_events _ _ _ _ _ Hv). rewrite He. by left.
Qed.

(** *** A connection ends *)

Lemma served_close s cs s' fd ev evs x x' c' k' :
  all_served s cs → s.(events) = (fd, ev) :: evs → fd ≠ listenfd → cs !! fd = Some x →
  (∃ conns, good listenfd conns s') → c'.(sockfd) = fd → only fd s.(kernel) k' →
  s' = set_user fd (close_conn c' k') (Server s.(users) s.(kernel) evs s.(queue) s.(busy) s.(abandoned)) →
  x'.(at_stage) = Gone → x'.(script) = x.(script) → ledger x' → all_served s' (<[fd := x']> cs).
Proof.
  intros Has He Hne Hx Hg' Hc Hk -> Hgone Hsc Hled.
  destruct (handled_live _ _ _ _ _ _ Has He Hne Hx) as [Hst _].
  pose proof Has as [[conns Hg] Hcl _ _]. destruct (owned_facts _ _ _ Hg (event_owned _ _ _ _ He Hne)) as (_ & Hn1 & _).
  rewrite close_conn_open, Hc in * by congruence.
  eapply (served_at s cs _ fd x x' Has Hg' Hx Hst); cbn.
  - intros y Hy. by rewrite lookup_insert_ne.
  - eapply only_trans; [exact Hk|apply removefd_only].
  - intros y e _ Hin. by eapply in_tail.
  - done.
  - intros Hin. by destruct (event_idle _ _ _ _ _ Hg He Hne Hin).
  - split; [rewrite Hsc; apply (Hcl fd x Hx)|done|done].
  - rewrite lookup_insert_eq, Hgone. split; [|done]. by intros (? & [= <-] & ?).
Qed.

(** *** A connection goes on *)

Lemma served_keep s cs s' fd ev evs x x' c' m' :
  all_served s cs → s.(events) = (fd, ev) :: evs → fd ≠ listenfd → cs !! fd = Some x →
  (∃ conns, good listenfd conns s') → s'.(users) = <[fd := c']> s.(users) → only fd s.(kernel) s'.(kernel) →
  s'.(events) = evs → (s'.(queue) ++ s'.(busy) ⊆ fd :: s.(queue) ++ s.(busy)) →
  (fd ∈ s'.(queue) ++ s'.(busy) → x'.(at_stage) = Asked) → c'.(sockfd) = fd → object x' c' → s'.(kernel).(ep) !! fd = Some m' → masked x'.(at_stage) m' →
  x'.(at_stage) ≠ Gone → x'.(script) = x.(script) → ledger x' → all_served s' (<[fd := x']> cs).
Proof.
  intros Has He Hne Hx Hg' Hu Hk He' Hq Hqx Hc Hob Hm Hma Hng Hsc Hled.
  destruct (handled_live _ _ _ _ _ _ Has He Hne Hx) as [Hst _].
  pose proof Has as [[conns Hg] Hcl _ _]. destruct (owned_facts _ _ _ Hg (event_owned _ _ _ _ He Hne)) as (_ & Hn1 & _).
  eapply (served_at s cs _ fd x x' Has Hg' Hx Hst).
  - intros y Hy. by rewrite Hu, lookup_insert_ne.
  - done.
  - intros y e _ Hin. rewrite He' in Hin. by eapply in_tail.
  - intros y Hy Hin. apply Hq, elem_of_cons in Hin as [->|?]; done.
  - done.
  - split; [rewrite Hsc; apply (Hcl fd x Hx)|done|]. intros _. exists c', m'. split; try done.
    + by rewrite Hu, lookup_insert_eq.
    + intros e Hin. rewrite He' in Hin. destruct (event_once _ _ _ _ _ Hg He Hne). apply list_elem_of_fmap. by exists (fd, e).
  - rewrite Hu, lookup_insert_eq. split; [done|]. intros _. exists c'. split; [done|]. congruence.
Qed.

(** *** The steps *)

Lemma handle_event s fd ev evs rx tx :
  s.(events) = (fd, ev) :: evs → fd ≠ listenfd →
  handle listenfd fresh fuel None rx tx s
  = on_event fuel fd ev rx tx (Server s.(users) s.(kernel) evs s.(queue) s.(busy) s.(abandoned)).
Proof. intros He Hne. unfold handle. rewrite He. by rewrite (proj2 (Z.eqb_neq fd listenfd)). Qed.

(** The client has closed its end, or the connection is broken. *)
Lemma client_read_end c e b d rx : e = REof ∨ e = RFail → read fuel c [e] = Some (b, d, rx) → b = false.
Proof.
  intros He. unfold read. destruct (decide _) as [_|_]; [by intros [= <- _ _]|].
  destruct He as [->| ->]; (destruct fuel; [discriminate|]); cbn [read_loop recv]; by intros [= <- _ _].
Qed.

(** The answer as the client gets it. *)
Lemma hears_ledger x t n r d :
  ledger x → current x = Some t → x.(at_stage) = Answering n → n < length (answer fs t) →
  d = take (length d) (drop n (answer fs t)) → n + length d ≤ length (answer fs t) → ledger (hears fs t n r d x).
Proof.
  intros Hl Ht Hst Hn Hd Hle. unfold ledger in Hl. rewrite Hst in Hl. destruct Hl as (Hk & t' & Ht' & Hgot).
  assert (t' = t) as -> by congruence. assert (x.(got) ++ d = answers fs (past x) ++ take (n + length d) (answer fs t)) as Hg.
  { rewrite Hgot, Hd at 1. by rewrite <- app_assoc, take_take_drop. }
  unfold ledger, hears. cbn [at_stage got asked script]. case_decide as E.
  - rewrite E, (take_ge (answer fs t)) in Hg by lia. destruct (keeps t) eqn:Ek; rewrite Hg.
    + rewrite (current_take x t Ht), forallb_app, answers_app by done. rewrite Hk. cbn. by rewrite Ek, app_nil_r.
    + pose proof (part_prefix x t (length (answer fs t)) Ht Hk) as Hp. by rewrite take_ge in Hp.
  - destruct r; rewrite Hg; [|by apply part_prefix]. split; [done|]. by exists t.
Qed.

(** The object and the mask of the connection that is handled. *)
Lemma handled_object s cs fd ev evs c x :
  all_served s cs → s.(events) = (fd, ev) :: evs → fd ≠ listenfd → s.(users) !! fd = Some c → cs !! fd = Some x →
  c.(sockfd) = fd ∧ object x c ∧ client_ok s fd x ∧ fd ∈ s.(kernel).(opened)
  ∧ ∃ m, s.(kernel).(ep) !! fd = Some m ∧ armed m = false.
Proof.
  intros Has He Hne Hu Hx. destruct (handled_live _ _ _ _ _ _ Has He Hne Hx) as (_ & c' & m & [] & _).
  assert (c' = c) as -> by congruence. destruct Has as [[conns Hg] Hcl _ _].
  destruct (owned_facts _ _ _ Hg (event_owned _ _ _ _ He Hne)) as (Hop & Hn1 & Hm). auto.
Qed.

(** A request is read and queued, or refused by the full queue. *)
Lemma request_served s cs fd ev evs c x t s' :
  all_served s cs → s.(events) = (fd, ev) :: evs → fd ≠ listenfd → s.(users) !! fd = Some c → cs !! fd = Some x →
  (∃ conns, good listenfd conns s') → x.(at_stage) = Asking → x.(script) !! x.(asked) = Some t →
  s' = append fd (set_user fd (received (concat t.(t_chunks)) c, s.(kernel))
                    (Server s.(users) s.(kernel) evs s.(queue) s.(busy) s.(abandoned))) →
  all_served s' (<[fd := Client x.(script) (S x.(asked)) Asked x.(got)]> cs).
Proof.
  intros Has He Hne Hu Hx Hg' Hask Hsc Es.
  destruct (handled_object _ _ _ _ _ _ _ Has He Hne Hu Hx) as (Hs & Hob & Hok & _ & m & Hm & Har).
  assert (s'.(users) = <[fd := received (concat t.(t_chunks)) c]> s.(users) ∧ s'.(kernel) = s.(kernel) ∧ s'.(events) = evs)
    as (E1 & E2 & E3) by (rewrite Es; unfold append; by case_match).
  eapply (served_keep s cs _ fd ev evs x _ (received (concat (t_chunks t)) c) m); try done.
  - rewrite E2. by intros y Hy.
  - rewrite Es. unfold append. case_match; cbn; [set_solver|]. rewrite <- app_assoc. cbn. set_solver.
  - exists t, c. by split.
  - by rewrite E2.
  - intros Ha'. congruence.
  - pose proof (co_ledger _ _ _ Hok) as Hl. unfold ledger in *. rewrite Hask in Hl. exact Hl.
Qed.

(** A part of the answer goes out. *)
Lemma room_served s cs fd ev evs c x t n tx r d k' tx' o s' :
  all_served s cs → s.(events) = (fd, ev) :: evs → fd ≠ listenfd → s.(users) !! fd = Some c → cs !! fd = Some x →
  (∃ conns, good listenfd conns s') → x.(at_stage) = Answering n → current x = Some t →
  (n = 0 → match tx with WRoom m :: _ => length (head_text fs t) ≤ m | _ => True end) → length tx < fuel →
  write fuel c s.(kernel) tx = WDone r d k' tx' o →
  s' = set_user fd (if r then (d, k') else close_conn d k')
         (Server s.(users) s.(kernel) evs s.(queue) s.(busy) s.(abandoned)) →
  all_served s' (<[fd := hears fs t n r o x]> cs).
Proof.
  intros Has He Hne Hu Hx Hg' Hans Ht Hfirst Hf Hw Es.
  destruct (handled_object _ _ _ _ _ _ _ Has He Hne Hu Hx) as (Hs & Hob & Hok & Hop & m & Hm & Har).
  assert (fd ∉ s.(queue) ++ s.(busy)) as Hidle by (destruct Has as [[conns Hg] _ _ _]; by eapply event_idle).
  unfold object in Hob. rewrite Hans in Hob. destruct Hob as (t' & Ht' & Hp & Hlt & Hli).
  assert (t' = t) as -> by congruence. pose proof (head_text_pos fs t) as Hpos. pose proof (answer_length fs t) as Hal.
  unfold write in Hw. destruct (Z.eqb_spec c.(bytesToSend) 0) as [E|_]; [rewrite (pe_left _ _ _ _ Hp) in E; lia|].
  destruct (write_loop_any fuel tx c s.(kernel) [] _ _ n Hp ltac:(lia) Hpos Hfirst Hf)
    as (r' & d' & k1 & tx1 & o1 & E & Ho & Hds & Hor).
  rewrite Hw in E. injection E as <- <- <- <- Eo. cbn [app] in Eo. subst o1. rewrite Hs in *. fold (answer fs t) in Ho.
  assert (ledger (hears fs t n r o x)) as Hled.
  { apply hears_ledger; try done; [apply Hok|]. destruct Hor as [(_ & ? & _)|[(? & _)|(_ & ? & _)]]; lia. }
  rewrite <- Hal in Hor. destruct Hor as [(-> & Hlt' & Hp' & Hl' & ->)|[(Heq & -> & -> & Hini)|(-> & Hlt' & ->)]].
  - subst s'. eapply (served_keep s cs _ fd ev evs x _ d (mod_mask EPOLLOUT)); try done; cbn [kernel set_user snd queue busy].
    + apply modfd_only.
    + intros y Hy. by right.
    + unfold object, hears. cbn. rewrite decide_False by lia. exists t. split_and!; try done. by rewrite Hl'.
    + by eapply modfd_at.
    + cbn. rewrite decide_False by lia. by intros _.
    + cbn. by rewrite decide_False by lia.
  - rewrite Hli in *. destruct (keeps t) eqn:Ek; subst s'.
    + eapply (served_keep s cs _ fd ev evs x _ d (mod_mask EPOLLIN)); try done; cbn [kernel set_user snd queue busy].
      * apply modfd_only.
      * intros y Hy. by right.
      * unfold object, hears. cbn. rewrite decide_True, Ek by lia. by apply Hini.
      * by eapply modfd_at.
      * cbn. rewrite decide_True, Ek by lia. intros _. by right.
      * cbn. by rewrite decide_True, Ek by lia.
    + eapply (served_close s cs _ fd ev evs x _ d (modfd fd EPOLLIN s.(kernel))); try done; [apply modfd_only|].
      cbn. by rewrite decide_True, Ek by lia.
  - eapply (served_close s cs _ fd ev evs x _ d s.(kernel)); try done. cbn. by rewrite decide_False by lia.
Qed.

Lemma event_served s cs fd ev evs c x rx tx x' s' :
  all_served s cs → s.(events) = (fd, ev) :: evs → fd ≠ listenfd → s.(users) !! fd = Some c → cs !! fd = Some x →
  meets fuel fs c s.(kernel) ev x rx tx x' → handle listenfd fresh fuel None rx tx s = Some s' →
  all_served s' (<[fd := x']> cs).
Proof.
  intros Has He Hne Hu Hx Hm H.
  assert (∃ conns, good listenfd conns s') as Hg'.
  { destruct Has as [[conns Hg] _ _ _]. eapply handle_good; [exact Hg| |exact H]. done. }
  destruct (handled_object _ _ _ _ _ _ _ Has He Hne Hu Hx) as (Hs & Hob & Hok & _).
  rewrite (handle_event _ _ _ _ _ _ He Hne) in H. unfold on_event in H. cbn [users kernel] in H. rewrite Hu in H.
  destruct Hm as [rx tx Hh|t Hh Hin Hask Hsc|e Hh Hin Hee|t n tx r d k' tx' o Hh Hin Hout Hans Ht Hfirst Hf Hw].
  - rewrite Hh in H. injection H as <-. eapply (served_close s cs _ fd ev evs x _ c s.(kernel)); try done.
    exact (co_ledger _ _ _ (gone_ok s s fd x Hok)).
  - rewrite Hh, Hin in H. unfold object in Hob. rewrite Hask in Hob.
    assert (disciplined fuel fs t) as [Hreq _] by (eapply Forall_lookup_1; [apply Hok|exact Hsc]).
    rewrite (read_request fuel fs t c Hreq Hob) in H. injection H as <-. by eapply request_served.
  - rewrite Hh, Hin in H. destruct (read fuel c [e]) as [[[b d] rx']|] eqn:Er; [|done].
    assert (b = false ∧ d.(sockfd) = fd) as [-> Hds].
    { split; [by eapply client_read_end|by rewrite (read_sockfd _ _ _ _ _ _ Er)]. }
    injection H as <-. eapply (served_close s cs _ fd ev evs x _ d s.(kernel)); try done.
    exact (co_ledger _ _ _ (gone_ok s s fd x Hok)).
  - rewrite Hh, Hin, Hout, Hw in H. eapply room_served; try done. by destruct r; injection H as <-.
Qed.

Lemma wait_served s cs evs k :
  all_served s cs → s.(events) = [] → reports evs s.(kernel) = Some k → NoDup (map fst evs) →
  (∃ conns, good listenfd conns (Server s.(users) k evs s.(queue) s.(busy) s.(abandoned))) →
  all_served (Server s.(users) k evs s.(queue) s.(busy) s.(abandoned)) cs.
Proof.
  intros [[conns Hg] Hcl Hl Hw] He Hr Hnd Hg'. split; [done| |done|done]. intros fd x Hx.
  destruct (Hcl fd x Hx) as [Hs Hle Hv]. split; [done|done|]. intros Hst.
  destruct (Hv Hst) as (c & m & [Hu Hsk Hob Hm Hma Hev]).
  assert (m ∈ masks) as Hms.
  { destruct (i_reg _ _ _ _ _ _ (g_inv _ _ _ Hg) fd) as (m' & Hm' & Hin); [|congruence].
    apply (i_conn _ _ _ _ _ _ (g_inv _ _ _ Hg)). by apply (Hl fd x Hx). }
  destruct (decide (fd ∈ map fst evs)) as [Hin|Hout].
  - apply list_elem_of_fmap in Hin as ([fd' ev] & -> & Hin). cbn [fst] in *.
    destruct (reports_at _ _ _ _ _ _ Hr Hnd Hin Hm Hms) as (_ & m' & Hm' & Har').
    exists c, m'. split; try done; [intros Ha; congruence|]. cbn. intros ev' Hin'.
    eapply masked_fits; [exact Hma|]. by eapply reports_at.
  - exists c, m. split; try done; cbn.
    + by rewrite (reports_other _ _ _ _ Hr Hout).
    + intros ev Hin. destruct Hout. apply list_elem_of_fmap. by exists (fd, ev).
Qed.

Lemma accept_served s cs ev evs connfd ts s' :
  all_served s cs → s.(events) = (listenfd, ev) :: evs →
  (∀ fd, connfd = Some fd → (fd ∉ s.(kernel).(opened)) ∧ (0 ≤ fd)%Z) → Forall (disciplined fuel fs) ts →
  handle listenfd fresh fuel connfd [] [] s = Some s' → (∃ conns, good listenfd conns s') →
  all_served s' (welcome connfd ts s cs).
Proof.
  intros [[conns Hg] Hcl Hl Hw] He Hf Hts H Hg'. unfold handle in H. rewrite He, Z.eqb_refl in H.
  assert (∀ y z, (y, z) ∈ evs → (y, z) ∈ s.(events)) as Htl by (intros y z; by apply (in_tail y z _ _ _ He)).
  unfold on_accept in H. destruct connfd as [fd|]; cbn [welcome].
  2:{ injection H as <-. split; [done| |done|done]. intros y x Hx. eapply client_frame; [by apply Hcl|done..|apply Htl]. }
  destruct (Hf fd eq_refl) as [Hfd Hpos]. pose proof (unopened _ _ _ _ _ _ _ (g_inv _ _ _ Hg) Hfd) as (Hnc & Hnl & Hep).
  cbn [kernel users userCount] in H. destruct (_ >=? _)%Z.
  { injection H as <-. split; [done| |done|done]. intros y x Hx. eapply client_frame; [by apply Hcl|done| |apply Htl]. cbn.
    destruct (decide (y = fd)) as [->|]; [by rewrite lookup_delete_eq, Hep|by rewrite lookup_delete_ne]. }
  destruct (_ && _); [|done]. injection H as <-. change (Shared _ _ _ _) with (with_opened fd s.(kernel)) in *.
  unfold init_conn in *. rewrite (addfd_new _ _ Hep) in *.
  assert (∀ y x, y ≠ fd → cs !! y = Some x → client_ok (set_user fd (init (set_sockfd fd (default fresh (users s !! fd))),
      incr_users 1 (Shared (<[fd := add_mask]> (ep (kernel s))) ({[fd]} ∪ opened (kernel s))
        ({[fd]} ∪ nonblocking (kernel s)) (userCount (kernel s))))
      (Server s.(users) s.(kernel) evs s.(queue) s.(busy) s.(abandoned))) y x) as Hother.
  { intros y x Hy Hx. eapply client_frame; [by apply Hcl| | |apply Htl]; cbn; by rewrite lookup_insert_ne. }
  split; [done| | |].
  - intros y x [[<- <-]|[Hy Hx]]%lookup_insert_Some; [|by apply Hother].
    split; [done|by split|]. intros _. eexists _, add_mask. split; cbn; try by rewrite lookup_insert_eq.
    + done.
    + done.
    + intros _. by left.
    + intros e Hin. destruct (i_owned _ _ _ _ _ _ (g_inv _ _ _ Hg) fd) as [? _]; [|done].
      unfold owned, conn_events. apply elem_of_app. left. apply list_elem_of_filter. split; [done|].
      apply list_elem_of_fmap. exists (fd, e). split; [done|]. by apply Htl.
  - intros y x [[<- <-]|[Hy Hx]]%lookup_insert_Some; cbn.
    + rewrite lookup_insert_eq. split; [done|]. intros _. eexists. split; [done|]. cbn. lia.
    + rewrite lookup_insert_ne by done. by apply Hl.
  - cbn. intros y x Hy [[<- <-]|[Hne Hx]]%lookup_insert_Some; [|by eapply Hw].
    destruct (i_owned _ _ _ _ _ _ (g_inv _ _ _ Hg) fd) as [? _]; [|done]. unfold owned. apply elem_of_app. by right.
Qed.

Lemma work_served s cs fd x s' :
  all_served s cs → fd ∈ s.(busy) → cs !! fd = Some x → x.(at_stage) = Asked →
  work fuel fs fd s = Some s' → (∃ conns, good listenfd conns s') →
  all_served s' (<[fd := goes (Answering 0) x]> cs).
Proof.
  intros Has Hb Hx Hst H Hg'. pose proof Has as [[conns Hg] Hcl _ _]. pose proof (Hcl fd x Hx) as Hok.
  destruct (co_live _ _ _ Hok) as (c & m & [Hu Hs Hob Hm Hma Hev]); [congruence|].
  destruct (owned_facts _ _ fd Hg) as (Hop & Hn1 & _); [unfold owned; set_solver|].
  unfold object in Hob. rewrite Hst in Hob. destruct Hob as (t & c0 & Ht & ->).
  unfold work in H. rewrite Hu in H.
  destruct (current_ok _ _ _ _ Hok Ht) as [Hreq Hmp].
  destruct (process_request fuel fs t c0 s.(kernel) Hreq Hmp) as (d & E & Hp & Hli & Hds).
  rewrite E in H. injection H as <-. change (sockfd c0 = fd) in Hs. rewrite Hs in *.
  eapply (served_at s cs _ fd x _ Has Hg' Hx); cbn.
  - congruence.
  - intros y Hy. by rewrite lookup_insert_ne.
  - apply modfd_only.
  - done.
  - intros y _ Hin. apply elem_of_app in Hin as [|[_ ?]%list_elem_of_filter]; apply elem_of_app; auto.
  - intros Hin. exfalso. apply elem_of_app in Hin as [Hin|[? _]%list_elem_of_filter]; [|done].
    pose proof (i_nodup _ _ _ _ _ _ (g_inv _ _ _ Hg)) as Hn. apply NoDup_app in Hn as (_ & _ & Hn).
    apply NoDup_app in Hn as (_ & Hn & _). by apply (Hn fd).
  - split; [apply Hok| |].
    + pose proof (co_ledger _ _ _ Hok) as Hl. unfold ledger in *. rewrite Hst in Hl. cbn. destruct Hl as [Hk Hgot].
      split; [done|]. exists t. by rewrite app_nil_r.
    + intros _. exists d, (mod_mask EPOLLOUT). split; cbn; try done.
      * by rewrite lookup_insert_eq.
      * exists t. split_and!; try done. rewrite answer_length. pose proof (head_text_pos fs t). lia.
      * by eapply modfd_at.
      * intros ev Hin. by destruct (busy_quiet _ _ _ _ Hg Hb Hin).
  - rewrite lookup_insert_eq. split; [done|]. intros _. eexists. split; [done|]. congruence.
Qed.

(** *** Everybody else *)

Lemma close_conn_only fd c k : c.(sockfd) = fd → only fd k (close_conn c k).2.
Proof. intros <-. unfold close_conn. case_match; [by intros y Hy|]. apply removefd_only. Qed.

Lemma rearmed_only fd k k' : rearmed fd k k' → only fd k k'.
Proof. intros [->| ->]; apply modfd_only. Qed.

(** An event of a connection changes nothing else. *)
Lemma on_event_only n fd ev rx tx s c s' :
  s.(users) !! fd = Some c → c.(sockfd) = fd → on_event n fd ev rx tx s = Some s' →
  (∀ y, y ≠ fd → s'.(users) !! y = s.(users) !! y) ∧ only fd s.(kernel) s'.(kernel) ∧ s'.(events) = s.(events)
  ∧ (∀ y, y ≠ fd → y ∈ s'.(queue) ++ s'.(busy) → y ∈ s.(queue) ++ s.(busy)).
Proof.
  intros Hu Hs H. unfold on_event in H. rewrite Hu in H.
  assert (∀ d k, only fd s.(kernel) k → let s' := set_user fd (d, k) s in
    (∀ y, y ≠ fd → s'.(users) !! y = s.(users) !! y) ∧ only fd s.(kernel) s'.(kernel) ∧ s'.(events) = s.(events)
    ∧ (∀ y, y ≠ fd → y ∈ s'.(queue) ++ s'.(busy) → y ∈ s.(queue) ++ s.(busy))) as Hset.
  { intros d k Hk. split_and!; try done. intros y Hy. cbn. by rewrite lookup_insert_ne. }
  assert (∀ d k, d.(sockfd) = fd → only fd s.(kernel) k → let s' := set_user fd (close_conn d k) s in
    (∀ y, y ≠ fd → s'.(users) !! y = s.(users) !! y) ∧ only fd s.(kernel) s'.(kernel) ∧ s'.(events) = s.(events)
    ∧ (∀ y, y ≠ fd → y ∈ s'.(queue) ++ s'.(busy) → y ∈ s.(queue) ++ s.(busy))) as Hclose.
  { intros d k Hd Hk. rewrite (surjective_pairing (close_conn d k)). apply Hset.
    eapply only_trans; [exact Hk|by apply close_conn_only]. }
  destruct (has_bit ev hangup); [injection H as <-; by apply Hclose|].
  destruct (has_bit ev EPOLLIN).
  { destruct (read n c rx) as [[[[] d] rx']|] eqn:Er; [| |done]; apply read_sockfd in Er; injection H as <-.
    - destruct (Hset d s.(kernel)) as (H1 & H2 & H3 & H4); [done|]. unfold append. case_match; [by split_and!|].
      split_and!; try done. cbn. intros y Hy. set_solver.
    - apply Hclose; [congruence|done]. }
  destruct (has_bit ev EPOLLOUT).
  { destruct (write n c s.(kernel) tx) as [[] d k tx' o| |] eqn:Ew; try done; apply write_effect in Ew as [Hd He];
      injection H as <-; rewrite Hs in *.
    - apply Hset. destruct He as [He|[? _]]; [by apply rearmed_only|done].
    - apply Hclose; [done|]. destruct He as [He|[_ ->]]; [by apply rearmed_only|done]. }
  injection H as <-. by split_and!.
Qed.

Lemma event_user s cs fd ev evs :
  all_served s cs → s.(events) = (fd, ev) :: evs → fd ≠ listenfd → ∃ c, s.(users) !! fd = Some c ∧ c.(sockfd) = fd.
Proof.
  intros [[conns [Hi _]] _ _ _] He Hne. destruct (i_owned _ _ _ _ _ _ Hi fd (event_owned _ _ _ _ He Hne)) as [Hc _].
  apply (i_conn _ _ _ _ _ _ Hi) in Hc as (c & Hu & Hs). exists c. split; [done|].
  by destruct (i_self _ _ _ _ _ _ Hi fd c Hu).
Qed.

Lemma other_event_served s cs fd ev evs connfd n rx tx s' :
  all_served s cs → s.(events) = (fd, ev) :: evs → fd ≠ listenfd → handle listenfd fresh n connfd rx tx s = Some s' →
  (∃ conns, good listenfd conns s') → all_served s' (delete fd cs).
Proof.
  intros Has He Hne H Hg'. destruct (event_user _ _ _ _ _ Has He Hne) as (c & Hu & Hs).
  unfold handle in H. rewrite He, (proj2 (Z.eqb_neq fd listenfd)) in H by done.
  destruct (on_event_only n fd ev rx tx (Server s.(users) s.(kernel) evs s.(queue) s.(busy) s.(abandoned)) c s' Hu Hs H)
    as (H1 & H2 & H3 & H4).
  eapply (served_drop s cs s' fd Has Hg' H1 H2); [|exact H4]. intros y e _ Hin. rewrite H3 in Hin. by eapply in_tail.
Qed.

Lemma other_work_served s cs fd n fs' s' :
  all_served s cs → fd ∈ s.(busy) → work n fs' fd s = Some s' →
  (∃ conns, good listenfd conns s') → all_served s' (delete fd cs).
Proof.
  intros Has Hb H Hg'. pose proof Has as [[conns Hg] _ _ _]. pose proof (g_inv _ _ _ Hg) as Hi.
  assert (fd ∈ owned listenfd s) as Ho by (unfold owned; set_solver).
  destruct (owned_facts _ _ fd Hg Ho) as (_ & Hn1 & _).
  destruct (i_owned _ _ _ _ _ _ Hi fd Ho) as [Hc _]. apply (i_conn _ _ _ _ _ _ Hi) in Hc as (c & Hu & Hsk).
  destruct (i_self _ _ _ _ _ _ Hi fd c Hu) as [Hs|]; [|done]. unfold work in H. rewrite Hu in H.
  destruct (process n fs' c s.(kernel)) as [[d k]|] eqn:E; [|done]. injection H as <-.
  eapply (served_drop s cs _ fd Has Hg'); cbn.
  - intros y Hy. by rewrite lookup_insert_ne.
  - destruct (process_effect _ _ _ _ _ _ _ E Hs Hn1 (i_neg _ _ _ _ _ _ Hi)) as [[_ Hr]|[_ ->]];
      [by apply rearmed_only|apply removefd_only].
  - done.
  - intros y _ Hin. apply elem_of_app in Hin as [|[_ ?]%list_elem_of_filter]; apply elem_of_app; auto.
Qed.

Lemma other_accept_served s cs ev evs connfd n rx tx s' :
  all_served s cs → s.(events) = (listenfd, ev) :: evs →
  (∀ fd, connfd = Some fd → (fd ∉ s.(kernel).(opened)) ∧ (0 ≤ fd)%Z) →
  handle listenfd fresh n connfd rx tx s = Some s' → (∃ conns, good listenfd conns s') →
  all_served s' (match connfd with Some fd => delete fd cs | None => cs end).
Proof.
  intros Has He Hf H Hg'. unfold handle in H. rewrite He, Z.eqb_refl in H.
  assert (handle listenfd fresh fuel connfd [] [] s = Some s') as H'.
  { unfold handle. by rewrite He, Z.eqb_refl. }
  pose proof (accept_served s cs ev evs connfd [] s' Has He Hf (Forall_nil_2 _) H' Hg') as Hws.
  destruct connfd as [fd|]; [|exact Hws]. cbn [welcome] in Hws.
  assert (delete fd (if (s.(kernel).(userCount) >=? MAX_FD)%Z then cs else <[fd := Client [] 0 Asking []]> cs) = delete fd cs) as <-.
  { case_match; [done|]. by rewrite delete_insert_eq. }
  by apply (served_drop s' _ s' fd Hws Hg').
Qed.

Lemma cstep_served a b : all_served a.1 a.2 → cstep listenfd fresh fuel fs a b → all_served b.1 b.2.
Proof.
  intros Has Hs. pose proof (cstep_step _ _ _ _ _ _ Hs) as Hstep.
  assert (∃ conns, good listenfd conns b.1) as Hg' by (destruct Has as [[conns Hg] _ _]; by eapply good_step).
  destruct Hs as [s cs evs k He Hr Hnd|s cs ev evs connfd ts s' He Hf Hts H|s cs fd ev evs c x rx tx x' s' He Hne Hu Hx Hm H
    |s cs s' H|s cs fd x s' Hb Hx Hst H|s cs ev evs connfd n rx tx s' He Hf H|s cs fd ev evs connfd n rx tx s' He Hne H
    |s cs fd n fs' s' Hb H]; cbn [fst snd] in *.
  - by apply wait_served.
  - by eapply accept_served.
  - by eapply event_served.
  - destruct Has as [_ Hcl Hl Hw]. unfold take_request in H. destruct (s.(queue)) as [|y q] eqn:Eq; [done|]. case_decide; [|done].
    injection H as <-. split; [done| |done|].
    + intros z x Hx. eapply client_frame; [by apply Hcl|done..|done].
    + cbn. intros z x Hz. apply Hw. clear -Hz. set_solver.
  - by eapply work_served.
  - by eapply other_accept_served.
  - by eapply other_event_served.
  - by eapply other_work_served.
Qed.

Lemma csteps_served a b : all_served a.1 a.2 → rtc (cstep listenfd fresh fuel fs) a b → all_served b.1 b.2.
Proof. intros Ha H. induction H as [|x y z Hxy _ IH]; [done|]. apply IH. by eapply cstep_served. Qed.

Lemma creachable_served others s cs :
  (-1)%Z ≠ listenfd → (-1)%Z ∉ others → creachable listenfd fresh fuel fs others (s, cs) → all_served s cs.
Proof.
  intros Hn Ho H. assert (all_served (listening listenfd others, ∅ : gmap Z client).1 (listening listenfd others, ∅ : gmap Z client).2) as H0; cbn [fst snd].
  { split; [exists ∅; by apply good_start|done| |].
    - by intros fd x ?%lookup_empty_Some.
    - by intros fd x Hin%elem_of_nil. }
  exact (csteps_served _ (s, cs) H0 H).
Qed.
End invariant.
