(* ===== verification/ClientsProgress.v ===== *)
(** * No client of the web server is forgotten

    From every reachable state the server can go on to deliver the whole answer
    to a client it has read a request from, as long as the connections outside
    the discipline of Clients.v do not hold all eight workers. *)
From S2P Require Import Prelude CString HttpConn HttpParse HttpWrite Server ServerProofs HttpServe Clients ClientsProofs.

Section progress.
Variables (listenfd : Z) (fresh : http_conn) (fuel : nat) (fs : gmap bytes fnode).
Implicit Types (s : server) (cs : gmap Z client) (x : client).
Hypothesis fuel_enough : 1 < fuel.

#[local] Abbreviation served := (all_served listenfd fuel fs).
#[local] Abbreviation next := (cstep listenfd fresh fuel fs).

(** Of the connections outside the record, none is queued or reported at the
    moment, and fewer than eight hold a worker. *)
Record outsiders_few s cs : Prop := {
  of_events : ∀ y ev, (y, ev) ∈ s.(events) → y ≠ listenfd → is_Some (cs !! y);
  of_queue : ∀ y, y ∈ s.(queue) → is_Some (cs !! y);
  of_busy : length (filter (λ y, cs !! y = None) s.(busy)) < threadNumber
}.

Lemma filter_length_le {A} (P Q : A → Prop) `{!∀ a, Decision (P a), !∀ a, Decision (Q a)} (l : list A) :
  (∀ a, P a → Q a) → length (filter P l) ≤ length (filter Q l).
Proof.
  intros Himp. induction l as [|a l IH]; [done|]. rewrite !filter_cons. repeat case_decide; cbn; try lia. naive_solver.
Qed.

Lemma filter_all_length {A} (P : A → Prop) `{!∀ a, Decision (P a)} (l : list A) :
  (∀ a, a ∈ l → P a) → length (filter P l) = length l.
Proof.
  intros Hall. induction l as [|a l IH]; [done|]. rewrite filter_cons_True by (apply Hall; by left).
  cbn. rewrite IH; [done|]. intros b Hb. apply Hall. by right.
Qed.

(** ** The other events *)

Lemma pause c k h f n :
  pending c h f n → n < length h + length f →
  write fuel c k [] = WDone true c (modfd c.(sockfd) EPOLLOUT k) [] [].
Proof.
  intros Hp Hn. unfold write. destruct (Z.eqb_spec c.(bytesToSend) 0) as [E|_]; [rewrite (pe_left _ _ _ _ Hp) in E; lia|].
  destruct fuel; [lia|]. cbn [write_loop]. by rewrite (gather_pending _ _ _ _ Hp).
Qed.

(** Some client can react to the event the main thread handles. *)
Lemma event_meets s cs y ev evs c x :
  served s cs → s.(events) = (y, ev) :: evs → y ≠ listenfd → s.(users) !! y = Some c → cs !! y = Some x →
  ∃ rx tx x' s', meets fuel fs c s.(kernel) ev x rx tx x' ∧ handle listenfd fresh fuel None rx tx s = Some s'
    ∧ s'.(events) = evs ∧ s'.(abandoned) ⊆ {[y]} ∪ s.(abandoned) ∧ (s'.(queue) ⊆ s.(queue) ++ [y]) ∧ s'.(busy) = s.(busy).
Proof.
  intros Has He Hne Hu Hx. pose proof (handled_object _ _ _ _ _ _ _ _ _ _ Has He Hne Hu Hx) as (Hs & Hob & Hok & _).
  destruct (handled_live _ _ _ _ _ _ _ _ _ Has He Hne Hx) as (_ & _ & _ & _ & Hfit).
  assert (known ev) as Hkn.
  { destruct Has as [[conns [_ Hk]] _ _ _]. rewrite He in Hk. by apply Forall_cons in Hk as [Hk _]; apply Hk. }
  unfold object in Hob. destruct (has_bit ev hangup) eqn:Eh.
  { eexists [], [], _, _. split; [by apply meets_hangup|]. rewrite (handle_event _ _ _ _ _ _ _ _ _ He Hne). unfold on_event.
    cbn [users]. rewrite Hu, Eh. split_and!; try done; cbn; set_solver. }
  destruct (has_bit ev EPOLLIN) eqn:Ei.
  - unfold fits in Hfit. destruct (at_stage x) eqn:Est; try done; [|congruence].
    destruct (script x !! asked x) as [t|] eqn:Et.
    + assert (disciplined fuel fs t) as [Hreq _] by (eapply Forall_lookup_1; [apply Hok|exact Et]).
      eexists _, _, _, _. split; [by eapply meets_request|]. rewrite (handle_event _ _ _ _ _ _ _ _ _ He Hne). unfold on_event.
      cbn [users]. rewrite Hu, Eh, Ei, (read_request fuel fs t c Hreq Hob). split; [done|].
      unfold append. case_match; cbn; (split; [done|]); (split; [set_solver|]); (split; [set_solver|done]).
    + eexists _, _, _, _. split; [by eapply (meets_end _ _ _ _ _ _ RFail); auto|].
      rewrite (handle_event _ _ _ _ _ _ _ _ _ He Hne). unfold on_event. cbn [users]. rewrite Hu, Eh, Ei.
      assert (read fuel c [RFail] = Some (false, c, [])) as ->; [|split_and!; try done; cbn; set_solver].
      rewrite <- Hob. unfold read. rewrite decide_False by (apply Nat.ltb_nlt; reflexivity). by destruct fuel; [lia|].
  - destruct (known_handled ev Hkn) as [|[|Eo]]; [congruence..|].
    unfold fits in Hfit. destruct (at_stage x) as [| |n|] eqn:Est; try done; [congruence|].
    destruct Hob as (t & Ht & Hp & Hlt & _). rewrite answer_length in Hlt. pose proof (pause c s.(kernel) _ _ _ Hp Hlt) as Hw.
    eexists [], [], _, _. split; [by eapply (meets_room _ _ _ _ _ _ t n [] true _ _ [] []); try done; cbn; lia|].
    rewrite (handle_event _ _ _ _ _ _ _ _ _ He Hne). unfold on_event. cbn [users kernel].
    rewrite Hu, Eh, Ei, Eo, Hw. split_and!; try done; cbn; set_solver.
Qed.

Lemma event_moves s cs fd y ev evs :
  served s cs → outsiders_few s cs → s.(events) = (y, ev) :: evs → y ≠ fd →
  ∃ s' cs', next (s, cs) (s', cs') ∧ outsiders_few s' cs' ∧ s'.(events) = evs ∧ cs' !! fd = cs !! fd
    ∧ (fd ∈ s'.(abandoned) → fd ∈ s.(abandoned)).
Proof.
  intros Has [Hfe Hfq Hfb] He Hne.
  assert (∀ z e, (z, e) ∈ evs → (z, e) ∈ s.(events)) as Htl by (intros z e; by apply (in_tail z e _ _ _ He)). destruct (decide (y = listenfd)) as [->|Hl].
  - exists (Server s.(users) s.(kernel) evs s.(queue) s.(busy) s.(abandoned)), cs. split; [|split; [split; eauto|done]].
    apply (cstep_accept _ _ _ _ s cs ev evs None []); try done. unfold handle. by rewrite He, Z.eqb_refl.
  - destruct (Hfe y ev) as [x Hx]; [rewrite He; by left|done|].
    assert (at_stage x ≠ Gone) as Hst by by eapply handled_live.
    destruct (co_live _ _ _ _ _ (as_clients _ _ _ _ _ Has y x Hx) Hst) as (c & m & Hv).
    pose proof (lv_user _ _ _ _ _ _ Hv) as Hu.
    destruct (event_meets s cs y ev evs c x Has He Hl Hu Hx) as (rx & tx & x' & s' & Hm & H & He' & Ha & Hq & Hb).
    assert (∀ z, is_Some (cs !! z) → is_Some (<[y := x']> cs !! z)) as Hmono.
    { intros z Hz. destruct (decide (z = y)) as [->|]; [rewrite lookup_insert_eq; by eexists|by rewrite lookup_insert_ne]. }
    exists s', (<[y := x']> cs). split; [by eapply cstep_event|]. split; [|split; [done|rewrite lookup_insert_ne by done; split; [done|set_solver]]].
    split.
    + rewrite He'. intros z e Hz Hzl. apply Hmono. eauto.
    + intros z Hz. apply Hq, elem_of_app in Hz as [Hz|Hz%list_elem_of_singleton]; [auto|]. subst z. apply Hmono. by exists x.
    + rewrite Hb. eapply Nat.le_lt_trans; [apply (filter_length_le _ (λ z, cs !! z = None))|exact Hfb].
      intros z [Hz _]%lookup_insert_None. done.
Qed.

Lemma drain pre post s cs fd :
  served s cs → outsiders_few s cs → s.(events) = pre ++ post → fd ∉ map fst pre →
  ∃ s' cs', rtc next (s, cs) (s', cs') ∧ outsiders_few s' cs' ∧ s'.(events) = post ∧ cs' !! fd = cs !! fd ∧ (fd ∈ s'.(abandoned) → fd ∈ s.(abandoned)).
Proof.
  revert s cs. induction pre as [|[y ev] pre IH]; intros s cs Has Hfew He Hn.
  - exists s, cs. by split; [apply rtc_refl|].
  - cbn in Hn. apply not_elem_of_cons in Hn as [Hy Hn].
    destruct (event_moves s cs fd y ev (pre ++ post) Has Hfew He) as (s1 & cs1 & H1 & Hf1 & He1 & Hc1 & Ha1); [done|].
    destruct (IH s1 cs1) as (s2 & cs2 & H2 & Hf2 & He2 & Hc2 & Ha2); [|done|done|done|].
    { by apply (cstep_served listenfd fresh fuel fs (s, cs) (s1, cs1)). }
    exists s2, cs2. split; [by eapply rtc_l|]. split; [done|]. split; [done|]. split; [congruence|auto].
Qed.

(** ** The workers *)

Lemma busy_works s cs y :
  served s cs → y ∈ s.(busy) → is_Some (cs !! y) →
  ∃ x s', cs !! y = Some x ∧ next (s, cs) (s', <[y := goes (Answering 0) x]> cs)
    ∧ s'.(events) = s.(events) ∧ s'.(queue) = s.(queue) ∧ s'.(busy) = filter (λ z, z ≠ y) s.(busy) ∧ s'.(abandoned) = s.(abandoned).
Proof.
  intros Has Hb [x Hx]. assert (at_stage x = Asked) as Hst by (apply (as_working _ _ _ _ _ Has y); [set_solver|done]). exists x.
  pose proof (as_clients _ _ _ _ _ Has y x Hx) as Hok.
  destruct (co_live _ _ _ _ _ Hok) as (c & m & [Hu Hs Hob _ _ _]); [congruence|].
  unfold object in Hob. rewrite Hst in Hob. destruct Hob as (t & c0 & Ht & ->).
  destruct (current_ok _ _ _ _ _ _ Hok Ht) as [Hreq Hmp].
  destruct (process_request fuel fs t c0 s.(kernel) Hreq Hmp) as (d & E & _).
  eexists. split; [done|]. split; [eapply cstep_work; try done; unfold work; by rewrite Hu, E|]. done.
Qed.

Lemma working_place s cs fd x :
  served s cs → s.(events) = [] → cs !! fd = Some x → x.(at_stage) = Asked → fd ∉ s.(abandoned) → fd ∈ s.(queue) ++ s.(busy).
Proof.
  intros Has He Hx Hst Hab. pose proof (as_clients _ _ _ _ _ Has fd x Hx) as Hok.
  destruct (co_live _ _ _ _ _ Hok) as (c & m & [Hu Hs _ Hm Hma _]); [congruence|].
  destruct Has as [[conns [Hi _]] _ Hl _].
  assert (fd ∈ conns) as Hc by (apply (i_conn _ _ _ _ _ _ Hi), (Hl fd x Hx); congruence).
  destruct (i_place _ _ _ _ _ _ Hi fd m Hc Hm) as [Ha|[Ho|?]]; [|by unfold owned, conn_events in Ho; rewrite He in Ho|done].
  specialize (Hma Ha). by rewrite Hst in Hma.
Qed.

Lemma asked_works n s cs fd x :
  served s cs → outsiders_few s cs → s.(events) = [] → cs !! fd = Some x → x.(at_stage) = Asked → fd ∉ s.(abandoned) →
  length s.(busy) + 2 * length s.(queue) ≤ n →
  ∃ s' cs', rtc next (s, cs) (s', cs') ∧ s'.(events) = [] ∧ cs' !! fd = Some (goes (Answering 0) x) ∧ fd ∉ s'.(abandoned).
Proof.
  revert s cs. induction n as [|n IH]; intros s cs Has [Hfe Hfq Hfb] He Hx Hst Hab Hn;
    pose proof (working_place _ _ _ _ Has He Hx Hst Hab) as Hpl.
  { assert (s.(queue) = [] ∧ s.(busy) = []) as [E1 E2] by (split; apply length_zero_iff_nil; lia).
    rewrite E1, E2 in Hpl. by apply elem_of_nil in Hpl. }
  destruct (decide (Exists (λ y, is_Some (cs !! y)) s.(busy))) as [(y & Hy & Hsome)%Exists_exists|Hnone].
  - destruct (busy_works s cs y Has Hy Hsome) as (z & s1 & Hz & Hs & He1 & Hq1 & Hb1 & Ha1).
    destruct (decide (y = fd)) as [->|Hne].
    + assert (z = x) as -> by congruence. exists s1, (<[fd := goes (Answering 0) x]> cs). split; [by apply rtc_once|].
      rewrite lookup_insert_eq. split_and!; [congruence|done|congruence].
    + destruct (IH s1 (<[y := goes (Answering 0) z]> cs)) as (s2 & cs2 & H2 & ?).
      * exact (cstep_served _ _ _ _ (s, cs) _ Has Hs).
      * split; [by rewrite He1, He; intros ? ? ?%elem_of_nil| |].
        -- rewrite Hq1. intros v Hv. destruct (decide (v = y)) as [->|]; [rewrite lookup_insert_eq; by eexists|].
           rewrite lookup_insert_ne by done. auto.
        -- rewrite Hb1. eapply Nat.le_lt_trans; [|exact Hfb]. rewrite list_filter_filter.
           apply filter_length_le. intros v [[Hv _]%lookup_insert_None _]. done.
      * congruence.
      * by rewrite lookup_insert_ne.
      * done.
      * congruence.
      * rewrite Hb1, Hq1. assert (length (filter (λ z, z ≠ y) s.(busy)) < length s.(busy)); [|lia].
        apply length_filter_lt with y; [done|]. intros Hv. by apply Hv.
      * exists s2, cs2. split; [by eapply rtc_l|done].
  - assert (length s.(busy) < threadNumber) as Hlt.
    { eapply Nat.le_lt_trans; [|exact Hfb]. rewrite filter_all_length; [done|]. intros v Hv. apply eq_None_not_Some.
      intros Hsome. apply Hnone, Exists_exists. by exists v. }
    destruct (s.(queue)) as [|z q] eqn:Eq.
    { destruct Hnone. apply Exists_exists. exists fd. split; [exact Hpl|by exists x]. }
    assert (next (s, cs) (Server s.(users) s.(kernel) s.(events) q (z :: s.(busy)) s.(abandoned), cs)) as Hs.
    { apply cstep_take. unfold take_request. by rewrite Eq, decide_True. }
    destruct (IH _ cs (cstep_served _ _ _ _ (s, cs) _ Has Hs)) as (s2 & cs2 & H2 & ?); [|done..|cbn in *; lia|].
    { split; cbn [fst events queue busy]; [done|intros v Hv; apply Hfq; by right|]. rewrite filter_cons_False; [done|].
      apply not_eq_None_Some, Hfq. by left. }
    exists s2, cs2. split; [by eapply rtc_l|done].
Qed.

(** ** The answer *)

Lemma answer_out s cs fd ev evs x n :
  served s cs → s.(events) = (fd, ev) :: evs → fd ≠ listenfd → cs !! fd = Some x → x.(at_stage) = Answering n →
  has_bit ev hangup = false →
  ∃ s' x', next (s, cs) (s', <[fd := x']> cs) ∧ x'.(script) = x.(script) ∧ x'.(asked) = x.(asked)
    ∧ x'.(got) = answers fs (take x.(asked) x.(script)).
Proof.
  intros Has He Hne Hx Hst Hh. destruct (handled_live _ _ _ _ _ _ _ _ _ Has He Hne Hx) as (_ & c & m & [Hu Hs Hob _ _ _] & Hfit).
  unfold object in Hob. rewrite Hst in *. destruct Hob as (t & Ht & Hp & Hlt & Hli).
  pose proof (as_clients _ _ _ _ _ Has fd x Hx) as Hok.
  assert (has_bit ev EPOLLOUT = true) as Ho.
  { destruct Has as [[conns [_ Hk]] _ _ _]. rewrite He in Hk. apply Forall_cons in Hk as [Hk _].
    destruct (known_handled ev (Hk Hne)) as [|[|]]; [congruence| |done]. cbn in Hfit. congruence. }
  pose proof (answer_length fs t) as Hal.
  destruct (write_loop_all fuel [length (answer fs t)] c s.(kernel) [] [] _ _ n Hp) as (d & tx' & E & _).
  { lia. }
  { intros _. rewrite Hal. lia. }
  { cbn [covers]. case_match eqn:E; [done|]. apply Nat.leb_gt in E. lia. }
  { cbn. lia. }
  assert (write fuel c s.(kernel) [WRoom (length (answer fs t))]
    = WDone (linger c) d (modfd (sockfd c) EPOLLIN (kernel s)) tx' (drop n (answer fs t))) as Hw.
  { unfold write. destruct (Z.eqb_spec c.(bytesToSend) 0) as [E0|_]; [rewrite (pe_left _ _ _ _ Hp) in E0; lia|]. exact E. }
  assert (∃ s', handle listenfd fresh fuel None [] [WRoom (length (answer fs t))] s = Some s') as [s' H].
  { rewrite (handle_event _ _ _ _ _ _ _ _ _ He Hne). unfold on_event. cbn [users kernel]. cbn in Hfit.
    rewrite Hu, Hh, Hfit, Ho, Hw. destruct (linger c); by eexists. }
  exists s', (hears fs t n (linger c) (drop n (answer fs t)) x). split.
  - eapply cstep_event; try done. eapply meets_room; try done. intros _. rewrite Hal. lia.
  - split; [done|]. split; [done|]. pose proof (co_ledger _ _ _ _ _ Hok) as Hl. unfold ledger in Hl. rewrite Hst in Hl.
    destruct Hl as (Hk & t' & Ht' & Hgot). assert (t' = t) as -> by congruence. cbn.
    rewrite Hgot, <- app_assoc, take_drop, (current_take x t Ht), answers_app by done. f_equal. cbn.
    by destruct (keeps t); rewrite app_nil_r.
Qed.

Lemma answering_works s cs fd x n :
  served s cs → s.(events) = [] → cs !! fd = Some x → x.(at_stage) = Answering n → fd ∉ s.(abandoned) →
  ∃ s' cs' x', rtc next (s, cs) (s', cs') ∧ cs' !! fd = Some x' ∧ x'.(script) = x.(script) ∧ x'.(asked) = x.(asked)
    ∧ x'.(got) = answers fs (take x.(asked) x.(script)).
Proof.
  intros Has He Hx Hst Hab. pose proof (as_clients _ _ _ _ _ Has fd x Hx) as Hok.
  destruct (co_live _ _ _ _ _ Hok) as (c & m & [Hu Hs _ Hm Hma _]); [congruence|].
  pose proof Has as [[conns [Hi _]] _ Hl Hw].
  assert (fd ∈ conns) as Hc by (apply (i_conn _ _ _ _ _ _ Hi), (Hl fd x Hx); congruence).
  assert (m = mod_mask EPOLLOUT) as ->.
  { destruct (i_place _ _ _ _ _ _ Hi fd m Hc Hm) as [Ha|[Ho|?]]; [|exfalso|done].
    - specialize (Hma Ha). by rewrite Hst in Hma.
    - unfold owned, conn_events in Ho. rewrite He in Ho. pose proof (Hw fd x Ho Hx). congruence. }
  destruct (i_open _ _ _ _ _ _ Hi fd Hc) as [_ Hne].
  assert (∃ k, reports [(fd, EPOLLOUT)] s.(kernel) = Some k) as [k Hk].
  { unfold reports, report. cbn [fst snd]. rewrite Hm. by eexists. }
  pose proof (cstep_wait listenfd fresh fuel fs s cs _ k He Hk (NoDup_singleton _)) as H1.
  pose proof (cstep_served _ _ _ _ (s, cs) _ Has H1) as Has1.
  destruct (answer_out _ cs fd EPOLLOUT [] x n Has1) as (s2 & x' & H2 & ?); try done.
  exists s2, (<[fd := x']> cs), x'. split; [eapply rtc_l; [exact H1|by apply rtc_once]|]. by rewrite lookup_insert_eq.
Qed.
End progress.

(** ** From a request that has been read to the end of its answer *)

Lemma first_event (fd : Z) (evs : list (Z * Z)) :
  fd ∈ map fst evs → ∃ pre ev post, evs = pre ++ (fd, ev) :: post ∧ fd ∉ map fst pre.
Proof.
  induction evs as [|[y ev] evs IH]; [by intros ?%elem_of_nil|]. destruct (decide (y = fd)) as [->|Hne].
  - intros _. exists [], ev, evs. split; [done|]. apply not_elem_of_nil.
  - intros [->|Hin]%elem_of_cons; [done|]. destruct (IH Hin) as (pre & e & post & -> & Hn).
    exists ((y, ev) :: pre), e, post. split; [done|]. apply not_elem_of_cons. done.
Qed.

Lemma served_answered listenfd fresh fuel fs s cs fd x :
  all_served listenfd fuel fs s cs → outsiders_few listenfd s cs → cs !! fd = Some x → x.(at_stage) = Asked ∨ (∃ n, x.(at_stage) = Answering n) →
  fd ∉ s.(abandoned) → (∀ ev, (fd, ev) ∈ s.(events) → has_bit ev hangup = false) →
  ∃ s' cs' x', rtc (cstep listenfd fresh fuel fs) (s, cs) (s', cs') ∧ cs' !! fd = Some x'
    ∧ x'.(script) = x.(script) ∧ x'.(asked) = x.(asked) ∧ x'.(got) = answers fs (take x.(asked) x.(script)).
Proof.
  intros Has Hfew Hx Hst Hab Hev. pose proof (as_clients _ _ _ _ _ Has fd x Hx) as Hok.
  assert (x.(at_stage) ≠ Gone) as Hng by (destruct Hst as [->|[? ->]]; done).
  destruct (co_live _ _ _ _ _ Hok Hng) as (c & m & [_ _ Hob _ _ Hfit]).
  assert (∃ t, current x = Some t) as [t Ht].
  { unfold object in Hob. destruct Hst as [E|[n E]]; rewrite E in Hob; naive_solver. }
  assert (1 < fuel) as Hf.
  { destruct (current_ok _ _ _ _ _ _ Hok Ht) as [Hreq _]. destruct (ro_fuel _ _ _ Hreq). lia. }
  assert (fd ≠ listenfd) as Hnl.
  { destruct Has as [[conns [Hi _]] _ Hl _]. apply (i_open _ _ _ _ _ _ Hi), (i_conn _ _ _ _ _ _ Hi). by apply (Hl fd x Hx). }
  assert (∀ pre post, s.(events) = pre ++ post → fd ∉ map fst pre →
    ∃ s1 cs1, rtc (cstep listenfd fresh fuel fs) (s, cs) (s1, cs1) ∧ all_served listenfd fuel fs s1 cs1
      ∧ outsiders_few listenfd s1 cs1 ∧ s1.(events) = post ∧ cs1 !! fd = Some x ∧ fd ∉ s1.(abandoned)) as Hdrain.
  { intros pre post He Hn. destruct (drain listenfd fresh fuel fs Hf pre post s cs fd Has Hfew He Hn)
      as (s1 & cs1 & H1 & Hf1 & He1 & Hc1 & Ha1).
    exists s1, cs1. split; [done|]. split; [|split; [done|split_and!; [done|congruence|auto]]].
    exact (csteps_served _ _ _ _ (s, cs) (s1, cs1) Has H1). }
  destruct (decide (fd ∈ map fst s.(events))) as [Hin|Hout].
  - destruct (first_event fd s.(events) Hin) as (pre & ev & post & He & Hn).
    assert ((fd, ev) ∈ s.(events)) as Hie by (rewrite He; apply elem_of_app; right; left).
    destruct Hst as [E|[n E]]; [by specialize (Hfit ev Hie); rewrite E in Hfit|].
    destruct (Hdrain _ _ He Hn) as (s1 & cs1 & H1 & Has1 & _ & He1 & Hc1 & _).
    destruct (answer_out listenfd fresh fuel fs Hf s1 cs1 fd ev post x n Has1 He1 Hnl Hc1 E (Hev ev Hie)) as (s2 & x' & H2 & ?).
    exists s2, (<[fd := x']> cs1), x'. rewrite lookup_insert_eq. split; [by eapply rtc_r|done].
  - destruct (Hdrain s.(events) []) as (s1 & cs1 & H1 & Has1 & Hf1 & He1 & Hc1 & Ha1); [by rewrite app_nil_r|done|].
    destruct Hst as [E|[n E]].
    + destruct (asked_works listenfd fresh fuel fs Hf _ s1 cs1 fd x Has1 Hf1 He1 Hc1 E Ha1 (le_n _)) as (s2 & cs2 & H2 & He2 & Hc2 & Ha2).
      pose proof (csteps_served _ _ _ _ (s1, cs1) (s2, cs2) Has1 H2) as Has2.
      destruct (answering_works listenfd fresh fuel fs Hf s2 cs2 fd _ 0 Has2 He2 Hc2 eq_refl Ha2) as (s3 & cs3 & x' & H3 & ?).
      exists s3, cs3, x'. split; [|done]. etransitivity; [exact H1|]. by etransitivity.
    + destruct (answering_works listenfd fresh fuel fs Hf s1 cs1 fd x n Has1 He1 Hc1 E Ha1) as (s2 & cs2 & x' & H2 & ?).
      exists s2, cs2, x'. split; [by etransitivity|done].
Qed.

(** ** Properties *)

(** C1. Whatever the clients do, and however the event loop, the workers and the
    clients interleave: every step the server of main.cpp can make is a step
    here, and as long as a client has kept to the discipline (well-formed GET
    requests without a body, sent one at a time, each arriving whole before the
    server's [recv] finds the socket empty, of at most 2048 bytes, for paths
    whose files are smaller than 2^31 - 4096 bytes and, when they are readable,
    not empty and open to the server; the first [writev] of an answer that sends
    anything takes its text), what the server has sent to it is a prefix of the
    right answers to its requests, in order, up to the first that does not ask
    for a persistent connection; when it waits for the next request it has got
    exactly the answers to all requests read, while it is being answered exactly
    the counted bytes of the current answer; and its connection is open exactly
    as long as it has not gone.  The other clients may send and refuse anything.
    What the discipline excludes are cut requests, announced bodies, texts sent
    in pieces and empty files, which the code gets wrong. *)
Theorem clients_served listenfd fresh fuel fs others s cs fd x :
  (-1)%Z ≠ listenfd → (-1)%Z ∉ others → creachable listenfd fresh fuel fs others (s, cs) → cs !! fd = Some x →
  x.(got) `prefix_of` answers fs x.(script)
  ∧ (x.(at_stage) = Asking → x.(got) = answers fs (take x.(asked) x.(script)))
  ∧ (∀ n, x.(at_stage) = Answering n → ∃ t, current x = Some t ∧ n < length (answer fs t)
       ∧ x.(got) = answers fs (take (pred x.(asked)) x.(script)) ++ take n (answer fs t))
  ∧ (x.(at_stage) ≠ Gone ↔ fd ∈ open_conns s)
  ∧ ∀ s', step listenfd fresh s s' → ∃ cs', cstep listenfd fresh fuel fs (s, cs) (s', cs').
Proof.
  intros Hn Ho H Hx. apply creachable_served in H; [|done|done].
  pose proof (as_clients _ _ _ _ _ H fd x Hx) as Hok. pose proof (co_ledger _ _ _ _ _ Hok) as Hl.
  assert (∀ st, x.(at_stage) = st → st ≠ Gone → ∃ c, object fs x c) as Hob.
  { intros st <- Hst. destruct (co_live _ _ _ _ _ Hok Hst) as (c & m & Hv). exists c. apply Hv. }
  split_and!.
  - apply ledger_prefix; [done|]. intros E. destruct (Hob _ E ltac:(done)) as [c Hc]. unfold object in Hc. rewrite E in Hc. naive_solver.
  - intros E. unfold ledger in Hl. rewrite E in Hl. apply Hl.
  - intros n E. destruct (Hob _ E ltac:(done)) as [c Hc]. unfold object in Hc. unfold ledger in Hl. rewrite E in Hc, Hl.
    destruct Hc as (t & Ht & _ & Hlt & _). destruct Hl as (_ & t' & Ht' & ->). exists t. split_and!; [done|done|].
    assert (t' = t) as -> by congruence. done.
  - destruct H as [[conns [Hi _]] _ Hlk _]. by rewrite (open_conns_inv _ _ _ _ Hi), (i_conn _ _ _ _ _ _ Hi), (Hlk fd x Hx).
  - intros s'. apply step_cstep.
Qed.

(** C2. No client that keeps to the discipline of C1 is forgotten: from every
    reachable state in which the server has read a request of such a client, has
    not refused it and has no hang-up of the client to handle, it can go on until
    it has delivered the whole answer, whatever other clients of this kind have
    queued, reported or in work, and although clients of other kinds hold
    workers, as long as these are fewer than the eight there are and none of
    their connections is queued or reported at that moment.  (A request whose
    announced body is missing holds its worker for ever.) *)
Theorem clients_answered listenfd fresh fuel fs others s cs fd x :
  (-1)%Z ≠ listenfd → (-1)%Z ∉ others → creachable listenfd fresh fuel fs others (s, cs) → cs !! fd = Some x →
  outsiders_few listenfd s cs → x.(at_stage) = Asked ∨ (∃ n, x.(at_stage) = Answering n) → fd ∉ s.(abandoned) →
  (∀ ev, (fd, ev) ∈ s.(events) → has_bit ev hangup = false) →
  ∃ s' cs' x', rtc (cstep listenfd fresh fuel fs) (s, cs) (s', cs') ∧ cs' !! fd = Some x'
    ∧ x'.(script) = x.(script) ∧ x'.(asked) = x.(asked) ∧ x'.(got) = answers fs (take x.(asked) x.(script)).
Proof.
  intros Hn Ho H Hx Hfew Hst Hab Hev. apply creachable_served in H; [|done|done]. by eapply served_answered.
Qed.

(** ** Witnesses: a client with two requests, the first of them read *)

Definition two_turns : client := Client [first_turn; second_turn] 0 Asking [].
Definition asking : client := Client [first_turn; second_turn] 1 Asked [].
Definition begun0 : server := listening 3 {[0; 1; 2; 4]}%Z.
Definition begun1 : server := waited [(3%Z, EPOLLIN)] begun0.
Definition begun2 : server := default begun1 (handle 3 blank_conn 5 (Some 5%Z) [] [] begun1).
Definition begun3 : server := waited [(5%Z, EPOLLIN)] begun2.
Definition begun4 : server :=
  default begun3 (handle 3 blank_conn 5 None (map RData first_turn.(t_chunks) ++ [RAgain]) [] begun3).

Lemma sample_requests_ok : Forall (disciplined 5 sample_fs) [first_turn; second_turn].
Proof.
  apply Forall_cons. split; [|apply Forall_singleton]; (split; [|reflexivity]);
    [apply first_request_ok|apply second_request_ok]; apply sample_files.
Qed.

Lemma begun_reachable : creachable 3 blank_conn 5 sample_fs {[0; 1; 2; 4]}%Z (begun4, {[5%Z := asking]}).
Proof.
  unfold creachable. apply rtc_l with (begun1, ∅).
  { apply cstep_wait; [reflexivity|by vm_compute|apply NoDup_singleton]. }
  apply rtc_l with (begun2, {[5%Z := two_turns]}).
  { apply (cstep_accept 3 blank_conn 5 sample_fs begun1 ∅ EPOLLIN [] (Some 5%Z) [first_turn; second_turn] begun2);
      [reflexivity| |apply sample_requests_ok|by vm_compute].
    intros fd [= <-]. split; [apply (bool_decide_unpack _); vm_compute; exact I|lia]. }
  apply rtc_l with (begun3, {[5%Z := two_turns]}).
  { apply cstep_wait; [by vm_compute|by vm_compute|apply NoDup_singleton]. }
  apply rtc_once. change ({[5%Z := asking]} : gmap Z client) with (<[5%Z := asking]> ({[5%Z := two_turns]} : gmap Z client)).
  destruct (begun3.(users) !! 5%Z) as [c|] eqn:Ec; [|by vm_compute in Ec].
  eapply (cstep_event 3 blank_conn 5 sample_fs begun3 {[5%Z := two_turns]} 5 EPOLLIN [] c two_turns _ [] asking begun4);
    [reflexivity|done|done|apply lookup_singleton_eq|exact (meets_request 5 sample_fs c (kernel begun3) EPOLLIN two_turns first_turn eq_refl eq_refl eq_refl eq_refl)|by vm_compute].
Qed.

Lemma begun_served : all_served 3 5 sample_fs begun4 {[5%Z := asking]}.
Proof.
  apply (creachable_served 3 blank_conn 5 sample_fs {[0; 1; 2; 4]}%Z);
    [done|apply (bool_decide_unpack _); vm_compute; exact I|apply begun_reachable].
Qed.

Lemma begun_few : outsiders_few 3 begun4 {[5%Z := asking]}.
Proof.
  split; [by intros y ev Hin%elem_of_nil| |apply Nat.ltb_lt; reflexivity].
  intros y Hy. replace (queue begun4) with [5%Z] in Hy by reflexivity. apply list_elem_of_singleton in Hy as ->. by exists asking.
Qed.

Lemma clients_answered_witness :
  ∃ s cs x, rtc (cstep 3 blank_conn 5 sample_fs) (begun4, {[5%Z := asking]}) (s, cs) ∧ cs !! 5%Z = Some x
    ∧ x.(got) = answer sample_fs first_turn.
Proof.
  destruct (clients_answered 3 blank_conn 5 sample_fs {[0; 1; 2; 4]}%Z begun4 {[5%Z := asking]} 5 asking)
    as (s & cs & x & H & Hx & _ & _ & Hg);
    [done|apply (bool_decide_unpack _); vm_compute; exact I|apply begun_reachable|apply lookup_singleton_eq|apply begun_few|by left
    |apply (bool_decide_unpack _); vm_compute; exact I|by intros ev Hin%elem_of_nil|].
  exists s, cs, x. split; [exact H|]. split; [exact Hx|]. rewrite Hg. cbn [asking asked script take answers].
  replace (keeps first_turn) with true by reflexivity. by rewrite app_nil_r.
Defined.

Lemma clients_served_witness :
  ∃ s cs x, creachable 3 blank_conn 5 sample_fs {[0; 1; 2; 4]}%Z (s, cs) ∧ cs !! 5%Z = Some x
    ∧ x.(got) = answers sample_fs [first_turn] ∧ x.(got) `prefix_of` answers sample_fs [first_turn; second_turn].
Proof.
  destruct (served_answered 3 blank_conn 5 sample_fs begun4 {[5%Z := asking]} 5 asking)
    as (s & cs & x & H & Hx & Hs & _ & Hg);
    [|apply begun_few|apply lookup_singleton_eq|by left|apply (bool_decide_unpack _); vm_compute; exact I|by intros ev Hin%elem_of_nil|].
  { apply begun_served. }
  exists s, cs, x. assert (creachable 3 blank_conn 5 sample_fs {[0; 1; 2; 4]}%Z (s, cs)) as Hr.
  { unfold creachable. etransitivity; [apply begun_reachable|exact H]. }
  split; [exact Hr|]. split; [exact Hx|]. split; [exact Hg|].
  change [first_turn; second_turn] with (script asking). rewrite <- Hs.
  eapply (clients_served 3 blank_conn 5 sample_fs {[0; 1; 2; 4]}%Z s cs 5 x);
    [done|apply (bool_decide_unpack _); vm_compute; exact I|exact Hr|exact Hx].
Defined.
