(* ===== verification/ServerMain.v ===== *)
(** * The start and the end of the web server: main.cpp

    From the command line to the event loop: the port, the disposition of
    SIGPIPE, the thread pool, the listening socket and the epoll object; and
    what follows the loop when [epoll_wait] fails.  The loop itself is in
    Server.v. *)
From S2P Require Import Prelude CString Threads HttpConn ThreadPool Server Posix NetBytes Sockets.

(** The part of a path after its last slash. *)
Fixpoint basename (s : bytes) : bytes :=
  match s with
  | [] => []
  | c :: r => if existsb (Ascii.eqb "/"%char) r then basename r
              else if Ascii.eqb c "/"%char then r else s
  end.

(** Conversion to [unsigned int]. *)
Definition to_uint32 (z : Z) : Z := z mod 2 ^ 32.

Inductive disposition := SIG_IGN | SIG_DFL.
Definition SIGPIPE : Z := 13.
Definition SIGABRT : Z := 6.

(** [addSig]: the assertion aborts when [sigaction] fails.  The dispositions
    of the process are an argument and a result. *)
Definition addSig (sig : Z) (handler : disposition) (acts : gmap Z disposition) : M (gmap Z disposition) :=
  ret ← call (mret 0%Z);
  if (ret =? -1)%Z then exit (128 + SIGABRT) else mret (<[sig := handler]> acts).

(** [addfd(epollfd, fd, one_shot)], when [epoll_create] may have failed and
    [epoll_ctl] and the [fcntl] that sets the flag may fail; no result is looked
    at.  ([F_GETFL] of an open descriptor does not fail.) *)
Definition addfd_at (epollfd fd : Z) (one_shot : bool) (k : HttpConn.shared) : M HttpConn.shared :=
  let events := Z.lor HttpConn.EPOLLIN HttpConn.EPOLLRDHUP in
  let events := if one_shot then Z.lor events HttpConn.EPOLLONESHOT else events in
  ret ← call (if (epollfd =? -1)%Z then fail EBADF else mret 0%Z);
  let k := if (ret =? -1)%Z then k else HttpConn.epoll_add fd events k in
  ret ← call (mret 0%Z);
  mret (if (ret =? -1)%Z then k else setnonblocking fd k).

(** What the event loop starts from. *)
Record started := Started {
  s_listenfd : Z;
  s_epollfd : Z;
  s_acts : gmap Z disposition;
  s_workers : nat;
  s_server : server
}.

Section start.
(** What pthreads answers when the pool creates and detaches thread [i]. *)
Variables create detach : nat → Z.

(** From the first statement of [main] to the event loop.  The end pointer
    [strtol] stores through its second argument is not modelled. *)
Definition server_start (argv : list bytes) : M started :=
  match argv with
  | name :: arg :: _ =>
      let port := to_uint32 (strtol arg) in
      acts ← addSig SIGPIPE SIG_IGN ∅;
      match @ThreadPool.threadPool http_conn (Z.of_nat threadNumber) Server.maxRequests create detach with
      | None => exit (-1)
      | Some (_, cs) =>
          listenfd ← socket_stream;
          setsockopt listenfd;;
          ret ← bind listenfd (Inet INADDR_ANY (htons port));
          (if (ret =? -1)%Z then die "bind" (-1) else mret tt);;
          ret ← listen listenfd 128;
          (if (ret =? -1)%Z then die "listen" (-1) else mret tt);;
          epollfd ← epoll_create;
          fds ← gets w_fds;
          let k := Shared ∅ (dom fds) ∅ 0 in
          k ← addfd_at epollfd listenfd false k;
          mret (Started listenfd epollfd acts (length (omap created cs)) (Server ∅ k [] [] [] ∅))
      end
  | _ =>
      print (B "按照如下格式运行： " ++ basename (default [] (head argv)) ++ B " port_number" ++ [LF]);; exit (-1)
  end.

(** [epoll_wait] failed with an error other than [EINTR]. *)
Definition server_stop (s : started) : M Z :=
  print (B "epoll failure" ++ [LF]);;
  Posix.close s.(s_epollfd);;
  Posix.close s.(s_listenfd);;
  mret 0%Z.

(** [main]: it reaches the event loop ([inl]), or returns at once when there
    is no epoll object to wait on. *)
Definition server_main (argv : list bytes) : M (started + Z) :=
  s ← server_start argv;
  if (s.(s_epollfd) =? -1)%Z then z ← server_stop s; mret (inr z) else mret (inl s).
End start.

(** ** Lemmas *)

Definition all_succeed (i : nat) : Z := 0.

(** The world when the server listens on [port]. *)
Definition listening_world (port : Z) (w : world) : world :=
  set_w_fds (<[4%Z := DEpoll]> (<[3%Z := DListen (Some (Inet INADDR_ANY (htons port)))]> std_fds)) (set_w_epoll [] w).

(** ** Properties *)

(** C12. The server starts: with a port on the command line and system calls that succeed, it
    ignores SIGPIPE, starts eight workers, listens on the port (its low 16
    bits, in network byte order) of every interface, and enters the event loop
    in the state [listening], from which Server.v goes on. *)
Theorem server_starts name arg rest w :
  w.(w_faults) = [] → w.(w_fds) = std_fds →
  ∃ s, server_main all_succeed all_succeed (name :: arg :: rest) w
      = (Ok (inl s), listening_world (to_uint32 (strtol arg)) w)
    ∧ s.(s_listenfd) = 3%Z ∧ s.(s_epollfd) = 4%Z ∧ s.(s_acts) !! SIGPIPE = Some SIG_IGN
    ∧ s.(s_workers) = threadNumber ∧ s.(s_server) = listening 3 {[0; 1; 2; 4]}%Z.
Proof.
  intros Hf Hd. destruct w. simpl in Hf, Hd. subst. eexists. split; [reflexivity|].
  split_and!; reflexivity.
Qed.

Lemma server_starts_witness :
  ∃ s, server_main all_succeed all_succeed [B "./server"; B "8080"] start = (Ok (inl s), listening_world 8080 start)
    ∧ s.(s_server) = listening 3 {[0; 1; 2; 4]}%Z.
Proof.
  destruct (server_starts (B "./server") (B "8080") [] start) as (s & H & _ & _ & _ & _ & Hs); [reflexivity|reflexivity|].
  exists s. split; [exact H|exact Hs].
Defined.

(** The outcome of a start that does not reach the event loop. *)
Record stops (code : res (started + Z)) (out : bytes) (errs : list (string * Z)) (w : world)
  (r : res (started + Z) * world) : Prop := {
  sp_code : r.1 = code;
  sp_out : r.2.(w_out) = w.(w_out) ++ out;
  sp_err : r.2.(w_err) = w.(w_err) ++ errs
}.

Ltac run_start w := destruct w; simpl in *; subst; split; try reflexivity; by rewrite ?app_nil_r.

(** The calls that can fail, in order: [sigaction], [socket], [setsockopt],
    [bind], [listen], [epoll_create], [epoll_ctl], [fcntl]. *)
Definition fails_at (n : nat) (e : Z) : list (option Z) := replicate n None ++ [Some e].

Section failures.
Variables (name arg : bytes) (rest : list bytes) (w : world) (e : Z).
Hypothesis std : w.(w_fds) = std_fds.
Let go : res (started + Z) * world := server_main all_succeed all_succeed (name :: arg :: rest) w.

Lemma usage_stops :
  stops (Exit (-1)) (B "按照如下格式运行： " ++ basename name ++ B " port_number" ++ [LF]) [] w
    (server_main all_succeed all_succeed [name] w).
Proof. run_start w. Qed.

Lemma sigaction_stops : w.(w_faults) = fails_at 0 e → stops (Exit 134) [] [] w go.
Proof. intros Hf. run_start w. Qed.

Lemma pool_stops create detach i :
  w.(w_faults) = [] → i < threadNumber → create i ≠ 0%Z ∨ detach i ≠ 0%Z →
  stops (Exit (-1)) [] [] w (server_main create detach (name :: arg :: rest) w).
Proof.
  intros Hf Hi Hc. unfold server_main, server_start.
  assert (@ThreadPool.threadPool http_conn (Z.of_nat threadNumber) Server.maxRequests create detach = None) as ->.
  { unfold ThreadPool.threadPool. destruct (forallb _ _) eqn:E; [|done].
    rewrite forallb_forall in E. specialize (E i). rewrite in_seq in E.
    assert ((create i =? 0)%Z && (detach i =? 0)%Z = true) as [H1%Z.eqb_eq H2%Z.eqb_eq]%andb_prop
      by (apply E; split; [lia|exact Hi]). by destruct Hc. }
  run_start w.
Qed.

Lemma socket_stops : w.(w_faults) = fails_at 1 e → stops (Exit (-1)) [] [("bind", EBADF)] w go.
Proof. intros Hf. run_start w. Qed.

(** What the event loop starts with after a failure that nobody looks at. *)
Definition started_with (k : HttpConn.shared) : started :=
  Started 3 4 {[SIGPIPE := SIG_IGN]} threadNumber (Server ∅ k [] [] [] ∅).
Definition start_kernel : HttpConn.shared := (listening 3 {[0; 1; 2; 4]}%Z).(kernel).

Lemma setsockopt_ignored : w.(w_faults) = fails_at 2 e → go.1 = Ok (inl (started_with start_kernel)).
Proof. intros Hf. unfold go. clear go. destruct w. simpl in std, Hf. subst. reflexivity. Qed.

Lemma epoll_ctl_ignored :
  w.(w_faults) = fails_at 6 e →
  go.1 = Ok (inl (started_with (Shared ∅ start_kernel.(opened) start_kernel.(nonblocking) 0))).
Proof. intros Hf. unfold go. clear go. destruct w. simpl in std, Hf. subst. reflexivity. Qed.

Lemma fcntl_ignored :
  w.(w_faults) = fails_at 7 e → go.1 = Ok (inl (started_with (Shared start_kernel.(ep) start_kernel.(opened) ∅ 0))).
Proof. intros Hf. unfold go. clear go. destruct w. simpl in std, Hf. subst. reflexivity. Qed.

Lemma bind_stops : w.(w_faults) = fails_at 3 e → stops (Exit (-1)) [] [("bind", e)] w go.
Proof. intros Hf. run_start w. Qed.

Lemma listen_stops : w.(w_faults) = fails_at 4 e → stops (Exit (-1)) [] [("listen", e)] w go.
Proof. intros Hf. run_start w. Qed.

Lemma epoll_stops :
  w.(w_faults) = fails_at 5 e → stops (Ok (inr 0%Z)) (B "epoll failure" ++ [LF]) [] w go ∧ go.2.(w_fds) = std_fds.
Proof. intros Hf. split; [run_start w|]. destruct w; simpl in *; subst. reflexivity. Qed.
End failures.

(** An epoll object with nothing registered reports nothing. *)
Lemma deaf evs k k' : k.(ep) = ∅ → reports evs k = Some k' → evs = [].
Proof. intros He. destruct evs as [|e evs]; [done|]. cbn. unfold report. by rewrite He, lookup_empty. Qed.

(** C13. Which failures of the start the server notices.  A missing argument, a
    failing [sigaction], a pool that cannot create or detach one of its threads,
    a missing socket (seen only at [bind]), [bind] and [listen]: each ends the
    process with its report and code.  A failing [epoll_create] is noticed only
    by the event loop, which closes the socket and returns 0.  Three failures
    are not noticed and the event loop starts: after that of [setsockopt] it is
    in the usual state; after that of the [epoll_ctl] that registers the listening
    socket no event is ever reported, so that no client is ever served; after
    that of the [fcntl] the listening socket is left blocking. *)
Theorem server_start_fails name arg rest w e :
  w.(w_fds) = std_fds →
  let argv := name :: arg :: rest in
  let go := server_main all_succeed all_succeed argv w in
  stops (Exit (-1)) (B "按照如下格式运行： " ++ basename name ++ B " port_number" ++ [LF]) [] w
    (server_main all_succeed all_succeed [name] w)
  ∧ (w.(w_faults) = fails_at 0 e → stops (Exit 134) [] [] w go)
  ∧ (∀ create detach i, w.(w_faults) = [] → i < threadNumber → create i ≠ 0%Z ∨ detach i ≠ 0%Z →
       stops (Exit (-1)) [] [] w (server_main create detach argv w))
  ∧ (w.(w_faults) = fails_at 1 e → stops (Exit (-1)) [] [("bind", EBADF)] w go)
  ∧ (w.(w_faults) = fails_at 2 e → go.1 = Ok (inl (started_with start_kernel)))
  ∧ (w.(w_faults) = fails_at 3 e → stops (Exit (-1)) [] [("bind", e)] w go)
  ∧ (w.(w_faults) = fails_at 4 e → stops (Exit (-1)) [] [("listen", e)] w go)
  ∧ (w.(w_faults) = fails_at 5 e → stops (Ok (inr 0%Z)) (B "epoll failure" ++ [LF]) [] w go ∧ go.2.(w_fds) = std_fds)
  ∧ (w.(w_faults) = fails_at 6 e → ∃ s, go.1 = Ok (inl s) ∧ ∀ evs k, reports evs s.(s_server).(kernel) = Some k → evs = [])
  ∧ (w.(w_faults) = fails_at 7 e → ∃ s, go.1 = Ok (inl s) ∧ s.(s_server).(kernel).(ep) = start_kernel.(ep)
       ∧ s.(s_server).(kernel).(nonblocking) = ∅).
Proof.
  intros Hd argv go. split; [by apply usage_stops|]. split; [by apply sigaction_stops|].
  split; [intros create detach i; by apply pool_stops|]. split; [by apply socket_stops|].
  split; [by apply setsockopt_ignored|]. split; [by apply bind_stops|]. split; [by apply listen_stops|].
  split; [by apply epoll_stops|]. split; intros Hf; eexists.
  - split; [exact (epoll_ctl_ignored name arg rest w e Hd Hf)|]. intros evs k. by apply deaf.
  - by split; [exact (fcntl_ignored name arg rest w e Hd Hf)|].
Qed.

Lemma server_start_fails_witness :
  stops (Exit (-1)) [] [("bind", EADDRINUSE)] (set_w_faults (fails_at 3 EADDRINUSE) start)
    (server_main all_succeed all_succeed [B "./server"; B "80"] (set_w_faults (fails_at 3 EADDRINUSE) start)).
Proof.
  apply (server_start_fails (B "./server") (B "80") [] (set_w_faults (fails_at 3 EADDRINUSE) start) EADDRINUSE);
    reflexivity.
Defined.
