(* ===== verification/Files.v ===== *)
(** * Calls on files and directories

    [stat], [access], [chmod], [truncate], [mkdir], [rmdir], [rename],
    [chdir], [getcwd], [mkfifo] and the shared mappings of [mmap], over the
    world of Posix; and the trees that [opendir] and [readdir] walk. *)
From S2P Require Import Prelude CString Posix.

Definition ENOMEM : Z := 12.
Definition ERANGE : Z := 34.
Definition ENAMETOOLONG : Z := 36.
Definition ENOTEMPTY : Z := 39.

(** ** Status *)

Definition S_IFSOCK : Z := 49152.
Definition S_IFLNK : Z := 40960.
Definition S_IFREG : Z := 32768.
Definition S_IFBLK : Z := 24576.
Definition S_IFDIR : Z := 16384.
Definition S_IFCHR : Z := 8192.
Definition S_IFIFO : Z := 4096.
Definition S_IFMT : Z := 61440.

Definition inode_mode (i : inode) : Z :=
  match i with
  | IFile m _ => Z.lor S_IFREG m
  | IDir m => Z.lor S_IFDIR m
  | IFifo m => Z.lor S_IFIFO m
  | ISock => Z.lor S_IFSOCK 511
  end.
Definition inode_size (i : inode) : Z :=
  match i with IFile _ c => Z.of_nat (length c) | IDir _ => 4096 | _ => 0 end.

(** A call with a result of its own: [None] is [-1] or [NULL]. *)
Definition try_call {A} (m : M (option A)) : M (option A) :=
  fs ← gets w_faults;
  match fs with
  | [] => m
  | None :: r => modify (set_w_faults r);; m
  | Some e :: r => modify (set_w_faults r);; modify (set_w_errno e);; mret None
  end.

(** [stat(path, &st)]: the mode and the size. *)
Definition stat (path : string) : M (option (Z * Z)) :=
  try_call (
    i ← gets (λ w, w.(w_files) !! resolve w path);
    match i with
    | Some i => mret (Some (inode_mode i, inode_size i))
    | None => modify (set_w_errno ENOENT);; mret None
    end).

(** [access(path, F_OK)]. *)
Definition access (path : string) : M Z :=
  call (
    i ← gets (λ w, w.(w_files) !! resolve w path);
    match i with Some _ => mret 0%Z | None => fail ENOENT end).

(** ** Attributes and sizes *)

Definition chmod (path : string) (mode : Z) : M Z :=
  call (
    p ← gets (λ w, resolve w path);
    i ← gets (λ w, w.(w_files) !! p);
    match i with
    | None => fail ENOENT
    | Some i =>
        modify (λ w, set_w_files (<[p :=
          match i with
          | IFile _ c => IFile mode c | IDir _ => IDir mode | IFifo _ => IFifo mode | ISock => ISock
          end]> w.(w_files)) w);; mret 0%Z
    end).

(** The contents cut or padded to [n] bytes. *)
Definition resize (n : nat) (c : bytes) : bytes := take n c ++ replicate (n - length c) NUL.

Definition truncate (path : string) (n : Z) : M Z :=
  call (
    p ← gets (λ w, resolve w path);
    i ← gets (λ w, w.(w_files) !! p);
    match i with
    | None => fail ENOENT
    | Some (IDir _) => fail EISDIR
    | Some (IFile m c) =>
        if (n <? 0)%Z then fail EINVAL
        else modify (λ w, set_w_files (<[p := IFile m (resize (Z.to_nat n) c)]> w.(w_files)) w);; mret 0%Z
    | Some _ => fail EINVAL
    end).

(** ** Directories *)

(** The path [q] lies below the directory [p]. *)
Definition below (p q : string) : bool := String.prefix (p +:+ "/") q.
Definition empty_dir (w : world) (p : string) : bool :=
  bool_decide (map_Forall (λ q _, below p q = false) w.(w_files)).

Definition mkdir (path : string) (mode : Z) : M Z :=
  call (
    p ← gets (λ w, resolve w path);
    i ← gets (λ w, w.(w_files) !! p);
    d ← gets (λ w, is_dir w (parent p));
    match i with
    | Some _ => fail EEXIST
    | None =>
        if (d : bool) then
          modify (λ w, set_w_files (<[p := IDir (Z.land mode (Z.lnot w.(w_umask)))]> w.(w_files)) w);; mret 0%Z
        else fail ENOENT
    end).

Definition rmdir (path : string) : M Z :=
  call (
    p ← gets (λ w, resolve w path);
    i ← gets (λ w, w.(w_files) !! p);
    e ← gets (λ w, empty_dir w p);
    match i with
    | None => fail ENOENT
    | Some (IDir _) =>
        if (e : bool) then modify (λ w, set_w_files (delete p w.(w_files)) w);; mret 0%Z else fail ENOTEMPTY
    | Some _ => fail ENOTDIR
    end).

(** The path [q] after [a] has become [b]. *)
Definition moved (a b q : string) : string :=
  if bool_decide (q = a) then b
  else if below a q then b +:+ String.substring (String.length a) (String.length q - String.length a) q
  else q.
Definition move_tree (a b : string) (m : gmap string inode) : gmap string inode :=
  list_to_map ((λ x : string * inode, (moved a b x.1, x.2)) <$> map_to_list (delete b m)).

(** [rename(old, new)]: an existing [new] is replaced when it is of the same
    kind, and empty if it is a directory. *)
Definition rename (old new : string) : M Z :=
  call (
    a ← gets (λ w, resolve w old);
    b ← gets (λ w, resolve w new);
    i ← gets (λ w, w.(w_files) !! a);
    j ← gets (λ w, w.(w_files) !! b);
    d ← gets (λ w, is_dir w (parent b));
    e ← gets (λ w, empty_dir w b);
    let move := modify (λ w, set_w_files (move_tree a b w.(w_files)) w);; mret 0%Z in
    match i, j with
    | None, _ => fail ENOENT
    | Some _, None => if below a b then fail EINVAL else if (d : bool) then move else fail ENOENT
    | Some (IDir _), Some (IDir _) =>
        if bool_decide (a = b) then mret 0%Z
        else if below a b then fail EINVAL else if (e : bool) then move else fail ENOTEMPTY
    | Some (IDir _), Some _ => fail ENOTDIR
    | Some _, Some (IDir _) => fail EISDIR
    | Some _, Some _ => if bool_decide (a = b) then mret 0%Z else move
    end).

Definition chdir (path : string) : M Z :=
  call (
    p ← gets (λ w, resolve w path);
    i ← gets (λ w, w.(w_files) !! p);
    match i with
    | None => fail ENOENT
    | Some (IDir _) => modify (set_w_cwd p);; mret 0%Z
    | Some _ => fail ENOTDIR
    end).

(** [getcwd(buf, n)] into a buffer whose bytes are indeterminate: the C string
    stored, or none when it does not fit. *)
Definition getcwd (n : nat) : M (option bytes) :=
  try_call (
    d ← gets (λ w, B w.(w_cwd));
    if decide (length d < n) then mret (Some d) else modify (set_w_errno ERANGE);; mret None).

(** ** Named pipes *)

Definition mkfifo (path : string) (mode : Z) : M Z :=
  call (
    p ← gets (λ w, resolve w path);
    i ← gets (λ w, w.(w_files) !! p);
    d ← gets (λ w, is_dir w (parent p));
    match i with
    | Some _ => fail EEXIST
    | None =>
        if (d : bool) then
          modify (λ w, set_w_files (<[p := IFifo (Z.land mode (Z.lnot w.(w_umask)))]> w.(w_files)) w);; mret 0%Z
        else fail ENOENT
    end).

(** ** Shared mappings *)

(** A mapping of the first bytes of a file, written through to it. *)
Record mapping := Mapping { mp_path : string; mp_len : nat }.

(** [mmap(NULL, n, PROT_READ | PROT_WRITE, MAP_SHARED, fd, 0)]. *)
Definition mmap (n : Z) (fd : Z) : M (option mapping) :=
  try_call (
    d ← fd_desc fd;
    match d with
    | Some (DFile oid) =>
        o ← gets (λ w, w.(w_open) !! oid);
        match o with
        | Some o =>
            if (n =? 0)%Z then modify (set_w_errno EINVAL);; mret None
            else if (n <? 0)%Z then modify (set_w_errno ENOMEM);; mret None
            else if readable o.(of_flags) && writable o.(of_flags)
            then mret (Some (Mapping o.(of_path) (Z.to_nat n)))
            else modify (set_w_errno EACCES);; mret None
        | None => undefined
        end
    | Some _ => modify (set_w_errno EACCES);; mret None
    | None => modify (set_w_errno EBADF);; mret None
    end).

Definition mapped (m : mapping) (w : world) : option bytes :=
  match w.(w_files) !! m.(mp_path) with Some (IFile _ c) => Some c | _ => None end.

(** [memcpy(dst, src, n)] between mappings, defined inside both and inside
    both files. *)
Definition memcpy (dst src : mapping) (n : nat) : M unit :=
  s ← gets (mapped src);
  d ← gets (λ w, w.(w_files) !! dst.(mp_path));
  match s, d with
  | Some s, Some (IFile m c) =>
      if decide (n ≤ src.(mp_len) ∧ n ≤ dst.(mp_len) ∧ n ≤ length s ∧ n ≤ length c)
      then modify (λ w, set_w_files (<[dst.(mp_path) := IFile m (write_at 0 (take n s) c)]> w.(w_files)) w)
      else undefined
  | _, _ => undefined
  end.

Definition munmap (m : mapping) : M Z := mret 0%Z.
