(* ===== verification/FileIO.v ===== *)
(** * Programs on files: lessons 9 to 17, and the mapped copy of lesson25

    Each [main] is translated call by call; the world may make any of the
    calls fail. *)
From S2P Require Import Prelude CString Posix Files.

(** [if (ret == -1) { perror(s); return -1; }], and the variants that exit
    with 0. *)
Definition check_ret (ret : Z) (s : string) : M unit :=
  if (ret =? -1)%Z then die s (-1) else mret tt.
Definition check_exit (ret : Z) (s : string) : M unit :=
  if (ret =? -1)%Z then die s 0 else mret tt.

(** ** lesson09: open and create *)

Definition open_main : M unit :=
  fd ← open "a.txt" O_RDONLY 0;
  (if (fd =? -1)%Z then perror "open" else print (B "open successful" ++ [LF]));;
  close fd;; exit 0.

(** lesson09/example/open.c *)
Definition open_example_main : M unit :=
  fd ← open "a.txt" O_RDONLY 0;
  (if (fd =? -1)%Z then perror "open" else mret tt);;
  close fd;; exit 0.

(** The mode 0777. *)
Definition create_main : M unit :=
  fd ← open "create.txt" (Z.lor O_RDWR O_CREAT) 511;
  (if (fd =? -1)%Z then perror "open" else mret tt);;
  close fd;; exit 0.

(** ** lesson10/copyfile.c *)

(** One turn of [while((len = read(srcfd, buf, sizeof(buf))) > 0)]; [n] is the
    size of the buffer. *)
Definition copy_turn (n : nat) (srcfd destfd : Z) (buf : bytes) : M (bytes + unit) :=
  '(len, buf) ← read srcfd buf n;
  if (len >? 0)%Z then write destfd (take (Z.to_nat len) buf);; mret (inl buf) else mret (inr tt).

Definition copyfile (n fuel : nat) : M unit :=
  srcfd ← open "english.txt" O_RDONLY 0; check_ret srcfd "open";;
  print (B "File english.txt open successfully!" ++ [LF]);;
  destfd ← open "cpy.txt" (Z.lor O_WRONLY O_CREAT) 436; check_ret destfd "open";;
  print (B "File cpy.txt create successfully!" ++ [LF]);;
  loop fuel (copy_turn n srcfd destfd) (replicate n NUL);;
  close destfd;; close srcfd;; exit 0.

Definition copyfile_main (fuel : nat) : M unit := copyfile 1024 fuel.

(** ** lesson11/lseek.c *)

Definition lseek_main : M unit :=
  fd ← open "hello.txt" O_RDWR 0; check_ret fd "open";;
  ret ← lseek_end fd 100; check_ret (to_int32 ret) "lseek";;
  write fd [NUL];;
  close fd;; exit 0.

(** ** lesson12: stat *)

Definition stat_main : M unit :=
  st ← stat "a.txt";
  match st with
  | None => die "stat" (-1)
  | Some (_, st_size) => print (B "size: " ++ dec st_size ++ [LF]);; exit 0
  end.

(** The letter of the type of a file. *)
Definition type_letter (st_mode : Z) : ascii :=
  let t := Z.land st_mode S_IFMT in
  if (t =? S_IFLNK)%Z then "l"
  else if (t =? S_IFDIR)%Z then "d"
  else if (t =? S_IFREG)%Z then "-"
  else if (t =? S_IFBLK)%Z then "b"
  else if (t =? S_IFCHR)%Z then "c"
  else if (t =? S_IFSOCK)%Z then "s"
  else if (t =? S_IFIFO)%Z then "p"
  else "?".

Definition bit_letter (st_mode bit : Z) (c : ascii) : ascii :=
  if has st_mode bit then c else "-".

(** [perms]: S_IRUSR = 0400 down to S_IXOTH = 01. *)
Definition perms (st_mode : Z) : bytes :=
  [type_letter st_mode;
   bit_letter st_mode 256 "r"; bit_letter st_mode 128 "w"; bit_letter st_mode 64 "x";
   bit_letter st_mode 32 "r"; bit_letter st_mode 16 "w"; bit_letter st_mode 8 "x";
   bit_letter st_mode 4 "r"; bit_letter st_mode 2 "w"; bit_letter st_mode 1 "x"].

(** What [stat] and the system tables say of a file beyond mode and size: the
    links, the names of owner and group ([None] when the id has no entry), and
    the text [ctime] gives for the modification time, which ends in a line
    feed. *)
Record attributes := Attributes {
  st_nlink : Z; user : option bytes; group : option bytes; mtime_text : bytes }.

(** [sprintf] into an array of [size] bytes. *)
Definition sprintf (size : nat) (s : bytes) : M bytes :=
  if decide (length s < size) then mret s else undefined.

(** lesson12/ls-l.c *)
Definition ls_l_main (attr : string → attributes) (argv0 : bytes) (argv1 : option string) : M unit :=
  match argv1 with
  | None => print (argv0 ++ B " filename" ++ [LF]);; exit (-1)
  | Some path =>
      st ← stat path;
      match st with
      | None => die "stat" (-1)
      | Some (st_mode, st_size) =>
          let a := attr path in
          match a.(user), a.(group) with
          | Some fileUser, Some fileGrp =>
              mtime ← sprintf 512 (take (length a.(mtime_text) - 1) a.(mtime_text));
              buf ← sprintf 1024 (perms st_mode ++ [SP] ++ dec (to_int32 a.(st_nlink)) ++ [SP] ++ fileUser ++ [SP]
                ++ fileGrp ++ [SP] ++ dec st_size ++ [SP] ++ mtime ++ [SP] ++ B path);
              print (buf ++ [LF]);; exit 0
          | _, _ => undefined
          end
      end
  end.

(** ** lesson13: access, chmod, truncate *)

(** The message is printed also when the file does not exist. *)
Definition access_main : M unit :=
  ret ← access "a.txt";
  (if (ret =? -1)%Z then perror "access" else mret tt);;
  print (B "文件存在！！!" ++ [LF]);; exit 0.

Definition chmod_main : M unit :=
  ret ← chmod "a.txt" 511; check_ret ret "chmod";; exit 0.

Definition truncate_main : M unit :=
  ret ← truncate "b.txt" 15; check_ret ret "truncate";; exit 0.

(** ** lesson14: directories *)

(** [printf] of a buffer [getcwd] has not filled is undefined. *)
Definition show_cwd : M unit :=
  buf ← getcwd 128;
  match buf with
  | Some d => print (B "当前的工作目录是：" ++ d ++ [LF])
  | None => undefined
  end.

Definition chdir_main : M unit :=
  show_cwd;;
  ret ← chdir "/home/shallow/Linux/lesson13"; check_ret ret "chdir";;
  fd ← open "chdir.txt" (Z.lor O_CREAT O_RDWR) 436; check_ret fd "open";;
  close fd;;
  show_cwd;; exit 0.

Definition mkdir_main : M unit :=
  ret ← mkdir "aaa" 511; check_ret ret "mkdir";;
  print (B "文件创建成功" ++ [LF]);; exit 0.

Definition rename_main : M unit :=
  ret ← rename "aaa" "bbb"; check_ret ret "rename";; exit 0.

Definition rmdir_main : M unit :=
  ret ← rmdir "aaa"; check_ret ret "rmdir";;
  print (B "文件夹删除成功" ++ [LF]);; exit 0.

(** ** lesson16: duplicate descriptors *)

(** The result of [open] is not tested. *)
Definition dup_main : M unit :=
  fd ← open "a.txt" (Z.lor O_RDWR O_CREAT) 436;
  fd1 ← dup fd; check_ret fd1 "dup";;
  print (B "fd : " ++ dec fd ++ B " , fd1 : " ++ dec fd1 ++ [LF]);;
  close fd;;
  ret ← write fd1 (B "hello,world"); check_ret ret "write";;
  close fd1;; exit 0.

Definition dup2_main : M unit :=
  fd ← open "1.txt" (Z.lor O_RDWR O_CREAT) 436; check_ret fd "open";;
  fd1 ← open "2.txt" (Z.lor O_RDWR O_CREAT) 436; check_ret fd1 "open";;
  print (B "fd : " ++ dec fd ++ B ", fd1 : " ++ dec fd1 ++ [LF]);;
  fd2 ← dup2 fd fd1; check_ret fd2 "dup2";;
  len ← write fd1 (B "hello, dup2"); check_ret len "write";;
  print (B "fd : " ++ dec fd ++ B ", fd1 : " ++ dec fd1 ++ B ", fd2 : " ++ dec fd2 ++ [LF]);;
  close fd;; close fd1;; exit 0.

(** ** lesson17/fcntl.c *)

Definition fcntl_main : M unit :=
  fd ← open "1.txt" O_RDWR 0; check_ret fd "open";;
  flag ← fcntl_getfl fd; check_ret flag "fcntl";;
  ret ← fcntl_setfl fd (Z.lor flag O_APPEND); check_ret ret "fcntl";;
  write fd (B "nihao");;
  close fd;; exit 0.

(** ** lesson25/copy.c *)

Definition mmap_copy_main : M unit :=
  fd ← open "english.txt" O_RDWR 0; check_exit fd "open";;
  len ← lseek_end fd 0;
  let len := to_int32 len in
  fd1 ← open "cpy.txt" (Z.lor O_RDWR O_CREAT) 436; check_exit fd1 "open";;
  truncate "cpy.txt" len;;
  write fd1 [SP];;
  ptr ← mmap len fd;
  ptr1 ← mmap len fd1;
  match ptr, ptr1 with
  | Some ptr, Some ptr1 =>
      memcpy ptr1 ptr (Z.to_nat len);;
      munmap ptr1;; munmap ptr;;
      close fd1;; close fd;; exit 0
  | _, _ => die "mmap" 0
  end.
