(* ===== verification/FileProofs.v ===== *)
(** * What the file programs compute: proofs about FileIO *)
From S2P Require Import Prelude CString Posix Files FileIO.

(** ** Steps of the calls on files *)

(** The world after a file has been opened at [p]. *)
Definition opened_file (p : string) (flags : Z) (w : world) : world :=
  set_w_fds (<[lowest (size w.(w_fds)) 0 w.(w_fds) := DFile (length w.(w_open))]> w.(w_fds))
    (set_w_open (w.(w_open) ++ [OpenFile p 0 flags]) w).

Section file_steps.
Variable w : world.
Hypothesis no_faults : w.(w_faults) = [].

Lemma open_existing path flags mode m c :
  w.(w_files) !! resolve w path = Some (IFile m c) → has flags O_TRUNC = false →
  open path flags mode w
  = (Ok (lowest (size w.(w_fds)) 0 w.(w_fds)), opened_file (resolve w path) flags w).
Proof.
  intros Hf Ht. unfold open. rewrite call_ok by done. erewrite bind_ok by reflexivity.
  erewrite bind_ok by reflexivity. rewrite Hf, Ht. done.
Qed.

Lemma open_creates path flags mode :
  w.(w_files) !! resolve w path = None → has flags O_CREAT = true → is_dir w (parent (resolve w path)) = true →
  open path flags mode w
  = (Ok (lowest (size w.(w_fds)) 0 w.(w_fds)),
     opened_file (resolve w path) flags
       (set_w_files (<[resolve w path := IFile (Z.land mode (Z.lnot w.(w_umask))) []]> w.(w_files)) w)).
Proof.
  intros Hf Hc Hd. unfold open. rewrite call_ok by done. erewrite bind_ok by reflexivity.
  erewrite bind_ok by reflexivity. rewrite Hf. erewrite bind_ok by reflexivity. rewrite Hc, Hd. done.
Qed.

Lemma read_file fd buf n oid p off fl m c :
  w.(w_fds) !! fd = Some (DFile oid) → w.(w_open) !! oid = Some (OpenFile p off fl) → readable fl = true →
  w.(w_files) !! p = Some (IFile m c) →
  read fd buf n w
  = (Ok (Z.of_nat (length (take n (drop off c))), fill (take n (drop off c)) buf),
     set_w_open (<[oid := OpenFile p (off + length (take n (drop off c))) fl]> w.(w_open)) w).
Proof.
  intros Hfd Ho Hr Hf. apply read_sys; [done|]. unfold sys_read. erewrite bind_ok by reflexivity. rewrite Hfd.
  erewrite bind_ok by reflexivity. rewrite Ho. cbn [of_flags of_path of_off]. rewrite Hr. cbn [negb].
  erewrite bind_ok by reflexivity. by rewrite Hf.
Qed.

Lemma write_file fd d oid p off fl m c :
  w.(w_fds) !! fd = Some (DFile oid) → w.(w_open) !! oid = Some (OpenFile p off fl) → writable fl = true →
  w.(w_files) !! p = Some (IFile m c) →
  write fd d w
  = (Ok (Z.of_nat (length d)),
     let q := if has fl O_APPEND then length c else off in
     set_w_open (<[oid := OpenFile p (q + length d) fl]> w.(w_open))
       (set_w_files (<[p := IFile m (write_at q d c)]> w.(w_files)) w)).
Proof.
  intros Hfd Ho Hr Hf. unfold write. rewrite call_ok by done. unfold sys_write.
  erewrite bind_ok by reflexivity. rewrite Hfd.
  erewrite bind_ok by reflexivity. rewrite Ho. cbn [of_flags of_path of_off]. rewrite Hr. cbn [negb].
  erewrite bind_ok by reflexivity. by rewrite Hf.
Qed.
End file_steps.

(** ** Copying *)

Lemma take_length_take {A} n (l : list A) : take (length (take n l)) l = take n l.
Proof.
  rewrite length_take. destruct (decide (n ≤ length l)); [by rewrite Nat.min_l by lia|].
  rewrite Nat.min_r by lia. by rewrite !take_ge by lia.
Qed.

Lemma write_at_next k n c old :
  0 < length (take n (drop k c)) → k ≤ length c →
  write_at k (take n (drop k c)) (take k c ++ drop k old)
  = take (k + length (take n (drop k c))) c ++ drop (k + length (take n (drop k c))) old.
Proof.
  intros Hd Hk. set (d := take n (drop k c)) in *. destruct d as [|x d'] eqn:E; [simpl in Hd; lia|].
  unfold write_at. rewrite <- E. assert (length (take k c) = k) as Hl by (rewrite length_take; lia).
  assert (take k c ++ d = take (k + length d) c) as Ht.
  { rewrite <- take_take_drop. f_equal. unfold d. by rewrite take_length_take. }
  rewrite length_app, Hl. replace (k - (k + _)) with 0 by lia. cbn [replicate app].
  rewrite take_app_le, take_take, Nat.min_id by lia. rewrite app_assoc, E, <- E, Ht. f_equal.
  rewrite drop_app_ge by lia. rewrite Hl, drop_drop. f_equal. lia.
Qed.

Section copying.
Variables (n : nat) (srcfd destfd : Z) (os od : nat) (ps pd : string) (fs fd md : Z) (c old : bytes).
Variable w0 : world.
Hypothesis n_pos : 0 < n.
Hypothesis src_fd : w0.(w_fds) !! srcfd = Some (DFile os).
Hypothesis dest_fd : w0.(w_fds) !! destfd = Some (DFile od).
Hypothesis os_od : os ≠ od.
Hypothesis ps_pd : ps ≠ pd.
Hypothesis src_readable : readable fs = true.
Hypothesis dest_writable : writable fd = true.
Hypothesis dest_no_append : has fd O_APPEND = false.
Hypothesis src_file : ∃ m, w0.(w_files) !! ps = Some (IFile m c).

(** The world after [k] bytes. *)
Record copied (k : nat) (w : world) : Prop := {
  cp_faults : w.(w_faults) = [];
  cp_fds : w.(w_fds) = w0.(w_fds);
  cp_src : w.(w_open) !! os = Some (OpenFile ps k fs);
  cp_dest : w.(w_open) !! od = Some (OpenFile pd k fd);
  cp_files : w.(w_files) = <[pd := IFile md (take k c ++ drop k old)]> w0.(w_files);
  cp_out : w.(w_out) = w0.(w_out);
  cp_epoll : w.(w_epoll) = w0.(w_epoll)
}.

Lemma copy_turn_ok k buf w :
  copied k w → k ≤ length c → length buf = n →
  let d := take n (drop k c) in
  ∃ w', copied (k + length d) w' ∧ length (fill d buf) = n
    ∧ copy_turn n srcfd destfd buf w = (Ok (if decide (0 < length d) then inl (fill d buf) else inr tt), w').
Proof.
  intros Hw Hk Hb d. pose proof Hw as []. destruct src_file as [m Hm].
  assert (length d ≤ n) as Hd by (unfold d; rewrite length_take; lia).
  assert (length (fill d buf) = n) as Hfill by (rewrite length_fill; lia).
  unfold copy_turn. erewrite bind_ok.
  2:{ eapply (read_file w cp_faults0 srcfd buf n os ps k fs m c); [by rewrite cp_fds0|done|done|].
      rewrite cp_files0. by rewrite lookup_insert_ne. }
  fold d. cbv beta iota. destruct (decide (0 < length d)) as [Hpos|Hz].
  - rewrite Z.gtb_ltb, (proj2 (Z.ltb_lt _ _)) by lia. eexists. split_and!; [|done|].
    2:{ erewrite bind_ok; [reflexivity|]. rewrite Nat2Z.id. unfold fill. rewrite take_app_exact.
        eapply (write_file (set_w_open (<[os := OpenFile ps (k + length d) fs]> w.(w_open)) w) cp_faults0 destfd d od pd k fd md (take k c ++ drop k old)); [|..|done|].
        - cbn [w_fds set_w_open]. by rewrite cp_fds0.
        - cbn [w_open set_w_open]. by rewrite list_lookup_insert_ne.
        - cbn [w_files set_w_open]. rewrite cp_files0. by rewrite lookup_insert_eq. }
    rewrite dest_no_append. split; cbn [w_faults w_fds w_open w_files w_out w_epoll set_w_open set_w_files]; try done.
    + rewrite list_lookup_insert_ne by done. apply list_lookup_insert_eq. by eapply lookup_lt_Some.
    + apply list_lookup_insert_eq. rewrite length_insert. by eapply lookup_lt_Some.
    + rewrite cp_files0, insert_insert_eq. unfold d. by rewrite write_at_next.
  - rewrite Z.gtb_ltb, (proj2 (Z.ltb_ge _ _)) by lia. eexists. split_and!; [|done|reflexivity].
    assert (length d = 0) as -> by lia. rewrite Nat.add_0_r.
    split; cbn [w_faults w_fds w_open w_files w_out w_epoll set_w_open]; try done.
    + apply list_lookup_insert_eq. by eapply lookup_lt_Some.
    + by rewrite list_lookup_insert_ne.
Qed.

Lemma copy_loop_ok fuel k buf w :
  copied k w → k ≤ length c → length buf = n → length c - k < fuel →
  ∃ w', loop fuel (copy_turn n srcfd destfd) buf w = (Ok tt, w') ∧ copied (length c) w'.
Proof.
  revert k buf w. induction fuel as [|fuel IH]; intros k buf w Hw Hk Hb Hf; [lia|].
  destruct (copy_turn_ok k buf w Hw Hk Hb) as (w1 & Hw1 & Hfill & E). set (d := take n (drop k c)) in *.
  assert (length d = min n (length c - k)) as Hd by (unfold d; by rewrite length_take, length_drop).
  destruct (decide (0 < length d)) as [Hpos|Hz].
  - rewrite (loop_next _ _ _ _ _ _ E). apply (IH (k + length d)); [done|lia|done|lia].
  - exists w1. split; [apply (loop_break _ _ _ _ _ _ E)|]. by replace (length c) with (k + length d) by lia.
Qed.
End copying.

(** *** Paths of the current directory *)

Lemma before_slash_app l d : "/"%char ∉ d → before_slash (l ++ "/"%char :: d) = Some l.
Proof.
  intros Hd. assert (before_slash d = None) as H0.
  { induction d as [|x d IH]; [done|]. apply not_elem_of_cons in Hd as [Hx Hd]. simpl. rewrite IH by done.
    by rewrite (proj2 (Ascii.eqb_neq x "/")). }
  induction l as [|x l IH]; simpl; [by rewrite H0|by rewrite IH].
Qed.

Lemma parent_in_cwd s name : "/"%char ∉ B name → parent (s +:+ "/" +:+ name) = s.
Proof.
  intros H. unfold parent. replace (B (s +:+ "/" +:+ name)) with (B s ++ "/"%char :: B name).
  - rewrite before_slash_app by done. apply String.string_of_list_ascii_of_string.
  - unfold B. induction s as [|x s IH]; [done|]. simpl. by rewrite IH.
Qed.

Lemma cwd_is_dir w : is_dir w w.(w_cwd) = true.
Proof. unfold is_dir. rewrite (bool_decide_eq_true_2 (w.(w_cwd) = w.(w_cwd))) by done. by rewrite orb_true_r. Qed.

(** The file at [p] before it is opened for writing: what it holds, or what it
    is created with. *)
Definition previous (w : world) (p : string) (mode : Z) : Z * bytes :=
  match w.(w_files) !! p with
  | Some (IFile m old) => (m, old)
  | _ => (Z.land mode (Z.lnot w.(w_umask)), [])
  end.
Definition plain_or_none (w : world) (p : string) : Prop :=
  match w.(w_files) !! p with None | Some (IFile _ _) => True | _ => False end.

Lemma open_for_writing w name flags mode :
  w.(w_faults) = [] → resolve w name = w.(w_cwd) +:+ "/" +:+ name → "/"%char ∉ B name →
  plain_or_none w (resolve w name) → has flags O_CREAT = true → has flags O_TRUNC = false →
  open name flags mode w
  = (Ok (lowest (size w.(w_fds)) 0 w.(w_fds)),
     opened_file (resolve w name) flags
       (set_w_files (<[resolve w name := IFile (previous w (resolve w name) mode).1 (previous w (resolve w name) mode).2]> w.(w_files)) w)).
Proof.
  intros Hf Hr Hn Hp Hc Ht. unfold plain_or_none, previous in *.
  destruct (w.(w_files) !! resolve w name) as [[m old| | |]|] eqn:E; try done.
  - rewrite (open_existing _ Hf _ _ _ _ _ E Ht). simpl. rewrite insert_id by done. by destruct w.
  - rewrite (open_creates _ Hf _ _ _ E Hc); [done|]. rewrite Hr, parent_in_cwd by done. apply cwd_is_dir.
Qed.

Lemma check_ret_ok fd s w : (0 ≤ fd)%Z → check_ret fd s w = (Ok tt, w).
Proof. intros H. unfold check_ret. by rewrite (proj2 (Z.eqb_neq fd (-1))) by lia. Qed.

Lemma check_exit_ok fd s w : (0 ≤ fd)%Z → check_exit fd s w = (Ok tt, w).
Proof. intros H. unfold check_exit. by rewrite (proj2 (Z.eqb_neq fd (-1))) by lia. Qed.

(** The two files of a copy have been opened. *)
Record both_open (p q : string) (fp fq md : Z) (old : bytes) (a b : Z) (w w' : world) : Prop := {
  bo_faults : w'.(w_faults) = [];
  bo_fds : w'.(w_fds) = <[b := DFile (S (length w.(w_open)))]> (<[a := DFile (length w.(w_open))]> w.(w_fds));
  bo_open : w'.(w_open) = w.(w_open) ++ [OpenFile p 0 fp; OpenFile q 0 fq];
  bo_files : w'.(w_files) = <[q := IFile md old]> w.(w_files);
  bo_fresh : w.(w_fds) !! a = None ∧ w.(w_fds) !! b = None ∧ a ≠ b ∧ (0 ≤ a)%Z ∧ (0 ≤ b)%Z
}.

(** Both descriptors closed again. *)
Lemma close_both p q fp fq md old a b w w1 w2 :
  both_open p q fp fq md old a b w w1 → w2.(w_fds) = w1.(w_fds) →
  ∃ w3, (close b ≫= λ _, close a ≫= λ _, exit 0) w2 = (@Exit unit 0, w3)
    ∧ w3.(w_fds) = w.(w_fds) ∧ w3.(w_files) = w2.(w_files).
Proof.
  intros [_ Hfds _ _ (Ha & Hb & Hab & _ & _)] E. rewrite Hfds in E.
  rewrite (bind_ok _ _ _ _ _ (close_open b w2 ltac:(rewrite E, lookup_insert_eq; by eexists))).
  set (w2' := set_w_epoll _ _).
  assert (w2'.(w_fds) = <[a := DFile (length w.(w_open))]> w.(w_fds)) as E2.
  { unfold w2'. cbn [w_fds set_w_epoll set_w_fds]. rewrite E, delete_insert_id; [done|]. by rewrite lookup_insert_ne. }
  rewrite (bind_ok _ _ _ _ _ (close_open a w2' ltac:(rewrite E2, lookup_insert_eq; by eexists))).
  eexists. split; [reflexivity|]. split; [|done]. cbn [w_fds set_w_epoll set_w_fds].
  rewrite E2, delete_insert_id; [done|done].
Qed.

(** The beginning of the copying programs. *)
Definition first_opened (w : world) : Z := lowest (size w.(w_fds)) 0 w.(w_fds).

Lemma open_both w w1 w2 p q fp fq md old :
  w.(w_faults) = [] → p ≠ q →
  w1 = opened_file p fp w → w2.(w_faults) = [] → w2.(w_fds) = w1.(w_fds) → w2.(w_open) = w1.(w_open) →
  w2.(w_files) = w.(w_files) →
  both_open p q fp fq md old (first_opened w) (first_opened w2) w
    (opened_file q fq (set_w_files (<[q := IFile md old]> w2.(w_files)) w2)).
Proof.
  intros Hf Hne -> Hf2 Efd Eop Efi. unfold opened_file in *. cbn [w_fds w_open set_w_fds set_w_open] in Efd, Eop.
  cbn [w_fds w_open set_w_files].
  pose proof (lowest_fresh w2.(w_fds)) as Hb. unfold first_opened.
  pose proof (lowest_le (size w2.(w_fds)) 0 w2.(w_fds)) as Hge.
  set (b := lowest (size w2.(w_fds)) 0 w2.(w_fds)) in *. clearbody b. rewrite Efd in Hb.
  apply lookup_insert_None in Hb as [Hb Hab]. split; cbn [w_faults w_fds w_open w_files set_w_fds set_w_open set_w_files]; try done.
  - rewrite Efd, Eop, length_app. simpl length. by rewrite Nat.add_1_r.
  - by rewrite Eop, <- app_assoc.
  - by rewrite Efi.
  - split_and!; [apply lowest_fresh|done|done|apply lowest_le|done].
Qed.

Lemma in_cwd_ne w a b :
  resolve w a = w.(w_cwd) +:+ "/" +:+ a → resolve w b = w.(w_cwd) +:+ "/" +:+ b → a ≠ b → resolve w a ≠ resolve w b.
Proof. intros -> -> Hne H. by apply (inj _), (inj _) in H. Qed.

Lemma copyfile_run n fuel w ms c md old :
  0 < n → w.(w_faults) = [] → w.(w_files) !! resolve w "english.txt" = Some (IFile ms c) →
  plain_or_none w (resolve w "cpy.txt") → length c < fuel → previous w (resolve w "cpy.txt") 436 = (md, old) →
  ∃ w', copyfile n fuel w = (Exit 0, w')
    ∧ w'.(w_files) = <[resolve w "cpy.txt" := IFile md (c ++ drop (length c) old)]> w.(w_files)
    ∧ w'.(w_fds) = w.(w_fds).
Proof.
  intros Hn Hf Hs Hp Hfuel Hprev. set (S := resolve w "english.txt") in *. set (D := resolve w "cpy.txt") in *.
  assert (S ≠ D) as Hne by by apply in_cwd_ne.
  unfold copyfile. rewrite (bind_ok _ _ _ _ _ (open_existing w Hf "english.txt" O_RDONLY 0 ms c Hs eq_refl)).
  rewrite (bind_ok _ _ _ _ _ (check_ret_ok _ _ _ (lowest_le _ 0 _))). fold S.
  rewrite (bind_ok _ _ _ _ _ (print_say _ _)). set (w2 := say _ _).
  rewrite (bind_ok _ _ _ _ _ (open_for_writing w2 "cpy.txt" (Z.lor O_WRONLY O_CREAT) 436 Hf eq_refl
    ltac:(apply (bool_decide_unpack _); vm_compute; exact I) Hp eq_refl eq_refl)).
  rewrite (bind_ok _ _ _ _ _ (check_ret_ok _ _ _ (lowest_le _ 0 _))).
  rewrite (bind_ok _ _ _ _ _ (print_say _ _)).
  change (previous w2 (resolve w2 "cpy.txt") 436) with (previous w D 436). rewrite Hprev. cbn [fst snd].
  change (resolve w2 "cpy.txt") with D.
  pose proof (open_both w (opened_file S O_RDONLY w) w2 S D O_RDONLY (Z.lor O_WRONLY O_CREAT) md old
    Hf Hne eq_refl Hf eq_refl eq_refl eq_refl) as Hbo.
  unfold first_opened in Hbo. set (a := lowest (size (w_fds w)) 0 (w_fds w)) in *.
  set (b := lowest (size (w_fds w2)) 0 (w_fds w2)) in *. set (w3 := opened_file D _ _) in *.
  set (w4 := say _ w3). pose proof Hbo as [_ Hfds Hop Hfi (Ha & Hb & Hab & _ & _)].
  edestruct (copy_loop_ok n a b (length w.(w_open)) (1 + length w.(w_open)) S D O_RDONLY (Z.lor O_WRONLY O_CREAT) md c old w4
    Hn) with (fuel := fuel) (k := 0) (buf := replicate n NUL) (w := w4) as (w5 & E & Hw5).
  all: change (w_fds w4) with (w_fds w3) in *; change (w_files w4) with (w_files w3) in *;
    rewrite ?Hfds, ?Hfi.
  { by rewrite lookup_insert_ne, lookup_insert_eq. }
  { by rewrite lookup_insert_eq. }
  { lia. }
  { done. }
  { done. }
  { done. }
  { done. }
  { exists ms. by rewrite lookup_insert_ne. }
  { split; try done.
    - change (w_open w4) with (w_open w3). by rewrite Hop, lookup_app_r, Nat.sub_diag by lia.
    - change (w_open w4) with (w_open w3). rewrite Hop, lookup_app_r by lia.
      by replace (1 + length w.(w_open) - length w.(w_open)) with 1 by lia.
    - change (w_files w4) with (w_files w3). rewrite Hfi, insert_insert_eq. done. }
  { lia. }
  { apply length_replicate. }
  { lia. }
  rewrite (bind_ok _ _ _ _ _ E).
  destruct (close_both _ _ _ _ _ _ _ _ _ _ w5 Hbo) as (w6 & E6 & Hfd6 & Hfi6); [by rewrite (cp_fds _ _ _ _ _ _ _ _ _ _ _ _ Hw5)|].
  exists w6. split; [exact E6|]. split; [|done].
  rewrite Hfi6, (cp_files _ _ _ _ _ _ _ _ _ _ _ _ Hw5). change (w_files w4) with (w_files w3).
  rewrite Hfi, insert_insert_eq, take_ge by lia. done.
Qed.

(** C37. The copy of lesson10, for any file and any earlier contents [old] of
    the destination: the program ends with 0, keeps no descriptor, and the
    destination then holds the source followed by what [old] had beyond that
    length; so it is a true copy exactly when the destination was not longer
    than the source. *)
Theorem copyfile_copies fuel w ms c :
  w.(w_faults) = [] →
  w.(w_files) !! resolve w "english.txt" = Some (IFile ms c) →
  plain_or_none w (resolve w "cpy.txt") →
  length c < fuel →
  let '(md, old) := previous w (resolve w "cpy.txt") 436 in
  ∃ w', copyfile_main fuel w = (Exit 0, w')
    ∧ w'.(w_files) = <[resolve w "cpy.txt" := IFile md (c ++ drop (length c) old)]> w.(w_files)
    ∧ w'.(w_fds) = w.(w_fds)
    ∧ (w'.(w_files) !! resolve w "cpy.txt" = Some (IFile md c) ↔ length old ≤ length c).
Proof.
  intros Hf Hs Hp Hfuel. destruct (previous w (resolve w "cpy.txt") 436) as [md old] eqn:Hprev.
  destruct (copyfile_run 1024 fuel w ms c md old) as (w' & E & Hfi & Hfd); [lia|done..|].
  exists w'. split; [exact E|]. split; [done|]. split; [done|].
  rewrite Hfi, lookup_insert_eq. split; [|intros; by rewrite drop_ge, app_nil_r].
  intros [= H]. apply (f_equal length) in H. rewrite length_app, length_drop in H. lia.
Qed.

(** The destination holds seven bytes, the source three. *)
Definition sample_files : world :=
  set_w_files {["/d/english.txt" := IFile 420 (B "abc"); "/d/cpy.txt" := IFile 420 (B "1234567")]}
    (set_w_cwd "/d" start).

Lemma copyfile_copies_witness :
  ∃ w', copyfile_main 4 sample_files = (Exit 0, w')
    ∧ w'.(w_files) !! "/d/cpy.txt" = Some (IFile 420 (B "abc4567")).
Proof.
  destruct (copyfile_copies 4 sample_files 420 (B "abc")) as (w' & E & Hfi & _);
    [reflexivity|reflexivity|exact I|apply (bool_decide_unpack _); vm_compute; exact I|].
  exists w'. split; [exact E|]. rewrite Hfi. reflexivity.
Defined.
