(* ===== verification/FileCount.v ===== *)
(** * Counting the files of a directory: lesson15/readFileNum.c

    The directory tree is data; [opendir] finds a directory by its path, and
    [readdir] returns its entries, the two dot entries included. *)
From S2P Require Import Prelude CString Posix Files FileIO.

(** ** Directory trees *)

(** A regular file (DT_REG, 8), a directory (DT_DIR, 4), or a file of another
    type. *)
Inductive node := Reg | Other (d_type : Z) | Dir (entries : list (bytes * node)).

Definition d_type (n : node) : Z := match n with Reg => 8 | Other t => t | Dir _ => 4 end.

Fixpoint node_ind' (P : node → Prop) (Hr : P Reg) (Ho : ∀ t, P (Other t))
  (Hd : ∀ es, Forall (λ e, P e.2) es → P (Dir es)) (n : node) : P n :=
  match n with
  | Reg => Hr
  | Other t => Ho t
  | Dir es =>
      Hd es ((fix go (es : list (bytes * node)) : Forall (λ e, P e.2) es :=
        match es with
        | [] => Forall_nil_2 _
        | e :: es => Forall_cons_2 _ e es (node_ind' P Hr Ho Hd e.2) (go es)
        end) es)
  end.

(** *** Paths *)

Definition dot : bytes := B ".".
Definition dotdot : bytes := B "..".
Definition slash : ascii := "/".

(** The pieces between the slashes. *)
Fixpoint split (l : bytes) : list bytes :=
  match l with
  | [] => [[]]
  | c :: l =>
      if Ascii.eqb c slash then [] :: split l
      else match split l with x :: r => (c :: x) :: r | [] => [[c]] end
  end.

(** One more component: empty ones and "." stay, ".." goes up. *)
Definition descend (at_ : list bytes) (c : bytes) : list bytes :=
  if bool_decide (c = [] ∨ c = dot) then at_
  else if bool_decide (c = dotdot) then take (length at_ - 1) at_
  else at_ ++ [c].
Definition locate (path : bytes) : list bytes := foldl descend [] (split path).

Definition child (d : bytes) (n : node) : option node :=
  match n with
  | Dir es => snd <$> list_find (λ e : bytes * node, e.1 = d) es ≫= λ x, Some x.2
  | _ => None
  end.
Definition lookup_path (root : node) (path : bytes) : option node :=
  foldl (λ n c, n ≫= child c) (Some root) (locate path).

(** ** The program *)

(** [opendir] and the entries [readdir] returns from the stream. *)
Definition opendir (root : node) (path : bytes) : M (option (list (bytes * Z))) :=
  try_call (
    match lookup_path root path with
    | Some (Dir es) => mret (Some ((dot, 4%Z) :: (dotdot, 4%Z) :: map (λ e : bytes * node, (e.1, d_type e.2)) es))
    | Some _ => modify (set_w_errno ENOTDIR);; mret None
    | None => modify (set_w_errno ENOENT);; mret None
    end).

(** Addition of [int]s, undefined when it overflows. *)
Definition add_int (a b : Z) : M Z :=
  if ((- 2 ^ 31 <=? a + b) && (a + b <? 2 ^ 31))%Z then mret (a + b)%Z else undefined.

(** The body of the loop over the entries; [rec] is the recursive call. *)
Definition count_entry (rec : bytes → M Z) (path : bytes) (e : bytes * Z) (total : Z) : M Z :=
  let '(dname, d_type) := e in
  if bool_decide (dname = dot ∨ dname = dotdot) then mret total
  else
    total ← (if (d_type =? 4)%Z then
               newpath ← sprintf 256 (path ++ slash :: dname);
               k ← rec newpath; add_int total k
             else mret total);
    if (d_type =? 8)%Z then add_int total 1 else mret total.

Fixpoint getFileNum (fuel : nat) (root : node) (path : bytes) : M Z :=
  match fuel with
  | 0 => λ w, (NoFuel, w)
  | S fuel =>
      dir ← opendir root path;
      match dir with
      | None => die "opendir" 0
      | Some stream => for_each stream (count_entry (getFileNum fuel root) path) 0%Z
      end
  end.

Definition readFileNum_main (fuel : nat) (root : node) (argv0 : bytes) (argv1 : option bytes) : M unit :=
  match argv1 with
  | None => print (argv0 ++ B " path" ++ [LF]);; exit (-1)
  | Some path =>
      num ← getFileNum fuel root path;
      print (B "普通文件的个数为：" ++ dec num ++ [LF]);; exit 0
  end.

(** ** What it computes *)

(** The regular files of a tree. *)
Fixpoint count (n : node) : Z :=
  match n with
  | Reg => 1
  | Other _ => 0
  | Dir es => foldr (λ e k, (count e.2 + k)%Z) 0%Z es
  end.

(** Directories on the longest way down. *)
Fixpoint depth (n : node) : nat :=
  match n with
  | Dir es => S (foldr (λ e k, depth e.2 `max` k) 0 es)
  | _ => 0
  end.

Definition name_ok (d : bytes) : Prop := d ≠ [] ∧ d ≠ dot ∧ d ≠ dotdot ∧ slash ∉ d.

(** Names are distinct and proper, and other types are neither 4 nor 8. *)
Inductive wf : node → Prop :=
| wf_reg : wf Reg
| wf_other t : t ≠ 4%Z → t ≠ 8%Z → wf (Other t)
| wf_dir es : NoDup (map fst es) → Forall (λ e, name_ok e.1) es → Forall (λ e, wf e.2) es → wf (Dir es).

(** The paths of the directories below one of length [n] fit in [newpath]. *)
Inductive fits (n : nat) : node → Prop :=
| fits_reg : fits n Reg
| fits_other t : fits n (Other t)
| fits_dir es :
    Forall (λ e, d_type e.2 = 4%Z → n + 1 + length e.1 < 256 ∧ fits (n + 1 + length e.1) e.2) es → fits n (Dir es).

(** *** Paths of children *)

Lemma split_ne l : split l ≠ [].
Proof. destruct l as [|c l]; simpl; [done|]. destruct (Ascii.eqb c slash); [done|]. by destruct (split l). Qed.

Lemma split_app p d : split (p ++ slash :: d) = split p ++ split d.
Proof.
  induction p as [|c p IH]; [done|]. cbn [app split]. rewrite IH.
  destruct (Ascii.eqb c slash); [done|]. destruct (split p) as [|x r] eqn:E; [by destruct (split_ne p)|done].
Qed.

Lemma split_name d : slash ∉ d → split d = [d].
Proof.
  induction d as [|c d IH]; intros H; [done|]. apply not_elem_of_cons in H as [Hc Hd]. cbn [split].
  rewrite IH by done. by rewrite (proj2 (Ascii.eqb_neq c slash)).
Qed.

Lemma locate_child p d : name_ok d → locate (p ++ slash :: d) = locate p ++ [d].
Proof.
  intros (H0 & H1 & H2 & Hs). unfold locate. rewrite split_app, (split_name d), foldl_app by done. simpl.
  unfold descend. rewrite !bool_decide_eq_false_2 by naive_solver. done.
Qed.

Lemma child_entry es d n : NoDup (map fst es) → (d, n) ∈ es → child d (Dir es) = Some n.
Proof.
  intros Hn Hin. simpl. apply list_elem_of_lookup_1 in Hin as [i Hi].
  assert (list_find (λ e : bytes * node, e.1 = d) es = Some (i, (d, n))) as ->; [|done].
  apply list_find_Some. split_and!; [done|done|]. intros j [d' n'] Hj Hlt Hd. simpl in Hd. subst d'.
  assert (i = j); [|lia]. eapply NoDup_lookup; [exact Hn| |]; rewrite list_lookup_fmap; by rewrite ?Hi, ?Hj.
Qed.

Lemma lookup_child root path es d n :
  lookup_path root path = Some (Dir es) → NoDup (map fst es) → name_ok d → (d, n) ∈ es →
  lookup_path root (path ++ slash :: d) = Some n.
Proof.
  intros H Hn Hd Hin. unfold lookup_path in *. rewrite locate_child, foldl_app by done. simpl.
  rewrite H. by apply child_entry.
Qed.

(** *** The count *)

Section count.
Variable root : node.
Variable w : world.
Hypothesis no_faults : w.(w_faults) = [].

Lemma opendir_ok path es :
  lookup_path root path = Some (Dir es) →
  opendir root path w
  = (Ok (Some ((dot, 4%Z) :: (dotdot, 4%Z) :: map (λ e : bytes * node, (e.1, d_type e.2)) es)), w).
Proof.
  intros H. unfold opendir, try_call. erewrite bind_ok by reflexivity. rewrite no_faults. by rewrite H.
Qed.

Lemma add_int_ok a b : (0 ≤ a)%Z → (0 ≤ b)%Z → (a + b < 2 ^ 31)%Z → add_int a b w = (Ok (a + b)%Z, w).
Proof.
  intros. unfold add_int. rewrite (proj2 (Z.leb_le _ _)), (proj2 (Z.ltb_lt _ _)) by lia. done.
Qed.

Lemma count_nonneg n : (0 ≤ count n)%Z.
Proof.
  induction n as [|t|es IH] using node_ind'; simpl; [lia|lia|].
  induction IH as [|e es He _ IHes]; simpl; lia.
Qed.

Lemma count_le e es : e ∈ es → (count e.2 ≤ count (Dir es))%Z.
Proof.
  induction 1 as [e es|e x es _ IH]; simpl.
  - pose proof (count_nonneg (Dir es)). simpl in *. lia.
  - pose proof (count_nonneg x.2). simpl in IH. lia.
Qed.

Lemma depth_le e es : e ∈ es → depth e.2 < depth (Dir es).
Proof. induction 1 as [e es|e x es _ IH]; simpl in *; lia. Qed.

(** One entry adds the files below it. *)
Lemma count_entry_ok rec path d n total :
  name_ok d → wf n → (0 ≤ total)%Z → (total + count n < 2 ^ 31)%Z →
  (d_type n = 4%Z → length path + 1 + length d < 256 ∧ rec (path ++ slash :: d) w = (Ok (count n), w)) →
  count_entry rec path (d, d_type n) total w = (Ok (total + count n)%Z, w).
Proof.
  intros (H0 & H1 & H2 & _) Hwf Ht Hb Hrec. unfold count_entry.
  rewrite bool_decide_eq_false_2 by naive_solver. destruct n as [|t|es]; cbn [d_type count] in *.
  - rewrite (bind_ok _ _ _ total w) by reflexivity. cbn [Z.eqb]. apply add_int_ok; lia.
  - inversion Hwf as [|? H4 H8|]. rewrite (proj2 (Z.eqb_neq t 4)) by done.
    rewrite (bind_ok _ _ _ total w) by reflexivity. rewrite (proj2 (Z.eqb_neq t 8)) by done.
    by rewrite Z.add_0_r.
  - destruct Hrec as [Hl Hr]; [done|]. set (k := foldr _ _ _) in *.
    pose proof (count_nonneg (Dir es)) as Hk. change (0 ≤ k)%Z in Hk.
    rewrite (bind_ok _ _ _ (total + k)%Z w); [done|]. rewrite Z.eqb_refl.
    rewrite (bind_ok _ _ _ (path ++ slash :: d) w).
    2:{ unfold sprintf. rewrite decide_True; [done|]. rewrite length_app. simpl. lia. }
    rewrite (bind_ok _ _ _ k w) by exact Hr. apply add_int_ok; lia.
Qed.

Lemma for_each_count rec path es total :
  Forall (λ e, name_ok e.1) es → Forall (λ e, wf e.2) es → (0 ≤ total)%Z → (total + count (Dir es) < 2 ^ 31)%Z →
  (∀ d n, (d, n) ∈ es → d_type n = 4%Z →
     length path + 1 + length d < 256 ∧ rec (path ++ slash :: d) w = (Ok (count n), w)) →
  for_each (map (λ e : bytes * node, (e.1, d_type e.2)) es) (count_entry rec path) total w
  = (Ok (total + count (Dir es))%Z, w).
Proof.
  intros Hn. revert total. induction Hn as [|[d n] es Hd Hn IH]; intros total Hwf Ht Hb Hrec.
  - simpl. by rewrite Z.add_0_r.
  - apply Forall_cons in Hwf as [Hwn Hwf]. cbn [map for_each fst snd]. cbn [count foldr snd] in *.
    pose proof (count_nonneg n). pose proof (count_nonneg (Dir es)) as Hes. cbn [count] in Hes.
    rewrite (bind_ok _ _ _ (total + count n)%Z w).
    + rewrite IH; [do 2 f_equal; cbn [count]; lia|done|lia|cbn [count]; lia|].
      intros. apply Hrec; [by right|done].
    + apply count_entry_ok; [done|done|done|lia|]. intros. apply Hrec; [by left|done].
Qed.

Lemma getFileNum_ok fuel path n :
  wf n → depth n ≤ fuel → fits (length path) n → d_type n = 4%Z → lookup_path root path = Some n →
  (count n < 2 ^ 31)%Z → getFileNum fuel root path w = (Ok (count n), w).
Proof.
  revert path n. induction fuel as [|fuel IH]; intros path n Hwf Hd Hf H4 Hl Hc.
  - destruct n; [done| |simpl in Hd; lia]. simpl in H4. subst. by inversion Hwf.
  - destruct n as [|t|es]; [done|simpl in H4; subst; by inversion Hwf|]. cbn [getFileNum].
    rewrite (bind_ok _ _ _ _ _ (opendir_ok _ _ Hl)). cbn [for_each].
    inversion Hwf as [| |es' Hnd Hok Hwfs]; subst es'. inversion Hf as [| |es' Hfits]; subst es'.
    rewrite (bind_ok _ _ _ 0%Z w) by reflexivity. rewrite (bind_ok _ _ _ 0%Z w) by reflexivity.
    rewrite for_each_count; [done|done|done|lia|lia|]. intros d n Hin Hdn.
    rewrite Forall_forall in Hfits, Hok, Hwfs. destruct (Hfits _ Hin Hdn) as [Hlen Hfit]. split; [done|].
    pose proof (depth_le _ _ Hin). pose proof (count_le _ _ Hin).
    apply IH; [by apply (Hwfs _ Hin)|simpl in *; lia| |done| |simpl in *; lia].
    + by replace (length (path ++ slash :: d)) with (length path + 1 + length d) by (rewrite length_app; simpl; lia).
    + eapply lookup_child; [done|done|by apply (Hok _ Hin)|done].
Qed.
End count.

(** C38. The program prints the number of regular files of the tree below the
    given path, when the paths of its directories fit in [newpath] and nothing
    fails: it visits every directory once and ends, whatever the tree, with
    one unit of fuel for each level of directories. *)
Theorem readFileNum_counts fuel root argv0 path n w :
  w.(w_faults) = [] → lookup_path root path = Some n → wf n → d_type n = 4%Z →
  fits (length path) n → (count n < 2 ^ 31)%Z → depth n ≤ fuel →
  readFileNum_main fuel root argv0 (Some path) w
  = (Exit 0, say (B "普通文件的个数为：" ++ dec (count n) ++ [LF]) w).
Proof.
  intros Hf Hl Hwf H4 Hfit Hc Hd. unfold readFileNum_main.
  rewrite (bind_ok _ _ _ _ _ (getFileNum_ok root w Hf fuel path n Hwf Hd Hfit H4 Hl Hc)). reflexivity.
Qed.

(** A tree with three regular files, a socket and a nested directory. *)
Definition sample_dir : node := Dir [(B "a.c", Reg); (B "sub", Dir [(B "b.c", Reg); (B "s", Other 12); (B "c.c", Reg)])].
Definition sample_root : node := Dir [(B "home", sample_dir)].

Lemma sample_wf : wf sample_dir.
Proof.
  assert (∀ d, forallb (λ c, negb (Ascii.eqb c slash)) d = true → slash ∉ d) as Hs.
  { intros d H Hin. rewrite forallb_forall in H. apply list_elem_of_In in Hin. specialize (H _ Hin).
    by rewrite Ascii.eqb_refl in H. }
  repeat first
    [ apply wf_dir | apply wf_reg | apply wf_other; done | apply Forall_nil_2 | apply Forall_cons_2
    | apply (bool_decide_unpack _); vm_compute; exact I
    | split_and!; [done|done|done|by apply Hs] ].
Qed.

Lemma readFileNum_counts_witness :
  readFileNum_main 2 sample_root (B "a.out") (Some (B "/home/.")) start
  = (Exit 0, say (B "普通文件的个数为：3" ++ [LF]) start).
Proof.
  apply (readFileNum_counts 2 sample_root (B "a.out") (B "/home/.") sample_dir start);
    [reflexivity|reflexivity|apply sample_wf|reflexivity| |reflexivity|].
  - apply fits_dir. repeat apply Forall_cons_2; try apply Forall_nil_2; try (intros [=]; fail); intros _.
    split; [simpl; lia|]. apply fits_dir. by repeat constructor.
  - simpl. lia.
Defined.
