(* ===== verification/Vectored.v ===== *)
(** * Vectored input and output: lesson38/rwv.c; and lesson13/open.cpp *)
From S2P Require Import Prelude CString Posix Files FileIO FileProofs.

(** lesson13/open.cpp *)
Definition open_cpp_main : M unit :=
  fd ← open "a.txt" O_RDWR 0; check_ret fd "open";;
  print (B "file open successfully!" ++ [LF]);; exit 0.

(** ** readv and writev *)

(** Bytes go to the buffers in order, to each as many as its length says. *)
Fixpoint scatter (d : bytes) (lens : list nat) (bufs : list bytes) : list bytes :=
  match lens, bufs with
  | n :: lens, b :: bufs => fill (take n d) b :: scatter (drop n d) lens bufs
  | _, bufs => bufs
  end.
Fixpoint gather (lens : list nat) (bufs : list bytes) : bytes :=
  match lens, bufs with n :: lens, b :: bufs => take n b ++ gather lens bufs | _, _ => [] end.

Definition readv (fd : Z) (lens : list nat) (bufs : list bytes) : M (Z * list bytes) :=
  '(z, d) ← read fd [] (sum_list lens);
  mret (z, scatter (take (Z.to_nat z) d) lens bufs).
Definition writev (fd : Z) (lens : list nat) (bufs : list bytes) : M Z := write fd (gather lens bufs).

(** ** rwv.c *)

Definition LENS : list nat := [9; 9; 9].
Definition PTRS : list bytes := replicate 3 (replicate 10 NUL).

Definition print_ptr (name : string) (buf : bytes) : M unit :=
  s ← c_string buf; print (B name ++ B " = " ++ s ++ [LF]).

Definition rwv_main : M unit :=
  rfd ← open "a.txt" O_RDONLY 0;
  '(_, iv) ← readv rfd LENS PTRS;
  match iv with
  | [ptr1; ptr2; ptr3] =>
      print_ptr "ptr1" ptr1;; print_ptr "ptr2" ptr2;; print_ptr "ptr3" ptr3;;
      wfd ← open "b.txt" (Z.lor (Z.lor O_RDWR O_CREAT) O_TRUNC) 436;
      writev wfd LENS iv;; exit 0
  | _ => undefined
  end.

(** ** What is copied *)

(** The three buffers after the read. *)
Definition piece (i : nat) (c : bytes) : bytes := take 9 (drop (9 * i) c).
Definition buffer (i : nat) (c : bytes) : bytes := piece i c ++ replicate (10 - length (piece i c)) NUL.

Lemma length_piece i c : length (piece i c) ≤ 9.
Proof. unfold piece. rewrite length_take. lia. Qed.

Lemma fill_nuls d : length d ≤ 10 → fill d (replicate 10 NUL) = d ++ replicate (10 - length d) NUL.
Proof. intros H. unfold fill. by rewrite drop_replicate. Qed.

Lemma scatter_pieces c : scatter (take 27 c) LENS PTRS = [buffer 0 c; buffer 1 c; buffer 2 c].
Proof.
  unfold LENS, PTRS. cbn [replicate scatter]. rewrite !fill_nuls by (rewrite length_take; lia).
  rewrite !drop_drop. unfold buffer, piece. cbn [Nat.mul Nat.add]. rewrite drop_0.
  rewrite take_take. rewrite !skipn_firstn_comm, !take_take. done.
Qed.

(** The first bytes of a text, padded with NUL, in two parts. *)
Lemma resize_add a b c : resize (a + b) c = resize a c ++ resize b (drop a c).
Proof.
  unfold resize. destruct (decide (a ≤ length c)) as [H|H].
  - rewrite length_drop. replace (a - length c) with 0 by lia. cbn [replicate]. rewrite app_nil_r, app_assoc, take_take_drop.
    do 2 f_equal. lia.
  - rewrite (take_ge c), (take_ge c a), (drop_ge c a) by lia. rewrite take_nil. cbn [length app]. rewrite <-app_assoc.
    f_equal. rewrite <-replicate_add. f_equal. lia.
Qed.

Lemma take_buffer i c : take 9 (buffer i c) = resize 9 (drop (9 * i) c).
Proof.
  unfold buffer, resize. pose proof (length_piece i c). rewrite take_app, take_replicate. unfold piece in *. rewrite length_take in *.
  rewrite take_take. f_equal. f_equal. lia.
Qed.

Lemma gather_pieces c : gather LENS [buffer 0 c; buffer 1 c; buffer 2 c] = resize 27 c.
Proof.
  unfold LENS. cbn [gather]. rewrite !take_buffer, app_nil_r. change 27 with (9 + (9 + 9)). by rewrite !resize_add, drop_drop.
Qed.

(** The line printed for a buffer: the piece, up to a NUL in it. *)
Lemma cstr_buffer i c : cstr (buffer i c) = Some (upto (piece i c)).
Proof.
  unfold buffer. pose proof (length_piece i c). destruct (10 - length (piece i c)) as [|k] eqn:E; [lia|]. apply cstr_upto.
Qed.

(** Opening b.txt: the file is empty afterwards, new or old. *)
Lemma open_truncates w path mode :
  w.(w_faults) = [] →
  (∃ m old, w.(w_files) !! resolve w path = Some (IFile m old)) ∨ (w.(w_files) !! resolve w path = None ∧ is_dir w (parent (resolve w path)) = true) →
  ∃ m, open path (Z.lor (Z.lor O_RDWR O_CREAT) O_TRUNC) mode w
  = (Ok (lowest (size w.(w_fds)) 0 w.(w_fds)),
     opened_file (resolve w path) (Z.lor (Z.lor O_RDWR O_CREAT) O_TRUNC) (set_w_files (<[resolve w path := IFile m []]> w.(w_files)) w)).
Proof.
  intros Hn [(m & old & Hf)|[Hf Hd]].
  - exists m. unfold open. rewrite call_ok by done. erewrite bind_ok by reflexivity. erewrite bind_ok by reflexivity. by rewrite Hf.
  - eexists. by apply open_creates.
Qed.

Section rwv.
Variables (w : world) (m : Z) (c : bytes).
Hypothesis no_faults : w.(w_faults) = [].
Hypothesis a_txt : w.(w_files) !! resolve w "a.txt" = Some (IFile m c).
Hypothesis b_txt : (∃ mb old, w.(w_files) !! resolve w "b.txt" = Some (IFile mb old))
  ∨ (w.(w_files) !! resolve w "b.txt" = None ∧ is_dir w (parent (resolve w "b.txt")) = true).

(** The world after the read. *)
Definition after_read : world :=
  let w1 := opened_file (resolve w "a.txt") O_RDONLY w in
  set_w_open (<[length w.(w_open) := OpenFile (resolve w "a.txt") (length (take 27 c)) O_RDONLY]> w1.(w_open)) w1.

Lemma readv_ok :
  readv (lowest (size w.(w_fds)) 0 w.(w_fds)) LENS PTRS (opened_file (resolve w "a.txt") O_RDONLY w)
  = (Ok (Z.of_nat (length (take 27 c)), [buffer 0 c; buffer 1 c; buffer 2 c]), after_read).
Proof.
  unfold readv. erewrite bind_ok.
  2:{ eapply (read_file (opened_file (resolve w "a.txt") O_RDONLY w) no_faults _ _ _ (length w.(w_open)) _ 0 O_RDONLY m c);
        [cbn; apply lookup_insert_eq| |done|done]. cbn. by rewrite lookup_app_r, Nat.sub_diag by lia. }
  change (sum_list LENS) with 27. rewrite drop_0, Nat2Z.id. unfold fill. rewrite drop_nil, app_nil_r.
  rewrite (take_ge (take 27 c)) by done. by rewrite scatter_pieces.
Qed.

Lemma print_ptr_ok name i w0 :
  print_ptr name (buffer i c) w0 = (Ok tt, set_w_out (w0.(w_out) ++ B name ++ B " = " ++ upto (piece i c) ++ [LF]) w0).
Proof. unfold print_ptr, c_string. rewrite cstr_buffer. done. Qed.

Definition ptr_line (name : string) (i : nat) : bytes := B name ++ B " = " ++ upto (piece i c) ++ [LF].

Lemma rwv_ok :
  ∃ mb w', rwv_main w = (Exit 0, w') ∧ w'.(w_files) = <[resolve w "b.txt" := IFile mb (resize 27 c)]> w.(w_files)
    ∧ w'.(w_out) = w.(w_out) ++ ptr_line "ptr1" 0 ++ ptr_line "ptr2" 1 ++ ptr_line "ptr3" 2.
Proof.
  unfold rwv_main. erewrite bind_ok by by eapply open_existing. erewrite bind_ok by apply readv_ok. cbv beta iota.
  do 3 (erewrite bind_ok by apply print_ptr_ok). set (w1 := set_w_out _ _).
  assert (∀ p, resolve w1 p = resolve w p) as Hres by done.
  destruct (open_truncates w1 "b.txt" 436 no_faults b_txt) as [mb Ho]. erewrite bind_ok by exact Ho. rewrite Hres.
  set (w2 := opened_file _ _ _). erewrite bind_ok.
  2:{ unfold writev. rewrite gather_pieces.
      eapply (write_file w2 no_faults _ _ (length w1.(w_open)) (resolve w "b.txt") 0 (Z.lor (Z.lor O_RDWR O_CREAT) O_TRUNC) mb []); [cbn; apply lookup_insert_eq| |done|].
      - change (w_open w2) with (w_open w1 ++ [OpenFile (resolve w "b.txt") 0 (Z.lor (Z.lor O_RDWR O_CREAT) O_TRUNC)]).
        by rewrite lookup_app_r, Nat.sub_diag by done.
      - cbn [w2 opened_file w_files set_w_fds set_w_open set_w_files]. apply lookup_insert_eq. }
  eexists mb, _. split; [reflexivity|]. split.
  - cbn [w_files set_w_open set_w_files w2 opened_file set_w_fds]. rewrite insert_insert_eq. f_equal. unfold write_at.
    destruct (resize 27 c) eqn:E; [done|]. rewrite <-E. cbn. by rewrite drop_nil, app_nil_r.
  - cbn [w_out set_w_open set_w_files w2 opened_file set_w_fds w1 set_w_out after_read]. unfold ptr_line. by rewrite <-!app_assoc.
Qed.
End rwv.
