(* ===== verification/Fifo.v ===== *)
(** * Named pipes: lessons 23 and 24

    A reader and a writer on a pipe, and the chat programs that fork into a
    speaker and a listener, with the examples; each process is run alone, with a
    script for what it receives.  chatA.c and chatB.c are in Chat.v, where the two
    run together. *)
From S2P Require Import Prelude CString Posix Sockets Files FileIO.

(** ** lesson23 *)

Definition mkfifo_main : M unit :=
  ret ← access "fifo";
  (if (ret =? -1)%Z then
     perror "access";;
     ret ← mkfifo "fifo" 436; check_exit ret "mkfifo"
   else print (B "管道已存在" ++ [LF]));;
  exit 0.

(** A turn of the reader, with a buffer of [n] bytes. *)
Definition read_turn (n : nat) (fd : Z) (u : unit) : M (unit + unit) :=
  '(len, buf) ← read fd (replicate n NUL) n;
  if (len =? 0)%Z then print (B "写端断开连接" ++ [LF]);; mret (inr tt)
  else s ← c_string buf; print (B "recv buf : " ++ s ++ [LF]);; mret (inl tt).

Definition read_main (fuel : nat) : M unit :=
  fd ← open "fifo" O_RDONLY 0; check_exit fd "open";;
  loop fuel (read_turn 1024 fd) tt;; exit 0.

(** The pipe [name] is created unless it exists. *)
Definition ensure_fifo (name : string) (missing created exists_ : bytes) : M unit :=
  ret ← access name;
  if (ret =? -1)%Z then
    print (missing ++ [LF]);;
    ret ← mkfifo name 436;
    if (ret =? -1)%Z then die "mkfifo" 0 else print (created ++ [LF])
  else print (exists_ ++ [LF]).

Definition write_main : M unit :=
  ensure_fifo "fifo" (B "管道不存在，创建管道") (B "管道创建成功") (B "管道已存在");;
  fd ← open "fifo" O_WRONLY 0; check_exit fd "open";;
  for_each (seqZ 0 100) (λ i _,
    let buf := B "hello, " ++ dec i ++ [LF] in
    print (B "write data : " ++ buf ++ [LF]);;
    write fd buf;; sleep 1;; mret tt) tt;;
  exit 0.

(** ** lesson24 *)

(** [memset(buf, 0, n); fgets(buf, n, stdin); write(fdw, buf, strlen(buf));] *)
Definition say_line (n : nat) (fdw : Z) : M unit :=
  buf ← fgets (replicate n NUL) n;
  s ← c_string buf;
  ret ← write fdw s; check_exit ret "write".

(** [memset(buf, 0, n); read(fdr, buf, n); printf(who, buf);] *)
Definition hear_line (n : nat) (who : bytes) (fdr : Z) : M unit :=
  '(ret, buf) ← read fdr (replicate n NUL) n;
  if (ret <=? 0)%Z then die "read" 0
  else s ← c_string buf; print (who ++ s ++ [LF]).

Definition chat_open (name : string) (flags : Z) (message : bytes) : M Z :=
  fd ← open name flags 0;
  check_exit fd ("open " +:+ name);;
  print (message ++ [LF]);; mret fd.

Definition ensure1 : M unit :=
  ensure_fifo "fifo1" (B "fifo1管道文件不存在，创建管道文件") (B "fifo1管道文件创建成功") (B "fifo1管道文件已存在,开始进程").
Definition ensure2 : M unit :=
  ensure_fifo "fifo2" (B "fifo2管道文件不存在，创建管道文件") (B "fifo2管道文件创建成功") (B "fifo2管道文件已存在,开始进程").

(** chatA1.c and chatB1.c: [send] and [receive] never return. *)
Definition send_turn (fdw : Z) (u : unit) : M (unit + unit) := say_line 128 fdw;; mret (inl tt).
Definition receive_turn (who : bytes) (fdr : Z) (u : unit) : M (unit + unit) := hear_line 128 who fdr;; mret (inl tt).
Definition send (fuel : nat) (name : string) (message : bytes) : M unit :=
  fdw ← chat_open name O_WRONLY message;
  loop fuel (send_turn fdw) tt;;
  close fdw;; mret tt.
Definition receive (fuel : nat) (path : string) (who message : bytes) : M unit :=
  fdr ← chat_open path O_RDONLY message;
  loop fuel (receive_turn who fdr) tt;;
  close fdr;; mret tt.

Definition parent_process (fuel : nat) : M unit :=
  ensure1;; send fuel "fifo1" (B "打开fifo1成功，等待写入数据").
Definition son_process (fuel : nat) : M unit :=
  ensure2;; receive fuel "fifo2" (B "B: ") (B "打开fifo2成功，等待读取").

(** The [wait] after [parent_process] is not reached. *)
Definition chatA1_main (fuel : nat) : M unit :=
  pid ← fork;
  (if (pid >? 0)%Z then
     parent_process fuel;; print (B "子进程已回收" ++ [LF])
   else son_process fuel);;
  exit 0.

Definition chatB1_main (fuel : nat) : M unit :=
  pid ← fork;
  (if (pid >? 0)%Z then
     ensure2;; send fuel "fifo2" (B "打开fifo2成功，等待写入数据");; print (B "子进程已回收" ++ [LF])
   else
     ensure1;; receive fuel "fifo1" (B "A: ") (B "打开fifo1成功，等待读取"));;
  exit 0.

(** ** The examples of the two lessons *)

(** The pipe is created unless it exists, with one message. *)
Definition ensure_quietly (name : string) (missing : bytes) : M unit :=
  ret ← access name;
  if (ret =? -1)%Z then print (missing ++ [LF]);; ret ← mkfifo name 436; check_exit ret "mkfifo" else mret tt.

Definition mkfifo_example_main : M unit :=
  ensure_quietly "fifo1" (B "管道不存在，创建管道");; exit 0.

Definition read_example_turn (n : nat) (fd : Z) (u : unit) : M (unit + unit) :=
  '(len, buf) ← read fd (replicate n NUL) n;
  if (len =? 0)%Z then print (B "写端断开连接了..." ++ [LF]);; mret (inr tt)
  else s ← c_string buf; print (B "recv buf : " ++ s ++ [LF]);; mret (inl tt).
Definition read_example_main (fuel : nat) : M unit :=
  fd ← open "test" O_RDONLY 0; check_exit fd "open";;
  loop fuel (read_example_turn 1024 fd) tt;;
  close fd;; exit 0.

Definition write_example_main : M unit :=
  ensure_quietly "test" (B "管道不存在，创建管道");;
  fd ← open "test" O_WRONLY 0; check_exit fd "open";;
  for_each (seqZ 0 100) (λ i _,
    let buf := B "hello, " ++ dec i ++ [LF] in
    print (B "write data : " ++ buf ++ [LF]);;
    write fd buf;; sleep 1;; mret tt) tt;;
  close fd;; exit 0.

(** The examples of lesson24 leave the loop when [read] fails. *)
Definition hear_example (n : nat) (fdr : Z) : M bool :=
  '(ret, buf) ← read fdr (replicate n NUL) n;
  if (ret <=? 0)%Z then perror "read";; mret false
  else s ← c_string buf; print (B "buf: " ++ s ++ [LF]);; mret true.

Definition chatA_example_turn (n : nat) (fdw fdr : Z) (u : unit) : M (unit + unit) :=
  say_line n fdw;;
  more ← hear_example n fdr; mret (if (more : bool) then inl tt else inr tt).
Definition chatB_example_turn (n : nat) (fdw fdr : Z) (u : unit) : M (unit + unit) :=
  more ← hear_example n fdr;
  if (more : bool) then say_line n fdw;; mret (inl tt) else mret (inr tt).

Definition example_open (name : string) (flags : Z) (message : bytes) : M Z :=
  fd ← open name flags 0; check_exit fd "open";; print (message ++ [LF]);; mret fd.

Definition chatA_example_main (fuel : nat) : M unit :=
  ensure_quietly "fifo1" (B "管道不存在，创建对应的有名管道");;
  ensure_quietly "fifo2" (B "管道不存在，创建对应的有名管道");;
  fdw ← example_open "fifo1" O_WRONLY (B "打开管道fifo1成功，等待写入...");
  fdr ← example_open "fifo2" O_RDONLY (B "打开管道fifo2成功，等待读取...");
  loop fuel (chatA_example_turn 128 fdw fdr) tt;;
  close fdr;; close fdw;; exit 0.
Definition chatB_example_main (fuel : nat) : M unit :=
  ensure_quietly "fifo1" (B "管道不存在，创建对应的有名管道");;
  ensure_quietly "fifo2" (B "管道不存在，创建对应的有名管道");;
  fdr ← example_open "fifo1" O_RDONLY (B "打开管道fifo1成功，等待读取...");
  fdw ← example_open "fifo2" O_WRONLY (B "打开管道fifo2成功，等待写入...");
  loop fuel (chatB_example_turn 128 fdw fdr) tt;;
  close fdr;; close fdw;; exit 0.
