(* ===== verification/Sorting.v ===== *)
(** * Sorting and sums: lesson08, and gdb.c of lesson38

    [bubbleSort] and [selectSort] on an array of which the first [len] cells
    are sorted in place; an access outside the array is undefined ([None]).
    [test] of test.c and gdb.c, with [int] kept at its width. *)
From stdpp Require Import sorting.
From S2P Require Import Prelude CString Posix.

(** ** The array operations *)

(** [if (array[i] > array[j]) swap(array[i], array[j])]. *)
Definition compare_swap (i j : nat) (a : list Z) : option (list Z) :=
  match a !! i, a !! j with
  | Some x, Some y => Some (if (x >? y)%Z then <[j := x]> (<[i := y]> a) else a)
  | _, _ => None
  end.

(** [for] over a range of indices. *)
Fixpoint for_range (l : list nat) (body : nat → list Z → option (list Z)) (a : list Z) : option (list Z) :=
  match l with
  | [] => Some a
  | i :: l => match body i a with Some a => for_range l body a | None => None end
  end.

(** [len] is an [int]; a negative one runs no turn, like [0] (but for the least
    [int], of which [len - 1] overflows). *)
Definition bubble_pass (len i : nat) (a : list Z) : option (list Z) :=
  for_range (seq 0 (len - 1 - i)) (λ j, compare_swap j (j + 1)) a.
Definition bubbleSort (len : Z) (a : list Z) : option (list Z) :=
  let n := Z.to_nat len in for_range (seq 0 (n - 1)) (bubble_pass n) a.

Definition select_pass (len j : nat) (a : list Z) : option (list Z) :=
  for_range (seq (j + 1) (len - (j + 1))) (λ i, compare_swap j i) a.
Definition selectSort (len : Z) (a : list Z) : option (list Z) :=
  let n := Z.to_nat len in for_range (seq 0 (n - 1)) (select_pass n) a.

(** main.cpp: both sorts on arrays of five cells, and the arrays printed. *)
Definition show_array (a : list Z) : M unit := for_each a (λ x _, print (dec x ++ [SP])) tt;; print [LF].
Definition sort_main : M Z :=
  match bubbleSort 5 [12; 27; 55; 22; 67]%Z with
  | None => undefined
  | Some array =>
      print (B "冒泡排序之后的数组: ");; show_array array;;
      print (B "===================================" ++ [LF]);;
      match selectSort 5 [25; 47; 36; 80; 11]%Z with
      | None => undefined
      | Some array1 => print (B "选择排序之后的数组: ");; show_array array1;; mret 0%Z
      end
  end.

(** ** test.c and gdb.c *)

(** Signed addition on [int]: an overflow is undefined. *)
Definition add32 (x y : Z) : option Z :=
  if decide (- 2 ^ 31 ≤ x + y < 2 ^ 31)%Z then Some (x + y)%Z else None.

(** [int num = 0; for (int i = 0; i < a; ++i) num += i;] *)
Definition sum_below (a : Z) : option Z := foldl (λ num i, n ← num; add32 n i) (Some 0%Z) (seqZ 0 a).

Definition defined {A} (x : option A) : M A := match x with Some a => mret a | None => undefined end.

Definition test (a : Z) : M Z := defined (sum_below a).

(** [argv] with the program's name first. *)
Definition gdb_main (argv : list bytes) : M Z :=
  print (B "argc = " ++ dec (Z.of_nat (length argv)) ++ [LF]);;
  let '(a, b) :=
    match argv with
    | _ :: x :: y :: _ => (atoi x, atoi y)
    | _ => (10, 30)%Z
    end in
  print (B "a = " ++ dec a ++ B ", b = " ++ dec b ++ [LF]);;
  sum ← defined (add32 a b);
  print (B "a + b = " ++ dec sum ++ [LF]);;
  for_each (seqZ 0 a) (λ i _,
    print (B "i = " ++ dec i ++ [LF]);;
    res ← test i;
    print (B "res value: " ++ dec res ++ [LF])) tt;;
  print (B "THE END !!!" ++ [LF]);;
  mret 0%Z.

(** ** A swap *)

Definition le_at (a : list Z) (p q : nat) : Prop := ∀ x y, a !! p = Some x → a !! q = Some y → (x ≤ y)%Z.

Lemma swap_permutation {A} (a : list A) i j x y :
  i < j → a !! i = Some x → a !! j = Some y → <[j := x]> (<[i := y]> a) ≡ₚ a.
Proof.
  intros Hij Hi Hj. pose proof (lookup_lt_Some _ _ _ Hi) as Hli.
  rewrite <- (take_drop_middle a i x Hi) in Hj |- *. set (l := take i a) in *. set (k := drop (S i) a) in *.
  assert (length l = i) as Hl by (unfold l; rewrite length_take; lia).
  rewrite lookup_app_r in Hj by lia. rewrite Hl in Hj. destruct (j - i) as [|d] eqn:E; [lia|]. simpl in Hj.
  assert (∀ z, <[i := z]> (l ++ x :: k) = l ++ z :: k) as Hz.
  { intros z. rewrite <- Hl. apply insert_app_exact. }
  rewrite Hz. replace j with (length l + S d) by lia. rewrite insert_app_r. simpl.
  rewrite <- (take_drop_middle k d y Hj) at 2. pose proof (lookup_lt_Some _ _ _ Hj) as Hlk.
  rewrite (insert_take_drop k d x Hlk). rewrite <- !Permutation_middle. apply perm_swap.
Qed.

(** The result of a [compare_swap]: the two cells in order, the others kept. *)
Record swapped (i j : nat) (a b : list Z) : Prop := {
  sw_perm : b ≡ₚ a;
  sw_len : length b = length a;
  sw_le : le_at b i j;
  sw_other : ∀ k, k ≠ i → k ≠ j → b !! k = a !! k;
  sw_cases : b !! i = a !! i ∧ b !! j = a !! j ∨ b !! i = a !! j ∧ b !! j = a !! i
}.

Lemma compare_swap_ok i j a : i < j → j < length a → ∃ b, compare_swap i j a = Some b ∧ swapped i j a b.
Proof.
  intros Hij Hj. destruct (lookup_lt_is_Some_2 a i) as [x Hx]; [lia|]. destruct (lookup_lt_is_Some_2 a j) as [y Hy]; [lia|].
  unfold compare_swap. rewrite Hx, Hy. eexists. split; [done|]. rewrite Z.gtb_ltb. destruct (Z.ltb_spec y x).
  - split; [by apply swap_permutation|by rewrite !length_insert|..].
    + intros u v. rewrite list_lookup_insert_ne, list_lookup_insert_eq by lia.
      rewrite list_lookup_insert_eq by (rewrite length_insert; lia). intros [= <-] [= <-]. lia.
    + intros k Hki Hkj. by rewrite !list_lookup_insert_ne by done.
    + right. rewrite list_lookup_insert_ne, list_lookup_insert_eq by lia.
      by rewrite list_lookup_insert_eq by (rewrite length_insert; lia).
  - split; [done|done| |done|by left]. intros u v Hu Hv. congruence.
Qed.

(** What holds of a cell against both swapped cells still holds. *)
Lemma swapped_le_l i j a b q : swapped i j a b → q ≠ i → q ≠ j → le_at a i q → le_at a j q → le_at b i q ∧ le_at b j q.
Proof.
  intros [_ _ _ Ho Hc] Hi Hj H1 H2. unfold le_at in *. rewrite (Ho q) by done.
  destruct Hc as [[-> ->]|[-> ->]]; by split.
Qed.

Lemma swapped_le_r i j a b p : swapped i j a b → p ≠ i → p ≠ j → le_at a p i → le_at a p j → le_at b p i ∧ le_at b p j.
Proof.
  intros [_ _ _ Ho Hc] Hi Hj H1 H2. unfold le_at in *. rewrite (Ho p) by done.
  destruct Hc as [[-> ->]|[-> ->]]; by split.
Qed.

Lemma swapped_other i j a b p q :
  swapped i j a b → p ≠ i → p ≠ j → q ≠ i → q ≠ j → le_at a p q → le_at b p q.
Proof. intros Hs Hpi Hpj Hqi Hqj H. unfold le_at. by rewrite !(sw_other _ _ _ _ Hs) by done. Qed.

(** A loop over a range keeps an invariant indexed by the next index. *)
Lemma for_range_invariant (body : nat → list Z → option (list Z)) (I : nat → list Z → Prop) k n a :
  (∀ i a, k ≤ i < k + n → I i a → ∃ b, body i a = Some b ∧ I (S i) b) →
  I k a → ∃ b, for_range (seq k n) body a = Some b ∧ I (k + n) b.
Proof.
  revert k a. induction n as [|n IH]; intros k a Hb H; cbn [seq for_range].
  - exists a. by rewrite Nat.add_0_r.
  - destruct (Hb k a) as (b & -> & Hb1); [lia|done|]. destruct (IH (S k) b) as (c & E & Hc); [|done|].
    + intros i x Hi. apply Hb. lia.
    + exists c. split; [done|]. by replace (k + S n) with (S k + n) by lia.
Qed.

(** ** The sorts *)

(** The first [n] cells are sorted, the others are those of [a]. *)
Record sorted_copy (n : nat) (a b : list Z) : Prop := {
  sc_perm : b ≡ₚ a;
  sc_sorted : ∀ p q, p < q → q < n → le_at b p q;
  sc_rest : drop n b = drop n a
}.

(** What every loop of both sorts keeps. *)
Record shuffled (n : nat) (a b : list Z) : Prop := {
  sh_perm : b ≡ₚ a;
  sh_rest : ∀ k, n ≤ k → b !! k = a !! k
}.

Lemma shuffled_length n a b : shuffled n a b → length b = length a.
Proof. intros [H _]. by apply Permutation_length. Qed.

Lemma shuffled_step n a b c i j : i < n → j < n → shuffled n a b → swapped i j b c → shuffled n a c.
Proof.
  intros Hi Hj [Hp Hr] Hs. split.
  - by rewrite (sw_perm _ _ _ _ Hs).
  - intros k Hk. rewrite (sw_other _ _ _ _ Hs) by lia. by apply Hr.
Qed.

Lemma shuffled_sorted n a b : shuffled n a b → (∀ p q, p < q → q < n → le_at b p q) → sorted_copy n a b.
Proof.
  intros [Hp Hr] Hs. split; [done..|]. apply list_eq. intros k. rewrite !lookup_drop. apply Hr. lia.
Qed.

(** Bubble sort: before pass [i] the last [i] of the [n] cells are in place;
    before turn [j] of a pass, cell [j] is the greatest of the first [j + 1]. *)
Definition bubbled (n i : nat) (b : list Z) : Prop := ∀ p q, p < q → n - i ≤ q → q < n → le_at b p q.

Lemma bubble_turn n a i j b :
  n ≤ length a → j < n - 1 - i → shuffled n a b → bubbled n i b → (∀ p, p < j → le_at b p j) →
  ∃ c, compare_swap j (j + 1) b = Some c ∧ shuffled n a c ∧ bubbled n i c ∧ (∀ p, p < S j → le_at c p (S j)).
Proof.
  intros Hn Hj Hs Hb Hg. pose proof (shuffled_length _ _ _ Hs) as Hl.
  destruct (compare_swap_ok j (j + 1) b) as (c & E & Hc); [lia..|]. exists c. split; [done|].
  split; [apply (shuffled_step n a b c j (j + 1)); auto; lia|]. split.
  - intros p q Hpq Hq Hqn. assert (q ≠ j ∧ q ≠ j + 1) as [Hqj Hqj1] by lia.
    destruct (swapped_le_l _ _ _ _ q Hc Hqj Hqj1) as [H1 H2]; [apply Hb; lia..|].
    destruct (decide (p = j)) as [->|]; [done|]. destruct (decide (p = j + 1)) as [->|]; [done|].
    apply (swapped_other _ _ _ _ _ _ Hc); auto.
  - intros p Hp. replace (S j) with (j + 1) by lia. destruct (decide (p = j)) as [->|]; [apply Hc|].
    intros x y Hx Hy. rewrite (sw_other _ _ _ _ Hc) in Hx by lia.
    destruct (sw_cases _ _ _ _ Hc) as [[E1 E2]|[E1 E2]].
    + destruct (lookup_lt_is_Some_2 c j) as [z Hz]; [apply lookup_lt_Some in Hy; lia|].
      pose proof (sw_le _ _ _ _ Hc z y Hz Hy). rewrite E1 in Hz. pose proof (Hg p ltac:(lia) x z Hx Hz). lia.
    + rewrite E2 in Hy. by apply (Hg p ltac:(lia) x y).
Qed.

Lemma bubble_pass_ok n a i b :
  n ≤ length a → i < n - 1 → shuffled n a b → bubbled n i b →
  ∃ c, bubble_pass n i b = Some c ∧ shuffled n a c ∧ bubbled n (S i) c.
Proof.
  intros Hn Hi Hs Hb. unfold bubble_pass.
  destruct (for_range_invariant (λ j, compare_swap j (j + 1))
    (λ j b, shuffled n a b ∧ bubbled n i b ∧ ∀ p, p < j → le_at b p j) 0 (n - 1 - i) b) as (c & E & H1 & H2 & H3).
  - intros j x Hj (? & ? & ?). apply bubble_turn; auto; lia.
  - split; [done|]. split; [done|]. intros p Hp. lia.
  - exists c. split; [done|]. split; [done|]. intros p q Hpq Hq Hqn. destruct (decide (n - i ≤ q)); [by apply H2|].
    replace q with (0 + (n - 1 - i)) in * by lia. by apply H3.
Qed.

Lemma bubbleSort_sorts len a :
  (len ≤ Z.of_nat (length a))%Z → ∃ b, bubbleSort len a = Some b ∧ sorted_copy (Z.to_nat len) a b.
Proof.
  intros Hlen. unfold bubbleSort. set (n := Z.to_nat len). assert (n ≤ length a) as Hn by lia.
  destruct (for_range_invariant (bubble_pass n) (λ i b, shuffled n a b ∧ bubbled n i b) 0 (n - 1) a)
    as (b & E & Hs & Hb).
  - intros i x Hi [? ?]. apply bubble_pass_ok; auto; lia.
  - split; [by split|]. intros p q. lia.
  - exists b. split; [done|]. apply shuffled_sorted; [done|]. intros p q Hpq Hq. apply Hb; lia.
Qed.

(** Selection sort: before pass [j] the first [j] cells are in place; before
    turn [i] of pass [j], cell [j] is the least of the cells [j .. i - 1]. *)
Definition selected (n j : nat) (b : list Z) : Prop := ∀ p q, p < j → p < q → q < n → le_at b p q.

Lemma select_turn n a j i b :
  n ≤ length a → j < i → i < n → shuffled n a b → selected n j b → (∀ q, j < q → q < i → le_at b j q) →
  ∃ c, compare_swap j i b = Some c ∧ shuffled n a c ∧ selected n j c ∧ (∀ q, j < q → q < S i → le_at c j q).
Proof.
  intros Hn Hji Hi Hs Hb Hg. pose proof (shuffled_length _ _ _ Hs) as Hl.
  destruct (compare_swap_ok j i b) as (c & E & Hc); [lia..|]. exists c. split; [done|].
  split; [apply (shuffled_step n a b c j i); auto; lia|]. split.
  - intros p q Hp Hpq Hq. destruct (swapped_le_r _ _ _ _ p Hc) as [H1 H2]; [lia|lia|apply Hb; lia..|].
    destruct (decide (q = j)) as [->|]; [done|]. destruct (decide (q = i)) as [->|]; [done|].
    apply (swapped_other _ _ _ _ _ _ Hc); try lia. apply Hb; lia.
  - intros q Hq Hqi. destruct (decide (q = i)) as [->|]; [apply Hc|].
    intros x y Hx Hy. rewrite (sw_other _ _ _ _ Hc) in Hy by lia.
    destruct (sw_cases _ _ _ _ Hc) as [[E1 E2]|[E1 E2]].
    + rewrite E1 in Hx. by apply (Hg q ltac:(lia) ltac:(lia) x y).
    + destruct (lookup_lt_is_Some_2 c i) as [z Hz]; [rewrite (Permutation_length (sw_perm _ _ _ _ Hc)); lia|].
      pose proof (sw_le _ _ _ _ Hc x z Hx Hz). rewrite E2 in Hz.
      pose proof (Hg q ltac:(lia) ltac:(lia) z y Hz Hy). lia.
Qed.

Lemma select_pass_ok n a j b :
  n ≤ length a → j < n - 1 → shuffled n a b → selected n j b →
  ∃ c, select_pass n j b = Some c ∧ shuffled n a c ∧ selected n (S j) c.
Proof.
  intros Hn Hj Hs Hb. unfold select_pass.
  destruct (for_range_invariant (λ i, compare_swap j i)
    (λ i b, shuffled n a b ∧ selected n j b ∧ ∀ q, j < q → q < i → le_at b j q) (j + 1) (n - (j + 1)) b)
    as (c & E & H1 & H2 & H3).
  - intros i x Hi (? & ? & ?). apply select_turn; auto; lia.
  - split; [done|]. split; [done|]. intros q. lia.
  - exists c. split; [done|]. split; [done|]. intros p q Hp Hpq Hq.
    destruct (decide (p = j)) as [->|]; [apply H3; lia|apply H2; lia].
Qed.

Lemma selectSort_sorts len a :
  (len ≤ Z.of_nat (length a))%Z → ∃ b, selectSort len a = Some b ∧ sorted_copy (Z.to_nat len) a b.
Proof.
  intros Hlen. unfold selectSort. set (n := Z.to_nat len). assert (n ≤ length a) as Hn by lia.
  destruct (for_range_invariant (select_pass n) (λ j b, shuffled n a b ∧ selected n j b) 0 (n - 1) a)
    as (b & E & Hs & Hb).
  - intros j x Hj [? ?]. apply select_pass_ok; auto; lia.
  - split; [by split|]. intros p q. lia.
  - exists b. split; [done|]. apply shuffled_sorted; [done|]. intros p q Hpq Hq. apply Hb; lia.
Qed.

(** ** Both sorts against the merge sort of the library *)

Lemma sorted_copy_eq n a b : n ≤ length a → sorted_copy n a b → b = merge_sort Z.le (take n a) ++ drop n a.
Proof.
  intros Hn [Hp Hs Hr]. rewrite <- (take_drop n b), Hr. f_equal. symmetry.
  apply (StronglySorted_unique Z.le).
  - apply StronglySorted_merge_sort; apply _.
  - assert (∀ l, (∀ p q, p < q → q < length l → le_at l p q) → StronglySorted Z.le l) as A.
    { intros l. induction l as [|x l IH]; intros H; constructor.
      - apply IH. intros p q Hpq Hq u v Hu Hv. apply (H (S p) (S q)); simpl; auto; lia.
      - apply Forall_lookup. intros k y Hy. apply (H 0 (S k)); simpl; auto; [lia|].
        apply lookup_lt_Some in Hy. lia. }
    apply A. intros p q Hpq Hq u v. rewrite length_take in Hq. rewrite !lookup_take_lt by lia. apply Hs; lia.
  - rewrite merge_sort_Permutation. rewrite <- (take_drop n b), <- (take_drop n a), Hr in Hp.
    symmetry. by apply (Permutation_app_inv_r (drop n a)).
Qed.

(** Both sorts are correct and agree: as long as [len] does not pass the end
    of the array, no access leaves it and the result is the array with its
    first [len] cells replaced by their merge sort, the others unchanged. *)
Theorem sorts_agree len a :
  (len ≤ Z.of_nat (length a))%Z →
  let n := Z.to_nat len in
  let sorted := merge_sort Z.le (take n a) ++ drop n a in
  bubbleSort len a = Some sorted ∧ selectSort len a = Some sorted.
Proof.
  intros Hlen n sorted. destruct (bubbleSort_sorts len a Hlen) as (b & -> & Hb).
  destruct (selectSort_sorts len a Hlen) as (c & -> & Hc).
  by rewrite (sorted_copy_eq n a b), (sorted_copy_eq n a c) by (done || lia).
Qed.

Lemma sorts_agree_witness :
  bubbleSort 4 [3; -1; 3; 2; 0]%Z = Some [-1; 2; 3; 3; 0]%Z ∧ selectSort 4 [3; -1; 3; 2; 0]%Z = Some [-1; 2; 3; 3; 0]%Z.
Proof.
  assert ((4 ≤ Z.of_nat (length [3; -1; 3; 2; 0]%Z))%Z) as H by (simpl; lia). exact (sorts_agree 4 [3; -1; 3; 2; 0]%Z H).
Defined.

(** ** The sums *)

Lemma add32_ok x y : (- 2 ^ 31 ≤ x + y < 2 ^ 31)%Z → add32 x y = Some (x + y)%Z.
Proof. intros H. unfold add32. by rewrite decide_True. Qed.

Definition below_sum (a : Z) : Z := a * (a - 1) / 2.

Lemma below_sum_S (a : Z) : (0 ≤ a → below_sum (a + 1) = below_sum a + a)%Z.
Proof.
  unfold below_sum. intros H. replace ((a + 1) * (a + 1 - 1))%Z with (a * (a - 1) + a * 2)%Z by ring.
  by rewrite Z.div_add.
Qed.

Lemma below_sum_mono (a b : Z) : (0 ≤ a ≤ b → below_sum a ≤ below_sum b)%Z.
Proof.
  intros [Ha Hb]. apply Z.div_le_mono; [lia|]. destruct (decide (a = b)) as [->|]; [done|].
  assert (0 ≤ (b - a) * (a + b - 1))%Z by (apply Z.mul_nonneg_nonneg; lia). lia.
Qed.

Lemma seqZ_snoc (n : Z) : (0 ≤ n)%Z → seqZ 0 (n + 1) = seqZ 0 n ++ [n].
Proof. intros. rewrite seqZ_app by lia. simpl. by rewrite Z.add_0_l. Qed.

(** The sum below [65536] is the last one that fits an [int]. *)
Lemma sum_below_value a :
  sum_below a = if decide (a ≤ 65536)%Z then Some (below_sum (a `max` 0)) else None.
Proof.
  destruct (decide (a ≤ 0)%Z) as [Ha|Ha].
  { unfold sum_below. rewrite decide_True, seqZ_nil by lia. by rewrite Z.max_r by lia. }
  rewrite Z.max_l by lia. assert (0 ≤ a)%Z as H0 by lia. clear Ha. revert a H0. apply natlike_ind; [done|].
  intros a Ha IH. change (Z.succ a) with (a + 1)%Z. unfold sum_below in *.
  rewrite seqZ_snoc, foldl_snoc, IH by done.
  destruct (decide (a ≤ 65536)%Z); [|by rewrite decide_False by lia].
  cbn [mbind option_bind]. unfold add32. rewrite <- below_sum_S by done.
  assert (0 ≤ below_sum (a + 1))%Z by (apply Z.div_pos; nia).
  destruct (decide (a + 1 ≤ 65536)%Z).
  - rewrite decide_True; [done|]. pose proof (below_sum_mono (a + 1) 65536 ltac:(lia)) as Hm.
    assert (below_sum 65536 = 2147450880)%Z by by vm_compute. lia.
  - rewrite decide_False; [done|]. assert (a = 65536)%Z as -> by lia.
    assert (below_sum (65536 + 1) = 2147516416)%Z by by vm_compute. lia.
Qed.

Lemma test_ok a w : (a ≤ 65536)%Z → test a w = (Ok (below_sum (a `max` 0)), w).
Proof. intros H. unfold test. by rewrite sum_below_value, decide_True. Qed.

Lemma gdb_turns n w :
  (n ≤ 65537)%Z →
  for_each (seqZ 0 n) (λ i _,
    print (B "i = " ++ dec i ++ [LF]);; res ← test i; print (B "res value: " ++ dec res ++ [LF])) tt w
  = (Ok tt, say (flat_map (λ i, B "i = " ++ dec i ++ [LF] ++ B "res value: " ++ dec (below_sum i) ++ [LF]) (seqZ 0 n)) w).
Proof.
  intros Hn. assert (∀ i, i ∈ seqZ 0 n → (0 ≤ i ≤ 65536)%Z) as H by (intros i Hi; apply elem_of_seqZ in Hi; lia).
  clear Hn. revert w. induction (seqZ 0 n) as [|i l IH]; intros w; cbn [for_each flat_map].
  - unfold say. rewrite app_nil_r. by destruct w.
  - assert (0 ≤ i ≤ 65536)%Z as Hi by (apply H; left).
    rewrite (bind_ok _ _ _ tt (say (B "i = " ++ dec i ++ [LF] ++ B "res value: " ++ dec (below_sum i) ++ [LF]) w)).
    + rewrite IH by (intros j Hj; apply H; by right). by rewrite say_say.
    + rewrite (bind_ok _ _ _ tt (say (B "i = " ++ dec i ++ [LF]) w)) by done.
      rewrite (bind_ok _ _ _ _ _ (test_ok i _ ltac:(lia))), Z.max_l by lia.
      by rewrite print_say, say_say, <- !app_assoc.
Qed.

(** The whole run of [main]: with [a] at most [65537] and a sum that fits, it
    ends with [0] and prints one triangular number per turn. *)
Lemma gdb_main_output p x y argv w :
  (atoi x ≤ 65537)%Z → (- 2 ^ 31 ≤ atoi x + atoi y < 2 ^ 31)%Z →
  gdb_main (p :: x :: y :: argv) w =
    (Ok 0%Z, say (B "argc = " ++ dec (Z.of_nat (3 + length argv)) ++ [LF]
       ++ B "a = " ++ dec (atoi x) ++ B ", b = " ++ dec (atoi y) ++ [LF]
       ++ B "a + b = " ++ dec (atoi x + atoi y) ++ [LF]
       ++ flat_map (λ i, B "i = " ++ dec i ++ [LF] ++ B "res value: " ++ dec (below_sum i) ++ [LF]) (seqZ 0 (atoi x))
       ++ B "THE END !!!" ++ [LF]) w).
Proof.
  intros Hx Hs. unfold gdb_main. generalize dependent (atoi x). generalize (atoi y). intros b a Ha Hs.
  rewrite (bind_ok _ _ _ _ _ (print_say _ _)), (bind_ok _ _ _ _ _ (print_say _ _)).
  rewrite (add32_ok a b Hs). cbn [defined]. rewrite (bind_ok (mret _) _ _ (a + b)%Z _ eq_refl), (bind_ok _ _ _ _ _ (print_say _ _)).
  rewrite (bind_ok _ _ _ _ _ (gdb_turns a _ Ha)), (bind_ok _ _ _ _ _ (print_say _ _)).
  by rewrite !say_say, <- !app_assoc.
Qed.
