(* ===== verification/BlockQueue.v ===== *)
(** * The blocking queue: blockQueue.cpp of lesson38

    A queue of numbers under a mutex and a condition variable, four producers
    that push ten random numbers each, and four customers that take numbers
    and add up the integers below them.  The ghost logs record what went in
    and what came out.  [blockQueue_main] is [main] up to the joins of the
    producers, [ending] what follows: it sleeps, cancels the customers and
    returns. *)
From stdpp Require Import sorting.
From S2P Require Import Prelude CString Posix Sorting Threads.

Record data := Data {
  mtx : mutex;
  cond : list nat  (* threads waiting on the condition variable *);
  q : list Z;
  pushed : list Z;
  taken : list (nat * Z);
  log : list (nat * Z * Z * Z)  (* lines of the customers: thread, number, sum, count *)
}.

Definition set_mtx (m : mutex) (g : data) : data := Data m g.(cond) g.(q) g.(pushed) g.(taken) g.(log).
Definition set_cond (c : list nat) (g : data) : data := Data g.(mtx) c g.(q) g.(pushed) g.(taken) g.(log).
Definition set_q (l : list Z) (g : data) : data := Data g.(mtx) g.(cond) l g.(pushed) g.(taken) g.(log).
Definition log_pushed (x : Z) (g : data) : data := Data g.(mtx) g.(cond) g.(q) (g.(pushed) ++ [x]) g.(taken) g.(log).
Definition log_taken (t : nat) (x : Z) (g : data) : data :=
  Data g.(mtx) g.(cond) g.(q) g.(pushed) (g.(taken) ++ [(t, x)]) g.(log).
Definition log_line (l : nat * Z * Z * Z) (g : data) : data :=
  Data g.(mtx) g.(cond) g.(q) g.(pushed) g.(taken) (g.(log) ++ [l]).

(** ** The queue *)

(** The statements of [push(val)] and of [take()].  [TBlocked] is inside
    [pthread_cond_wait]; [front] and [pop] of an empty queue are undefined. *)
Inductive push_pc := BLock | BPush | BBroadcast | BUnlock.
Inductive take_pc := TLock | TWhile | TWait | TBlocked | TRelock | TFront | TPop (tmp : Z) | TUnlock (tmp : Z).

(** The next statement: another one of the call, its return, or undefined
    behaviour. *)
Inductive next (P R : Type) := Next (l : P) | Return (r : R) | Crashed.
Arguments Next {P R} l.
Arguments Return {P R} r.
Arguments Crashed {P R}.

Definition lock (tid : nat) (g : data) : option data :=
  match g.(mtx) with None => Some (set_mtx (Some tid) g) | Some _ => None end.

Definition push (tid : nat) (val : Z) (g : data) (l : push_pc) : option (data * next push_pc unit) :=
  match l with
  | BLock => match lock tid g with Some g => Some (g, Next BPush) | None => None end
  | BPush => Some (log_pushed val (set_q (g.(q) ++ [val]) g), Next BBroadcast)
  | BBroadcast => Some (set_cond [] g, Next BUnlock)
  | BUnlock => Some (set_mtx None g, Return tt)
  end.

(** The input 1 is a spurious wake-up. *)
Definition take (tid : nat) (o : Z) (g : data) (l : take_pc) : option (data * next take_pc Z) :=
  match l with
  | TLock => match lock tid g with Some g => Some (g, Next TWhile) | None => None end
  | TWhile => Some (g, Next (match g.(q) with [] => TWait | _ => TFront end))
  | TWait => Some (set_cond (g.(cond) ++ [tid]) (set_mtx None g), Next TBlocked)
  | TBlocked =>
      if decide (tid ∉ g.(cond)) then Some (g, Next TRelock)
      else if (o =? 1)%Z then Some (set_cond (filter (λ t, t ≠ tid) g.(cond)) g, Next TRelock) else None
  | TRelock => match lock tid g with Some g => Some (g, Next TWhile) | None => None end
  | TFront => Some (g, match g.(q) with x :: _ => Next (TPop x) | [] => Crashed end)
  | TPop tmp =>
      match g.(q) with
      | _ :: r => Some (log_taken tid tmp (set_q r g), Next (TUnlock tmp))
      | [] => Some (g, Crashed)
      end
  | TUnlock tmp => Some (set_mtx None g, Return tmp)
  end.

(** ** The threads *)

Inductive local :=
| PFor (i : nat)                              (* product: the loop test and rand() *)
| PPush (i : nat) (x : Z) (l : push_pc)
| PPrint (i : nat) (x : Z)
| PReturn
| CTake (cnt : Z) (l : take_pc)               (* custom: inside b.take() *)
| CCalc (cnt : Z) (x : Z)                     (* ++cnt and the sum *)
| CPrint (cnt : Z) (x sum : Z)
| Crash.

Definition product_step (tid : nat) (o : Z) (g : data) (l : local) : option (data * local) :=
  match l with
  (* [rand()] is the input *)
  | PFor i => if decide (i < 10) then Some (g, PPush i (o mod 10000)%Z BLock) else Some (g, PReturn)
  | PPush i x l =>
      match push tid x g l with
      | Some (g, Next l) => Some (g, PPush i x l)
      | Some (g, Return _) => Some (g, PPrint i x)
      | Some (g, Crashed) => Some (g, Crash)
      | None => None
      end
  | PPrint i x => Some (g, PFor (S i))
  | _ => None
  end.

Definition custom_step (tid : nat) (o : Z) (g : data) (l : local) : option (data * local) :=
  match l with
  | CTake cnt l =>
      match take tid o g l with
      | Some (g, Next l) => Some (g, CTake cnt l)
      | Some (g, Return x) => Some (g, CCalc cnt x)
      | Some (g, Crashed) => Some (g, Crash)
      | None => None
      end
  | CCalc cnt x =>
      Some (g, match add32 cnt 1, sum_below x with Some cnt, Some sum => CPrint cnt x sum | _, _ => Crash end)
  | CPrint cnt x sum => Some (log_line (tid, x, sum, cnt) g, CTake cnt TLock)
  | _ => None
  end.

Definition step (tid : nat) (o : Z) (g : data) (l : local) : option (data * local) :=
  match l with
  | PFor _ | PPush _ _ _ | PPrint _ _ | PReturn => product_step tid o g l
  | CTake _ _ | CCalc _ _ | CPrint _ _ _ => custom_step tid o g l
  | Crash => None
  end.

Definition finished (l : local) : bool := match l with PReturn => true | _ => false end.

(** [protid[i]] is thread [2 i], [custid[i]] thread [2 i + 1]. *)
Definition entry (t : nat) : local := if Nat.even t then PFor 0 else CTake 0 TLock.
Definition blockQueue_main : pool data local :=
  Pool (Data None [] [] [] [] []) (replicate 8 None)
    (create_all 8 entry ++ map (λ i, Join (2 * i)) (seq 0 4) ++ [Forever]).

(** ** The end of main *)

(** The statements after the joins, the customers that are cancelled, and the
    threads that have ended by it. *)
Inductive main_pc := ESleep | ECancel (i : nat) | EPrint | EReturn | EOver.
#[export] Instance main_pc_eq : EqDecision main_pc.
Proof. solve_decision. Defined.
Record ending := Ending { running : pool data local; cancelled : gset nat; dead : gset nat; at_main : main_pc; said : list bytes }.

(** [pthread_cancel] of a customer, which has not been joined, succeeds. *)
Definition end_main (e : ending) : option ending :=
  match e.(at_main) with
  | ESleep => Some (Ending e.(running) e.(cancelled) e.(dead) (ECancel 0) e.(said))
  | ECancel i =>
      if decide (i < 4) then Some (Ending e.(running) ({[2 * i + 1]} ∪ e.(cancelled)) e.(dead) (ECancel (S i)) e.(said))
      else Some (Ending e.(running) e.(cancelled) e.(dead) EPrint e.(said))
  | EPrint => Some (Ending e.(running) e.(cancelled) e.(dead) EReturn (e.(said) ++ [B "main thread is over" ++ [LF]]))
  | EReturn => Some (Ending e.(running) e.(cancelled) e.(dead) EOver e.(said))
  | EOver => None
  end.

(** A cancelled customer ends where it sleeps or prints, and in
    [pthread_cond_wait], which takes the mutex again first and does not give it
    back. *)
Definition perish (tid : nat) (e : ending) : option ending :=
  let die g := Some (Ending (Pool g e.(running).(threads) e.(running).(main)) e.(cancelled) ({[tid]} ∪ e.(dead)) e.(at_main) e.(said)) in
  let g := e.(running).(shared) in
  if decide (tid ∈ e.(cancelled) ∧ (tid ∉ e.(dead)) ∧ e.(at_main) ≠ EOver) then
    match e.(running).(threads) !! tid with
    | Some (Some (CPrint _ _ _)) => die g
    | Some (Some (CTake _ TWait)) => die g
    | Some (Some (CTake _ TBlocked)) =>
        match g.(mtx) with None => die (set_cond (filter (λ t, t ≠ tid) g.(cond)) (set_mtx (Some tid) g)) | Some _ => None end
    | _ => None
    end
  else None.

(** The return of [main] ends the process. *)
Definition end_thread (tid : nat) (o : Z) (e : ending) : option ending :=
  if decide ((tid ∉ e.(dead)) ∧ e.(at_main) ≠ EOver) then
    match thread_step step tid o e.(running) with
    | Some p => Some (Ending p e.(cancelled) e.(dead) e.(at_main) e.(said))
    | None => None
    end
  else None.

Inductive end_step (e : ending) : ending → Prop :=
| es_main e' : end_main e = Some e' → end_step e e'
| es_thread tid o e' : end_thread tid o e = Some e' → end_step e e'
| es_perish tid e' : perish tid e = Some e' → end_step e e'.
