(* ===== verification/BlockQueueProofs.v ===== *)
(** * Properties of the blocking queue of lesson38 *)
From S2P Require Import Prelude Sorting Threads BlockQueue.

(** ** The invariant *)

(** Inside the critical section, and what the thread there relies on. *)
Definition inside (l : local) : bool :=
  match l with
  | PPush _ _ BLock => false
  | PPush _ _ _ => true
  | CTake _ (TLock | TBlocked | TRelock) => false
  | CTake _ _ => true
  | _ => false
  end.
Definition holder_ok (g : data) (l : local) : Prop :=
  match l with
  | CTake _ TWait => g.(q) = []
  | CTake _ TFront => g.(q) ≠ []
  | CTake _ (TPop v) => ∃ r, g.(q) = v :: r
  | _ => True
  end.

(** A number a producer makes. *)
Definition small (x : Z) : Prop := (0 ≤ x < 10000)%Z.

(** The local state of a thread: the numbers in its variables, and the count
    of a customer against the numbers [n] taken so far. *)
Definition fine (n : Z) (l : local) : Prop :=
  match l with
  | PFor i => i ≤ 10
  | PPush i x _ | PPrint i x => i < 10 ∧ small x
  | PReturn => True
  | CTake cnt (TUnlock v) | CCalc cnt v => (0 ≤ cnt < n)%Z ∧ small v
  | CTake cnt _ => (0 ≤ cnt ≤ n)%Z
  | CPrint cnt x sum => (0 ≤ cnt ≤ n)%Z ∧ small x ∧ sum = below_sum x
  | Crash => False
  end.

(** How many numbers a thread has pushed. *)
Definition made (l : local) : nat :=
  match l with
  | PFor i | PPush i _ BLock | PPush i _ BPush => i
  | PPush i _ _ | PPrint i _ => S i
  | PReturn => 10
  | _ => 0
  end.

Definition broadcasting (p : pool data local) : Prop :=
  ∃ t i x, p.(threads) !! t = Some (Some (PPush i x BBroadcast)).

Record accounts (p : pool data local) : Prop := {
  a_fifo : p.(shared).(pushed) = map snd p.(shared).(taken) ++ p.(shared).(q);
  a_small : Forall small p.(shared).(pushed);
  a_made : length p.(shared).(pushed) = total made p.(threads);
  a_fine : ∀ t l, p.(threads) !! t = Some (Some l) → fine (Z.of_nat (length p.(shared).(taken))) l;
  a_awake : p.(shared).(cond) = [] ∨ p.(shared).(q) = [] ∨ broadcasting p;
  a_log : ∀ t x s n, (t, x, s, n) ∈ p.(shared).(log) → small x ∧ s = below_sum x;
  a_len : length p.(threads) = 8
}.

Definition inv (p : pool data local) : Prop := guarded mtx inside holder_ok p ∧ accounts p.

(** ** The steps *)

Lemma fine_mono n m l : (n ≤ m)%Z → fine n l → fine m l.
Proof. intros H. destruct l as [| | | |? []| | |]; simpl; lia || naive_solver lia. Qed.

(** At most ten numbers per thread. *)
Lemma made_le l n : fine n l → made l ≤ 10.
Proof. destruct l as [| ? ? []| | | | | |]; simpl; lia. Qed.

Lemma taken_bound p : accounts p → (Z.of_nat (length p.(shared).(taken)) ≤ 80)%Z.
Proof.
  intros Ha. pose proof (f_equal length (a_fifo _ Ha)) as H. rewrite length_app, length_map, (a_made _ Ha) in H.
  assert (total made p.(threads) ≤ 10 * length p.(threads)) as Ht.
  { pose proof (a_fine _ Ha) as Hf. revert Hf. unfold total. generalize (threads p) as ts.
    induction ts as [|[l|] ts IH]; intros Hf; cbn [map sum_list length from_option]; [lia| |].
    - pose proof (made_le l _ (Hf 0 l eq_refl)). specialize (IH (λ t, Hf (S t))). simpl in *. lia.
    - specialize (IH (λ t, Hf (S t))). simpl in *. lia. }
  rewrite (a_len _ Ha) in Ht. lia.
Qed.

Lemma holder_ok_q g g' k : g'.(q) = g.(q) → holder_ok g k → holder_ok g' k.
Proof. intros E. destruct k as [| | | |? []| | |]; simpl; by rewrite ?E. Qed.

Lemma queue_update p tid l g' l' :
  accounts p → p.(threads) !! tid = Some (Some l) →
  g'.(pushed) = map snd g'.(taken) ++ g'.(q) → Forall small g'.(pushed) →
  length g'.(pushed) + made l = length p.(shared).(pushed) + made l' →
  length p.(shared).(taken) ≤ length g'.(taken) → fine (Z.of_nat (length g'.(taken))) l' →
  g'.(cond) = [] ∨ g'.(q) = [] ∨ (∃ i x, l' = PPush i x BBroadcast)
    ∨ ((p.(shared).(cond) = [] → g'.(cond) = []) ∧ (p.(shared).(q) = [] → g'.(q) = []) ∧ ∀ i x, l ≠ PPush i x BBroadcast) →
  (∀ t x s n, (t, x, s, n) ∈ g'.(log) → small x ∧ s = below_sum x) →
  accounts (Pool g' (<[tid := Some l']> p.(threads)) p.(main)).
Proof.
  intros [Hf Hs Hm Hfi Haw Hlog Hlen] Hl Ef Es Em Et Efi Eaw Elog.
  pose proof (total_insert made _ _ _ (Some l') Hl) as Ht. cbn [from_option] in Ht.
  pose proof (lookup_lt_Some _ _ _ Hl) as Hlt.
  split; cbn [shared threads]; [done|done|lia| | |done|by rewrite length_insert].
  - intros t k [(<- & [= <-] & _)|[_ Hk]]%list_lookup_insert_Some; [done|].
    eapply fine_mono, Hfi, Hk. lia.
  - destruct Eaw as [?|[?|[(i & x & ->)|(Ec & Eq & Hne)]]]; [by left|by right; left| |].
    { right. right. exists tid, i, x. by apply list_lookup_insert_eq. }
    destruct Haw as [?|[?|(t & i & x & Hb)]]; [left; by apply Ec|right; left; by apply Eq|].
    right. right. exists t, i, x. cbn [threads]. rewrite list_lookup_insert_ne; [done|]. intros ->.
    rewrite Hl in Hb. injection Hb as ->. by apply (Hne i x).
Qed.

(** A step that changes at most the mutex. *)
Lemma queue_quiet p tid l m l' :
  accounts p → p.(threads) !! tid = Some (Some l) → made l' = made l →
  fine (Z.of_nat (length p.(shared).(taken))) l' → (∀ i x, l ≠ PPush i x BBroadcast) →
  accounts (Pool (set_mtx m p.(shared)) (<[tid := Some l']> p.(threads)) p.(main)).
Proof. intros Ha Hl Em Hfi Hne. pose proof Ha as []. eapply queue_update; eauto; simpl; auto; try lia. do 3 right. auto. Qed.

Lemma set_mtx_id g : g = set_mtx g.(mtx) g.
Proof. by destruct g. Qed.

(** The push of a producer. *)
Lemma push_thread p tid o i x l g' l' :
  inv p → p.(threads) !! tid = Some (Some (PPush i x l)) →
  product_step tid o p.(shared) (PPush i x l) = Some (g', l') →
  inv (Pool g' (<[tid := Some l']> p.(threads)) p.(main)).
Proof.
  intros [Hk Ha] Hl E. pose proof (gd_in _ _ _ _ Hk tid _ Hl) as Hin. pose proof (a_fine _ Ha _ _ Hl) as [Hi Hx].
  unfold product_step, push, lock in E. destruct l; cbn [inside] in Hin.
  - destruct (mtx _) eqn:Em; simplify_eq. split; [|by apply queue_quiet with (l := PPush i x BLock)].
    eapply guarded_holder; eauto. done.
  - destruct Hin as [Em _]; [done|]. simplify_eq. split; [eapply guarded_holder; eauto; done|].
    pose proof Ha as []. eapply queue_update; eauto; simpl; try lia.
    + by rewrite a_fifo0, <- app_assoc.
    + apply Forall_app. by split; [|apply Forall_singleton].
    + rewrite length_app. simpl. lia.
    + done.
    + right. right. left. eauto.
  - destruct Hin as [Em _]; [done|]. simplify_eq. split; [eapply guarded_holder; eauto; done|].
    pose proof Ha as []. eapply queue_update; eauto; simpl; auto; done.
  - simplify_eq. split; [by eapply guarded_unlock|]. by apply queue_quiet with (l := PPush i x BUnlock).
Qed.

(** The other statements of a producer. *)
Lemma product_thread p tid o l g' l' :
  inv p → p.(threads) !! tid = Some (Some l) → product_step tid o p.(shared) l = Some (g', l') →
  inv (Pool g' (<[tid := Some l']> p.(threads)) p.(main)).
Proof.
  intros Hp Hl E. destruct l; try done; [|by eapply push_thread|]; destruct Hp as [Hk Ha];
    pose proof (a_fine _ Ha _ _ Hl) as Hf; simpl in E, Hf.
  - case_decide; simplify_eq; (split; [by eapply guarded_outside|]); rewrite (set_mtx_id (shared p)) at 1;
      eapply queue_quiet; eauto; simpl; try done; [|lia].
    split; [done|]. apply Z.mod_pos_bound. lia.
  - simplify_eq. split; [by eapply guarded_outside|]. rewrite (set_mtx_id (shared p)) at 1.
    eapply queue_quiet; eauto; simpl; lia || done.
Qed.

(** The take of a customer. *)
Lemma take_thread p tid o cnt l g' l' :
  inv p → p.(threads) !! tid = Some (Some (CTake cnt l)) →
  custom_step tid o p.(shared) (CTake cnt l) = Some (g', l') →
  inv (Pool g' (<[tid := Some l']> p.(threads)) p.(main)).
Proof.
  intros [Hk Ha] Hl E. pose proof (gd_in _ _ _ _ Hk tid _ Hl) as Hin. pose proof (a_fine _ Ha _ _ Hl) as Hf.
  unfold custom_step, take, lock in E. destruct l; cbn [inside] in Hin; cbn [fine] in Hf.
  - destruct (mtx _) eqn:Em; simplify_eq. split; [by eapply guarded_holder; eauto|].
    by apply queue_quiet with (l := CTake cnt TLock).
  - destruct Hin as [Em _]; [done|]. simplify_eq. split.
    + eapply guarded_holder; eauto; destruct (q _) eqn:Eq; simpl; congruence || done.
    + rewrite (set_mtx_id (shared p)) at 1. eapply queue_quiet; eauto; by destruct (q _).
  - destruct Hin as [Em Hq]; [done|]. simplify_eq. split; [by eapply guarded_unlock|].
    pose proof Ha as []. eapply queue_update; eauto; simpl; auto; done.
  - case_decide; [|destruct (o =? 1)%Z; [|done]]; simplify_eq/=.
    + split; [by eapply guarded_outside|]. rewrite (set_mtx_id (shared p)) at 1. by eapply queue_quiet; eauto.
    + split; [apply (guarded_outside _ _ _ p tid _ _ _ Hk Hl); [done..|]; intros k; by apply holder_ok_q|].
      pose proof Ha as []. eapply queue_update; eauto; simpl; auto; try done.
      do 3 right. split; [by intros ->|done].
  - destruct (mtx _) eqn:Em; simplify_eq. split; [by eapply guarded_holder; eauto|].
    by apply queue_quiet with (l := CTake cnt TRelock).
  - destruct Hin as [Em Hq]; [done|]. simpl in Hq. destruct (q _) as [|v r] eqn:Eq; [done|]. simplify_eq. split.
    + eapply guarded_holder; eauto. simpl. eauto.
    + rewrite (set_mtx_id (shared p)) at 1. by eapply queue_quiet; eauto.
  - destruct Hin as [Em [r Eq]]; [done|]. rewrite Eq in E. simplify_eq. split; [by eapply guarded_holder; eauto|].
    pose proof Ha as []. rewrite Eq in *. eapply queue_update; eauto; simpl; rewrite ?length_app; simpl; try lia.
    + by rewrite a_fifo0, map_app, <- app_assoc.
    + split; [lia|]. rewrite a_fifo0 in a_small0. apply Forall_app in a_small0 as [_ Hs]. by inversion Hs.
    + do 3 right. rewrite Eq. split; [done|]. split; [done|]. done.
  - simplify_eq. split; [by eapply guarded_unlock|]. by eapply queue_quiet; eauto.
Qed.

(** The other statements of a customer: the sum below a number a producer
    makes fits an [int], and so does the count. *)
Lemma calc_fine n cnt x :
  (n ≤ 80)%Z → fine n (CCalc cnt x) →
  add32 cnt 1 = Some (cnt + 1)%Z ∧ sum_below x = Some (below_sum x) ∧ fine n (CPrint (cnt + 1) x (below_sum x)).
Proof.
  intros Hn [Hc Hx]. unfold small in *. rewrite add32_ok by lia. rewrite sum_below_value, decide_True, Z.max_l by lia.
  split; [done|]. split; [done|]. simpl. unfold small. lia.
Qed.

Lemma custom_thread p tid o l g' l' :
  inv p → p.(threads) !! tid = Some (Some l) → custom_step tid o p.(shared) l = Some (g', l') →
  inv (Pool g' (<[tid := Some l']> p.(threads)) p.(main)).
Proof.
  intros Hp Hl E. destruct l; try done; [by eapply take_thread|..]; destruct Hp as [Hk Ha];
    pose proof (a_fine _ Ha _ _ Hl) as Hf; cbn [custom_step] in E.
  - destruct (calc_fine _ _ _ (taken_bound _ Ha) Hf) as (E1 & E2 & Hf'). rewrite E1, E2 in E. simplify_eq.
    split; [by eapply guarded_outside|]. rewrite (set_mtx_id (shared p)) at 1. by eapply queue_quiet; eauto.
  - simplify_eq. destruct Hf as (Hc & Hx & ->).
    split; [apply (guarded_outside _ _ _ p tid _ _ _ Hk Hl); [done..|]; intros k; by apply holder_ok_q|].
    pose proof Ha as []. eapply queue_update; eauto; simpl; auto; try done; [by do 3 right|].
    intros t y s n [H|H]%elem_of_app; [by eapply a_log0|]. apply list_elem_of_singleton in H. by simplify_eq.
Qed.

Lemma step_thread_inv p tid o l g' l' :
  inv p → p.(threads) !! tid = Some (Some l) → step tid o p.(shared) l = Some (g', l') →
  inv (Pool g' (<[tid := Some l']> p.(threads)) p.(main)).
Proof. intros Hp Hl E. destruct l; done || exact (product_thread p tid o _ _ _ Hp Hl E) || exact (custom_thread p tid o _ _ _ Hp Hl E). Qed.

(** ** The main thread *)

Definition joins : list (command local) := map (λ i, Join (2 * i)) (seq 0 4) ++ [Forever].
Definition commands : list (command local) := create_all 8 entry ++ joins.

Definition customer (l : local) : bool :=
  match l with CTake _ _ | CCalc _ _ | CPrint _ _ _ | Crash => true | _ => false end.

Lemma customer_step tid o g l g' l' : step tid o g l = Some (g', l') → customer l = true → customer l' = true.
Proof.
  intros E Hc. destruct l; try done; cbn [step custom_step] in E.
  - destruct (take _ _ _ _) as [[? []]|]; by simplify_eq.
  - destruct (add32 cnt 1), (sum_below x); by simplify_eq.
  - by simplify_eq.
Qed.

Lemma customer_made l : customer l = true → made l = 0.
Proof. by destruct l. Qed.

(** The commands [main] has behind it, and what they have established. *)
Record progress (k : nat) (p : pool data local) : Prop := {
  pr_main : p.(main) = drop k commands;
  pr_fresh : ∀ i, k ≤ i → i < 8 → p.(threads) !! i = Some None;
  pr_kind : ∀ i l, p.(threads) !! i = Some (Some l) → Nat.even i = false → customer l = true;
  pr_created : ∀ i, i < k → i < 8 → ∃ l, p.(threads) !! i = Some (Some l);
  pr_joined : ∀ i, 8 + i < k → i < 4 → p.(threads) !! (2 * i) = Some (Some PReturn)
}.

Lemma progress_thread k p tid o l g' l' :
  progress k p → p.(threads) !! tid = Some (Some l) → step tid o p.(shared) l = Some (g', l') →
  progress k (Pool g' (<[tid := Some l']> p.(threads)) p.(main)).
Proof.
  intros [Hm Hf Hkd Hc Hj] Hl E. pose proof (lookup_lt_Some _ _ _ Hl) as Hlt. split; cbn [threads Threads.main]; [done|..].
  - intros i Hk Hi. rewrite list_lookup_insert_ne; [by apply Hf|]. intros ->. rewrite Hf in Hl by done. done.
  - intros i m [(<- & [= <-] & _)|[_ Hi]]%list_lookup_insert_Some He; [by eapply customer_step; eauto|by eapply Hkd].
  - intros i Hi Hi8. destruct (decide (i = tid)) as [->|]; [exists l'; by apply list_lookup_insert_eq|].
    rewrite list_lookup_insert_ne by done. by apply Hc.
  - intros i Hi Hi4. rewrite list_lookup_insert_ne; [by apply Hj|]. intros ->.
    rewrite (Hj i) in Hl by done. by simplify_eq.
Qed.

Lemma commands_lookup k c :
  commands !! k = Some c →
  (k < 8 ∧ c = Create k (entry k)) ∨ (8 ≤ k < 12 ∧ c = Join (2 * (k - 8))) ∨ (12 ≤ k ∧ c = Forever).
Proof.
  unfold commands, create_all, joins. rewrite lookup_app_Some, length_map, length_seq. intros [H|[Hk H]].
  - left. apply list_lookup_fmap_Some in H as (i & -> & [-> ?]%lookup_seq). by split.
  - rewrite lookup_app_Some, length_map, length_seq in H. right. destruct H as [H|[Hk' H]].
    + left. apply list_lookup_fmap_Some in H as (i & -> & [-> ?]%lookup_seq). split; [lia|done].
    + right. apply list_lookup_singleton_Some in H as [? <-]. split; [lia|done].
Qed.

Lemma progress_main k p p' :
  progress k p → main_step finished p = Some p' →
  progress (S k) p' ∧ p'.(shared) = p.(shared)
  ∧ (p'.(threads) = p.(threads) ∨ ∃ i, p.(threads) !! i = Some None ∧ p'.(threads) = <[i := Some (entry i)]> p.(threads)).
Proof.
  intros [Hm Hf Hkd Hc Hj] E. apply main_step_Some in E as [Hs E].
  assert (∀ c r, p.(main) = c :: r → commands !! k = Some c ∧ drop (S k) commands = r) as Hd.
  { intros c r H. rewrite Hm in H. split; [by eapply drop_cons_lookup|by eapply drop_S_tail]. }
  destruct E as [(i0 & e & r & H & Ht & Hr)|[(i0 & r & H & Ht & Hr & l & Hi0 & Hfin)|(i0 & r & H & _)]];
    destruct (Hd _ _ H) as [Hk Hdr]; apply commands_lookup in Hk as [[Hlt Hk]|[[Hlt Hk]|[_ Hk]]]; simplify_eq.
  - assert (p.(threads) !! k = Some None) as Hn by (apply Hf; lia).
    pose proof (lookup_lt_Some _ _ _ Hn) as Hlen.
    split; [|split; [done|right; by exists k]]. split; [congruence|..]; rewrite Ht.
    + intros i Hi Hi8. rewrite list_lookup_insert_ne by lia. apply Hf; lia.
    + intros i m [(<- & [= <-] & _)|[_ Hi]]%list_lookup_insert_Some He; [unfold entry; by rewrite He|by eapply Hkd].
    + intros i Hi Hi8. destruct (decide (i = k)) as [->|]; [eexists; by apply list_lookup_insert_eq|].
      rewrite list_lookup_insert_ne by done. apply Hc; lia.
    + intros i Hi. lia.
  - split; [|split; [done|by left]]. split; [congruence|..]; rewrite Ht.
    + intros i Hi. lia.
    + done.
    + intros i Hi Hi8. apply Hc; lia.
    + intros i Hi Hi4. destruct (decide (i = k - 8)) as [->|]; [|apply Hj; lia].
      etransitivity; [exact Hi0|]. by destruct l.
Qed.

(** ** Reachable states *)

Lemma start_inv : inv blockQueue_main ∧ progress 0 blockQueue_main.
Proof.
  assert (∀ t (l : local), replicate 8 None !! t ≠ Some (Some l)) as Hn by (intros t l [? _]%lookup_replicate; done).
  split; [split; split|split]; simpl; try done; try (by left); try lia.
  - intros t l H. by apply Hn in H.
  - intros t l H. by apply Hn in H.
  - intros t x s n H. by apply elem_of_nil in H.
  - intros i _ Hi. exact (lookup_replicate_2 8 None i Hi).
  - intros i l H. by apply Hn in H.
Qed.

Lemma reachable_inv p : reachable step finished blockQueue_main p → inv p ∧ ∃ k, progress k p.
Proof.
  intros H. apply (reachable_invariant step finished (λ p, inv p ∧ ∃ k, progress k p) _ _ H).
  { destruct start_inv. eauto. }
  intros p1 p2 [Hi [k Hk]] [tid o p3 E|p3 E].
  - apply thread_step_Some in E as (l & g' & l' & Hl & E & ->).
    split; [by eapply step_thread_inv|exists k; by eapply progress_thread].
  - destruct (progress_main _ _ _ Hk E) as (Hk' & Hs & Ht). split; [|by exists (S k)].
    destruct Hi as [Hg Ha]. destruct p3 as [g2 t2 m2]. simpl in Hs, Ht. subst g2.
    destruct Ht as [->|(i & Hn & ->)].
    { split; [by destruct Hg; split|by destruct Ha; split]. }
    split; [apply guarded_create; [done|done|unfold entry; by destruct (Nat.even i)]|].
    destruct Ha. pose proof (total_insert made _ _ _ (Some (entry i)) Hn) as Hto. cbn [from_option] in Hto.
    assert (made (entry i) = 0) as Em by (unfold entry; by destruct (Nat.even i)).
    split; cbn [shared threads]; [done|done|lia| | |done|by rewrite length_insert].
    + intros t l [(<- & [= <-] & _)|[_ Hk1]]%list_lookup_insert_Some; [|by eapply a_fine0].
      unfold entry. destruct (Nat.even i); simpl; lia.
    + destruct a_awake0 as [?|[?|(t & j & x & Hb)]]; [by left|by right; left|]. right. right. exists t, j, x.
      cbn [threads]. rewrite list_lookup_insert_ne; [done|]. intros ->. congruence.
Qed.

(** All producers joined: forty numbers. *)
Lemma joined_made p k :
  progress k p → accounts p → (∀ i, Join i ∉ p.(main)) → length p.(shared).(pushed) = 40.
Proof.
  intros Hk Ha Hno. assert (12 ≤ k) as Hge.
  { destruct (decide (12 ≤ k)) as [|Hlt]; [done|exfalso]. apply (Hno 6). rewrite (pr_main _ _ Hk).
    apply (list_elem_of_lookup_2 _ (11 - k)). rewrite lookup_drop. by replace (k + (11 - k)) with 11 by lia. }
  rewrite (a_made _ Ha). pose proof (a_len _ Ha) as Hl. pose proof (pr_joined _ _ Hk) as Hj.
  pose proof (pr_kind _ _ Hk) as Hc. pose proof (pr_created _ _ Hk) as Hcr.
  destruct (threads p) as [|t0 [|t1 [|t2 [|t3 [|t4 [|t5 [|t6 [|t7 [|]]]]]]]]]; try done.
  pose proof (Hj 0 ltac:(lia) ltac:(lia)) as [= ->]. pose proof (Hj 1 ltac:(lia) ltac:(lia)) as [= ->].
  pose proof (Hj 2 ltac:(lia) ltac:(lia)) as [= ->]. pose proof (Hj 3 ltac:(lia) ltac:(lia)) as [= ->].
  destruct (Hcr 1 ltac:(lia) ltac:(lia)) as [l1 [= ->]]. destruct (Hcr 3 ltac:(lia) ltac:(lia)) as [l3 [= ->]].
  destruct (Hcr 5 ltac:(lia) ltac:(lia)) as [l5 [= ->]]. destruct (Hcr 7 ltac:(lia) ltac:(lia)) as [l7 [= ->]].
  unfold total. cbn. rewrite (customer_made l1), (customer_made l3), (customer_made l5), (customer_made l7); [done|..].
  1: by apply (Hc 7). 1: by apply (Hc 5). 1: by apply (Hc 3). by apply (Hc 1).
Qed.

(** Somebody can run while numbers wait: the holder of the mutex, or, when it
    is free, a thread that is not waiting for a wake-up. *)
Lemma holder_runs p t l :
  p.(threads) !! t = Some (Some l) → inside l = true → is_Some (thread_step step t 0 p).
Proof.
  intros Hl Hin. unfold thread_step. rewrite Hl.
  destruct l as [|? ? []| | |? []| | |]; try discriminate Hin; cbn; try (by eexists).
  all: destruct (q _); by eexists.
Qed.

Lemma customer_runs p t l :
  p.(shared).(mtx) = None → p.(shared).(cond) = [] → p.(threads) !! t = Some (Some l) → customer l = true →
  fine (Z.of_nat (length p.(shared).(taken))) l → inside l = false → is_Some (thread_step step t 0 p).
Proof.
  intros Hm Hc Hl Hk Hf Hin. unfold thread_step. rewrite Hl.
  destruct l as [| | | |? []| | |]; try done; cbn; unfold lock; rewrite ?Hm, ?Hc; by eexists.
Qed.

(** ** Properties *)

(** C31. The blocking queue, under every interleaving of its threads: numbers
    leave it in the order they came, each once; no customer reads an empty
    queue, and no sum or count overflows; every line shows the sum of the
    integers below a number; no wake-up is lost (while a customer sleeps on
    the condition variable with numbers in the queue, a producer is about to
    broadcast); once the customers are created and numbers wait, some thread
    can run; and after the joins exactly forty numbers have been pushed. *)
Theorem blockQueue_fifo p :
  reachable step finished blockQueue_main p →
  p.(shared).(pushed) = map snd p.(shared).(taken) ++ p.(shared).(q)
  ∧ (∀ t, p.(threads) !! t ≠ Some (Some Crash))
  ∧ (∀ t x s n, (t, x, s, n) ∈ p.(shared).(log) → (0 ≤ x < 10000)%Z ∧ s = (x * (x - 1) / 2)%Z)
  ∧ (p.(shared).(cond) ≠ [] → p.(shared).(q) ≠ [] → broadcasting p)
  ∧ (p.(shared).(q) ≠ [] → (∃ l, p.(threads) !! 1 = Some (Some l)) → ∃ t, is_Some (thread_step step t 0 p))
  ∧ ((∀ i, Join i ∉ p.(main)) → length p.(shared).(pushed) = 40).
Proof.
  intros H. apply reachable_inv in H as [[Hg Ha] [k Hk]]. split_and!.
  - apply Ha.
  - intros t Ht. apply (a_fine _ Ha) in Ht. done.
  - intros t x s n Hin. destruct (a_log _ Ha t x s n Hin). done.
  - intros Hc Hq. by destruct (a_awake _ Ha) as [?|[?|?]].
  - intros Hq [l Hl]. destruct (p.(shared).(mtx)) as [t|] eqn:Em.
    + destruct (gd_held _ _ _ _ Hg t Em) as (m & Hm & Hin). exists t. by eapply holder_runs.
    + destruct (a_awake _ Ha) as [Hc|[?|(t & i & x & Ht)]]; [|done|exists t; by eapply holder_runs].
      exists 1. pose proof (a_fine _ Ha _ _ Hl) as Hf. destruct (inside l) eqn:Hin; [by eapply holder_runs|].
      eapply customer_runs; eauto. by eapply (pr_kind _ _ Hk 1).
  - by eapply joined_made.
Qed.

(** A run: a customer waits, a producer pushes 7 and wakes it, and the
    customer takes it and prints its line. *)
Definition sample_schedule : list (option (nat * Z)) :=
  replicate 8 None ++ replicate 3 (Some (1, 0%Z)) ++ replicate 6 (Some (0, 7%Z)) ++ replicate 8 (Some (1, 0%Z)).
Definition sample_run : pool data local := run step finished sample_schedule blockQueue_main.

Lemma blockQueue_fifo_witness :
  sample_run.(shared).(log) = [(1, 7%Z, 21%Z, 1%Z)] ∧ sample_run.(shared).(pushed) = map snd sample_run.(shared).(taken) ++ sample_run.(shared).(q).
Proof.
  split; [vm_compute; reflexivity|]. apply (blockQueue_fifo sample_run). apply run_reachable.
Defined.

(** ** The end of main *)

Definition over_line : bytes := B "main thread is over" ++ [LF].
Definition ending_ok (e : ending) : Prop :=
  e.(dead) ⊆ e.(cancelled) ∧ match e.(at_main) with
  | ESleep => e.(cancelled) = ∅ ∧ e.(said) = []
  | ECancel i => i ≤ 4 ∧ e.(cancelled) = list_to_set (map (λ i, 2 * i + 1) (seq 0 i)) ∧ e.(said) = []
  | EPrint => e.(cancelled) = list_to_set [1; 3; 5; 7] ∧ e.(said) = []
  | EReturn | EOver => e.(cancelled) = list_to_set [1; 3; 5; 7] ∧ e.(said) = [over_line]
  end.

Lemma ending_ok_step e e' : ending_ok e → end_step e e' → ending_ok e'.
Proof.
  intros [Hd He] [e1 E|tid o e1 E|tid e1 E].
  - unfold end_main in E. destruct e as [p c d [|i| | |] s]; cbn in *; try done.
    + injection E as <-. destruct He as [-> ->]. split; [done|]. split; [cbn; lia|done].
    + destruct He as (Hi & -> & ->). case_decide; injection E as <-; cbn.
      * split; [set_solver|]. split_and!; [lia| |done]. rewrite seq_S, map_app, list_to_set_app_L. cbn. set_solver.
      * split; [done|]. by replace i with 4 by lia.
    + injection E as <-. destruct He as [-> ->]. by split.
    + injection E as <-. done.
  - unfold end_thread in E. case_decide; [|done]. destruct (thread_step _ _ _ _); [|done]. by injection E as <-.
  - assert (tid ∈ e.(cancelled) ∧ ∃ g, e1 = Ending (Pool g e.(running).(threads) e.(running).(main)) e.(cancelled) ({[tid]} ∪ e.(dead)) e.(at_main) e.(said))
      as (Hin & g & ->).
    { clear Hd He. unfold perish in E. case_decide as Hc; [|done]. split; [apply Hc|]. repeat case_match; try done; simplify_eq/=; eexists; reflexivity. }
    split; [cbn; set_solver|exact He].
Qed.

(** [main] waits for nobody after the joins: it always has a next step, cancels
    the four customers, prints its line once and returns, whatever the other
    threads do; only customers it has cancelled end early. *)
Lemma blockQueue_ends p e :
  rtc end_step (Ending p ∅ ∅ ESleep []) e →
  (e.(at_main) ≠ EOver → is_Some (end_main e))
  ∧ (e.(at_main) = EOver → e.(cancelled) = list_to_set [1; 3; 5; 7] ∧ e.(said) = [over_line])
  ∧ e.(dead) ⊆ e.(cancelled).
Proof.
  intros H. assert (ending_ok e) as [Hd He].
  { apply rtc_ind_r with (P := ending_ok) in H; [done| |intros ? ? _ ? ?; by eapply ending_ok_step]. done. }
  split_and!; [|intros E; by rewrite E in He|done].
  intros Hm. destruct e as [? ? ? [] ?]; try done; cbn; try case_decide; by eexists.
Qed.

(** A customer that is cancelled while it waits keeps the mutex: the other
    customers stay blocked, and [main] returns with the mutex locked. *)
Definition two_waiting : pool data local :=
  run step finished (replicate 8 None ++ replicate 3 (Some (1, 0%Z)) ++ replicate 3 (Some (3, 0%Z))) blockQueue_main.
Definition cancelled_run : option ending :=
  e ← end_main (Ending two_waiting ∅ ∅ ESleep []); e ← end_main e; e ← end_main e; perish 1 e.

Lemma cancel_keeps_mutex :
  (λ e, (e.(running).(shared).(mtx), bool_decide (1 ∈ e.(dead)), perish 3 e)) <$> cancelled_run = Some (Some 1, true, None).
Proof. vm_compute. reflexivity. Qed.
