(* ===== verification/Median.v ===== *)
(** * The running median: middleNumber of lesson38/test.cpp

    Two priority queues split the numbers read so far: the smallest of the
    upper half is on top of [q1], the greatest of the lower half on top of
    [q2].  A priority queue of the standard library is modelled by the list of
    its elements in the order [pop] removes them. *)
From stdpp Require Import sorting.
From S2P Require Import Prelude CString Posix Sorting.

(** ** Priority queues *)

(** [push]; [before x y] says that [x] is removed before [y]. *)
Fixpoint pq_push (before : Z → Z → bool) (x : Z) (l : list Z) : list Z :=
  match l with
  | [] => [x]
  | y :: r => if before x y then x :: l else y :: pq_push before x r
  end.

Definition push1 := pq_push Z.leb.   (* greater<int>: the least is on top *)
Definition push2 := pq_push Z.geb.   (* less<int>: the greatest is on top *)

(** ** middleNumber *)

(** The inner [while]: the tops are exchanged as long as they are out of
    order. *)
Fixpoint exchange_tops (fuel : nat) (q1 q2 : list Z) : option (list Z * list Z) :=
  match fuel with
  | 0 => None
  | S fuel =>
      match q1, q2 with
      | x :: r1, y :: r2 =>
          if (x <? y)%Z then exchange_tops fuel (push1 y r1) (push2 x r2) else Some (q1, q2)
      | _, _ => Some (q1, q2)
      end
  end.

(** One turn of the [for]: [q1] is not empty after the push, so that
    [q1.size() - 1] does not wrap around. *)
Definition middle_turn (fuel : nat) (x : Z) (q1 q2 : list Z) : option (list Z * list Z) :=
  let q1 := push1 x q1 in
  match q1 with
  | top :: r =>
      if decide (length q2 < length q1 - 1) then exchange_tops fuel r (push2 top q2)
      else exchange_tops fuel q1 q2
  | [] => None
  end.

Fixpoint middle_loop (fuel : nat) (a : list Z) (q1 q2 : list Z) : option (list Z * list Z) :=
  match a with
  | [] => Some (q1, q2)
  | x :: a => '(q1, q2) ← middle_turn fuel x q1 q2; middle_loop fuel a q1 q2
  end.

(** The number printed: the sum of the tops may overflow; [/] truncates. *)
Definition middle (q1 q2 : list Z) : option Z :=
  match q1 with
  | [] => None
  | x :: _ =>
      if decide (length q2 < length q1) then Some x
      else match q2 with y :: _ => s ← add32 x y; Some (Z.quot s 2) | [] => None end
  end.

Definition middleNumber (fuel : nat) (a : list Z) : M unit :=
  '(q1, q2) ← defined (middle_loop fuel a [] []);
  m ← defined (middle q1 q2);
  print (dec m ++ [LF]);;
  show_array q1;;
  show_array q2.

(** ** Lemmas *)

Definition desc (x y : Z) : Prop := (y ≤ x)%Z.

Section pq.
Variables (before : Z → Z → bool) (R : Z → Z → Prop).
Hypothesis before_R : ∀ x y, before x y = true → R x y.
Hypothesis R_before : ∀ x y, before x y = false → R y x.
Hypothesis R_trans : ∀ x y z, R x y → R y z → R x z.

Lemma pq_push_permutation x l : pq_push before x l ≡ₚ x :: l.
Proof. induction l as [|y l IH]; simpl; [done|]. destruct (before x y); [done|]. by rewrite IH, Permutation_swap. Qed.

Lemma pq_push_sorted x l : StronglySorted R l → StronglySorted R (pq_push before x l).
Proof.
  induction 1 as [|y l Hs IH Hy]; simpl; [by repeat constructor|].
  destruct (before x y) eqn:E.
  - apply before_R in E. constructor; [by constructor|]. constructor; [done|].
    eapply Forall_impl; [exact Hy|]. intros z. by apply R_trans.
  - apply R_before in E. constructor; [done|]. rewrite pq_push_permutation. by constructor.
Qed.
End pq.

Lemma push1_permutation x l : push1 x l ≡ₚ x :: l.
Proof. apply pq_push_permutation. Qed.
Lemma push2_permutation x l : push2 x l ≡ₚ x :: l.
Proof. apply pq_push_permutation. Qed.
Lemma push1_sorted x l : StronglySorted Z.le l → StronglySorted Z.le (push1 x l).
Proof. apply pq_push_sorted; intros *; rewrite ?Z.leb_le, ?Z.leb_gt; lia. Qed.
Lemma push2_sorted x l : StronglySorted desc l → StronglySorted desc (push2 x l).
Proof. apply pq_push_sorted; unfold desc; intros *; rewrite ?Z.geb_leb, ?Z.leb_le, ?Z.leb_gt; lia. Qed.

(** The halves of the numbers read. *)
Record halves (a q1 q2 : list Z) : Prop := {
  h_perm : q2 ++ q1 ≡ₚ a;
  h_asc : StronglySorted Z.le q1;
  h_desc : StronglySorted desc q2;
  h_split : ∀ y z, y ∈ q2 → z ∈ q1 → (y ≤ z)%Z;
  h_size : length q2 ≤ length q1 ≤ length q2 + 1
}.

Lemma exchange_tops_done fuel q1 q2 :
  0 < fuel → (∀ y z, y ∈ q2 → z ∈ q1 → (y ≤ z)%Z) → exchange_tops fuel q1 q2 = Some (q1, q2).
Proof.
  intros Hf H. destruct fuel; [lia|]. simpl. destruct q1 as [|x r1], q2 as [|y r2]; try done.
  destruct (Z.ltb_spec x y); [|done]. specialize (H y x ltac:(left) ltac:(left)). lia.
Qed.

Lemma sorted_top (R : Z → Z → Prop) x l z : StronglySorted R (x :: l) → z ∈ l → R x z.
Proof. intros [_ H]%StronglySorted_inv Hz. by eapply Forall_forall in H. Qed.

(** A number goes to the upper half, whose least moves down. *)
Lemma move_down a q1 q2 x fuel :
  0 < fuel → halves a q1 q2 → length q1 = length q2 + 1 →
  ∃ r1 r2, middle_turn fuel x q1 q2 = Some (r1, r2) ∧ halves (x :: a) r1 r2.
Proof.
  intros Hf [Hp Ha Hd Hs Hz] Hlen. unfold middle_turn.
  pose proof (push1_permutation x q1) as Hperm. pose proof (push1_sorted x q1 Ha) as Hsort.
  destruct (push1 x q1) as [|m r]; [by apply Permutation_nil in Hperm|].
  assert (length (m :: r) = S (length q1)) as Hl by (by rewrite Hperm). simpl in Hl.
  rewrite decide_True by (simpl; lia).
  assert (∀ z, z ∈ r → (m ≤ z)%Z) as Hm by (intros z; by apply sorted_top).
  assert (∀ y z, y ∈ q2 → z ∈ r → (y ≤ z)%Z) as Hq2.
  { intros y z Hy Hzr. assert (z ∈ x :: q1) as Hin by (rewrite <- Hperm; by right).
    apply elem_of_cons in Hin as [->|]; [|by apply Hs].
    assert (m ∈ x :: q1) as Hin by (rewrite <- Hperm; left). apply elem_of_cons in Hin as [->|Hmq].
    - apply Permutation_cons_inv in Hperm. apply Hs; [done|]. by rewrite <- Hperm.
    - transitivity m; [by apply Hs|by apply Hm]. }
  exists r, (push2 m q2). pose proof (push2_permutation m q2) as Hp2.
  assert (∀ y z, y ∈ push2 m q2 → z ∈ r → (y ≤ z)%Z) as Hsplit.
  { intros y z Hy Hzr. rewrite Hp2 in Hy. apply elem_of_cons in Hy as [->|]; [by apply Hm|by apply Hq2]. }
  split; [by apply exchange_tops_done|]. split; [|by apply StronglySorted_inv in Hsort as [? _]|by apply push2_sorted|done|].
  - rewrite Hp2. simpl. rewrite (Permutation_middle q2 r m), Hperm, <- Permutation_middle. by rewrite Hp.
  - rewrite (Permutation_length Hp2). simpl. lia.
Qed.

(** A number stays in the upper half, or changes places with the greatest of
    the lower half. *)
Lemma stay_or_swap a q1 q2 x fuel :
  1 < fuel → halves a q1 q2 → length q1 = length q2 →
  ∃ r1 r2, middle_turn fuel x q1 q2 = Some (r1, r2) ∧ halves (x :: a) r1 r2.
Proof.
  intros Hf [Hp Ha Hd Hs Hz] Hlen. unfold middle_turn.
  pose proof (push1_permutation x q1) as Hperm. pose proof (push1_sorted x q1 Ha) as Hsort.
  assert (length (push1 x q1) = S (length q1)) as Hl by (by rewrite Hperm).
  assert (q2 ++ push1 x q1 ≡ₚ x :: a) as Hall by (rewrite Hperm, <- Permutation_middle; by rewrite Hp).
  destruct (push1 x q1) as [|m r] eqn:E; [done|]. rewrite <- E in *. rewrite decide_False by lia.
  destruct q2 as [|y r2].
  { exists (push1 x q1), []. split; [apply exchange_tops_done; [lia|by intros ? ? ?%elem_of_nil]|].
    split; [done|done|done|by intros ? ? ?%elem_of_nil|simpl in *; lia]. }
  destruct (decide (y ≤ m)%Z) as [Hle|Hlt].
  - assert (∀ u z, u ∈ y :: r2 → z ∈ push1 x q1 → (u ≤ z)%Z) as Hsplit.
    { intros u z Hu Hzz. transitivity y.
      { apply elem_of_cons in Hu as [->|Hu]; [done|]. by apply (sorted_top desc y r2). }
      rewrite E in Hzz, Hsort. apply elem_of_cons in Hzz as [->|Hzz]; [done|].
      transitivity m; [done|by eapply sorted_top]. }
    exists (push1 x q1), (y :: r2). split; [apply exchange_tops_done; [lia|done]|]. split; try done. lia.
  - assert (m = x) as ->.
    { assert (m ∈ x :: q1) as Hin by (rewrite <- Hperm, E; left). apply elem_of_cons in Hin as [->|Hin]; [done|].
      specialize (Hs y m ltac:(left) Hin). lia. }
    rewrite E in Hperm |- *. apply Permutation_cons_inv in Hperm. destruct fuel as [|fuel]; [lia|]. cbn [exchange_tops].
    destruct (Z.ltb_spec x y); [|lia]. exists (push1 y r), (push2 x r2).
    pose proof (push1_permutation y r) as P1. pose proof (push2_permutation x r2) as P2.
    assert (∀ u z, u ∈ push2 x r2 → z ∈ push1 y r → (u ≤ z)%Z) as Hsplit.
    { intros u z Hu Hzz. rewrite P2 in Hu. rewrite P1, Hperm in Hzz. transitivity y.
      - apply elem_of_cons in Hu as [->|Hu]; [lia|]. by apply (sorted_top desc y r2).
      - apply elem_of_cons in Hzz as [->|Hzz]; [done|]. apply Hs; [left|done]. }
    split; [apply exchange_tops_done; [lia|done]|]. split; [| | |done|].
    + rewrite P1, P2, Hperm. rewrite <- Hp. simpl. by rewrite <- Permutation_middle.
    + apply push1_sorted. rewrite E in Hsort. by apply StronglySorted_inv in Hsort as [? _].
    + apply push2_sorted. by apply StronglySorted_inv in Hd as [? _].
    + rewrite (Permutation_length P1), (Permutation_length P2), Hperm. simpl in *. lia.
Qed.

Lemma middle_loop_halves fuel a : ∀ b q1 q2,
  1 < fuel → halves b q1 q2 → ∃ r1 r2, middle_loop fuel a q1 q2 = Some (r1, r2) ∧ halves (rev a ++ b) r1 r2.
Proof.
  induction a as [|x a IH]; intros b q1 q2 Hf Hh; cbn [middle_loop]; [by exists q1, q2|].
  assert (∃ r1 r2, middle_turn fuel x q1 q2 = Some (r1, r2) ∧ halves (x :: b) r1 r2) as (r1 & r2 & -> & Hh').
  { pose proof (h_size _ _ _ Hh). destruct (decide (length q1 = length q2)).
    - by apply stay_or_swap. - apply move_down; [lia|done|lia]. }
  cbn [mbind option_bind]. destruct (IH (x :: b) r1 r2 Hf Hh') as (s1 & s2 & -> & Hs).
  exists s1, s2. split; [done|]. simpl. by rewrite <- app_assoc.
Qed.

(** The two halves are those of the sorted array. *)
Lemma halves_sorted a q1 q2 : halves a q1 q2 → merge_sort Z.le a = reverse q2 ++ q1.
Proof.
  intros [Hp Ha Hd Hs _]. symmetry. apply (StronglySorted_unique Z.le).
  - apply StronglySorted_app_2; [|clear -Hd|done].
    + intros x y Hx Hy. apply Hs; [by apply elem_of_reverse|done].
    + induction Hd as [|y l Hd IH Hy]; [constructor|]. rewrite reverse_cons.
      apply StronglySorted_app_2; [|done|by repeat constructor].
      intros u z Hu Hzz. apply list_elem_of_singleton in Hzz as ->.
      eapply Forall_forall in Hy; [exact Hy|]. by apply elem_of_reverse.
  - apply StronglySorted_merge_sort; apply _.
  - by rewrite merge_sort_Permutation, reverse_Permutation.
Qed.

Lemma halves_sizes a q1 q2 :
  halves a q1 q2 → length a / 2 = length q2 ∧ length q1 = length q2 + (if Nat.odd (length a) then 1 else 0).
Proof.
  intros [Hp _ _ _ Hz]. rewrite <- Hp, length_app. destruct (decide (length q1 = length q2)) as [->|].
  - replace (length q2 + length q2) with (length q2 * 2) by lia. split; [by apply Nat.div_mul|].
    rewrite Nat.odd_mul, andb_false_r. lia.
  - replace (length q2 + length q1) with (1 + length q2 * 2) by lia. split; [by rewrite Nat.div_add by lia|].
    rewrite Nat.odd_add, Nat.odd_mul, andb_false_r. simpl. lia.
Qed.

(** The median of a sorted array. *)
Definition median (s : list Z) : option Z :=
  let n := length s in
  x ← s !! (n / 2);
  if Nat.odd n then Some x else y ← s !! (n / 2 - 1); t ← add32 x y; Some (Z.quot t 2).

Lemma for_each_print (l : list Z) w :
  for_each l (λ x _, print (dec x ++ [SP])) tt w = (Ok tt, say (flat_map (λ x, dec x ++ [SP]) l) w).
Proof.
  revert w. induction l as [|x l IH]; intros w; cbn [for_each flat_map].
  - unfold say. rewrite app_nil_r. by destruct w.
  - rewrite (bind_ok _ _ _ _ _ (print_say _ _)), IH. by rewrite say_say.
Qed.

Lemma show_array_say l w : show_array l w = (Ok tt, say (flat_map (λ x, dec x ++ [SP]) l ++ [LF]) w).
Proof. unfold show_array. rewrite (bind_ok _ _ _ _ _ (for_each_print _ _)), print_say. by rewrite say_say. Qed.

Lemma middle_median a q1 q2 : halves a q1 q2 → middle q1 q2 = median (merge_sort Z.le a).
Proof.
  intros Hh. destruct (halves_sizes _ _ _ Hh) as [H2 H1]. unfold median.
  assert (length (merge_sort Z.le a) = length a) as -> by (by rewrite merge_sort_Permutation).
  rewrite (halves_sorted _ _ _ Hh), H2, (lookup_app_r _ _ (length q2)) by (rewrite length_reverse; lia).
  rewrite length_reverse, Nat.sub_diag. unfold middle. destruct q1 as [|x r1]; [done|]. cbn [lookup list_lookup mbind option_bind].
  destruct (Nat.odd (length a)).
  - by rewrite decide_True by lia.
  - rewrite decide_False by lia. destruct q2 as [|y r2]; [simpl in H1; lia|].
    rewrite reverse_cons, <- app_assoc, lookup_app_r; rewrite length_reverse; [|simpl; lia].
    replace (length (y :: r2) - 1 - length r2) with 0 by (simpl; lia). done.
Qed.

(** ** Property *)

(** C40. [middleNumber] prints the median of the array and its two halves: the
    number in the middle of the sorted array, or the mean (rounded towards
    zero) of the two in the middle, then the upper half in ascending and the
    lower half in descending order.  Each turn exchanges the tops at most
    once, so two rounds of the inner loop are enough. *)
Theorem middleNumber_median fuel a m w :
  1 < fuel → median (merge_sort Z.le a) = Some m →
  let s := merge_sort Z.le a in
  let line l := flat_map (λ x, dec x ++ [SP]) l ++ [LF] in
  middleNumber fuel a w
  = (Ok tt, say (dec m ++ [LF] ++ line (drop (length a / 2) s) ++ line (reverse (take (length a / 2) s))) w).
Proof.
  intros Hf Hm s line. unfold middleNumber.
  destruct (middle_loop_halves fuel a [] [] [] Hf) as (q1 & q2 & -> & Hh).
  { split; [done|constructor|constructor|by intros ? ? ?%elem_of_nil|simpl; lia]. }
  rewrite app_nil_r in Hh. assert (halves a q1 q2) as Ha.
  { destruct Hh. split; try done. rewrite h_perm0. symmetry. apply Permutation_rev. }
  destruct (halves_sizes _ _ _ Ha) as [H2 _]. rewrite <- (middle_median _ _ _ Ha) in Hm.
  cbn [defined]. rewrite (bind_ok (mret _) _ _ _ _ eq_refl), Hm. cbn [defined].
  rewrite (bind_ok (mret _) _ _ _ _ eq_refl), (bind_ok _ _ _ _ _ (print_say _ _)).
  rewrite (bind_ok _ _ _ _ _ (show_array_say _ _)), show_array_say, !say_say, <- !app_assoc.
  unfold s. rewrite (halves_sorted _ _ _ Ha), H2, <- (length_reverse q2), drop_app_length, take_app_length.
  unfold line. by rewrite reverse_involutive, <- !app_assoc.
Qed.

Lemma middleNumber_median_witness :
  middleNumber 2 [5; 1; 4; 2]%Z start
  = (Ok tt, say (B "3" ++ [LF] ++ B "4 5 " ++ [LF] ++ B "2 1 " ++ [LF]) start).
Proof.
  assert (median (merge_sort Z.le [5; 1; 4; 2]%Z) = Some 3%Z) as H by (vm_compute; reflexivity).
  rewrite (middleNumber_median 2 [5; 1; 4; 2]%Z 3%Z start); [vm_compute; reflexivity|lia|exact H].
Defined.
