(* ===== verification/Processes.v ===== *)
(** * Programs with processes

    A kernel for the lessons that fork: processes with their own local state,
    parents, descriptors and signals, and the pipes and the memory they share.  A program
    is a function from the local state of a process (program counter and
    variables, copied by [fork]) to its next action; a step executes the
    action of one process, delivers a signal, or lets the outside send one.
    Process ids are not reused. *)
From S2P Require Import Prelude.

(** What [wait] stores. *)
Inductive wstatus := Exited (code : Z) | Signaled (sig : Z).

Definition SIGINT : Z := 2.
Definition SIGQUIT : Z := 3.
Definition SIGKILL : Z := 9.
Definition SIGSEGV : Z := 11.
Definition SIGALRM : Z := 14.
Definition SIGCHLD : Z := 17.

(** What a descriptor of a process designates. *)
Inductive desc := Tty | PipeR (p : nat) | PipeW (p : nat) | DevNull.
#[export] Instance desc_eq : EqDecision desc.
Proof. solve_decision. Defined.

(** The size up to which a write to a pipe is atomic, and its capacity. *)
Definition PIPE_BUF : Z := 4096.
Definition PIPE_SIZE : Z := 65536.

(** ** Actions *)

(** The next action of a process; the continuations take what the call
    returns.  [Write] to a pipe writes at most [PIPE_BUF] bytes, at once; the
    default action of SIGPIPE ends a process that writes to a pipe without
    readers.  [TryRead] is [Read] from a pipe that does not block.  [OpenNull]
    opens /dev/null.  [Mmap] maps a new shared segment that holds [init]; [Poke] and
    [Peek] access one byte of a segment, and an access beyond its end is a
    fault. *)
Inductive action (L : Type) :=
| Compute (l : L)
| Print (s : bytes) (l : L)
| Fork (k : Z → L)
| Exit (code : Z)
| Waitpid (nohang : bool) (k : Z → option wstatus → L)
| Kill (pid sig : Z) (k : Z → L)
| Pipe (k : Z → Z → Z → L)
| Read (fd : Z) (n : nat) (k : Z → bytes → L)
| TryRead (fd : Z) (n : nat) (k : Z → bytes → L)
| Write (fd : Z) (d : bytes) (k : Z → L)
| OpenNull (k : Z → L)
| Close (fd : Z) (l : L)
| Dup2 (fd fd1 : Z) (l : L)
| Sigprocmask (block : bool) (set : gset Z) (l : L)
| Sigaction (sig : Z) (l : L)
| Sigreturn (sig : Z) (l : L)
| Sigpending (k : gset Z → L)
| Mmap (init : bytes) (k : option nat → L)
| Poke (seg off : nat) (b : ascii) (l : L)
| Peek (seg off : nat) (k : ascii → L).
Arguments Compute {L} l.
Arguments Print {L} s l.
Arguments Fork {L} k.
Arguments Exit {L} code.
Arguments Waitpid {L} nohang k.
Arguments Kill {L} pid sig k.
Arguments Pipe {L} k.
Arguments Read {L} fd n k.
Arguments TryRead {L} fd n k.
Arguments Write {L} fd d k.
Arguments OpenNull {L} k.
Arguments Close {L} fd l.
Arguments Dup2 {L} fd fd1 l.
Arguments Sigprocmask {L} block set l.
Arguments Sigaction {L} sig l.
Arguments Sigreturn {L} sig l.
Arguments Sigpending {L} k.
Arguments Mmap {L} init k.
Arguments Poke {L} seg off b l.
Arguments Peek {L} seg off k.

(** ** The state *)

Inductive pstate (L : Type) := Running (l : L) | Zombie (st : wstatus).
Arguments Running {L} l.
Arguments Zombie {L} st.

Record proc (L : Type) := Proc {
  p_state : pstate L;
  p_ppid : Z;
  p_fds : gmap Z desc;
  p_blocked : gset Z;
  p_pending : gset Z;
  p_caught : gset Z   (* signals with a handler *)
}.
Arguments Proc {L}.
Arguments p_state {L}.
Arguments p_ppid {L}.
Arguments p_fds {L}.
Arguments p_blocked {L}.
Arguments p_pending {L}.
Arguments p_caught {L}.

Record kernel (L : Type) := Kernel {
  procs : gmap Z (proc L);
  pipes : list bytes;
  out : list (Z * bytes)              (* what the processes printed on the terminal *);
  forked : list (Z * Z)               (* parent and child of every fork *);
  reaped : list (Z * Z * wstatus)     (* parent, child and status of every wait *);
  mem : list bytes                    (* the segments of shared memory *)
}.
Arguments Kernel {L}.
Arguments procs {L}.
Arguments pipes {L}.
Arguments out {L}.
Arguments forked {L}.
Arguments reaped {L}.
Arguments mem {L}.

Section processes.
Context {L : Type}.
Implicit Types (k : kernel L) (p : proc L).

Definition set_state (s : pstate L) p : proc L :=
  Proc s p.(p_ppid) p.(p_fds) p.(p_blocked) p.(p_pending) p.(p_caught).
Definition set_ppid (x : Z) p : proc L := Proc p.(p_state) x p.(p_fds) p.(p_blocked) p.(p_pending) p.(p_caught).
Definition set_fds (x : gmap Z desc) p : proc L := Proc p.(p_state) p.(p_ppid) x p.(p_blocked) p.(p_pending) p.(p_caught).
Definition set_blocked (x : gset Z) p : proc L := Proc p.(p_state) p.(p_ppid) p.(p_fds) x p.(p_pending) p.(p_caught).
Definition set_pending (x : gset Z) p : proc L := Proc p.(p_state) p.(p_ppid) p.(p_fds) p.(p_blocked) x p.(p_caught).
Definition set_caught (x : gset Z) p : proc L := Proc p.(p_state) p.(p_ppid) p.(p_fds) p.(p_blocked) p.(p_pending) x.

Definition put (pid : Z) p k : kernel L :=
  Kernel (<[pid := p]> k.(procs)) k.(pipes) k.(out) k.(forked) k.(reaped) k.(mem).
Definition set_procs (m : gmap Z (proc L)) k : kernel L := Kernel m k.(pipes) k.(out) k.(forked) k.(reaped) k.(mem).
Definition set_pipes (x : list bytes) k : kernel L := Kernel k.(procs) x k.(out) k.(forked) k.(reaped) k.(mem).
Definition set_mem (x : list bytes) k : kernel L := Kernel k.(procs) k.(pipes) k.(out) k.(forked) k.(reaped) x.
Definition print_out (pid : Z) (s : bytes) k : kernel L :=
  Kernel k.(procs) k.(pipes) (k.(out) ++ [(pid, s)]) k.(forked) k.(reaped) k.(mem).

Definition go (l : L) p : proc L := set_state (Running l) p.

(** A signal becomes pending. *)
Definition post (sig : Z) p : proc L :=
  match p.(p_state) with Running _ => set_pending ({[sig]} ∪ p.(p_pending)) p | Zombie _ => p end.

(** ** The end of a process *)

(** [pid] ends: it becomes a zombie without descriptors, its children are
    given to [init] (process 1), which collects the dead ones, and its parent
    gets SIGCHLD. *)
Definition orphan (pid : Z) p : proc L := if decide (p.(p_ppid) = pid) then set_ppid 1 p else p.
Definition forgotten (pid : Z) p : bool :=
  match p.(p_state) with Zombie _ => bool_decide (p.(p_ppid) = pid) | _ => false end.
Definition inherit (pid : Z) p : option (proc L) := if forgotten pid p then None else Some (orphan pid p).
Definition terminate (pid : Z) (st : wstatus) k : kernel L :=
  match k.(procs) !! pid with
  | Some p =>
      let m := omap (inherit pid) k.(procs) in
      let m := if decide (p.(p_ppid) = 1%Z) then delete pid m
               else <[pid := Proc (Zombie st) p.(p_ppid) ∅ ∅ ∅ ∅]> m in
      set_procs (alter (post SIGCHLD) p.(p_ppid) m) k
  | None => k
  end.

(** ** Pipes *)

Definition holds (d : desc) p : bool := bool_decide (map_Exists (λ _ x, x = d) p.(p_fds)).
(** Some process has the descriptor open. *)
Definition open_somewhere (d : desc) k : bool := bool_decide (map_Exists (λ _ p, holds d p = true) k.(procs)).

(** The lowest free descriptor. *)
Fixpoint lowest_free (fuel : nat) (fd : Z) (m : gmap Z desc) : Z :=
  match fuel with
  | 0 => fd
  | S fuel => match m !! fd with None => fd | Some _ => lowest_free fuel (fd + 1)%Z m end
  end.
Definition free_fd (m : gmap Z desc) : Z := lowest_free (size m) 0 m.

(** ** Steps *)

Variable code : Z → Z → L → action L.    (* pid, ppid, local state *)
Variable handler : Z → L → L.            (* the entry of the handler, returning to the local state *)

(** The action of process [pid]; [o] is the id [fork] gives a child, or a
    number that is not positive when it fails, the child [wait] picks, and is
    negative when [pipe], [open] or [mmap] fails. *)
Definition perform (pid o : Z) (p : proc L) (a : action L) (k : kernel L) : option (kernel L) :=
  match a with
  | Compute l => Some (put pid (go l p) k)
  | Print s l => Some (print_out pid s (put pid (go l p) k))
  | Fork c =>
      if decide (0 < o)%Z then
        if decide ((1 < o)%Z ∧ (o ∉ dom k.(procs)) ∧ (o ∉ map snd k.(forked))) then
          let child := Proc (Running (c 0%Z)) pid p.(p_fds) p.(p_blocked) ∅ p.(p_caught) in
          Some (Kernel (<[o := child]> (<[pid := go (c o) p]> k.(procs))) k.(pipes) k.(out)
                  (k.(forked) ++ [(pid, o)]) k.(reaped) k.(mem))
        else None
      else Some (put pid (go (c (-1)%Z) p) k)
  | Exit code => Some (terminate pid (Exited code) k)
  | Waitpid nohang c =>
      match k.(procs) !! o with
      | Some (Proc (Zombie st) ppid _ _ _ _) =>
          if decide (ppid = pid) then
            Some (Kernel (delete o (<[pid := go (c o (Some st)) p]> k.(procs))) k.(pipes) k.(out) k.(forked)
                    (k.(reaped) ++ [(pid, o, st)]) k.(mem))
          else None
      | _ => None
      end
  | Kill target sig c =>
      match k.(procs) !! target with
      | Some _ => Some (set_procs (alter (post sig) target (<[pid := go (c 0%Z) p]> k.(procs))) k)
      | None => Some (put pid (go (c (-1)%Z) p) k)
      end
  | Pipe c =>
      if decide (o < 0)%Z then Some (put pid (go (c (-1)%Z 0%Z 0%Z) p) k) else
      let r := free_fd p.(p_fds) in
      let fds := <[r := PipeR (length k.(pipes))]> p.(p_fds) in
      let w := free_fd fds in
      Some (set_pipes (k.(pipes) ++ [[]]) (put pid (go (c 0%Z r w) (set_fds (<[w := PipeW (length k.(pipes))]> fds) p)) k))
  | Read fd n c =>
      match p.(p_fds) !! fd with
      | Some (PipeR x) =>
          match k.(pipes) !! x with
          | Some [] => if open_somewhere (PipeW x) k then None else Some (put pid (go (c 0%Z []) p) k)
          | Some d =>
              Some (set_pipes (<[x := drop n d]> k.(pipes))
                      (put pid (go (c (Z.of_nat (length (take n d))) (take n d)) p) k))
          | None => None
          end
      | Some DevNull => Some (put pid (go (c 0%Z []) p) k)
      | _ => Some (put pid (go (c (-1)%Z []) p) k)
      end
  | TryRead fd n c =>
      match p.(p_fds) !! fd with
      | Some (PipeR x) =>
          match k.(pipes) !! x with
          | Some [] => Some (put pid (go (c (if open_somewhere (PipeW x) k then -1 else 0)%Z []) p) k)
          | Some d =>
              Some (set_pipes (<[x := drop n d]> k.(pipes))
                      (put pid (go (c (Z.of_nat (length (take n d))) (take n d)) p) k))
          | None => None
          end
      | Some DevNull => Some (put pid (go (c 0%Z []) p) k)
      | _ => Some (put pid (go (c (-1)%Z []) p) k)
      end
  | Write fd d c =>
      match p.(p_fds) !! fd with
      | Some Tty => Some (print_out pid d (put pid (go (c (Z.of_nat (length d))) p) k))
      | Some (PipeW x) =>
          match k.(pipes) !! x with
          | Some b =>
              if open_somewhere (PipeR x) k then
                if decide (Z.of_nat (length b + length d) ≤ PIPE_SIZE)%Z
                then Some (set_pipes (<[x := b ++ d]> k.(pipes)) (put pid (go (c (Z.of_nat (length d))) p) k))
                else None
              else Some (terminate pid (Signaled 13) k)
          | None => None
          end
      | Some DevNull => Some (put pid (go (c (Z.of_nat (length d))) p) k)
      | _ => Some (put pid (go (c (-1)%Z) p) k)
      end
  | OpenNull c =>
      if decide (o < 0)%Z then Some (put pid (go (c (-1)%Z) p) k) else
      let fd := free_fd p.(p_fds) in Some (put pid (go (c fd) (set_fds (<[fd := DevNull]> p.(p_fds)) p)) k)
  | Close fd l => Some (put pid (go l (set_fds (delete fd p.(p_fds)) p)) k)
  | Dup2 fd fd1 l =>
      Some (put pid (go l (set_fds (match p.(p_fds) !! fd with Some d => <[fd1 := d]> p.(p_fds) | None => p.(p_fds) end) p)) k)
  | Sigprocmask block set l =>
      Some (put pid (go l (set_blocked (if (block : bool) then set ∪ p.(p_blocked) else p.(p_blocked) ∖ set) p)) k)
  | Sigaction sig l => Some (put pid (go l (set_caught ({[sig]} ∪ p.(p_caught)) p)) k)
  | Sigreturn sig l => Some (put pid (go l (set_blocked (p.(p_blocked) ∖ {[sig]}) p)) k)
  | Sigpending c => Some (put pid (go (c p.(p_pending)) p) k)
  | Mmap init c =>
      if decide (o < 0)%Z then Some (put pid (go (c None) p) k)
      else Some (set_mem (k.(mem) ++ [init]) (put pid (go (c (Some (length k.(mem)))) p) k))
  | Poke seg off b l =>
      match k.(mem) !! seg with
      | Some m =>
          if decide (off < length m) then Some (set_mem (<[seg := <[off := b]> m]> k.(mem)) (put pid (go l p) k))
          else Some (terminate pid (Signaled SIGSEGV) k)
      | None => Some (terminate pid (Signaled SIGSEGV) k)
      end
  | Peek seg off c =>
      match k.(mem) !! seg ≫= lookup off with
      | Some b => Some (put pid (go (c b) p) k)
      | None => Some (terminate pid (Signaled SIGSEGV) k)
      end
  end.

(** [waitpid] without a dead child: -1 when there is no child, 0 when the
    caller does not want to wait. *)
Definition no_child (pid : Z) (p : proc L) (a : action L) (k : kernel L) : option (kernel L) :=
  match a with
  | Waitpid nohang c =>
      if decide (map_Exists (λ _ q, p_ppid q = pid) k.(procs)) then
        if decide (map_Exists (λ _ q, p_ppid q = pid ∧ forgotten pid q = true) k.(procs)) then None
        else if (nohang : bool) then Some (put pid (go (c 0%Z None) p) k) else None
      else Some (put pid (go (c (-1)%Z None) p) k)
  | _ => None
  end.

(** The choice of the scheduler for [pid]: [Some o] performs its action with
    the answer [o], [None] is the failure of [waitpid]. *)
Definition run_proc (pid : Z) (o : option Z) (k : kernel L) : option (kernel L) :=
  match k.(procs) !! pid with
  | Some p =>
      match p.(p_state) with
      | Running l =>
          let a := code pid p.(p_ppid) l in
          match o with Some o => perform pid o p a k | None => no_child pid p a k end
      | Zombie _ => None
      end
  | None => None
  end.

(** A pending signal that is not blocked reaches the process: its handler
    runs with the signal blocked, or, by default, SIGCHLD is ignored and
    every other signal ends the process. *)
Definition deliver (pid sig : Z) (k : kernel L) : option (kernel L) :=
  match k.(procs) !! pid with
  | Some p =>
      match p.(p_state) with
      | Running l =>
          if decide (sig ∈ p.(p_pending) ∧ sig ∉ p.(p_blocked)) then
            let p := set_pending (p.(p_pending) ∖ {[sig]}) p in
            if decide (sig ∈ p.(p_caught)) then
              Some (put pid (go (handler sig l) (set_blocked ({[sig]} ∪ p.(p_blocked)) p)) k)
            else if (sig =? SIGCHLD)%Z then Some (put pid p k)
            else Some (terminate pid (Signaled sig) k)
          else None
      | Zombie _ => None
      end
  | None => None
  end.

(** The signals the outside may send. *)
Variable outside : Z → Z → bool.
Definition send (pid sig : Z) (k : kernel L) : option (kernel L) :=
  if outside pid sig && bool_decide (is_Some (k.(procs) !! pid))
  then Some (set_procs (alter (post sig) pid k.(procs)) k) else None.

Inductive choice := Run (pid : Z) (o : option Z) | Deliver (pid sig : Z) | Send (pid sig : Z).
Definition choose (c : choice) (k : kernel L) : option (kernel L) :=
  match c with
  | Run pid o => run_proc pid o k
  | Deliver pid sig => deliver pid sig k
  | Send pid sig => send pid sig k
  end.

Definition pstep k k' : Prop := ∃ c, choose c k = Some k'.
Definition preach : kernel L → kernel L → Prop := rtc pstep.

(** A schedule; choices that cannot run are skipped. *)
Definition schedule (cs : list choice) k : kernel L := foldl (λ k c, default k (choose c k)) k cs.

(** A process that is not a child of [pid] does not notice its end. *)
Lemma inherit_other pid p : p.(p_ppid) ≠ pid → inherit pid p = Some p.
Proof.
  intros H. unfold inherit, forgotten, orphan. rewrite decide_False by done.
  destruct (p_state p); [done|]. by rewrite bool_decide_eq_false_2.
Qed.

(** The end of a process without children. *)
Lemma terminate_leaf pid p st k :
  k.(procs) !! pid = Some p → p.(p_ppid) ≠ 1%Z → (∀ x q, k.(procs) !! x = Some q → q.(p_ppid) ≠ pid) →
  terminate pid st k
  = set_procs (alter (post SIGCHLD) p.(p_ppid) (<[pid := Proc (Zombie st) p.(p_ppid) ∅ ∅ ∅ ∅]> k.(procs))) k.
Proof.
  intros Hp H1 Hl. unfold terminate. rewrite Hp, decide_False by done. f_equal. f_equal.
  assert (omap (inherit pid) k.(procs) = k.(procs)) as ->; [|done].
  apply map_eq. intros x. rewrite lookup_omap. destruct (procs k !! x) as [q|] eqn:E; [|done].
  cbn. apply inherit_other. by eapply Hl.
Qed.

(** What is left of the processes when one ends. *)
Lemma terminate_survivors k pid p st x q :
  k.(procs) !! pid = Some p → procs (terminate pid st k) !! x = Some q → x ≠ pid →
  ∃ q0, k.(procs) !! x = Some q0 ∧ q.(p_state) = q0.(p_state)
    ∧ (x ≠ p.(p_ppid) → q.(p_pending) = q0.(p_pending))
    ∧ q.(p_ppid) = (if decide (q0.(p_ppid) = pid) then 1%Z else q0.(p_ppid)).
Proof.
  intros Hp Hx Hne. unfold terminate in Hx. rewrite Hp in Hx. cbn [procs set_procs] in Hx.
  assert (∀ (m : gmap Z (proc L)) y, (if decide (p.(p_ppid) = 1%Z) then delete pid m else <[pid := y]> m) !! x = m !! x) as Hm.
  { intros m y. case_decide; [by apply lookup_delete_ne|by apply lookup_insert_ne]. }
  assert (∀ q1, omap (inherit pid) k.(procs) !! x = Some q1 →
    ∃ q0, k.(procs) !! x = Some q0 ∧ q1 = orphan pid q0) as Ho.
  { intros q1. rewrite lookup_omap. destruct (procs k !! x) as [q0|]; [|done]. cbn. unfold inherit.
    destruct (forgotten pid q0); [done|]. intros [= <-]. by exists q0. }
  destruct (decide (x = p.(p_ppid))) as [->|Hxp].
  - rewrite lookup_alter_eq, Hm in Hx. apply fmap_Some in Hx as (q1 & H1 & ->). apply Ho in H1 as (q0 & H0 & ->).
    exists q0. split; [done|]. unfold post, orphan. repeat case_decide; cbn; destruct (p_state q0) eqn:E; cbn; by rewrite ?E.
  - rewrite lookup_alter_ne, Hm in Hx by done. apply Ho in Hx as (q0 & H0 & ->).
    exists q0. split; [done|]. unfold orphan. destruct (decide (p_ppid q0 = pid)); by split_and!.
Qed.

Lemma schedule_reach cs k : preach k (schedule cs k).
Proof.
  revert k. induction cs as [|c cs IH]; intros k; [apply rtc_refl|]. simpl.
  unfold preach in *. etransitivity; [|apply IH].
  destruct (choose c k) eqn:E; [apply rtc_once; by exists c|apply rtc_refl].
Qed.

(** Safety: what holds at the start and is kept by every step. *)
Lemma preach_invariant (P : kernel L → Prop) k0 k :
  preach k0 k → P k0 → (∀ k k', P k → pstep k k' → P k') → P k.
Proof. intros H. induction H; eauto. Qed.
End processes.
