(* ===== verification/Pipes.v ===== *)
(** * Pipes between a parent and its child: lesson22

    parent-child-ipc.c and case.c run another program with its output
    redirected into a pipe, and print what they read from it; pipe.c lets the
    two processes write to each other through one pipe. *)
From S2P Require Import Prelude CString Processes.

(** The descriptors a process starts with. *)
Definition std_fds : gmap Z desc := {[0%Z := Tty; 1%Z := Tty; 2%Z := Tty]}.

(** A program started by a shell, itself started by [init]. *)
Definition history (pid shell : Z) : list (Z * Z) := [(1%Z, shell); (shell, pid)].
Definition first_proc {L} (pid shell : Z) (l : L) : kernel L :=
  Kernel {[pid := Proc (Running l) shell std_fds ∅ ∅ ∅]} [] [] (history pid shell) [] [].

(** ** parent-child-ipc.c and case.c *)
Module Ipc.

(** The statements of [main], of the child, and of the program it executes,
    which writes [ws] to its standard output. *)
Inductive local :=
| Start | PipeError | Forking (r w : Z) | Branch (r w pid : Z) | ForkError | Bye
| PClose (r w : Z) | PRead (r : Z) | PPrint (r : Z) (buf : bytes) | PWait
| CClose (r w : Z) | CDup (w : Z) | CExec | CError
| Image (ws : list bytes).

Section ipc.
(** What [execlp] finds: a program that makes these writes, or nothing. *)
Variable image : option (list bytes).
(** parent-child-ipc.c reports a failing [execlp]; case.c does not. *)
Variable reports : bool.

Definition code (pid ppid : Z) (l : local) : action local :=
  match l with
  | Start => Pipe (λ ret r w, if (ret =? -1)%Z then PipeError else Forking r w)
  | PipeError => Write 2 (B "pipe: Too many open files" ++ [LF]) (λ _, Bye)
  | Forking r w => Fork (Branch r w)
  | Branch r w pid =>
      Compute (if (0 <? pid)%Z then PClose r w else if (pid =? 0)%Z then CClose r w else ForkError)
  | ForkError => Write 2 (B "fork: Resource temporarily unavailable" ++ [LF]) (λ _, Bye)
  | Bye => Exit 0
  | PClose r w => Close w (PRead r)
  | PRead r => Read r 1023 (λ len d, if (0 <? len)%Z then PPrint r d else PWait)
  | PPrint r buf => Print (upto buf) (PRead r)
  | PWait => Waitpid false (λ _ _, Bye)
  | CClose r w => Close r (CDup w)
  | CDup w => Dup2 w 1 CExec
  | CExec => Compute match image with Some ws => Image ws | None => CError end
  | CError =>
      if reports then Write 2 (B "execlp: No such file or directory" ++ [LF]) (λ _, Bye) else Compute Bye
  | Image (d :: ws) => Write 1 d (λ _, Image ws)
  | Image [] => Exit 0
  end.

Definition reach (parent shell : Z) : kernel local → Prop :=
  preach code (λ _ l, l) (λ _ _, false) (first_proc parent shell Start).
End ipc.
End Ipc.

(** ** pipe.c *)
Module PipeC.

Inductive local :=
| Start | PipeError | Forking (r w : Z) | Branch (r w pid : Z) | Return
| Hello (who : string) (r w : Z)
| PRead (r w : Z) | PPrint (r w : Z) (buf : bytes) | PWrite (r w : Z)
| CWrite (r w : Z) | CRead (r w : Z) | CPrint (r w : Z) (buf : bytes).

(** The line a process prints for what it received. *)
Definition recv_line (who : string) (buf : bytes) (pid : Z) : bytes :=
  B who ++ B " recv : " ++ upto buf ++ B ", pid : " ++ dec pid ++ [LF].

Definition code (pid ppid : Z) (l : local) : action local :=
  match l with
  | Start => Pipe (λ ret r w, if (ret =? -1)%Z then PipeError else Forking r w)
  | PipeError => Write 2 (B "pipe: Too many open files" ++ [LF]) (λ _, Return)
  | Forking r w => Fork (Branch r w)
  | Branch r w pid =>
      Compute (if (0 <? pid)%Z then Hello "parent" r w else if (pid =? 0)%Z then Hello "child" r w else Return)
  | Return => Exit 0
  | Hello who r w =>
      Print (B "i am " ++ B who ++ B " process, pid : " ++ dec pid ++ [LF])
        (if String.eqb who "parent" then PRead r w else CWrite r w)
  | PRead r w => Read r 1024 (λ _ d, PPrint r w d)
  | PPrint r w buf => Print (recv_line "parent" buf pid) (PWrite r w)
  | PWrite r w => Write w (B "hello,i am parent") (λ _, PRead r w)
  | CWrite r w => Write w (B "hello,i am child") (λ _, CRead r w)
  | CRead r w => Read r 1024 (λ _ d, CPrint r w d)
  | CPrint r w buf => Print (recv_line "child" buf pid) (CWrite r w)
  end.
End PipeC.

(** ** noblock.c: the parent does not wait for data *)
Module Noblock.

Inductive local :=
| Start | PipeError | Forking (r w : Z) | Branch (r w pid : Z) | Return
| PHello (r w : Z) | PClose (r w : Z) | PFlags (r : Z) | PRead (r : Z) | PLen (r len : Z) (buf : bytes) | PRecv (r : Z) (buf : bytes)
| Overrun
| CHello (r w : Z) | CClose (r w : Z) | CWrite (w : Z).

(** The size of [buf], which is zeroed before every read. *)
Definition BUF : nat := 1024.

(** After [fcntl] the reads do not block.  A text that fills the buffer has no
    terminator. *)
Definition code (pid ppid : Z) (l : local) : action local :=
  match l with
  | Start => Pipe (λ ret r w, if (ret =? -1)%Z then PipeError else Forking r w)
  | PipeError => Write 2 (B "pipe: Too many open files" ++ [LF]) (λ _, Return)
  | Forking r w => Fork (Branch r w)
  | Branch r w pid => Compute (if (0 <? pid)%Z then PHello r w else if (pid =? 0)%Z then CHello r w else Return)
  | Return => Exit 0
  | PHello r w => Print (B "i am parent process, pid : " ++ dec pid ++ [LF]) (PClose r w)
  | PClose r w => Close w (PFlags r)
  | PFlags r => Compute (PRead r)
  | PRead r => TryRead r BUF (PLen r)
  | PLen r len buf =>
      Print (B "len : " ++ dec len ++ [LF])
        (if decide (length buf < BUF ∨ NUL ∈ buf) then PRecv r buf else Overrun)
  | PRecv r buf => Print (PipeC.recv_line "parent" buf pid) (PRead r)
  | Overrun => Compute Overrun                      (* undefined *)
  | CHello r w => Print (B "i am child process, pid : " ++ dec pid ++ [LF]) (CClose r w)
  | CClose r w => Close r (CWrite w)
  | CWrite w => Write w (B "hello,i am child") (λ _, CWrite w)
  end.
End Noblock.

(** ** fpathconf.c: [_PC_PIPE_BUF] of a pipe *)
Module FpathConf.
Inductive local := Start | Size (ret : Z) | Return.
(** On a descriptor that is not open the result is -1. *)
Definition code (pid ppid : Z) (l : local) : action local :=
  match l with
  | Start => Pipe (λ ret r w, Size ret)
  | Size ret => Print (B "pipe size : " ++ dec (if (ret =? -1)%Z then -1 else PIPE_BUF) ++ [LF]) Return
  | Return => Exit 0
  end.
End FpathConf.
