(* ===== verification/PipesProofs.v ===== *)
(** * Properties of the pipes of lesson22 *)
From S2P Require Import Prelude CString Processes Pipes.

(** ** A parent and its child *)

Section two.
Context {L : Type}.
Implicit Types (p : proc L) (k : kernel L).

(** The process table of a parent and a child. *)
Definition family (a c : Z) p q : gmap Z (proc L) := <[a := p]> {[c := q]}.

Lemma family_parent a c p q : family a c p q !! a = Some p.
Proof. apply lookup_insert_eq. Qed.
Lemma family_child a c p q : a ≠ c → family a c p q !! c = Some q.
Proof. intros H. unfold family. by rewrite lookup_insert_ne, lookup_singleton_eq. Qed.
Lemma family_other a c p q x y : family a c p q !! x = Some y → x = a ∧ y = p ∨ x = c ∧ y = q.
Proof.
  unfold family. intros [[<- <-]|[_ [<- <-]%lookup_singleton_Some]]%lookup_insert_Some; auto.
Qed.

Lemma family_put_parent a c p q p' : <[a := p']> (family a c p q) = family a c p' q.
Proof. apply insert_insert_eq. Qed.
Lemma family_put_child a c p q q' : a ≠ c → <[c := q']> (family a c p q) = family a c p q'.
Proof. intros H. unfold family. rewrite insert_insert_ne by done. by rewrite insert_singleton_eq. Qed.
Lemma family_reap a c p q p' : a ≠ c → delete c (<[a := p']> (family a c p q)) = {[a := p']}.
Proof.
  intros H. rewrite family_put_parent. unfold family. rewrite delete_insert_ne by done. by rewrite delete_singleton_eq.
Qed.

(** The child ends: a zombie, and a signal for the parent. *)
Lemma terminate_child a c p q st k :
  k.(procs) = family a c p q → a ≠ c → p_ppid p ≠ c → p_ppid q = a → a ≠ 1%Z →
  terminate c st k = set_procs (family a c (post SIGCHLD p) (Proc (Zombie st) a ∅ ∅ ∅ ∅)) k.
Proof.
  intros Hk Hac Hp Hq Ha. unfold terminate. rewrite Hk, family_child by done. rewrite Hq, decide_False by done.
  f_equal. apply map_eq. intros x. destruct (decide (x = a)) as [->|Hxa].
  - rewrite lookup_alter_eq, lookup_insert_ne, lookup_omap, !family_parent by done. cbn [mbind option_bind].
    by rewrite inherit_other.
  - rewrite lookup_alter_ne by done. destruct (decide (x = c)) as [->|Hxc].
    + by rewrite lookup_insert_eq, family_child.
    + rewrite lookup_insert_ne, lookup_omap by done. unfold family. rewrite !lookup_insert_ne by done.
      by rewrite !lookup_singleton_ne.
Qed.

(** The last process ends. *)
Lemma terminate_alone a p st k :
  k.(procs) = {[a := p]} → p_ppid p ≠ a → p_ppid p ≠ 1%Z →
  terminate a st k = set_procs {[a := Proc (Zombie st) (p_ppid p) ∅ ∅ ∅ ∅]} k.
Proof.
  intros Hk Hp H1. unfold terminate. rewrite Hk, lookup_singleton_eq, decide_False by done. f_equal.
  apply map_eq. intros x. destruct (decide (x = p_ppid p)) as [->|Hx].
  - rewrite lookup_alter_eq, lookup_insert_ne, lookup_omap by done. by rewrite !lookup_singleton_ne.
  - rewrite lookup_alter_ne by done. destruct (decide (x = a)) as [->|Hxa].
    + by rewrite lookup_insert_eq, lookup_singleton_eq.
    + rewrite lookup_insert_ne, lookup_omap by done. by rewrite !lookup_singleton_ne.
Qed.

Lemma open_family d a c p q k :
  k.(procs) = family a c p q → a ≠ c → open_somewhere d k = holds d p || holds d q.
Proof.
  intros Hk Hac. unfold open_somewhere. rewrite Hk. apply eq_true_iff_eq. rewrite bool_decide_eq_true, orb_true_iff.
  unfold family. rewrite map_Exists_insert by (by rewrite lookup_singleton_ne). by rewrite map_Exists_singleton.
Qed.

Lemma open_alone d a p k : k.(procs) = {[a := p]} → open_somewhere d k = holds d p.
Proof.
  intros Hk. unfold open_somewhere. rewrite Hk. apply eq_true_iff_eq. by rewrite bool_decide_eq_true, map_Exists_singleton.
Qed.
End two.

(** ** parent-child-ipc.c and case.c *)

Section ipc.
Import Ipc.
Variables (image : option (list bytes)) (reports : bool) (P sh : Z).
Hypothesis P_pid : (1 < P)%Z.
Hypothesis sh_pid : (1 < sh)%Z ∧ sh ≠ P.

(** What the executed program writes, and where the descriptors are. *)
Definition total : bytes := concat (default [] image).
Definition both : gmap Z desc := <[4%Z := PipeW 0]> (<[3%Z := PipeR 0]> std_fds).
Definition reading : gmap Z desc := delete 4%Z both.
Definition writing : gmap Z desc := delete 3%Z both.
Definition redirected : gmap Z desc := <[1%Z := PipeW 0]> writing.

(** The statements of the parent once it has a child [c], with its
    descriptors; [held] is what it has read and not yet printed. *)
Inductive parent_at (c : Z) : local → gmap Z desc → Prop :=
| at_branch : parent_at c (Branch 3 4 c) both
| at_close : parent_at c (PClose 3 4) both
| at_read : parent_at c (PRead 3) reading
| at_print d : parent_at c (PPrint 3 d) reading
| at_wait : parent_at c PWait reading.
Definition held (l : local) : bytes := match l with PPrint _ d => d | _ => [] end.

(** The statements of the child, with its descriptors and what it has still
    to write. *)
Inductive child_at : local → gmap Z desc → bytes → Prop :=
| child_branch : child_at (Branch 3 4 0) both total
| child_close : child_at (CClose 3 4) both total
| child_dup : child_at (CDup 4) writing total
| child_exec : child_at CExec redirected total
| child_error : child_at CError redirected []
| child_bye : child_at Bye redirected []
| child_image ws : (∀ x, x ∈ ws → x ∈ default [] image) → child_at (Image ws) redirected (concat ws).

(** The state of the child: running, or dead. *)
Definition child_is (q : proc local) (todo : bytes) : Prop :=
  (∃ l fds, q = Proc (Running l) P fds ∅ ∅ ∅ ∧ child_at l fds todo)
  ∨ q = Proc (Zombie (Exited 0)) P ∅ ∅ ∅ ∅ ∧ todo = [].

Definition printed (k : kernel local) : bytes := concat (map snd (filter (λ e, e.1 = P) k.(out))).

Definition parent (l : local) (fds : gmap Z desc) (pend : gset Z) : proc local := Proc (Running l) sh fds ∅ pend ∅.

(** The statements after a failing [pipe] or [fork]. *)
Definition failing (l : local) : Prop := l = PipeError ∨ l = Branch 3 4 (-1) ∨ l = ForkError ∨ l = Bye.

Inductive ipc_inv (k : kernel local) : Prop :=
| inv_start :
    k = first_proc P sh Start → ipc_inv k
| inv_forking :
    k = Kernel {[P := parent (Forking 3 4) both ∅]} [[]] [] (history P sh) [] [] → ipc_inv k
| inv_failed l fds :
    k.(procs) = {[P := parent l fds ∅]} → fds !! 2%Z = Some Tty → failing l →
    Forall (λ b, b = []) k.(pipes) → k.(forked) = history P sh → k.(reaped) = [] → ipc_inv k
| inv_two c l fds pend q b todo :
    k.(procs) = family P c (parent l fds pend) q → P ≠ c → sh ≠ c → (0 < c)%Z → pend ⊆ {[SIGCHLD]} →
    k.(pipes) = [b] → k.(forked) = history P sh ++ [(P, c)] → k.(reaped) = [] →
    (Z.of_nat (length b) ≤ PIPE_SIZE)%Z → parent_at c l fds → child_is q todo →
    printed k ++ held l ++ b ++ todo = total →
    (l = PWait → b = [] ∧ q = Proc (Zombie (Exited 0)) P ∅ ∅ ∅ ∅) → ipc_inv k
| inv_reaped c pend :
    k.(procs) = {[P := parent Bye reading pend]} → pend ⊆ {[SIGCHLD]} →
    k.(pipes) = [[]] → k.(forked) = history P sh ++ [(P, c)] → k.(reaped) = [(P, c, Exited 0)] →
    printed k = total → ipc_inv k
| inv_ended :
    k.(procs) = {[P := Proc (Zombie (Exited 0)) sh ∅ ∅ ∅ ∅]} → Forall (λ b, b = []) k.(pipes) →
    (k.(forked) = history P sh ∧ k.(reaped) = []
     ∨ ∃ c, k.(forked) = history P sh ++ [(P, c)] ∧ k.(reaped) = [(P, c, Exited 0)] ∧ printed k = total) →
    ipc_inv k.

Hypothesis plain : Forall (Forall nonNUL) (default [] image).

Lemma total_nonNUL x y : x ++ y = total → Forall nonNUL y.
Proof.
  intros H. assert (Forall nonNUL (x ++ y)) as Hf; [|by apply Forall_app in Hf as [_ ?]].
  rewrite H. unfold total. by apply Forall_concat.
Qed.

(** The parent's steps, with its child. *)
Lemma ipc_parent_step c l fds pend q b todo k o k' :
  k.(procs) = family P c (parent l fds pend) q → P ≠ c → sh ≠ c → (0 < c)%Z → pend ⊆ {[SIGCHLD]} →
  k.(pipes) = [b] → k.(forked) = history P sh ++ [(P, c)] → k.(reaped) = [] →
  (Z.of_nat (length b) ≤ PIPE_SIZE)%Z → parent_at c l fds → child_is q todo →
  printed k ++ held l ++ b ++ todo = total →
  (l = PWait → b = [] ∧ q = Proc (Zombie (Exited 0)) P ∅ ∅ ∅ ∅) →
  run_proc (code image reports) P o k = Some k' → ipc_inv k'.
Proof.
  intros Hk Hc Hs Hc0 Hp Hb Hf Hr Hsz Hl Hq Ht Hw E. unfold run_proc in E. rewrite Hk, family_parent in E.
  cbn [p_state p_ppid parent] in E. destruct o as [o|].
  2:{ destruct Hl; cbn [code no_child] in E; try done. destruct (Hw eq_refl) as [-> ->].
      rewrite decide_True in E. 2:{ exists c, (Proc (Zombie (Exited 0)) P ∅ ∅ ∅ ∅). by rewrite Hk, family_child. }
      rewrite decide_True in E; [done|]. exists c, (Proc (Zombie (Exited 0)) P ∅ ∅ ∅ ∅).
      rewrite Hk, family_child by done. unfold forgotten. cbn [p_ppid p_state]. by rewrite bool_decide_eq_true_2. }
  destruct Hl; cbn [code perform] in E.
  - (* the branch *)
    rewrite (proj2 (Z.ltb_lt 0 c) Hc0) in E. injection E as <-.
    eapply (inv_two _ c (PClose 3 4) both pend q b todo); try done; [|constructor].
    cbn [procs put]. by rewrite Hk, family_put_parent.
  - injection E as <-. eapply (inv_two _ c (PRead 3) reading pend q b todo); try done; [|constructor].
    cbn [procs put]. by rewrite Hk, family_put_parent.
  - (* read *)
    change (p_fds (parent (PRead 3) reading pend) !! 3%Z) with (Some (PipeR 0)) in E. cbv beta iota in E.
    rewrite Hb in E. cbn [lookup list_lookup] in E. destruct b as [|x b].
    + rewrite (open_family _ _ _ _ _ _ Hk Hc) in E. destruct (_ || _)%bool eqn:Eo; [done|]. injection E as <-.
      destruct Hq as [(lq & fq & -> & Hcl)|[-> ->]].
      { exfalso. apply orb_false_iff in Eo as [_ Eo]. by destruct Hcl. }
      eapply (inv_two _ c PWait reading pend _ [] []); try done; [|constructor|by right].
      cbn [procs put]. by rewrite Hk, family_put_parent.
    + injection E as <-.
      eapply (inv_two _ c (PPrint 3 (x :: take 1022 b)) reading pend q (drop 1022 b) todo); try done; [| |constructor|].
      * cbn [procs put set_pipes]. by rewrite Hk, family_put_parent.
      * simpl in Hsz. rewrite length_drop. lia.
      * rewrite <- Ht. unfold printed. cbn [out set_pipes put held app]. by rewrite (app_assoc (take _ _)), take_drop.
  - (* print *)
    injection E as <-. eapply (inv_two _ c (PRead 3) reading pend q b todo); try done; [|constructor|].
    { cbn [procs put print_out]. by rewrite Hk, family_put_parent. }
    cbn [held app] in *. rewrite <- Ht. unfold printed. cbn [out print_out put].
    rewrite filter_app, map_app, concat_app. rewrite filter_cons_True by done. cbn [map concat snd]. 
    assert (Forall nonNUL d) as Hd.
    { apply total_nonNUL in Ht. by apply Forall_app in Ht as [? _]. }
    rewrite (upto_nonNUL _ Hd). rewrite filter_nil. cbn. by rewrite app_nil_r, <- app_assoc.
  - (* wait *)
    destruct (Hw eq_refl) as [-> ->]. destruct (procs k !! o) as [[[|st] ppid ? ? ? ?]|] eqn:Eo; try done.
    rewrite Hk in Eo. apply family_other in Eo as [[-> [=]]|[-> Eo]]. injection Eo as -> -> -> -> -> ->.
    rewrite decide_True in E by done. injection E as <-.
    eapply (inv_reaped _ c pend); cbn; try done.
    + rewrite Hk. by apply family_reap.
    + by rewrite Hr.
    + destruct Hq as [(? & ? & [=] & _)|[_ ->]]. cbn in Ht. by rewrite !app_nil_r in Ht.
Qed.

Lemma post_parent l fds pend : post SIGCHLD (parent l fds pend) = parent l fds ({[SIGCHLD]} ∪ pend).
Proof. done. Qed.

(** The parent keeps the reading end open while its child lives. *)
Lemma parent_reads c l fds pend : parent_at c l fds → holds (PipeR 0) (parent l fds pend) = true.
Proof. by destruct 1. Qed.

Lemma printed_other k x s : x ≠ P → printed (print_out x s k) = printed k.
Proof.
  intros H. unfold printed. cbn [out print_out]. rewrite filter_app, filter_cons_False, filter_nil by (cbn; congruence).
  by rewrite app_nil_r.
Qed.

Lemma ipc_child_step c l fds pend lq fq b todo k o k' :
  let q := Proc (Running lq) P fq ∅ ∅ ∅ in
  k.(procs) = family P c (parent l fds pend) q → P ≠ c → sh ≠ c → (0 < c)%Z → pend ⊆ {[SIGCHLD]} →
  k.(pipes) = [b] → k.(forked) = history P sh ++ [(P, c)] → k.(reaped) = [] →
  (Z.of_nat (length b) ≤ PIPE_SIZE)%Z → parent_at c l fds → child_at lq fq todo →
  printed k ++ held l ++ b ++ todo = total → l ≠ PWait →
  run_proc (code image reports) c o k = Some k' → ipc_inv k'.
Proof.
  intros q Hk Hc Hs Hc0 Hp Hb Hf Hr Hsz Hl Hq Ht Hw E. unfold run_proc in E. rewrite Hk, family_child in E by done.
  cbn [p_state p_ppid q] in E. destruct o as [o|].
  2:{ destruct Hq; try done. - cbn [code] in E. by destruct reports. - by destruct ws. }
  assert (∀ lq' fq' todo', k' = put c (Proc (Running lq') P fq' ∅ ∅ ∅) k → child_at lq' fq' todo' → todo' = todo → ipc_inv k')
    as Hmove.
  { intros lq' fq' todo' -> Hq' ->. eapply (inv_two _ c l fds pend _ b todo); try done.
    - cbn [procs put]. rewrite Hk. by apply family_put_child.
    - left. eauto. }
  assert (terminate c (Exited 0) k = k' → todo = [] → ipc_inv k') as Hend.
  { intros <- ->. rewrite (terminate_child P c _ _ (Exited 0) k Hk Hc) by (done || lia).
    eapply (inv_two _ c l fds _ _ b []); try done; [set_solver|by right]. }
  destruct Hq; cbn [code perform] in E.
  - injection E as <-. (eapply Hmove; [reflexivity|constructor|done]).
  - injection E as <-. (eapply Hmove; [reflexivity|constructor|done]).
  - injection E as <-. (eapply Hmove; [reflexivity|constructor|done]).
  - injection E as <-. destruct image as [ws|] eqn:Ei.
    + eapply Hmove; [reflexivity|constructor; by rewrite Ei|by unfold total; rewrite Ei].
    + eapply Hmove; [reflexivity|constructor|by unfold total; rewrite Ei].
  - destruct reports; cbn [perform] in E; [|injection E as <-; (eapply Hmove; [reflexivity|constructor|done])].
    change (p_fds q !! 2%Z) with (Some Tty) in E. cbv beta iota in E. injection E as <-.
    eapply (inv_two _ c l fds pend _ b []); try done.
    + cbn [procs put print_out]. rewrite Hk. by apply family_put_child.
    + left. eexists _, _. split; [done|constructor].
    + by rewrite printed_other.
  - injection E as E. by apply Hend.
  - destruct ws as [|d ws]; cbn [perform] in E; [injection E as E; by apply Hend|].
    change (p_fds q !! 1%Z) with (Some (PipeW 0)) in E. cbv beta iota in E. rewrite Hb in E. cbn [lookup list_lookup] in E.
    rewrite (open_family _ _ _ _ _ _ Hk Hc), (parent_reads _ _ _ _ Hl) in E. cbn [orb] in E.
    case_decide as Hd; [|done]. injection E as <-.
    eapply (inv_two _ c l fds pend _ (b ++ d) (concat ws)); try done.
    + cbn [procs put set_pipes]. rewrite Hk. by apply family_put_child.
    + by rewrite length_app.
    + left. eexists _, _. split; [done|]. constructor. intros x Hx. apply H. by right.
    + rewrite <- Ht. unfold printed. cbn [out set_pipes put concat]. by rewrite <- !app_assoc.
Qed.

(** Signals: only SIGCHLD is ever pending, and it is ignored. *)
Lemma deliver_two c l fds pend q b todo k pid sig k' :
  k.(procs) = family P c (parent l fds pend) q → P ≠ c → sh ≠ c → (0 < c)%Z → pend ⊆ {[SIGCHLD]} →
  k.(pipes) = [b] → k.(forked) = history P sh ++ [(P, c)] → k.(reaped) = [] →
  (Z.of_nat (length b) ≤ PIPE_SIZE)%Z → parent_at c l fds → child_is q todo →
  printed k ++ held l ++ b ++ todo = total →
  (l = PWait → b = [] ∧ q = Proc (Zombie (Exited 0)) P ∅ ∅ ∅ ∅) →
  deliver (λ _ l, l) pid sig k = Some k' → ipc_inv k'.
Proof.
  intros Hk Hc Hs Hc0 Hp Hb Hf Hr Hsz Hl Hq Ht Hw E. unfold deliver in E.
  destruct (procs k !! pid) as [p|] eqn:Ep; [|done]. rewrite Hk in Ep.
  apply family_other in Ep as [[-> ->]|[-> ->]].
  - cbn [p_state parent] in E. case_decide as Hd; [|done]. cbn [p_pending p_caught] in E, Hd.
    assert (sig = SIGCHLD) as -> by set_solver. rewrite decide_False in E by set_solver.
    cbn in E. injection E as <-.
    eapply (inv_two _ c l fds (pend ∖ {[SIGCHLD]}) q b todo); try done; [|set_solver].
    cbn [procs put]. rewrite Hk. apply family_put_parent.
  - destruct Hq as [(lq & fq & -> & _)|[-> _]]; cbn in E; [|done]. by rewrite decide_False in E by set_solver.
Qed.

(** A single process: only its own action, or an ignored signal. *)
Lemma deliver_alone (p : proc local) pend pid sig k k' :
  k.(procs) = {[P := p]} → p.(p_pending) = pend → pend ⊆ {[SIGCHLD]} → p.(p_caught) = ∅ →
  deliver (λ _ l, l) pid sig k = Some k' →
  SIGCHLD ∈ pend ∧ (∃ l, p.(p_state) = Running l) ∧ k' = put P (set_pending (pend ∖ {[SIGCHLD]}) p) k.
Proof.
  intros Hk Hpe Hp Hca E. unfold deliver in E. rewrite Hk in E.
  destruct (_ !! pid) as [x|] eqn:Ex; [|done]. apply lookup_singleton_Some in Ex as [<- <-].
  destruct (p_state p) as [l|]; [|done]. case_decide as Hd; [|done]. rewrite Hpe in *.
  assert (sig = SIGCHLD) as -> by set_solver. cbn [p_caught set_pending] in E. rewrite Hca, decide_False in E by set_solver.
  cbn in E. injection E as <-. split; [by destruct Hd|]. split; [by exists l|done].
Qed.

Lemma run_alone p pid o k k' :
  k.(procs) = {[P := p]} → run_proc (code image reports) pid o k = Some k' →
  pid = P ∧ ∃ l, p.(p_state) = Running l
    ∧ match o with Some o => perform P o p (code image reports P p.(p_ppid) l) k
      | None => no_child P p (code image reports P p.(p_ppid) l) k end = Some k'.
Proof.
  intros Hk E. unfold run_proc in E. rewrite Hk in E. destruct (_ !! pid) as [x|] eqn:Ex; [|done].
  apply lookup_singleton_Some in Ex as [<- <-]. split; [done|]. destruct (p_state p) as [l|]; [|done]. by exists l.
Qed.

Lemma put_alone (p p' : proc local) k : k.(procs) = {[P := p]} → procs (put P p' k) = {[P := p']}.
Proof. intros H. cbn. rewrite H. apply insert_singleton_eq. Qed.

Lemma ipc_fork_step o k' :
  let k := Kernel {[P := parent (Forking 3 4) both ∅]} [[]] [] (history P sh) [] [] in
  perform P o (parent (Forking 3 4) both ∅) (Fork (Branch 3 4)) k = Some k' → ipc_inv k'.
Proof.
  intros k E. cbn [perform] in E. case_decide as Ho.
  - case_decide as Hd; [|done]. destruct Hd as (Ho1 & Hdom & Hfor). injection E as <-.
    cbn [procs k] in Hdom. rewrite dom_singleton in Hdom. cbn [forked k map history snd] in Hfor.
    assert (P ≠ o) as HPo by (intros ->; by apply Hdom, elem_of_singleton).
    assert (sh ≠ o) as Hso by (intros ->; apply Hfor; left).
    eapply (inv_two _ o (Branch 3 4 o) both ∅ (Proc (Running (Branch 3 4 0)) P both ∅ ∅ ∅) [] total);
      cbn [procs pipes forked reaped k];
      [|done|done|done|apply empty_subseteq|done|done|done|done|constructor
       |left; eexists _, _; split; [done|constructor]|done|done].
    unfold family. rewrite insert_singleton_eq. by apply insert_insert_ne.
  - injection E as <-. eapply (inv_failed _ (Branch 3 4 (-1)) both); [by apply put_alone with (p := parent (Forking 3 4) both ∅)|done|by right; left
      |by constructor|done|done].
Qed.

(** The steps while the parent is alone. *)
Lemma alone_step pid o k k' :
  (k = first_proc P sh Start
   ∨ k = Kernel {[P := parent (Forking 3 4) both ∅]} [[]] [] (history P sh) [] []) →
  run_proc (code image reports) pid o k = Some k' → ipc_inv k'.
Proof.
  intros [->| ->] E.
  - apply (run_alone (Proc (Running Start) sh std_fds ∅ ∅ ∅)) in E as (-> & l & [= <-] & E); [|done].
    destruct o as [o|]; [|done]. cbn [code perform] in E. case_decide.
    { injection E as <-. eapply (inv_failed _ PipeError std_fds); [by eapply put_alone|done|by left|by constructor|done|done]. }
    injection E as <-. apply inv_forking.
    unfold set_pipes, put. cbn [procs first_proc pipes out forked reaped]. by rewrite insert_singleton_eq.
  - apply (run_alone (parent (Forking 3 4) both ∅)) in E as (-> & l & [= <-] & E); [|done].
    destruct o as [o|]; [|done]. by apply ipc_fork_step in E.
Qed.

Lemma failed_step l fds pid o k k' :
  k.(procs) = {[P := parent l fds ∅]} → fds !! 2%Z = Some Tty → failing l →
  Forall (λ b, b = []) k.(pipes) → k.(forked) = history P sh → k.(reaped) = [] →
  run_proc (code image reports) pid o k = Some k' → ipc_inv k'.
Proof.
  intros Hk H2 Hl Hb Hf Hr E. apply (run_alone _ _ _ _ _ Hk) in E as (-> & l' & [= <-] & E).
  assert (∀ l', failing l' → ipc_inv (put P (go l' (parent l fds ∅)) k)) as Hput.
  { intros l' Hl'. eapply (inv_failed _ l' fds); try done. by eapply put_alone. }
  destruct o as [o|]; [|by destruct Hl as [->|[->|[->| ->]]]]. destruct Hl as [->|[->|[->| ->]]]; cbn [code perform] in E.
  - cbn [p_fds parent] in E. rewrite H2 in E. injection E as <-. eapply (inv_failed _ Bye fds); try done;
      [by eapply put_alone|by right; right; right].
  - injection E as <-. apply Hput. by right; right; left.
  - cbn [p_fds parent] in E. rewrite H2 in E. injection E as <-. eapply (inv_failed _ Bye fds); try done;
      [by eapply put_alone|by right; right; right].
  - injection E as <-. rewrite (terminate_alone P _ _ k Hk) by (cbn; lia). apply inv_ended; [done|done|]. by left.
Qed.

Lemma reaped_step c pend pid o k k' :
  k.(procs) = {[P := parent Bye reading pend]} → pend ⊆ {[SIGCHLD]} →
  k.(pipes) = [[]] → k.(forked) = history P sh ++ [(P, c)] → k.(reaped) = [(P, c, Exited 0)] → printed k = total →
  run_proc (code image reports) pid o k = Some k' → ipc_inv k'.
Proof.
  intros Hk Hp Hb Hf Hr Ht E. apply (run_alone _ _ _ _ _ Hk) in E as (-> & l' & [= <-] & E).
  destruct o as [o|]; [|done]. cbn [code perform] in E. injection E as <-.
  rewrite (terminate_alone P _ _ k Hk) by (cbn; lia). apply inv_ended; [done|by rewrite <- ?Hb; cbn; rewrite Hb; constructor|]. right. by exists c.
Qed.

Lemma ipc_step k k' : ipc_inv k → pstep (code image reports) (λ _ l, l) (λ _ _, false) k k' → ipc_inv k'.
Proof.
  intros Hi [[pid o|pid sig|pid sig] E]; cbn [choose] in E; [| |done].
  - destruct Hi as [->| ->|l fds Hk H2 Hl Hb Hf Hr|c l fds pend q b todo Hk Hc Hs Hc0 Hp Hb Hf Hr Hsz Hl Hq Ht Hw|c pend Hk|Hk _ _].
    + by apply (alone_step pid o (first_proc P sh Start)); [left|].
    + eapply alone_step; [by right|exact E].
    + by eapply failed_step.
    + assert (pid = P ∨ pid = c) as [->| ->].
      { unfold run_proc in E. rewrite Hk in E. destruct (_ !! pid) eqn:Ep; [|done].
        apply family_other in Ep as [[-> _]|[-> _]]; auto. }
      * by eapply ipc_parent_step.
      * destruct Hq as [(lq & fq & -> & Hq)|[-> ->]].
        -- eapply ipc_child_step; eauto. intros ->. by destruct (Hw eq_refl) as [_ [=]].
        -- unfold run_proc in E. rewrite Hk, family_child in E by done. done.
    + by eapply reaped_step.
    + by apply (run_alone _ _ _ _ _ Hk) in E as (_ & l & [=] & _).
  - destruct Hi as [->| ->|l fds Hk H2 Hl Hb Hf Hr|c l fds pend q b todo Hk|c pend Hk Hp Hb Hf Hr Ht|Hk Hb Ho].
    + eapply deliver_alone in E as (Hin & _); [|reflexivity|reflexivity|apply empty_subseteq|done]. by apply not_elem_of_empty in Hin.
    + eapply deliver_alone in E as (Hin & _); [|reflexivity|reflexivity|apply empty_subseteq|done]. by apply not_elem_of_empty in Hin.
    + eapply deliver_alone in E as (Hin & _); [|exact Hk|reflexivity|apply empty_subseteq|done]. by apply not_elem_of_empty in Hin.
    + by eapply deliver_two.
    + eapply deliver_alone in E as (_ & _ & ->); [|exact Hk|reflexivity|done|done].
      eapply (inv_reaped _ c (pend ∖ {[SIGCHLD]})); try done; [|set_solver]. by eapply put_alone.
    + by apply (deliver_alone _ _ _ _ _ _ Hk eq_refl (empty_subseteq _) eq_refl) in E as (_ & (l & [=]) & _).
Qed.

Lemma ipc_reach_inv k : reach image reports P sh k → ipc_inv k.
Proof. intros H. eapply (preach_invariant _ _ _ ipc_inv); [exact H|by apply inv_start|intros ? ?; apply ipc_step]. Qed.

(** *** Progress *)

Lemma run_enabled pid p l k o k' :
  k.(procs) !! pid = Some p → p.(p_state) = Running l →
  perform pid o p (code image reports pid p.(p_ppid) l) k = Some k' →
  ∃ k', pstep (code image reports) (λ _ l, l) (λ _ _, false) k k'.
Proof. intros Hk Hl E. exists k', (Run pid (Some o)). cbn [choose]. unfold run_proc. by rewrite Hk, Hl. Qed.

Hypothesis short : Forall (λ d, (Z.of_nat (length d) ≤ PIPE_BUF)%Z) (default [] image).

(** A running child can act on an empty pipe. *)
Lemma child_runs c l fds pend lq fq todo k :
  k.(procs) = family P c (parent l fds pend) (Proc (Running lq) P fq ∅ ∅ ∅) → P ≠ c → k.(pipes) = [[]] →
  parent_at c l fds → child_at lq fq todo → ∃ k', pstep (code image reports) (λ _ l, l) (λ _ _, false) k k'.
Proof.
  intros Hk Hc Hb Hl Hq. eassert (procs k !! c = _) as Hkc by (by rewrite Hk, family_child).
  destruct Hq; try (eapply (run_enabled c _ _ k 0 _ Hkc eq_refl); cbn [code perform]; reflexivity).
  - assert (∃ k', perform c 0 (Proc (Running CError) P redirected ∅ ∅ ∅) (code image reports c P CError) k = Some k')
      as [k' E] by (cbn [code]; destruct reports; by eexists).
    by eapply (run_enabled c _ _ k 0 _ Hkc).
  - destruct ws as [|d ws]; [eapply (run_enabled c _ _ k 0 _ Hkc eq_refl); cbn [code perform]; reflexivity|].
    eapply (run_enabled c _ _ k 0 _ Hkc eq_refl). cbn [code perform p_fds].
    change (redirected !! 1%Z) with (Some (PipeW 0)). cbv beta iota. rewrite Hb. cbn [lookup list_lookup].
    rewrite (open_family _ _ _ _ _ _ Hk Hc), (parent_reads _ _ _ _ Hl). cbn [orb].
    rewrite decide_True; [reflexivity|]. assert (d ∈ default [] image) as Hd by (apply H; left).
    eapply Forall_forall in short; [|exact Hd]. cbn [length plus]. unfold PIPE_BUF, PIPE_SIZE in *. lia.
Qed.

Lemma ipc_progress k p l :
  ipc_inv k → k.(procs) !! P = Some p → p.(p_state) = Running l →
  ∃ k', pstep (code image reports) (λ _ l, l) (λ _ _, false) k k'.
Proof.
  intros Hi Hp Hl.
  destruct Hi as [->| ->|m fds Hk H2 Hm Hb Hf Hr|c m fds pend q b todo Hk Hc Hs Hc0 Hpe Hb Hf Hr Hsz Hm Hq Ht Hw|c pend Hk|Hk _ _].
  - eapply (run_enabled P _ Start _ 0); [apply lookup_singleton_eq|done|reflexivity].
  - eapply (run_enabled P _ (Forking 3 4) _ 0); [apply lookup_singleton_eq|done|reflexivity].
  - assert (procs k !! P = Some (parent m fds ∅)) as HkP by (by rewrite Hk, lookup_singleton_eq).
    destruct Hm as [->|[->|[->| ->]]]; (eapply (run_enabled P _ _ _ 0 _ HkP); [reflexivity|]);
      cbn [code perform p_fds parent]; rewrite ?H2; reflexivity.
  - eassert (procs k !! P = Some (parent m fds pend)) as HkP by (by rewrite Hk, family_parent).
    destruct Hm; try (eapply (run_enabled P _ _ k 0 _ HkP eq_refl); cbn [code perform]; reflexivity).
    + destruct b as [|x b].
      * destruct Hq as [(lq & fq & -> & Hq)|[-> ->]]; [eapply child_runs; eauto; constructor|].
        eapply (run_enabled P _ _ k 0 _ HkP eq_refl). cbn [code perform p_fds parent].
        change (reading !! 3%Z) with (Some (PipeR 0)). cbv beta iota. rewrite Hb. cbn [lookup list_lookup].
        rewrite (open_family _ _ _ _ _ _ Hk Hc). reflexivity.
      * eapply (run_enabled P _ _ k 0 _ HkP eq_refl). cbn [code perform p_fds parent].
        change (reading !! 3%Z) with (Some (PipeR 0)). cbv beta iota. rewrite Hb. reflexivity.
    + destruct (Hw eq_refl) as [_ ->]. eapply (run_enabled P _ _ k c _ HkP eq_refl). cbn [code perform].
      rewrite Hk, family_child by done. rewrite decide_True by done. reflexivity.
  - eapply (run_enabled P (parent Bye reading pend) Bye _ 0); [by rewrite Hk, lookup_singleton_eq|done|reflexivity].
  - rewrite Hk, lookup_singleton_eq in Hp. by injection Hp as <-.
Qed.
End ipc.

Ltac one_pipe Hb :=
  first [rewrite Hb; intros x Hin; by apply list_elem_of_singleton in Hin as ->
        |intros x Hin; eapply Forall_forall in Hb; [|exact Hin]; by rewrite Hb].

(** ** Properties *)

(** C32. The pipe relays the output of the executed program, under every
    interleaving of the two processes: what the parent has printed is always
    a prefix of what the program writes, and the pipe never holds more than
    its capacity; while the parent runs, some process can take a step; and
    when it has ended, unless [pipe] or [fork] failed, it has printed exactly the whole
    output and collected its child, of which nothing is left. *)
Theorem ipc_relays image reports P sh k :
  (1 < P)%Z → (1 < sh)%Z ∧ sh ≠ P → Forall (Forall nonNUL) (default [] image) →
  Forall (λ d, (Z.of_nat (length d) ≤ PIPE_BUF)%Z) (default [] image) →
  Ipc.reach image reports P sh k →
  (k.(forked) = history P sh ∨ printed P k `prefix_of` concat (default [] image))
  ∧ (∀ b, b ∈ k.(pipes) → (Z.of_nat (length b) ≤ PIPE_SIZE)%Z)
  ∧ (∀ p l, k.(procs) !! P = Some p → p.(p_state) = Running l →
       ∃ k', pstep (Ipc.code image reports) (λ _ l, l) (λ _ _, false) k k')
  ∧ (∀ p st, k.(procs) !! P = Some p → p.(p_state) = Zombie st →
       st = Exited 0 ∧ dom k.(procs) = {[P]}
       ∧ (k.(forked) = history P sh
          ∨ printed P k = concat (default [] image) ∧ ∃ c, k.(reaped) = [(P, c, Exited 0)])).
Proof.
  intros H1 H2 H3 H4 H. pose proof (ipc_reach_inv image reports P sh H1 H2 H3 k H) as Hi.
  split; [|split; [|split; [intros p l; by apply (ipc_progress image reports P sh H4)|]]];
    destruct Hi as [->| ->|l fds Hk ? Hl Hb Hf Hr|c l fds pend q b todo Hk ? ? ? ? Hb ? ? ? ? ? Ht ?|c pend Hk ? Hb ? Hr Ht
                   |Hk Hb [[Hf Hr]|(c & ? & Hr & Ht)]]; auto.
  - right. unfold total in Ht. rewrite <- Ht. by eexists.
  - right. by rewrite Ht.
  - right. by rewrite Ht.
  - intros b Hin. by apply elem_of_nil in Hin.
  - intros b Hin. by apply list_elem_of_singleton in Hin as ->.
  - one_pipe Hb.
  - one_pipe Hb.
  - one_pipe Hb.
  - one_pipe Hb.
  - one_pipe Hb.
  - intros p st. unfold first_proc. cbn [procs]. by intros [_ <-]%lookup_singleton_Some.
  - intros p st. cbn [procs]. by intros [_ <-]%lookup_singleton_Some.
  - rewrite Hk. by intros p st [_ <-]%lookup_singleton_Some.
  - rewrite Hk. intros p st Hp. rewrite family_parent in Hp. by injection Hp as <-.
  - rewrite Hk. by intros p st [_ <-]%lookup_singleton_Some.
  - rewrite Hk, dom_singleton_L. intros p st [_ <-]%lookup_singleton_Some [= <-]. split_and!; [done|done|by left].
  - rewrite Hk, dom_singleton_L. intros p st [_ <-]%lookup_singleton_Some [= <-]. split_and!; [done|done|]. right. split; [done|by exists c].
Qed.

(** A run: the child writes two blocks, the parent prints them and collects
    it. *)
Definition sample_image : option (list bytes) := Some [B "PID TTY" ++ [LF]; B "1 pts/0" ++ [LF]].
Definition relay_schedule : list choice :=
  [Run 100 (Some 0); Run 100 (Some 101); Run 101 (Some 0); Run 101 (Some 0); Run 101 (Some 0); Run 101 (Some 0);
   Run 100 (Some 0); Run 100 (Some 0); Run 101 (Some 0); Run 100 (Some 0); Run 100 (Some 0); Run 101 (Some 0);
   Run 101 (Some 0); Deliver 100 SIGCHLD; Run 100 (Some 0); Run 100 (Some 0); Run 100 (Some 0);
   Run 100 (Some 101); Run 100 (Some 0)]%Z.
Definition relayed : kernel Ipc.local :=
  schedule (Ipc.code sample_image true) (λ _ l, l) (λ _ _, false) relay_schedule (first_proc 100 99 Ipc.Start).

Lemma ipc_relays_witness :
  ∃ p, relayed.(procs) !! 100%Z = Some p ∧ p.(p_state) = Zombie (Exited 0)
    ∧ (relayed.(forked) = history 100 99
       ∨ printed 100 relayed = concat (default [] sample_image) ∧ ∃ c, relayed.(reaped) = [(100%Z, c, Exited 0)]).
Proof.
  destruct (ipc_relays sample_image true 100 99 relayed) as (_ & _ & _ & H);
    [lia|lia|repeat constructor; discriminate|repeat constructor; discriminate|apply schedule_reach|].
  eexists. split; [vm_compute; reflexivity|]. split; [reflexivity|].
  eapply H; [vm_compute; reflexivity|reflexivity].
Defined.

(** pipe.c: with both ends open in both processes, a process can read back
    what it has written itself. *)
Lemma pipe_reads_own :
  (100%Z, PipeC.recv_line "parent" (B "hello,i am parent") 100)
  ∈ (schedule PipeC.code (λ _ l, l) (λ _ _, false)
       [Run 100 (Some 0); Run 100 (Some 101); Run 101 (Some 0); Run 101 (Some 0); Run 101 (Some 0); Run 100 (Some 0);
        Run 100 (Some 0); Run 100 (Some 0); Run 100 (Some 0); Run 100 (Some 0); Run 100 (Some 0); Run 100 (Some 0)]%Z
       (first_proc 100 99 PipeC.Start)).(out).
Proof. apply (bool_decide_unpack _). vm_compute. exact I. Qed.

(** ** noblock.c on schedules *)

Definition noblock_run (turns : list choice) : kernel Noblock.local :=
  schedule Noblock.code (λ _ l, l) (λ _ _, false)
    ([Run 100 (Some 0); Run 100 (Some 101); Run 100 (Some 0); Run 100 (Some 0); Run 100 (Some 0); Run 100 (Some 0);
      Run 101 (Some 0); Run 101 (Some 0); Run 101 (Some 0)] ++ turns)%Z (first_proc 100 99 Noblock.Start).

(** An empty pipe gives -1, and the message arrives whole; a parent that has not
    read for 64 messages fills its buffer, and prints it without a terminator. *)
Lemma noblock_reads :
  map snd (noblock_run (replicate 3 (Run 100 (Some 0)) ++ [Run 101 (Some 0)] ++ replicate 3 (Run 100 (Some 0)))%Z).(out)
  = [B "i am parent process, pid : 100" ++ [LF]; B "i am child process, pid : 101" ++ [LF];
     B "len : -1" ++ [LF]; PipeC.recv_line "parent" [] 100; B "len : 16" ++ [LF]; PipeC.recv_line "parent" (B "hello,i am child") 100]
  ∧ p_state <$> (noblock_run (replicate 64 (Run 101 (Some 0)) ++ replicate 2 (Run 100 (Some 0)))%Z).(procs) !! 100%Z
    = Some (Running Noblock.Overrun).
Proof. split; vm_compute; reflexivity. Qed.

(** fpathconf.c prints the size up to which writes to the pipe are atomic. *)
Lemma fpathconf_prints :
  map snd (schedule FpathConf.code (λ _ l, l) (λ _ _, false) (replicate 3 (Run 100 (Some 0)))%Z (first_proc 100 99 FpathConf.Start)).(out)
  = [B "pipe size : 4096" ++ [LF]].
Proof. vm_compute. reflexivity. Qed.
