(* ===== verification/Chat.v ===== *)
(** * chatA.c and chatB.c of lesson24, together

    Two processes and two named pipes.  Opening a pipe waits for the other end,
    reading an empty one waits for data, so that the two programs can wait for
    each other for ever: a program is a tree of system calls, and a step of the
    pair is one call of one of them. *)
From S2P Require Import Prelude CString Processes Pipes Posix.

(** ** Programs *)

(** The continuations take what the call returns.  [Await] is an [open] that has
    registered its end as descriptor [fd] and waits for the other one; [Again] is
    the head of [while(1)], whose body takes the two descriptors. *)
Inductive program :=
| Access (name : string) (c : Z → program)
| Mkfifo (name : string) (c : Z → program)
| Open (name : string) (writing : bool) (c : Z → program)
| Await (other : desc) (fd : Z) (c : Z → program)
| Fgets (buf : bytes) (n : nat) (c : bytes → program)
| Write (fd : Z) (d : bytes) (c : Z → program)
| Read (fd : Z) (buf : bytes) (n : nat) (c : Z → bytes → program)
| Printf (s : bytes) (p : program)
| Perror (s : string) (p : program)
| Exit (code : Z)
| Again (fdw fdr : Z)
| Undefined.

(** *** The text of the programs *)

(** The pipe [name] is created unless it exists. *)
Definition ensure (name : string) (missing created exists_ : bytes) (next : program) : program :=
  Access name (λ ret,
    if (ret =? -1)%Z then
      Printf (missing ++ [LF])
        (Mkfifo name (λ ret,
          if (ret =? -1)%Z then Perror "mkfifo" (Exit 0) else Printf (created ++ [LF]) next))
    else Printf (exists_ ++ [LF]) next).

Definition opening (name : string) (writing : bool) (message : bytes) (next : Z → program) : program :=
  Open name writing (λ fd,
    if (fd =? -1)%Z then Perror ("open " +:+ name) (Exit 0) else Printf (message ++ [LF]) (next fd)).

(** [memset(buf, 0, 128); fgets(buf, 128, stdin); write(fdw, buf, strlen(buf));] *)
Definition say (fdw : Z) (next : program) : program :=
  Fgets (replicate 128 NUL) 128 (λ buf,
    match cstr buf with
    | Some s => Write fdw s (λ ret, if (ret =? -1)%Z then Perror "write" (Exit 0) else next)
    | None => Undefined
    end).

(** [memset(buf, 0, 128); read(fdr, buf, 128); printf(who, buf);] *)
Definition hear (who : bytes) (fdr : Z) (next : program) : program :=
  Read fdr (replicate 128 NUL) 128 (λ ret buf,
    if (ret <=? 0)%Z then Perror "read" (Exit 0)
    else match cstr buf with Some s => Printf (who ++ s ++ [LF]) next | None => Undefined end).

Inductive side := SideA | SideB.

(** The bodies of the loops: A speaks and then listens, B listens and then
    speaks. *)
Definition body (s : side) (fdw fdr : Z) : program :=
  match s with
  | SideA => say fdw (hear (B "B: ") fdr (Again fdw fdr))
  | SideB => hear (B "A: ") fdr (say fdw (Again fdw fdr))
  end.

Definition chatA_main : program :=
  ensure "fifo1" (B "fifo1管道文件不存在，创建管道文件") (B "fifo1管道文件创建成功") (B "fifo1管道文件已存在,开始进程")
  (ensure "fifo2" (B "fifo2管道文件不存在，创建管道文件") (B "fifo2管道文件创建成功") (B "fifo2管道文件已存在,开始进程")
  (opening "fifo1" true (B "打开fifo1成功，等待写入数据") (λ fdw,
   opening "fifo2" false (B "打开fifo2成功，等待读取") (λ fdr,
   Again fdw fdr)))).

Definition chatB_main : program :=
  ensure "fifo1" (B "fifo1管道文件不存在，创建管道文件") (B "管道文件创建成功") (B "fifo1管道文件已存在,开始进程")
  (ensure "fifo2" (B "fifo2管道文件不存在，创建管道文件") (B "fifo2管道文件创建成功") (B "fifo2管道文件已存在,开始进程")
  (opening "fifo1" false (B "打开fifo1成功，等待读取") (λ fdr,
   opening "fifo2" true (B "打开fifo2成功，等待写入数据") (λ fdw,
   Again fdw fdr)))).

(** ** The pair *)

Record process := Process {
  p_prog : program;
  p_fds : gmap Z desc;
  p_stdin : bytes          (* what the user is still going to type, then end-of-file *);
  p_out : bytes;
  p_err : list string
}.

Record pair := Pair {
  k_files : gmap string nat      (* the named pipes *);
  k_bufs : list bytes            (* their contents *);
  k_A : process;
  k_B : process
}.

Definition at_side (s : side) (k : pair) : process := match s with SideA => k.(k_A) | SideB => k.(k_B) end.
Definition put (s : side) (p : process) (k : pair) : pair :=
  match s with
  | SideA => Pair k.(k_files) k.(k_bufs) p k.(k_B)
  | SideB => Pair k.(k_files) k.(k_bufs) k.(k_A) p
  end.
Definition set_bufs (b : list bytes) (k : pair) : pair := Pair k.(k_files) b k.(k_A) k.(k_B).
Definition set_files (f : gmap string nat) (k : pair) : pair := Pair f k.(k_bufs) k.(k_A) k.(k_B).

Definition goto (c : program) (p : process) : process := Process c p.(p_fds) p.(p_stdin) p.(p_out) p.(p_err).
Definition set_fds (m : gmap Z desc) (p : process) : process := Process p.(p_prog) m p.(p_stdin) p.(p_out) p.(p_err).
Definition set_stdin (i : bytes) (p : process) : process := Process p.(p_prog) p.(p_fds) i p.(p_out) p.(p_err).
Definition print (s : bytes) (p : process) : process := Process p.(p_prog) p.(p_fds) p.(p_stdin) (p.(p_out) ++ s) p.(p_err).
Definition complain (s : string) (p : process) : process := Process p.(p_prog) p.(p_fds) p.(p_stdin) p.(p_out) (p.(p_err) ++ [s]).

(** Some process holds the end [d] of a pipe. *)
Definition held (d : desc) (k : pair) : bool :=
  bool_decide (map_Exists (λ _ x, x = d) k.(k_A).(p_fds)) || bool_decide (map_Exists (λ _ x, x = d) k.(k_B).(p_fds)).

(** What [fgets] takes from the input with room for [n] characters: up to the
    end of the line; and what it leaves. *)
Fixpoint fgets_take (n : nat) (i : bytes) : bytes * bytes :=
  match n, i with
  | S n, c :: i => if Ascii.eqb c LF then ([c], i) else let '(l, r) := fgets_take n i in (c :: l, r)
  | _, _ => ([], i)
  end.

Definition ends (x : nat) (writing : bool) : desc * desc := if writing then (PipeW x, PipeR x) else (PipeR x, PipeW x).

(** The next system call of side [s]; [None] when it has to wait, has ended or is
    undefined.  [open] fails for a missing pipe only; a write of nothing has no
    effect; SIGPIPE ends a process that writes to a pipe without readers (the shell
    shows 141). *)
Definition call (s : side) (k : pair) : option pair :=
  let p := at_side s k in
  match match p.(p_prog) with Again fdw fdr => body s fdw fdr | c => c end with
  | Access name c => Some (put s (goto (c (if k.(k_files) !! name is Some _ then 0 else -1)%Z) p) k)
  | Mkfifo name c =>
      match k.(k_files) !! name with
      | Some _ => Some (put s (goto (c (-1)%Z) p) k)
      | None =>
          Some (set_bufs (k.(k_bufs) ++ [[]]) (set_files (<[name := length k.(k_bufs)]> k.(k_files)) (put s (goto (c 0%Z) p) k)))
      end
  | Open name writing c =>
      match k.(k_files) !! name with
      | Some x =>
          let fd := free_fd p.(p_fds) in
          let '(mine, other) := ends x writing in
          Some (put s (goto (Await other fd c) (set_fds (<[fd := mine]> p.(p_fds)) p)) k)
      | None => Some (put s (goto (c (-1)%Z) p) k)
      end
  | Await other fd c => if held other k then Some (put s (goto (c fd) p) k) else None
  | Fgets buf n c =>
      match p.(p_stdin) with
      | [] => Some (put s (goto (c buf) p) k)
      | i => let '(l, r) := fgets_take (n - 1) i in Some (put s (goto (c (fill (l ++ [NUL]) buf)) (set_stdin r p)) k)
      end
  | Write fd d c =>
      match p.(p_fds) !! fd with
      | Some (PipeW x) =>
          match d, k.(k_bufs) !! x with
          | [], _ => Some (put s (goto (c 0%Z) p) k)
          | _, Some b =>
              if held (PipeR x) k then
                if decide (Z.of_nat (length b + length d) ≤ PIPE_SIZE)%Z
                then Some (set_bufs (<[x := b ++ d]> k.(k_bufs)) (put s (goto (c (Z.of_nat (length d))) p) k))
                else None
              else Some (put s (goto (Exit 141) (set_fds ∅ p)) k)
          | _, None => None
          end
      | _ => Some (put s (goto (c (-1)%Z) p) k)
      end
  | Read fd buf n c =>
      match p.(p_fds) !! fd with
      | Some (PipeR x) =>
          match k.(k_bufs) !! x with
          | Some [] => if held (PipeW x) k then None else Some (put s (goto (c 0%Z buf) p) k)
          | Some d =>
              Some (set_bufs (<[x := drop n d]> k.(k_bufs))
                      (put s (goto (c (Z.of_nat (length (take n d))) (fill (take n d) buf)) p) k))
          | None => None
          end
      | _ => Some (put s (goto (c (-1)%Z buf) p) k)
      end
  | Printf t c => Some (put s (goto c (print t p)) k)
  | Perror t c => Some (put s (goto c (complain t p)) k)
  | Exit _ => if decide (p.(p_fds) = ∅) then None else Some (put s (set_fds ∅ p) k)
  | Again _ _ | Undefined => None
  end.

Definition step (k k' : pair) : Prop := ∃ s, call s k = Some k'.

(** The calls of a schedule, when all of them can be made. *)
Fixpoint calls (ss : list side) (k : pair) : option pair :=
  match ss with [] => Some k | s :: ss => call s k ≫= calls ss end.

(** The side waits in [read]. *)
Definition listening (s : side) (k : pair) : Prop :=
  match match p_prog (at_side s k) with Again fdw fdr => body s fdw fdr | c => c end with
  | Read _ _ _ _ => call s k = None
  | _ => False
  end.

(** The two programs are started in a directory with the pipes [f], which
    nobody has open; the users are going to type [a] and [b]. *)
Definition started (f : gmap string nat) (n : nat) (a b : bytes) : pair :=
  Pair f (replicate n []) (Process chatA_main Pipes.std_fds a [] []) (Process chatB_main Pipes.std_fds b [] []).
Definition both_pipes : gmap string nat := {["fifo1" := 0; "fifo2" := 1]}.
