(* ===== verification/ChatProofs.v ===== *)
(** * The two chat programs understand each other

    Each program goes through its calls in one order only, so a state of the pair
    is given by the two positions; the calls that wait relate them. *)
From S2P Require Import Prelude CString Processes Pipes Posix Chat.

(** ** What is typed, message by message *)

(** The [r]-th message that [fgets] makes of the input (empty at the end of the
    input), and the input before it. *)
Fixpoint left_of (i : bytes) (r : nat) : bytes :=
  match r with 0 => i | S r => (fgets_take 127 (left_of i r)).2 end.
Definition msg (i : bytes) (r : nat) : bytes := (fgets_take 127 (left_of i r)).1.

(** All messages of an input: its lines, the long ones in pieces of 127 bytes. *)
Fixpoint messages (fuel : nat) (i : bytes) : list bytes :=
  match fuel, i with
  | S fuel, _ :: _ => let '(l, r) := fgets_take 127 i in l :: messages fuel r
  | _, _ => []
  end.
Definition said (i : bytes) : list bytes := messages (length i) i.

Lemma fgets_app n i : (fgets_take n i).1 ++ (fgets_take n i).2 = i.
Proof.
  revert i. induction n as [|n IH]; intros [|c i]; try done. cbn. destruct (Ascii.eqb c LF); [done|].
  specialize (IH i). destruct (fgets_take n i). cbn in *. by rewrite IH.
Qed.

Lemma fgets_short n i : length (fgets_take n i).1 ≤ n.
Proof.
  revert i. induction n as [|n IH]; intros [|c i]; cbn; try lia. destruct (Ascii.eqb c LF); [cbn; lia|].
  specialize (IH i). destruct (fgets_take n i). cbn in *. lia.
Qed.

Lemma fgets_nonempty n c i : (fgets_take (S n) (c :: i)).1 ≠ [].
Proof. cbn. destruct (Ascii.eqb c LF); [done|]. by destruct (fgets_take n i). Qed.

Lemma fgets_nil n : fgets_take n [] = ([], []).
Proof. by destruct n. Qed.

Lemma left_of_next i r : left_of i (S r) = left_of (fgets_take 127 i).2 r.
Proof. induction r as [|r IH]; [done|]. change (left_of i (S (S r))) with (fgets_take 127 (left_of i (S r))).2. by rewrite IH. Qed.

Lemma messages_msg f i r :
  length i ≤ f → msg i r = default [] (messages f i !! r) ∧ ∀ m, messages f i !! r = Some m → m ≠ [].
Proof.
  revert i r. induction f as [|f IH]; intros [|c i] r Hf; try (cbn in Hf; lia).
  1,2: assert (left_of [] r = []) as Hl by (induction r as [|r IHr]; [done|cbn [left_of]; by rewrite IHr]);
       unfold msg; rewrite Hl, fgets_nil; done.
  cbn [messages]. pose proof (fgets_app 127 (c :: i)) as Ha. pose proof (fgets_nonempty 126 c i) as Hne.
  destruct (fgets_take 127 (c :: i)) as [l rest] eqn:E. cbn [fst snd] in *.
  destruct r as [|r]; cbn [lookup list_lookup].
  - unfold msg. cbn [left_of]. rewrite E. split; [done|]. by intros m [= <-].
  - unfold msg. rewrite left_of_next, E. apply IH. apply (f_equal length) in Ha. rewrite length_app in Ha.
    destruct l; [done|]. cbn in *. lia.
Qed.

(** The messages are the input, and exactly those before its end are not empty. *)
Lemma said_msg i r : msg i r = default [] (said i !! r).
Proof. by apply messages_msg. Qed.

Lemma msg_nonempty i r : msg i r ≠ [] ↔ r < length (said i).
Proof.
  rewrite said_msg, <- lookup_lt_is_Some. split; [by destruct (said i !! r)|].
  intros [m Hm]. rewrite Hm. by eapply messages_msg in Hm.
Qed.

Lemma take_said i r : r ≤ length (said i) → take r (said i) = map (msg i) (seq 0 r).
Proof.
  intros Hr. apply list_eq. intros j. destruct (decide (j < r)).
  - rewrite lookup_take_lt by done. change (map (msg i) (seq 0 r)) with (msg i <$> seq 0 r).
    rewrite list_lookup_fmap, lookup_seq_lt by done. cbn. rewrite said_msg. by destruct (lookup_lt_is_Some_2 (said i) j) as [m ->]; [lia|].
  - rewrite !lookup_ge_None_2; [done|rewrite length_map, length_seq; lia|rewrite length_take; lia].
Qed.

Lemma messages_concat f i : length i ≤ f → concat (messages f i) = i.
Proof.
  revert i. induction f as [|f IH]; intros [|c i] Hf; try done; [cbn in Hf; lia|]. cbn [messages].
  pose proof (fgets_app 127 (c :: i)) as Ha. pose proof (fgets_nonempty 126 c i) as Hne.
  destruct (fgets_take 127 (c :: i)) as [l r]. cbn [fst snd concat] in *. rewrite IH; [done|].
  apply (f_equal length) in Ha. rewrite length_app in Ha. destruct l; [done|]. cbn in *. lia.
Qed.

Section text.
Variable i : bytes.
Hypothesis plain_input : Forall nonNUL i.

Lemma left_plain r : Forall nonNUL (left_of i r).
Proof.
  induction r as [|r IH]; [done|]. cbn [left_of]. rewrite <- (fgets_app 127 (left_of i r)) in IH. by apply Forall_app in IH as [_ ?].
Qed.

Lemma msg_plain r : Forall nonNUL (msg i r).
Proof. pose proof (left_plain r) as H. rewrite <- (fgets_app 127 (left_of i r)) in H. by apply Forall_app in H as [? _]. Qed.

Lemma msg_short r : length (msg i r) < 128.
Proof. unfold msg. pose proof (fgets_short 127 (left_of i r)). lia. Qed.
End text.

Lemma cstr_filled l n : Forall nonNUL l → length l < n → cstr (fill l (replicate n NUL)) = Some l.
Proof.
  intros Hl Hn. unfold fill. rewrite drop_replicate. destruct (n - length l) as [|k] eqn:E; [lia|]. cbn [replicate].
  by apply cstr_app.
Qed.

(** ** Positions *)

(** A program is before its loop, after [i] calls, or in round [r] of the loop,
    after [j] of its four calls. *)
Inductive phase := Pre (i : nat) | Turn (r j : nat).

Definition wf (ph : phase) : Prop := match ph with Pre i => i < 10 | Turn _ j => j < 4 end.
Definition pos (ph : phase) : nat := match ph with Pre i => i | Turn _ _ => 10 end.
(** The calls made. *)
Definition made (ph : phase) : nat := match ph with Pre i => i | Turn r j => 10 + 4 * r + j end.
Definition next (ph : phase) : phase :=
  match ph with
  | Pre i => if decide (i = 9) then Turn 0 0 else Pre (S i)
  | Turn r j => if decide (j = 3) then Turn (S r) 0 else Turn r (S j)
  end.

(** The rounds in which a program has passed its [j]-th call. *)
Definition past (j : nat) (ph : phase) : nat :=
  match ph with Pre _ => 0 | Turn r x => if decide (j < x) then S r else r end.

(** *** The programs there *)

Definition greetings (s : side) : list bytes :=
  [B "fifo1管道文件已存在,开始进程" ++ [LF]; B "fifo2管道文件已存在,开始进程" ++ [LF]]
  ++ match s with
     | SideA => [B "打开fifo1成功，等待写入数据" ++ [LF]; B "打开fifo2成功，等待读取" ++ [LF]]
     | SideB => [B "打开fifo1成功，等待读取" ++ [LF]; B "打开fifo2成功，等待写入数据" ++ [LF]]
     end.

(** What one side said, as the other one shows it. *)
Definition shown (who : bytes) (ms : list bytes) : bytes := concat (map (λ m, who ++ m ++ [LF]) ms).

(** A program before its loop, when the pipes exist. *)
Definition descend (fd : Z) (x : nat) (p : program) : program :=
  match p with
  | Access _ c => c 0%Z
  | Printf _ p => p
  | Open _ w c => Await (ends x w).2 fd c
  | Await _ fd c => c fd
  | p => p
  end.
Fixpoint before (i : nat) (p : program) : program :=
  match i with
  | 0 => p
  | S i => let p := before i p in if decide (i < 6) then descend 3 0 p else descend 4 1 p
  end.

(** The descriptors: fifo1 is 3 and fifo2 is 4; [w] is the direction of fifo1. *)
Definition fds_at (w : bool) (ph : phase) : gmap Z desc :=
  let m := Pipes.std_fds in
  let m := if decide (5 ≤ pos ph) then <[3%Z := (ends 0 w).1]> m else m in
  if decide (8 ≤ pos ph) then <[4%Z := (ends 1 (negb w)).1]> m else m.

Definition greeted (s : side) (i : nat) : bytes :=
  concat (take (if decide (i < 2) then 0 else if decide (i < 4) then 1 else if decide (i < 7) then 2 else 3) (greetings s)).

Section pair.
Variables a b : bytes.
Hypothesis a_plain : Forall nonNUL a.
Hypothesis b_plain : Forall nonNUL b.

Definition procA (ph : phase) : process :=
  match ph with
  | Pre i => Process (before i chatA_main) (fds_at true ph) a (greeted SideA i) []
  | Turn r j =>
      let listen := hear (B "B: ") 4 (Again 3 4) in
      Process
        (match j with
         | 0 => Again 3 4
         | 1 => Write 3 (msg a r) (λ ret, if (ret =? -1)%Z then Perror "write" (Exit 0) else listen)
         | 2 => listen
         | _ => Printf (B "B: " ++ msg b r ++ [LF]) (Again 3 4)
         end)
        (fds_at true ph) (left_of a (past 0 ph))
        (concat (greetings SideA) ++ shown (B "B: ") (map (msg b) (seq 0 r))) []
  end.

Definition procB (ph : phase) : process :=
  match ph with
  | Pre i => Process (before i chatB_main) (fds_at false ph) b (greeted SideB i) []
  | Turn r j =>
      Process
        (match j with
         | 0 => Again 4 3
         | 1 => Printf (B "A: " ++ msg a r ++ [LF]) (say 4 (Again 4 3))
         | 2 => say 4 (Again 4 3)
         | _ => Write 4 (msg b r) (λ ret, if (ret =? -1)%Z then Perror "write" (Exit 0) else Again 4 3)
         end)
        (fds_at false ph) (left_of b (past 2 ph))
        (concat (greetings SideB) ++ shown (B "A: ") (map (msg a) (seq 0 (past 1 ph)))) []
  end.

(** A has written [past 1] messages and read [past 2]; B has read [past 0] and
    written [past 3], so a pipe holds at most one message. *)
Definition buf1 (pa pb : phase) : bytes := if decide (past 1 pa = S (past 0 pb)) then msg a (past 0 pb) else [].
Definition buf2 (pa pb : phase) : bytes := if decide (past 3 pb = S (past 2 pa)) then msg b (past 2 pa) else [].

Definition config (pa pb : phase) : pair := Pair both_pipes [buf1 pa pb; buf2 pa pb] (procA pa) (procB pb).

(** The positions that occur together. *)
Record synced (pa pb : phase) : Prop := {
  s_wfA : wf pa;
  s_wfB : wf pb;
  s_A1 : 6 ≤ pos pa → 5 ≤ pos pb;
  s_A2 : 9 ≤ pos pa → 8 ≤ pos pb;
  s_B1 : 6 ≤ pos pb → 5 ≤ pos pa;
  s_B2 : 9 ≤ pos pb → 8 ≤ pos pa;
  s_sent1 : past 0 pb ≤ past 1 pa;
  s_sent2 : past 2 pa ≤ past 3 pb;
  s_heard1 : past 0 pb ≤ length (said a);
  s_heard2 : past 2 pa ≤ length (said b)
}.

(** Whether a program has to wait. *)
Definition waitsA (pa pb : phase) : bool :=
  match pa with
  | Pre i => bool_decide (i = 5 ∧ pos pb < 5 ∨ i = 8 ∧ pos pb < 8)
  | Turn r j => bool_decide (j = 2 ∧ buf2 pa pb = [])
  end.
Definition waitsB (pa pb : phase) : bool :=
  match pb with
  | Pre i => bool_decide (i = 5 ∧ pos pa < 5 ∨ i = 8 ∧ pos pa < 8)
  | Turn r j => bool_decide (j = 0 ∧ buf1 pa pb = [])
  end.

(** *** The calls of A *)

Lemma procA_fds ph : (procA ph).(p_fds) = fds_at true ph.
Proof. by destruct ph. Qed.
Lemma procB_fds ph : (procB ph).(p_fds) = fds_at false ph.
Proof. by destruct ph. Qed.

Lemma held_end pa pb :
  held (PipeW 0) (config pa pb) = (if decide (5 ≤ pos pa) then true else false)
  ∧ held (PipeR 1) (config pa pb) = (if decide (8 ≤ pos pa) then true else false)
  ∧ held (PipeR 0) (config pa pb) = (if decide (5 ≤ pos pb) then true else false)
  ∧ held (PipeW 1) (config pa pb) = if decide (8 ≤ pos pb) then true else false.
Proof.
  unfold held. cbn [k_A k_B config]. rewrite procA_fds, procB_fds. unfold fds_at.
  split_and!; repeat case_decide; try lia; vm_compute; reflexivity.
Qed.

(** Before the loop. *)
Lemma callA_pre i pb :
  i < 10 → call SideA (config (Pre i) pb) = if waitsA (Pre i) pb then None else Some (config (next (Pre i)) pb).
Proof.
  intros Hi. destruct (held_end (Pre i) pb) as (_ & _ & H1 & H2). unfold waitsA.
  destruct (decide (i = 5)) as [->|]; [|destruct (decide (i = 8)) as [->|]].
  - change (call SideA (config (Pre 5) pb)) with (if held (PipeR 0) (config (Pre 5) pb) then Some (config (Pre 6) pb) else None).
    clear H2. rewrite H1. case_bool_decide; case_decide; try lia; done.
  - change (call SideA (config (Pre 8) pb)) with (if held (PipeW 1) (config (Pre 8) pb) then Some (config (Pre 9) pb) else None).
    clear H1. rewrite H2. case_bool_decide; case_decide; try lia; done.
  - rewrite bool_decide_eq_false_2 by lia. destruct i as [|[|[|[|[|[|[|[|[|[|i]]]]]]]]]]; try lia; try reflexivity.
Qed.

(** What [fgets] leaves in the cleared buffer is the next message. *)
Lemma fgets_msg i r s p k :
  Forall nonNUL i → at_side s k = p → p.(p_stdin) = left_of i r → 
  ∀ c, match p.(p_prog) with Again fdw fdr => body s fdw fdr | c => c end
       = Fgets (replicate 128 NUL) 128 (λ buf, match cstr buf with Some m => c m | None => Undefined end) →
  call s k = Some (put s (goto (c (msg i r)) (set_stdin (left_of i (S r)) p)) k).
Proof.
  intros Hi Hp Hin c Hc. unfold call. rewrite Hp, Hc, Hin. unfold msg. cbn [left_of].
  destruct (left_of i r) as [|x l] eqn:El; [destruct p; cbn in Hin; by subst|].
  pose proof (msg_plain i Hi r) as Hm. unfold msg in Hm. rewrite El in Hm.
  change (128 - 1) with 127. destruct (fgets_take 127 (x :: l)) as [m rest]. cbn [fst snd] in *.
  unfold fill. rewrite <- app_assoc. cbn [app]. by rewrite (cstr_app m _ Hm).
Qed.

(** A message that fits is written at once, the empty one without effect. *)
Lemma write_msg s p k fd x m c buf :
  at_side s k = p → match p.(p_prog) with Again fdw fdr => body s fdw fdr | c => c end = Write fd m c →
  p.(p_fds) !! fd = Some (PipeW x) → k.(k_bufs) !! x = Some buf → held (PipeR x) k = true →
  length buf = 0 → length m < 128 →
  call s k = Some (set_bufs (<[x := m]> k.(k_bufs)) (put s (goto (c (Z.of_nat (length m))) p) k)).
Proof.
  intros Hp Hc Hfd Hb Hh Hz Hm. destruct buf; [|done]. unfold call. rewrite Hp, Hc, Hfd. destruct m as [|y m].
  - rewrite list_insert_id by done. by destruct k, s.
  - rewrite Hb, Hh, decide_True; [done|]. cbn [length] in *. unfold PIPE_SIZE. lia.
Qed.

(** A message that is there is read whole; an empty pipe is waited for. *)
Lemma hear_msg s p k who fd x nxt m :
  at_side s k = p → match p.(p_prog) with Again fdw fdr => body s fdw fdr | c => c end = hear who fd nxt →
  p.(p_fds) !! fd = Some (PipeR x) → k.(k_bufs) !! x = Some m → held (PipeW x) k = true →
  Forall nonNUL m → length m < 128 →
  call s k = if decide (m = []) then None
             else Some (set_bufs (<[x := []]> k.(k_bufs)) (put s (goto (Printf (who ++ m ++ [LF]) nxt) p) k)).
Proof.
  intros Hp Hc Hfd Hb Hh Hn Hm. unfold call. rewrite Hp, Hc. unfold hear. rewrite Hfd, Hb, Hh. destruct m as [|y m]; [done|].
  rewrite decide_False by done. rewrite (take_ge (y :: m)), (drop_ge (y :: m)) by lia.
  rewrite (cstr_filled (y :: m) 128 Hn Hm). done.
Qed.

Lemma map_seq_S {X} (f : nat → X) r : map f (seq 0 (S r)) = map f (seq 0 r) ++ [f r].
Proof. by rewrite seq_S, map_app. Qed.

Lemma shown_snoc who ms m : shown who (ms ++ [m]) = shown who ms ++ who ++ m ++ [LF].
Proof. unfold shown. rewrite map_app, concat_app. cbn. by rewrite app_nil_r. Qed.

(** In the loop. *)
Lemma callA_turn r j pb :
  synced (Turn r j) pb →
  call SideA (config (Turn r j) pb) = if waitsA (Turn r j) pb then None else Some (config (next (Turn r j)) pb).
Proof.
  intros [HA HB _ H2 _ _ Hs1 Hs2 _ _]. cbn in HA, H2. specialize (H2 ltac:(lia)).
  destruct (held_end (Turn r j) pb) as (_ & _ & Hr & Hw). rewrite decide_True in Hr by lia. rewrite decide_True in Hw by lia.
  assert (past 3 pb ≤ past 0 pb) as Hb by (destruct pb; cbn; repeat case_decide; cbn in HB; lia).
  destruct j as [|[|[|[|j]]]]; [..|lia]; unfold waitsA.
  - rewrite bool_decide_eq_false_2 by lia. by erewrite (fgets_msg a r SideA); [|done|reflexivity|reflexivity|reflexivity].
  - rewrite bool_decide_eq_false_2 by lia. change (past 0 pb ≤ r) in Hs1. change (r ≤ past 3 pb) in Hs2.
    assert (past 0 pb = r) as He by lia.
    erewrite (write_msg SideA); [|reflexivity|reflexivity|reflexivity|reflexivity|exact Hr| |apply msg_short].
    + cbv beta. rewrite (proj2 (Z.eqb_neq _ _)) by lia. change (next (Turn r 1)) with (Turn r 2). unfold config, buf1.
      rewrite He. change (past 1 (Turn r 2)) with (S r). by rewrite (decide_True (P := S r = S r)) by done.
    + unfold buf1. rewrite He. change (past 1 (Turn r 1)) with r. by rewrite decide_False by lia.
  - change (past 0 pb ≤ S r) in Hs1. change (r ≤ past 3 pb) in Hs2.
    assert (Forall nonNUL (buf2 (Turn r 2) pb) ∧ length (buf2 (Turn r 2) pb) < 128) as [Hn Hl].
    { unfold buf2. case_decide; [split; [by apply msg_plain|apply msg_short]|cbn; split; [done|lia]]. }
    erewrite (hear_msg SideA); [|reflexivity|reflexivity|reflexivity|reflexivity|exact Hw|exact Hn|exact Hl].
    case_decide as Hd; [by rewrite bool_decide_eq_true_2|]. rewrite bool_decide_eq_false_2 by tauto.
    revert Hd. unfold buf2 at 1 2. change (past 2 (Turn r 2)) with r. case_decide as Hp; [|done]. intros _.
    change (next (Turn r 2)) with (Turn r 3). f_equal. unfold config, buf2. change (past 2 (Turn r 3)) with (S r).
    by rewrite (decide_False (P := past 3 pb = S (S r))) by lia.
  - rewrite bool_decide_eq_false_2 by lia. change (next (Turn r 3)) with (Turn (S r) 0).
    unfold config at 2. cbn [procA]. rewrite map_seq_S, shown_snoc, (app_assoc (concat _)). reflexivity.
Qed.

(** *** The calls of B *)

Lemma callB_pre i pa :
  i < 10 → call SideB (config pa (Pre i)) = if waitsB pa (Pre i) then None else Some (config pa (next (Pre i))).
Proof.
  intros Hi. destruct (held_end pa (Pre i)) as (H1 & H2 & _). unfold waitsB.
  destruct (decide (i = 5)) as [->|]; [|destruct (decide (i = 8)) as [->|]].
  - change (call SideB (config pa (Pre 5))) with (if held (PipeW 0) (config pa (Pre 5)) then Some (config pa (Pre 6)) else None).
    clear H2. rewrite H1. case_bool_decide; case_decide; try lia; done.
  - change (call SideB (config pa (Pre 8))) with (if held (PipeR 1) (config pa (Pre 8)) then Some (config pa (Pre 9)) else None).
    clear H1. rewrite H2. case_bool_decide; case_decide; try lia; done.
  - rewrite bool_decide_eq_false_2 by lia. destruct i as [|[|[|[|[|[|[|[|[|[|i]]]]]]]]]]; try lia; reflexivity.
Qed.

Lemma callB_turn r j pa :
  synced pa (Turn r j) →
  call SideB (config pa (Turn r j)) = if waitsB pa (Turn r j) then None else Some (config pa (next (Turn r j))).
Proof.
  intros [HA HB _ _ _ H2 Hs1 Hs2 _ _]. cbn in HB, H2. specialize (H2 ltac:(lia)).
  destruct (held_end pa (Turn r j)) as (Hw & Hr & _). rewrite decide_True in Hr by lia. rewrite decide_True in Hw by lia.
  assert (past 1 pa ≤ S (past 2 pa)) as Ha by (destruct pa; cbn; repeat case_decide; cbn in HA; lia).
  destruct j as [|[|[|[|j]]]]; [..|lia]; unfold waitsB.
  - change (r ≤ past 1 pa) in Hs1. change (past 2 pa ≤ r) in Hs2.
    assert (Forall nonNUL (buf1 pa (Turn r 0)) ∧ length (buf1 pa (Turn r 0)) < 128) as [Hn Hl].
    { unfold buf1. case_decide; [split; [by apply msg_plain|apply msg_short]|cbn; split; [done|lia]]. }
    erewrite (hear_msg SideB); [|reflexivity|reflexivity|reflexivity|reflexivity|exact Hw|exact Hn|exact Hl].
    case_decide as Hd; [by rewrite bool_decide_eq_true_2|]. rewrite bool_decide_eq_false_2 by tauto.
    revert Hd. unfold buf1 at 1 2. change (past 0 (Turn r 0)) with r. case_decide as Hp; [|done]. intros _.
    change (next (Turn r 0)) with (Turn r 1). f_equal. unfold config, buf1. change (past 0 (Turn r 1)) with (S r).
    by rewrite (decide_False (P := past 1 pa = S (S r))) by lia.
  - rewrite bool_decide_eq_false_2 by lia. change (next (Turn r 1)) with (Turn r 2).
    unfold config at 2. cbn [procB]. change (past 1 (Turn r 2)) with (S r).
    rewrite map_seq_S, shown_snoc, (app_assoc (concat _)). reflexivity.
  - rewrite bool_decide_eq_false_2 by lia. by erewrite (fgets_msg b r SideB); [|done|reflexivity|reflexivity|reflexivity].
  - rewrite bool_decide_eq_false_2 by lia. change (S r ≤ past 1 pa) in Hs1. change (past 2 pa ≤ r) in Hs2.
    assert (past 2 pa = r) as He by lia.
    erewrite (write_msg SideB); [|reflexivity|reflexivity|reflexivity|reflexivity|exact Hr| |apply msg_short].
    + cbv beta. rewrite (proj2 (Z.eqb_neq _ _)) by lia. change (next (Turn r 3)) with (Turn (S r) 0). unfold config, buf2.
      rewrite He. change (past 3 (Turn (S r) 0)) with (S r). by rewrite (decide_True (P := S r = S r)) by done.
    + unfold buf2. rewrite He. change (past 3 (Turn r 3)) with r. by rewrite decide_False by lia.
Qed.

(** ** Runs *)

Lemma callA_at pa pb :
  synced pa pb → call SideA (config pa pb) = if waitsA pa pb then None else Some (config (next pa) pb).
Proof. intros H. destruct pa; [apply callA_pre, H|by apply callA_turn]. Qed.
Lemma callB_at pa pb :
  synced pa pb → call SideB (config pa pb) = if waitsB pa pb then None else Some (config pa (next pb)).
Proof. intros H. destruct pb; [apply callB_pre, H|by apply callB_turn]. Qed.

Lemma made_next ph : wf ph → made (next ph) = S (made ph).
Proof. destruct ph; cbn; case_decide; cbn; lia. Qed.

(** A message that is in its pipe is not behind the end of the input. *)
Lemma buf_said i x y : (if decide (x = S y) then msg i y else []) ≠ [] → x = S y ∧ y < length (said i).
Proof. case_decide; [|done]. by rewrite msg_nonempty. Qed.

Lemma synced_A pa pb : synced pa pb → waitsA pa pb = false → synced (next pa) pb.
Proof.
  intros [] Hw. destruct pa as [i|r j]; cbn [waitsA] in Hw; apply bool_decide_eq_false in Hw.
  - cbn [wf pos next past] in *. split; repeat case_decide; cbn [wf pos past] in *; repeat case_decide; try done; try lia.
  - assert (j = 2 → past 3 pb = S r ∧ r < length (said b)) as Hj.
    { intros ->. apply (buf_said b). intros He. apply Hw. split; [done|exact He]. }
    cbn [wf pos next past] in *. split; repeat case_decide; cbn [wf pos past] in *; repeat case_decide; try done; try lia.
Qed.

Lemma synced_B pa pb : synced pa pb → waitsB pa pb = false → synced pa (next pb).
Proof.
  intros [] Hw. destruct pb as [i|r j]; cbn [waitsB] in Hw; apply bool_decide_eq_false in Hw.
  - cbn [wf pos next past] in *. split; repeat case_decide; cbn [wf pos past] in *; repeat case_decide; try done; try lia.
  - assert (j = 0 → past 1 pa = S r ∧ r < length (said a)) as Hj.
    { intros ->. apply (buf_said a). intros He. apply Hw. split; [done|exact He]. }
    cbn [wf pos next past] in *. split; repeat case_decide; cbn [wf pos past] in *; repeat case_decide; try done; try lia.
Qed.

Lemma reach_config n k :
  nsteps step n (started both_pipes 2 a b) k → ∃ pa pb, k = config pa pb ∧ synced pa pb ∧ made pa + made pb = n.
Proof.
  revert k. induction n as [|n IH]; intros k H.
  - inversion H; subst. exists (Pre 0), (Pre 0). split; [done|]. split; [|done]. split; cbn; lia.
  - apply nsteps_inv_r in H as (k1 & H & [[] Hc]); destruct (IH k1 H) as (pa & pb & -> & Hs & <-).
    + rewrite callA_at in Hc by done. destruct (waitsA pa pb) eqn:Hw; [done|]. injection Hc as <-.
      exists (next pa), pb. split; [done|]. split; [by apply synced_A|]. rewrite made_next by apply Hs. lia.
    + rewrite callB_at in Hc by done. destruct (waitsB pa pb) eqn:Hw; [done|]. injection Hc as <-.
      exists pa, (next pb). split; [done|]. split; [by apply synced_B|]. rewrite made_next by apply Hs. lia.
Qed.

(** The rounds completed on either side are bounded by what was typed. *)
Lemma rounds_bound pa pb :
  synced pa pb → past 2 pa ≤ past 0 pb ∧ past 0 pb ≤ S (past 2 pa) ∧ made pa ≤ 13 + 4 * past 2 pa ∧ made pb ≤ 13 + 4 * past 0 pb.
Proof.
  intros []. destruct pa as [i|r j], pb as [i'|r' j']; cbn [past made wf] in *; repeat case_decide; lia.
Qed.

(** Nobody can go on only when both wait in [read]. *)
Lemma stuck_listening pa pb :
  synced pa pb → waitsA pa pb = true → waitsB pa pb = true →
  ∃ r r', pa = Turn r 2 ∧ pb = Turn r' 0 ∧ buf2 pa pb = [] ∧ buf1 pa pb = [].
Proof.
  intros [] HwA HwB. destruct pa as [i|r j], pb as [i'|r' j']; cbn [waitsA waitsB pos] in *;
    apply bool_decide_eq_true in HwA, HwB; try lia.
  destruct HwA as [-> HA], HwB as [-> HB]. by exists r, r'.
Qed.

Lemma greeted_prefix s i : greeted s i `prefix_of` concat (greetings s).
Proof.
  unfold greeted. set (n := if decide _ then _ else _). rewrite <- (take_drop n (greetings s)) at 2. rewrite concat_app.
  by apply prefix_app_r.
Qed.

Lemma shown_prefix who i r n :
  r ≤ n → r ≤ length (said i) → shown who (map (msg i) (seq 0 r)) `prefix_of` shown who (take n (said i)).
Proof.
  intros Hr Hl. rewrite <- (take_said i r Hl). rewrite <- (take_drop r (take n (said i))), take_take, Nat.min_l by done.
  unfold shown. rewrite map_app, concat_app. by apply prefix_app_r.
Qed.
End pair.

(** What a user sees at the end: B's answers to what A's user typed, and A's
    messages up to the one that B's user did not answer. *)
Definition screenA (a b : bytes) : bytes := concat (greetings SideA) ++ shown (B "B: ") (take (length (said a)) (said b)).
Definition screenB (a b : bytes) : bytes := concat (greetings SideB) ++ shown (B "A: ") (take (S (length (said b))) (said a)).

Lemma outA_prefix a b pa pb : synced a b pa pb → p_out (procA a b pa) `prefix_of` screenA a b.
Proof.
  intros Hs. pose proof (rounds_bound a b pa pb Hs) as (H1 & H2 & _). destruct Hs. unfold screenA. destruct pa as [i|r j].
  - apply prefix_app_r, greeted_prefix.
  - apply prefix_app, shown_prefix; cbn in *; repeat case_decide; lia.
Qed.

Lemma outB_prefix a b pa pb : synced a b pa pb → p_out (procB a b pb) `prefix_of` screenB a b.
Proof.
  intros Hs. pose proof (rounds_bound a b pa pb Hs) as (H1 & H2 & _). destruct Hs. unfold screenB. destruct pb as [i|r j].
  - apply prefix_app_r, greeted_prefix.
  - apply prefix_app, shown_prefix; cbn in *; repeat case_decide; lia.
Qed.

(** When both wait in the loop, the input of the side whose turn it is has ended. *)
Lemma outs_complete a b r r' :
  synced a b (Turn r 2) (Turn r' 0) → buf2 b (Turn r 2) (Turn r' 0) = [] → buf1 a (Turn r 2) (Turn r' 0) = [] →
  p_out (procA a b (Turn r 2)) = screenA a b ∧ p_out (procB a b (Turn r' 0)) = screenB a b.
Proof.
  intros Hs H2 H1. pose proof (rounds_bound a b _ _ Hs) as (Hle & Hge & _). destruct Hs as [_ _ _ _ _ _ _ _ Ha Hb].
  unfold buf1, buf2 in *. change (past 2 (Turn r 2)) with r in *. change (past 0 (Turn r' 0)) with r' in *.
  change (past 1 (Turn r 2)) with (S r) in *. change (past 3 (Turn r' 0)) with r' in *.
  assert (r' = r ∧ length (said a) = r ∨ r' = S r ∧ length (said b) = r) as Hc.
  { destruct (decide (r' = r)) as [->|]; [left|right]; (split; [lia|]).
    - rewrite decide_True in H1 by done. pose proof (msg_nonempty a r) as [_ K]. destruct (decide (r < length (said a))); [|lia].
      by destruct K.
    - rewrite decide_True in H2 by lia. pose proof (msg_nonempty b r) as [_ K]. destruct (decide (r < length (said b))); [|lia].
      by destruct K. }
  unfold screenA, screenB. cbn [procA procB p_out]. change (past 1 (Turn r' 0)) with r'.
  rewrite <- (take_said a r'), <- (take_said b r) by lia.
  destruct Hc as [[-> Hc]|[-> Hc]]; rewrite Hc; (split; [|]); do 2 f_equal; try done.
  - rewrite !take_ge; [done|lia|lia].
  - rewrite !take_ge; [done|lia|lia].
Qed.

(** Neither ended nor undefined. *)
Definition running (p : process) : Prop := match p.(p_prog) with Exit _ | Undefined => False | _ => True end.

Lemma before_running i :
  i < 10 → running (Process (before i chatA_main) ∅ [] [] []) ∧ running (Process (before i chatB_main) ∅ [] [] []).
Proof. intros Hi. destruct i as [|[|[|[|[|[|[|[|[|[|i]]]]]]]]]]; try lia; done. Qed.

Lemma config_running a b pa pb : synced a b pa pb → ∀ s, running (at_side s (config a b pa pb)).
Proof.
  intros [HA HB _ _ _ _ _ _ _ _] []; cbn [at_side config k_A k_B].
  - destruct pa as [i|r j]; [by apply before_running in HA as [? _]|]. by destruct j as [|[|[|j]]].
  - destruct pb as [i|r j]; [by apply before_running in HB as [_ ?]|]. by destruct j as [|[|[|j]]].
Qed.

(** C39. chatA.c and chatB.c, run together over two named pipes that exist and that
    nobody else has open (calls do not fail for want of resources, and no signals
    arrive); the users type any text without NUL bytes, [a] and [b], and then
    end-of-file.  In every interleaving of their calls: neither program ever ends,
    complains or is undefined; each screen shows, after the greetings, the other
    side's messages (its lines, the long ones in pieces of 127 bytes), whole and in
    order; and there is a next call until each user has seen everything the other
    one said in turn: B shows as many messages of A as B's user answered and one
    more, A shows as many messages of B as A's user sent.  That takes at most
    30 + 8 * |said b| calls; then, since an end-of-file is sent as nothing,
    both programs wait in [read] for ever. *)
Theorem chats_understand a b n k :
  Forall nonNUL a → Forall nonNUL b → nsteps step n (started both_pipes 2 a b) k →
  n ≤ 30 + 8 * length (said b)
  ∧ (∀ s, running (at_side s k)) ∧ k.(k_A).(p_err) = [] ∧ k.(k_B).(p_err) = []
  ∧ k.(k_A).(p_out) `prefix_of` screenA a b ∧ k.(k_B).(p_out) `prefix_of` screenB a b
  ∧ ((∃ k', step k k')
     ∨ k.(k_A).(p_out) = screenA a b ∧ k.(k_B).(p_out) = screenB a b ∧ listening SideA k ∧ listening SideB k).
Proof.
  intros Ha Hb H. destruct (reach_config a b Ha Hb n k H) as (pa & pb & -> & Hs & <-).
  pose proof (rounds_bound a b pa pb Hs) as (H1 & H2 & H3 & H4). pose proof (s_heard2 _ _ _ _ Hs) as Hh.
  split; [lia|]. split; [by eapply config_running|]. split; [by destruct pa|]. split; [by destruct pb|].
  split; [by eapply outA_prefix|]. split; [by eapply outB_prefix|].
  pose proof (callA_at a b Ha Hb pa pb Hs) as EA. pose proof (callB_at a b Ha Hb pa pb Hs) as EB.
  destruct (waitsA b pa pb) eqn:HwA; [|left; by eexists _, SideA].
  destruct (waitsB a pa pb) eqn:HwB; [|left; by eexists _, SideB].
  destruct (stuck_listening a b pa pb Hs HwA HwB) as (r & r' & -> & -> & G2 & G1). right.
  destruct (outs_complete a b r r' Hs G2 G1) as [K1 K2].
  split; [exact K1|]. split; [exact K2|]. split; [exact EA|exact EB].
Qed.

(** The users exchange a greeting; A's user also types a line that nobody
    answers. *)
Definition typedA : bytes := B "hello" ++ [LF] ++ B "and?" ++ [LF].
Definition typedB : bytes := B "hi" ++ [LF].
Definition chat_schedule : list side :=
  replicate 5 SideA ++ replicate 8 SideB ++ replicate 5 SideA ++ replicate 2 SideB ++ replicate 2 SideA
  ++ replicate 4 SideB ++ replicate 4 SideA ++ replicate 4 SideB.

Lemma typed_plain s : forallb (λ c, negb (Ascii.eqb c NUL)) s = true → Forall nonNUL s.
Proof.
  intros H. rewrite forallb_forall in H. apply Forall_forall. intros c Hc. apply list_elem_of_In, H in Hc.
  by destruct (Ascii.eqb_spec c NUL).
Qed.

Lemma calls_nsteps ss k k' : calls ss k = Some k' → nsteps step (length ss) k k'.
Proof.
  revert k. induction ss as [|s ss IH]; cbn [calls length]; intros k H; [injection H as ->; constructor|].
  destruct (call s k) as [k1|] eqn:E; [|done]. econstructor; [by exists s|by apply IH].
Qed.

Lemma chats_understand_witness :
  ∃ k, nsteps step 34 (started both_pipes 2 typedA typedB) k
    ∧ k.(k_A).(p_out) = concat (greetings SideA) ++ B "B: hi" ++ [LF; LF]
    ∧ k.(k_B).(p_out) = concat (greetings SideB) ++ B "A: hello" ++ [LF; LF] ++ B "A: and?" ++ [LF; LF]
    ∧ listening SideA k ∧ listening SideB k.
Proof.
  destruct (calls chat_schedule (started both_pipes 2 typedA typedB)) as [k|] eqn:E; [|vm_compute in E; done].
  pose proof (calls_nsteps _ _ _ E) as Hn. exists k. split; [exact Hn|].
  destruct (chats_understand typedA typedB 34 k) as (_ & _ & _ & _ & _ & _ & [[k' [[] Hs]]|(-> & -> & HA & HB)]);
    [by apply typed_plain|by apply typed_plain|exact Hn| | |].
  - vm_compute in E. injection E as <-. by vm_compute in Hs.
  - vm_compute in E. injection E as <-. by vm_compute in Hs.
  - split; [by vm_compute|]. split; [by vm_compute|exact (conj HA HB)].
Defined.

(** Started in a directory without the pipes, the programs can disturb each
    other: B finds fifo1 missing, A creates it, and B's [mkfifo] fails; B ends
    and A waits for a reader for ever. *)
Definition race : list side :=
  [SideB; SideB] ++ replicate 9 SideA ++ replicate 3 SideB.
Lemma chats_race :
  ∃ k, calls race (started ∅ 0 typedA typedB) = Some k ∧ k.(k_B).(p_err) = ["mkfifo"] ∧ k.(k_B).(p_fds) = ∅
    ∧ p_out k.(k_A) = concat [B "fifo1管道文件不存在，创建管道文件" ++ [LF]; B "fifo1管道文件创建成功" ++ [LF];
        B "fifo2管道文件不存在，创建管道文件" ++ [LF]; B "fifo2管道文件创建成功" ++ [LF]]
    ∧ call SideA k = None ∧ call SideB k = None.
Proof.
  destruct (calls race (started ∅ 0 typedA typedB)) as [k|] eqn:E; [|vm_compute in E; done]. exists k. split; [done|].
  vm_compute in E. injection E as <-. vm_compute. by split_and!.
Qed.
