(* ===== verification/Forks.v ===== *)
(** * Processes and signals: lessons 18, 20, 21 and 26

    The programs that fork, wait and catch signals, over the kernel of
    Processes.v.  Their pauses ([sleep]) are not modelled: a process may be
    slow anyway. *)
From S2P Require Import Prelude CString Processes Pipes.

(** A line with numbers in it. *)
Definition line (s : bytes) : bytes := s ++ [LF].

(** ** lesson18/fork.c: each process has its own [num] *)
Module ForkC.

Inductive local :=
| Start | Forking | Branch (num pid : Z)
| PIds (num : Z) | PNum (num : Z) | PAdd (num : Z)
| CIds (num : Z) | CNum (num : Z) | CAdd (num : Z)
| For (i : nat) (num : Z) | Return.

Definition code (pid ppid : Z) (l : local) : action local :=
  match l with
  | Start => Print (line (B "processor start...")) Forking
  | Forking => Fork (Branch 10)
  | Branch num r => Compute (if (0 <? r)%Z then PIds num else if (r =? 0)%Z then CIds num else For 0 num)
  | PIds num => Print (line (B "i am parent process, pid : " ++ dec pid ++ B ", ppid : " ++ dec ppid)) (PNum num)
  | PNum num => Print (line (B "parent num : " ++ dec num)) (PAdd (num + 10))
  | PAdd num => Print (line (B "parent num += 10 : " ++ dec num)) (For 0 num)
  | CIds num => Print (line (B "i am child process, pid : " ++ dec pid ++ B ", ppid : " ++ dec ppid)) (CNum num)
  | CNum num => Print (line (B "child num : " ++ dec num)) (CAdd (num + 100))
  | CAdd num => Print (line (B "child num += 100 : " ++ dec num)) (For 0 num)
  | For i num =>
      if decide (i < 3)
      then Print (line (B "i : " ++ dec (Z.of_nat i) ++ B " , pid : " ++ dec pid ++ B ", num = " ++ dec num)) (For (S i) num)
      else Compute Return
  | Return => Exit 0
  end.
End ForkC.

(** ** lesson20: orphan.c and zombie.c *)
Module Orphan.

Inductive local := Start | Branch (pid : Z) | PIds | CIds | For (i : nat) | Return.

Definition code (pid ppid : Z) (l : local) : action local :=
  match l with
  | Start => Fork Branch
  | Branch r => Compute (if (0 <? r)%Z then PIds else if (r =? 0)%Z then CIds else For 0)
  | PIds => Print (line (B "i am parent process, pid : " ++ dec pid ++ B ", ppid : " ++ dec ppid)) (For 0)
  | CIds => Print (line (B "i am child process, pid : " ++ dec pid ++ B ", ppid : " ++ dec ppid)) (For 0)
  | For i =>
      if decide (i < 3) then Print (line (B "i : " ++ dec (Z.of_nat i) ++ B " , pid : " ++ dec pid)) (For (S i))
      else Compute Return
  | Return => Exit 0
  end.
End Orphan.

Module ZombieC.
Import Orphan.

(** As orphan.c, but the parent never leaves its branch. *)
Definition code (pid ppid : Z) (l : local) : action local :=
  match l with
  | PIds => Print (line (B "i am parent process, pid : " ++ dec pid ++ B ", ppid : " ++ dec ppid)) PIds
  | l => Orphan.code pid ppid l
  end.
End ZombieC.

(** ** lesson21: wait.c and waitpid.c *)
Module Wait.

Inductive local :=
| Loop (i : nat) (pid : Z) | Branch (pid : Z)
| PShow | PWait | PStatus (ret : Z) (st : wstatus) | PDie (ret : Z)
| CShow | Return.

(** [nohang] distinguishes waitpid.c, where a 0 goes back to the loop. *)
Definition code (nohang : bool) (pid ppid : Z) (l : local) : action local :=
  match l with
  | Loop i r =>
      if decide (i < 5) then Fork (λ r, if (r =? 0)%Z then Branch 0 else Loop (S i) r) else Compute (Branch r)
  | Branch r => Compute (if (0 <? r)%Z then PShow else if (r =? 0)%Z then CShow else Return)
  | PShow => Print (line (B "parent, pid = " ++ dec pid)) PWait
  | PWait =>
      Waitpid nohang (λ ret st,
        match st with
        | Some st => PStatus ret st
        | None => if (ret =? -1)%Z then Return else PShow
        end)
  | PStatus ret (Exited c) => Print (line (B "退出的状态码：" ++ dec c)) (PDie ret)
  | PStatus ret (Signaled s) => Print (line (B "被哪个信号干掉了：" ++ dec s)) (PDie ret)
  | PDie ret => Print (line (B "child die, pid = " ++ dec ret)) PShow
  | CShow => Print (line (B "child, pid = " ++ dec pid)) CShow
  | Return => Exit 0
  end.
End Wait.

(** ** lesson26: kill.c and sigchld.c *)
Module KillC.

Inductive local := Start | Branch (pid : Z) | CFor (i : nat) | PHello (pid : Z) | PSay (pid : Z) | PKill (pid : Z)
| PResult (r : Z) | Return.

Definition code (pid ppid : Z) (l : local) : action local :=
  match l with
  | Start => Fork Branch
  | Branch r => Compute (if (r =? 0)%Z then CFor 0 else if (0 <? r)%Z then PHello r else Return)
  | CFor i => if decide (i < 5) then Print (line (B "I'm child process")) (CFor (S i)) else Compute Return
  | PHello c => Print (line (B "I'm parent process")) (PSay c)
  | PSay c => Print (line (B "kill child process now")) (PKill c)
  | PKill c => Kill c SIGINT PResult
  | PResult r => Print (line (if (r =? 0)%Z then B "kill successfully!" else B "kill unsuccessfully!")) Return
  | Return => Exit 0
  end.
End KillC.

Module SigChld.

(** The handler [myFun] keeps the statement it has interrupted. *)
Inductive local :=
| Block | Loop (i : nat) (pid : Z) | Branch (pid : Z)
| PAction | PUnblock | PShow
| CShow | Return
| HShow (l : local) | HWait (l : local) | HDie (ret : Z) (l : local) | HReturn (l : local).

Definition code (pid ppid : Z) (l : local) : action local :=
  match l with
  | Block => Sigprocmask true {[SIGCHLD]} (Loop 0 0)
  | Loop i r =>
      if decide (i < 20) then Fork (λ r, if (r =? 0)%Z then Branch 0 else Loop (S i) r) else Compute (Branch r)
  | Branch r => Compute (if (0 <? r)%Z then PAction else if (r =? 0)%Z then CShow else Return)
  | PAction => Sigaction SIGCHLD PUnblock
  | PUnblock => Sigprocmask false {[SIGCHLD]} PShow
  | PShow => Print (line (B "parent process pid : " ++ dec pid)) PShow
  | CShow => Print (line (B "child process pid : " ++ dec pid)) Return
  | Return => Exit 0
  | HShow l => Print (line (B "捕捉到的信号 ：" ++ dec SIGCHLD)) (HWait l)
  | HWait l =>
      Waitpid true (λ ret _, if (0 <? ret)%Z then HDie ret l else HReturn l)
  | HDie ret l => Print (line (B "child die , pid = " ++ dec ret)) (HWait l)
  | HReturn l => Sigreturn SIGCHLD l
  end.

Definition handler (sig : Z) (l : local) : local := HShow l.

Definition reach (parent shell : Z) : kernel local → Prop :=
  preach code handler (λ _ _, false) (first_proc parent shell Block).
End SigChld.
