(* ===== verification/Households.v ===== *)
(** * A parent and its children

    The invariant the programs share that fork children and collect them: the
    only processes are the parent [P] and children it has forked, which are
    each in the process table or collected, once; [Q] is what holds of the
    children. *)
From S2P Require Import Prelude Processes Pipes.

Definition pids {L} (k : kernel L) : list Z := map snd k.(forked).
Definition collected {L} (k : kernel L) : list Z := map (λ e, e.1.2) k.(reaped).

Section household.
Context {L : Type}.
Variables P sh : Z.
Hypothesis P_pid : (1 < P)%Z.
Hypothesis sh_pid : (1 < sh)%Z ∧ sh ≠ P.
Variable Q : proc L → Prop.
Implicit Types (k : kernel L) (p q : proc L).

Record household k p : Prop := {
  hh_parent : k.(procs) !! P = Some p;
  hh_shell : p.(p_ppid) = sh;
  hh_kids : ∀ c q, c ≠ P → k.(procs) !! c = Some q →
    q.(p_ppid) = P ∧ Q q ∧ c ∈ pids k ∧ (c ∉ collected k) ∧ sh ≠ c ∧ (1 < c)%Z;
  hh_once : NoDup (collected k) ∧ (∀ c, c ∈ collected k → c ∈ pids k) ∧ P ∈ pids k ∧ sh ∈ pids k;
  hh_all : ∀ c, (P, c) ∈ k.(forked) → c ≠ P ∧ (is_Some (k.(procs) !! c) ∨ c ∈ collected k)
}.

(** The program starts. *)
Lemma household_start (l : L) p' :
  p'.(p_ppid) = sh → household (put P p' (first_proc P sh l)) p'.
Proof.
  intros Hs. split; cbn; [apply lookup_insert_eq|done| |split_and!|].
  - intros c q Hne. by rewrite lookup_insert_ne, lookup_singleton_ne.
  - constructor.
  - by intros c Hin%elem_of_nil.
  - right; left.
  - left.
  - destruct sh_pid. intros c Hin. unfold history in Hin. exfalso. set_solver by lia.
Qed.

(** The parent changes its own state. *)
Lemma household_move k p p' :
  household k p → p'.(p_ppid) = p.(p_ppid) → household (put P p' k) p'.
Proof.
  intros [Hp Hs Hk Ho Ha] Hpp. split; cbn; [apply lookup_insert_eq|congruence| |done|].
  - intros c q Hne. rewrite lookup_insert_ne by done. by apply Hk.
  - intros c Hc. destruct (Ha c Hc) as (Hcp & [Hc'|]); (split; [done|]); [left|by right]. apply lookup_insert_is_Some'. by right.
Qed.

Lemma household_print k p x s : household k p → household (print_out x s k) p.
Proof. intros []. by split. Qed.

(** A child changes its state. *)
Lemma household_kid k p c q q' :
  household k p → c ≠ P → k.(procs) !! c = Some q → q'.(p_ppid) = q.(p_ppid) → Q q' → household (put c q' k) p.
Proof.
  intros [Hp Hs Hk Ho Ha] Hne Hq Hpp Hq'. split; cbn; try done.
  - by rewrite lookup_insert_ne.
  - intros x y Hx [[<- <-]|[_ Hy]]%lookup_insert_Some; [|by apply Hk].
    destruct (Hk c q Hne Hq) as (? & _ & ?). split; [congruence|]. by split.
  - intros x Hx. destruct (Ha x Hx) as (Hcp & [Hc'|]); (split; [done|]); [left|by right]. apply lookup_insert_is_Some'. by right.
Qed.

(** A child ends: its parent is told. *)
Lemma household_ends k p c q st l :
  household k p → p.(p_state) = Running l → c ≠ P → k.(procs) !! c = Some q → Q (Proc (Zombie st) P ∅ ∅ ∅ ∅) →
  household (terminate c st k) (set_pending ({[SIGCHLD]} ∪ p.(p_pending)) p)
  ∧ ∀ x y, x ≠ P → (terminate c st k).(procs) !! x = Some y →
      x = c ∧ y = Proc (Zombie st) P ∅ ∅ ∅ ∅ ∨ x ≠ c ∧ k.(procs) !! x = Some y.
Proof.
  intros [Hp Hs Hk Ho Ha] Hl Hne Hq HQ. destruct (Hk c q Hne Hq) as (Hpp & _ & Hin & Hnc & Hsh & H1c).
  assert (terminate c st k
    = set_procs (<[P := set_pending ({[SIGCHLD]} ∪ p.(p_pending)) p]> (<[c := Proc (Zombie st) P ∅ ∅ ∅ ∅]> k.(procs))) k) as ->.
  { rewrite (terminate_leaf c q); [|done|lia|].
    - rewrite Hpp. f_equal. apply map_eq. intros x. destruct (decide (x = P)) as [->|].
      + rewrite lookup_alter_eq, lookup_insert_ne, lookup_insert_eq, Hp by done. cbn. unfold post. by rewrite Hl.
      + by rewrite lookup_alter_ne, (lookup_insert_ne _ P x) by done.
    - intros x y Hx. destruct (decide (x = P)) as [->|Hx'].
      + assert (y = p) as -> by congruence. by rewrite Hs.
      + destruct (Hk x y Hx' Hx) as [-> _]. done. }
  assert (∀ x y, x ≠ P → <[P := set_pending ({[SIGCHLD]} ∪ p.(p_pending)) p]> (<[c := Proc (Zombie st) P ∅ ∅ ∅ ∅]> k.(procs)) !! x = Some y →
    x = c ∧ y = Proc (Zombie st) P ∅ ∅ ∅ ∅ ∨ x ≠ c ∧ k.(procs) !! x = Some y) as Hlk.
  { intros x y Hx. rewrite lookup_insert_ne by done. intros [[<- <-]|[? ?]]%lookup_insert_Some; auto. }
  split; [|exact Hlk]. split; cbn [procs set_procs]; try done.
  - apply lookup_insert_eq.
  - intros x y Hx Hy. apply Hlk in Hy as [[-> ->]|[_ Hy]]; [by split_and!|by apply Hk|done].
  - intros x Hx. destruct (Ha x Hx) as (Hcp & [Hc'|]); (split; [done|]); [left|by right]. by do 2 (apply lookup_insert_is_Some'; right).
Qed.

(** The parent collects a dead child. *)
Lemma household_reaps k p c st fds b pe ca l' :
  household k p → k.(procs) !! c = Some (Proc (Zombie st) P fds b pe ca) → c ≠ P →
  household (Kernel (delete c (<[P := go l' p]> k.(procs))) k.(pipes) k.(out) k.(forked) (k.(reaped) ++ [(P, c, st)]) k.(mem)) (go l' p).
Proof.
  intros [Hp Hs Hk Ho Ha] Hq Hne. destruct (Hk c _ Hne Hq) as (_ & _ & Hin & Hnc & _).
  split; unfold collected, pids in *; cbn [procs reaped forked]; rewrite ?map_app; try done.
  - by rewrite lookup_delete_ne, lookup_insert_eq.
  - intros x y Hx [Hxc Hy]%lookup_delete_Some. rewrite lookup_insert_ne in Hy by done.
    destruct (Hk x y Hx Hy) as (? & ? & ? & Hnx & ? & ?). split_and!; try done.
    intros [?|Hxx%list_elem_of_singleton]%elem_of_app; [done|by subst].
  - destruct Ho as (H1 & H2 & H3 & H4). split_and!; try done.
    + apply NoDup_app. split; [done|]. split; [|apply NoDup_singleton]. intros x Hx Hxc%list_elem_of_singleton. by subst.
    + intros x [?|Hxc%list_elem_of_singleton]%elem_of_app; [auto|by subst].
  - intros x Hx. destruct (decide (x = c)) as [->|Hxc]; [split; [done|]; right; set_solver|].
    destruct (Ha x Hx) as (Hcp & [Hc'|]); (split; [done|]); [left|right; set_solver]. rewrite lookup_delete_ne by done.
    apply lookup_insert_is_Some'. by right.
Qed.

(** The parent forks. *)
Lemma household_forks k p p' o child :
  household k p → (1 < o)%Z → o ∉ dom k.(procs) → o ∉ pids k → p'.(p_ppid) = p.(p_ppid) →
  child.(p_ppid) = P → Q child →
  household (Kernel (<[o := child]> (<[P := p']> k.(procs))) k.(pipes) k.(out) (k.(forked) ++ [(P, o)]) k.(reaped) k.(mem)) p'
  ∧ P ≠ o ∧ sh ≠ o.
Proof.
  intros [Hp Hs Hk Ho Ha] H1 Hdom Hpid Hpp Hch HQ. destruct Ho as (Hn & Hsub & HP & Hsh).
  assert (P ≠ o) as HPo by (intros ->; done). assert (sh ≠ o) as Hso by (intros ->; done). split; [|done].
  split; unfold collected, pids in *; cbn [procs reaped forked]; rewrite ?map_app.
  - by rewrite lookup_insert_ne, lookup_insert_eq.
  - congruence.
  - intros x y Hx [[<- <-]|[Hxo Hy]]%lookup_insert_Some.
    + split_and!; try done; [apply elem_of_app; right; by apply list_elem_of_singleton|]. intros Hin. by apply Hsub in Hin.
    + rewrite lookup_insert_ne in Hy by done. destruct (Hk x y Hx Hy) as (? & ? & ? & ? & ? & ?).
      split_and!; try done. apply elem_of_app. by left.
  - split_and!; try done; [intros x Hx|..]; apply elem_of_app; left; auto.
  - intros x [Hx|Hx%list_elem_of_singleton]%elem_of_app.
    + destruct (Ha x Hx) as (Hcp & [Hc'|]); (split; [done|]); [left|by right]. by do 2 (apply lookup_insert_is_Some'; right).
    + injection Hx as ->. split; [done|]. left. rewrite lookup_insert_eq. eauto.
Qed.

(** A process of the household is the parent or a child. *)
Lemma household_proc k p x y :
  household k p → k.(procs) !! x = Some y → x = P ∧ y = p ∨ x ≠ P ∧ y.(p_ppid) = P ∧ Q y ∧ (1 < x)%Z.
Proof.
  intros [Hp Hs Hk _ _] Hx. destruct (decide (x = P)) as [->|Hne]; [left; split; [done|congruence]|right].
  destruct (Hk x y Hne Hx) as (? & ? & _ & _ & _ & ?). done.
Qed.

(** No child is left: all have been collected. *)
Lemma household_empty k p :
  household k p → (¬ map_Exists (λ _ q, q.(p_ppid) = P) k.(procs)) → ∀ c, (P, c) ∈ k.(forked) → c ∈ collected k.
Proof.
  intros [Hp Hs Hk _ Ha] Hn c Hc. destruct (Ha c Hc) as (Hne & [[q Hq]|]); [|done]. destruct Hn.
  exists c, q. split; [done|]. by destruct (Hk c q Hne Hq) as [? _].
Qed.
End household.
