(* ===== verification/ForksProofs.v ===== *)
(** * Properties of the programs that fork: lessons 18, 20, 21 and 26 *)
From S2P Require Import Prelude CString Processes Pipes Forks Households.

(** ** lesson26/sigchld.c: no dead child is forgotten *)

Section sigchld.
Import SigChld.
Variables P sh : Z.
Hypothesis P_pid : (1 < P)%Z.
Hypothesis sh_pid : (1 < sh)%Z ∧ sh ≠ P.

(** The phases of the parent: the signal is blocked until the handler is
    installed, and inside the handler. *)
Definition collecting (l : local) : bool :=
  match l with HShow PShow | HWait PShow | HDie _ PShow => true | _ => false end.
Inductive phase : local → Prop :=
| ph_loop i r : i = 0 ∨ r ≠ 0%Z → phase (Loop i r)
| ph_branch r : r ≠ 0%Z → phase (Branch r)
| ph_return : phase Return
| ph_action : phase PAction
| ph_unblock : phase PUnblock
| ph_show : phase PShow
| ph_hshow : phase (HShow PShow)
| ph_hwait : phase (HWait PShow)
| ph_hdie r : phase (HDie r PShow)
| ph_hreturn : phase (HReturn PShow).
Definition unblocked (l : local) : bool := match l with PShow => true | _ => false end.
Definition installed (l : local) : bool :=
  match l with Loop _ _ | Branch _ | Return | PAction => false | _ => true end.

Record parent_ok (l : local) (p : proc local) : Prop := {
  pk_state : p.(p_state) = Running l;
  pk_phase : phase l;
  pk_blocked : SIGCHLD ∈ p.(p_blocked) ↔ unblocked l = false;
  pk_caught : SIGCHLD ∈ p.(p_caught) ↔ installed l = true;
  pk_pending : p.(p_pending) ⊆ {[SIGCHLD]}
}.

Inductive child_ok : pstate local → Prop :=
| ck_branch : child_ok (Running (Branch 0))
| ck_show : child_ok (Running CShow)
| ck_return : child_ok (Running Return)
| ck_dead : child_ok (Zombie (Exited 0)).

(** What holds of the children. *)
Definition kid (q : proc local) : Prop := q.(p_pending) = ∅ ∧ child_ok q.(p_state).

Record running (k : kernel local) (l : local) (p : proc local) : Prop := {
  rn_house : household P sh kid k p;
  rn_ok : parent_ok l p;
  rn_covered : ∀ c q st, c ≠ P → k.(procs) !! c = Some q → q.(p_state) = Zombie st →
    SIGCHLD ∈ p.(p_pending) ∨ collecting l = true
}.

(** The parent has ended, its children belong to [init]. *)
Definition ended (k : kernel local) : Prop :=
  (∀ c q l, k.(procs) !! c = Some q → q.(p_state) = Running l →
     c ≠ P ∧ child_ok (Running l) ∧ q.(p_pending) = ∅ ∧ q.(p_ppid) = 1%Z)
  ∧ k.(procs) !! 1%Z = None ∧ NoDup (collected k).

Inductive sc_inv (k : kernel local) : Prop :=
| sc_start : k = first_proc P sh Block → sc_inv k
| sc_running l p : running k l p → sc_inv k
| sc_ended : ended k → sc_inv k.

(** A step of the parent that changes at most its own entry. *)
Lemma parent_moves k l p l' p' :
  running k l p → parent_ok l' p' → p'.(p_ppid) = p.(p_ppid) →
  (SIGCHLD ∈ p.(p_pending) ∨ collecting l = true → SIGCHLD ∈ p'.(p_pending) ∨ collecting l' = true) →
  running (put P p' k) l' p'.
Proof.
  intros [Hh Hok Hc] Hok' Hpp Himp. split; [by eapply household_move|done|].
  intros c q st Hne. cbn. rewrite lookup_insert_ne by done. intros H1 H2. by apply Himp, (Hc c q st).
Qed.

Lemma running_print k l p x s : running k l p → running (print_out x s k) l p.
Proof. intros []. split; [by apply household_print|done..]. Qed.

(** A child that is still running moves on. *)
Lemma child_moves k l p c q s :
  running k l p → c ≠ P → k.(procs) !! c = Some q → child_ok (Running s) →
  running (put c (go s q) k) l p.
Proof.
  intros [Hh Hok Hc] Hne Hq Hs. destruct (hh_kids _ _ _ _ _ Hh c q Hne Hq) as (_ & [Hpe _] & _).
  split; [by eapply household_kid|done|]. cbn [procs put].
  intros x y st Hx [[<- <-]|[_ Hy]]%lookup_insert_Some Hst; [done|by eapply Hc].
Qed.

(** A child ends: its parent is told. *)
Lemma child_ends k l p c q st :
  running k l p → c ≠ P → k.(procs) !! c = Some q → child_ok (Zombie st) →
  running (terminate c st k) l (set_pending ({[SIGCHLD]} ∪ p.(p_pending)) p).
Proof.
  intros [Hh Hok Hc] Hne Hq Hst.
  destruct (household_ends P sh P_pid sh_pid kid k p c q st l Hh) as [Hh' _]; [apply Hok|done|done|by split|].
  split; [done| |].
  - destruct Hok. split; try done. cbn. set_solver.
  - intros x y s' Hx _ _. left. cbn. set_solver.
Qed.

(** The parent collects a dead child. *)
Lemma parent_reaps k l p c st fds b pe ca l' :
  running k l p → k.(procs) !! c = Some (Proc (Zombie st) P fds b pe ca) → c ≠ P →
  parent_ok l' (go l' p) → collecting l' = true →
  running (Kernel (delete c (<[P := go l' p]> k.(procs))) k.(pipes) k.(out) k.(forked) (k.(reaped) ++ [(P, c, st)]) k.(mem))
    l' (go l' p).
Proof. intros [Hh Hok Hc] Hq Hne Hok' Hcol. split; [by eapply household_reaps|done|]. by right. Qed.

(** The parent forks. *)
Lemma parent_forks k i r p o :
  running k (Loop i r) p → (1 < o)%Z → o ∉ dom k.(procs) → o ∉ pids k →
  let child := Proc (Running (Branch 0)) P p.(p_fds) p.(p_blocked) ∅ p.(p_caught) in
  running (Kernel (<[o := child]> (<[P := go (Loop (S i) o) p]> k.(procs))) k.(pipes) k.(out)
             (k.(forked) ++ [(P, o)]) k.(reaped) k.(mem)) (Loop (S i) o) (go (Loop (S i) o) p).
Proof.
  intros [Hh Hok Hc] H1 Hdom Hpid child.
  destruct (household_forks P sh P_pid sh_pid kid k p (go (Loop (S i) o) p) o child) as (Hh' & HPo & Hso); try done.
  { split; [done|constructor]. }
  split; [done| |].
  - destruct Hok. split; try done. constructor. right. lia.
  - cbn [procs]. intros x y s' Hx [[<- <-]|[Hxo Hy]]%lookup_insert_Some Hst; [done|].
    rewrite lookup_insert_ne in Hy by done. by apply (Hc x y s').
Qed.

(** The parent's own statements. *)
Lemma parent_ok_go l l' p :
  parent_ok l p → phase l' → unblocked l' = unblocked l → installed l' = installed l → parent_ok l' (go l' p).
Proof. intros [] Hph Hu Hi. split; cbn; [done|done|by rewrite Hu|by rewrite Hi|done]. Qed.

Lemma parent_computes k l p l' :
  running k l p → phase l' → unblocked l' = unblocked l → installed l' = installed l → collecting l' = collecting l →
  running (put P (go l' p) k) l' (go l' p).
Proof.
  intros Hr Hph Hu Hi Hc. eapply parent_moves; [exact Hr|by eapply parent_ok_go; [apply Hr|..]|done|]. by rewrite Hc.
Qed.

Lemma parent_returns k p : running k Return p → sc_inv (terminate P (Exited 0) k).
Proof.
  intros [[Hp Hsh Hk Ho Ha] Hok Hc]. destruct sh_pid as [Hs1 HsP]. apply sc_ended. split_and!.
  - intros c q l Hq Hst. assert (c ≠ P) as Hne.
    { intros ->. unfold terminate in Hq. rewrite Hp in Hq. cbn [procs set_procs] in Hq.
      rewrite Hsh, lookup_alter_ne, decide_False, lookup_insert_eq in Hq by lia. by injection Hq as <-. }
    destruct (terminate_survivors _ _ _ _ _ _ Hp Hq Hne) as (q0 & H0 & Es & Epe & Epp).
    destruct (Hk c q0 Hne H0) as (Hpp & [Hpe Hco] & _ & _ & Hshc & _). rewrite Es in Hst. rewrite Hst in Hco.
    split_and!; [done|done| |by rewrite Epp, decide_True].
    rewrite Epe; [done|]. congruence.
  - destruct (procs (terminate P _ k) !! 1%Z) as [q|] eqn:E; [|done]. assert (1%Z ≠ P) as H1P by lia.
    destruct (terminate_survivors _ _ _ _ _ _ Hp E H1P) as (q0 & H0 & _).
    destruct (Hk 1%Z q0 H1P H0) as (_ & _ & _ & _ & _ & ?). lia.
  - unfold terminate. rewrite Hp. apply Ho.
Qed.

(** [waitpid] that finds nobody: no dead child is left. *)
Lemma parent_finds_none k p k' :
  running k (HWait PShow) p → no_child P p (code P sh (HWait PShow)) k = Some k' → sc_inv k'.
Proof.
  intros Hr E. cbn [code no_child] in E. pose proof Hr as [Hh Hok Hc].
  assert ((∀ c q, c ≠ P → k.(procs) !! c = Some q → ∀ st, q.(p_state) ≠ Zombie st) ∧ k' = put P (go (HReturn PShow) p) k)
    as [Hnz ->].
  { case_decide as Hex.
    - case_decide as Hz; [done|]. injection E as <-. split; [|done]. intros c q Hne Hq st Hst. apply Hz.
      exists c, q. destruct (hh_kids _ _ _ _ _ Hh c q Hne Hq) as [Hpp _]. split; [done|]. split; [done|].
      unfold forgotten. rewrite Hst. by apply bool_decide_eq_true.
    - injection E as <-. split; [|done]. intros c q Hne Hq st Hst. apply Hex. exists c, q.
      by destruct (hh_kids _ _ _ _ _ Hh c q Hne Hq) as [Hpp _]. }
  apply (sc_running _ (HReturn PShow) (go (HReturn PShow) p)).
  split; [by eapply household_move|by eapply parent_ok_go; [exact Hok|constructor|..]|].
  intros c q st Hne. cbn. rewrite lookup_insert_ne by done. intros Hq Hst. by destruct (Hnz c q Hne Hq st).
Qed.

Lemma sc_fork_step k i r p o k' :
  running k (Loop i r) p → i < 20 →
  perform P o p (Fork (λ r, if (r =? 0)%Z then Branch 0 else Loop (S i) r)) k = Some k' → sc_inv k'.
Proof.
  intros Hr Hi E. cbn [perform] in E. case_decide as Ho.
  - case_decide as Hd; [|done]. destruct Hd as (H1 & H2 & H3). injection E as <-.
    rewrite (proj2 (Z.eqb_neq o 0)) by lia. cbn. eapply sc_running, parent_forks; eauto.
  - injection E as <-. cbn. eapply sc_running, parent_computes; [exact Hr|constructor; by right|done..].
Qed.

(** A statement of the parent. *)
Lemma sc_parent_step k l p o k' :
  running k l p → run_proc code P o k = Some k' → sc_inv k'.
Proof.
  intros Hr E. pose proof Hr as [Hh Hok Hc]. pose proof Hh as [Hp Hsh Hk Ho Ha]. unfold run_proc in E.
  rewrite Hp, (pk_state _ _ Hok), Hsh in E. destruct o as [o|].
  2:{ destruct (pk_phase _ _ Hok); cbn [code] in E; try done; [by destruct (decide (i < 20))|by eapply parent_finds_none]. }
  destruct (pk_phase _ _ Hok); cbn [code] in E.
  - case_decide; [by eapply sc_fork_step|]. injection E as <-. destruct H as [->|]; [lia|].
    eapply sc_running, parent_computes; [exact Hr|by constructor|done..].
  - injection E as <-. eapply sc_running, parent_computes; [exact Hr|..];
      destruct (0 <? r)%Z, (Z.eqb_spec r 0); done || constructor.
  - injection E as <-. by eapply parent_returns.
  - injection E as <-. eapply sc_running, parent_moves; [exact Hr| |done|by intros [?|?]; [left|]].
    destruct Hok. split; cbn; try done; [constructor|]. set_solver.
  - injection E as <-. eapply sc_running, parent_moves; [exact Hr| |done|by intros [?|?]; [left|]].
    destruct Hok. split; cbn; try done; [constructor|]. set_solver.
  - injection E as <-. eapply sc_running, running_print, parent_computes; [exact Hr|constructor|done..].
  - injection E as <-. eapply sc_running, running_print, parent_computes; [exact Hr|constructor|done..].
  - cbn [perform] in E. destruct (procs k !! o) as [[[|st] ppid ? ? ? ?]|] eqn:Eo; try done.
    case_decide; [|done]. subst ppid. injection E as <-. assert (o ≠ P) as Hne.
    { intros ->. rewrite Hp in Eo. injection Eo as ->. by destruct Hok. }
    destruct (Hk o _ Hne Eo) as (_ & _ & _ & _ & _ & H1). rewrite (proj2 (Z.ltb_lt 0 o)) by lia.
    eapply sc_running, parent_reaps; eauto. eapply parent_ok_go; [exact Hok|constructor|done|done].
  - injection E as <-. eapply sc_running, running_print, parent_computes; [exact Hr|constructor|done..].
  - injection E as <-. eapply sc_running, parent_moves; [exact Hr| |done|by intros [?|?]; [left|]].
    destruct Hok. split; cbn; try done; [constructor|]. set_solver.
Qed.

(** A statement of a child. *)
Lemma sc_child_step k l p c o k' :
  running k l p → c ≠ P → run_proc code c o k = Some k' → sc_inv k'.
Proof.
  intros Hr Hne E. pose proof Hr as [[Hp Hsh Hk Ho Ha] Hok Hc]. unfold run_proc in E.
  destruct (procs k !! c) as [q|] eqn:Hq; [|done]. destruct (Hk c q Hne Hq) as (_ & [_ Hco] & _).
  destruct (p_state q) as [s|] eqn:Es; [|done]. inversion Hco; subst s; destruct o as [o|]; try done; injection E as <-.
  - eapply sc_running, child_moves; eauto. constructor.
  - eapply sc_running, running_print, child_moves; eauto. constructor.
  - eapply sc_running, child_ends; eauto. constructor.
Qed.

Lemma sc_deliver_step k l p pid sig k' :
  running k l p → deliver handler pid sig k = Some k' → sc_inv k'.
Proof.
  intros Hr E. pose proof Hr as [[Hp Hsh Hk Ho Ha] Hok Hc]. unfold deliver in E. destruct (decide (pid = P)) as [->|Hne].
  - rewrite Hp, (pk_state _ _ Hok) in E. case_decide as Hd; [|done]. destruct Hd as [Hpe Hbl].
    assert (sig = SIGCHLD) as -> by (apply (pk_pending _ _ Hok) in Hpe; set_solver).
    rewrite (pk_blocked _ _ Hok) in Hbl. apply not_false_is_true in Hbl. destruct l; try done.
    cbn [p_caught set_pending] in E. rewrite decide_True in E by (by apply (pk_caught _ _ Hok)). injection E as <-.
    eapply (sc_running _ (HShow PShow)), parent_moves; [exact Hr| |done|by right].
    destruct Hok. split; cbn; try done; [constructor| |]; set_solver.
  - destruct (procs k !! pid) as [q|] eqn:Hq; [|done]. destruct (Hk pid q Hne Hq) as (_ & [Hpe _] & _).
    destruct (p_state q); [|done]. rewrite Hpe, decide_False in E by set_solver. done.
Qed.

(** The first statement blocks the signal. *)
Lemma sc_start_step pid o k' : run_proc code pid o (first_proc P sh Block) = Some k' → sc_inv k'.
Proof.
  unfold run_proc, first_proc. cbn [procs]. destruct (_ !! pid) as [p|] eqn:Ep; [|done].
  apply lookup_singleton_Some in Ep as [<- <-]. destruct o as [o|]; [|done]. cbn [p_state p_ppid code perform].
  intros [= <-]. eapply (sc_running _ (Loop 0 0)). split.
  - by apply household_start.
  - split; cbn; [done|by constructor; left|set_solver|set_solver|apply empty_subseteq].
  - intros c q st Hne. cbn. by rewrite lookup_insert_ne, lookup_singleton_ne.
Qed.

(** After the parent has ended (its last [fork] failed), its children end. *)
Lemma sc_ended_step pid o k k' : ended k → run_proc code pid o k = Some k' → ended k'.
Proof.
  intros (Ha & H1 & Hn) E. unfold run_proc in E. destruct (procs k !! pid) as [q|] eqn:Hq; [|done].
  destruct (p_state q) as [s|] eqn:Es; [|done]. destruct (Ha pid q s Hq Es) as (Hne & Hco & Hpe & Hpp).
  assert (pid ≠ 1%Z) as Hp1 by congruence.
  assert (∀ s', child_ok (Running s') → ended (put pid (go s' q) k)) as Hmove.
  { intros s' Hs'. split_and!; [|by cbn; rewrite lookup_insert_ne|done].
    intros c x l. cbn [procs put]. intros [[<- <-]|[_ Hx]]%lookup_insert_Some Hst; [|by eapply Ha]. by injection Hst as <-. }
  inversion Hco; subst s; destruct o as [o|]; try done; injection E as <-.
  - apply Hmove. constructor.
  - exact (Hmove Return ltac:(constructor)).
  - split_and!.
    + intros c x l Hx Hst. assert (c ≠ pid) as Hcp.
      { intros ->. unfold terminate in Hx. rewrite Hq, Hpp in Hx. cbn [procs set_procs] in Hx.
        rewrite decide_True, lookup_alter_ne, lookup_delete_eq in Hx by done. done. }
      destruct (terminate_survivors _ _ _ _ _ _ Hq Hx Hcp) as (x0 & Hx0 & E1 & E2 & E3).
      rewrite E1 in Hst. destruct (Ha c x0 l Hx0 Hst) as (? & ? & Hx0p & Hx0pp). split_and!; try done.
      * rewrite E2; [done|]. rewrite Hpp. intros ->. congruence.
      * rewrite E3, Hx0pp. by destruct (decide (1%Z = pid)).
    + destruct (procs (terminate pid _ k) !! 1%Z) as [x|] eqn:Ex; [|done].
      destruct (terminate_survivors _ _ _ _ _ _ Hq Ex) as (x0 & Hx0 & _); [done|]. congruence.
    + unfold terminate. by rewrite Hq.
Qed.

Lemma sc_step k k' : sc_inv k → pstep code handler (λ _ _, false) k k' → sc_inv k'.
Proof.
  intros Hi [[pid o|pid sig|pid sig] E]; cbn [choose] in E; [| |done].
  - destruct Hi as [->|l p Hr|He]; [by eapply sc_start_step| |by eapply sc_ended, sc_ended_step].
    destruct (decide (pid = P)) as [->|]; [by eapply sc_parent_step|by eapply sc_child_step].
  - destruct Hi as [->|l p Hr|(Ha & _)]; [|by eapply sc_deliver_step|]; unfold deliver in E.
    + unfold first_proc in E. cbn [procs] in E. destruct (_ !! pid) as [p|] eqn:Ep; [|done].
      apply lookup_singleton_Some in Ep as [<- <-]. cbn in E. by rewrite decide_False in E by set_solver.
    + destruct (procs k !! pid) as [q|] eqn:Hq; [|done]. destruct (p_state q) as [s|] eqn:Es; [|done].
      destruct (Ha pid q s Hq Es) as (_ & _ & Hpe & _). by rewrite Hpe, decide_False in E by set_solver.
Qed.

Lemma sc_reach k : reach P sh k → sc_inv k.
Proof. intros H. eapply (preach_invariant _ _ _ sc_inv); [exact H|by apply sc_start|intros ? ?; apply sc_step]. Qed.
End sigchld.

(** ** Properties *)

(** C33. sigchld.c loses no child, under every interleaving of the parent, its
    twenty children and the signal: a dead child that has not been collected
    is announced by a pending SIGCHLD or the handler is collecting; so once
    the parent is in its final loop without that signal pending, no zombie is
    left, and when the signal is pending it can be delivered at once.  No
    child is collected twice.  (Deaths before the handler is installed are
    kept by the blocked signal, and several deaths may share one signal.) *)
Theorem sigchld_collects P sh k p :
  (1 < P)%Z → (1 < sh)%Z ∧ sh ≠ P → SigChld.reach P sh k → k.(procs) !! P = Some p →
  (∀ c q st l, p.(p_state) = Running l → c ≠ P → k.(procs) !! c = Some q → q.(p_state) = Zombie st →
     st = Exited 0 ∧ (SIGCHLD ∈ p.(p_pending) ∨ collecting l = true))
  ∧ (p.(p_state) = Running SigChld.PShow → SIGCHLD ∉ p.(p_pending) →
       ∀ c q st, c ≠ P → k.(procs) !! c = Some q → q.(p_state) ≠ Zombie st)
  ∧ (p.(p_state) = Running SigChld.PShow → SIGCHLD ∈ p.(p_pending) →
       is_Some (deliver SigChld.handler P SIGCHLD k))
  ∧ NoDup (collected k).
Proof.
  intros H1 H2 H Hp. apply sc_reach in H; [|done|done]. destruct H as [->|l p' Hr|(Ha & _ & Hn)].
  - unfold first_proc in *. cbn [procs] in *. apply lookup_singleton_Some in Hp as [_ <-]. split_and!; [|done|done|constructor].
    intros c q st l _ Hne. by rewrite lookup_singleton_ne.
  - destruct Hr as [[Hp' Hsh Hk Ho Ha] Hok Hc]. assert (p' = p) as -> by congruence. pose proof Hok as [].
    split_and!; [| | |apply Ho].
    + intros c q st l' Hl Hne Hq Hst. assert (l' = l) as -> by congruence. split; [|by eapply Hc].
      destruct (Hk c q Hne Hq) as (_ & [_ Hco] & _). rewrite Hst in Hco. by inversion Hco.
    + intros Hl Hnp c q st Hne Hq Hst. assert (l = SigChld.PShow) as -> by congruence.
      by destruct (Hc c q st Hne Hq Hst).
    + intros Hl Hin. assert (l = SigChld.PShow) as -> by congruence. unfold deliver. rewrite Hp, Hl.
      rewrite decide_True. 2:{ split; [done|]. by rewrite pk_blocked0. }
      case_decide; [by eexists|]. case_match; by eexists.
  - assert (∀ l, p.(p_state) ≠ Running l) as Hnr by (intros l Hl; by destruct (Ha P p l Hp Hl)).
    split_and!; [| | |done]; [intros c q st l Hl|intros Hl|intros Hl]; by apply Hnr in Hl.
Qed.

(** A run with two children that die before the handler is installed and share
    one signal. *)
Definition collect_schedule : list choice :=
  (Run 100 (Some 0) :: replicate 18 (Run 100 (Some 0)) ++ [Run 100 (Some 101); Run 100 (Some 102)]
   ++ replicate 3 (Run 101 (Some 0)) ++ replicate 3 (Run 102 (Some 0)) ++ replicate 4 (Run 100 (Some 0))
   ++ [Deliver 100 SIGCHLD; Run 100 (Some 0); Run 100 (Some 101); Run 100 (Some 0); Run 100 (Some 102); Run 100 (Some 0);
       Run 100 None; Run 100 (Some 0)])%Z.
Definition collected_run : kernel SigChld.local :=
  schedule SigChld.code SigChld.handler (λ _ _, false) collect_schedule (first_proc 100 99 SigChld.Block).

Lemma sigchld_collects_witness :
  collected collected_run = [101; 102]%Z ∧ NoDup (collected collected_run)
  ∧ ∃ p, collected_run.(procs) !! 100%Z = Some p ∧ p.(p_state) = Running SigChld.PShow.
Proof.
  split; [vm_compute; reflexivity|]. split; [|eexists; split; vm_compute; reflexivity].
  eapply (sigchld_collects 100 99 collected_run); [lia|lia|apply schedule_reach|vm_compute; reflexivity].
Defined.

(** ** Runs of the other programs *)

Definition alone {L} (code : Z → Z → L → action L) (cs : list choice) (l : L) : kernel L :=
  schedule code (λ _ l, l) (λ _ s, (s =? SIGKILL)%Z) cs (first_proc 100 99 l).

(** orphan.c: a child that outlives its parent sees process 1 as its parent. *)
Lemma orphan_run :
  (101%Z, line (B "i am child process, pid : 101, ppid : 1"))
  ∈ (alone Orphan.code ([Run 100 (Some 101)] ++ replicate 8 (Run 100 (Some 0)) ++ replicate 2 (Run 101 (Some 0)))%Z
       Orphan.Start).(out).
Proof. apply (bool_decide_unpack _). vm_compute. exact I. Qed.

(** zombie.c: the dead child stays in the process table. *)
Lemma zombie_run n :
  ∃ q, (alone ZombieC.code ([Run 100 (Some 101)] ++ replicate 7 (Run 101 (Some 0)) ++ replicate (2 + n) (Run 100 (Some 0)))%Z
       Orphan.Start).(procs) !! 101%Z = Some q ∧ q.(p_state) = Zombie (Exited 0).
Proof.
  unfold alone, schedule. rewrite replicate_add, !app_assoc, foldl_app.
  set (k := foldl _ _ (_ ++ _)). assert (∃ p q, k.(procs) !! 100%Z = Some p ∧ p.(p_state) = Running Orphan.PIds
    ∧ k.(procs) !! 101%Z = Some q ∧ q.(p_state) = Zombie (Exited 0)) as H.
  { eexists _, _. split_and!; vm_compute; reflexivity. }
  clearbody k. revert k H. induction n as [|n IH]; intros k (p & q & Hp & Hs & Hq & Hz); [by exists q|].
  cbn [replicate foldl]. apply IH.
  assert (choose ZombieC.code (λ _ l, l) (λ _ s, (s =? SIGKILL)%Z) (Run 100 (Some 0%Z)) k
    = perform 100 0 p (ZombieC.code 100 (p_ppid p) Orphan.PIds) k) as ->.
  { cbn [choose]. unfold run_proc. by rewrite Hp, Hs. }
  exists (go Orphan.PIds p), q. cbn [ZombieC.code perform from_option procs print_out put]. unfold id. cbn [procs].
  split; [exact (lookup_insert_eq _ _ _)|]. split; [done|]. split; [|done].
  etransitivity; [by apply (lookup_insert_ne (procs k) 100%Z)|done].
Qed.

(** kill.c: the child dies of the signal; wait.c: the parent reports how a
    child that was killed from outside has died. *)
Lemma kill_run :
  ∃ q, (alone KillC.code [Run 100 (Some 101); Run 101 (Some 0); Run 101 (Some 0); Run 100 (Some 0); Run 100 (Some 0);
     Run 100 (Some 0); Run 100 (Some 0); Deliver 101 SIGINT]%Z KillC.Start).(procs) !! 101%Z = Some q
    ∧ q.(p_state) = Zombie (Signaled SIGINT).
Proof. eexists. split; vm_compute; reflexivity. Qed.

Lemma wait_run :
  (alone (Wait.code false) ([Run 100 (Some 101)] ++ replicate 3 (Run 100 (Some 0))
     ++ [Run 100 (Some 102); Run 100 (Some 0); Run 100 (Some 0); Run 100 (Some 0); Send 101 SIGKILL; Deliver 101 SIGKILL;
         Run 100 (Some 101); Run 100 (Some 0)])%Z (Wait.Loop 0 0)).(out)
  = [(100%Z, line (B "parent, pid = 100")); (100%Z, line (B "被哪个信号干掉了：9"))].
Proof. vm_compute. reflexivity. Qed.
