(* ===== verification/WaitProofs.v ===== *)
(** * lesson21: wait.c and waitpid.c collect all their children *)
From S2P Require Import Prelude CString Processes Pipes Forks Households.

Section wait.
Import Wait.
Variables (nohang : bool) (outside : Z → Z → bool) (P sh : Z).
Hypothesis P_pid : (1 < P)%Z.
Hypothesis sh_pid : (1 < sh)%Z ∧ sh ≠ P.
Hypothesis spared : ∀ sig, outside P sig = false.

#[local] Abbreviation step := (pstep (code nohang) (λ _ l, l) outside).

(** What the parent prints about a child it has collected. *)
Definition show_line : bytes := line (B "parent, pid = " ++ dec P).
Definition status_line (st : wstatus) : bytes :=
  match st with
  | Exited c => line (B "退出的状态码：" ++ dec c)
  | Signaled s => line (B "被哪个信号干掉了：" ++ dec s)
  end.
Definition die_line (c : Z) : bytes := line (B "child die, pid = " ++ dec c).
Definition report_of (r : Z * Z * wstatus) : list bytes := [status_line r.2; die_line r.1.2].

(** What the parent has printed, and the lines of it that are reports. *)
Definition said (k : kernel local) : list bytes := map snd (filter (λ e, e.1 = P) k.(out)).
Definition reports (k : kernel local) : list bytes := filter (λ s, s ≠ show_line) (said k).
Definition due (k : kernel local) : list bytes := concat (map report_of k.(reaped)).

Inductive kid_at : pstate local → Prop :=
| kid_branch : kid_at (Running (Branch 0))
| kid_show : kid_at (Running CShow)
| kid_dead s : kid_at (Zombie (Signaled s)).
Definition kid (q : proc local) : Prop := kid_at q.(p_state).

(** The statements of the parent with what it has printed so far. *)
Inductive phase (k : kernel local) : local → Prop :=
| ph_loop i r : i ≤ 5 → length k.(forked) ≤ 2 + i → i = 0 ∨ r ≠ 0%Z → said k = [] → k.(reaped) = [] → phase k (Loop i r)
| ph_branch r : r ≠ 0%Z → said k = [] → k.(reaped) = [] → phase k (Branch r)
| ph_show : reports k = due k → phase k PShow
| ph_wait : reports k = due k → phase k PWait
| ph_status ret st : due k = reports k ++ report_of (P, ret, st) → phase k (PStatus ret st)
| ph_die ret : due k = reports k ++ [die_line ret] → phase k (PDie ret)
| ph_failed : said k = [] → k.(reaped) = [] → phase k Return
| ph_return : reports k = due k → (∀ c, (P, c) ∈ k.(forked) → c ∈ collected k) → phase k Return.

(** What is kept for good. *)
Record facts (k : kernel local) : Prop := {
  fa_once : NoDup (collected k);
  fa_killed : ∀ e, e ∈ k.(reaped) → ∃ c s, e = (P, c, Signaled s);
  fa_few : length k.(forked) ≤ 7
}.

Record running (k : kernel local) (l : local) (p : proc local) : Prop := {
  rn_house : household P sh kid k p;
  rn_state : p.(p_state) = Running l;
  rn_pending : p.(p_pending) ⊆ {[SIGCHLD]};
  rn_phase : phase k l;
  rn_facts : facts k
}.

(** The parent has ended; its children, if any, belong to [init]. *)
Record ended (k : kernel local) : Prop := {
  en_facts : facts k;
  en_parent : ∀ p, k.(procs) !! P = Some p → p.(p_state) = Zombie (Exited 0);
  en_kids : ∀ c q l, k.(procs) !! c = Some q → q.(p_state) = Running l → c ≠ P ∧ kid_at (Running l);
  en_done : said k = [] ∧ k.(reaped) = [] ∨ reports k = due k ∧ ∀ c, (P, c) ∈ k.(forked) → c ∈ collected k
}.

Inductive wt_inv (k : kernel local) : Prop :=
| wt_running l p : running k l p → wt_inv k
| wt_ended : ended k → wt_inv k.

(** ** Frames *)

(** The logs the facts are about; what others print does not matter. *)
Definition same_logs (k k' : kernel local) : Prop :=
  k'.(forked) = k.(forked) ∧ k'.(reaped) = k.(reaped) ∧ said k' = said k.

Lemma same_put x q k : same_logs k (put x q k).
Proof. by split_and!. Qed.
Lemma same_print x s k k' : x ≠ P → same_logs k k' → same_logs k (print_out x s k').
Proof.
  intros Hx (H1 & H2 & H3). split_and!; [done|done|]. unfold said in *. cbn. rewrite filter_app, map_app, H3.
  rewrite filter_cons_False by done. by rewrite app_nil_r.
Qed.
Lemma same_terminate x st k : same_logs k (terminate x st k).
Proof. unfold terminate. destruct (_ !! x); [|done]. by split_and!. Qed.

Lemma phase_same k k' l : same_logs k k' → phase k l → phase k' l.
Proof.
  intros (H1 & H2 & H3) Hp. destruct Hp; constructor; unfold reports, due, collected in *; rewrite ?H1, ?H2, ?H3; done.
Qed.
Lemma facts_same k k' : same_logs k k' → facts k → facts k'.
Proof. intros (H1 & H2 & _) []. split; unfold collected in *; rewrite ?H1, ?H2; done. Qed.

(** What the parent prints. *)
Lemma said_print k s : said (print_out P s k) = said k ++ [s].
Proof. unfold said. cbn. rewrite filter_app, map_app. by rewrite filter_cons_True. Qed.

Lemma reports_show k : reports (print_out P show_line k) = reports k.
Proof.
  unfold reports. rewrite said_print, filter_app. rewrite filter_cons_False by (intros H; by apply H). by rewrite app_nil_r.
Qed.
Lemma reports_line k s : s ≠ show_line → reports (print_out P s k) = reports k ++ [s].
Proof. intros H. unfold reports. rewrite said_print, filter_app. by rewrite filter_cons_True. Qed.

Lemma status_not_show st : status_line st ≠ show_line.
Proof. destruct st; unfold status_line, show_line, line; cbn; discriminate. Qed.
Lemma die_not_show c : die_line c ≠ show_line.
Proof. unfold die_line, show_line, line. cbn. discriminate. Qed.

Lemma reports_silent k : said k = [] → reports k = [].
Proof. unfold reports. by intros ->. Qed.

(** ** The steps of the parent *)

Lemma wt_parent_to k l p l' :
  running k l p → phase k l' → running (put P (go l' p) k) l' (go l' p).
Proof.
  intros [Hh Hs Hpe Hph Hf] Hph'. split; [by eapply household_move|done|done| |].
  - eapply phase_same; [apply same_put|done].
  - eapply facts_same; [apply same_put|done].
Qed.

Lemma parent_says k l p l' s :
  running k l p → phase (print_out P s k) l' → running (print_out P s (put P (go l' p) k)) l' (go l' p).
Proof.
  intros [Hh Hs Hpe Hph [H1 H2 H3]] Hph'. split; [by eapply household_print, household_move|done|done| |by split].
  eapply (phase_same (print_out P s k)); [|done]. by split_and!.
Qed.

Lemma wt_parent_forks k i r p o k' :
  running k (Loop i r) p → i < 5 →
  perform P o p (Fork (λ r, if (r =? 0)%Z then Branch 0 else Loop (S i) r)) k = Some k' → wt_inv k'.
Proof.
  intros Hr Hi E. pose proof Hr as [Hh Hs Hpe Hph Hf]. inversion Hph as [? ? ? Hlen Hor Hsaid Hre| | | | | | |]; subst.
  cbn [perform] in E. case_decide as Ho.
  - case_decide as Hd; [|done]. destruct Hd as (H1 & H2 & H3). injection E as <-.
    rewrite (proj2 (Z.eqb_neq o 0)) by lia. cbn [Z.eqb].
    set (child := Proc (Running (Branch 0)) P p.(p_fds) p.(p_blocked) ∅ p.(p_caught)).
    destruct (household_forks P sh P_pid sh_pid kid k p (go (Loop (S i) o) p) o child) as (Hh' & HPo & Hso); try done.
    { constructor. }
    eapply (wt_running _ (Loop (S i) o) (go (Loop (S i) o) p)). split; try done.
    + constructor; [lia| |right; lia|done|done]. cbn. rewrite length_app. cbn. lia.
    + destruct Hf. split; try done. cbn. rewrite length_app. cbn. lia.
  - injection E as <-. eapply wt_running, wt_parent_to; [exact Hr|]. constructor; [lia|lia|by right|done|done].
Qed.

Lemma wt_parent_reaps k p o k' :
  running k PWait p →
  perform P o p (Waitpid nohang (λ ret st, match st with Some st => PStatus ret st | None => if (ret =? -1)%Z then Return else PShow end)) k
  = Some k' → wt_inv k'.
Proof.
  intros Hr E. pose proof Hr as [Hh Hs Hpe Hph Hf]. inversion Hph as [| | |Hrep| | | |].
  cbn [perform] in E. destruct (procs k !! o) as [[[|st] ppid ? ? ? ?]|] eqn:Eo; try done.
  case_decide; [|done]. subst ppid. injection E as <-. assert (o ≠ P) as Hne.
  { intros ->. rewrite (hh_parent _ _ _ _ _ Hh) in Eo. injection Eo as ->. done. }
  destruct (hh_kids _ _ _ _ _ Hh o _ Hne Eo) as (_ & Hk & _). unfold kid in Hk. inversion Hk as [| |s]; subst st.
  eapply (wt_running _ (PStatus o (Signaled s)) (go (PStatus o (Signaled s)) p)).
  pose proof (household_reaps P sh P_pid sh_pid kid k p o (Signaled s) _ _ _ _ (PStatus o (Signaled s)) Hh Eo Hne) as Hh'.
  split; [done|done|done| |].
  - constructor. unfold due, reports, said in *. cbn. rewrite map_app, concat_app. cbn. by rewrite <- Hrep.
  - destruct Hf as [H1 H2 H3]. split; [apply Hh'| |done]. cbn. intros e [He|He%list_elem_of_singleton]%elem_of_app; [auto|eauto].
Qed.

Lemma wt_parent_finds_none k p k' :
  running k PWait p → no_child P p (code nohang P sh PWait) k = Some k' → wt_inv k'.
Proof.
  intros Hr E. pose proof Hr as [Hh Hs Hpe Hph Hf]. inversion Hph as [| | |Hrep| | | |]. cbn [code no_child] in E.
  destruct (decide (map_Exists _ _)) as [_|Hn].
  - destruct (decide (map_Exists _ _)); [done|]. destruct nohang; [|done]. injection E as <-.
    eapply wt_running, wt_parent_to; [exact Hr|by constructor].
  - injection E as <-. eapply wt_running, wt_parent_to; [exact Hr|]. apply ph_return; [done|].
    by eapply household_empty.
Qed.

Lemma parent_ends k p : running k Return p → wt_inv (terminate P (Exited 0) k).
Proof.
  intros [[Hp Hsh Hk Ho Ha] Hs Hpe Hph Hf]. apply wt_ended. pose proof (same_terminate P (Exited 0) k) as Hsame.
  destruct sh_pid as [Hs1 HsP].
  assert (procs (terminate P (Exited 0) k) !! P = Some (Proc (Zombie (Exited 0)) sh ∅ ∅ ∅ ∅)) as HP.
  { unfold terminate. rewrite Hp. cbn [procs set_procs]. rewrite Hsh, lookup_alter_ne, decide_False, lookup_insert_eq by lia. done. }
  split; [by eapply facts_same| | |].
  - intros q Hq. rewrite HP in Hq. by injection Hq as <-.
  - intros c q l Hq Hst. assert (c ≠ P) as Hne by (intros ->; rewrite HP in Hq; by injection Hq as <-). split; [done|].
    destruct (terminate_survivors _ _ _ _ _ _ Hp Hq Hne) as (q0 & H0 & Es & _).
    destruct (Hk c q0 Hne H0) as (_ & Hco & _). unfold kid in Hco. by rewrite <- Es, Hst in Hco.
  - destruct Hsame as (H1 & H2 & H3). unfold reports, due, collected in *. rewrite H1, H2, H3. inversion Hph; auto.
Qed.

Lemma wt_parent_step k l p o k' : running k l p → run_proc (code nohang) P o k = Some k' → wt_inv k'.
Proof.
  intros Hr E. pose proof Hr as [Hh Hs Hpe Hph Hf]. unfold run_proc in E.
  rewrite (hh_parent _ _ _ _ _ Hh), Hs, (hh_shell _ _ _ _ _ Hh) in E. destruct o as [o|].
  2:{ destruct Hph; cbn [code] in E; try done; [by destruct (decide (i < 5))|by eapply wt_parent_finds_none|by destruct st]. }
  destruct Hph as [i r Hi Hlen Hor Hsaid Hre|r Hr0 Hsaid Hre|Hrep|Hrep|ret st Hrep|ret Hrep|Hsaid Hre|Hrep Hall]; cbn [code] in E.
  - case_decide; [by eapply wt_parent_forks|]. injection E as <-. eapply wt_running, wt_parent_to; [exact Hr|].
    constructor; [|done|done]. destruct Hor as [->|]; [lia|done].
  - injection E as <-. eapply wt_running, wt_parent_to; [exact Hr|].
    destruct (0 <? r)%Z; [|rewrite (proj2 (Z.eqb_neq r 0)) by done; by apply ph_failed].
    constructor. rewrite (reports_silent _ Hsaid). unfold due. by rewrite Hre.
  - injection E as <-. eapply wt_running, parent_says; [exact Hr|]. constructor. exact (eq_trans (reports_show k) Hrep).
  - by eapply wt_parent_reaps.
  - assert (k' = print_out P (status_line st) (put P (go (PDie ret) p) k)) as -> by (destruct st; by injection E).
    eapply wt_running, parent_says; [exact Hr|]. constructor. unfold due in *. cbn [reaped print_out].
    rewrite reports_line, Hrep by apply status_not_show. by rewrite <- app_assoc.
  - injection E as <-. eapply wt_running, parent_says; [exact Hr|]. constructor. unfold due in *. cbn [reaped print_out].
    change (line _) with (die_line ret). by rewrite reports_line by apply die_not_show.
  - injection E as <-. by eapply parent_ends.
  - injection E as <-. by eapply parent_ends.
Qed.

(** ** The steps of the children, and signals *)

Lemma wt_kid_moves k l p c q q' s :
  running k l p → c ≠ P → k.(procs) !! c = Some q → q'.(p_ppid) = q.(p_ppid) → q'.(p_state) = s → kid_at s →
  running (put c q' k) l p.
Proof.
  intros [Hh Hs Hpe Hph Hf] Hne Hq Hpp <- Hk.
  split; [by eapply household_kid|done|done|by eapply phase_same; [apply same_put|]|by eapply facts_same; [apply same_put|]].
Qed.

Lemma running_hears k l p x s : running k l p → x ≠ P → running (print_out x s k) l p.
Proof.
  intros [Hh Hs Hpe Hph Hf] Hx. assert (same_logs k (print_out x s k)) as Hsame by (by apply same_print).
  split; [by apply household_print|done|done|by eapply phase_same|by eapply facts_same].
Qed.

Lemma kid_killed k l p c q sig :
  running k l p → c ≠ P → k.(procs) !! c = Some q → wt_inv (terminate c (Signaled sig) k).
Proof.
  intros [Hh Hs Hpe Hph Hf] Hne Hq.
  destruct (household_ends P sh P_pid sh_pid kid k p c q (Signaled sig) l Hh Hs Hne Hq) as [Hh' _]; [constructor|].
  eapply wt_running. split; [exact Hh'|exact Hs|cbn; set_solver|by eapply phase_same; [apply same_terminate|]
    |by eapply facts_same; [apply same_terminate|]].
Qed.

Lemma wt_child_step k l p c o k' : running k l p → c ≠ P → run_proc (code nohang) c o k = Some k' → wt_inv k'.
Proof.
  intros Hr Hne E. unfold run_proc in E. destruct (procs k !! c) as [q|] eqn:Hq; [|done].
  destruct (hh_kids _ _ _ _ _ (rn_house _ _ _ Hr) c q Hne Hq) as (_ & Hk & _). unfold kid in Hk.
  destruct (p_state q) as [s|] eqn:Es; [|done]. inversion Hk; subst s; destruct o as [o|]; try done; injection E as <-.
  - eapply wt_running, wt_kid_moves; eauto; constructor.
  - eapply wt_running, running_hears; [|done]. eapply wt_kid_moves; eauto; constructor.
Qed.

Lemma wt_deliver_step k l p pid sig k' : running k l p → deliver (λ _ l, l) pid sig k = Some k' → wt_inv k'.
Proof.
  intros Hr E. pose proof Hr as [Hh Hs Hpe Hph Hf]. unfold deliver in E. destruct (decide (pid = P)) as [->|Hne].
  - rewrite (hh_parent _ _ _ _ _ Hh), Hs in E. case_decide as Hd; [|done]. destruct Hd as [Hin _].
    assert (sig = SIGCHLD) as -> by (apply Hpe in Hin; set_solver).
    assert (∀ p', p'.(p_ppid) = p.(p_ppid) → p'.(p_state) = Running l → p'.(p_pending) ⊆ {[SIGCHLD]} → wt_inv (put P p' k)) as Hput.
    { intros p' H1 H2 H3. eapply wt_running. split; [by eapply household_move|exact H2|done|by eapply phase_same; [apply same_put|]
        |by eapply facts_same; [apply same_put|]]. }
    cbn [p_caught set_pending] in E. case_decide; injection E as <-; apply Hput; try done; cbn; set_solver.
  - destruct (procs k !! pid) as [q|] eqn:Hq; [|done].
    destruct (hh_kids _ _ _ _ _ Hh pid q Hne Hq) as (_ & Hk & _). unfold kid in Hk.
    destruct (p_state q) as [s|] eqn:Es; [|done]. case_decide; [|done]. cbn [p_caught set_pending] in E.
    case_decide; [injection E as <-; by eapply wt_running, wt_kid_moves; eauto|].
    destruct (sig =? SIGCHLD)%Z; injection E as <-; [by eapply wt_running, wt_kid_moves; eauto|by eapply kid_killed].
Qed.

Lemma post_state sig (q : proc local) : (post sig q).(p_state) = q.(p_state) ∧ (post sig q).(p_ppid) = q.(p_ppid).
Proof. unfold post. by destruct (p_state q) eqn:E. Qed.

Lemma alter_put k (f : proc local → proc local) x q :
  k.(procs) !! x = Some q → set_procs (alter f x k.(procs)) k = put x (f q) k.
Proof.
  intros Hq. unfold put, set_procs. f_equal. apply map_eq. intros y. destruct (decide (y = x)) as [->|].
  - by rewrite lookup_alter_eq, Hq, lookup_insert_eq.
  - by rewrite lookup_alter_ne, lookup_insert_ne.
Qed.

Lemma wt_send_step k l p pid sig k' : running k l p → send outside pid sig k = Some k' → wt_inv k'.
Proof.
  intros Hr E. unfold send in E. destruct (outside pid sig) eqn:Eo; [|done]. cbn [andb] in E.
  case_bool_decide as Hq; [|done]. destruct Hq as [q Hq]. injection E as <-. rewrite (alter_put _ _ _ _ Hq).
  assert (pid ≠ P) as Hne by (intros ->; by rewrite spared in Eo). destruct (post_state sig q) as [H1 H2].
  destruct (hh_kids _ _ _ _ _ (rn_house _ _ _ Hr) pid q Hne Hq) as (_ & Hk & _).
  eapply wt_running, wt_kid_moves; eauto.
Qed.

(** ** After the parent has ended *)

(** A step that keeps the logs and the processes up to their signals. *)
Lemma ended_frame k k' :
  ended k → same_logs k k' →
  (∀ x y, k'.(procs) !! x = Some y → ∃ y0, k.(procs) !! x = Some y0 ∧
     (y.(p_state) = y0.(p_state) ∨ ∃ l0, y0.(p_state) = Running l0 ∧ ∀ l, y.(p_state) = Running l → kid_at (Running l))) →
  ended k'.
Proof.
  intros [Hf Hp Hk Hd] Hsame Hpr. split; [by eapply facts_same| | |].
  - intros q Hq. destruct (Hpr P q Hq) as (y0 & H0 & [->|(l0 & H1 & _)]); [auto|]. by destruct (Hk P y0 l0 H0 H1).
  - intros c q l Hq Hst. destruct (Hpr c q Hq) as (y0 & H0 & [E|(l0 & H1 & H2)]).
    + rewrite E in Hst. eauto.
    + destruct (Hk c y0 l0 H0 H1). eauto.
  - destruct Hsame as (H1 & H2 & H3). unfold reports, due, collected in *. by rewrite H1, H2, H3.
Qed.

Lemma ended_put k x q q' :
  ended k → k.(procs) !! x = Some q →
  (q'.(p_state) = q.(p_state) ∨ ∃ l0, q.(p_state) = Running l0 ∧ ∀ l, q'.(p_state) = Running l → kid_at (Running l)) →
  ended (put x q' k).
Proof.
  intros He Hq Hor. eapply ended_frame; [done|apply same_put|]. cbn. intros y z [[<- <-]|[_ Hz]]%lookup_insert_Some; eauto.
Qed.

Lemma ended_terminate k x q l st :
  ended k → k.(procs) !! x = Some q → q.(p_state) = Running l → ended (terminate x st k).
Proof.
  intros He Hq Hl. eapply ended_frame; [done|apply same_terminate|]. intros y z Hz.
  destruct (decide (y = x)) as [->|Hne].
  - exists q. split; [done|]. right. exists l. split; [done|]. intros l' Hl'. exfalso.
    unfold terminate in Hz. rewrite Hq in Hz. cbn [procs set_procs] in Hz.
    destruct (decide (p_ppid q = x)) as [Hpx|Hpx].
    + rewrite Hpx in Hz. rewrite lookup_alter_eq in Hz. apply fmap_Some in Hz as (z0 & Hz & ->). destruct (post_state SIGCHLD z0) as [E _].
      rewrite E in Hl'. case_decide; [by rewrite lookup_delete_eq in Hz|].
      rewrite lookup_insert_eq in Hz. by injection Hz as <-.
    + rewrite lookup_alter_ne in Hz by done. case_decide; [by rewrite lookup_delete_eq in Hz|].
      rewrite lookup_insert_eq in Hz. by injection Hz as <-.
  - destruct (terminate_survivors _ _ _ _ _ _ Hq Hz Hne) as (q0 & H0 & Es & _). eauto.
Qed.

Lemma ended_step k k' : ended k → step k k' → ended k'.
Proof.
  intros He [[pid o|pid sig|pid sig] E]; cbn [choose] in E; unfold run_proc, deliver, send in E.
  - destruct (procs k !! pid) as [q|] eqn:Hq; [|done]. destruct (p_state q) as [s|] eqn:Es; [|done].
    destruct (en_kids _ He pid q s Hq Es) as [Hne Hk]. inversion Hk; subst s; destruct o as [o|]; try done; injection E as <-.
    + eapply ended_put; [done|done|]. right. eexists. split; [done|]. intros l [= <-]. constructor.
    + eapply (ended_frame k); [done|by apply same_print, same_put|]. cbn.
      intros y z [[<- <-]|[_ Hz]]%lookup_insert_Some; [|eauto]. exists q. split; [done|]. right. eexists. split; [done|].
      intros l [= <-]. constructor.
  - destruct (procs k !! pid) as [q|] eqn:Hq; [|done]. destruct (p_state q) as [s|] eqn:Es; [|done].
    destruct (decide _); [|done]. destruct (decide _); [injection E as <-; eapply ended_put; [done|done|left; by rewrite Es]|].
    destruct (sig =? SIGCHLD)%Z; injection E as <-; [eapply ended_put; [done|done|by left]|by eapply ended_terminate].
  - destruct (outside pid sig && _) eqn:Ec; [|done]. apply andb_prop in Ec as [_ [q Hq]%bool_decide_eq_true].
    injection E as <-. rewrite (alter_put _ _ _ _ Hq). eapply ended_put; [done|done|]. left. apply post_state.
Qed.

Lemma wt_step k k' : wt_inv k → step k k' → wt_inv k'.
Proof.
  intros [l p Hr|He] Hs; [|by eapply wt_ended, ended_step]. destruct Hs as [[pid o|pid sig|pid sig] E]; cbn [choose] in E.
  - destruct (decide (pid = P)) as [->|]; [by eapply wt_parent_step|by eapply wt_child_step].
  - by eapply wt_deliver_step.
  - by eapply wt_send_step.
Qed.

Lemma wt_start : wt_inv (first_proc P sh (Loop 0 0)).
Proof.
  pose (p := Proc (Running (Loop 0 0)) sh std_fds ∅ ∅ ∅ : proc local). eapply (wt_running _ (Loop 0 0) p).
  assert (put P p (first_proc P sh (Loop 0 0)) = first_proc P sh (Loop 0 0)) as E.
  { unfold put, first_proc. cbn. by rewrite insert_singleton_eq. }
  split; [rewrite <- E; by apply household_start|done|apply empty_subseteq|constructor; auto; cbn; lia|].
  split; [constructor|by intros e He%elem_of_nil|cbn; lia].
Qed.

Lemma wt_reach k : preach (code nohang) (λ _ l, l) outside (first_proc P sh (Loop 0 0)) k → wt_inv k.
Proof. intros H. eapply (preach_invariant _ _ _ wt_inv); [exact H|apply wt_start|intros ? ?; apply wt_step]. Qed.
End wait.

(** ** Properties *)

(** wait.c and waitpid.c collect their children, under every interleaving of
    the parent, its children and signals sent to the children: no more than five
    children are forked, each is collected at most once, and each that is
    collected was killed by a signal; the parent reports the collected children
    in order, with the signal that killed them; a dead child can be collected at
    once when the parent waits; and when the parent has ended, it has printed
    nothing (its last [fork] failed) or has collected and reported every child it
    forked. *)
Theorem wait_collects nohang outside P sh k :
  (1 < P)%Z → (1 < sh)%Z ∧ sh ≠ P → (∀ sig, outside P sig = false) →
  preach (Wait.code nohang) (λ _ l, l) outside (first_proc P sh (Wait.Loop 0 0)) k →
  length k.(forked) ≤ length (history P sh) + 5 ∧ NoDup (collected k)
  ∧ (∀ e, e ∈ k.(reaped) → ∃ c s, e = (P, c, Signaled s))
  ∧ reports P k `prefix_of` due k
  ∧ (∀ p c q st, k.(procs) !! P = Some p → p.(p_state) = Running Wait.PWait →
       c ≠ P → k.(procs) !! c = Some q → q.(p_state) = Zombie st → is_Some (run_proc (Wait.code nohang) P (Some c) k))
  ∧ (∀ p st, k.(procs) !! P = Some p → p.(p_state) = Zombie st →
       st = Exited 0 ∧ (said P k = [] ∨ reports P k = due k ∧ ∀ c, (P, c) ∈ k.(forked) → c ∈ collected k)).
Proof.
  intros H1 H2 H3 H. apply wt_reach in H; [|done..].
  assert (facts P k) as [Ho Hk Hf] by (by destruct H as [l p []|[]]). split_and!; [exact Hf|done|done|..].
  - destruct H as [l p Hr|[_ _ _ [[Hs Hre]|[-> _]]]]; [|by rewrite (reports_silent _ _ Hs); apply prefix_nil|done].
    destruct (rn_phase _ _ _ _ _ Hr) as [? ? ? ? ? Hs ?|? ? Hs ?| -> | -> |? ? ->|? ->|Hs ?| -> _];
      rewrite ?(reports_silent _ _ Hs); try apply prefix_nil; try done; by eexists.
  - intros p c q st Hp Hl Hne Hq Hst. destruct H as [l p' [Hh _ _ _ _]|[_ He _ _]]; [|by rewrite (He p Hp) in Hl].
    unfold run_proc. rewrite Hp, Hl. cbn [Wait.code perform]. rewrite Hq.
    destruct (hh_kids _ _ _ _ _ Hh c q Hne Hq) as [Hpp _]. destruct q as [s ? ? ? ? ?]. cbn in Hst, Hpp. subst.
    rewrite decide_True by done. by eexists.
  - intros p st Hp Hst. destruct H as [l p' [Hh Hs _ _ _]|[_ He _ Hd]].
    + rewrite (hh_parent _ _ _ _ _ Hh) in Hp. injection Hp as ->. congruence.
    + rewrite (He p Hp) in Hst. injection Hst as <-. split; [done|]. naive_solver.
Qed.

(** Two of the five forks succeed; both children are killed and collected. *)
Definition wait_schedule : list choice :=
  ([Run 100 (Some 101)] ++ replicate 3 (Run 100 (Some 0)) ++ [Run 100 (Some 102)] ++ replicate 3 (Run 100 (Some 0))
   ++ [Send 101 SIGKILL; Deliver 101 SIGKILL; Run 100 (Some 101)] ++ replicate 3 (Run 100 (Some 0))
   ++ [Send 102 SIGINT; Deliver 102 SIGINT; Run 100 (Some 102)] ++ replicate 3 (Run 100 (Some 0))
   ++ [Run 100 None; Run 100 (Some 0)])%Z.
Definition waited_run : kernel Wait.local :=
  schedule (Wait.code false) (λ _ l, l) (λ pid _, negb (pid =? 100)%Z) wait_schedule (first_proc 100 99 (Wait.Loop 0 0)).

Lemma wait_collects_witness :
  waited_run.(reaped) = [(100%Z, 101%Z, Signaled SIGKILL); (100%Z, 102%Z, Signaled SIGINT)]
  ∧ (said 100 waited_run = [] ∨ reports 100 waited_run = due waited_run
     ∧ ∀ c, (100%Z, c) ∈ waited_run.(forked) → c ∈ collected waited_run).
Proof.
  split; [vm_compute; reflexivity|].
  destruct (wait_collects false (λ pid _, negb (pid =? 100)%Z) 100 99 waited_run) as (_ & _ & _ & _ & _ & H);
    [lia|lia|reflexivity|apply schedule_reach|].
  eapply H; [vm_compute; reflexivity|reflexivity].
Defined.
