(* ===== verification/SharedMem.v ===== *)
(** * Memory shared between processes: lesson25

    mmap-parent-child-ipc.c, where the child writes into a mapped file and the
    parent waits for it before it reads, and mmap-anon.c, where the parent
    writes into an anonymous mapping and the child only sleeps before it reads.
    [strcpy] and [printf] access the memory byte by byte. *)
From S2P Require Import Prelude CString Processes Pipes Forks.

(** The pages that hold a file: its bytes and zeros to the end of the page. *)
Definition PAGE : nat := 4096.
Definition pages (content : bytes) : bytes :=
  content ++ replicate (PAGE * ((length content + PAGE - 1) / PAGE) - length content) NUL.

(** ** mmap-parent-child-ipc.c *)
Module MmapIpc.

Inductive local :=
| Start | MapError | Forking (ptr : nat) | Branch (ptr : nat) (pid : Z)
| PWait (ptr : nat) | PCopy (ptr : nat) (buf : bytes) | PPrint (ptr : nat) (buf : bytes) | Overrun
| CCopy (ptr : nat) (i : nat)
| Munmap (ptr : nat) | Return.

(** The text and its terminator. *)
Definition message : bytes := B "nihao a, son!!!" ++ [NUL].
(** The size of the parent's [buf]. *)
Definition BUF : nat := 64.

Section ipc.
(** The file test.txt; [None] when it cannot be opened. *)
Variable file : option bytes.

(** A file that is missing or empty cannot be mapped: [size] is -1 or 0. *)
Definition code (pid ppid : Z) (l : local) : action local :=
  match l with
  | Start =>
      match file with
      | None | Some [] => Compute MapError
      | Some content => Mmap (pages content) (λ r, match r with Some ptr => Forking ptr | None => MapError end)
      end
  | MapError => Write 2 (B "mmap: " ++ (match file with None => B "Bad file descriptor" | Some [] => B "Invalid argument"
                                        | _ => B "Cannot allocate memory" end) ++ [LF]) (λ _, Return)
  | Forking ptr => Fork (Branch ptr)
  | Branch ptr r => Compute (if (0 <? r)%Z then PWait ptr else if (r =? 0)%Z then CCopy ptr 0 else Munmap ptr)
  | PWait ptr => Waitpid false (λ _ _, PCopy ptr [])
  | PCopy ptr buf =>
      if decide (length buf < BUF) then
        Peek ptr (length buf) (λ b, if Ascii.eqb b NUL then PPrint ptr buf else PCopy ptr (buf ++ [b]))
      else Compute Overrun
  | PPrint ptr buf => Print (line (B "read data : " ++ buf)) (Munmap ptr)
  | Overrun => Compute Overrun                      (* undefined: buf is too small *)
  | CCopy ptr i =>
      match message !! i with
      | Some b => Poke ptr i b (CCopy ptr (S i))
      | None => Compute (Munmap ptr)
      end
  | Munmap ptr => Compute Return
  | Return => Exit 0
  end.
End ipc.
End MmapIpc.

(** ** mmap-anon.c *)
Module MmapAnon.

Inductive local :=
| Start | MapError | Forking (ptr : nat) | Branch (ptr : nat) (pid : Z)
| PCopy (ptr : nat) (i : nat) | PWait
| CRead (ptr : nat) (s : bytes) | CPrint (s : bytes)
| Munmap | Return.

Definition message : bytes := B "hello, world" ++ [NUL].

Definition code (pid ppid : Z) (l : local) : action local :=
  match l with
  | Start => Mmap (replicate PAGE NUL) (λ r, match r with Some ptr => Forking ptr | None => MapError end)
  | MapError => Write 2 (B "mmap: Cannot allocate memory" ++ [LF]) (λ _, Return)
  | Forking ptr => Fork (Branch ptr)
  | Branch ptr r => Compute (if (0 <? r)%Z then PCopy ptr 0 else if (r =? 0)%Z then CRead ptr [] else Munmap)
  | PCopy ptr i =>
      match message !! i with
      | Some b => Poke ptr i b (PCopy ptr (S i))
      | None => Compute PWait
      end
  | PWait => Waitpid false (λ _ _, Munmap)
  | CRead ptr s => Peek ptr (length s) (λ b, if Ascii.eqb b NUL then CPrint s else CRead ptr (s ++ [b]))
  | CPrint s => Print (line s) Munmap
  | Munmap => Compute Return
  | Return => Exit 0
  end.
End MmapAnon.
