(* ===== verification/SharedMemProofs.v ===== *)
(** * lesson25: what the processes read from shared memory *)
From S2P Require Import Prelude CString Processes Pipes Forks Households SharedMem.

(** ** mmap-parent-child-ipc.c *)

Section ipc.
Import MmapIpc.
Variables (content : bytes) (P sh : Z).
Hypothesis content_some : content ≠ [].
Hypothesis P_pid : (1 < P)%Z.
Hypothesis sh_pid : (1 < sh)%Z ∧ sh ≠ P.

#[local] Abbreviation prog := (code (Some content)).
#[local] Abbreviation step := (pstep prog (λ _ l, l) (λ _ _, false)).

Definition text : bytes := B "nihao a, son!!!".
Definition told : bytes := line (B "read data : " ++ text).
Definition map_error : bytes := B "mmap: " ++ B "Cannot allocate memory" ++ [LF].
Definition heard (k : kernel local) : list bytes := map snd (filter (λ e, e.1 = P) k.(out)).

(** The statements of the child with the memory [m]. *)
Inductive child_at (m : bytes) : pstate local → Prop :=
| at_branch : child_at m (Running (Branch 0 0))
| at_copy i : i ≤ 16 → take i m = take i message → child_at m (Running (CCopy 0 i))
| at_unmap : take 16 m = message → child_at m (Running (Munmap 0))
| at_return : take 16 m = message → child_at m (Running Return)
| at_dead : take 16 m = message → child_at m (Zombie (Exited 0)).

Definition kid (q : proc local) : Prop := q.(p_pending) = ∅.

(** The statements of the parent: alone, with its child, and after it. *)
Inductive alone_at (k : kernel local) : local → Prop :=
| al_start : k.(mem) = [] → alone_at k Start
| al_error : alone_at k MapError
| al_forking m : k.(mem) = [m] → 16 ≤ length m → alone_at k (Forking 0)
| al_branch : alone_at k (Branch 0 (-1))
| al_unmap : alone_at k (Munmap 0)
| al_return : alone_at k Return.
Inductive done_at (k : kernel local) : local → Prop :=
| do_copy buf : buf = take (length buf) text → length buf ≤ 15 → heard k = [] → done_at k (PCopy 0 buf)
| do_print : heard k = [] → done_at k (PPrint 0 text)
| do_unmap : heard k = [told] → done_at k (Munmap 0)
| do_return : heard k = [told] → done_at k Return.

Inductive phase (k : kernel local) (l : local) : Prop :=
| ph_alone :
    k.(forked) = history P sh → k.(reaped) = [] → heard k = [] ∨ heard k = [map_error] ∧ l = Return → alone_at k l → phase k l
| ph_waiting c m :
    k.(forked) = history P sh ++ [(P, c)] → k.(reaped) = [] → heard k = [] → (0 < c)%Z →
    l = Branch 0 c ∨ l = PWait 0 → k.(mem) = [m] → 16 ≤ length m →
    (∀ q, k.(procs) !! c = Some q → child_at m q.(p_state)) → phase k l
| ph_done c m :
    k.(forked) = history P sh ++ [(P, c)] → k.(reaped) = [(P, c, Exited 0)] →
    k.(mem) = [m] → take 16 m = message → done_at k l → phase k l.

Record running (k : kernel local) (l : local) (p : proc local) : Prop := {
  rn_house : household P sh kid k p;
  rn_state : p.(p_state) = Running l;
  rn_pending : p.(p_pending) ⊆ {[SIGCHLD]};
  rn_fds : p.(p_fds) = std_fds;
  rn_phase : phase k l
}.

Inductive mm_inv (k : kernel local) : Prop :=
| mm_running l p : running k l p → mm_inv k
| mm_ended :
    k.(procs) = {[P := Proc (Zombie (Exited 0)) sh ∅ ∅ ∅ ∅]} →
    (k.(forked) = history P sh ∧ (heard k = [] ∨ heard k = [map_error])
     ∨ heard k = [told] ∧ (∃ m, k.(mem) = [m] ∧ take 16 m = message) ∧ ∃ c, k.(reaped) = [(P, c, Exited 0)]) →
    mm_inv k.

(** *** The processes *)

Lemma only_kid k p c x q :
  household P sh kid k p → k.(forked) = history P sh ++ [(P, c)] → x ≠ P → k.(procs) !! x = Some q → x = c.
Proof.
  intros Hh Hf Hx Hq. destruct (hh_kids _ _ _ _ _ Hh x q Hx Hq) as (_ & _ & Hin & _ & Hsh & _).
  unfold pids in Hin. rewrite Hf in Hin. cbn in Hin. set_solver.
Qed.

Lemma no_kid k p l x q :
  running k l p → (∀ c, l ≠ Branch 0 c ∨ c = (-1)%Z) → l ≠ PWait 0 → k.(procs) !! x = Some q → x = P ∧ q = p.
Proof.
  intros [Hh _ _ _ Hph] Hb Hw Hq. destruct (decide (x = P)) as [->|Hx].
  { rewrite (hh_parent _ _ _ _ _ Hh) in Hq. by injection Hq as <-. }
  exfalso. destruct (hh_kids _ _ _ _ _ Hh x q Hx Hq) as (_ & _ & Hin & Hnc & Hsh & _).
  destruct Hph as [Hf _ _ _|c m Hf _ _ H0 [-> | ->] _ _ _|c m Hf Hre _ _ _].
  - unfold pids in Hin. rewrite Hf in Hin. cbn in Hin. set_solver.
  - destruct (Hb c) as [|]; [done|lia].
  - done.
  - rewrite (only_kid _ _ _ _ _ Hh Hf Hx Hq) in Hnc. apply Hnc. unfold collected. rewrite Hre. by left.
Qed.

(** A step of the parent that changes its own state only. *)
Lemma mm_parent_to k l p l' p' :
  running k l p → p'.(p_ppid) = p.(p_ppid) → p'.(p_state) = Running l' → p'.(p_pending) ⊆ {[SIGCHLD]} → p'.(p_fds) = p.(p_fds) →
  phase (put P p' k) l' → mm_inv (put P p' k).
Proof. intros [Hh _ _ Hfd _] Hpp Hs Hpe Hfd' Hph. eapply mm_running. split; [by eapply household_move|done..|congruence|done]. Qed.

Lemma parent_goes k l p l' :
  running k l p → phase (put P (go l' p) k) l' → mm_inv (put P (go l' p) k).
Proof. intros Hr. eapply mm_parent_to; [exact Hr|done|done|apply Hr|done]. Qed.

Lemma pages_long : 16 ≤ length (pages content).
Proof.
  unfold pages. rewrite length_app, length_replicate. destruct content as [|b r]; [done|]. set (n := length (b :: r)).
  assert (1 ≤ n) as Hn by (unfold n; cbn; lia).
  assert (1 ≤ (n + PAGE - 1) / PAGE) as Hd by (apply Nat.div_le_lower_bound; unfold PAGE; lia).
  unfold PAGE in *. lia.
Qed.

Lemma ends_alone k p l : running k l p → (∀ c, l ≠ Branch 0 c ∨ c = (-1)%Z) → l ≠ PWait 0 →
  procs (terminate P (Exited 0) k) = {[P := Proc (Zombie (Exited 0)) sh ∅ ∅ ∅ ∅]}.
Proof.
  intros Hr Hb Hw. pose proof (rn_house _ _ _ Hr) as Hh. destruct sh_pid as [Hs1 HsP].
  assert (k.(procs) = {[P := p]}) as Hk.
  { apply map_eq. intros x. destruct (decide (x = P)) as [->|Hx]; [rewrite lookup_singleton_eq; apply Hh|].
    rewrite lookup_singleton_ne by done. destruct (procs k !! x) eqn:E; [|done]. by apply (no_kid _ _ _ _ _ Hr Hb Hw) in E as [? _]. }
  rewrite (terminate_leaf P p).
  - cbn. rewrite (hh_shell _ _ _ _ _ Hh), Hk, insert_singleton_eq. apply map_eq. intros x.
    destruct (decide (x = sh)) as [->|]; [by rewrite lookup_alter_eq, lookup_singleton_ne|by rewrite lookup_alter_ne].
  - apply Hh.
  - rewrite (hh_shell _ _ _ _ _ Hh). lia.
  - intros x q Hx. rewrite Hk in Hx. apply lookup_singleton_Some in Hx as [_ <-]. by rewrite (hh_shell _ _ _ _ _ Hh).
Qed.

(** *** The steps of the parent *)

Lemma heard_print k x s : heard (print_out x s k) = if decide (x = P) then heard k ++ [s] else heard k.
Proof.
  unfold heard. cbn. rewrite filter_app, map_app. case_decide.
  - by rewrite filter_cons_True.
  - rewrite filter_cons_False by done. by rewrite app_nil_r.
Qed.

Lemma ends_phase k l p :
  running k l p → l = Return → mm_inv (terminate P (Exited 0) k).
Proof.
  intros Hr ->. pose proof (ends_alone _ _ _ Hr ltac:(by left) ltac:(done)) as Hpr. apply mm_ended; [done|].
  assert (heard (terminate P (Exited 0) k) = heard k ∧ forked (terminate P (Exited 0) k) = k.(forked)
    ∧ reaped (terminate P (Exited 0) k) = k.(reaped) ∧ mem (terminate P (Exited 0) k) = k.(mem)) as (-> & -> & -> & ->).
  { unfold terminate. by destruct (_ !! P). }
  destruct (rn_phase _ _ _ Hr) as [Hf _ Hor _|c m Hf _ _ _ [|] _ _ _|c m Hf Hre Hm Hmsg Hd]; [|done|done|].
  - left. split; [done|]. naive_solver.
  - right. inversion Hd; subst. eauto 10.
Qed.

(** A file with bytes in it is mapped. *)
Lemma code_start : prog P sh Start = Mmap (pages content) (λ r, match r with Some ptr => Forking ptr | None => MapError end).
Proof. by destruct content. Qed.

Lemma mm_forks k p o m k' :
  running k (Forking 0) p → k.(forked) = history P sh → k.(reaped) = [] → heard k = [] → k.(mem) = [m] → 16 ≤ length m →
  perform P o p (Fork (Branch 0)) k = Some k' → mm_inv k'.
Proof.
  intros Hr Hf Hre Hh Hm Hlen E. cbn [perform] in E. case_decide as Ho.
  - case_decide as Hd; [|done]. destruct Hd as (H1 & H2 & H3). injection E as <-.
    set (child := Proc (Running (Branch 0 0)) P p.(p_fds) p.(p_blocked) ∅ p.(p_caught)).
    destruct (household_forks P sh P_pid sh_pid kid k p (go (Branch 0 o) p) o child (rn_house _ _ _ Hr)) as (Hh' & HPo & Hso); try done.
    eapply (mm_running _ (Branch 0 o) (go (Branch 0 o) p)). split; [done|done|apply Hr|apply Hr|].
    apply (ph_waiting _ _ o m); try done; [by cbn; rewrite Hf|by left|]. cbn. rewrite lookup_insert_eq.
    intros q [= <-]. constructor.
  - injection E as <-. eapply parent_goes; [exact Hr|]. apply ph_alone; [done|done|by left|constructor].
Qed.

Lemma mm_alone_step k l p o k' :
  running k l p → k.(forked) = history P sh → k.(reaped) = [] → heard k = [] ∨ heard k = [map_error] ∧ l = Return →
  alone_at k l → perform P o p (prog P sh l) k = Some k' → mm_inv k'.
Proof.
  intros Hr Hf Hre Hh Hl E. pose proof (rn_house _ _ _ Hr) as Hho.
  assert (∀ l', heard k = [] → alone_at (put P (go l' p) k) l' → mm_inv (put P (go l' p) k)) as Hto
    by (intros l' Hs Hl'; eapply parent_goes; [exact Hr|apply ph_alone; auto]).
  destruct Hl as [Hm| |m Hm Hlen| | |]; [rewrite code_start in E|cbn [code] in E..].
  6:{ injection E as <-. by eapply ends_phase. }
  all: destruct Hh as [Hh|[_ [=]]].
  - cbn [perform] in E. case_decide.
    + injection E as <-. apply Hto; [done|constructor].
    + injection E as <-. rewrite Hm. cbn [length app]. eapply (mm_running _ (Forking 0) (go (Forking 0) p)). split; [|done|apply Hr|apply Hr|].
      * destruct (household_move P sh kid k p (go (Forking 0) p) Hho eq_refl). by split.
      * apply ph_alone; [done|done|by left|]. by eapply (al_forking _ (pages content)), pages_long.
  - cbn [perform] in E. rewrite (rn_fds _ _ _ Hr) in E. change (std_fds !! 2%Z) with (Some Tty) in E. injection E as <-.
    eapply mm_running. split; [by eapply household_print, household_move|done|apply Hr|apply Hr|].
    apply ph_alone; [done|done| |constructor]. right. split; [|done]. rewrite heard_print, decide_True by done.
    unfold heard in *. cbn [out put]. rewrite Hh. by destruct content.
  - by eapply mm_forks.
  - injection E as <-. apply Hto; [done|constructor].
  - injection E as <-. apply Hto; [done|constructor].
Qed.

Lemma mm_reaps k p c m o k' :
  running k (PWait 0) p → k.(forked) = history P sh ++ [(P, c)] → k.(reaped) = [] → heard k = [] → k.(mem) = [m] →
  (∀ q, k.(procs) !! c = Some q → child_at m q.(p_state)) →
  perform P o p (Waitpid false (λ _ _, PCopy 0 [])) k = Some k' → mm_inv k'.
Proof.
  intros Hr Hf Hre Hs Hm Hch E. pose proof (rn_house _ _ _ Hr) as Hh. cbn [perform] in E.
  destruct (procs k !! o) as [[[|st] ppid ? ? ? ?]|] eqn:Eo; try done. case_decide; [|done]. subst ppid. injection E as <-.
  assert (o ≠ P) as Hne.
  { intros ->. rewrite (hh_parent _ _ _ _ _ Hh) in Eo. injection Eo as ->. by pose proof (rn_state _ _ _ Hr). }
  pose proof (only_kid _ _ _ _ _ Hh Hf Hne Eo) as ->. specialize (Hch _ Eo). cbn in Hch. inversion Hch as [| | | |Hmsg]; subst st.
  eapply (mm_running _ (PCopy 0 []) (go (PCopy 0 []) p)).
  pose proof (household_reaps P sh P_pid sh_pid kid k p c (Exited 0) _ _ _ _ (PCopy 0 []) Hh Eo Hne) as Hh'.
  split; [done|done|apply Hr|apply Hr|]. apply (ph_done _ _ c m); try done; [by cbn; rewrite Hre|]. by constructor; [| cbn; lia|].
Qed.

Lemma message_at m n : take 16 m = message → m !! n = message !! n ∨ 16 ≤ n.
Proof.
  intros H. destruct (decide (n < 16)); [left|right; lia]. rewrite <- H. by rewrite lookup_take_lt by lia.
Qed.

Lemma text_at n : n < 15 → ∃ b, message !! n = Some b ∧ Ascii.eqb b NUL = false ∧ take n text ++ [b] = take (S n) text.
Proof. intros H. do 15 (destruct n as [|n]; [eexists; split_and!; reflexivity|]). lia. Qed.

Lemma done_step k l p c m o k' :
  running k l p → k.(forked) = history P sh ++ [(P, c)] → k.(reaped) = [(P, c, Exited 0)] → k.(mem) = [m] →
  take 16 m = message → done_at k l → perform P o p (prog P sh l) k = Some k' → mm_inv k'.
Proof.
  intros Hr Hf Hre Hm Hmsg Hl E.
  assert (∀ l', done_at (put P (go l' p) k) l' → mm_inv (put P (go l' p) k)) as Hto
    by (intros l' Hl'; eapply parent_goes; [exact Hr|by eapply ph_done]).
  destruct Hl as [buf Hb Hlen Hs|Hs|Hs|Hs]; cbn [code] in E.
  - rewrite decide_True in E by (unfold BUF; lia). cbn [perform] in E. rewrite Hm in E. cbn [lookup list_lookup] in E.
    cbn [mbind option_bind] in E. destruct (message_at m (length buf) Hmsg) as [Em|]; [|lia]. rewrite Em in E.
    destruct (decide (length buf < 15)) as [Hlt|Hge].
    + destruct (text_at (length buf) Hlt) as (b & Eb & Enul & Etk). rewrite Eb in E. rewrite Enul in E. injection E as <-.
      apply Hto. constructor; [|rewrite length_app; cbn; lia|done]. rewrite length_app, Nat.add_1_r, <- Etk. by rewrite <- Hb.
    + assert (length buf = 15) as El by lia. rewrite El in E. cbn in E. injection E as <-. apply Hto.
      assert (buf = text) as -> by (rewrite Hb, El; reflexivity). by constructor.
  - injection E as <-. eapply mm_running. split; [by eapply household_print, household_move; [apply Hr|]|done|apply Hr|apply Hr|].
    eapply ph_done; try done. constructor. rewrite heard_print, decide_True by done. unfold heard in *. cbn [out put].
    by rewrite Hs.
  - injection E as <-. apply Hto. by constructor.
  - injection E as <-. by eapply ends_phase.
Qed.

Lemma mm_parent_step k l p o k' : running k l p → run_proc prog P o k = Some k' → mm_inv k'.
Proof.
  intros Hr E. pose proof Hr as [Hh Hs Hpe Hfd Hph]. unfold run_proc in E.
  rewrite (hh_parent _ _ _ _ _ Hh), Hs, (hh_shell _ _ _ _ _ Hh) in E.
  destruct Hph as [Hf Hre Hor Hl|c m Hf Hre Hsd H0 Hl Hm Hlen Hch|c m Hf Hre Hm Hmsg Hl].
  - destruct o as [o|]; [by eapply mm_alone_step|]. exfalso.
    destruct Hl; [rewrite code_start in E|cbn [code] in E..]; done.
  - destruct Hl as [-> | ->]; cbn [code] in E.
    + destruct o as [o|]; [|done]. injection E as <-. rewrite (proj2 (Z.ltb_lt 0 c)) by done.
      eapply parent_goes; [exact Hr|]. apply (ph_waiting _ _ c m); try done; [by right|]. cbn.
      intros q. rewrite lookup_insert_ne; [apply Hch|]. intros <-.
      assert ((P, P) ∈ k.(forked)) as Hin by (rewrite Hf; apply elem_of_app; right; left).
      by destruct (hh_all _ _ _ _ _ Hh P Hin).
    + destruct o as [o|]; [by eapply mm_reaps|]. exfalso. cbn [no_child] in E.
      destruct (decide (map_Exists _ _)) as [_|Hn]; [by destruct (decide _)|].
      assert ((P, c) ∈ k.(forked)) as Hin by (rewrite Hf; apply elem_of_app; right; left).
      pose proof (household_empty P sh kid k p Hh Hn c Hin) as Hcol. unfold collected in Hcol. rewrite Hre in Hcol.
      by apply elem_of_nil in Hcol.
  - destruct o as [o|]; [by eapply done_step|]. exfalso. destruct Hl; cbn [code] in E; try done. by case_decide.
Qed.

(** *** The steps of the child, and signals *)

Lemma message_length : length message = 16.
Proof. reflexivity. Qed.

(** The phase while the child works. *)
Lemma kid_phase k l p c q :
  running k l p → c ≠ P → k.(procs) !! c = Some q →
  ∃ m, k.(forked) = history P sh ++ [(P, c)] ∧ k.(reaped) = [] ∧ heard k = [] ∧ (0 < c)%Z
    ∧ (l = Branch 0 c ∨ l = PWait 0) ∧ k.(mem) = [m] ∧ 16 ≤ length m ∧ child_at m q.(p_state).
Proof.
  intros Hr Hne Hq. pose proof Hr as [Hh Hs Hpe Hfd Hph].
  assert (∀ (Hb : ∀ c, l ≠ Branch 0 c ∨ c = (-1)%Z) (Hw : l ≠ PWait 0), False) as Hno.
  { intros Hb Hw. by destruct (no_kid _ _ _ _ _ Hr Hb Hw Hq). }
  destruct Hph as [Hf Hre Hor Hl|c' m Hf Hre Hsd H0 Hl Hm Hlen Hch|c' m Hf Hre Hm Hmsg Hl].
  - exfalso. apply Hno; destruct Hl; try done; intros; try (by left); destruct (decide (c0 = (-1)%Z)); [by right|left; congruence].
  - pose proof (only_kid _ _ _ _ _ Hh Hf Hne Hq) as <-. exists m. auto 10.
  - exfalso. apply Hno; destruct Hl; try done; intros; by left.
Qed.

(** The child moves on, and perhaps writes. *)
Lemma mm_kid_moves k l p c q s m' :
  running k l p → c ≠ P → k.(procs) !! c = Some q → 16 ≤ length m' → child_at m' (Running s) →
  mm_inv (set_mem [m'] (put c (go s q) k)).
Proof.
  intros Hr Hne Hq Hlen' Hch'. destruct (kid_phase _ _ _ _ _ Hr Hne Hq) as (m & Hf & Hre & Hsd & H0 & Hl & Hm & Hlen & Hch).
  destruct (hh_kids _ _ _ _ _ (rn_house _ _ _ Hr) c q Hne Hq) as (_ & Hk & _).
  pose proof (household_kid P sh kid k p c q (go s q) (rn_house _ _ _ Hr) Hne Hq eq_refl Hk) as [? ? ? ? ?].
  eapply (mm_running _ l p). split; [by split|apply Hr|apply Hr|apply Hr|].
  apply (ph_waiting _ _ c m'); try done. cbn. rewrite lookup_insert_eq. by intros ? [= <-].
Qed.

Lemma kid_stays k l p c q s :
  running k l p → c ≠ P → k.(procs) !! c = Some q → (∀ m, k.(mem) = [m] → child_at m (Running s)) →
  mm_inv (put c (go s q) k).
Proof.
  intros Hr Hne Hq Hch'. destruct (kid_phase _ _ _ _ _ Hr Hne Hq) as (m & Hf & Hre & Hsd & H0 & Hl & Hm & Hlen & Hch).
  replace (put c (go s q) k) with (set_mem [m] (put c (go s q) k)) by (unfold set_mem; cbn; by rewrite <- Hm).
  eapply mm_kid_moves; eauto.
Qed.

Lemma kid_ends k l p c q :
  running k l p → c ≠ P → k.(procs) !! c = Some q → q.(p_state) = Running Return → mm_inv (terminate c (Exited 0) k).
Proof.
  intros Hr Hne Hq Es. destruct (kid_phase _ _ _ _ _ Hr Hne Hq) as (m & Hf & Hre & Hsd & H0 & Hl & Hm & Hlen & Hch).
  pose proof Hr as [Hh Hs Hpe Hfd _]. rewrite Es in Hch. inversion Hch as [| | |Hmsg|].
  destruct (household_ends P sh P_pid sh_pid kid k p c q (Exited 0) l Hh Hs Hne Hq) as [Hh' Hlk]; [done|].
  assert (heard (terminate c (Exited 0) k) = heard k ∧ forked (terminate c (Exited 0) k) = k.(forked)
    ∧ reaped (terminate c (Exited 0) k) = k.(reaped) ∧ mem (terminate c (Exited 0) k) = k.(mem)) as (E1 & E2 & E3 & E4).
  { unfold terminate. by destruct (_ !! c). }
  eapply (mm_running _ l). split; [exact Hh'|exact Hs|cbn; set_solver|exact Hfd|].
  apply (ph_waiting _ _ c m); rewrite ?E1, ?E2, ?E3, ?E4; try done.
  intros q' Hq'. apply Hlk in Hq' as [[_ ->]|[? _]]; [by constructor|done|done].
Qed.

Lemma take_insert_S (m : bytes) i b : i < length m → take (S i) (<[i := b]> m) = take i m ++ [b].
Proof.
  intros Hi. erewrite take_S_r by (by apply list_lookup_insert_eq). by rewrite take_insert_ge by lia.
Qed.

Lemma mm_child_step k l p c o k' : running k l p → c ≠ P → run_proc prog c o k = Some k' → mm_inv k'.
Proof.
  intros Hr Hne E. unfold run_proc in E. destruct (procs k !! c) as [q|] eqn:Hq; [|done].
  destruct (kid_phase _ _ _ _ _ Hr Hne Hq) as (m & Hf & Hre & Hsd & H0 & Hl & Hm & Hlen & Hch).
  destruct (p_state q) as [s|] eqn:Es; [|done]. inversion Hch as [|i Hi Htk|Hmsg|Hmsg|]; subst s; cbn [code] in E.
  - destruct o as [o|]; [|done]. injection E as <-. eapply kid_stays; eauto. intros m' _. constructor; [lia|done].
  - destruct (decide (i = 16)) as [->|Hi16].
    + change (message !! 16) with (@None ascii) in E. destruct o as [o|]; [|done]. injection E as <-. eapply kid_stays; eauto.
      intros m' Hm'. rewrite Hm in Hm'. injection Hm' as <-. constructor. by rewrite Htk.
    + destruct (message !! i) as [b|] eqn:Eb; [|apply lookup_ge_None in Eb; rewrite message_length in Eb; lia].
      destruct o as [o|]; [|done]. cbn [perform] in E. rewrite Hm in E. cbn [lookup list_lookup] in E.
      rewrite decide_True in E by lia. injection E as <-. eapply mm_kid_moves; eauto; [by rewrite length_insert|].
      constructor; [lia|]. rewrite take_insert_S, Htk by lia. symmetry. by apply take_S_r.
  - destruct o as [o|]; [|done]. injection E as <-. eapply kid_stays; eauto. intros m' Hm'. rewrite Hm in Hm'.
    injection Hm' as <-. by constructor.
  - destruct o as [o|]; [|done]. injection E as <-. by eapply kid_ends.
Qed.

Lemma mm_deliver_step k l p pid sig k' : running k l p → deliver (λ _ l, l) pid sig k = Some k' → mm_inv k'.
Proof.
  intros Hr E. pose proof Hr as [Hh Hs Hpe Hfd Hph]. unfold deliver in E. destruct (decide (pid = P)) as [->|Hne].
  - rewrite (hh_parent _ _ _ _ _ Hh), Hs in E. case_decide as Hd; [|done]. destruct Hd as [Hin _].
    assert (sig = SIGCHLD) as -> by (apply Hpe in Hin; set_solver).
    assert (∀ p', p'.(p_ppid) = p.(p_ppid) → p'.(p_state) = Running l → p'.(p_pending) ⊆ {[SIGCHLD]} → p'.(p_fds) = p.(p_fds) →
      mm_inv (put P p' k)) as Hput.
    { intros p' H1 H2 H3 H4. eapply mm_parent_to; [exact Hr|done..|].
      destruct Hph as [Hf Hre Hor Hl|c m Hf Hre Hsd H0 Hl Hm Hlen Hch|c m Hf Hre Hm Hmsg Hl].
      - apply ph_alone; try done. destruct Hl; by econstructor.
      - apply (ph_waiting _ _ c m); try done. cbn. intros q. rewrite lookup_insert_ne; [apply Hch|]. intros <-.
        assert ((P, P) ∈ k.(forked)) as Hip by (rewrite Hf; apply elem_of_app; right; left).
        by destruct (hh_all _ _ _ _ _ Hh P Hip).
      - eapply ph_done; try done. destruct Hl; by constructor. }
    cbn [p_caught set_pending] in E. case_decide; injection E as <-; apply Hput; try done; cbn; set_solver.
  - destruct (procs k !! pid) as [q|] eqn:Hq; [|done].
    destruct (hh_kids _ _ _ _ _ Hh pid q Hne Hq) as (_ & Hk & _). unfold kid in Hk.
    destruct (p_state q); [|done]. rewrite Hk, decide_False in E by set_solver. done.
Qed.

Lemma mm_step k k' : mm_inv k → step k k' → mm_inv k'.
Proof.
  intros [l p Hr|Hk Hd] [[pid o|pid sig|pid sig] E]; cbn [choose] in E; try done.
  - destruct (decide (pid = P)) as [->|]; [by eapply mm_parent_step|by eapply mm_child_step].
  - by eapply mm_deliver_step.
  - unfold run_proc in E. rewrite Hk in E. destruct (_ !! pid) as [q|] eqn:Eq; [|done].
    by apply lookup_singleton_Some in Eq as [_ <-].
  - unfold deliver in E. rewrite Hk in E. destruct (_ !! pid) as [q|] eqn:Eq; [|done].
    by apply lookup_singleton_Some in Eq as [_ <-].
Qed.

Lemma mm_reach k : preach prog (λ _ l, l) (λ _ _, false) (first_proc P sh Start) k → mm_inv k.
Proof.
  intros H. eapply (preach_invariant _ _ _ mm_inv); [exact H| |intros ? ?; apply mm_step].
  pose (p := Proc (Running Start) sh std_fds ∅ ∅ ∅ : proc local). eapply (mm_running _ Start p).
  assert (put P p (first_proc P sh Start) = first_proc P sh Start) as E by (unfold put, first_proc; cbn; by rewrite insert_singleton_eq).
  split; [rewrite <- E; by apply household_start|done|apply empty_subseteq|done|]. apply ph_alone; [done|done|by left|by constructor].
Qed.

(** While the parent runs, it or its child can take a step. *)
Lemma mm_progress k p l :
  mm_inv k → k.(procs) !! P = Some p → p.(p_state) = Running l → ∃ k', step k k'.
Proof.
  intros [l' p' Hr|Hk Hd] Hp Hs.
  2:{ rewrite Hk, lookup_singleton_eq in Hp. by injection Hp as <-. }
  pose proof Hr as [Hh Hs' Hpe Hfd Hph]. rewrite (hh_parent _ _ _ _ _ Hh) in Hp. injection Hp as ->.
  rewrite Hs in Hs'. injection Hs' as <-.
  assert (∀ pid o q lq k', k.(procs) !! pid = Some q → q.(p_state) = Running lq →
    perform pid o q (prog pid q.(p_ppid) lq) k = Some k' → ∃ k', step k k') as Hrun.
  { intros pid o q lq k' Hq Hl E. exists k', (Run pid (Some o)). cbn [choose]. unfold run_proc. by rewrite Hq, Hl. }
  pose proof (hh_parent _ _ _ _ _ Hh) as HkP.
  destruct Hph as [Hf Hre Hor Hl|c m Hf Hre Hsd H0 [-> | ->] Hm Hlen Hch|c m Hf Hre Hm Hmsg Hl].
  - destruct Hl; eapply (Hrun P 0%Z p _ _ HkP Hs); [rewrite (hh_shell _ _ _ _ _ Hh), code_start; reflexivity| |reflexivity..].
    cbn [code perform]. rewrite Hfd. reflexivity.
  - eapply (Hrun P 0%Z p _ _ HkP Hs). reflexivity.
  - assert ((P, c) ∈ k.(forked)) as Hin by (rewrite Hf; apply elem_of_app; right; left).
    destruct (hh_all _ _ _ _ _ Hh c Hin) as (Hne & [[q Hq]|Hcol]); [|unfold collected in Hcol; rewrite Hre in Hcol; by apply elem_of_nil in Hcol].
    destruct (hh_kids _ _ _ _ _ Hh c q Hne Hq) as (Hpp & _). specialize (Hch q Hq).
    destruct (p_state q) as [s|st] eqn:Es.
    + inversion Hch as [|i Hi Htk|Hmsg|Hmsg|]; subst s; try (eapply (Hrun c 0%Z q _ _ Hq Es); reflexivity).
      destruct (message !! i) as [b|] eqn:Eb.
      * eapply (Hrun c 0%Z q _ _ Hq Es). cbn [code]. rewrite Eb. cbn [perform]. rewrite Hm. cbn [lookup list_lookup].
        rewrite decide_True; [reflexivity|]. apply lookup_lt_Some in Eb. rewrite message_length in Eb. lia.
      * eapply (Hrun c 0%Z q _ _ Hq Es). cbn [code]. rewrite Eb. reflexivity.
    + eapply (Hrun P c p _ _ HkP Hs). cbn [code perform]. rewrite Hq. destruct q; cbn in Es, Hpp; subst.
      rewrite decide_True by done. reflexivity.
  - destruct Hl as [buf Hb Hl Hsd|Hsd|Hsd|Hsd]; [|eapply (Hrun P 0%Z p _ _ HkP Hs); reflexivity..].
    destruct (message !! length buf) as [b|] eqn:Eb; [|apply lookup_ge_None in Eb; rewrite message_length in Eb; lia].
    eapply (Hrun P 0%Z p _ _ HkP Hs). cbn [code]. rewrite decide_True by (unfold BUF; lia). cbn [perform].
    rewrite Hm. cbn [lookup list_lookup mbind option_bind].
    destruct (message_at m (length buf) Hmsg) as [->|]; [|lia]. rewrite Eb. reflexivity.
Qed.
End ipc.

(** ** Properties *)

(** mmap-parent-child-ipc.c: for every file with bytes in it and every
    interleaving of the two processes, the parent reads from the shared memory
    exactly what the child wrote: it prints nothing else but a failure of
    [mmap]; while it runs, some process can take a step; and when it has ended,
    unless [mmap] or [fork] failed, it has printed the child's text, the mapped
    file begins with that text, and the child has been collected. *)
Theorem mmap_ipc_reads content P sh k :
  content ≠ [] → (1 < P)%Z → (1 < sh)%Z ∧ sh ≠ P →
  preach (MmapIpc.code (Some content)) (λ _ l, l) (λ _ _, false) (first_proc P sh MmapIpc.Start) k →
  (heard P k = [] ∨ heard P k = [map_error] ∨ heard P k = [told])
  ∧ (∀ p l, k.(procs) !! P = Some p → p.(p_state) = Running l →
       ∃ k', pstep (MmapIpc.code (Some content)) (λ _ l, l) (λ _ _, false) k k')
  ∧ (∀ p st, k.(procs) !! P = Some p → p.(p_state) = Zombie st →
       st = Exited 0
       ∧ (k.(forked) = history P sh
          ∨ heard P k = [told] ∧ (∃ m, k.(mem) = [m] ∧ take 16 m = MmapIpc.message) ∧ ∃ c, k.(reaped) = [(P, c, Exited 0)])).
Proof.
  intros H0 H1 H2 H. apply mm_reach in H; [|done..]. split; [|split].
  - destruct H as [l p [_ _ _ _ Hph]|_ Hd]; [|naive_solver].
    destruct Hph as [_ _ Hor _|c m _ _ Hsd _ _ _ _ _|c m _ _ _ _ Hl]; [naive_solver|auto|destruct Hl; auto].
  - intros p l. by eapply mm_progress.
  - intros p st Hp Hst. destruct H as [l p' [Hh Hs _ _ _]|Hk Hd].
    + rewrite (hh_parent _ _ _ _ _ Hh) in Hp. injection Hp as ->. congruence.
    + rewrite Hk, lookup_singleton_eq in Hp. injection Hp as <-. injection Hst as <-. split; [done|]. naive_solver.
Qed.

Definition shared_schedule : list choice :=
  ([Run 100 (Some 0); Run 100 (Some 101); Run 100 (Some 0)] ++ replicate 20 (Run 101 (Some 0))
   ++ [Run 100 (Some 101)] ++ replicate 19 (Run 100 (Some 0)))%Z.
Definition shared_run : kernel MmapIpc.local :=
  schedule (MmapIpc.code (Some (B "old text"))) (λ _ l, l) (λ _ _, false) shared_schedule (first_proc 100 99 MmapIpc.Start).

Lemma mmap_ipc_reads_witness :
  ∃ p, shared_run.(procs) !! 100%Z = Some p ∧ p.(p_state) = Zombie (Exited 0) ∧ heard 100 shared_run = [told]
    ∧ (shared_run.(forked) = history 100 99
       ∨ heard 100 shared_run = [told] ∧ (∃ m, shared_run.(mem) = [m] ∧ take 16 m = MmapIpc.message)
         ∧ ∃ c, shared_run.(reaped) = [(100%Z, c, Exited 0)]).
Proof.
  destruct (mmap_ipc_reads (B "old text") 100 99 shared_run) as (_ & _ & H); [discriminate|lia|lia|apply schedule_reach|].
  eexists. split; [vm_compute; reflexivity|]. split; [reflexivity|]. split; [vm_compute; reflexivity|].
  eapply H; [vm_compute; reflexivity|reflexivity].
Defined.

(** mmap-anon.c: the child does not wait for the parent, and may print what has
    been copied so far, or nothing. *)
Lemma mmap_anon_race :
  (101%Z, line (B "hel")) ∈ (schedule MmapAnon.code (λ _ l, l) (λ _ _, false)
     ([Run 100 (Some 0); Run 100 (Some 101); Run 100 (Some 0)] ++ replicate 3 (Run 100 (Some 0))
      ++ replicate 6 (Run 101 (Some 0)))%Z (first_proc 100 99 MmapAnon.Start)).(out)
  ∧ (101%Z, line []) ∈ (schedule MmapAnon.code (λ _ l, l) (λ _ _, false)
     ([Run 100 (Some 0); Run 100 (Some 101)] ++ replicate 3 (Run 101 (Some 0)))%Z (first_proc 100 99 MmapAnon.Start)).(out).
Proof. split; apply (bool_decide_unpack _); vm_compute; exact I. Qed.
