(* ===== verification/Signals.v ===== *)
(** * Signal sets and blocked signals: sigset.c and sigprocmask.c of lesson26 *)
From stdpp Require Import sorting.
From S2P Require Import Prelude CString Processes Pipes Forks Posix Sorting.

(** ** Signal sets *)
Module Sigset.

Definition sigset_t : Type := gset Z.
Definition sigemptyset : sigset_t := ∅.
Definition sigaddset (set : sigset_t) (sig : Z) : sigset_t := {[sig]} ∪ set.
Definition sigdelset (set : sigset_t) (sig : Z) : sigset_t := set ∖ {[sig]}.
(** Signals are numbered 1 to 64. *)
Definition sigismember (set : sigset_t) (sig : Z) : Z :=
  if ((1 <=? sig) && (sig <=? 64))%Z then if decide (sig ∈ set) then 1 else 0 else -1.

(** The line about a signal; the names are those of the source. *)
Definition tell (name : string) (ret : Z) : list bytes :=
  if (ret =? 0)%Z then [line (B name ++ B " 不阻塞")] else if (ret =? 1)%Z then [line (B name ++ B " 阻塞")] else [].

(** What sigset.c prints. *)
Definition main : list bytes :=
  let set := sigemptyset in
  let out := tell "SIGINT" (sigismember set SIGINT) in
  let set := sigaddset set SIGINT in
  let set := sigaddset set SIGQUIT in
  let out := out ++ tell "SIGINT" (sigismember set SIGINT) in
  let out := out ++ tell "SIGQUIT" (sigismember set SIGQUIT) in
  let set := sigdelset set SIGQUIT in
  out ++ tell "SIGQUIT" (sigismember set SIGQUIT).
End Sigset.

(** ** sigprocmask.c: the keyboard signals are blocked for ten rounds *)
Module SigMask.
Import Sigset.

Inductive local :=
| Start | Loop (num : Z) | Show (num : Z) (pendingset : sigset_t) | Next (num : Z) | Overflow.

(** The set that is blocked. *)
Definition set : sigset_t := sigaddset (sigaddset sigemptyset SIGINT) SIGQUIT.

(** The row of a pending set: a digit for each of the signals 1 to 32; a number
    out of range would end the program. *)
Definition digit (pendingset : sigset_t) (i : nat) : ascii :=
  if (sigismember pendingset (Z.of_nat i) =? 1)%Z then "1"%char else "0"%char.
Definition row (pendingset : sigset_t) : bytes := map (digit pendingset) (seq 1 32).

Definition code (pid ppid : Z) (l : local) : action local :=
  match l with
  | Start => Sigprocmask true set (Loop 0)
  | Loop num => Sigpending (Show num)
  | Show num pendingset => Print (line (row pendingset)) (Next num)
  | Next num =>
      match add32 num 1 with
      | Some num => if (num =? 10)%Z then Sigprocmask false set (Loop num) else Compute (Loop num)
      | None => Compute Overflow                                   (* undefined *)
      end
  | Overflow => Compute Overflow
  end.
End SigMask.
