(* ===== verification/SignalsProofs.v ===== *)
(** * lesson26/sigprocmask.c: blocked signals wait

    The rows the program prints, from the choices of the scheduler and the
    keyboard alone: each of them shows exactly the signals that were sent before
    its [sigpending]. *)
From S2P Require Import Prelude CString Processes Pipes Forks Posix Sorting Signals.

(** ** Runs *)

(** Every choice of a run is one that can be made. *)
Section exec.
Context {L : Type} (code : Z → Z → L → action L) (handler : Z → L → L) (outside : Z → Z → bool).

Fixpoint exec (cs : list choice) (k : kernel L) : option (kernel L) :=
  match cs with
  | [] => Some k
  | c :: cs => choose code handler outside c k ≫= exec cs
  end.

Lemma exec_snoc cs c k : exec (cs ++ [c]) k = exec cs k ≫= choose code handler outside c.
Proof.
  revert k. induction cs as [|d cs IH]; intros k; cbn [app exec mbind option_bind].
  - by destruct (choose code handler outside c k).
  - destruct (choose _ _ _ d k); [apply IH|done].
Qed.
End exec.

(** The statements of the program that a run executes, and the signals sent
    before the [m]-th of them (from 0). *)
Definition one_run (c : choice) : nat := match c with Run _ _ => 1 | _ => 0 end.
Definition runs (cs : list choice) : nat := sum_list (map one_run cs).
Fixpoint sent_before (m : nat) (cs : list choice) : gset Z :=
  match cs with
  | [] => ∅
  | Run _ _ :: cs => match m with 0 => ∅ | S m => sent_before m cs end
  | Send _ sig :: cs => {[sig]} ∪ sent_before m cs
  | Deliver _ _ :: cs => sent_before m cs
  end.
(** All signals sent. *)
Definition sent (cs : list choice) : gset Z := sent_before (runs cs) cs.

Lemma runs_cons c cs : runs (c :: cs) = one_run c + runs cs.
Proof. done. Qed.

Lemma runs_snoc cs c : runs (cs ++ [c]) = runs cs + one_run c.
Proof. induction cs as [|d cs IH]; [cbn; lia|]. cbn [app]. rewrite !runs_cons, IH. lia. Qed.

Lemma sent_before_snoc m cs c : m < runs cs → sent_before m (cs ++ [c]) = sent_before m cs.
Proof.
  revert m. induction cs as [|d cs IH]; intros m Hm; [cbn in Hm; lia|]. rewrite runs_cons in Hm.
  destruct d as [pid o|pid sig|pid sig]; cbn [app sent_before one_run Nat.add] in *;
    [destruct m; [done|]; apply IH; lia|by apply IH|by rewrite IH].
Qed.

Lemma sent_before_last cs c m :
  runs cs ≤ m → sent_before m (cs ++ [c]) = match c with Send _ sig => {[sig]} ∪ sent cs | _ => sent cs end.
Proof.
  unfold sent. revert m. induction cs as [|d cs IH]; intros m Hm; [by destruct c, m|]. rewrite runs_cons in *.
  destruct d as [pid o|pid sig|pid sig]; cbn [app sent_before one_run Nat.add] in *.
  - destruct m as [|m]; [lia|]. apply IH. lia.
  - by apply IH.
  - rewrite IH by done. destruct c; [done|done|]. set_solver.
Qed.

Lemma sent_snoc cs c : sent (cs ++ [c]) = match c with Send _ sig => {[sig]} ∪ sent cs | _ => sent cs end.
Proof. apply sent_before_last. rewrite runs_snoc. lia. Qed.

(** ** The program *)

Section sigmask.
Import SigMask.
Variables (outside : Z → Z → bool) (P sh : Z).
Hypothesis P_pid : (1 < P)%Z.
Hypothesis sh_pid : (1 < sh)%Z ∧ sh ≠ P.
(** Only the keyboard sends signals. *)
Hypothesis keyboard : ∀ pid sig, outside pid sig = true → sig ∈ set.

Definition rows (ss : list (gset Z)) : list (Z * bytes) := map (λ s, (P, line (row s))) ss.

(** The sets that the rows of a run show: the signals sent before the
    [sigpending] of each round. *)
Definition shown (cs : list choice) : list (gset Z) := map (λ i, sent_before (3 * i + 1) cs) (seq 0 (runs cs / 3)).

(** The place in the program after [r] statements. *)
Definition place (cs : list choice) (r : nat) (l : local) : Prop :=
  r = 0 ∧ l = Start
  ∨ ∃ i, r = 3 * i + 1 ∧ l = Loop (Z.of_nat i)
         ∨ r = 3 * i + 2 ∧ l = Show (Z.of_nat i) (sent_before (3 * i + 1) cs)
         ∨ r = 3 * i + 3 ∧ l = Next (Z.of_nat i).

(** The signals are blocked after the first statement, until the last one of the
    tenth round. *)
Definition blocked_at (r : nat) : gset Z := if decide (1 ≤ r ≤ 30) then set else ∅.

Inductive sm_inv (cs : list choice) (k : kernel local) : Prop :=
| sm_alive l :
    k.(procs) = {[P := Proc (Running l) sh Pipes.std_fds (blocked_at (runs cs)) (sent cs) ∅]} → place cs (runs cs) l →
    k.(out) = rows (shown cs) → sent cs ⊆ set → sm_inv cs k
| sm_dead s :
    k.(procs) = {[P := Proc (Zombie (Signaled s)) sh ∅ ∅ ∅ ∅]} → s ∈ set → s ∈ sent cs → runs cs = 0 ∨ 31 ≤ runs cs →
    k.(out) = rows (shown cs) → sm_inv cs k.

Lemma shown_quiet cs c : one_run c = 0 → shown (cs ++ [c]) = shown cs.
Proof.
  intros Hr. unfold shown. rewrite runs_snoc, Hr, Nat.add_0_r. apply map_ext_in. intros i Hi%in_seq.
  apply sent_before_snoc. pose proof (Nat.div_mod (runs cs) 3). lia.
Qed.

(** A statement that prints nothing, and one that prints the row of round [i]. *)
Lemma shown_run cs pid o i : runs cs = 3 * i ∨ runs cs = 3 * i + 1 → shown (cs ++ [Run pid o]) = shown cs.
Proof.
  intros Hr. unfold shown. rewrite runs_snoc. cbn [one_run].
  assert ((runs cs + 1) / 3 = i ∧ runs cs / 3 = i) as [-> ->].
  { split; symmetry; [apply (Nat.div_unique _ _ _ (runs cs + 1 - 3 * i))|apply (Nat.div_unique _ _ _ (runs cs - 3 * i))]; lia. }
  apply map_ext_in. intros j Hj%in_seq. apply sent_before_snoc. lia.
Qed.

Lemma shown_row cs pid o i :
  runs cs = 3 * i + 2 → shown (cs ++ [Run pid o]) = shown cs ++ [sent_before (3 * i + 1) cs].
Proof.
  intros Hr. unfold shown. rewrite runs_snoc. cbn [one_run].
  assert ((runs cs + 1) / 3 = S i ∧ runs cs / 3 = i) as [-> ->].
  { split; symmetry; [apply (Nat.div_unique _ _ _ 0)|apply (Nat.div_unique _ _ _ 2)]; lia. }
  rewrite seq_S, map_app. cbn [map]. f_equal; [|by rewrite sent_before_snoc by lia].
  apply map_ext_in. intros j Hj%in_seq. apply sent_before_snoc. lia.
Qed.

Lemma place_snoc cs c l : one_run c = 0 → place cs (runs cs) l → place (cs ++ [c]) (runs (cs ++ [c])) l.
Proof.
  intros Hr. rewrite runs_snoc, Hr, Nat.add_0_r. intros [?|(i & [?|[[Hi ->]|?]])]; [by left|..]; right; exists i; [by left| |by right; right].
  right; left. split; [done|]. by rewrite sent_before_snoc by lia.
Qed.

(** *** The steps *)

Lemma sm_run cs k l o k' :
  (Z.of_nat (runs cs) < 3 * (2 ^ 31 - 1))%Z → place cs (runs cs) l → k.(out) = rows (shown cs) → sent cs ⊆ set →
  k.(procs) = {[P := Proc (Running l) sh Pipes.std_fds (blocked_at (runs cs)) (sent cs) ∅]} →
  perform P o (Proc (Running l) sh Pipes.std_fds (blocked_at (runs cs)) (sent cs) ∅) (code P sh l) k = Some k' →
  sm_inv (cs ++ [Run P (Some o)]) k'.
Proof.
  intros Hmax Hpl Ho Hse Hk E.
  assert (∀ k1 l1, k1.(procs) = {[P := Proc (Running l1) sh Pipes.std_fds (blocked_at (runs cs + 1)) (sent cs) ∅]} →
    place (cs ++ [Run P (Some o)]) (runs cs + 1) l1 → k1.(out) = rows (shown (cs ++ [Run P (Some o)])) →
    sm_inv (cs ++ [Run P (Some o)]) k1) as Hgo.
  { intros k1 l1 H1 H2 H3. apply (sm_alive _ _ l1); rewrite ?sent_snoc, ?runs_snoc; done. }
  assert (∀ p', (<[P := p']> k.(procs)) = {[P := p']}) as Hput by (intros; by rewrite Hk, insert_singleton_eq).
  destruct Hpl as [[Hr ->]|(i & [[Hr ->]|[[Hr ->]|[Hr ->]]])]; cbn [code] in E.
  - injection E as <-. apply (Hgo _ (Loop 0)).
    + cbn. rewrite Hput, Hr. unfold go, set_state, set_blocked, blocked_at. cbn [p_ppid p_fds p_blocked p_pending p_caught].
      by rewrite decide_False, decide_True by lia.
    + right. exists 0. left. split; [lia|done].
    + rewrite (shown_run _ _ _ 0) by lia. exact Ho.
  - injection E as <-. apply (Hgo _ (Show (Z.of_nat i) (sent cs))).
    + cbn. rewrite Hput. unfold go, set_state, blocked_at. cbn. do 2 f_equal. repeat case_decide; try lia; done.
    + right. exists i. right; left. split; [lia|]. by rewrite sent_before_last by lia.
    + rewrite (shown_run _ _ _ i) by lia. exact Ho.
  - injection E as <-. apply (Hgo _ (Next (Z.of_nat i))).
    + cbn. rewrite Hput. unfold go, set_state, blocked_at. cbn. do 2 f_equal. repeat case_decide; try lia; done.
    + right. exists i. right; right. split; [lia|done].
    + rewrite (shown_row _ _ _ i) by lia. unfold rows. rewrite map_app. change (k.(out) ++ [(P, line (row (sent_before (3 * i + 1) cs)))] = rows (shown cs) ++ [(P, line (row (sent_before (3 * i + 1) cs)))]). by rewrite Ho.
  - unfold add32 in E. rewrite decide_True in E by lia.
    replace (Z.of_nat i + 1)%Z with (Z.of_nat (S i)) in E by lia. destruct (Z.eqb_spec (Z.of_nat (S i)) 10).
    + injection E as <-. apply (Hgo _ (Loop (Z.of_nat (S i)))).
      * cbn. rewrite Hput. unfold go, set_state, set_blocked, blocked_at. cbn.
        rewrite decide_True, decide_False by lia. reflexivity.
      * right. exists (S i). left. split; [lia|done].
      * rewrite (shown_run _ _ _ (S i)) by lia. exact Ho.
    + injection E as <-. apply (Hgo _ (Loop (Z.of_nat (S i)))).
      * cbn. rewrite Hput. unfold go, set_state, blocked_at. cbn. do 2 f_equal. repeat case_decide; try lia; done.
      * right. exists (S i). left. split; [lia|done].
      * rewrite (shown_run _ _ _ (S i)) by lia. exact Ho.
Qed.

(** A signal that gets through ends the program. *)
Lemma sm_killed cs k l pid sig :
  k.(procs) = {[P := Proc (Running l) sh Pipes.std_fds (blocked_at (runs cs)) (sent cs) ∅]} → k.(out) = rows (shown cs) →
  sent cs ⊆ set → sig ∈ sent cs → sig ∉ blocked_at (runs cs) → sm_inv (cs ++ [Deliver pid sig]) (terminate P (Signaled sig) k).
Proof.
  intros Hk Ho Hse Hin Hb. destruct sh_pid as [Hs1 HsP]. apply (sm_dead _ _ sig).
  - rewrite (terminate_leaf P (Proc (Running l) sh Pipes.std_fds (blocked_at (runs cs)) (sent cs) ∅));
      [|by rewrite Hk, lookup_singleton_eq|cbn; lia|].
    + cbn. rewrite Hk, insert_singleton_eq. apply map_eq. intros x.
      destruct (decide (x = sh)) as [->|]; [by rewrite lookup_alter_eq, lookup_singleton_ne|by rewrite lookup_alter_ne].
    + intros x q Hx. rewrite Hk in Hx. apply lookup_singleton_Some in Hx as [_ <-]. cbn. lia.
  - set_solver.
  - by rewrite sent_snoc.
  - rewrite runs_snoc. cbn. rewrite Nat.add_0_r. unfold blocked_at in Hb. case_decide; [set_solver|lia].
  - rewrite shown_quiet by done. unfold terminate. by rewrite Hk, lookup_singleton_eq.
Qed.

Lemma sm_sent cs k l sig :
  k.(procs) = {[P := Proc (Running l) sh Pipes.std_fds (blocked_at (runs cs)) (sent cs) ∅]} → k.(out) = rows (shown cs) →
  place cs (runs cs) l → sent cs ⊆ set → sig ∈ set →
  sm_inv (cs ++ [Send P sig]) (set_procs (alter (post sig) P k.(procs)) k).
Proof.
  intros Hk Ho Hpl Hse Hin. apply (sm_alive _ _ l).
  - cbn. rewrite Hk, sent_snoc, runs_snoc, Nat.add_0_r. apply map_eq. intros x. destruct (decide (x = P)) as [->|].
    + by rewrite lookup_alter_eq, !lookup_singleton_eq.
    + by rewrite lookup_alter_ne, !lookup_singleton_ne.
  - by apply place_snoc.
  - by rewrite shown_quiet.
  - rewrite sent_snoc. set_solver.
Qed.

Lemma sm_step cs k c k' :
  (Z.of_nat (runs cs + one_run c) ≤ 3 * (2 ^ 31 - 1))%Z → sm_inv cs k → choose code (λ _ l, l) outside c k = Some k' → sm_inv (cs ++ [c]) k'.
Proof.
  intros Hmax [l Hk Hpl Ho Hse|s Hk Hs Hin Hr Ho] E; destruct c as [pid o|pid sig|pid sig]; cbn [choose] in E;
    unfold run_proc, deliver, send in E; rewrite Hk in E.
  - destruct (_ !! pid) as [q|] eqn:Eq; [|done]. apply lookup_singleton_Some in Eq as [<- <-]. cbn [p_state p_ppid] in E.
    destruct o as [o|]; [eapply sm_run; try done; cbn in Hmax; lia|]. exfalso. destruct l; cbn in E; try done. by repeat case_match.
  - destruct (_ !! pid) as [q|] eqn:Eq; [|done]. apply lookup_singleton_Some in Eq as [<- <-]. cbn [p_state p_pending p_blocked] in E.
    case_decide as Hd; [|done]. destruct Hd as [Hin Hb]. cbn [p_caught set_pending] in E.
    rewrite decide_False in E by set_solver.
    assert ((sig =? SIGCHLD)%Z = false) as Ec.
    { apply Z.eqb_neq. intros ->. apply Hse in Hin. revert Hin. apply (bool_decide_unpack _). vm_compute. exact I. }
    rewrite Ec in E. injection E as <-. by eapply sm_killed.
  - destruct (outside pid sig) eqn:Eo; [|done]. cbn [andb] in E. case_bool_decide as Hq; [|done]. destruct Hq as [q Hq].
    apply lookup_singleton_Some in Hq as [<- <-]. injection E as <-. apply keyboard in Eo. rewrite <- Hk. by eapply sm_sent.
  - destruct (_ !! pid) as [q|] eqn:Eq; [|done]. by apply lookup_singleton_Some in Eq as [<- <-].
  - destruct (_ !! pid) as [q|] eqn:Eq; [|done]. by apply lookup_singleton_Some in Eq as [<- <-].
  - destruct (outside pid sig); [|done]. cbn [andb] in E. case_bool_decide as Hq; [|done]. destruct Hq as [q Hq].
    apply lookup_singleton_Some in Hq as [<- <-]. injection E as <-. apply (sm_dead _ _ s); try done.
    + cbn. apply map_eq. intros x. destruct (decide (x = P)) as [->|].
      * by rewrite lookup_alter_eq, lookup_singleton_eq.
      * by rewrite lookup_alter_ne.
    + rewrite sent_snoc. set_solver.
    + by rewrite runs_snoc, Nat.add_0_r.
    + by rewrite shown_quiet.
Qed.

Lemma sm_reach cs k :
  (Z.of_nat (runs cs) ≤ 3 * (2 ^ 31 - 1))%Z → exec code (λ _ l, l) outside cs (first_proc P sh Start) = Some k → sm_inv cs k.
Proof.
  revert k. induction cs as [|c cs IH] using rev_ind; intros k Hmax E.
  - injection E as <-. apply (sm_alive _ _ Start); try done. by left.
  - rewrite exec_snoc in E. destruct (exec _ _ _ cs _) as [k1|] eqn:E1; [|done]. cbn in E. rewrite runs_snoc in Hmax.
    eapply sm_step; [done|apply IH; [lia|done]|done].
Qed.
End sigmask.

(** C35. sigprocmask.c, for every order in which its statements, the signals
    SIGINT and SIGQUIT from the keyboard and their delivery follow each other
    (at most 2^31 - 1 rounds: then [num] overflows).  After [runs cs] statements
    the program has printed [runs cs / 3] rows, and each row has a 1 exactly at the
    signals that were sent before the [sigpending] of its round, however often
    they were sent.  The program is running, and can execute its next statement,
    unless a signal of the two that was sent has ended it; that happens only
    before the first statement, which blocks them, or after the last statement of
    the tenth round, which unblocks them, and from there on every signal that was
    sent can be delivered at once. *)
Theorem sigprocmask_defers outside P sh cs k :
  (1 < P)%Z → (1 < sh)%Z ∧ sh ≠ P → (∀ pid sig, outside pid sig = true → sig ∈ SigMask.set) →
  (Z.of_nat (runs cs) ≤ 3 * (2 ^ 31 - 1))%Z →
  exec SigMask.code (λ _ l, l) outside cs (first_proc P sh SigMask.Start) = Some k →
  k.(out) = rows P (shown cs) ∧
  ∃ p, k.(procs) !! P = Some p
    ∧ ((∃ l, p.(p_state) = Running l)
         ∧ is_Some (choose SigMask.code (λ _ l, l) outside (Run P (Some 0%Z)) k)
         ∧ (31 ≤ runs cs → ∀ sig, sig ∈ sent cs → is_Some (deliver (λ _ l, l) P sig k))
       ∨ ∃ s, p.(p_state) = Zombie (Signaled s) ∧ s ∈ SigMask.set ∧ s ∈ sent cs ∧ (runs cs = 0 ∨ 31 ≤ runs cs)).
Proof.
  intros HP Hsh Hkey Hmax E. destruct (sm_reach outside P sh HP Hsh Hkey cs k Hmax E) as [l Hk Hpl Ho Hse|s Hk Hs Hin Hr Ho].
  - split; [done|]. eexists. split; [by rewrite Hk, lookup_singleton_eq|]. left. split; [by exists l|].
    cbn [choose]. unfold run_proc, deliver. rewrite Hk, lookup_singleton_eq. cbn [p_state p_ppid p_pending p_blocked]. split.
    + destruct l; cbn [SigMask.code perform]; repeat case_match; by eexists.
    + intros H31 sig Hsig. rewrite decide_True; [repeat case_match; by eexists|].
      split; [done|]. unfold blocked_at. rewrite decide_False by lia. set_solver.
  - split; [done|]. eexists. split; [by rewrite Hk, lookup_singleton_eq|]. right. by exists s.
Qed.

(** SIGINT is sent in the third round; it is shown from then on and ends the
    program after the tenth. *)
Definition interrupted : list choice :=
  replicate 6 (Run 100 (Some 0%Z)) ++ [Send 100 SIGINT] ++ replicate 25 (Run 100 (Some 0%Z)) ++ [Deliver 100 SIGINT].
Definition keys (pid sig : Z) : bool := bool_decide (sig ∈ SigMask.set).

Lemma sigprocmask_defers_witness :
  ∃ k, exec SigMask.code (λ _ l, l) keys interrupted (first_proc 100 50 SigMask.Start) = Some k
    ∧ k.(out) = rows 100 (replicate 2 ∅ ++ replicate 8 {[SIGINT]})
    ∧ p_state <$> k.(procs) !! 100%Z = Some (Zombie (Signaled SIGINT)).
Proof.
  destruct (exec SigMask.code (λ _ l, l) keys interrupted (first_proc 100 50 SigMask.Start)) as [k|] eqn:E; [|vm_compute in E; done].
  exists k. split; [done|].
  destruct (sigprocmask_defers keys 100 50 interrupted k) as [Ho Hp]; [lia|lia|intros ? ?; apply bool_decide_eq_true_1|vm_compute; done|exact E|].
  split; [rewrite Ho; vm_compute; reflexivity|]. vm_compute in E. injection E as <-. vm_compute. reflexivity.
Defined.
