(* ===== verification/Shm.v ===== *)
(** * System V shared memory: write_shm.c and read_shm.c of lesson27

    Two programs meet in the segment with key 100.  A step executes one
    statement of one of them, or copies one byte.  A segment that is removed
    lives on until the last process has detached it, but its key is free. *)
From S2P Require Import Prelude CString Threads Forks.

Record seg := Seg { content : bytes; nattch : nat; removed : bool }.

(** The segments by their ids, the one that has the key 100, and what the
    programs printed. *)
Record data := Data { segs : gmap nat seg; key : option nat; next_id : nat; out : list (nat * bytes) }.

Definition set_segs (x : gmap nat seg) (g : data) : data := Data x g.(key) g.(next_id) g.(out).
Definition say (tid : nat) (d : bytes) (g : data) : data := Data g.(segs) g.(key) g.(next_id) (g.(out) ++ [(tid, d)]).

(** ** The calls *)

(** [shmget(100, size, IPC_CREAT)]: the segment with the key, unless it is
    smaller, or a new one, which cannot be empty; [None] is -1. *)
Definition shmget (size : nat) (g : data) : data * option nat :=
  match g.(key) with
  | Some id =>
      match g.(segs) !! id with
      | Some s => if decide (size ≤ length s.(content)) then (g, Some id) else (g, None)
      | None => (g, None)
      end
  | None =>
      if decide (size = 0) then (g, None)
      else (Data (<[g.(next_id) := Seg (replicate size NUL) 0 false]> g.(segs)) (Some g.(next_id)) (S g.(next_id)) g.(out),
            Some g.(next_id))
  end.

(** [shmat]: the address is the segment; [None] is [(void * ) -1]. *)
Definition shmat (shmid : option nat) (g : data) : data * option nat :=
  match shmid ≫= λ id, (id,.) <$> g.(segs) !! id with
  | Some (id, s) => (set_segs (<[id := Seg s.(content) (S s.(nattch)) s.(removed)]> g.(segs)) g, Some id)
  | None => (g, None)
  end.

(** A segment that nobody has attached and that is removed is destroyed. *)
Definition settle (id : nat) (s : seg) (g : data) : data :=
  if s.(removed) && bool_decide (s.(nattch) = 0) then set_segs (delete id g.(segs)) g else set_segs (<[id := s]> g.(segs)) g.
Definition shmdt (ptr : option nat) (g : data) : data :=
  match ptr ≫= λ id, (id,.) <$> g.(segs) !! id with
  | Some (id, s) => settle id (Seg s.(content) (pred s.(nattch)) s.(removed)) g
  | None => g
  end.
(** [shmctl(shmid, IPC_RMID, NULL)] *)
Definition shmrm (shmid : option nat) (g : data) : data :=
  match shmid ≫= λ id, (id,.) <$> g.(segs) !! id with
  | Some (id, s) =>
      let g := if decide (g.(key) = Some id) then Data g.(segs) None g.(next_id) g.(out) else g in
      settle id (Seg s.(content) s.(nattch) true) g
  | None => g
  end.

(** ** The programs *)

Inductive local :=
| WGet | WShow (shmid : option nat) | WAttach (shmid : option nat) | WCopy (shmid ptr : option nat) (i : nat)
| RGet | RShow (shmid : option nat) | RAttach (shmid : option nat) | RPrint (shmid ptr : option nat) (buf : bytes)
| Prompt (shmid ptr : option nat) | Getchar (shmid ptr : option nat) | Detach (shmid ptr : option nat) | Remove (shmid : option nat)
| Return | Crash.

Definition id_line (shmid : option nat) : bytes := line (B "shmid : " ++ dec (from_option Z.of_nat (-1)%Z shmid)).
(** The text and its terminator. *)
Definition message : bytes := B "helloworld" ++ [NUL].

(** The size of the segment. *)
Definition SIZE : nat := 4096.

(** What both programs do in the end. *)
Definition tail_code (tid : nat) (o : Z) (g : data) (l : local) : option (data * local) :=
  match l with
  | Prompt shmid ptr => Some (say tid (line (B "按任意键继续")) g, Getchar shmid ptr)
  | Getchar shmid ptr => if (o <? 0)%Z then None else Some (g, Detach shmid ptr)
  | Detach shmid ptr => Some (shmdt ptr g, Remove shmid)
  | Remove shmid => Some (shmrm shmid g, Return)
  | _ => None
  end.

(** write_shm.c; the input [o] is negative when [shmget] fails.  An access
    through a pointer that is no segment is a crash. *)
Definition write_code (tid : nat) (o : Z) (g : data) (l : local) : option (data * local) :=
  match l with
  | WGet => let '(g, shmid) := if (o <? 0)%Z then (g, None) else shmget SIZE g in Some (g, WShow shmid)
  | WShow shmid => Some (say tid (id_line shmid) g, WAttach shmid)
  | WAttach shmid => let '(g, ptr) := shmat shmid g in Some (g, WCopy shmid ptr 0)
  | WCopy shmid ptr i =>
      match message !! i with
      | None => Some (g, Prompt shmid ptr)
      | Some c =>
          match ptr ≫= λ id, (id,.) <$> g.(segs) !! id with
          | Some (id, s) => Some (set_segs (<[id := Seg (<[i := c]> s.(content)) s.(nattch) s.(removed)]> g.(segs)) g, WCopy shmid ptr (S i))
          | None => Some (g, Crash)
          end
      end
  | l => tail_code tid o g l
  end.

(** read_shm.c *)
Definition read_code (tid : nat) (o : Z) (g : data) (l : local) : option (data * local) :=
  match l with
  | RGet => let '(g, shmid) := if (o <? 0)%Z then (g, None) else shmget 0 g in Some (g, RShow shmid)
  | RShow shmid => Some (say tid (id_line shmid) g, RAttach shmid)
  | RAttach shmid => let '(g, ptr) := shmat shmid g in Some (g, RPrint shmid ptr [])
  | RPrint shmid ptr buf =>
      match ptr ≫= λ id, g.(segs) !! id with
      | Some s =>
          match s.(content) !! length buf with
          | Some c => if Ascii.eqb c NUL then Some (say tid (line buf) g, Prompt shmid ptr) else Some (g, RPrint shmid ptr (buf ++ [c]))
          | None => Some (g, Crash)
          end
      | None => Some (g, Crash)
      end
  | l => tail_code tid o g l
  end.

(** The writer is thread 0, the reader thread 1. *)
Definition exec (tid : nat) (o : Z) (g : data) (l : local) : option (data * local) :=
  match tid with 0 => write_code tid o g l | _ => read_code tid o g l end.
Definition finished (l : local) : bool := match l with Return | Crash => true | _ => false end.
Definition both : pool data local := Pool (Data ∅ None 0 []) [Some WGet; Some RGet] [Forever].

(** ** What the reader prints *)

Definition hello : bytes := B "helloworld".
(** The segment after [i] bytes of the message. *)
Definition text (i : nat) : bytes := take i message ++ replicate (SIZE - i) NUL.

(** The bytes the writer has copied, and the address a program has attached. *)
Definition copied (l : local) : nat :=
  match l with
  | WCopy _ _ i => i
  | Prompt _ (Some _) | Getchar _ (Some _) | Detach _ (Some _) | Remove _ | Return => 11
  | _ => 0
  end.
Definition address (l : local) : option nat :=
  match l with
  | WCopy _ ptr _ | RPrint _ ptr _ | Prompt _ ptr | Getchar _ ptr | Detach _ ptr => ptr
  | _ => None
  end.
Definition id_of (l : local) : option nat :=
  match l with
  | WShow x | WAttach x | WCopy x _ _ | RShow x | RAttach x | RPrint x _ _ | Prompt x _ | Getchar x _ | Detach x _ | Remove x => x
  | _ => None
  end.
Definition att (l : local) : nat := match address l with Some _ => 1 | None => 0 end.

Definition writes (l : local) : Prop :=
  match l with
  | RGet | RShow _ | RAttach _ | RPrint _ _ _ | Prompt _ None | Getchar _ None | Detach _ None => False
  | WCopy _ None i => i = 0
  | WCopy _ _ i => i ≤ 11
  | _ => True
  end
  ∧ (address l = None ∨ address l = Some 0) ∧ (id_of l = None ∨ id_of l = Some 0).
Definition reads (n : nat) (l : local) : Prop :=
  match l with
  | WGet | WShow _ | WAttach _ | WCopy _ _ _ => False
  | RPrint _ (Some _) buf => buf = take (length buf) hello ∧ length buf ≤ n
  | _ => True
  end ∧ (address l = None ∨ address l = Some 0) ∧ (id_of l = None ∨ id_of l = Some 0).

(** The lines of the reader. *)
Definition reader_line (d : bytes) : Prop :=
  (∃ shmid, d = id_line shmid) ∨ d = line (B "按任意键继续") ∨ ∃ k, k ≤ 10 ∧ d = line (take k hello).

(** The memory, with [n] bytes of the message and attached [a] times. *)
Record mem_ok (n a : nat) (g : data) : Prop := {
  mo_key : g.(key) = None ∨ g.(key) = Some 0 ∧ is_Some (g.(segs) !! 0);
  mo_seg : ∀ id s, g.(segs) !! id = Some s → id = 0 ∧ s.(content) = text n ∧ s.(nattch) = a ∧ (s.(removed) = true → g.(key) = None);
  mo_att : 0 < a → is_Some (g.(segs) !! 0)
}.

Record shm_inv (g : data) (lw lr : local) : Prop := {
  si_fresh : lw = WGet → g.(segs) = ∅ ∧ g.(key) = None ∧ g.(next_id) = 0;
  si_mem : mem_ok (copied lw) (att lw + att lr) g;
  si_lw : writes lw;
  si_lr : reads (copied lw) lr;
  si_out : ∀ d, (1, d) ∈ g.(out) → reader_line d
}.

Lemma shm_message_length : length message = 11.
Proof. reflexivity. Qed.
Lemma size_big : 11 < SIZE.
Proof. apply Nat.ltb_lt. reflexivity. Qed.
#[local] Opaque SIZE.

Lemma text_0 : text 0 = replicate SIZE NUL.
Proof. unfold text. by rewrite Nat.sub_0_r. Qed.

Lemma length_text i : i ≤ 11 → length (text i) = SIZE.
Proof. intros Hi. unfold text. pose proof size_big. rewrite length_app, length_take, length_replicate, shm_message_length. lia. Qed.

Lemma text_S i c : message !! i = Some c → <[i := c]> (text i) = text (S i).
Proof.
  intros Hc. pose proof size_big as Hs. pose proof (lookup_lt_Some _ _ _ Hc) as Hi. rewrite shm_message_length in Hi. unfold text.
  assert (length (take i message) = i) as Hl by (rewrite length_take, shm_message_length; lia).
  rewrite insert_app_r_alt by lia. rewrite Hl, Nat.sub_diag. replace (SIZE - i) with (S (SIZE - S i)) by lia. cbn [replicate insert list_insert].
  by rewrite (take_S_r _ _ c Hc), <-app_assoc.
Qed.

(** What the reader finds at position [k]. *)
Lemma text_lookup n k : k ≤ n → n ≤ 11 → k ≤ 10 → text n !! k = Some (if decide (k < n) then default NUL (message !! k) else NUL).
Proof.
  intros Hkn Hn Hk. pose proof size_big. unfold text. case_decide as Hlt.
  - rewrite lookup_app_l, lookup_take_lt by (rewrite ?length_take, ?shm_message_length; lia).
    destruct (message !! k) eqn:E; [done|]. apply lookup_ge_None in E. rewrite shm_message_length in E. lia.
  - rewrite lookup_app_r by (rewrite length_take, shm_message_length; lia). apply lookup_replicate_2. rewrite length_take, shm_message_length. lia.
Qed.

Lemma hello_lookup k c : message !! k = Some c → k ≤ 10 → (Ascii.eqb c NUL = true ↔ k = 10) ∧ (k < 10 → hello !! k = Some c).
Proof.
  intros Hc Hk. do 11 (destruct k as [|k]; [injection Hc as <-; split; [split; done|intros; first [done|lia]]|]). lia.
Qed.

Lemma copied_le l : writes l → copied l ≤ 11.
Proof. intros [H _]. destruct l as [| | |? []| | | | |? []|? []|? []| | |]; cbn in *; try lia; done. Qed.

(** *** The calls keep the memory in order *)

Lemma mem_put n a a' g id s s' :
  mem_ok n a g → g.(segs) !! id = Some s → s'.(content) = s.(content) → s'.(nattch) = a' → s'.(removed) = s.(removed) →
  mem_ok n a' (set_segs (<[id := s']> g.(segs)) g).
Proof.
  intros [Hk Hs Ha] Hid Hc Hn Hr. destruct (Hs _ _ Hid) as (-> & Hcs & Has & Hrs). split; cbn.
  - destruct Hk as [|[Hk _]]; [by left|right]. split; [done|]. rewrite lookup_insert_eq. by eexists.
  - intros x y [[<- <-]|[Hne Hy]]%lookup_insert_Some; [|by destruct (Hs _ _ Hy) as (-> & _)].
    split_and!; [done|congruence|done|]. rewrite Hr. done.
  - intros _. rewrite lookup_insert_eq. by eexists.
Qed.

Lemma mem_delete n g s : mem_ok n 0 g → g.(segs) !! 0 = Some s → g.(key) = None → mem_ok n 0 (set_segs (delete 0 g.(segs)) g).
Proof.
  intros [Hk Hs Ha] Hid Hkey. split; cbn; [by left| |lia]. intros x y [Hne Hy]%lookup_delete_Some. by destruct (Hs _ _ Hy) as (-> & _).
Qed.

Lemma shmat_ok n a g x : mem_ok n a g → x = None ∨ x = Some 0 →
  (shmat x g = (g, None)) ∨ (∃ g', shmat x g = (g', Some 0) ∧ mem_ok n (S a) g' ∧ g'.(out) = g.(out)).
Proof.
  intros Hm [->| ->]; unfold shmat; [by left|]. cbn. destruct (segs g !! 0) as [s|] eqn:E; [right|by left]. cbn. eexists. split; [reflexivity|].
  split; [|done]. destruct (mo_seg _ _ _ Hm _ _ E) as (_ & _ & Hn & _). eapply mem_put; [exact Hm|exact E|done|cbn; by rewrite Hn|done].
Qed.

Lemma shmdt_ok n a g : mem_ok n (S a) g → mem_ok n a (shmdt (Some 0) g) ∧ (shmdt (Some 0) g).(out) = g.(out).
Proof.
  intros Hm. unfold shmdt. cbn. destruct (mo_att _ _ _ Hm) as [s E]; [lia|]. rewrite E. cbn.
  destruct (mo_seg _ _ _ Hm _ _ E) as (_ & Hc & Hn & Hr). unfold settle. cbn [removed nattch].
  assert (mem_ok n a (set_segs (<[0 := Seg (content s) (pred (nattch s)) (removed s)]> g.(segs)) g)) as Hput.
  { eapply mem_put; [exact Hm|exact E|done|cbn; by rewrite Hn|done]. }
  destruct (removed s && _) eqn:Ed; [|done]. apply andb_prop in Ed as [Ed1 Ed2]. apply bool_decide_eq_true in Ed2. split; [|done].
  rewrite Hn in Ed2. cbn in Ed2. subst a. pose proof (mem_delete n _ _ Hput (lookup_insert_eq _ _ _) (Hr Ed1)) as Hd.
  cbn in Hd. by rewrite delete_insert_eq in Hd.
Qed.

Lemma shmrm_ok n a g x : mem_ok n a g → x = None ∨ x = Some 0 → mem_ok n a (shmrm x g) ∧ (shmrm x g).(out) = g.(out).
Proof.
  intros Hm [->| ->]; [done|]. unfold shmrm. cbn. destruct (segs g !! 0) as [s|] eqn:E; [|done]. cbn.
  destruct (mo_seg _ _ _ Hm _ _ E) as (_ & Hc & Hn & Hr). set (g1 := if decide _ then _ else g).
  assert (g1.(segs) = g.(segs) ∧ g1.(key) = None ∧ g1.(out) = g.(out)) as (Hs1 & Hk1 & Ho1).
  { subst g1. case_decide as Hd; [done|]. destruct (mo_key _ _ _ Hm) as [|[? _]]; [done|congruence]. }
  assert (mem_ok n a (set_segs (<[0 := Seg s.(content) s.(nattch) true]> g1.(segs)) g1)) as Hput.
  { rewrite Hs1. split; cbn; [by left| |].
    - intros y z [[<- <-]|[Hne Hy]]%lookup_insert_Some; [done|]. by destruct (mo_seg _ _ _ Hm _ _ Hy) as (-> & _).
    - intros _. rewrite lookup_insert_eq. by eexists. }
  unfold settle. cbn [removed nattch andb]. case_bool_decide as Hz; [|by split; [|rewrite <-Ho1]].
  split; [|done]. assert (a = 0) as Ha0 by congruence. rewrite Ha0 in Hput |- *.
  pose proof (mem_delete n _ _ Hput (lookup_insert_eq _ _ _) Hk1) as Hd.
  cbn in Hd. by rewrite delete_insert_eq in Hd.
Qed.

Lemma mem_same n a g g' : mem_ok n a g → g'.(segs) = g.(segs) → g'.(key) = g.(key) → mem_ok n a g'.
Proof. intros [H1 H2 H3] Hs Hk. split; rewrite ?Hs, ?Hk; done. Qed.

(** The part both programs share; [l] is at its end. *)
Lemma tail_ok tid o n a g l g' l' :
  mem_ok n (a + att l) g → (address l = None ∨ address l = Some 0) → (id_of l = None ∨ id_of l = Some 0) →
  tail_code tid o g l = Some (g', l') →
  mem_ok n (a + att l') g' ∧ (address l' = None ∨ address l' = Some 0) ∧ (id_of l' = None ∨ id_of l' = Some 0)
  ∧ (∀ d, (1, d) ∈ g'.(out) → (1, d) ∈ g.(out) ∨ reader_line d)
  ∧ match l, l' with
    | Prompt _ p, Getchar _ p' | Getchar _ p, Detach _ p' => p' = p
    | Detach _ _, Remove _ | Remove _, Return => True
    | _, _ => False
    end.
Proof.
  intros Hm Ha Hi E. destruct l as [| | | | | | | |x p|x p|x p|x| |]; try done; cbn [tail_code] in E.
  - injection E as <- <-. split; [by eapply mem_same|]. split; [done|]. split; [done|]. split; [|done].
    cbn. intros d [H|[= ->]%list_elem_of_singleton]%elem_of_app; [by left|]. right. right. by left.
  - destruct (o <? 0)%Z; [done|]. injection E as <- <-. split; [done|]. split; [done|]. split; [done|]. split; [by left|done].
  - injection E as <- <-. destruct p as [p|].
    + destruct Ha as [|[= ->]]; [done|]. cbn [att address] in Hm |- *. rewrite Nat.add_1_r in Hm. rewrite Nat.add_0_r.
      destruct (shmdt_ok _ _ _ Hm) as [H1 H2]. split; [done|]. split; [by left|]. split; [done|]. rewrite H2. split; [by left|done].
    + split; [done|]. split; [by left|]. split; [done|]. split; [by left|done].
  - injection E as <- <-. destruct (shmrm_ok _ _ _ x Hm Hi) as [H1 H2].
    split; [done|]. split; [by left|]. split; [by left|]. rewrite H2. split; [by left|done].
Qed.

Lemma reads_mono n n' l : reads n l → n ≤ n' → reads n' l.
Proof. intros [H1 H2] Hn. split; [|done]. destruct l as [| | | | | | |? []| | | | | |]; try done. destruct H1. split; [done|lia]. Qed.

(** The conditions on the ids and addresses of a program. *)
Ltac ids := split_and!; first [done|by left|by right|cbn; lia].

(** A step of the writer. *)
Lemma writer_gets g lr x g' :
  shm_inv g WGet lr → shmget SIZE g = (g', x) → shm_inv g' (WShow x) lr.
Proof.
  intros [Hf Hm Hlw Hlr Ho] E. destruct (Hf eq_refl) as (Hsegs & Hkey & Hid). unfold shmget in E. rewrite Hkey in E.
  rewrite decide_False in E by (pose proof size_big; lia). rewrite Hid, Hsegs in E. injection E as <- <-.
  assert (att lr = 0) as Ha.
  { destruct (att lr) eqn:E; [done|]. destruct (mo_att _ _ _ Hm) as [s Hs]; [cbn; lia|]. by rewrite Hsegs in Hs. }
  split; [done| |ids|done|done]. cbn [copied att address]. rewrite Ha. split; cbn.
  - right. split; [done|by eexists].
  - intros y z [[<- <-]|[Hne Hy]]%lookup_insert_Some; [|done]. cbn. by rewrite text_0.
  - lia.
Qed.

(** One byte more. *)
Lemma mem_store n a g s c :
  mem_ok n a g → g.(segs) !! 0 = Some s → message !! n = Some c →
  mem_ok (S n) a (set_segs (<[0 := Seg (<[n := c]> s.(content)) s.(nattch) s.(removed)]> g.(segs)) g).
Proof.
  intros [Hk Hs Ha] Hid Hc. destruct (Hs _ _ Hid) as (_ & Hcs & Has & Hrs). split; cbn.
  - destruct Hk as [|[Hk _]]; [by left|right]. split; [done|by rewrite lookup_insert_eq; eexists].
  - intros x y [[<- <-]|[Hne Hy]]%lookup_insert_Some; [|by destruct (Hs _ _ Hy) as (-> & _)]. cbn. rewrite Hcs. by rewrite (text_S _ _ Hc).
  - intros _. rewrite lookup_insert_eq. by eexists.
Qed.

Lemma writer_copies o g lr x p i g' lw' :
  shm_inv g (WCopy x p i) lr → write_code 0 o g (WCopy x p i) = Some (g', lw') → shm_inv g' lw' lr ∧ (lw' = Crash → p = None).
Proof.
  intros [Hf Hm Hlw Hlr Ho] E. destruct Hlw as (Hi & Hp & Hx). cbn [write_code] in E. destruct (message !! i) as [c|] eqn:Ec.
  - destruct p as [p|].
    + destruct Hp as [|[= ->]]; [done|]. destruct (mo_att _ _ _ Hm) as [s Hs]; [cbn; lia|]. cbn in E. rewrite Hs in E. cbn in E.
      injection E as <- <-. split; [|done]. pose proof (lookup_lt_Some _ _ _ Ec) as Hlt. rewrite shm_message_length in Hlt.
      split; [done|by apply mem_store|ids|eapply reads_mono; [exact Hlr|cbn; lia]|done].
    + cbn in E. injection E as <- <-. cbn in Hi. subst i. split; [|done]. split; [done|done|ids|done|done].
  - injection E as <- <-. apply lookup_ge_None in Ec. rewrite shm_message_length in Ec. destruct p as [p|]; cbn in Hi; [|lia].
    assert (i = 11) as -> by lia. split; [|done]. split; [done|done|ids|done|done].
Qed.

Lemma writer_tail o g lw lr g' lw' :
  shm_inv g lw lr → tail_code 0 o g lw = Some (g', lw') → shm_inv g' lw' lr ∧ (lw' = Crash → address lw = None).
Proof.
  intros [Hf Hm Hlw Hlr Ho] E. destruct Hlw as (Hpc & Hp & Hx). rewrite Nat.add_comm in Hm.
  destruct (tail_ok 0 o _ _ _ _ _ _ Hm Hp Hx E) as (Hm' & Hp' & Hx' & Ho' & Hl'). rewrite Nat.add_comm in Hm'.
  assert (copied lw' = copied lw ∧ lw' ≠ WGet ∧ lw' ≠ Crash ∧ writes lw') as (Hc & Hg & Hcr & Hw).
  { destruct lw as [| | | | | | | |? [] |? []|? []| | |]; try done; destruct lw'; try done; subst; by split_and!. }
  split; [|done]. split; [done|by rewrite Hc|done|by rewrite Hc|]. intros d Hd. destruct (Ho' d Hd); [by apply Ho|done].
Qed.

Lemma writer_ok o g lw lr g' lw' :
  shm_inv g lw lr → write_code 0 o g lw = Some (g', lw') → shm_inv g' lw' lr ∧ (lw' = Crash → address lw = None).
Proof.
  intros Hinv E. pose proof Hinv as [Hf Hm Hlw Hlr Ho].
  destruct lw as [|x|x|x p i| | | | |x p|x p|x p|x| |]; try (by destruct Hlw as [? _]); try done.
  - cbn [write_code] in E. destruct (o <? 0)%Z.
    + injection E as <- <-. split; [|done]. split; [done|done|ids|done|done].
    + destruct (shmget SIZE g) as [g1 x] eqn:Eg. injection E as <- <-. split; [by eapply writer_gets|done].
  - cbn [write_code] in E. injection E as <- <-. split; [|done]. destruct Hlw as (_ & _ & Hx).
    split; [done|by eapply mem_same|ids|done|].
    cbn. intros d [H|H%list_elem_of_singleton]%elem_of_app; [by apply Ho|done].
  - cbn [write_code] in E. destruct Hlw as (_ & _ & Hx). cbn [id_of] in Hx. destruct (shmat_ok _ _ _ x Hm Hx) as [Ea|(g1 & Ea & H1 & H2)];
      rewrite Ea in E; injection E as <- <-; (split; [|done]).
    + split; [done|done|ids|done|done].
    + split; [done|done|ids|done|by rewrite H2].
  - by eapply (writer_copies o).
  - by eapply (writer_tail o).
  - by eapply (writer_tail o).
  - by eapply (writer_tail o).
  - by eapply (writer_tail o).
Qed.

(** A step of the reader. *)
Lemma reader_prints o g lw x p buf g' lr' :
  shm_inv g lw (RPrint x p buf) → read_code 1 o g (RPrint x p buf) = Some (g', lr') → shm_inv g' lw lr' ∧ (lr' = Crash → p = None).
Proof.
  intros [Hf Hm Hlw Hlr Ho] E. destruct Hlr as (Hb & Hp & Hx). pose proof (copied_le _ Hlw) as Hle. cbn [read_code] in E.
  destruct p as [p|]; cbn in E; [|injection E as <- <-; split; [|done]; by split; [..|ids|]].
  destruct Hp as [|[= ->]]; [done|]. destruct (mo_att _ _ _ Hm) as [s Hs]; [cbn; lia|]. rewrite Hs in E.
  destruct (mo_seg _ _ _ Hm _ _ Hs) as (_ & Hc & _). rewrite Hc in E. destruct Hb as [Hb Hlen].
  assert (length buf ≤ 10) as H10. { pose proof (f_equal length Hb) as Hl. rewrite length_take in Hl. change (length hello) with 10 in Hl. lia. }
  rewrite text_lookup in E by lia. destruct (message !! length buf) as [c|] eqn:Ec.
  2:{ apply lookup_ge_None in Ec. rewrite shm_message_length in Ec. lia. }
  change (default NUL (Some c)) with c in E. destruct (hello_lookup _ _ Ec H10) as [Hnul Hh].
  assert ((if decide (length buf < copied lw) then c else NUL) = c ∧ length buf < copied lw ∧ Ascii.eqb c NUL = false
    ∨ Ascii.eqb (if decide (length buf < copied lw) then c else NUL) NUL = true) as [(Ed & Hlt & Ene)|Ed].
  { case_decide; [|by right]. destruct (Ascii.eqb c NUL) eqn:En; [by right|by left]. }
  - rewrite Ed, Ene in E. injection E as <- <-. split; [|done]. split; [done|done|done| |done].
    split; [|ids]. cbn. rewrite length_app. cbn. split; [|lia]. rewrite Nat.add_1_r.
    assert (length buf ≠ 10) as H10' by (intros Hx'; apply Hnul in Hx'; congruence).
    rewrite (take_S_r _ _ c) by (apply Hh; lia). by rewrite <-Hb.
  - rewrite Ed in E. injection E as <- <-. split; [|done]. split; [done|by eapply mem_same|done|by split; [|ids]|].
    cbn. intros d [H|[= ->]%list_elem_of_singleton]%elem_of_app; [by apply Ho|]. right. right. exists (length buf). split; [done|].
    by rewrite <-Hb.
Qed.

Lemma reader_tail o g lw lr g' lr' :
  shm_inv g lw lr → tail_code 1 o g lr = Some (g', lr') → shm_inv g' lw lr' ∧ (lr' = Crash → address lr = None).
Proof.
  intros [Hf Hm Hlw Hlr Ho] E. destruct Hlr as (Hpc & Hp & Hx).
  destruct (tail_ok 1 o _ _ _ _ _ _ Hm Hp Hx E) as (Hm' & Hp' & Hx' & Ho' & Hl').
  assert (lr' ≠ Crash ∧ reads (copied lw) lr') as (Hcr & Hr) by (destruct lr; try done; destruct lr'; done).
  split; [|done]. split; [|done|done|done|].
  - intros Hw. specialize (Hf Hw). destruct Hf as (Hs & Hk & Hn).
    assert (att lr = 0 ∧ g'.(segs) = g.(segs) ∧ g'.(key) = g.(key) ∧ g'.(next_id) = g.(next_id)) as (_ & -> & -> & ->); [|done].
    assert (att lr = 0) as Ha.
    { destruct (att lr) eqn:Ea; [done|]. destruct (mo_att _ _ _ Hm) as [s Hs']; [lia|]. by rewrite Hs in Hs'. }
    split; [done|]. destruct lr as [| | | | | | | |x p|x p|x p|x| |]; try done; cbn [tail_code] in E.
    + by injection E as <- <-.
    + destruct (o <? 0)%Z; [done|]. by injection E as <- <-.
    + destruct p; [done|]. by injection E as <- <-.
    + injection E as <- <-. unfold shmrm. rewrite Hs. by destruct x.
  - intros d Hd. destruct (Ho' d Hd); [by apply Ho|done].
Qed.

Lemma reader_ok o g lw lr g' lr' :
  shm_inv g lw lr → read_code 1 o g lr = Some (g', lr') → shm_inv g' lw lr' ∧ (lr' = Crash → address lr = None).
Proof.
  intros Hinv E. pose proof Hinv as [Hf Hm Hlw Hlr Ho].
  destruct lr as [| | | | |x|x|x p buf|x p|x p|x p|x| |]; try (by destruct Hlr as [? _]); try done.
  - cbn [read_code] in E. assert (∀ g1 x, (if (o <? 0)%Z then (g, None) else shmget 0 g) = (g1, x) → g1 = g ∧ (x = None ∨ x = Some 0)) as Hg.
    { intros g1 x Eg. destruct (o <? 0)%Z; [injection Eg as <- <-; auto|]. unfold shmget in Eg.
      destruct (mo_key _ _ _ Hm) as [Hk|[Hk [s Hs]]]; rewrite Hk in Eg; [injection Eg as <- <-; auto|].
      rewrite Hs, decide_True in Eg by lia. injection Eg as <- <-. auto. }
    destruct (if (o <? 0)%Z then _ else _) as [g1 x] eqn:Eg. destruct (Hg _ _ eq_refl) as [-> Hx]. injection E as <- <-.
    split; [|done]. split; [done|done|done|ids|done].
  - cbn [read_code] in E. injection E as <- <-. split; [|done]. destruct Hlr as (_ & _ & Hx).
    split; [done|by eapply mem_same|done|ids|].
    cbn. intros d [H|[= ->]%list_elem_of_singleton]%elem_of_app; [by apply Ho|]. left. by exists x.
  - cbn [read_code] in E. destruct Hlr as (_ & _ & Hx). cbn [id_of] in Hx. destruct (shmat_ok _ _ _ x Hm Hx) as [Ea|(g1 & Ea & H1 & H2)];
      rewrite Ea in E; injection E as <- <-; (split; [|done]).
    + split; [done|done|done|ids|done].
    + split; [| |done| |by rewrite H2].
      * intros Hw. exfalso. destruct (Hf Hw) as (Hs & _). unfold shmat in Ea. rewrite Hs in Ea. by destruct x.
      * cbn [att address]. by rewrite Nat.add_1_r, <-(Nat.add_0_r (att lw)).
      * split; [|ids]. cbn. split; [done|lia].
  - by eapply (reader_prints o).
  - by eapply (reader_tail o).
  - by eapply (reader_tail o).
  - by eapply (reader_tail o).
  - by eapply (reader_tail o).
Qed.

Lemma shm_reach p :
  reachable exec finished both p →
  ∃ lw lr, p.(threads) = [Some lw; Some lr] ∧ p.(main) = [Forever] ∧ shm_inv p.(shared) lw lr.
Proof.
  intros H. eapply (reachable_invariant _ _ (λ p, ∃ lw lr, p.(threads) = [Some lw; Some lr] ∧ p.(main) = [Forever] ∧ shm_inv p.(shared) lw lr)) in H;
    [exact H| |].
  - exists WGet, RGet. split; [done|]. split; [done|]. split; [done| |ids|ids|by intros d ?%elem_of_nil]. split; [by left|done|cbn; lia].
  - intros q q' (lw & lr & Ht & Hmain & Hi) [tid o q'' E|q'' E].
    + apply thread_step_Some in E as (l & g' & l' & Hl & E & ->). rewrite Ht in Hl |- *. destruct tid as [|[|tid]]; [..|done]; injection Hl as <-.
      * exists l', lr. split; [done|]. split; [done|]. by eapply writer_ok.
      * exists lw, l'. split; [done|]. split; [done|]. by eapply reader_ok.
    + unfold main_step in E. by rewrite Hmain in E.
Qed.

(** write_shm.c and read_shm.c side by side, for every interleaving and every
    failure: what the reader prints of the segment is a beginning of
    "helloworld"; and neither program crashes at an address it has attached,
    also when the other has removed the segment. *)
Lemma shm_reads_prefix p :
  reachable exec finished both p →
  (∀ d, (1, d) ∈ p.(shared).(out) → reader_line d)
  ∧ ∀ tid o l g', p.(threads) !! tid = Some (Some l) → exec tid o p.(shared) l = Some (g', Crash) → address l = None.
Proof.
  intros H. destruct (shm_reach p H) as (lw & lr & Ht & _ & Hi). split; [apply Hi|].
  intros tid o l g' Hl E. rewrite Ht in Hl. destruct tid as [|[|tid]]; [..|done]; injection Hl as <-.
  - by eapply writer_ok.
  - by eapply reader_ok.
Qed.

(** The reader after the writer prints the text; before it, it has no segment
    and reads through an invalid address; and while the writer copies, it may
    print a part. *)
Lemma shm_runs :
  let steps t n := replicate n (Some (t, 0%Z)) in
  map snd (filter (λ x, x.1 = 1) (run exec finished (steps 0 16 ++ steps 1 16) both).(shared).(out))
    = [id_line (Some 0); line (B "helloworld"); line (B "按任意键继续")]
  ∧ (run exec finished (steps 1 4) both).(threads) !! 1 = Some (Some Crash)
  ∧ map snd (filter (λ x, x.1 = 1) (run exec finished (steps 0 8 ++ steps 1 10) both).(shared).(out))
    = [id_line (Some 0); line (B "hello"); line (B "按任意键继续")].
Proof. split_and!; vm_compute; reflexivity. Qed.
