(* ===== verification/Outputs.v ===== *)
(** * What processes print

    For programs whose processes compute, print, fork and exit, the output of a
    process is determined by its own code, whatever the other processes do: a
    predicate [said pid l ls], "at [l] process [pid] has printed [ls]", that every
    statement preserves holds of every process in every schedule. *)
From S2P Require Import Prelude CString Processes Pipes Households.

(** What process [pid] printed, and the state of a process that runs. *)
Definition printed {L} (pid : Z) (k : kernel L) : list bytes :=
  omap (λ x, if decide (x.1 = pid) then Some x.2 else None) k.(out).
Definition running {L} (p : proc L) : option L := match p.(p_state) with Running l => Some l | Zombie _ => None end.
Definition alive {L} (pid : Z) (k : kernel L) : option L := k.(procs) !! pid ≫= running.

Section lemmas.
Context {L : Type}.
Implicit Types (k : kernel L) (p : proc L).

Lemma printed_print x pid d k : printed x (print_out pid d k) = printed x k ++ (if decide (pid = x) then [d] else []).
Proof. unfold printed. cbn. rewrite omap_app. cbn. by case_decide. Qed.

Lemma alive_after_put x pid p k : alive x (put pid p k) = if decide (pid = x) then running p else alive x k.
Proof. unfold alive. cbn. rewrite lookup_insert. by case_decide. Qed.

Lemma running_orphan pid p : running (orphan pid p) = running p.
Proof. unfold orphan. by case_decide. Qed.
Lemma running_post sig p : running (post sig p) = running p.
Proof. unfold post, running. destruct (p_state p) eqn:E; cbn; by rewrite ?E. Qed.

Lemma alive_post x sig pid k : alive x (set_procs (alter (post sig) pid k.(procs)) k) = alive x k.
Proof.
  unfold alive. cbn. destruct (decide (x = pid)) as [->|]; [|by rewrite lookup_alter_ne].
  rewrite lookup_alter_eq. destruct (procs k !! pid); [|done]. apply running_post.
Qed.

(** The end of a process leaves the others running. *)
Lemma alive_terminate x pid st k :
  is_Some (k.(procs) !! pid) → alive x (terminate pid st k) = if decide (pid = x) then None else alive x k.
Proof.
  intros [p Hp]. unfold terminate. rewrite Hp.
  set (m := if decide (p_ppid p = 1%Z) then _ else _).
  assert (alive x (set_procs (alter (post SIGCHLD) (p_ppid p) m) k) = m !! x ≫= running) as ->.
  { apply (alive_post x SIGCHLD (p_ppid p) (set_procs m k)). }
  assert (∀ y, omap (inherit pid) k.(procs) !! y ≫= running = alive y k) as Ho.
  { intros y. unfold alive. rewrite lookup_omap. destruct (procs k !! y) as [q|]; [|done]. cbn. unfold inherit, forgotten.
    destruct (p_state q) eqn:Eq; [cbn; apply running_orphan|]. case_bool_decide; cbn; [|by rewrite running_orphan].
    unfold running. by rewrite Eq. }
  subst m. repeat case_decide; subst; rewrite ?lookup_delete_eq, ?lookup_insert_eq, ?lookup_delete_ne, ?lookup_insert_ne by done; try done; apply Ho.
Qed.
End lemmas.

Section outputs.
Context {L : Type} (code : Z → Z → L → action L) (P sh : Z) (entry : L).
Variables (said : Z → L → list bytes → Prop) (finished : Z → list bytes → Prop).

(** What a statement does to the output of its process; a child begins with
    nothing printed. *)
Definition statement_ok (pid : Z) (a : action L) (ls : list bytes) : Prop :=
  match a with
  | Compute l => said pid l ls
  | Print d l => said pid l (ls ++ [d])
  | Write fd d c => (fd = 1%Z ∨ fd = 2%Z) ∧ said pid (c (Z.of_nat (length d))) (ls ++ [d])
  | Fork c => said pid (c (-1)%Z) ls ∧ ∀ child, (1 < child)%Z → child ≠ P → said pid (c child) ls ∧ said child (c 0%Z) []
  | Exit _ => finished pid ls
  | _ => False
  end.

Hypothesis said_entry : said P entry [].
Hypothesis said_step : ∀ pid ppid l ls, said pid l ls → statement_ok pid (code pid ppid l) ls.

#[local] Abbreviation step := (pstep code (λ _ l, l) (λ _ _, false)).

(** The processes have the descriptors they started with and meet no signal but
    SIGCHLD, which they ignore. *)
Definition tame (k : kernel L) : Prop := ∀ pid p l, k.(procs) !! pid = Some p → p.(p_state) = Running l →
    p.(p_fds) = std_fds ∧ p.(p_caught) = ∅ ∧ p.(p_pending) ⊆ {[SIGCHLD]} ∧ pid ∈ pids k.

Record output_inv (k : kernel L) : Prop := {
  oi_out : ∀ pid, match alive pid k with
                  | Some l => said pid l (printed pid k)
                  | None => printed pid k = [] ∨ finished pid (printed pid k)
                  end;
  oi_known : ∀ pid, pid ∉ pids k → printed pid k = [];
  oi_first : P ∈ pids k;
  oi_tame : tame k
}.

Lemma tame_post pid k : tame k → tame (set_procs (alter (post SIGCHLD) pid k.(procs)) k).
Proof.
  intros Ht x q l Hq Hl. cbn in Hq. destruct (decide (x = pid)) as [->|]; [|rewrite lookup_alter_ne in Hq by done; by eapply Ht].
  rewrite lookup_alter_eq in Hq. apply fmap_Some in Hq as (q0 & Hq & ->). unfold post in *. destruct (p_state q0) eqn:E; [|congruence].
  destruct (Ht _ _ _ Hq E) as (? & ? & ? & ?). cbn. split_and!; try done. set_solver.
Qed.

Lemma tame_terminate pid st k : tame k → tame (terminate pid st k).
Proof.
  intros Ht. unfold terminate. destruct (procs k !! pid) as [p|]; [|done]. set (m := if decide (p_ppid p = 1%Z) then _ else _).
  apply (tame_post (p_ppid p) (set_procs m k)). intros x q l Hq Hl. cbn in Hq.
  assert (omap (inherit pid) k.(procs) !! x = Some q) as Hq'.
  { subst m. case_decide; [by apply lookup_delete_Some in Hq as [_ Hq]|].
    apply lookup_insert_Some in Hq as [[_ <-]|[_ Hq]]; done. }
  rewrite lookup_omap in Hq'. destruct (procs k !! x) as [q0|] eqn:E0; [|done]. cbn in Hq'. unfold inherit in Hq'.
  destruct (forgotten pid q0); [done|]. injection Hq' as <-. unfold orphan in *. case_decide; exact (Ht x q0 l E0 Hl).
Qed.

(** A process goes on, with [ds] printed. *)
Lemma output_goes pid p l l' ds k :
  output_inv k → k.(procs) !! pid = Some p → p.(p_state) = Running l → said pid l' (printed pid k ++ ds) →
  ∀ k', k'.(procs) = <[pid := go l' p]> k.(procs) → k'.(forked) = k.(forked) →
  (∀ x, printed x k' = printed x k ++ if decide (pid = x) then ds else []) → output_inv k'.
Proof.
  intros [Ho Hk Hfi Ht] Hp Hl Hs k' Hpr Hf Hout. pose proof (Ht _ _ _ Hp Hl) as (Hfd & Hca & Hpe & Hin).
  assert (∀ x, alive x k' = if decide (pid = x) then Some l' else alive x k) as Hal.
  { intros x. unfold alive. rewrite Hpr, lookup_insert. by case_decide. }
  split.
  - intros x. rewrite Hal, Hout. case_decide as E; [by subst|]. rewrite app_nil_r. apply Ho.
  - intros x Hx. unfold pids in *. rewrite Hf in Hx. rewrite Hout, decide_False, app_nil_r by congruence. by apply Hk.
  - unfold pids in *. by rewrite Hf.
  - intros x q lq Hq Hlq. unfold pids in *. rewrite Hpr in Hq. rewrite Hf. apply lookup_insert_Some in Hq as [[<- <-]|[_ Hq]]; [done|].
    by eapply Ht.
Qed.

Lemma output_forks pid p l c o k :
  output_inv k → k.(procs) !! pid = Some p → p.(p_state) = Running l → said pid (c o) (printed pid k) →
  said o (c 0%Z) [] → o ∉ dom k.(procs) → o ∉ pids k →
  output_inv (Kernel (<[o := Proc (Running (c 0%Z)) pid p.(p_fds) p.(p_blocked) ∅ p.(p_caught)]> (<[pid := go (c o) p]> k.(procs)))
                k.(pipes) k.(out) (k.(forked) ++ [(pid, o)]) k.(reaped) k.(mem)).
Proof.
  intros [Ho Hk Hfi Ht] Hp Hl Hs Hc Hd Hn. pose proof (Ht _ _ _ Hp Hl) as (Hfd & Hca & Hpe & Hin).
  set (k' := Kernel _ _ _ _ _ _).
  assert (o ≠ pid) as Hne by (intros ->; done).
  assert (∀ x, printed x k' = printed x k) as Hout by done.
  assert (pids k' = pids k ++ [o]) as Hpid by (unfold pids; cbn; by rewrite map_app).
  split.
  - intros x. rewrite Hout. unfold alive. cbn [procs k']. rewrite lookup_insert. case_decide as E.
    + subst x. cbn. by rewrite Hk.
    + rewrite lookup_insert. case_decide as E'; [by subst|]. apply Ho.
  - intros x Hx. rewrite Hout. apply Hk. set_solver.
  - set_solver.
  - intros x q lq Hq Hlq. rewrite Hpid. cbn [procs k'] in Hq. apply lookup_insert_Some in Hq as [[<- <-]|[_ Hq]]; [cbn; set_solver|].
    apply lookup_insert_Some in Hq as [[<- <-]|[_ Hq]]; [cbn; set_solver|]. pose proof (Ht _ _ _ Hq Hlq). set_solver.
Qed.

Lemma output_exits pid p l st k :
  output_inv k → k.(procs) !! pid = Some p → p.(p_state) = Running l → finished pid (printed pid k) →
  output_inv (terminate pid st k).
Proof.
  intros [Ho Hk Hfi Ht] Hp Hl Hs.
  assert (∀ x, printed x (terminate pid st k) = printed x k) as Hout by (intros; unfold terminate; by rewrite Hp).
  assert (pids (terminate pid st k) = pids k) as Hpid by (unfold terminate; by rewrite Hp).
  split.
  - intros x. rewrite Hout, alive_terminate by done. case_decide as E; [subst; by right|apply Ho].
  - intros x Hx. rewrite Hout. apply Hk. by rewrite <-Hpid.
  - by rewrite Hpid.
  - by apply tame_terminate.
Qed.

Lemma output_perform pid o p l k k' :
  output_inv k → k.(procs) !! pid = Some p → p.(p_state) = Running l →
  perform pid o p (code pid p.(p_ppid) l) k = Some k' → output_inv k'.
Proof.
  intros Hk Hp Hl E. pose proof (oi_out _ Hk pid) as Hs. unfold alive in Hs. rewrite Hp in Hs. cbn in Hs. unfold running in Hs.
  rewrite Hl in Hs. apply (said_step _ p.(p_ppid)) in Hs.
  destruct (oi_tame _ Hk _ _ _ Hp Hl) as (Hfd & _).
  destruct (code pid p.(p_ppid) l); cbn [statement_ok] in Hs; try done; cbn [perform] in E.
  - injection E as <-. eapply (output_goes pid p l _ []); try done; [by rewrite app_nil_r|]. intros x. case_decide; by rewrite app_nil_r.
  - injection E as <-. eapply (output_goes pid p l); try done. intros x. by rewrite printed_print.
  - destruct Hs as [Hf Hs]. destruct (decide (0 < o)%Z).
    + case_decide as Hd; [|done]. injection E as <-. destruct Hd as (H1 & Hd & Hn). pose proof (oi_first _ Hk).
      destruct (Hs o H1) as [? ?]; [by intros ->|]. by eapply output_forks.
    + injection E as <-. eapply (output_goes pid p l _ []); try done; [by rewrite app_nil_r|]. intros x. case_decide; by rewrite app_nil_r.
  - injection E as <-. by eapply output_exits.
  - rewrite Hfd in E. destruct Hs as [Hfd' Hs]. assert (std_fds !! fd = Some Tty) as Htty by by destruct Hfd' as [->| ->].
    rewrite Htty in E. injection E as <-.
    eapply (output_goes pid p l); try done. intros x. by rewrite printed_print.
Qed.

Lemma output_step k k' : output_inv k → step k k' → output_inv k'.
Proof.
  intros Hk [[pid o|pid sig|pid sig] E]; cbn [choose] in E; [| |done].
  - unfold run_proc in E. destruct (procs k !! pid) as [p|] eqn:Hp; [|done]. destruct (p_state p) as [l|] eqn:Hl; [|done].
    destruct o as [o|]; [by eapply output_perform|]. exfalso. pose proof (oi_out _ Hk pid) as Hs. unfold alive in Hs.
    rewrite Hp in Hs. cbn in Hs. unfold running in Hs. rewrite Hl in Hs. apply (said_step _ p.(p_ppid)) in Hs.
    by destruct (code pid p.(p_ppid) l).
  - unfold deliver in E. destruct (procs k !! pid) as [p|] eqn:Hp; [|done]. destruct (p_state p) as [l|] eqn:Hl; [|done].
    case_decide as Hd; [|done]. destruct (oi_tame _ Hk _ _ _ Hp Hl) as (Hfd & Hca & Hpe & Hin).
    cbn [set_pending p_caught] in E. rewrite Hca, decide_False in E by set_solver.
    destruct Hd as [Hsig _]. apply Hpe in Hsig. apply elem_of_singleton in Hsig as ->. cbn in E. injection E as <-.
    destruct Hk as [Ho Hkn Hfi Ht]. split; [|done|done|].
    + intros x. rewrite alive_after_put. specialize (Ho x). case_decide as Ex; [|done]. subst x. unfold alive in Ho. rewrite Hp in Ho.
      exact Ho.
    + intros x q lq Hq Hlq. cbn in Hq. apply lookup_insert_Some in Hq as [[<- <-]|[_ Hq]]; [|by eapply Ht].
      cbn. split_and!; try done. set_solver.
Qed.

(** In every schedule, the output of a process is what its code says. *)
Lemma outputs k : preach code (λ _ l, l) (λ _ _, false) (first_proc P sh entry) k → output_inv k.
Proof.
  intros H. eapply (preach_invariant _ _ _ output_inv); [exact H| |intros ? ?; apply output_step]. split; [|done|cbn; set_solver|].
  - intros pid. unfold alive. cbn. destruct (decide (pid = P)) as [->|]; [by rewrite lookup_singleton_eq|].
    rewrite lookup_singleton_ne by done. by left.
  - intros pid p l Hp Hl. cbn in Hp. apply lookup_singleton_Some in Hp as [<- <-]. cbn. set_solver.
Qed.

(** The same, for the whole scripts of the processes. *)
Variable script : Z → list bytes → Prop.
Hypothesis script_some : ∀ pid, ∃ full, script pid full.
Hypothesis said_script : ∀ pid l ls, said pid l ls → ∃ full, script pid full ∧ ls `prefix_of` full.
Hypothesis finished_script : ∀ pid ls, finished pid ls → script pid ls.

Lemma outputs_script k pid :
  preach code (λ _ l, l) (λ _ _, false) (first_proc P sh entry) k →
  ∃ full, script pid full ∧ printed pid k `prefix_of` full ∧ (alive pid k = None → printed pid k = [] ∨ printed pid k = full).
Proof.
  intros H. apply outputs in H. pose proof (oi_out _ H pid) as Ho. destruct (alive pid k) as [l|].
  - destruct (said_script _ _ _ Ho) as (full & Hf & Hp). by exists full.
  - destruct Ho as [->|Ho].
    + destruct (script_some pid) as [full Hf]. exists full. split_and!; [done|apply prefix_nil|by left].
    + exists (printed pid k). split_and!; [by apply finished_script|done|by right].
Qed.
End outputs.
