(* ===== verification/Exec.v ===== *)
(** * Fork, exec and exit: lesson18/hello.c, lesson19 and lesson20/exit.c *)
From S2P Require Import Prelude CString Processes Pipes Forks.

(** ** lesson18/hello.c *)
Module HelloC.

Inductive local := Start | Forking | Branch (r : Z) | PIds | ForI (i : nat) | CIds | ForJ (j : nat) | Return.

Section code.
(** The process group, which a child inherits. *)
Variable pgid : Z.

Definition pids_line (pid ppid : Z) : bytes :=
  line (B "我是父进程：pid = " ++ dec pid ++ B ", ppid = " ++ dec ppid ++ B ", pgid = " ++ dec pgid).
Definition cids_line (pid ppid : Z) : bytes :=
  line (B "我是子进程：pid = " ++ dec pid ++ B ", ppid = " ++ dec ppid ++ B " pgid = " ++ dec pgid).

(** A failing [fork] takes the branch of the child. *)
Definition code (pid ppid : Z) (l : local) : action local :=
  match l with
  | Start => Print (line (B "begin")) Forking
  | Forking => Fork Branch
  | Branch r => Compute (if (0 <? r)%Z then PIds else CIds)
  | PIds => Print (pids_line pid ppid) (ForI 0)
  | ForI i => if decide (i < 10) then Print (line (B "i = " ++ dec (Z.of_nat i))) (ForI (S i)) else Compute Return
  | CIds => Print (cids_line pid ppid) (ForJ 0)
  | ForJ j => if decide (j < 10) then Print (line (B "j = " ++ dec (Z.of_nat j))) (ForJ (S j)) else Compute Return
  | Return => Exit 0
  end.
End code.
End HelloC.

(** ** lesson19: another program in the place of the child *)
Module Exec.

(** [Hello] is [main] of hello.c, [Image] a program that makes these writes. *)
Inductive local :=
| Start | Branch (r : Z) | PId | CExec | CError | CId | For (i : nat) | Return
| Hello (i : nat) | Image (ws : list bytes).

Definition pid_line (who : string) (pid : Z) : bytes := line (B "i am " ++ B who ++ B " process, pid : " ++ dec pid).
Definition for_line (pid : Z) (i : nat) : bytes := line (B "i = " ++ dec (Z.of_nat i) ++ B ", pid = " ++ dec pid).

(** [main] of hello.c. *)
Definition hello_code (i : nat) : action local :=
  if decide (i < 3) then Print (line (B "hello, world")) (Hello (S i)) else Exit 0.

(** What execl.c and execlp.c share: [exec] is what becomes of the child, and
    [error] what it prints when there is no program to execute. *)
Definition common (exec : local) (error : action local) (pid : Z) (l : local) : action local :=
  match l with
  | Start => Fork Branch
  | Branch r => Compute (if (0 <? r)%Z then PId else if (r =? 0)%Z then CExec else For 0)
  | PId => Print (pid_line "parent" pid) (For 0)
  | CExec => Compute exec
  | CError => error
  | CId => Print (pid_line "child" pid) (For 0)
  | For i => if decide (i < 3) then Print (for_line pid i) (For (S i)) else Compute Return
  | Return => Exit 0
  | Hello i => hello_code i
  | Image (d :: ws) => Write 1 d (λ _, Image ws)
  | Image [] => Exit 0
  end.

Section execl.
(** hello.c has been compiled to the path; otherwise, why it cannot be run. *)
Variables (found : bool) (why : bytes).
Definition execl_code (pid ppid : Z) : local → action local :=
  common (if found then Hello 0 else CError) (Write 2 (line (B "execl: " ++ why)) (λ _, CId)) pid.
End execl.

Section execlp.
(** The program found under a name, with its arguments, the first of which is
    the name it is told. *)
Variable image : bytes → list bytes → option (list bytes).
Definition execlp_code (pid ppid : Z) : local → action local :=
  common (match image (B "ps") [B "aux"] with Some ws => Image ws | None => CError end) (Compute CId) pid.
End execlp.
End Exec.

(** ** lesson20/exit.c: what is left in the buffer *)
Module ExitStatus.

(** The standard output: line by line to a terminal, in whole buffers to a file
    or pipe.  The texts are shorter than a buffer. *)
Record stdio := Stdio { by_line : bool; buffered : bytes; written : bytes }.

(** The longest prefix that ends in a newline, and the rest. *)
Fixpoint split_lines (s : bytes) : bytes * bytes :=
  match s with
  | [] => ([], [])
  | c :: s =>
      match split_lines s with
      | ([], r) => if Ascii.eqb c LF then ([c], r) else ([], c :: r)
      | (a, r) => (c :: a, r)
      end
  end.

Definition printf (s : bytes) (f : stdio) : stdio :=
  let b := f.(buffered) ++ s in
  if f.(by_line) then Stdio true (split_lines b).2 (f.(written) ++ (split_lines b).1) else Stdio false b f.(written).

(** [exit] flushes the buffers, [_exit] does not. *)
Definition exit (f : stdio) : bytes := f.(written) ++ f.(buffered).
Definition _exit (f : stdio) : bytes := f.(written).

Definition main (by_line : bool) : bytes := _exit (printf (B "world") (printf (line (B "hello")) (Stdio by_line [] []))).
End ExitStatus.
