(* ===== verification/ExecProofs.v ===== *)
(** * The outputs of the programs that fork and execute: lessons 18 and 19 *)
From S2P Require Import Prelude CString Processes Pipes Forks Households Outputs Exec.

(** The lines of a loop, up to round [i]. *)
Definition loop_lines (f : nat → bytes) (i : nat) : list bytes := map f (seq 0 i).

Lemma loop_lines_S f i : loop_lines f (S i) = loop_lines f i ++ [f i].
Proof. unfold loop_lines. by rewrite seq_S, map_app. Qed.

Lemma loop_lines_prefix f i n : i ≤ n → loop_lines f i `prefix_of` loop_lines f n.
Proof.
  intros Hi. unfold loop_lines. replace n with (i + (n - i)) by lia. rewrite seq_app, map_app. by apply prefix_app_r.
Qed.

(** ** fork.c *)
Section fork.
Import ForkC.
Variable P : Z.

Definition started : bytes := line (B "processor start...").
(** Who a process is: the parent, the child, or the parent without a child; what
    it prints before the loop, and the [num] it has then. *)
Definition intro (pid ppid : Z) (who : string) (before after : Z) (add : bytes) : list bytes :=
  [line (B "i am " ++ B who ++ B " process, pid : " ++ dec pid ++ B ", ppid : " ++ dec ppid);
   line (B who ++ B " num : " ++ dec before); line (B who ++ B " num += " ++ add ++ B " : " ++ dec after)].
Definition num_line (pid num : Z) (i : nat) : bytes :=
  line (B "i : " ++ dec (Z.of_nat i) ++ B " , pid : " ++ dec pid ++ B ", num = " ++ dec num).

Inductive role (pid : Z) : list bytes → Z → Prop :=
| role_parent ppid : pid = P → role pid (started :: intro pid ppid "parent" 10 20 (B "10")) 20
| role_child ppid : pid ≠ P → role pid (intro pid ppid "child" 10 110 (B "100")) 110
| role_alone : pid = P → role pid [started] 10.

Definition fork_said (pid : Z) (l : local) (ls : list bytes) : Prop :=
  match l with
  | Start => pid = P ∧ ls = []
  | Forking => pid = P ∧ ls = [started]
  | Branch num r => num = 10%Z ∧ (r = 0%Z ∧ pid ≠ P ∧ ls = [] ∨ r ≠ 0%Z ∧ pid = P ∧ ls = [started])
  | PIds num => num = 10%Z ∧ pid = P ∧ ls = [started]
  | PNum num => num = 10%Z ∧ pid = P ∧ ∃ ppid, ls = take 2 (started :: intro pid ppid "parent" 10 20 (B "10"))
  | PAdd num => num = 20%Z ∧ pid = P ∧ ∃ ppid, ls = take 3 (started :: intro pid ppid "parent" 10 20 (B "10"))
  | CIds num => num = 10%Z ∧ pid ≠ P ∧ ls = []
  | CNum num => num = 10%Z ∧ pid ≠ P ∧ ∃ ppid, ls = take 1 (intro pid ppid "child" 10 110 (B "100"))
  | CAdd num => num = 110%Z ∧ pid ≠ P ∧ ∃ ppid, ls = take 2 (intro pid ppid "child" 10 110 (B "100"))
  | For i num => i ≤ 3 ∧ ∃ pre, role pid pre num ∧ ls = pre ++ loop_lines (num_line pid num) i
  | Return => ∃ pre num, role pid pre num ∧ ls = pre ++ loop_lines (num_line pid num) 3
  end.
Definition fork_finished (pid : Z) (ls : list bytes) : Prop :=
  ∃ pre num, role pid pre num ∧ ls = pre ++ loop_lines (num_line pid num) 3.

Lemma fork_statement pid ppid l ls :
  fork_said pid l ls → statement_ok P fork_said fork_finished pid (ForkC.code pid ppid l) ls.
Proof.
  intros H. destruct l as [| |num r|num|num|num|num|num|num|i num|]; cbn [fork_said] in H; cbn [ForkC.code statement_ok].
  - destruct H as [-> ->]. by split.
  - destruct H as [-> ->]. split; [split; [done|right; by split_and!]|]. intros c Hc Hne.
    split; (split; [done|]); [right; split; [lia|done]|left; by split_and!].
  - destruct H as [-> [(-> & Hp & ->)|(Hr & -> & ->)]]; [by split_and!|].
    destruct (Z.ltb_spec 0 r); [by split_and!|]. destruct (Z.eqb_spec r 0); [done|].
    cbn. split; [lia|]. exists [started]. split; [by constructor|done].
  - destruct H as (-> & -> & ->). split_and!; try done. by exists ppid.
  - destruct H as (-> & -> & pp & ->). split_and!; try done. by exists pp.
  - destruct H as (-> & -> & pp & ->). split; [lia|]. exists (started :: intro P pp "parent" 10 20 (B "10")). split; [by constructor|done].
  - destruct H as (-> & Hp & ->). split_and!; try done. by exists ppid.
  - destruct H as (-> & Hp & pp & ->). split_and!; try done. by exists pp.
  - destruct H as (-> & Hp & pp & ->). split; [lia|]. exists (intro pid pp "child" 10 110 (B "100")). split; [by constructor|done].
  - destruct H as (Hi & pre & Hr & ->). case_decide; cbn [statement_ok fork_said].
    + split; [lia|]. exists pre. split; [done|]. by rewrite loop_lines_S, (app_assoc pre).
    + exists pre, num. split; [done|]. by replace i with 3 by lia.
  - done.
Qed.

Definition fork_script : Z → list bytes → Prop := fork_finished.

Lemma fork_script_some pid : ∃ full, fork_script pid full.
Proof.
  destruct (decide (pid = P)) as [->|Hp]; eexists; eexists _, _; (split; [|reflexivity]);
    [by apply (role_parent _ 0)|by apply (role_child _ 0)].
Qed.

Lemma fork_said_script pid l ls : fork_said pid l ls → ∃ full, fork_script pid full ∧ ls `prefix_of` full.
Proof.
  assert (∀ pre num i, role pid pre num → (∃ i, ls = take i pre) ∨ i ≤ 3 ∧ ls = pre ++ loop_lines (num_line pid num) i →
    ∃ full, fork_script pid full ∧ ls `prefix_of` full) as Hgen.
  { intros pre num i Hr Hls. exists (pre ++ loop_lines (num_line pid num) 3). split; [by exists pre, num|].
    destruct Hls as [[j ->]|[Hi ->]]; [apply prefix_app_r, prefix_take|by apply prefix_app, loop_lines_prefix]. }
  assert (pid = P → ∀ i ppid, ls = take i (started :: intro pid ppid "parent" 10 20 (B "10")) → ∃ full, fork_script pid full ∧ ls `prefix_of` full) as Hpar.
  { intros Hp i ppid ->. eapply (Hgen _ _ 0); [by apply role_parent|]. left. by exists i. }
  assert (pid ≠ P → ∀ i ppid, ls = take i (intro pid ppid "child" 10 110 (B "100")) → ∃ full, fork_script pid full ∧ ls `prefix_of` full) as Hchi.
  { intros Hp i ppid ->. eapply (Hgen _ _ 0); [by apply role_child|]. left. by exists i. }
  destruct l; cbn [fork_said]; intros H.
  - destruct H as [? ->]. by apply (Hpar ltac:(done) 0 0%Z).
  - destruct H as [? ->]. by apply (Hpar ltac:(done) 1 0%Z).
  - destruct H as [_ [(_ & ? & ->)|(_ & ? & ->)]]; [by apply (Hchi ltac:(done) 0 0%Z)|by apply (Hpar ltac:(done) 1 0%Z)].
  - destruct H as (_ & ? & ->). by apply (Hpar ltac:(done) 1 0%Z).
  - destruct H as (_ & ? & pp & ->). by apply (Hpar ltac:(done) 2 pp).
  - destruct H as (_ & ? & pp & ->). by apply (Hpar ltac:(done) 3 pp).
  - destruct H as (_ & ? & ->). by apply (Hchi ltac:(done) 0 0%Z).
  - destruct H as (_ & ? & pp & ->). by apply (Hchi ltac:(done) 1 pp).
  - destruct H as (_ & ? & pp & ->). by apply (Hchi ltac:(done) 2 pp).
  - destruct H as (Hi & pre & Hr & ->). eapply (Hgen _ _ i); [done|]. by right.
  - destruct H as (pre & num & Hr & ->). eapply (Hgen _ _ 3); [done|]. right. by split; [lia|].
Qed.
End fork.

(** ** execl.c and execlp.c *)
Section exec.
Import Exec.
(** What the executed program prints, if there is one, and what is printed when
    there is none. *)
Variables (image : option (list bytes)) (errs : list bytes) (exec : local) (error : action local) (P : Z).

Definition hello_lines : list bytes := replicate 3 (line (B "hello, world")).
Hypothesis exec_ok :
  (exec = CError ∧ image = None) ∨ (exec = Hello 0 ∧ image = Some hello_lines) ∨ ∃ ws, exec = Image ws ∧ image = Some ws.
Hypothesis error_ok : (∃ e, error = Write 2 e (λ _, CId) ∧ errs = [e]) ∨ (error = Compute CId ∧ errs = []).

(** Who a process is, and what it prints before the loop. *)
Inductive before_loop (pid : Z) : list bytes → Prop :=
| bl_parent : pid = P → before_loop pid [pid_line "parent" pid]
| bl_alone : pid = P → before_loop pid []
| bl_failed : pid ≠ P → image = None → before_loop pid (errs ++ [pid_line "child" pid]).

(** The loop, or the program executed. *)
Inductive exec_script (pid : Z) : list bytes → Prop :=
| es_loop pre : before_loop pid pre → exec_script pid (pre ++ loop_lines (for_line pid) 3)
| es_image ws : pid ≠ P → image = Some ws → exec_script pid ws.

Definition exec_said (pid : Z) (l : local) (ls : list bytes) : Prop :=
  match l with
  | Start | PId => pid = P ∧ ls = []
  | Branch r => ls = [] ∧ (r = 0%Z ∧ pid ≠ P ∨ r ≠ 0%Z ∧ pid = P)
  | CExec => pid ≠ P ∧ ls = []
  | CError => pid ≠ P ∧ ls = [] ∧ image = None
  | CId => pid ≠ P ∧ ls = errs ∧ image = None
  | For i => i ≤ 3 ∧ ∃ pre, before_loop pid pre ∧ ls = pre ++ loop_lines (for_line pid) i
  | Return => ∃ pre, before_loop pid pre ∧ ls = pre ++ loop_lines (for_line pid) 3
  | Hello i => pid ≠ P ∧ image = Some hello_lines ∧ i ≤ 3 ∧ ls = replicate i (line (B "hello, world"))
  | Image ws => pid ≠ P ∧ image = Some (ls ++ ws)
  end.

Lemma exec_statement pid (ppid : Z) l ls :
  exec_said pid l ls → statement_ok P exec_said exec_script pid (common exec error pid l) ls.
Proof.
  intros H. destruct l as [|r| | | | |i| |i|[|d ws]]; cbn [exec_said] in H; cbn [common statement_ok].
  - destruct H as [-> ->]. split; [by split; [|right]|]. intros c Hc Hne. split; (split; [done|]); [right; split; [lia|done]|by left].
  - destruct H as [-> [[-> Hp]|[Hr ->]]]; [by split|]. destruct (Z.ltb_spec 0 r); [by split|]. destruct (Z.eqb_spec r 0); [done|].
    split; [lia|]. exists []. split; [by constructor|done].
  - destruct H as [-> ->]. split; [lia|]. eexists. split; [by apply bl_parent|done].
  - destruct H as [Hp ->]. destruct exec_ok as [[-> Hi]|[[-> Hi]|(ws & -> & Hi)]]; cbn; split_and!; try done. lia.
  - destruct H as (Hp & -> & Hf). destruct error_ok as [(e & -> & He)|[-> He]]; cbn; rewrite He; [split; [by right|]|]; by split_and!.
  - destruct H as (Hp & -> & Hf). split; [lia|]. eexists. split; [by apply bl_failed|cbn; by rewrite app_nil_r].
  - destruct H as (Hi & pre & Hr & ->). case_decide; cbn [statement_ok exec_said].
    + split; [lia|]. exists pre. split; [done|]. by rewrite loop_lines_S, (app_assoc pre).
    + exists pre. split; [done|]. by replace i with 3 by lia.
  - destruct H as (pre & Hr & ->). by constructor.
  - destruct H as (Hp & Hf & Hi & ->). unfold hello_code. case_decide; cbn [statement_ok exec_said].
    + split_and!; [done|done|lia|]. by rewrite (replicate_S_end i).
    + replace i with 3 by lia. by constructor.
  - destruct H as [Hp Hi]. rewrite app_nil_r in Hi. by constructor.
  - destruct H as [Hp Hi]. split; [by left|]. split; [done|]. by rewrite <-app_assoc.
Qed.

Lemma exec_script_some pid : ∃ full, exec_script pid full.
Proof.
  destruct (decide (pid = P)) as [Hp|Hp]; [eexists; by apply es_loop, bl_parent|].
  destruct image as [ws|] eqn:E; [exists ws; by apply es_image|eexists; by apply es_loop, bl_failed].
Qed.

Lemma exec_said_script pid l ls : exec_said pid l ls → ∃ full, exec_script pid full ∧ ls `prefix_of` full.
Proof.
  intros H. assert (ls = [] → ∃ full, exec_script pid full ∧ ls `prefix_of` full) as Hnil.
  { intros ->. destruct (exec_script_some pid) as [full Hf]. exists full. split; [done|apply prefix_nil]. }
  destruct l; cbn [exec_said] in H; try (apply Hnil; naive_solver).
  - destruct H as (Hp & -> & Hf). eexists. split; [by apply es_loop, bl_failed|]. rewrite <-app_assoc. by apply prefix_app_r.
  - destruct H as (Hi & pre & Hr & ->). eexists. split; [by apply es_loop|]. by apply prefix_app, loop_lines_prefix.
  - destruct H as (pre & Hr & ->). eexists. split; [by apply es_loop|done].
  - destruct H as (Hp & Hf & Hi & ->). eexists. split; [by apply es_image|]. unfold hello_lines.
    replace 3 with (i + (3 - i)) by lia. rewrite replicate_add. by apply prefix_app_r.
  - destruct H as [Hp Hi]. eexists. split; [by apply es_image|]. by apply prefix_app_r.
Qed.

(** The output of a process, for any such program. *)
Lemma exec_outputs (code : Z → Z → local → action local) sh k pid :
  (∀ x y l, code x y l = common exec error x l) →
  preach code (λ _ l, l) (λ _ _, false) (first_proc P sh Start) k →
  ∃ full, exec_script pid full ∧ printed pid k `prefix_of` full
    ∧ (alive pid k = None → printed pid k = [] ∨ printed pid k = full) ∧ (pid ≠ P → ∀ ws, image = Some ws → full = ws).
Proof.
  intros Hcode H.
  destruct (outputs_script code P sh Start exec_said exec_script (conj eq_refl eq_refl)
    (λ x y l ls Hl, eq_ind_r (λ a, statement_ok P exec_said exec_script x a ls) (exec_statement x y l ls Hl) (Hcode x y l))
    exec_script exec_script_some exec_said_script (λ _ _ H, H) k pid H) as (full & Hs & Hp & Hd).
  exists full. split_and!; try done. intros Hne ws Hi. destruct Hs as [pre [?|?|_ ?]|]; congruence.
Qed.
End exec.

(** ** lesson18/hello.c *)
Section hello.
Import HelloC.
Variables (pgid P : Z).

(** A process prints the lines of the parent or those of the child; the parent
    without a child prints those of the child. *)
Inductive hello_intro (pid : Z) : string → list bytes → Prop :=
| hi_parent ppid : pid = P → hello_intro pid "i = " [line (B "begin"); pids_line pgid pid ppid]
| hi_child ppid : pid ≠ P → hello_intro pid "j = " [cids_line pgid pid ppid]
| hi_alone ppid : pid = P → hello_intro pid "j = " [line (B "begin"); cids_line pgid pid ppid].

Definition hello_line (name : string) (i : nat) : bytes := line (B name ++ dec (Z.of_nat i)).
Definition hello_script (pid : Z) (ls : list bytes) : Prop :=
  ∃ name pre, hello_intro pid name pre ∧ ls = pre ++ loop_lines (hello_line name) 10.

Definition hello_said (pid : Z) (l : local) (ls : list bytes) : Prop :=
  match l with
  | Start => pid = P ∧ ls = []
  | Forking => pid = P ∧ ls = [line (B "begin")]
  | Branch r => r = 0%Z ∧ pid ≠ P ∧ ls = [] ∨ r ≠ 0%Z ∧ pid = P ∧ ls = [line (B "begin")]
  | PIds => pid = P ∧ ls = [line (B "begin")]
  | CIds => pid ≠ P ∧ ls = [] ∨ pid = P ∧ ls = [line (B "begin")]
  | ForI i => i ≤ 10 ∧ ∃ pre, hello_intro pid "i = " pre ∧ ls = pre ++ loop_lines (hello_line "i = ") i
  | ForJ j => j ≤ 10 ∧ ∃ pre, hello_intro pid "j = " pre ∧ ls = pre ++ loop_lines (hello_line "j = ") j
  | Return => hello_script pid ls
  end.

Lemma hello_statement pid ppid l ls :
  hello_said pid l ls → statement_ok P hello_said hello_script pid (HelloC.code pgid pid ppid l) ls.
Proof.
  intros H. destruct l as [| |r| |i| |j|]; cbn [hello_said] in H; cbn [HelloC.code statement_ok]; [..|done].
  - destruct H as [-> ->]. by split.
  - destruct H as [-> ->]. split; [by right|]. intros c Hc Hne. split; [right; split; [lia|done]|by left].
  - destruct H as [(-> & Hp & ->)|(Hr & -> & ->)]; [by left|]. destruct (Z.ltb_spec 0 r); [by split|by right].
  - destruct H as [-> ->]. split; [lia|]. eexists. split; [by apply (hi_parent _ ppid)|done].
  - destruct H as (Hi & pre & Hr & ->). case_decide; cbn [statement_ok hello_said].
    + split; [lia|]. exists pre. split; [done|]. by rewrite loop_lines_S, (app_assoc pre).
    + exists "i = ", pre. split; [done|]. by replace i with 10 by lia.
  - destruct H as [[Hp ->]|[-> ->]]; (split; [lia|]); eexists; (split; [by apply (hi_child _ ppid)|done]) || (split; [by apply (hi_alone _ ppid)|done]).
  - destruct H as (Hi & pre & Hr & ->). case_decide; cbn [statement_ok hello_said].
    + split; [lia|]. exists pre. split; [done|]. by rewrite loop_lines_S, (app_assoc pre).
    + exists "j = ", pre. split; [done|]. by replace j with 10 by lia.
Qed.

Lemma hello_script_some pid : ∃ full, hello_script pid full.
Proof.
  destruct (decide (pid = P)); eexists; eexists _, _; (split; [|reflexivity]); [by apply (hi_parent _ 0)|by apply (hi_child _ 0)].
Qed.

Lemma hello_said_script pid l ls : hello_said pid l ls → ∃ full, hello_script pid full ∧ ls `prefix_of` full.
Proof.
  intros H. assert (ls = [] → ∃ full, hello_script pid full ∧ ls `prefix_of` full) as Hnil.
  { intros ->. destruct (hello_script_some pid) as [full Hf]. exists full. split; [done|apply prefix_nil]. }
  assert (pid = P → ls = [line (B "begin")] → ∃ full, hello_script pid full ∧ ls `prefix_of` full) as Hbegin.
  { intros Hp ->. eexists. split; [eexists _, _; split; [by apply (hi_parent _ 0)|reflexivity]|]. apply prefix_cons, prefix_nil. }
  assert (∀ name i, i ≤ 10 → (∃ pre, hello_intro pid name pre ∧ ls = pre ++ loop_lines (hello_line name) i) →
    ∃ full, hello_script pid full ∧ ls `prefix_of` full) as Hloop.
  { intros name i Hi (pre & Hr & ->). eexists. split; [by exists name, pre|]. by apply prefix_app, loop_lines_prefix. }
  destruct l; cbn [hello_said] in H; try (destruct H as [H1 H2]; by eapply Hloop).
  - apply Hnil, H.
  - destruct H. by apply Hbegin.
  - destruct H as [(_ & _ & H)|(_ & H1 & H2)]; auto.
  - destruct H. by apply Hbegin.
  - destruct H as [[_ H]|[H1 H2]]; auto.
Qed.
End hello.

(** ** Properties *)

(** fork.c, for every schedule: the parent counts with its own 20 and the child
    with its own 110, although both started with the same 10; a process that has
    ended has printed all its lines. *)
Lemma fork_copies P sh k pid :
  preach ForkC.code (λ _ l, l) (λ _ _, false) (first_proc P sh ForkC.Start) k →
  ∃ pre num, role P pid pre num ∧ printed pid k `prefix_of` pre ++ loop_lines (num_line pid num) 3
    ∧ (alive pid k = None → printed pid k = [] ∨ printed pid k = pre ++ loop_lines (num_line pid num) 3).
Proof.
  intros H. destruct (outputs_script _ P sh ForkC.Start (fork_said P) (fork_finished P) (conj eq_refl eq_refl) (fork_statement P) (fork_script P)
    (fork_script_some P) (fork_said_script P) (λ _ _ H, H) k pid H) as (full & (pre & num & Hr & ->) & Hp & Hd). eauto.
Qed.

(** hello.c of lesson18, for every schedule. *)
Lemma hello_interleaves pgid P sh k pid :
  preach (HelloC.code pgid) (λ _ l, l) (λ _ _, false) (first_proc P sh HelloC.Start) k →
  ∃ full, hello_script pgid P pid full ∧ printed pid k `prefix_of` full
    ∧ (alive pid k = None → printed pid k = [] ∨ printed pid k = full).
Proof.
  apply (outputs_script _ P sh HelloC.Start (hello_said pgid P) (hello_script pgid P) (conj eq_refl eq_refl)
    (hello_statement pgid P) _ (hello_script_some pgid P) (hello_said_script pgid P) (λ _ _ H, H) k pid).
Qed.

(** execlp.c, for every schedule: the child prints what the program found prints,
    or goes on in execlp.c when there is none. *)
Lemma execlp_replaces image P sh k pid :
  preach (Exec.execlp_code image) (λ _ l, l) (λ _ _, false) (first_proc P sh Exec.Start) k →
  ∃ full, exec_script (image (B "ps") [B "aux"]) [] P pid full ∧ printed pid k `prefix_of` full
    ∧ (alive pid k = None → printed pid k = [] ∨ printed pid k = full)
    ∧ (pid ≠ P → ∀ ws, image (B "ps") [B "aux"] = Some ws → full = ws).
Proof.
  apply (exec_outputs _ [] (match image (B "ps") [B "aux"] with Some ws => Exec.Image ws | None => Exec.CError end) (Compute Exec.CId));
    [|by right|done]. destruct (image (B "ps") [B "aux"]) as [ws|]; [|by left]. right. right. by exists ws.
Qed.

(** execl.c, for every schedule: the child prints what hello.c prints and
    never the lines of execl.c when the program can be executed, and otherwise
    the error, its line and the loop; the parent prints its own lines; a process
    that has ended has printed all of them. *)
Theorem execl_replaces (found : bool) why P sh k pid :
  preach (Exec.execl_code found why) (λ _ l, l) (λ _ _, false) (first_proc P sh Exec.Start) k →
  ∃ full, exec_script (if found then Some hello_lines else None) [line (B "execl: " ++ why)] P pid full
    ∧ printed pid k `prefix_of` full
    ∧ (alive pid k = None → printed pid k = [] ∨ printed pid k = full)
    ∧ (pid ≠ P → ∀ ws, (if found then Some hello_lines else None) = Some ws → full = ws).
Proof.
  apply (exec_outputs _ [line (B "execl: " ++ why)] (if found then Exec.Hello 0 else Exec.CError) (Write 2 (line (B "execl: " ++ why)) (λ _, Exec.CId)));
    [|left; by eexists|done]. destruct found; [right; by left|by left].
Qed.

(** The child runs hello.c to its end, then the parent ends. *)
Definition execl_schedule : list choice :=
  ([Run 100 (Some 101)] ++ replicate 6 (Run 101 (Some 0)) ++ [Run 100 (Some 0); Run 100 (Some 0)])%Z.

Lemma execl_replaces_witness :
  let k := schedule (Exec.execl_code true []) (λ _ l, l) (λ _ _, false) execl_schedule (first_proc 100 99 Exec.Start) in
  alive 101 k = None ∧ printed 100 k = [Exec.pid_line "parent" 100] ∧ printed 101 k = replicate 3 (line (B "hello, world"))
  ∧ ∃ full, printed 101 k `prefix_of` full ∧ full = replicate 3 (line (B "hello, world")).
Proof.
  split; [vm_compute; reflexivity|]. split; [vm_compute; reflexivity|]. split; [vm_compute; reflexivity|].
  destruct (execl_replaces true [] 100 99 (schedule (Exec.execl_code true []) (λ _ l, l) (λ _ _, false) execl_schedule (first_proc 100 99 Exec.Start)) 101)
    as (full & _ & H1 & _ & H2); [apply schedule_reach|].
  exists full. split; [exact H1|]. apply (H2 ltac:(lia) hello_lines eq_refl).
Defined.

(** exit.c: [_exit] loses what is still in the buffer, a terminal keeps the whole
    lines; [exit] would lose nothing, however the output is buffered. *)
Lemma exit_c_loses :
  ExitStatus.main true = line (B "hello") ∧ ExitStatus.main false = [].
Proof. split; vm_compute; reflexivity. Qed.

Lemma split_lines_app s : (ExitStatus.split_lines s).1 ++ (ExitStatus.split_lines s).2 = s.
Proof.
  induction s as [|c s IH]; [done|]. cbn. destruct (ExitStatus.split_lines s) as [[|a l] r]; cbn in *; [case_match; cbn|]; by rewrite IH.
Qed.

Lemma exit_flushes ss by_line :
  ExitStatus.exit (foldl (λ f s, ExitStatus.printf s f) (ExitStatus.Stdio by_line [] []) ss) = concat ss.
Proof.
  assert (∀ ss f, ExitStatus.exit (foldl (λ f s, ExitStatus.printf s f) f ss) = ExitStatus.exit f ++ concat ss) as H.
  { clear. induction ss as [|s ss IH]; intros f; cbn; [by rewrite app_nil_r|]. rewrite IH. unfold ExitStatus.exit, ExitStatus.printf.
    destruct f as [[] b w]; cbn; [|by rewrite <-!app_assoc].
    rewrite <-(app_assoc w), split_lines_app, <-!app_assoc. done. }
  by rewrite H.
Qed.
