(* ===== verification/Timers.v ===== *)
(** * Timers: alarm.c, alarm1.c, setitimer.c, signal.c and sigaction.c of
    lesson26, and the daemon of lesson28

    Time passes in seconds, beside the steps of the processes: a tick moves the
    clock and the interval timers, and a timer that expires sends SIGALRM to its
    process.  A process that sleeps waits for the clock, or for a handler. *)
From S2P Require Import Prelude CString Sorting Processes Pipes Forks.

(** ** Processes with timers *)

(** The actions of the programs: those of Processes.v, and those that depend on
    time, the keyboard or files.  [Setitimer] takes the first delay and the
    interval, [Alarm] returns the seconds that were left; [Open] creates the file
    when it does not exist, and its result is what [WriteFile] appends to. *)
Inductive taction (L : Type) :=
| Plain (a : action L)
| Alarm (n : Z) (k : Z → L)
| Setitimer (value interval : Z) (k : Z → L)
| Sleep (n : Z) (l : L)
| Getchar (l : L)
| Time (k : Z → L)
| Chdir (dir : bytes) (k : Z → L)
| Open (path : bytes) (mode : Z) (k : option bytes → L)
| WriteFile (file : option bytes) (d : bytes) (l : L).
Arguments Plain {L} a.
Arguments Alarm {L} n k.
Arguments Setitimer {L} value interval k.
Arguments Sleep {L} n l.
Arguments Getchar {L} l.
Arguments Time {L} k.
Arguments Chdir {L} dir k.
Arguments Open {L} path mode k.
Arguments WriteFile {L} file d l.

Record timed (L : Type) := Timed {
  base : kernel L;
  clock : Z;
  timers : gmap Z (Z * Z)             (* the time left, more than 0, and the interval *);
  wakes : gmap Z Z                    (* when the processes asleep wake up *);
  files : gmap bytes (Z * bytes)      (* permissions and contents *)
}.
Arguments Timed {L} base clock timers wakes files.
Arguments base {L} t.
Arguments clock {L} t.
Arguments timers {L} t.
Arguments wakes {L} t.
Arguments files {L} t.

Section timed.
Context {L : Type}.
Implicit Types (w : timed L).

Definition set_base (k : kernel L) w : timed L := Timed k w.(clock) w.(timers) w.(wakes) w.(files).
Definition set_timer (pid v i : Z) w : timed L :=
  Timed w.(base) w.(clock) (if (v =? 0)%Z then delete pid w.(timers) else <[pid := (v, i)]> w.(timers)) w.(wakes) w.(files).
Definition set_wakes (x : gmap Z Z) w : timed L := Timed w.(base) w.(clock) w.(timers) x w.(files).
Definition set_files (x : gmap bytes (Z * bytes)) w : timed L := Timed w.(base) w.(clock) w.(timers) w.(wakes) x.

Variable code : Z → Z → L → taction L.
Variable handler : Z → L → L.

(** Process [pid] performs its action; a negative [o] is the failure of a call,
    and for [Getchar] that no key has been pressed. *)
Definition tperform (pid o : Z) (p : proc L) (a : taction L) w : option (timed L) :=
  let next l := set_base (put pid (go l p) w.(base)) w in
  match a with
  | Plain a => match perform pid o p a w.(base) with Some k => Some (set_base k w) | None => None end
  | Alarm n k => Some (set_timer pid n 0 (next (k (from_option fst 0%Z (w.(timers) !! pid)))))
  | Setitimer v i k => if decide (o < 0)%Z then Some (next (k (-1)%Z)) else Some (set_timer pid v i (next (k 0%Z)))
  | Sleep n l =>
      match w.(wakes) !! pid with
      | None => Some (set_wakes (<[pid := (w.(clock) + n)%Z]> w.(wakes)) w)
      | Some t => if decide (t ≤ w.(clock))%Z then Some (set_wakes (delete pid w.(wakes)) (next l)) else None
      end
  | Getchar l => if decide (o < 0)%Z then None else Some (next l)
  | Time k => Some (next (k w.(clock)))
  | Chdir dir k => Some (next (k (if decide (o < 0)%Z then -1 else 0)%Z))
  | Open path mode k =>
      if decide (o < 0)%Z then Some (next (k None))
      else Some (set_files (match w.(files) !! path with Some _ => w.(files) | None => <[path := (mode, [])]> w.(files) end)
                   (next (k (Some path))))
  | WriteFile file d l =>
      match file with
      | Some path => Some (set_files (alter (λ f, (f.1, f.2 ++ d)) path w.(files)) (next l))
      | None => Some (next l)
      end
  end.

Definition trun (pid o : Z) w : option (timed L) :=
  match w.(base).(procs) !! pid with
  | Some p =>
      match p.(p_state) with Running l => tperform pid o p (code pid p.(p_ppid) l) w | Zombie _ => None end
  | None => None
  end.

(** A signal wakes a process that sleeps. *)
Definition tdeliver (pid sig : Z) w : option (timed L) :=
  match deliver handler pid sig w.(base) with
  | Some k => Some (set_wakes (delete pid w.(wakes)) (set_base k w))
  | None => None
  end.

(** A second passes. *)
Definition expired (t : Z * Z) : bool := (t.1 <=? 1)%Z.
Definition count_down (t : Z * Z) : option (Z * Z) :=
  if expired t then if (t.2 =? 0)%Z then None else Some (t.2, t.2) else Some (t.1 - 1, t.2)%Z.
Definition ring (timers : gmap Z (Z * Z)) (pid : Z) (p : proc L) : proc L :=
  match timers !! pid with Some t => if expired t then post SIGALRM p else p | None => p end.
Definition tick w : timed L :=
  Timed (set_procs (map_imap (λ pid p, Some (ring w.(timers) pid p)) w.(base).(procs)) w.(base))
    (w.(clock) + 1) (omap count_down w.(timers)) w.(wakes) w.(files).

Inductive tchoice := TRun (pid o : Z) | TDeliver (pid sig : Z) | Tick.
Definition tchoose (c : tchoice) w : option (timed L) :=
  match c with TRun pid o => trun pid o w | TDeliver pid sig => tdeliver pid sig w | Tick => Some (tick w) end.

(** The runs in which a step satisfies [ok]. *)
Variable ok : tchoice → timed L → Prop.
Definition tstep w w' : Prop := ∃ c, ok c w ∧ tchoose c w = Some w'.
Definition treach : timed L → timed L → Prop := rtc tstep.

(** A schedule in which every step can run and satisfies [ok]. *)
Fixpoint follow `{∀ c w, Decision (ok c w)} (cs : list tchoice) w : option (timed L) :=
  match cs with
  | [] => Some w
  | c :: cs =>
      if decide (ok c w) then match tchoose c w with Some w => follow cs w | None => None end else None
  end.

Lemma follow_reach `{∀ c w, Decision (ok c w)} cs w w' : follow cs w = Some w' → treach w w'.
Proof.
  revert w. induction cs as [|c cs IH]; intros w E; cbn in E; [injection E as <-; apply rtc_refl|].
  case_decide; [|done]. destruct (tchoose c w) as [w1|] eqn:E1; [|done]. eapply rtc_l; [by exists c|by apply IH].
Qed.

Lemma treach_ind (I : timed L → Prop) w0 w : treach w0 w → I w0 → (∀ w w', I w → tstep w w' → I w') → I w.
Proof. intros H. induction H; eauto. Qed.
End timed.

(** A program at its start, at time [t]. *)
Definition start_at {L} (pid sh : Z) (l : L) (t : Z) : timed L := Timed (first_proc pid sh l) t ∅ ∅ ∅.

(** ** alarm.c *)
Module AlarmC.
Inductive local := Start | First (ret : Z) | Pause | Again | Second (ret : Z) | Spin.
Definition code (pid ppid : Z) (l : local) : taction local :=
  match l with
  | Start => Alarm 5 First
  | First ret => Plain (Print (line (B "ret = " ++ dec ret)) Pause)
  | Pause => Sleep 2 Again
  | Again => Alarm 2 Second
  | Second ret => Plain (Print (line (B "ret = " ++ dec ret)) Spin)
  | Spin => Plain (Compute Spin)
  end.
End AlarmC.

(** ** alarm1.c: how far the machine counts in a second *)
Module Alarm1C.
Inductive local := Start | Loop (i : Z) | Overflow.
Definition code (pid ppid : Z) (l : local) : taction local :=
  match l with
  | Start => Alarm 1 (λ _, Loop 1)
  | Loop i => Plain (Print (line (dec i)) (match add32 i 1 with Some i => Loop i | None => Overflow end))
  | Overflow => Plain (Compute Overflow)                           (* undefined *)
  end.
End Alarm1C.

(** ** setitimer.c *)
Module SetitimerC.
Inductive local := Start | Starting (ret : Z) | Check (ret : Z) | Return.
Definition code (pid ppid : Z) (l : local) : taction local :=
  match l with
  | Start => Setitimer 3 2 Starting
  | Starting ret => Plain (Print (line (B "alarm is starting...")) (Check ret))
  | Check ret =>
      if (ret =? -1)%Z then Plain (Write 2 (line (B "setitimer: Invalid argument")) (λ _, Return)) else Getchar Return
  | Return => Plain (Exit 0)
  end.
End SetitimerC.

(** ** signal.c and sigaction.c: SIGALRM is caught *)
Module Catch.
(** The statements of [main]; [Caught] and [Xs] are those of [myalarm], which
    returns to the statement it interrupted. *)
Inductive local :=
| Start | SetTimer | Starting (ret : Z) | Check (ret : Z) | Return
| Caught (num : Z) (ret : local) | Xs (num : Z) (ret : local) | HReturn (num : Z) (ret : local).

(** signal.c waits for a key, and an interrupted [getchar] is restarted;
    sigaction.c spins. *)
Definition code (waits : bool) (pid ppid : Z) (l : local) : taction local :=
  match l with
  | Start => Plain (Sigaction SIGALRM SetTimer)
  | SetTimer => Setitimer 3 2 Starting
  | Starting ret => Plain (Print (line (B "定时器开始了...")) (Check ret))
  | Check ret =>
      if (ret =? -1)%Z then Plain (Write 2 (line (B "setitimer: Invalid argument")) (λ _, Return))
      else if waits then Getchar Return else Plain (Compute (Check ret))
  | Return => Plain (Exit 0)
  | Caught num ret => Plain (Print (line (B "捕捉到了信号的编号是：" ++ dec num)) (Xs num ret))
  | Xs num ret => Plain (Print (line (B "xxxxxxx")) (HReturn num ret))
  | HReturn num ret => Plain (Sigreturn num ret)
  end.
Definition handler (sig : Z) (l : local) : local := Caught sig l.
End Catch.

(** ** lesson28/daemon.c *)
Module Daemon.

(** What belongs to a process and is inherited. *)
Record attr := Attr { pgid : Z; sid : Z; mask : Z; cwd : bytes }.

Inductive local :=
| Start (a : attr) | Branch (a : attr) (r : Z) | PExit
| Setsid (a : attr) | Umask (a : attr) | Changing (a : attr) | Opening (a : attr)
| Dup0 (a : attr) (fd : Z) | Dup1 (a : attr) (fd : Z) | Dup2nd (a : attr) (fd : Z)
| Catching (a : attr) | SetTimer (a : attr) | Loop (a : attr)
| HTime (ret : local) | HOpen (tm : Z) (ret : local) | HWrite (fd : option bytes) (tm : Z) (ret : local)
| HClose (ret : local) | HReturn (ret : local).

(** The attributes of the interrupted statement. *)
Fixpoint attr_of (l : local) : option attr :=
  match l with
  | Start a | Branch a _ | Setsid a | Umask a | Changing a | Opening a | Dup0 a _ | Dup1 a _ | Dup2nd a _
  | Catching a | SetTimer a | Loop a => Some a
  | PExit => None
  | HTime l | HOpen _ l | HWrite _ _ l | HClose l | HReturn l => attr_of l
  end.

(** A new session, unless the process leads its group. *)
Definition setsid (pid : Z) (a : attr) : attr :=
  if (a.(pgid) =? pid)%Z then a else Attr pid pid a.(mask) a.(cwd).

Definition HOME : bytes := B "/home/nowcoder/".
(** The path of time.txt, and its permissions 0664 without the mask. *)
Definition time_txt (l : local) : bytes := from_option cwd [] (attr_of l) ++ B "time.txt".
Definition mode_of (l : local) : Z := Z.land 436 (Z.lnot (from_option mask 0%Z (attr_of l))).

Section code.
(** [asctime(localtime(&tm))] *)
Variable asctime : Z → bytes.

(** A failing [fork] is not told from the child. *)
Definition code (pid ppid : Z) (l : local) : taction local :=
  match l with
  | Start a => Plain (Fork (Branch a))
  | Branch a r => Plain (Compute (if (0 <? r)%Z then PExit else Setsid a))
  | PExit => Plain (Exit 0)
  | Setsid a => Plain (Compute (Umask (setsid pid a)))
  | Umask a => Plain (Compute (Changing (Attr a.(pgid) a.(sid) 18 a.(cwd))))
  | Changing a => Chdir HOME (λ r, Opening (if (r =? 0)%Z then Attr a.(pgid) a.(sid) a.(mask) HOME else a))
  | Opening a => Plain (OpenNull (Dup0 a))
  | Dup0 a fd => Plain (Dup2 fd 0 (Dup1 a fd))
  | Dup1 a fd => Plain (Dup2 fd 1 (Dup2nd a fd))
  | Dup2nd a fd => Plain (Dup2 fd 2 (Catching a))
  | Catching a => Plain (Sigaction SIGALRM (SetTimer a))
  | SetTimer a => Setitimer 2 2 (λ _, Loop a)
  | Loop a => Sleep 10 (Loop a)
  | HTime l => Time (λ tm, HOpen tm l)
  | HOpen tm l => Open (time_txt l) (mode_of l) (λ fd, HWrite fd tm l)
  | HWrite fd tm l => WriteFile fd (asctime tm) (HClose l)
  | HClose l => Plain (Compute (HReturn l))
  | HReturn l => Plain (Sigreturn SIGALRM l)
  end.
End code.
Definition handler (sig : Z) (l : local) : local := HTime l.
End Daemon.
