(* ===== verification/TimersProofs.v ===== *)
(** * The timers of lesson26 and the daemon of lesson28 *)
From stdpp Require Import sorting.
From S2P Require Import Prelude CString Sorting Processes Pipes Forks Timers.

(** ** Ends and ticks *)

Section lemmas.
Context {L : Type}.
Implicit Types (k : kernel L) (p : proc L).

(** A process that runs survives the end of another, up to its parent and a
    SIGCHLD. *)
Definition survives p p' : Prop :=
  p'.(p_state) = p.(p_state) ∧ p'.(p_fds) = p.(p_fds) ∧ p'.(p_blocked) = p.(p_blocked) ∧ p'.(p_caught) = p.(p_caught)
  ∧ ∀ s, s ≠ SIGCHLD → s ∈ p'.(p_pending) ↔ s ∈ p.(p_pending).

Lemma survives_post p : survives p (post SIGCHLD p).
Proof. unfold survives, post. destruct (p_state p) eqn:E; cbn; split_and!; set_solver. Qed.

Lemma survives_trans p p' p'' : survives p p' → survives p' p'' → survives p p''.
Proof. unfold survives. intros (H1 & H2 & H3 & H4 & H5) (G1 & G2 & G3 & G4 & G5). split_and!; try congruence. intros s Hs. by rewrite G5, H5. Qed.

Lemma terminate_lookup pid st k x p :
  x ≠ pid → k.(procs) !! x = Some p → (∀ s, p.(p_state) ≠ Zombie s) →
  ∃ p', (terminate pid st k).(procs) !! x = Some p' ∧ survives p p'.
Proof.
  intros Hne Hx Hr. unfold terminate. destruct (procs k !! pid) as [q|] eqn:Hq.
  2:{ exists p. split; [done|]. unfold survives. split_and!; set_solver. }
  cbn [set_procs procs]. set (m := if decide (p_ppid q = 1%Z) then _ else _).
  assert (m !! x = Some (orphan pid p)) as Hm.
  { assert (omap (inherit pid) k.(procs) !! x = Some (orphan pid p)) as Ho.
    { rewrite lookup_omap, Hx. cbn. unfold inherit, forgotten. destruct (p_state p) eqn:E; [done|]. by destruct (Hr st0). }
    subst m. case_decide; [by rewrite lookup_delete_ne|by rewrite lookup_insert_ne]. }
  assert (survives p (orphan pid p)) as Ho by (unfold survives, orphan; case_decide; cbn; split_and!; set_solver).
  destruct (decide (x = p_ppid q)) as [->|].
  - exists (post SIGCHLD (orphan pid p)). rewrite lookup_alter_eq, Hm. split; [done|]. eapply survives_trans; [done|apply survives_post].
  - exists (orphan pid p). by rewrite lookup_alter_ne.
Qed.

Lemma tick_lookup (w : timed L) x : (tick w).(base).(procs) !! x = ring w.(timers) x <$> w.(base).(procs) !! x.
Proof. cbn. rewrite map_lookup_imap. by destruct (procs (base w) !! x). Qed.
End lemmas.

(** ** The daemon *)
Section daemon.
Import Daemon.
Variables (asctime : Z → bytes) (P sh t0 : Z) (a0 : attr).
(** Whether the calls succeed and every expiry is handled within its second. *)
Variable b : bool.

(** [l] is in the handler, and its time has not been written. *)
Definition handling (l : local) : bool :=
  match l with HTime _ | HOpen _ _ | HWrite _ _ _ | HClose _ | HReturn _ => true | _ => false end.
Definition busy (l : local) : nat := match l with HTime _ | HOpen _ _ | HWrite _ _ _ => 1 | _ => 0 end.

(** A second passes only when no alarm waits or is handled, and calls succeed. *)
Definition prompt (c : tchoice) (w : timed local) : Prop :=
  match c with
  | TRun _ o => (0 ≤ o)%Z
  | TDeliver _ _ => True
  | Tick => map_Forall (λ _ p, match p.(p_state) with
                               | Running l => (SIGALRM ∉ p.(p_pending)) ∧ handling l = false
                               | Zombie _ => True
                               end) w.(base).(procs)
  end.
#[global] Instance prompt_dec c w : Decision (prompt c w).
Proof. destruct c; cbn; [apply _|apply _|]. apply map_Forall_dec. intros _ p. destruct (p_state p); apply _. Defined.
Definition ok (c : tchoice) (w : timed local) : Prop := b = true → prompt c w.

#[local] Abbreviation step := (tstep (code asctime) handler ok).

(** The parent, before its end and after. *)
Definition quiet (p : proc local) : Prop :=
  match p.(p_state) with
  | Running (Branch _ r) => (0 < r)%Z
  | Running PExit | Zombie _ => True
  | _ => False
  end ∧ p.(p_caught) = ∅ ∧ p.(p_pending) ⊆ {[SIGCHLD]}.
Definition all_quiet (d : Z) (w : timed local) : Prop := ∀ x q, x ≠ d → w.(base).(procs) !! x = Some q → quiet q.

(** What the daemon has arranged when it is at [l]; it may loop without a timer
    when [setitimer] fails. *)
Definition detached (d : Z) (a : attr) : Prop := a.(pgid) = d ∧ (a.(sid) = d ∨ a0.(pgid) = d).
Definition placed (d : Z) (a : attr) : Prop := detached d a ∧ a.(mask) = 18%Z ∧ (b = true → a.(cwd) = HOME).
Definition null (p : proc local) (fds : list Z) : Prop := b = true → Forall (λ fd, p.(p_fds) !! fd = Some DevNull) fds.
Definition early (d : Z) (p : proc local) (l : local) : Prop :=
  match l with
  | Start a => a = a0 ∧ p.(p_fds) = std_fds
  | Branch a r => a = a0 ∧ p.(p_fds) = std_fds ∧ (r ≤ 0)%Z
  | Setsid a => a = a0 ∧ p.(p_fds) = std_fds
  | Umask a => detached d a ∧ p.(p_fds) = std_fds
  | Changing a => detached d a ∧ a.(mask) = 18%Z ∧ p.(p_fds) = std_fds
  | Opening a => placed d a ∧ p.(p_fds) = std_fds
  | Dup0 a fd => placed d a ∧ null p [fd]
  | Dup1 a fd => placed d a ∧ null p [fd; 0]%Z
  | Dup2nd a fd => placed d a ∧ null p [fd; 0; 1]%Z
  | Catching a | SetTimer a => placed d a ∧ null p [0; 1; 2]%Z
  | Loop a => placed d a ∧ null p [0; 1; 2]%Z ∧ b = false
  | _ => False
  end ∧ p.(p_caught) = (match l with SetTimer _ | Loop _ => {[SIGALRM]} | _ => ∅ end) ∧ p.(p_blocked) = ∅ ∧ p.(p_pending) ⊆ {[SIGCHLD]}.

Definition evens (c0 : Z) (n : nat) : list Z := map (λ i, (c0 + 2 * Z.of_nat (S i))%Z) (seq 0 n).

(** The statements of the daemon once its timer runs, with the time read. *)
Inductive serves (a : attr) : local → option Z → bool → Prop :=
| sv_loop : serves a (Loop a) None false
| sv_time : serves a (HTime (Loop a)) None true
| sv_open tm : serves a (HOpen tm (Loop a)) (Some tm) true
| sv_write fd tm : fd = None ∨ fd = Some (time_txt (Loop a)) → (b = true → fd ≠ None) → serves a (HWrite fd tm (Loop a)) (Some tm) true
| sv_close : serves a (HClose (Loop a)) None true
| sv_return : serves a (HReturn (Loop a)) None true.

Definition pending1 (p : proc local) : nat := if decide (SIGALRM ∈ p.(p_pending)) then 1 else 0.

(** The times written, [e] expiries after the timer was set at [c0]. *)
Record account (w : timed local) (p : proc local) (l : local) (tm : option Z) (c0 v : Z) (e : nat) (ts : list Z) : Prop := {
  ac_clock : (w.(clock) = c0 + 2 * Z.of_nat e + (2 - v))%Z ∧ (1 ≤ v ≤ 2)%Z ∧ (t0 ≤ c0)%Z;
  ac_count : length ts + busy l + pending1 p ≤ e;
  ac_times : StronglySorted Z.le (ts ++ default [] ((λ x, [x]) <$> tm)) ∧ Forall (λ x, (x ≤ w.(clock))%Z) (ts ++ default [] ((λ x, [x]) <$> tm));
  ac_exact : b = true → length ts + busy l + pending1 p = e ∧ ts = evens c0 (length ts)
    ∧ (handling l = true ∨ 0 < pending1 p → v = 2%Z) ∧ (pending1 p = 0 ∨ handling l = false) ∧ (∀ x, tm = Some x → x = w.(clock))
}.

Definition file_ok (w : timed local) (l : local) (a : attr) (ts : list Z) : Prop :=
  (w.(files) = ∅ ∧ ts = [] ∧ (∀ x tm ret, l ≠ HWrite (Some x) tm ret)) ∨ w.(files) = {[time_txt (Loop a) := (420%Z, concat (map asctime ts))]}.

Inductive dinv (w : timed local) : Prop :=
| di_early d p l :
    w.(base).(procs) !! d = Some p → p.(p_state) = Running l → all_quiet d w → early d p l →
    w.(timers) = ∅ → w.(files) = ∅ → (t0 ≤ w.(clock))%Z → dinv w
| di_serving d p l a tm h c0 v e ts :
    w.(base).(procs) !! d = Some p → p.(p_state) = Running l → all_quiet d w →
    placed d a → null p [0; 1; 2]%Z → p.(p_caught) = {[SIGALRM]} → p.(p_pending) ⊆ {[SIGALRM; SIGCHLD]} →
    p.(p_blocked) = (if (h : bool) then {[SIGALRM]} else ∅) → serves a l tm h → w.(timers) = {[d := (v, 2%Z)]} →
    account w p l tm c0 v e ts → file_ok w l a ts → dinv w.

(** *** The others *)

Lemma survives_pending1 p p' : survives p p' → pending1 p' = pending1 p.
Proof. intros (_ & _ & _ & _ & H). unfold pending1. specialize (H SIGALRM ltac:(done)). repeat case_decide; naive_solver. Qed.

Lemma survives_sub (p p' : proc local) (X : gset Z) : survives p p' → p.(p_pending) ⊆ X → SIGCHLD ∈ X → p'.(p_pending) ⊆ X.
Proof.
  intros (_ & _ & _ & _ & H) Hp HX s Hs. destruct (decide (s = SIGCHLD)) as [->|Hne]; [done|]. apply Hp. by apply H.
Qed.

Lemma early_survives d p p' l : survives p p' → early d p l → early d p' l.
Proof.
  intros Hs (H1 & H2 & H3 & H4). pose proof (survives_sub _ _ _ Hs H4 ltac:(set_solver)) as H4'. destruct Hs as (_ & Hf & Hb & Hc & _).
  split; [|rewrite Hc, Hb; done]. unfold null in *. destruct l; try done; rewrite ?Hf; done.
Qed.

(** A step that the daemon hardly notices. *)
Lemma dinv_frame w w' :
  dinv w → w'.(clock) = w.(clock) → w'.(timers) = w.(timers) → w'.(files) = w.(files) →
  (∀ d p l, w.(base).(procs) !! d = Some p → p.(p_state) = Running l → all_quiet d w → ¬ quiet p →
     all_quiet d w' ∧ ∃ p', w'.(base).(procs) !! d = Some p' ∧ survives p p') → dinv w'.
Proof.
  intros Hw Hc Ht Hf Hfr.
  destruct Hw as [d p l Hp Hl Hq He Hti Hfi Ht0|d p l a tm h c0 v e ts Hp Hl Hq Hpl Hnu Hca Hpe Hbl Hsv Hti Hac Hfi].
  - destruct (Hfr d p l Hp Hl Hq) as (Hq' & p' & Hp' & Hs).
    { intros (H & _). rewrite Hl in H. destruct He as [He _]. destruct l; try done. destruct He as (_ & _ & He). lia. }
    eapply (di_early _ d p' l); try done; try congruence; [|by eapply early_survives]. destruct Hs as (-> & _). done.
  - destruct (Hfr d p l Hp Hl Hq) as (Hq' & p' & Hp' & Hs). { intros (H & _). rewrite Hl in H. by destruct Hsv. }
    pose proof (survives_pending1 _ _ Hs) as H1. pose proof (survives_sub _ _ _ Hs Hpe ltac:(set_solver)) as Hpe'.
    destruct Hs as (Hst & Hfd & Hb & Hcaught & _).
    eapply (di_serving _ d p' l a tm h c0 v e ts); try done; try congruence.
    + unfold null in *. by rewrite Hfd.
    + destruct Hac as [A1 A2 A3 A4]. split; rewrite ?Hc, ?H1; done.
    + unfold file_ok in *. by rewrite Hf.
Qed.

Lemma quiet_survives p p' : survives p p' → quiet p → quiet p'.
Proof.
  intros Hs (H1 & H2 & H3). pose proof (survives_sub _ _ _ Hs H3 ltac:(set_solver)) as H3'. destruct Hs as (Hst & _ & _ & Hca & _).
  unfold quiet. by rewrite Hst, Hca.
Qed.

Lemma quiet_terminate x k st y q' :
  (terminate x st k).(procs) !! y = Some q' → (∀ q, k.(procs) !! y = Some q → quiet q) → quiet q'.
Proof.
  intros Hy Hq. unfold terminate in Hy. destruct (procs k !! x) as [p|] eqn:Hp; [|by apply Hq].
  cbn [set_procs procs] in Hy. set (m := if decide (p_ppid p = 1%Z) then _ else _) in Hy.
  assert (∀ q1, m !! y = Some q1 → quiet q1) as Hm.
  { intros q1 H1. assert (q1 = Proc (Zombie st) p.(p_ppid) ∅ ∅ ∅ ∅ ∨ omap (inherit x) k.(procs) !! y = Some q1) as [->|Ho].
    { subst m. case_decide; [apply lookup_delete_Some in H1 as [_ H1]; by right|].
      apply lookup_insert_Some in H1 as [[_ <-]|[_ H1]]; auto. }
    - by unfold quiet.
    - rewrite lookup_omap in Ho. destruct (procs k !! y) as [q0|]; [|done]. cbn in Ho. unfold inherit in Ho.
      destruct (forgotten x q0); [done|]. injection Ho as <-. specialize (Hq q0 eq_refl). unfold orphan. by case_decide. }
  destruct (decide (y = p_ppid p)) as [->|]; [|rewrite lookup_alter_ne in Hy by done; by apply Hm].
  rewrite lookup_alter_eq in Hy. apply fmap_Some in Hy as (q1 & H1 & ->). eapply quiet_survives; [apply survives_post|by apply Hm].
Qed.

(** The parent leaves. *)
Lemma quiet_run w x q o w' :
  dinv w → w.(base).(procs) !! x = Some q → quiet q → trun (code asctime) x o w = Some w' → dinv w'.
Proof.
  intros Hw Hx Hq E. unfold trun in E. rewrite Hx in E. destruct (p_state q) as [l|] eqn:Hl; [|done].
  pose proof Hq as (Hq1 & Hq2 & Hq3). rewrite Hl in Hq1.
  destruct l as [|a r| | | | | | | | | | | | | | | |]; try done; cbn [code tperform perform] in E; injection E as <-.
  - eapply dinv_frame; try done. intros d p l Hp Hpl Haq Hnq. assert (d ≠ x) as Hdx by (intros ->; congruence). split.
    + intros y q' Hy H. cbn in H. apply lookup_insert_Some in H as [[<- <-]|[_ H]]; [|by eapply Haq].
      unfold quiet. cbn. destruct (Z.ltb_spec 0 r); [done|lia].
    + exists p. cbn. rewrite lookup_insert_ne by done. split; [done|]. by unfold survives.
  - eapply dinv_frame; try done. intros d p l Hp Hpl Haq Hnq. assert (d ≠ x) as Hdx by (intros ->; congruence). split.
    + intros y q' Hy H. eapply quiet_terminate; [exact H|]. intros. by eapply Haq.
    + eapply terminate_lookup; [done|done|]. intros s. congruence.
Qed.

(** A signal reaches a process that does not catch it: SIGCHLD. *)
Lemma chld_delivered w x q w' :
  dinv w → w.(base).(procs) !! x = Some q → (SIGCHLD ∉ q.(p_caught)) → tdeliver handler x SIGCHLD w = Some w' → dinv w'.
Proof.
  intros Hw Hx Hca E. unfold tdeliver, deliver in E. rewrite Hx in E. destruct (p_state q) as [l|] eqn:Hl; [|done].
  case_decide as Hd; [|done]. cbn [set_pending p_caught] in E. rewrite decide_False in E by done. cbn [Z.eqb] in E.
  injection E as <-. set (q' := set_pending (p_pending q ∖ {[SIGCHLD]}) q).
  assert (survives q q') as Hs. { unfold survives. cbn. split_and!; try done. set_solver. }
  eapply dinv_frame; try done. intros d p l' Hp Hpl Haq Hnq. split.
  - intros y r Hy H. cbn in H. apply lookup_insert_Some in H as [[<- <-]|[_ H]]; [|by eapply Haq].
    eapply quiet_survives; [exact Hs|]. by eapply Haq.
  - destruct (decide (d = x)) as [->|Hne].
    + exists q'. cbn. rewrite lookup_insert_eq. split; [done|]. by assert (p = q) as -> by congruence.
    + exists p. cbn. rewrite lookup_insert_ne by done. split; [done|]. by unfold survives.
Qed.

(** *** The daemon gets ready *)

Lemma all_quiet_put d p w : all_quiet d w → all_quiet d (set_base (put d p w.(base)) w).
Proof. intros H x q Hx Hq. cbn in Hq. rewrite lookup_insert_ne in Hq by done. by eapply H. Qed.

Lemma early_put d p' l' w :
  all_quiet d w → p'.(p_state) = Running l' → early d p' l' → w.(timers) = ∅ → w.(files) = ∅ → (t0 ≤ w.(clock))%Z →
  dinv (set_base (put d p' w.(base)) w).
Proof.
  intros Hq Hs He Ht Hf Hc. eapply (di_early _ d p' l'); try done; [cbn; apply lookup_insert_eq|by apply all_quiet_put].
Qed.

Lemma setsid_detached d : detached d (setsid d a0).
Proof. unfold detached, setsid. destruct (Z.eqb_spec (pgid a0) d); cbn; auto. Qed.

Lemma early_fork d p a o w :
  w.(base).(procs) !! d = Some p → p.(p_state) = Running (Start a) → all_quiet d w → early d p (Start a) →
  w.(timers) = ∅ → w.(files) = ∅ → (t0 ≤ w.(clock))%Z → (1 < o)%Z → o ∉ dom w.(base).(procs) →
  dinv (set_base (Kernel (<[o := Proc (Running (Branch a 0)) d p.(p_fds) p.(p_blocked) ∅ p.(p_caught)]> (<[d := go (Branch a o) p]> w.(base).(procs)))
    w.(base).(pipes) w.(base).(out) (w.(base).(forked) ++ [(d, o)]) w.(base).(reaped) w.(base).(mem)) w).
Proof.
  intros Hp Hl Hq He Ht Hf Hc Ho Hd. destruct He as ((-> & Hfd) & Hca & Hb & Hpe).
  assert (o ≠ d) as Hne. { intros ->. apply Hd, elem_of_dom. by exists p. }
  eapply (di_early _ o (Proc (Running (Branch a0 0)) d p.(p_fds) p.(p_blocked) ∅ p.(p_caught)) (Branch a0 0)); first [done|idtac].
  - cbn. apply lookup_insert_eq.
  - intros x q Hx H. cbn in H. rewrite lookup_insert_ne in H by done. apply lookup_insert_Some in H as [[<- <-]|[Hxd H]].
    + unfold quiet. cbn. split; [lia|]. by split.
    + eapply Hq; [|exact H]; congruence.
Qed.

(** The timer is set. *)
Lemma early_timer d p a w :
  all_quiet d w → early d p (SetTimer a) → w.(timers) = ∅ → w.(files) = ∅ → (t0 ≤ w.(clock))%Z →
  dinv (set_timer d 2 2 (set_base (put d (go (Loop a) p) w.(base)) w)).
Proof.
  intros Hq ((Hpl & Hnu) & Hca & Hb & Hpe) Ht Hf Hc.
  assert (SIGALRM ∉ p.(p_pending)) as Hno by (intros H; apply Hpe in H; by apply elem_of_singleton in H).
  eapply (di_serving _ d (go (Loop a) p) (Loop a) a None false w.(clock) 2%Z 0 []); try done; cbn.
  - apply lookup_insert_eq.
  - intros x q Hx H. cbn in H. rewrite lookup_insert_ne in H by done. by eapply Hq.
  - set_solver.
  - constructor.
  - rewrite Ht. apply insert_empty.
  - split; unfold pending1; cbn; rewrite ?decide_False by done; cbn; try lia; [split; constructor|].
    intros _. split_and!; [done|done|intros; lia|by left|done].
  - left. by split_and!.
Qed.

(** Descriptor [x] becomes a copy of [fd]. *)
Lemma null_dup2 p fd x fds l' :
  null p (fd :: fds) →
  null (go l' (set_fds (match p.(p_fds) !! fd with Some d => <[x := d]> p.(p_fds) | None => p.(p_fds) end) p)) (fd :: fds ++ [x]).
Proof.
  intros Hnu Hb. specialize (Hnu Hb). pose proof (Forall_inv Hnu) as H0. cbn in H0. rewrite H0.
  apply (Forall_app _ (fd :: fds) [x]). split.
  - eapply Forall_impl; [exact Hnu|]. intros y Hy. cbn. rewrite lookup_insert. by case_decide.
  - constructor; [|constructor]. cbn. apply lookup_insert_eq.
Qed.

Lemma early_run w d p l o w' :
  w.(base).(procs) !! d = Some p → p.(p_state) = Running l → all_quiet d w → early d p l → w.(timers) = ∅ → w.(files) = ∅ →
  (t0 ≤ w.(clock))%Z → (b = true → (0 ≤ o)%Z) → trun (code asctime) d o w = Some w' → dinv w'.
Proof.
  intros Hp Hl Hq He Ht Hf Hc Ho E. unfold trun in E. rewrite Hp, Hl in E.
  assert (∀ p' l', p'.(p_state) = Running l' → early d p' l' → dinv (set_base (put d p' w.(base)) w)) as Hput.
  { intros p' l' H1 H2. by eapply early_put. }
  pose proof He as (H1 & Hca & Hb & Hpe).
  destruct l as [a|a r| |a|a|a|a|a fd|a fd|a fd|a|a|a| | | | |]; try done; cbn [code tperform perform] in E.
  - destruct (decide (0 < o)%Z).
    + case_decide as Hd; [|done]. injection E as <-. destruct Hd as (H & Hd & _). by eapply early_fork.
    + injection E as <-. eapply Hput; [done|]. destruct H1 as [-> Hfd]. by split_and!.
  - injection E as <-. destruct H1 as (-> & Hfd & Hr). destruct (Z.ltb_spec 0 r); [lia|]. eapply Hput; [done|]. by split_and!.
  - injection E as <-. destruct H1 as (-> & Hfd). eapply Hput; [done|]. split; [|by split_and!]. split; [apply setsid_detached|done].
  - injection E as <-. destruct H1 as (Hde & Hfd). eapply Hput; [done|]. by split_and!.
  - injection E as <-. destruct H1 as (Hde & Hm & Hfd). eapply Hput; [done|]. split; [|by split_and!]. split; [|done].
    destruct (decide (o < 0)%Z); cbn.
    + split_and!; try done. intros Hbt. specialize (Ho Hbt). lia.
    + split_and!; done.
  - destruct H1 as (Hpl & Hfd). destruct (decide (o < 0)%Z); injection E as <-.
    + eapply Hput; [done|]. split; [|by split_and!]. split; [done|]. intros Hbt. specialize (Ho Hbt). lia.
    + eapply Hput; [done|]. split; [|by split_and!]. split; [done|]. intros _. constructor; [|constructor]. cbn. apply lookup_insert_eq.
  - destruct H1 as (Hpl & Hnu). injection E as <-. eapply Hput; [done|]. split; [|by split_and!]. split; [done|]. by apply (null_dup2 p fd 0 []).
  - destruct H1 as (Hpl & Hnu). injection E as <-. eapply Hput; [done|]. split; [|by split_and!]. split; [done|]. by apply (null_dup2 p fd 1 [0%Z]).
  - destruct H1 as (Hpl & Hnu). injection E as <-. eapply Hput; [done|]. split; [|by split_and!]. split; [done|].
    apply (null_dup2 p fd 2 [0; 1]%Z (Catching a)) in Hnu. intros Hbt. apply Hnu in Hbt. by apply Forall_cons in Hbt as [_ Hbt].
  - injection E as <-. eapply Hput; [done|]. split; [done|]. cbn. rewrite Hca. by split_and!.
  - destruct (decide (o < 0)%Z); injection E as <-.
    + eapply Hput; [done|]. split; [|by split_and!]. split; [apply H1|]. split; [apply H1|]. destruct b; [specialize (Ho eq_refl); lia|done].
    + by eapply early_timer.
  - destruct (wakes w !! d) as [t|]; [case_decide; [|done]|]; injection E as <-.
    + eapply (di_early _ d (go (Loop a) p) (Loop a)); try done; [cbn; apply lookup_insert_eq|].
      intros x q Hx Hxq. cbn in Hxq. rewrite lookup_insert_ne in Hxq by done. by eapply Hq.
    + by eapply (di_early _ d p (Loop a)).
Qed.

(** *** The daemon at work *)

Lemma evens_S c0 n : evens c0 (S n) = evens c0 n ++ [(c0 + 2 * Z.of_nat (S n))%Z].
Proof. unfold evens. by rewrite seq_S, map_app. Qed.

Lemma file_write w a d ts l' tm :
  file_ok w (HWrite (Some (time_txt (Loop a))) tm (Loop a)) a ts → (∀ x tm ret, l' ≠ HWrite (Some x) tm ret) →
  d = asctime tm →
  file_ok (set_files (alter (λ f, (f.1, f.2 ++ d)) (time_txt (Loop a)) w.(files)) w) l' a (ts ++ [tm]).
Proof.
  intros [(_ & _ & H)|H] Hl' ->; [by destruct (H (time_txt (Loop a)) tm (Loop a))|]. right. cbn. rewrite H. rewrite alter_singleton_eq.
  cbn. by rewrite map_app, concat_app; cbn; rewrite app_nil_r.
Qed.

(** A statement of the daemon; its process and the timer stay as they are. *)
Lemma serving_move w d p l a tm h c0 v e ts l' tm' ts' w' :
  w.(base).(procs) !! d = Some p → p.(p_state) = Running l → all_quiet d w →
  placed d a → null p [0; 1; 2]%Z → p.(p_caught) = {[SIGALRM]} → p.(p_pending) ⊆ {[SIGALRM; SIGCHLD]} →
  p.(p_blocked) = (if (h : bool) then {[SIGALRM]} else ∅) → serves a l tm h → w.(timers) = {[d := (v, 2%Z)]} →
  account w p l tm c0 v e ts →
  serves a l' tm' h → w'.(base).(procs) = <[d := go l' p]> w.(base).(procs) → w'.(timers) = w.(timers) → w'.(clock) = w.(clock) →
  account w (go l' p) l' tm' c0 v e ts' → file_ok w' l' a ts' → dinv w'.
Proof.
  intros Hp Hl Hq Hpl Hnu Hca Hpe Hbl Hsv Hti Hac Hsv' Hpr Hti' Hc Hac' Hfi.
  eapply (di_serving _ d (go l' p) l' a tm' h c0 v e ts'); try done; try congruence.
  - rewrite Hpr. apply lookup_insert_eq.
  - intros x q Hx H. rewrite Hpr, lookup_insert_ne in H by done. by eapply Hq.
  - destruct Hac' as [A1 A2 A3 A4]. split; rewrite ?Hc; done.
Qed.

Lemma account_same w p l tm c0 v e ts l' tm' :
  account w p l tm c0 v e ts → busy l' = busy l → handling l' = handling l → tm' = tm → account w (go l' p) l' tm' c0 v e ts.
Proof. intros [A1 A2 A3 A4] H1 H2 ->. split; rewrite ?H1, ?H2; done. Qed.

(** The time is read. *)
Lemma account_read w p l c0 v e ts l' :
  account w p l None c0 v e ts → busy l' = busy l → handling l' = handling l →
  account w (go l' p) l' (Some w.(clock)) c0 v e ts.
Proof.
  intros [A1 A2 (A3 & A3') A4] H1 H2. cbn in A3, A3'. rewrite app_nil_r in A3, A3'. split; rewrite ?H1, ?H2; try done.
  - cbn. split.
    + apply StronglySorted_app_2; [|done|repeat constructor]. intros x y Hx ->%list_elem_of_singleton. by eapply Forall_forall in A3'.
    + apply Forall_app. split; [done|]. by apply Forall_singleton.
  - intros Hb. destruct (A4 Hb) as (? & ? & ? & ? & _). split_and!; try done. by intros x [= ->].
Qed.

(** The time is written. *)
Lemma account_write w p l c0 v e ts l' tm :
  account w p l (Some tm) c0 v e ts → busy l = 1 → busy l' = 0 → handling l = true → handling l' = true →
  account w (go l' p) l' None c0 v e (ts ++ [tm]).
Proof.
  intros [A1 A2 (A3 & A3') A4] H1 H2 H3 H4. cbn in A3, A3'. assert (pending1 (go l' p) = pending1 p) as Hp by done.
  split; rewrite ?H2, ?Hp, ?length_app; cbn [length]; try done; [rewrite H1 in A2; lia|by cbn; rewrite app_nil_r|].
  intros Hb. destruct (A4 Hb) as (B1 & B2 & B3 & B4 & B5). rewrite H1 in B1. split_and!; [lia| |intros _; apply B3; by left|destruct B4; [by left|congruence]|done].
  replace (length ts + 1) with (S (length ts)) by lia. rewrite evens_S, <-B2. do 2 f_equal.
  rewrite (B5 tm eq_refl). destruct A1 as (-> & _). rewrite (B3 (or_introl H3)). destruct B4 as [B4|]; [|congruence]. lia.
Qed.

Lemma account_skip w p l c0 v e ts l' tm :
  account w p l (Some tm) c0 v e ts → b = false → busy l' = 0 → account w (go l' p) l' None c0 v e ts.
Proof.
  intros [A1 A2 (A3 & A3') A4] Hb H2. cbn in A3, A3'. assert (pending1 (go l' p) = pending1 p) as Hp by done.
  split; rewrite ?H2, ?Hp; try done; [lia| |by intros Hb'; congruence]. cbn. rewrite app_nil_r. split; [by eapply StronglySorted_app_1_l|by apply Forall_app in A3' as [? _]].
Qed.

(** The file is opened, and created the first time. *)
Definition opened (fs : gmap bytes (Z * bytes)) (path : bytes) (mode : Z) : gmap bytes (Z * bytes) :=
  match fs !! path with Some _ => fs | None => <[path := (mode, [])]> fs end.

Lemma file_open w w' d a ts l l' :
  file_ok w l a ts → placed d a → w'.(files) = opened w.(files) (time_txt (Loop a)) (mode_of (Loop a)) → file_ok w' l' a ts.
Proof.
  intros Hf (_ & Hm & _) Hw. right. rewrite Hw. unfold opened. destruct Hf as [(-> & -> & _)| ->].
  - rewrite lookup_empty, insert_empty. unfold mode_of. cbn. by rewrite Hm.
  - by rewrite lookup_singleton_eq.
Qed.

Lemma file_keeps w w' l l' a ts :
  file_ok w l a ts → w'.(files) = w.(files) → (∀ x tm ret, l' ≠ HWrite (Some x) tm ret) → file_ok w' l' a ts.
Proof. intros [(H1 & H2 & _)|H] Hw Hl; [left|right]; rewrite Hw; [by split_and!|done]. Qed.

(** The obligations of a move. *)
Ltac serve Hac Hfi :=
  first [done
        |by constructor
        |eapply account_same; [exact Hac|done..]
        |eapply account_read; [exact Hac|done..]
        |eapply account_write; [exact Hac|done..]
        |eapply file_keeps; [exact Hfi|done..]
        |idtac].

Lemma serving_run w d p l a tm h c0 v e ts o w' :
  w.(base).(procs) !! d = Some p → p.(p_state) = Running l → all_quiet d w →
  placed d a → null p [0; 1; 2]%Z → p.(p_caught) = {[SIGALRM]} → p.(p_pending) ⊆ {[SIGALRM; SIGCHLD]} →
  p.(p_blocked) = (if (h : bool) then {[SIGALRM]} else ∅) → serves a l tm h → w.(timers) = {[d := (v, 2%Z)]} →
  account w p l tm c0 v e ts → file_ok w l a ts → (b = true → (0 ≤ o)%Z) → trun (code asctime) d o w = Some w' → dinv w'.
Proof.
  intros Hp Hl Hq Hpl Hnu Hca Hpe Hbl Hsv Hti Hac Hfi Ho E. unfold trun in E. rewrite Hp, Hl in E.
  pose proof (λ l' tm' ts' w', serving_move w d p l a tm h c0 v e ts l' tm' ts' w' Hp Hl Hq Hpl Hnu Hca Hpe Hbl Hsv Hti Hac) as Hmv.
  destruct Hsv as [| |x|fd x Hfd Hfd'| |]; cbn [code tperform perform] in E.
  - destruct (wakes w !! d) as [t|]; [case_decide; [|done]|]; injection E as <-.
    + eapply (Hmv (Loop a) None ts); serve Hac Hfi.
    + by eapply (di_serving _ d p (Loop a) a None false c0 v e ts); try done; [constructor|destruct Hac; split].
  - injection E as <-. eapply (Hmv (HOpen w.(clock) (Loop a)) (Some w.(clock)) ts); serve Hac Hfi.
  - destruct (decide (o < 0)%Z); injection E as <-.
    + eapply (Hmv (HWrite None x (Loop a)) (Some x) ts); serve Hac Hfi. apply sv_write; [by left|].
      intros Hb. specialize (Ho Hb). lia.
    + eapply (Hmv (HWrite (Some (time_txt (Loop a))) x (Loop a)) (Some x) ts); serve Hac Hfi; [apply sv_write; [by right|done]|].
      eapply file_open; [exact Hfi|exact Hpl|done].
  - destruct Hfd as [->| ->]; injection E as <-.
    + eapply (Hmv (HClose (Loop a)) None ts); serve Hac Hfi.
      eapply account_skip; [exact Hac| |done]. destruct b; [by destruct (Hfd' eq_refl)|done].
    + eapply (Hmv (HClose (Loop a)) None (ts ++ [x])); serve Hac Hfi.
      by eapply (file_write w).
  - injection E as <-. eapply (Hmv (HReturn (Loop a)) None ts); serve Hac Hfi.
  - injection E as <-. destruct Hac as [A1 A2 A3 A4]. set (p' := go (Loop a) (set_blocked (p_blocked p ∖ {[SIGALRM]}) p)).
    eapply (di_serving _ d p' (Loop a) a None false c0 v e ts); first [done|by constructor|idtac].
    + cbn. apply lookup_insert_eq.
    + intros y q Hy H. cbn in H. rewrite lookup_insert_ne in H by done. by eapply Hq.
    + cbn. rewrite Hbl. set_solver.
    + split; try done. intros Hb. destruct (A4 Hb) as (? & ? & B3 & ? & ?). split_and!; try done; [|by right]. intros _. apply B3. by left.
    + eapply file_keeps; [exact Hfi|done..].
Qed.

(** The alarm reaches the daemon. *)
Lemma alarm_delivered w d p l a tm h c0 v e ts w' :
  w.(base).(procs) !! d = Some p → p.(p_state) = Running l → all_quiet d w →
  placed d a → null p [0; 1; 2]%Z → p.(p_caught) = {[SIGALRM]} → p.(p_pending) ⊆ {[SIGALRM; SIGCHLD]} →
  p.(p_blocked) = (if (h : bool) then {[SIGALRM]} else ∅) → serves a l tm h → w.(timers) = {[d := (v, 2%Z)]} →
  account w p l tm c0 v e ts → file_ok w l a ts → tdeliver handler d SIGALRM w = Some w' → dinv w'.
Proof.
  intros Hp Hl Hq Hpl Hnu Hca Hpe Hbl Hsv Hti Hac Hfi E. unfold tdeliver, deliver in E. rewrite Hp, Hl in E.
  case_decide as Hd; [|done]. destruct Hd as [Hin Hnb]. cbn [set_pending p_caught p_blocked] in E.
  rewrite decide_True in E by (rewrite Hca; set_solver). injection E as <-.
  destruct h; [rewrite Hbl in Hnb; set_solver|]. inversion Hsv; subst l tm. destruct Hac as [A1 A2 A3 A4].
  assert (pending1 p = 1) as Hp1 by (unfold pending1; by rewrite decide_True).
  set (p1 := set_blocked ({[SIGALRM]} ∪ p_blocked p) (set_pending (p_pending p ∖ {[SIGALRM]}) p)).
  assert (pending1 (go (HTime (Loop a)) p1) = 0) as Hp0 by (unfold pending1; cbn; rewrite decide_False; [done|set_solver]).
  eapply (di_serving _ d (go (HTime (Loop a)) p1) (HTime (Loop a)) a None true c0 v e ts); first [done|by constructor|idtac].
  - cbn. apply lookup_insert_eq.
  - intros y q Hy H. cbn in H. rewrite lookup_insert_ne in H by done. by eapply Hq.
  - cbn. set_solver.
  - cbn. rewrite Hbl. set_solver.
  - split; rewrite ?Hp0; [done|cbn in A2 |- *; lia|done|]. intros Hb. destruct (A4 Hb) as (B1 & B2 & B3 & B4 & B5).
    split_and!; [cbn in B1 |- *; lia|done|intros _; apply B3; right; lia|by left|done].
  - eapply file_keeps; [exact Hfi|done..].
Qed.

(** A second passes. *)
Lemma ring_quiet t x q : quiet q → t !! x = None → quiet (ring t x q).
Proof. intros Hq Ht. unfold ring. by rewrite Ht. Qed.

Lemma all_quiet_tick d w : all_quiet d w → (∀ x, x ≠ d → w.(timers) !! x = None) → all_quiet d (tick w).
Proof.
  intros Hq Ht x q Hx H. rewrite tick_lookup in H. apply fmap_Some in H as (q0 & H0 & ->).
  apply ring_quiet; [by eapply Hq|by apply Ht].
Qed.

Lemma serving_tick w d p l a tm h c0 v e ts :
  w.(base).(procs) !! d = Some p → p.(p_state) = Running l → all_quiet d w →
  placed d a → null p [0; 1; 2]%Z → p.(p_caught) = {[SIGALRM]} → p.(p_pending) ⊆ {[SIGALRM; SIGCHLD]} →
  p.(p_blocked) = (if (h : bool) then {[SIGALRM]} else ∅) → serves a l tm h → w.(timers) = {[d := (v, 2%Z)]} →
  account w p l tm c0 v e ts → file_ok w l a ts → ok Tick w → dinv (tick w).
Proof.
  intros Hp Hl Hq Hpl Hnu Hca Hpe Hbl Hsv Hti Hac Hfi Hok.
  assert (all_quiet d (tick w)) as Hq'.
  { apply all_quiet_tick; [done|]. intros x Hx. by rewrite Hti, lookup_singleton_ne. }
  assert ((tick w).(base).(procs) !! d = Some (ring w.(timers) d p)) as Hp' by (by rewrite tick_lookup, Hp).
  assert (b = true → (SIGALRM ∉ p.(p_pending)) ∧ handling l = false) as Hidle by (intros Hb; pose proof (Hok Hb d p Hp) as Hi; cbn in Hi; by rewrite Hl in Hi).
  assert (∀ x y ts0, Forall (λ t, (t ≤ x)%Z) ts0 → (x ≤ y)%Z → Forall (λ t, (t ≤ y)%Z) ts0) as Hmono.
  { intros x y ts0 H Hxy. eapply Forall_impl; [exact H|]. intros t Ht. cbn in *. lia. }
  assert (b = true → pending1 p = 0) as Hp0 by (intros Hb; unfold pending1; rewrite decide_False; [done|by apply Hidle]).
  destruct Hac as [(A1 & A1' & A1'') A2 (A3 & A3') A4]. unfold ring in Hp'. rewrite Hti, lookup_singleton_eq in Hp'.
  unfold expired in Hp'. cbn [fst] in Hp'. destruct (Z.leb_spec v 1) as [Hv|Hv].
  - assert (v = 1%Z) as -> by lia. unfold post in Hp'. rewrite Hl in Hp'.
    set (p' := set_pending ({[SIGALRM]} ∪ p_pending p) p) in Hp'.
    assert (pending1 p' = 1) as Hp1 by (unfold pending1; rewrite decide_True; [done|cbn; set_solver]).
    assert (length ts + busy l ≤ e) as Hle by lia.
    eapply (di_serving _ d p' l a tm h c0 2%Z (S e) ts); first [done|idtac].
    + cbn. set_solver.
    + cbn. rewrite Hti, omap_singleton_Some with (y := (2, 2)%Z); done.
    + split; rewrite ?Hp1; [cbn; lia|lia|split; [done|eapply Hmono; [exact A3'|cbn; lia]]|].
      intros Hb. destruct (A4 Hb) as (B1 & B2 & B3 & B4 & B5). specialize (Hp0 Hb). destruct (Hidle Hb) as [_ Hh]. split_and!; try done; [lia|by right|].
      intros x ->. exfalso. by inversion Hsv; subst.
  - assert (v = 2%Z) as -> by lia.
    eapply (di_serving _ d p l a tm h c0 1%Z e ts); first [done|idtac].
    + cbn. rewrite Hti, omap_singleton_Some with (y := (1, 2)%Z); done.
    + split; [cbn; lia|done|split; [done|eapply Hmono; [exact A3'|cbn; lia]]|].
      intros Hb. destruct (A4 Hb) as (B1 & B2 & B3 & B4 & B5). specialize (Hp0 Hb). destruct (Hidle Hb) as [_ Hh]. split_and!; try done.
      * intros [?|?]; [congruence|lia].
      * intros x ->. exfalso. by inversion Hsv; subst.
Qed.

Lemma dinv_step w w' : dinv w → step w w' → dinv w'.
Proof.
  intros Hw ([pid o|pid sig|] & Hok & E); cbn [tchoose] in E.
  - destruct (procs (base w) !! pid) as [q|] eqn:Hq; [|unfold trun in E; by rewrite Hq in E].
    destruct Hw as [d p l Hp Hl Haq He Hti Hfi Ht0|d p l a tm h c0 v e ts Hp Hl Haq Hpl Hnu Hca Hpe Hbl Hsv Hti Hac Hfi];
      (destruct (decide (pid = d)) as [->|Hne]; [|eapply quiet_run; [|exact Hq|by eapply Haq|exact E]]).
    + apply (early_run w d p l o); [done..|exact Hok|exact E].
    + by apply (di_early w d p l).
    + apply (serving_run w d p l a tm h c0 v e ts o); [done..|exact Hok|exact E].
    + by apply (di_serving w d p l a tm h c0 v e ts).
  - destruct (procs (base w) !! pid) as [q|] eqn:Hq; [|unfold tdeliver, deliver in E; by rewrite Hq in E].
    destruct (p_state q) as [lq|] eqn:Hlq; [|unfold tdeliver, deliver in E; by rewrite Hq, Hlq in E].
    assert (sig ∈ q.(p_pending)) as Hin.
    { unfold tdeliver, deliver in E. rewrite Hq, Hlq in E. case_decide as Hd; [apply Hd|done]. }
    assert (sig = SIGCHLD → (SIGCHLD ∉ q.(p_caught)) → dinv w') as Hchld.
    { intros -> Hnc. by eapply (chld_delivered w pid q). }
    destruct Hw as [d p l Hp Hl Haq He Hti Hfi Ht0|d p l a tm h c0 v e ts Hp Hl Haq Hpl Hnu Hca Hpe Hbl Hsv Hti Hac Hfi];
      (destruct (decide (pid = d)) as [->|Hne]; [|destruct (Haq pid q Hne Hq) as (_ & Hc & Hpend); apply Hchld; [by apply Hpend, elem_of_singleton in Hin|rewrite Hc; set_solver]]).
    + assert (q = p) as -> by congruence. destruct He as (_ & Hc & _ & Hpend). apply Hchld; [by apply Hpend, elem_of_singleton in Hin|].
      rewrite Hc. destruct l; set_solver.
    + assert (q = p) as -> by congruence. apply Hpe in Hin. apply elem_of_union in Hin as [->%elem_of_singleton|Hs%elem_of_singleton].
      * by apply (alarm_delivered w d p l a tm h c0 v e ts).
      * apply Hchld; [done|]. rewrite Hca. by intros ?%elem_of_singleton.
  - injection E as <-.
    destruct Hw as [d p l Hp Hl Haq He Hti Hfi Ht0|d p l a tm h c0 v e ts Hp Hl Haq Hpl Hnu Hca Hpe Hbl Hsv Hti Hac Hfi]; [|by eapply serving_tick].
    eapply (di_early _ d p l); try done; [|..|cbn; lia].
    + rewrite tick_lookup, Hp. cbn. unfold ring. by rewrite Hti.
    + apply all_quiet_tick; [done|]. intros x _. by rewrite Hti.
    + cbn. by rewrite Hti, omap_empty.
Qed.

Lemma dinv_reach w : treach (code asctime) handler ok (start_at P sh (Start a0) t0) w → dinv w.
Proof.
  intros H. eapply (treach_ind _ _ _ dinv); [exact H| |intros ? ?; apply dinv_step].
  eapply (di_early _ P (Proc (Running (Start a0)) sh std_fds ∅ ∅ ∅) (Start a0)); first [done|idtac].
  - cbn. apply lookup_singleton_eq.
  - intros x q Hx Hq. cbn in Hq. by rewrite lookup_singleton_ne in Hq.
Qed.
End daemon.

(** ** Properties *)


(** For every schedule and every failure: some process goes on as the daemon,
    and it has not written more lines than its timer has expired. *)
Lemma daemon_survives asctime P sh t0 a0 w :
  treach (Daemon.code asctime) Daemon.handler (λ _ _, True) (start_at P sh (Daemon.Start a0) t0) w →
  ∃ d p l, w.(base).(procs) !! d = Some p ∧ p.(p_state) = Running l ∧ l ≠ Daemon.PExit
    ∧ (w.(files) = ∅ ∨ ∃ path ts, w.(files) = {[path := (420%Z, concat (map asctime ts))]}
         ∧ StronglySorted Z.le ts ∧ (t0 + 2 * Z.of_nat (length ts) ≤ w.(clock))%Z).
Proof.
  intros H. assert (dinv asctime t0 a0 false w) as Hw.
  { apply (dinv_reach asctime P sh t0 a0 false). unfold treach in *. eapply rtc_subrel; [|exact H].
    intros x y (c & Hc & E). by exists c. }
  destruct Hw as [d p l Hp Hl Hq He Hti Hfi Ht0|d p l a tm h c0 v e ts Hp Hl Hq Hpl Hnu Hca Hpe Hbl Hsv Hti Hac Hfi];
    exists d, p, l; (split; [done|]); (split; [done|]).
  - split; [|by left]. intros ->. by destruct He as [? _].
  - split; [by destruct Hsv|]. destruct Hfi as [(Hf & _)|Hf]; [by left|right]. exists (Daemon.time_txt (Daemon.Loop a)), ts.
    destruct Hac as [A1 A2 [A3 _] _]. split_and!; [done|by eapply StronglySorted_app_1_l|lia].
Qed.

(** A run of five seconds: the parent forks and leaves, the child becomes the
    daemon and writes the time twice. *)
Definition daemon_schedule : list tchoice :=
  ([TRun 100 101; TRun 100 0; TRun 100 0] ++ replicate 11 (TRun 101 0) ++ [Tick; Tick; TDeliver 101 SIGALRM] ++ replicate 5 (TRun 101 0)
   ++ [Tick; Tick; TDeliver 101 SIGALRM] ++ replicate 5 (TRun 101 0) ++ [Tick])%Z.

Definition daemon_run : option (timed Daemon.local) :=
  follow (Daemon.code (λ t, line (dec t))) Daemon.handler prompt daemon_schedule
    (start_at 100 99 (Daemon.Start (Daemon.Attr 100 99 2 (B "/"))) 7).

(** What the run ends with: the clock, the file, and the daemon. *)
Definition daemon_view (w : timed Daemon.local) :=
  (w.(clock), w.(files) !! (B "/home/nowcoder/time.txt"),
   (λ p, (p.(p_state), bool_decide (SIGALRM ∈ p.(p_pending)))) <$> w.(base).(procs) !! 101%Z).


(** ** The timers of lesson26, on schedules *)

Definition view {L} (pid : Z) (w : timed L) : list bytes * option (pstate L) :=
  (map snd w.(base).(out), p_state <$> w.(base).(procs) !! pid).

(** alarm.c: two seconds after [alarm(5)], three are left; two seconds later
    SIGALRM ends the program. *)
Lemma alarm_c_run :
  view 100 <$> follow AlarmC.code (λ _ l, l) (λ _ _, True)
    ([TRun 100 0; TRun 100 0; TRun 100 0; Tick; Tick; TRun 100 0; TRun 100 0; TRun 100 0; TRun 100 0; Tick; Tick; TDeliver 100 SIGALRM])%Z
    (start_at 100 99 AlarmC.Start 0)
  = Some ([line (B "ret = 0"); line (B "ret = 3")], Some (Zombie (Signaled SIGALRM))).
Proof. vm_compute. reflexivity. Qed.

(** alarm1.c counts until its second is over. *)
Lemma alarm1_c_run :
  view 100 <$> follow Alarm1C.code (λ _ l, l) (λ _ _, True)
    ([TRun 100 0; TRun 100 0; TRun 100 0; TRun 100 0; Tick; TRun 100 0; TDeliver 100 SIGALRM])%Z (start_at 100 99 Alarm1C.Start 0)
  = Some (map (λ i, line (dec i)) [1; 2; 3; 4]%Z, Some (Zombie (Signaled SIGALRM))).
Proof. vm_compute. reflexivity. Qed.

(** setitimer.c does not catch SIGALRM: without a key, the first expiry ends it,
    although its timer is meant to expire every two seconds. *)
Lemma setitimer_c_run :
  view 100 <$> follow SetitimerC.code (λ _ l, l) (λ _ _, True)
    ([TRun 100 0; TRun 100 0; Tick; Tick; Tick; TDeliver 100 SIGALRM])%Z (start_at 100 99 SetitimerC.Start 0)
  = Some ([line (B "alarm is starting...")], Some (Zombie (Signaled SIGALRM)))
  ∧ view 100 <$> follow SetitimerC.code (λ _ l, l) (λ _ _, True)
    ([TRun 100 0; TRun 100 0; Tick; Tick; TRun 100 0; TRun 100 0])%Z (start_at 100 99 SetitimerC.Start 0)
  = Some ([line (B "alarm is starting...")], Some (Zombie (Exited 0))).
Proof. split; vm_compute; reflexivity. Qed.

(** signal.c handles the alarms after three and five seconds, and goes on
    waiting for a key. *)
Definition handled : list tchoice := ([TDeliver 100 SIGALRM; TRun 100 0; TRun 100 0; TRun 100 0])%Z.
Lemma signal_c_run :
  view 100 <$> follow (Catch.code true) Catch.handler (λ _ _, True)
    ([TRun 100 0; TRun 100 0; TRun 100 0; Tick; Tick; Tick] ++ handled ++ [Tick; Tick] ++ handled ++ [TRun 100 0; TRun 100 0])%Z
    (start_at 100 99 Catch.Start 0)
  = Some ([line (B "定时器开始了..."); line (B "捕捉到了信号的编号是：14"); line (B "xxxxxxx");
           line (B "捕捉到了信号的编号是：14"); line (B "xxxxxxx")], Some (Zombie (Exited 0))).
Proof. vm_compute. reflexivity. Qed.
