(* ===== verification/Pthreads.v ===== *)
(** * Creating, joining and cancelling threads: lesson29

    The life of the threads of one process: a thread runs until it returns,
    calls [pthread_exit] or acts on its cancellation, and stays to be joined
    unless it is detached; the process ends with the return of [main] or with
    its last thread.  A program is a function from the identity and the local
    state of a thread to its next action, for [main] and for [callback]; a step
    executes the action of one thread, so that properties hold for every
    interleaving. *)
From S2P Require Import Prelude CString Processes Forks.

(** A value of type [void *]: NULL, the address of a cell of the heap, or what
    a cancelled thread leaves. *)
Inductive pointer := Null | Cell (n : nat) | PTHREAD_CANCELED.
#[export] Instance pointer_eq : EqDecision pointer.
Proof. solve_decision. Defined.

Definition ESRCH : Z := 3.
Definition EINVAL : Z := 22.
Definition EDEADLK : Z := 35.

(** ** Actions *)

(** The continuation of [Create] takes the result and the content of the
    variable [tid]; that of [Join] the result and the content of the variable
    for the value, [None] when it was not set. *)
Inductive taction (L : Type) :=
| Say (s : bytes) (l : L)
| Sleep (l : L)
| Create (detached : bool) (entry : L) (k : Z → Z → L)
| Join (t : Z) (k : Z → option pointer → L)
| Detached (t : Z) (k : Z → L)
| Cancel (t : Z) (k : Z → L)
| Malloc (k : pointer → L)
| Store (p : pointer) (x : Z) (l : L)
| Load (p : option pointer) (k : Z → L)
| Free (p : option pointer) (l : L)
| Leave (v : pointer)          (* pthread_exit, or the return of callback *)
| Return (code : Z).           (* the return of main *)
Arguments Say {L} s l.
Arguments Sleep {L} l.
Arguments Create {L} detached entry k.
Arguments Join {L} t k.
Arguments Detached {L} t k.
Arguments Cancel {L} t k.
Arguments Malloc {L} k.
Arguments Store {L} p x l.
Arguments Load {L} p k.
Arguments Free {L} p l.
Arguments Leave {L} v.
Arguments Return {L} code.

(** ** The state of the process *)

Inductive tstate (L : Type) := Active (l : L) | Ended (v : pointer).
Arguments Active {L} l.
Arguments Ended {L} v.

Record thread (L : Type) := Thread { t_state : tstate L; t_detached : bool; t_cancelled : bool }.
Arguments Thread {L} t_state t_detached t_cancelled.
Arguments t_state {L} t.
Arguments t_detached {L} t.
Arguments t_cancelled {L} t.

Inductive life := Alive | Exit_process (code : Z) | Undefined.
#[export] Instance life_eq : EqDecision life.
Proof. solve_decision. Defined.

(** A cell of the heap holds a number once it has been stored; addresses are
    not reused. *)
Record process (L : Type) := Process {
  threads : gmap Z (thread L);
  heap : gmap nat (option Z);
  brk : nat                       (* the next address *);
  said : list (Z * bytes)         (* what the threads printed *);
  life_of : life
}.
Arguments Process {L} threads heap brk said life_of.
Arguments threads {L} p.
Arguments heap {L} p.
Arguments brk {L} p.
Arguments said {L} p.
Arguments life_of {L} p.

Section threads.
Context {L : Type}.
Implicit Types (s : process L).

Definition put_thread (t : Z) (x : thread L) s : process L :=
  Process (<[t := x]> s.(threads)) s.(heap) s.(brk) s.(said) s.(life_of).
Definition drop_thread (t : Z) s : process L :=
  Process (delete t s.(threads)) s.(heap) s.(brk) s.(said) s.(life_of).
Definition set_heap (h : gmap nat (option Z)) s : process L := Process s.(threads) h s.(brk) s.(said) s.(life_of).
Definition set_life (x : life) s : process L := Process s.(threads) s.(heap) s.(brk) s.(said) x.
Definition utter (t : Z) (d : bytes) s : process L := Process s.(threads) s.(heap) s.(brk) (s.(said) ++ [(t, d)]) s.(life_of).

(** Thread [t] goes on at [l]. *)
Definition resume (t : Z) (l : L) s : process L :=
  match s.(threads) !! t with
  | Some x => put_thread t (Thread (Active l) x.(t_detached) x.(t_cancelled)) s
  | None => s
  end.

Definition active (x : thread L) : bool := match x.(t_state) with Active _ => true | Ended _ => false end.

(** The end of a thread: nothing is left of a detached one; the last one ends
    the process. *)
Definition leave (t : Z) (v : pointer) s : process L :=
  match s.(threads) !! t with
  | Some x =>
      let s := if x.(t_detached) then drop_thread t s else put_thread t (Thread (Ended v) false x.(t_cancelled)) s in
      if decide (map_Exists (λ _ y, active y = true) s.(threads)) then s else set_life (Exit_process 0) s
  | None => s
  end.

(** What the system answers: the identity of a new thread, or an error, with
    the former content of the variable that is not set. *)
Inductive answer := Ok | Made (t : Z) | Failed (err junk : Z).

(** ** Steps *)

(** Thread [t] performs its action; [None] when it has to wait, or when [a] is
    no answer to it. *)
Definition perform (t : Z) (a : answer) (act : taction L) s : option (process L) :=
  match act with
  | Say d l => Some (resume t l (utter t d s))
  | Sleep l => Some (resume t l s)
  | Create detached entry k =>
      match a with
      | Made c =>
          if decide (s.(threads) !! c = None) then
            Some (resume t (k 0%Z c) (put_thread c (Thread (Active entry) detached false) s))
          else None
      | Failed err junk => if (err =? 0)%Z then None else Some (resume t (k err junk) s)
      | Ok => None
      end
  | Join c k =>
      match s.(threads) !! c with
      | Some x =>
          if x.(t_detached) then Some (resume t (k EINVAL None) s)
          else if decide (c = t) then Some (resume t (k EDEADLK None) s)
          else match x.(t_state) with
               | Ended v => Some (resume t (k 0%Z (Some v)) (drop_thread c s))
               | Active _ => None
               end
      | None => Some (set_life Undefined s)
      end
  | Detached c k =>
      match s.(threads) !! c with
      | Some x =>
          if x.(t_detached) then Some (resume t (k EINVAL) s)
          else match x.(t_state) with
               | Ended _ => Some (resume t (k 0%Z) (drop_thread c s))
               | Active l => Some (resume t (k 0%Z) (put_thread c (Thread (Active l) true x.(t_cancelled)) s))
               end
      | None => Some (set_life Undefined s)
      end
  | Cancel c k =>
      match s.(threads) !! c with
      | Some x =>
          match x.(t_state), a with
          | Active l, _ => Some (resume t (k 0%Z) (put_thread c (Thread (Active l) x.(t_detached) true) s))
          | Ended _, Ok => Some (resume t (k 0%Z) s)
          | Ended _, _ => Some (resume t (k ESRCH) s)
          end
      | None => Some (set_life Undefined s)
      end
  | Malloc k =>
      match a with
      | Failed _ _ => Some (resume t (k Null) s)
      | _ => Some (resume t (k (Cell s.(brk)))
                     (Process s.(threads) (<[s.(brk) := None]> s.(heap)) (S s.(brk)) s.(said) s.(life_of)))
      end
  | Store p x l =>
      match p with
      | Cell n =>
          match s.(heap) !! n with
          | Some _ => Some (resume t l (set_heap (<[n := Some x]> s.(heap)) s))
          | None => Some (set_life Undefined s)
          end
      | _ => Some (set_life Undefined s)
      end
  | Load p k =>
      match p with
      | Some (Cell n) =>
          match s.(heap) !! n with
          | Some (Some x) => Some (resume t (k x) s)
          | _ => Some (set_life Undefined s)
          end
      | _ => Some (set_life Undefined s)
      end
  | Free p l =>
      match p with
      | Some Null => Some (resume t l s)
      | Some (Cell n) =>
          if decide (is_Some (s.(heap) !! n)) then Some (resume t l (set_heap (delete n s.(heap)) s))
          else Some (set_life Undefined s)
      | _ => Some (set_life Undefined s)
      end
  | Leave v => Some (leave t v s)
  | Return code => Some (set_life (Exit_process code) s)
  end.

(** The calls at which a cancelled thread may end; printing is one. *)
Definition cancellation_point (act : taction L) : bool :=
  match act with Say _ _ | Sleep _ | Join _ _ => true | _ => false end.

(** The code of the program. *)
Variable code : Z → L → taction L.

Inductive turn := Go (t : Z) (a : answer) | Perish (t : Z).

Definition take_turn (c : turn) s : option (process L) :=
  let t := match c with Go t _ => t | Perish t => t end in
  if decide (s.(life_of) = Alive) then
    match s.(threads) !! t with
    | Some x =>
        match x.(t_state) with
        | Active l =>
            match c with
            | Go _ a => perform t a (code t l) s
            | Perish _ =>
                if x.(t_cancelled) && cancellation_point (code t l) then Some (leave t PTHREAD_CANCELED s) else None
            end
        | Ended _ => None
        end
    | None => None
    end
  else None.

(** The runs in which the answers satisfy [ok]. *)
Variable ok : turn → Prop.
Definition tstep s s' : Prop := ∃ c, ok c ∧ take_turn c s = Some s'.
Definition treach : process L → process L → Prop := rtc tstep.

(** A schedule; turns that cannot run are skipped. *)
Definition run_turns (cs : list turn) s : process L := foldl (λ s c, default s (take_turn c s)) s cs.

Lemma run_turns_reach cs s : Forall ok cs → treach s (run_turns cs s).
Proof.
  intros Hok. revert s. induction Hok as [|c cs Hc Hcs IH]; intros s; [apply rtc_refl|]. cbn [run_turns foldl].
  unfold treach in *. etransitivity; [|apply IH].
  destruct (take_turn c s) eqn:E; cbn [default]; [apply rtc_once; by exists c|apply rtc_refl].
Qed.

(** A schedule in which every turn can run. *)
Fixpoint all_turns (cs : list turn) s : option (process L) :=
  match cs with
  | [] => Some s
  | c :: cs => match take_turn c s with Some s => all_turns cs s | None => None end
  end.

Lemma all_turns_nsteps cs s s' : Forall ok cs → all_turns cs s = Some s' → nsteps tstep (length cs) s s'.
Proof.
  intros Hok. revert s. induction Hok as [|c cs Hc Hcs IH]; intros s E; cbn in E; [injection E as <-; constructor|].
  destruct (take_turn c s) as [s1|] eqn:E1; [|done]. eapply nsteps_l; [by exists c|by apply IH].
Qed.

Lemma treach_invariant (P : process L → Prop) s0 s :
  treach s0 s → P s0 → (∀ s s', P s → tstep s s' → P s') → P s.
Proof. intros H. induction H; eauto. Qed.
End threads.

(** The process at the start of [main], which is thread [M]. *)
Definition new_process {L} (M : Z) (l : L) (h : gmap nat (option Z)) (n : nat) : process L :=
  Process {[M := Thread (Active l) false false]} h n [] Alive.

(** What thread [t] printed. *)
Definition lines_of {L} (t : Z) (s : process L) : list bytes := omap (λ x, if decide (x.1 = t) then Some x.2 else None) s.(said).

(** ** The programs *)

(** [printf("%d\n", i)] *)
Definition count_line (i : nat) : bytes := line (dec (Z.of_nat i)).
(** [printf("tid : %ld, main thread id : %ld\n", tid, pthread_self())] *)
Definition tid_line (tid self : Z) : bytes := line (B "tid : " ++ dec tid ++ B ", main thread id : " ++ dec self).
(** [printf("error: %s\n", strerror(ret))] *)
Definition error_line (strerror : Z → bytes) (ret : Z) : bytes := line (B "error: " ++ strerror ret).

(** *** pthread_create.c: the variable [num] of [main] is cell 0 *)
Module CreateC.
Inductive local :=
| Start | Creating | Check (ret : Z) | For (i : nat) | Done
| Hello | Arg | ShowArg (x : Z) | Back.

Section code.
Variable strerror : Z → bytes.
Definition code (self : Z) (l : local) : taction local :=
  match l with
  | Start => Store (Cell 0) 10 Creating
  | Creating => Create false Hello (λ ret tid, if (ret =? 0)%Z then For 0 else Check ret)
  | Check ret => Say (error_line strerror ret) (For 0)
  | For i => if decide (i < 5) then Say (count_line i) (For (S i)) else Sleep Done
  | Done => Return 0
  | Hello => Say (line (B "child pthread...")) Arg
  | Arg => Load (Some (Cell 0)) ShowArg
  | ShowArg x => Say (line (B "arg: " ++ dec x)) Back
  | Back => Leave Null
  end.
End code.
Definition main (M : Z) : process local := new_process M Start {[0 := None]} 1.
End CreateC.

(** *** pthread_exit.c *)
Module ExitC.
Inductive local :=
| Start | Check (ret : Z) | For (i : nat) | Done
| Hello | Back.

Section code.
Variable strerror : Z → bytes.
Definition code (self : Z) (l : local) : taction local :=
  match l with
  | Start => Create false Hello (λ ret tid, if (ret =? 0)%Z then For 0 else Check ret)
  | Check ret => Say (error_line strerror ret) (For 0)
  | For i => if decide (i < 5) then Say (count_line i) (For (S i)) else Say (line (B "main thread id: " ++ dec self)) Done
  | Done => Leave Null
  | Hello => Say (line (B "child thread id: " ++ dec self)) Back
  | Back => Leave Null
  end.
End code.
Definition main (M : Z) : process local := new_process M Start ∅ 0.
End ExitC.

(** *** pthread_join.c: the child hands over a number it has allocated *)
Module JoinC.
Inductive local :=
| Start | Check (ret tid : Z) | For (i : nat) (tid : Z) | Joining (tid : Z) | Joined (ret : Z) (v : option pointer)
| Exit_data (v : option pointer) | Show_data (v : option pointer) (x : Z) | Show_address (v : option pointer)
| Freeing (v : option pointer) | Success | Done
| Hello | Alloc | Assign (value : pointer) | Child_address (value : pointer) | Back (value : pointer).

Section code.
Variable strerror : Z → bytes.
(** The number an address is printed as, after its conversion to [unsigned int]. *)
Variable address : pointer → Z.

(** Printing the address needs [thread_retval] to be set. *)
Definition code (self : Z) (l : local) : taction local :=
  match l with
  | Start => Create false Hello (λ ret tid, if (ret =? 0)%Z then For 0 tid else Check ret tid)
  | Check ret tid => Say (error_line strerror ret) (For 0 tid)
  | For i tid => if decide (i < 5) then Say (count_line i) (For (S i) tid) else Say (tid_line tid self) (Joining tid)
  | Joining tid => Join tid (λ ret v, if (ret =? 0)%Z then Exit_data v else Joined ret v)
  | Joined ret v => Say (error_line strerror ret) (Exit_data v)
  | Exit_data v => Load v (Show_data v)
  | Show_data v x => Say (line (B "exit data: " ++ dec x)) (Show_address v)
  | Show_address v => Say (line (B "main thread, value address: " ++ dec (from_option address 0%Z v))) (Freeing v)
  | Freeing v => Free v Success
  | Success => Say (line (B "回收子线程资源成功！")) Done
  | Done => Leave Null
  | Hello => Say (line (B "child thread id: " ++ dec self)) Alloc
  | Alloc => Malloc Assign
  | Assign value => Store value 10 (Child_address value)
  | Child_address value => Say (line (B "child thread, value address: " ++ dec (address value))) (Back value)
  | Back value => Leave value
  end.
End code.
Definition main (M : Z) : process local := new_process M Start ∅ 0.
End JoinC.

(** *** pthread_detach.c *)
Module DetachC.
Inductive local :=
| Start | Check (ret tid : Z) | Ids (tid : Z) | Detaching (tid : Z) | Check_detach (ret tid : Z)
| Joining (tid : Z) | Check_join (ret : Z) | Done
| Hello | Back.

Section code.
Variable strerror : Z → bytes.
Definition code (self : Z) (l : local) : taction local :=
  match l with
  | Start => Create false Hello (λ ret tid, if (ret =? 0)%Z then Ids tid else Check ret tid)
  | Check ret tid => Say (error_line strerror ret) (Ids tid)
  | Ids tid => Say (tid_line tid self) (Detaching tid)
  | Detaching tid => Detached tid (λ ret, if (ret =? 0)%Z then Joining tid else Check_detach ret tid)
  | Check_detach ret tid => Say (error_line strerror ret) (Joining tid)
  | Joining tid => Join tid (λ ret _, if (ret =? 0)%Z then Done else Check_join ret)
  | Check_join ret => Say (error_line strerror ret) Done
  | Done => Leave Null
  | Hello => Say (line (B "child thread: " ++ dec self)) Back
  | Back => Leave Null
  end.
End code.
Definition main (M : Z) : process local := new_process M Start ∅ 0.
End DetachC.

(** *** pthread_cancel.c *)
Module CancelC.
Inductive local :=
| Start | Check (ret tid : Z) | Ids (tid : Z) | Cancelling (tid : Z) | Check_cancel (ret : Z) | For (i : nat)
| Hello | Loop (i : nat).

(** The bound of the loop of [callback]. *)
Definition rounds : nat := 50000.

Section code.
Variable strerror : Z → bytes.
Definition code (self : Z) (l : local) : taction local :=
  match l with
  | Start => Create false Hello (λ ret tid, if (ret =? 0)%Z then Ids tid else Check ret tid)
  | Check ret tid => Say (error_line strerror ret) (Ids tid)
  | Ids tid => Say (tid_line tid self) (Cancelling tid)
  | Cancelling tid => Cancel tid (λ ret, if (ret =? 0)%Z then For 0 else Check_cancel ret)
  | Check_cancel ret => Say (error_line strerror ret) (For 0)
  | For i => if decide (i < 5) then Say (count_line i) (For (S i)) else Leave Null
  | Hello => Say (line (B "child thread: " ++ dec self)) (Loop 0)
  | Loop i => if decide (i < rounds) then Say (line (B "child thread : " ++ dec (Z.of_nat i))) (Loop (S i)) else Leave Null
  end.
End code.
Definition main (M : Z) : process local := new_process M Start ∅ 0.
End CancelC.

(** *** pthread_attr.c: the thread is created detached *)
Module AttrC.
Inductive local :=
| Start | Creating (detachstate : Z) | Check (ret tid : Z) | Size (tid : Z) | Ids (tid : Z) | Done
| Hello | Back.

Definition PTHREAD_CREATE_DETACHED : Z := 1.

Section code.
Variable strerror : Z → bytes.
(** The default size of a stack. *)
Variable stacksize : Z.
Definition code (self : Z) (l : local) : taction local :=
  match l with
  | Start => Say (line (B "state : " ++ dec PTHREAD_CREATE_DETACHED)) (Creating PTHREAD_CREATE_DETACHED)
  | Creating st =>
      Create (st =? PTHREAD_CREATE_DETACHED)%Z Hello (λ ret tid, if (ret =? 0)%Z then Size tid else Check ret tid)
  | Check ret tid => Say (line (B "error1 : " ++ strerror ret)) (Size tid)
  | Size tid => Say (line (B "thread stack size : " ++ dec stacksize)) (Ids tid)
  | Ids tid => Say (tid_line tid self) Done
  | Done => Leave Null
  | Hello => Say (line (B "chid thread id : " ++ dec self)) Back
  | Back => Leave Null
  end.
End code.
Definition main (M : Z) : process local := new_process M Start ∅ 0.
End AttrC.
