(* ===== verification/PthreadsProofs.v ===== *)
(** * The threads of lesson29: what is joined, detached and cancelled *)
From S2P Require Import Prelude CString Processes Forks Pthreads.

(** ** Lines and threads *)

Section lemmas.
Context {L : Type}.
Implicit Types (s : process L).

Lemma lines_utter t t' d s : lines_of t (utter t' d s) = lines_of t s ++ (if decide (t' = t) then [d] else []).
Proof. unfold lines_of, utter. cbn. rewrite omap_app. cbn. by case_decide. Qed.

(** Going on changes the entry of the thread only. *)
Lemma resume_eq t l x s :
  s.(threads) !! t = Some x → resume t l s = put_thread t (Thread (Active l) x.(t_detached) x.(t_cancelled)) s.
Proof. intros H. unfold resume. by rewrite H. Qed.

Lemma lines_resume t t' l s : lines_of t (resume t' l s) = lines_of t s.
Proof. unfold resume. by case_match. Qed.

(** A pair of threads, of which one changes. *)
Lemma pair_fst (a b : Z) (x x' y : thread L) : <[a := x']> {[a := x; b := y]} = ({[a := x'; b := y]} : gmap Z (thread L)).
Proof. apply insert_insert_eq. Qed.
Lemma pair_snd (a b : Z) (x y y' : thread L) :
  b ≠ a → <[b := y']> {[a := x; b := y]} = ({[a := x; b := y']} : gmap Z (thread L)).
Proof. intros. rewrite insert_insert_ne by done. by rewrite insert_singleton_eq. Qed.
Lemma pair_lookup_snd (a b : Z) (x y : thread L) : b ≠ a → ({[a := x; b := y]} : gmap Z (thread L)) !! b = Some y.
Proof. intros. rewrite lookup_insert_ne by done. apply lookup_singleton_eq. Qed.
Lemma pair_lookup (a b c : Z) (x y z : thread L) :
  b ≠ a → ({[a := x; b := y]} : gmap Z (thread L)) !! c = Some z → (c = a ∧ z = x) ∨ (c = b ∧ z = y).
Proof.
  intros Hne H. apply lookup_insert_Some in H as [[-> ->]|[_ H]]; [by left|]. apply lookup_singleton_Some in H as [-> ->]. by right.
Qed.
Lemma pair_delete (a b : Z) (x y : thread L) : b ≠ a → delete b ({[a := x; b := y]} : gmap Z (thread L)) = {[a := x]}.
Proof. intros. rewrite delete_insert_ne by done. by rewrite delete_singleton_eq. Qed.
Lemma pair_comm (a b : Z) (x y : thread L) : b ≠ a → ({[a := x; b := y]} : gmap Z (thread L)) = {[b := y; a := x]}.
Proof. intros Hne. apply map_eq. intros c. rewrite !lookup_insert, !lookup_singleton. repeat case_decide; congruence. Qed.
Lemma pair_active (a b : Z) (x y : thread L) :
  b ≠ a → map_Exists (λ _ z, active z = true) ({[a := x; b := y]} : gmap Z (thread L)) ↔ active x = true ∨ active y = true.
Proof.
  intros Hne. split.
  - intros (c & z & H & Hz). apply pair_lookup in H as [[_ ->]|[_ ->]]; auto.
  - intros [H|H]; [exists a, x|exists b, y]; split; try done; [by rewrite lookup_insert_eq|by apply pair_lookup_snd].
Qed.
End lemmas.

(** The calls that may fail succeed. *)
Definition lucky (c : turn) : Prop := match c with Go _ (Failed _ _) => False | _ => True end.

(** ** pthread_join.c *)
Section join.
Import JoinC.
Variables (strerror : Z → bytes) (address : pointer → Z) (M : Z).

#[local] Abbreviation step := (tstep (code strerror address) lucky).

(** What the child has printed, allocated and done when it is at [c]; [None]
    when it has ended. *)
Definition child_id (t : Z) : bytes := line (B "child thread id: " ++ dec t).
Definition child_address : bytes := line (B "child thread, value address: " ++ dec (address (Cell 0))).
Definition child_at (t : Z) (c : option local) : option (list bytes * gmap nat (option Z) * nat * nat) :=
  match c with
  | Some Hello => Some ([], ∅, 0, 0)
  | Some Alloc => Some ([child_id t], ∅, 0, 1)
  | Some (Assign (Cell 0)) => Some ([child_id t], {[0 := None]}, 1, 2)
  | Some (Child_address (Cell 0)) => Some ([child_id t], {[0 := Some 10%Z]}, 1, 3)
  | Some (Back (Cell 0)) => Some ([child_id t; child_address], {[0 := Some 10%Z]}, 1, 4)
  | None => Some ([child_id t; child_address], {[0 := Some 10%Z]}, 1, 5)
  | _ => None
  end.

(** What [main] has printed and done while the child may run. *)
Definition counted (i : nat) : list bytes := map count_line (seq 0 i).
Definition main_at (t : Z) (m : local) : option (list bytes * nat) :=
  match m with
  | For i t' => if decide (i ≤ 5 ∧ t' = t) then Some (counted i, S i) else None
  | Joining t' => if decide (t' = t) then Some (counted 5 ++ [tid_line t M], 7) else None
  | _ => None
  end.

(** What [main] has printed, left on the heap and done after the join. *)
Definition received : list bytes := [line (B "exit data: " ++ dec 10)].
Definition main_address : bytes := line (B "main thread, value address: " ++ dec (address (Cell 0))).
Definition success : bytes := line (B "回收子线程资源成功！").
Definition joined_at (m : local) : option (list bytes * gmap nat (option Z) * nat) :=
  let h := {[0 := Some 10%Z]} in
  match m with
  | Exit_data (Some (Cell 0)) => Some ([], h, 8)
  | Show_data (Some (Cell 0)) 10%Z => Some ([], h, 9)
  | Show_address (Some (Cell 0)) => Some (received, h, 10)
  | Freeing (Some (Cell 0)) => Some (received ++ [main_address], h, 11)
  | Success => Some (received ++ [main_address], ∅, 12)
  | Done => Some (received ++ [main_address; success], ∅, 13)
  | _ => None
  end.

Definition cstate (c : option local) : tstate local := match c with Some l => Active l | None => Ended (Cell 0) end.
Definition plain (x : tstate local) : thread local := Thread x false false.

(** The states reached in [n] steps. *)
Inductive at_step (n : nat) (s : process local) : Prop :=
| as_start : n = 0 → s = JoinC.main M → at_step n s
| as_both t m c lm nm lc h b nc :
    t ≠ M → s.(threads) = {[M := plain (Active m); t := plain (cstate c)]} → s.(life_of) = Alive →
    main_at t m = Some (lm, nm) → child_at t c = Some (lc, h, b, nc) → n = nm + nc →
    lines_of M s = lm → lines_of t s = lc → s.(heap) = h → s.(brk) = b → at_step n s
| as_joined t m lm h nm :
    t ≠ M → s.(threads) = {[M := plain (Active m)]} → s.(life_of) = Alive →
    joined_at m = Some (lm, h, nm) → n = nm + 5 →
    lines_of M s = counted 5 ++ [tid_line t M] ++ lm → lines_of t s = [child_id t; child_address] → s.(heap) = h →
    at_step n s
| as_exit t :
    t ≠ M → n = 19 → s.(life_of) = Exit_process 0 → s.(heap) = ∅ →
    lines_of M s = counted 5 ++ [tid_line t M] ++ received ++ [main_address; success] →
    lines_of t s = [child_id t; child_address] → at_step n s.

Lemma counted_S i : counted (S i) = counted i ++ [count_line i].
Proof. unfold counted. by rewrite seq_S, map_app. Qed.

(** A step of the child: [main] stays where it is. *)
Lemma child_move n s t m c c' lm nm lc h b nc lc' h' b' s' :
  t ≠ M → s.(threads) = {[M := plain (Active m); t := plain (cstate c)]} → s.(life_of) = Alive →
  main_at t m = Some (lm, nm) → child_at t c = Some (lc, h, b, nc) → n = nm + nc → lines_of M s = lm →
  s'.(threads) = <[t := plain (cstate c')]> s.(threads) → s'.(life_of) = s.(life_of) →
  child_at t c' = Some (lc', h', b', S nc) → lines_of M s' = lines_of M s → lines_of t s' = lc' →
  s'.(heap) = h' → s'.(brk) = b' → at_step (S n) s'.
Proof.
  intros Ht Hth Hl Hm Hc -> Hlm Hth' Hl' Hc' Hlm' Hlc' Hh Hb.
  eapply (as_both _ _ t m c' lm nm lc' h' b' (S nc)); first [done|lia|congruence|by rewrite Hth', Hth, pair_snd].
Qed.

Lemma child_step n s t m c lm nm lc h b nc a s' :
  t ≠ M → s.(threads) = {[M := plain (Active m); t := plain (Active c)]} → s.(life_of) = Alive →
  main_at t m = Some (lm, nm) → child_at t (Some c) = Some (lc, h, b, nc) → n = nm + nc →
  lines_of M s = lm → lines_of t s = lc → s.(heap) = h → s.(brk) = b → lucky (Go t a) →
  perform t a (code strerror address t c) s = Some s' → at_step (S n) s'.
Proof.
  intros Ht Hth Hl Hm Hc Hn Hlm Hlc Hh Hb Ha E. assert (s.(threads) !! t = Some (plain (Active c))) as Hlk.
  { rewrite Hth. by apply pair_lookup_snd. }
  assert (∀ d, lines_of M (utter t d s) = lines_of M s) as HsayM.
  { intros. by rewrite lines_utter, decide_False, app_nil_r. }
  assert (∀ d, lines_of t (utter t d s) = lc ++ [d]) as Hsay.
  { intros. by rewrite lines_utter, decide_True, Hlc. }
  pose proof (λ c', child_move n s t m (Some c) c' lm nm lc h b nc) as Hmv.
  destruct c as [| | | | | | | | | | |  | |[|[|k]|]|[|[|k]|]|[|[|k]|]]; try done; cbn [code perform] in E;
    cbn [child_at] in Hc; injection Hc as <- <- <- <-.
  - injection E as <-. erewrite resume_eq by exact Hlk.
    eapply (Hmv (Some Alloc)); first [done|exact (HsayM _)|exact (Hsay _)].
  - destruct a; [| |done]; injection E as <-; (erewrite resume_eq by exact Hlk); rewrite Hb, Hh;
      (eapply (Hmv (Some (Assign (Cell 0)))); done).
  - rewrite Hh, lookup_singleton_eq in E. injection E as <-. erewrite resume_eq by exact Hlk. rewrite insert_singleton_eq.
    eapply (Hmv (Some (Child_address (Cell 0)))); done.
  - injection E as <-. erewrite resume_eq by exact Hlk.
    eapply (Hmv (Some (Back (Cell 0)))); first [done|exact (HsayM _)|exact (Hsay _)].
  - injection E as <-. unfold leave. rewrite Hlk. cbn [plain t_detached t_cancelled]. rewrite decide_True.
    2:{ exists M, (plain (Active m)). split; [|done]. cbn. by rewrite lookup_insert_ne, Hth, lookup_insert_eq. }
    eapply (Hmv None); done.
Qed.
(** The steps of [main] while the child may run. *)
Lemma main_step n s t m c lm nm lc h b nc a s' :
  t ≠ M → s.(threads) = {[M := plain (Active m); t := plain (cstate c)]} → s.(life_of) = Alive →
  main_at t m = Some (lm, nm) → child_at t c = Some (lc, h, b, nc) → n = nm + nc →
  lines_of M s = lm → lines_of t s = lc → s.(heap) = h → s.(brk) = b →
  perform M a (code strerror address M m) s = Some s' → at_step (S n) s'.
Proof.
  intros Ht Hth Hl Hm Hc -> Hlm Hlc Hh Hb E. assert (s.(threads) !! M = Some (plain (Active m))) as Hlk.
  { rewrite Hth. by rewrite lookup_insert_eq. }
  assert (∀ d, lines_of t (utter M d s) = lines_of t s) as HsayT.
  { intros. by rewrite lines_utter, decide_False, app_nil_r. }
  assert (∀ d m' lm', main_at t m' = Some (lm', S nm) → lm' = lm ++ [d] →
    at_step (S (nm + nc)) (put_thread M (plain (Active m')) (utter M d s))) as Hmv.
  { intros d m' lm' Hm' ->. eapply (as_both _ _ t m' c _ _ lc h b nc Ht); try done; [cbn; by rewrite Hth, pair_fst| |].
    - change (lines_of M (utter M d s) = lm ++ [d]). by rewrite lines_utter, decide_True, Hlm.
    - change (lines_of t (utter M d s) = lc). by rewrite HsayT. }
  destruct m as [| |i t'|t'| | | | | | | | | | | |]; try done; cbn [main_at] in Hm; case_decide as Hd; try done.
  - destruct Hd as [Hi ->]. injection Hm as <- <-. cbn [code] in E. case_decide; cbn [perform] in E; injection E as <-;
      (erewrite resume_eq by exact Hlk).
    + eapply Hmv; [cbn; by rewrite decide_True by (split; [lia|done])|apply counted_S].
    + assert (i = 5) as -> by lia. eapply Hmv; [cbn; by rewrite decide_True|done].
  - subst t'. injection Hm as <- <-. cbn [code perform] in E. rewrite Hth, pair_lookup_snd in E by done.
    cbn [t_detached plain t_state] in E. rewrite decide_False in E by done. destruct c; [done|]. cbn [cstate] in E. injection E as <-.
    injection Hc as <- <- <- <-. erewrite resume_eq by (cbn; rewrite Hth, pair_delete by done; apply lookup_singleton_eq).
    eapply (as_joined _ _ t (Exit_data (Some (Cell 0)))); try done. cbn. by rewrite Hth, pair_delete, insert_singleton_eq.
Qed.

(** The steps of [main] after the join. *)
Lemma joined_step n s t m lm h nm a s' :
  t ≠ M → s.(threads) = {[M := plain (Active m)]} → s.(life_of) = Alive →
  joined_at m = Some (lm, h, nm) → n = nm + 5 →
  lines_of M s = counted 5 ++ [tid_line t M] ++ lm → lines_of t s = [child_id t; child_address] → s.(heap) = h →
  perform M a (code strerror address M m) s = Some s' → at_step (S n) s'.
Proof.
  intros Ht Hth Hl Hm -> Hlm Hlc Hh E. assert (s.(threads) !! M = Some (plain (Active m))) as Hlk.
  { rewrite Hth. apply lookup_singleton_eq. }
  assert (∀ m' s0 lm' h', s0.(threads) = s.(threads) → s0.(life_of) = s.(life_of) → joined_at m' = Some (lm', h', S nm) →
    s0.(heap) = h' → lines_of M s0 = counted 5 ++ [tid_line t M] ++ lm' → lines_of t s0 = lines_of t s →
    at_step (S (nm + 5)) (resume M m' s0)) as Hmv.
  { intros m' s0 lm' h' H1 H2 H3 H4 H5 H6. erewrite resume_eq by by rewrite H1.
    eapply (as_joined _ _ t m' lm' h' (S nm)); try done; [cbn; by rewrite H1, Hth, insert_singleton_eq| |]; etransitivity; done. }
  assert (∀ d m' lm', joined_at m' = Some (lm', h, S nm) → lm' = lm ++ [d] → at_step (S (nm + 5)) (resume M m' (utter M d s))) as Hsay.
  { intros d m' lm' H ->. eapply Hmv; [done|done|exact H|done| |].
    - rewrite lines_utter, decide_True, Hlm by done. by rewrite <-!app_assoc.
    - by rewrite lines_utter, decide_False, app_nil_r. }
  destruct m as [| | | | |[[|[|k]|]|]|[[|[|k]|]|] [|p|p]|[[|[|k]|]|]|[[|[|k]|]|]| | | | | | |]; try done; cbn [code perform] in E.
  - injection Hm as <- <- <-. rewrite Hh, lookup_singleton_eq in E. injection E as <-. by eapply Hmv.
  - destruct p as [|[[|[| |]|]| |]|]; try done. injection Hm as <- <- <-. injection E as <-. by eapply Hsay.
  - injection Hm as <- <- <-. injection E as <-. by eapply Hsay.
  - injection Hm as <- <- <-. rewrite Hh, lookup_singleton_eq, decide_True in E by done. injection E as <-.
    eapply Hmv; done.
  - injection Hm as <- <- <-. injection E as <-. by eapply Hsay.
  - injection Hm as <- <- <-. injection E as <-. unfold leave. rewrite Hlk. cbn [plain t_detached t_cancelled]. rewrite decide_False.
    2:{ cbn. rewrite Hth, insert_singleton_eq. intros (c & z & H & Hz). apply lookup_singleton_Some in H as [_ <-]. done. }
    eapply (as_exit _ _ t); try done.
Qed.

Lemma start_step a s' :
  lucky (Go M a) → perform M a (code strerror address M Start) (JoinC.main M) = Some s' → at_step 1 s'.
Proof.
  intros Ha E. cbn [code perform] in E. destruct a as [|t|]; [done| |done]. case_decide as Hd; [|done]. injection E as <-.
  cbn in Hd. assert (t ≠ M) as Ht. { intros ->. by rewrite lookup_singleton_eq in Hd. }
  erewrite resume_eq by (cbn; rewrite lookup_insert_ne by done; apply lookup_singleton_eq).
  eapply (as_both _ _ t (For 0 t) (Some Hello)); first [done|cbn; by rewrite decide_True by (split; [lia|done])|idtac].
  apply map_eq. intros c. cbn. rewrite !lookup_insert, !lookup_singleton. repeat case_decide; first [done|congruence].
Qed.

Lemma at_step_next n s s' : at_step n s → step s s' → at_step (S n) s'.
Proof.
  intros Hs (c & Hok & E). unfold take_turn in E. set (t0 := match c with Go t _ => t | Perish t => t end) in E.
  case_decide as Hal; [|done]. destruct (threads s !! t0) as [x|] eqn:Hx; [|done].
  destruct (t_state x) as [l|] eqn:Hl; [|done].
  assert (t_cancelled x = false → ∃ a, lucky (Go t0 a) ∧ perform t0 a (code strerror address t0 l) s = Some s') as HE.
  { intros Hc. destruct c as [t a|t]; [by exists a|]. by rewrite Hc in E. }
  clear E. destruct Hs as [-> ->|t m c' lm nm lc h b nc Ht Hth Hli Hm Hc Hn Hlm Hlc Hh Hb|t m lm h nm Ht Hth Hli Hm Hn Hlm Hlc Hh|t Ht Hn Hli].
  - cbn [JoinC.main new_process threads] in Hx. apply lookup_singleton_Some in Hx as [<- <-]. destruct (HE eq_refl) as (a & Ha & E). injection Hl as <-. by eapply start_step.
  - rewrite Hth in Hx. apply pair_lookup in Hx as [[-> ->]|[-> ->]]; [| |done]; destruct (HE eq_refl) as (a & Ha & E).
    + injection Hl as <-. by eapply main_step.
    + destruct c' as [c'|]; [|done]. injection Hl as <-. by eapply child_step.
  - rewrite Hth in Hx. apply lookup_singleton_Some in Hx as [<- <-]. destruct (HE eq_refl) as (a & Ha & E). injection Hl as <-.
    by eapply joined_step.
  - by rewrite Hli in Hal.
Qed.

Lemma at_step_reach n s : nsteps step n (JoinC.main M) s → at_step n s.
Proof.
  revert s. induction n as [|n IH]; intros s H.
  - inversion H; subst. by constructor.
  - apply nsteps_inv_r in H as (y & Hy & Hs). by eapply at_step_next; [apply IH|].
Qed.

(** A run that is not over goes on. *)
Lemma at_step_goes n s : at_step n s → s.(life_of) = Alive → ∃ s', step s s'.
Proof.
  intros Hs Hal.
  assert (∀ t l a, s.(threads) !! t = Some (plain (Active l)) → lucky (Go t a) → is_Some (perform t a (code strerror address t l) s) → ∃ s', step s s') as Hgo.
  { intros t l a Ht Ha [s' E]. exists s', (Go t a). split; [done|]. unfold take_turn. by rewrite decide_True, Ht. }
  destruct Hs as [-> ->|t m c' lm nm lc h b nc Ht Hth Hli Hm Hc Hn Hlm Hlc Hh Hb|t m lm h nm Ht Hth Hli Hm Hn Hlm Hlc Hh|t Ht Hn Hli].
  - apply (Hgo M Start (Made (fresh ({[M]} : gset Z)))); [apply lookup_singleton_eq|done|]. cbn [code perform].
    rewrite decide_True; [by eexists|]. apply lookup_singleton_None. intros E.
    pose proof (is_fresh ({[M]} : gset Z)) as H. rewrite <-E in H. set_solver.
  - destruct c' as [c'|].
    + apply (Hgo t c' Ok); [rewrite Hth; by apply pair_lookup_snd|done|].
      destruct c' as [| | | | | | | | | | |  | |[|[|k]|]|[|[|k]|]|[|[|k]|]]; try done; cbn [code perform]; try by eexists.
      injection Hc as <- <- <- <-. rewrite Hh, lookup_singleton_eq. by eexists.
    + apply (Hgo M m Ok); [rewrite Hth; by rewrite lookup_insert_eq|done|].
      destruct m as [| |i t'|t'| | | | | | | | | | | |]; try done; cbn [main_at] in Hm; case_decide as Hd; try done; cbn [code perform].
      * case_decide; by eexists.
      * subst. rewrite Hth, pair_lookup_snd by done. cbn. rewrite decide_False by done. by eexists.
  - apply (Hgo M m Ok); [rewrite Hth; apply lookup_singleton_eq|done|].
    destruct m as [| | | | |[[|[|k]|]|]|[[|[|k]|]|] ?|[[|[|k]|]|]|[[|[|k]|]|]| | | | | | |]; try done; cbn [code perform]; try by eexists.
    + injection Hm as <- <- <-. rewrite Hh, lookup_singleton_eq. by eexists.
    + injection Hm as <- <- <-. rewrite Hh, lookup_singleton_eq. rewrite decide_True by done. by eexists.
  - by rewrite Hli in Hal.
Qed.
End join.

(** ** pthread_exit.c: the child outlives [main] *)
Section exit.
Import ExitC.
Variables (strerror : Z → bytes) (M : Z).

#[local] Abbreviation step := (tstep (code strerror) lucky).

Definition main_id : bytes := line (B "main thread id: " ++ dec M).

(** What a thread has printed at [l]; [None] when it has ended. *)
Definition child_said (t : Z) (l : option local) : option (list bytes) :=
  match l with Some Hello => Some [] | Some Back | None => Some [child_id t] | _ => None end.
Definition main_said (l : option local) : option (list bytes) :=
  match l with
  | Some (For i) => if decide (i ≤ 5) then Some (counted i) else None
  | Some Done | None => Some (counted 5 ++ [main_id])
  | _ => None
  end.

Definition stands (l : option local) : thread local :=
  Thread (match l with Some l => Active l | None => Ended Null end) false false.

Inductive xinv (s : process local) : Prop :=
| xi_start : s = ExitC.main M → xinv s
| xi_both t m c :
    t ≠ M → s.(threads) = {[M := stands m; t := stands c]} →
    main_said m = Some (lines_of M s) → child_said t c = Some (lines_of t s) →
    s.(life_of) = (if decide (m = None ∧ c = None) then Exit_process 0 else Alive) → xinv s.

(** One of the two threads ends. *)
Lemma leave_pair s a b x y v :
  b ≠ a → s.(threads) = {[a := stands x; b := stands y]} →
  leave a v s = let s' := put_thread a (Thread (Ended v) false false) s in
                if decide (y = None) then set_life (Exit_process 0) s' else s'.
Proof.
  intros Hne Hth. unfold leave. rewrite Hth, lookup_insert_eq. cbn [stands t_detached t_cancelled put_thread threads].
  rewrite Hth, pair_fst. destruct (decide (y = None)) as [->|Hy].
  - rewrite decide_False; [done|]. rewrite pair_active by done. cbn. by intros [].
  - rewrite decide_True; [done|]. apply pair_active; [done|]. right. by destruct y.
Qed.

(** The steps of [main], and of the child. *)
Lemma exit_main_step s t m c a s' :
  t ≠ M → s.(threads) = {[M := stands (Some m); t := stands c]} → main_said (Some m) = Some (lines_of M s) →
  child_said t c = Some (lines_of t s) → s.(life_of) = Alive → perform M a (code strerror M m) s = Some s' → xinv s'.
Proof.
  intros Ht Hth Hm Hc Hli E. assert (s.(threads) !! M = Some (stands (Some m))) as Hlk by (rewrite Hth; by rewrite lookup_insert_eq).
  assert (∀ d m', main_said (Some m') = Some (lines_of M s ++ [d]) → xinv (resume M m' (utter M d s))) as Hsay.
  { intros d m' Hm'. erewrite resume_eq by exact Hlk. apply (xi_both _ t (Some m') c); [done|cbn; by rewrite Hth, pair_fst|..].
    - change (main_said (Some m') = Some (lines_of M (utter M d s))). by rewrite lines_utter, decide_True.
    - change (child_said t c = Some (lines_of t (utter M d s))). by rewrite lines_utter, decide_False, app_nil_r.
    - cbn. rewrite decide_False; [done|]. by intros []. }
  destruct m as [| |i| | |]; try done; cbn [main_said] in Hm; cbn [code] in E.
  - destruct (decide (i ≤ 5)) as [Hi|]; [|done]. injection Hm as Hm. destruct (decide (i < 5)); cbn [perform] in E; injection E as <-; apply Hsay; rewrite <-Hm.
    + cbn [main_said]. rewrite decide_True by lia. by rewrite counted_S.
    + cbn [main_said]. by replace i with 5 by lia.
  - cbn [perform] in E. injection E as <-. rewrite (leave_pair s M t (Some Done) c Null Ht Hth). cbn zeta.
    case_decide as Hc'; (apply (xi_both _ t None c); [done|cbn; by rewrite Hth, pair_fst|done|done|]); cbn.
    + by rewrite decide_True.
    + by rewrite decide_False by by intros [].
Qed.

Lemma exit_child_step s t m c a s' :
  t ≠ M → s.(threads) = {[M := stands m; t := stands (Some c)]} → main_said m = Some (lines_of M s) →
  child_said t (Some c) = Some (lines_of t s) → s.(life_of) = Alive → perform t a (code strerror t c) s = Some s' → xinv s'.
Proof.
  intros Ht Hth Hm Hc Hli E. assert (s.(threads) !! t = Some (stands (Some c))) as Hlk by (rewrite Hth; by apply pair_lookup_snd).
  destruct c; try done; cbn [code perform] in E; injection E as <-.
  - erewrite resume_eq by exact Hlk. injection Hc as Hc.
    apply (xi_both _ t m (Some Back)); [done|cbn; by rewrite Hth, pair_snd|..].
    + change (main_said m = Some (lines_of M (utter t (child_id t) s))). by rewrite lines_utter, decide_False, app_nil_r.
    + change (child_said t (Some Back) = Some (lines_of t (utter t (child_id t) s))). by rewrite lines_utter, decide_True, <-Hc.
    + cbn. rewrite decide_False; [done|]. by intros [].
  - rewrite (pair_comm M t) in Hth by done. rewrite (leave_pair s t M (Some Back) m Null (not_eq_sym Ht) Hth). cbn zeta.
    case_decide as Hc'; (apply (xi_both _ t m None); [done|cbn; by rewrite Hth, pair_fst, pair_comm|done|done|]); cbn.
    + by rewrite decide_True.
    + by rewrite decide_False by by intros [].
Qed.

Lemma xinv_next s s' : xinv s → step s s' → xinv s'.
Proof.
  intros Hs (c & Hok & E). unfold take_turn in E. set (t0 := match c with Go t _ => t | Perish t => t end) in E.
  case_decide as Hal; [|done]. destruct (threads s !! t0) as [x|] eqn:Hx; [|done].
  destruct (t_state x) as [l|] eqn:Hl; [|done].
  assert (t_cancelled x = false → ∃ a, lucky (Go t0 a) ∧ perform t0 a (code strerror t0 l) s = Some s') as HE.
  { intros Hc. destruct c as [t a|t]; [by exists a|]. by rewrite Hc in E. }
  clear E. destruct Hs as [->|t m c' Ht Hth Hm Hc Hli].
  - cbn [ExitC.main new_process threads] in Hx. apply lookup_singleton_Some in Hx as [<- <-].
    destruct (HE eq_refl) as (a & Ha & E). injection Hl as <-. cbn [code perform] in E. destruct a as [|t|]; [done| |done].
    case_decide as Hd; [|done]. injection E as <-. cbn in Hd.
    assert (t ≠ M) as Ht. { intros E. rewrite E, lookup_singleton_eq in Hd. done. }
    erewrite resume_eq by (cbn; rewrite lookup_insert_ne by done; apply lookup_singleton_eq).
    apply (xi_both _ t (Some (For 0)) (Some Hello)); [done| |done|done|done].
    apply map_eq. intros c'. cbn. rewrite !lookup_insert, !lookup_singleton. repeat case_decide; first [done|congruence].
  - rewrite Hth in Hx. apply pair_lookup in Hx as [[E0 ->]|[E0 ->]]; [| |done]; rewrite E0 in *; destruct (HE eq_refl) as (a & Ha & E); clear HE.
    + destruct m as [m|]; [|done]. injection Hl as <-. by eapply exit_main_step.
    + destruct c' as [l'|]; [|done]. injection Hl as <-. by eapply exit_child_step.
Qed.

Lemma xinv_reach s : treach (code strerror) lucky (ExitC.main M) s → xinv s.
Proof. intros H. eapply (treach_invariant _ _ xinv); [exact H|by apply xi_start|intros ? ?; apply xinv_next]. Qed.
End exit.

(** ** pthread_cancel.c: the output of the cancelled thread *)
Section cancel.
Import CancelC.
Variables (strerror : Z → bytes) (M : Z).

#[local] Abbreviation step := (tstep (code strerror) (λ _, True)).

(** What [callback] has printed before round [i]. *)
Definition callback_lines (t : Z) (i : nat) : list bytes :=
  line (B "child thread: " ++ dec t) :: map (λ i, line (B "child thread : " ++ dec (Z.of_nat i))) (seq 0 i).

Definition callback_said (t : Z) (l : local) (ls : list bytes) : Prop :=
  match l with Hello => ls = [] | Loop i => i ≤ rounds ∧ ls = callback_lines t i | _ => False end.

(** A thread other than [main]: where it is, what it has printed; an end
    before the last round is a cancellation. *)
Definition callback_ok (t : Z) (x : option (thread local)) (ls : list bytes) : Prop :=
  match x with
  | Some (Thread (Active l) d _) => d = false ∧ callback_said t l ls
  | Some (Thread (Ended v) _ c) =>
      v = Null ∧ ls = callback_lines t rounds
      ∨ v = PTHREAD_CANCELED ∧ c = true ∧ (ls = [] ∨ ∃ i, i ≤ rounds ∧ ls = callback_lines t i)
  | None => ls = []
  end.

Definition is_main (l : local) : bool := match l with Hello | Loop _ => false | _ => true end.

Record cinv (s : process local) : Prop := {
  ci_main : ∃ x, s.(threads) !! M = Some x ∧ x.(t_detached) = false ∧ ∀ l, x.(t_state) = Active l → is_main l = true;
  ci_child : ∀ t, t ≠ M → callback_ok t (s.(threads) !! t) (lines_of t s)
}.

Lemma callback_lines_S t i : callback_lines t (S i) = callback_lines t i ++ [line (B "child thread : " ++ dec (Z.of_nat i))].
Proof. unfold callback_lines. by rewrite seq_S, map_app. Qed.

(** Ending, or the verdict that the process is over, touches one thread. *)
Lemma leave_threads (s : process local) t v x :
  s.(threads) !! t = Some x → x.(t_detached) = false →
  (leave t v s).(threads) = <[t := Thread (Ended v) false x.(t_cancelled)]> s.(threads) ∧ (leave t v s).(said) = s.(said).
Proof. intros Hx Hd. unfold leave. rewrite Hx, Hd. cbn zeta. case_decide; done. Qed.

(** A step of [main] that leaves the others alone, and one of another thread. *)
Lemma cinv_main s s' x :
  cinv s → s'.(threads) = <[M := x]> s.(threads) → x.(t_detached) = false → (∀ l, x.(t_state) = Active l → is_main l = true) →
  (∀ t, t ≠ M → lines_of t s' = lines_of t s) → cinv s'.
Proof.
  intros [Hm Hc] Hth Hd Hx Hl. split.
  - exists x. rewrite Hth. by rewrite lookup_insert_eq.
  - intros t Ht. rewrite Hth, lookup_insert_ne, Hl by done. by apply Hc.
Qed.

Lemma cinv_child s s' c x :
  cinv s → c ≠ M → s'.(threads) = <[c := x]> s.(threads) → callback_ok c (Some x) (lines_of c s') →
  (∀ t, t ≠ c → lines_of t s' = lines_of t s) → cinv s'.
Proof.
  intros [Hm Hc] Hne Hth Hx Hl. split.
  - rewrite Hth, lookup_insert_ne by done. done.
  - intros t Ht. rewrite Hth. destruct (decide (t = c)) as [->|]; [by rewrite lookup_insert_eq|].
    rewrite lookup_insert_ne, Hl by done. by apply Hc.
Qed.

Lemma cinv_says s t d l x :
  s.(threads) !! t = Some x → (t = M → is_main l = true) → (t ≠ M → callback_ok t (Some (Thread (Active l) x.(t_detached) x.(t_cancelled))) (lines_of t s ++ [d])) →
  x.(t_detached) = false → cinv s → cinv (resume t l (utter t d s)).
Proof.
  intros Hx Hm Hc Hd Hs. erewrite resume_eq by exact Hx.
  assert (∀ t', t' ≠ t → lines_of t' (utter t d s) = lines_of t' s) as Hl.
  { intros t' Hne. by rewrite lines_utter, decide_False, app_nil_r. }
  destruct (decide (t = M)) as [->|Hne].
  - eapply (cinv_main s); [done|reflexivity|done| |exact Hl]. intros l' [= <-]. by apply Hm.
  - eapply (cinv_child s _ t); [done|done|reflexivity| |exact Hl].
    change (callback_ok t (Some (Thread (Active l) x.(t_detached) x.(t_cancelled))) (lines_of t (utter t d s))).
    rewrite lines_utter, decide_True by done. by apply Hc.
Qed.

(** The two steps of [main] that reach another thread. *)
Lemma cinv_creates s x a s' :
  cinv s → s.(threads) !! M = Some x → x.(t_detached) = false → perform M a (code strerror M Start) s = Some s' → cinv s'.
Proof.
  intros Hs Hx Hd E. cbn [code perform] in E. destruct a as [|c|err junk]; [done|..].
  - case_decide as Hf; [|done]. injection E as <-. assert (c ≠ M) as Hc by congruence.
    assert (cinv (put_thread c (Thread (Active Hello) false false) s)) as Hs'.
    { eapply (cinv_child s _ c); [done|done|reflexivity| |done]. pose proof (ci_child _ Hs c Hc) as H. rewrite Hf in H. by split. }
    erewrite resume_eq by (cbn; by rewrite lookup_insert_ne). eapply (cinv_main _ _ _ Hs'); [reflexivity|done| |done].
    by intros l [= <-].
  - destruct (err =? 0)%Z; [done|]. injection E as <-. erewrite resume_eq by done.
    eapply (cinv_main _ _ _ Hs); [reflexivity|done| |done]. by intros l [= <-].
Qed.

Lemma cinv_cancels s x tid a s' :
  cinv s → s.(threads) !! M = Some x → x.(t_detached) = false →
  perform M a (code strerror M (Cancelling tid)) s = Some s' → cinv s'.
Proof.
  intros Hs Hx Hd E. assert (∀ l y s0, cinv s0 → s0.(threads) !! M = Some y → is_main l = true → cinv (resume M l s0)) as Hres.
  { intros l y s0 Hs0 Hy Hl. erewrite resume_eq by exact Hy. destruct (ci_main _ Hs0) as (y' & Hy' & Hd' & _).
    eapply (cinv_main s0); [done|reflexivity|cbn; congruence| |done]. by intros l' [= <-]. }
  cbn [code perform] in E. destruct (threads s !! tid) as [[st d c]|] eqn:Ht.
  2:{ injection E as <-. destruct Hs. by split. }
  cbn [t_state t_detached] in E. destruct st as [l|v].
  - injection E as <-. set (s0 := put_thread tid (Thread (Active l) d true) s). destruct (decide (tid = M)) as [->|Hne].
    + eapply (Hres _ (Thread (Active l) d true)); [|cbn; apply lookup_insert_eq|done].
      rewrite Ht in Hx. injection Hx as <-. destruct (ci_main _ Hs) as (y & Hy & Hyd & Hl). rewrite Ht in Hy. injection Hy as <-.
      by eapply (cinv_main s); [done|reflexivity|..].
    + eapply (Hres _ x); [|cbn; by rewrite lookup_insert_ne|done]. eapply (cinv_child s _ tid); [done|done|reflexivity| |done].
      pose proof (ci_child _ Hs tid Hne) as H. by rewrite Ht in H.
  - destruct a; injection E as <-; by eapply Hres.
Qed.

Lemma cinv_child_step s t x l a s' :
  cinv s → t ≠ M → s.(threads) !! t = Some x → x.(t_state) = Active l → perform t a (code strerror t l) s = Some s' → cinv s'.
Proof.
  intros Hs Ht Hx Hl E. pose proof (ci_child _ Hs t Ht) as Hc. rewrite Hx in Hc. destruct x as [st d c]. cbn in Hl. subst st.
  destruct Hc as [-> Hc]. destruct l as [| | | | | | |i]; try done; cbn [callback_said] in Hc; cbn [code] in E.
  - injection E as <-. eapply cinv_says; try done. intros _. split; [done|]. cbn [callback_said]. split; [lia|]. by rewrite Hc.
  - destruct Hc as [Hi Hc]. destruct (decide (i < rounds)); cbn [perform] in E; injection E as <-.
    + eapply cinv_says; try done. intros _. split; [done|]. cbn [callback_said]. rewrite Hc, callback_lines_S. by split; [lia|].
    + destruct (leave_threads s t Null _ Hx eq_refl) as [H1 H2].
      assert (∀ t', lines_of t' (leave t Null s) = lines_of t' s) as H3 by (intros; unfold lines_of; by rewrite H2).
      eapply (cinv_child s _ t); [done|done|exact H1| |done]. left. split; [done|]. rewrite H3, Hc. f_equal. lia.
Qed.

Lemma cinv_perish s t x l :
  cinv s → s.(threads) !! t = Some x → x.(t_state) = Active l → x.(t_cancelled) = true → cinv (leave t PTHREAD_CANCELED s).
Proof.
  intros Hs Hx Hl Hcan. assert (x.(t_detached) = false) as Hd.
  { destruct (decide (t = M)) as [->|Ht]; [destruct (ci_main _ Hs) as (y & Hy & Hyd & _); congruence|].
    pose proof (ci_child _ Hs t Ht) as Hc. rewrite Hx in Hc. destruct x as [st d c]. cbn in Hl. subst st. apply Hc. }
  destruct (leave_threads s t PTHREAD_CANCELED x Hx Hd) as [H1 H2].
  assert (∀ t', lines_of t' (leave t PTHREAD_CANCELED s) = lines_of t' s) as H3 by (intros; unfold lines_of; by rewrite H2).
  destruct (decide (t = M)) as [->|Ht]; [by eapply (cinv_main s); [done|exact H1|..]|].
  eapply (cinv_child s _ t); [done|done|exact H1| |done]. right. split_and!; [done|done|]. rewrite H3.
  pose proof (ci_child _ Hs t Ht) as Hc. rewrite Hx in Hc. destruct x as [st d c]. cbn in Hl. subst st. destruct Hc as [_ Hc].
  destruct l; try done; [by left|]. right. eauto.
Qed.

Lemma cinv_next s s' : cinv s → step s s' → cinv s'.
Proof.
  intros Hs (c & _ & E). unfold take_turn in E. destruct c as [t a|t]; case_decide; try done;
    (destruct (threads s !! t) as [x|] eqn:Hx; [|done]); (destruct (t_state x) as [l|] eqn:Hl; [|done]).
  2:{ destruct (t_cancelled x) eqn:Hc; [|done]. destruct (cancellation_point _); [|done]. injection E as <-. by eapply cinv_perish. }
  destruct (decide (t = M)) as [->|Ht]; [|by eapply cinv_child_step].
  destruct (ci_main _ Hs) as (y & Hy & Hd & Hmain). rewrite Hx in Hy. injection Hy as <-. specialize (Hmain l Hl).
  destruct l; try done; [by eapply cinv_creates| | |by eapply cinv_cancels| |].
  1-3: (injection E as <-; by eapply cinv_says).
  cbn [code] in E. case_decide; cbn [perform] in E; injection E as <-; [by eapply cinv_says|].
  destruct (leave_threads s M Null x Hx Hd) as [H1 H2]. eapply (cinv_main s); [done|exact H1|done|done|].
  intros t _. unfold lines_of. by rewrite H2.
Qed.

Lemma cinv_reach s : treach (code strerror) (λ _, True) (CancelC.main M) s → cinv s.
Proof.
  intros H. eapply (treach_invariant _ _ cinv); [exact H| |intros ? ?; apply cinv_next]. split.
  - exists (Thread (Active Start) false false). cbn. rewrite lookup_singleton_eq. split; [done|]. split; [done|]. by intros l [= <-].
  - intros t Ht. cbn. by rewrite lookup_singleton_ne.
Qed.
End cancel.

(** ** Properties *)

(** pthread_join.c, when [pthread_create] and [malloc] succeed, for every
    interleaving: a run has at most nineteen steps and none is undefined; a
    process that has not ended can go on, so [main] does not wait for ever; and
    at the end the child has printed its lines, [main] has received 10 at the
    address the child printed, and the memory has been freed. *)
Theorem join_hands_over strerror address M n s :
  nsteps (tstep (JoinC.code strerror address) lucky) n (JoinC.main M) s →
  n ≤ 19 ∧ s.(life_of) ≠ Undefined
  ∧ (s.(life_of) = Alive → ∃ s', tstep (JoinC.code strerror address) lucky s s')
  ∧ (∀ code, s.(life_of) = Exit_process code → code = 0%Z ∧ s.(heap) = ∅ ∧ ∃ t, t ≠ M
       ∧ lines_of M s = map count_line (seq 0 5) ++ [tid_line t M; line (B "exit data: 10");
           line (B "main thread, value address: " ++ dec (address (Cell 0))); line (B "回收子线程资源成功！")]
       ∧ lines_of t s = [line (B "child thread id: " ++ dec t); line (B "child thread, value address: " ++ dec (address (Cell 0)))]).
Proof.
  intros H. apply at_step_reach in H. pose proof (at_step_goes strerror _ _ _ _ H) as Hgo. split_and!; [| |done|].
  - destruct H as [-> _|t m c lm nm lc h b nc _ _ _ Hm Hc -> _|t m lm h nm _ _ _ Hm -> _|t _ -> _]; [lia|..|lia].
    + assert (nm ≤ 7 ∧ nc ≤ 5) by (split; [destruct m|destruct c as [[]|]]; cbn in Hm, Hc; repeat case_match; simplify_eq; lia). lia.
    + assert (nm ≤ 13) by (destruct m; cbn in Hm; repeat case_match; simplify_eq; lia). lia.
  - destruct H as [_ ->|t m c lm nm lc h b nc _ _ Hl|t m lm h nm _ _ Hl|t _ _ Hl]; by rewrite ?Hl.
  - intros code Hx. destruct H as [_ ->|t m c lm nm lc h b nc _ _ Hl|t m lm h nm _ _ Hl|t Ht _ Hl Hh Hm Hc]; [done|congruence..|].
    rewrite Hx in Hl. injection Hl as ->. split; [done|]. split; [done|]. exists t. done.
Qed.

(** The child runs first; [main] follows. *)
Definition join_turns : list turn := Go 1 (Made 2) :: replicate 5 (Go 2 Ok) ++ replicate 13 (Go 1 Ok).

Lemma join_hands_over_witness :
  ∃ s, all_turns (JoinC.code (λ _, []) (λ _, 64%Z)) join_turns (JoinC.main 1) = Some s
    ∧ s.(life_of) = Exit_process 0 ∧ s.(heap) = ∅ ∧ length (lines_of 1 s) = 9 ∧ 19 ≤ 19.
Proof.
  destruct (all_turns (JoinC.code (λ _, []) (λ _, 64%Z)) join_turns (JoinC.main 1)) as [s|] eqn:E; [|by vm_compute in E].
  exists s. split; [reflexivity|]. assert (Forall lucky join_turns) as Hok by (repeat constructor).
  pose proof (all_turns_nsteps _ lucky _ _ _ Hok E) as H. apply join_hands_over in H as (H1 & _ & _ & H2).
  assert (s.(life_of) = Exit_process 0) as Hl by (vm_compute in E; injection E as <-; reflexivity).
  destruct (H2 _ Hl) as (_ & Hh & t & _ & Hm & _). split; [exact Hl|]. split; [exact Hh|]. split; [|exact H1].
  rewrite Hm. reflexivity.
Defined.

(** When the thread cannot be created, the error is printed and the program goes
    on to join what the variable [tid] happens to hold; when [malloc] fails, the
    child stores through NULL. *)
Lemma join_after_failure strerror address :
  (run_turns (JoinC.code strerror address) (Go 1 (Failed 11 0) :: replicate 8 (Go 1 Ok)) (JoinC.main 1)).(life_of) = Undefined
  ∧ (run_turns (JoinC.code strerror address) [Go 1 (Made 2); Go 2 Ok; Go 2 (Failed 12 0); Go 2 Ok] (JoinC.main 1)).(life_of) = Undefined.
Proof. split; vm_compute; reflexivity. Qed.

(** pthread_exit.c, when [pthread_create] succeeds, for every interleaving: the
    end of [main] does not end the child; the process ends, with status 0, when
    both threads have printed all their lines. *)
Lemma exit_waits_for_child strerror M s code :
  treach (ExitC.code strerror) lucky (ExitC.main M) s → s.(life_of) = Exit_process code →
  code = 0%Z ∧ ∃ t, t ≠ M ∧ lines_of M s = map count_line (seq 0 5) ++ [line (B "main thread id: " ++ dec M)]
    ∧ lines_of t s = [line (B "child thread id: " ++ dec t)].
Proof.
  intros H Hl. apply xinv_reach in H. destruct H as [->|t m c Ht Hth Hm Hc Hli]; [done|].
  case_decide as Hd; [|congruence]. destruct Hd as [-> ->]. split; [congruence|]. exists t.
  injection Hm as Hm. injection Hc as Hc. by rewrite <-Hm, <-Hc.
Qed.

(** pthread_create.c: the return of [main] ends the process; whether the child
    has printed by then depends on the schedule, its second of sleep does not
    order them. *)
Lemma create_may_cut_child strerror :
  let run cs := run_turns (CreateC.code strerror) cs (CreateC.main 1) in
  let quick := run ([Go 1 Ok; Go 1 (Made 2)] ++ replicate 7 (Go 1 Ok)) in
  let slow := run ([Go 1 Ok; Go 1 (Made 2)] ++ replicate 4 (Go 2 Ok) ++ replicate 7 (Go 1 Ok)) in
  quick.(life_of) = Exit_process 0 ∧ lines_of 2 quick = []
  ∧ slow.(life_of) = Exit_process 0 ∧ lines_of 2 slow = [line (B "child pthread..."); line (B "arg: 10")].
Proof. split_and!; vm_compute; reflexivity. Qed.

(** pthread_detach.c joins the thread it has detached: an error while the thread
    runs, undefined once it has ended. *)
Lemma detach_join_races strerror :
  let run cs := run_turns (DetachC.code strerror) cs (DetachC.main 1) in
  let early := run ([Go 1 (Made 2)] ++ replicate 5 (Go 1 Ok)) in
  (run ([Go 1 (Made 2)] ++ replicate 2 (Go 1 Ok) ++ replicate 2 (Go 2 Ok) ++ [Go 1 Ok])).(life_of) = Undefined
  ∧ early.(life_of) = Alive ∧ lines_of 1 early = [tid_line 2 1; error_line strerror EINVAL].
Proof. split_and!; vm_compute; reflexivity. Qed.

(** pthread_attr.c: the thread is detached from the start and leaves nothing. *)
Lemma attr_leaves_nothing strerror stacksize :
  let s := run_turns (AttrC.code strerror stacksize) ([Go 1 Ok; Go 1 (Made 2); Go 2 Ok; Go 2 Ok] ++ replicate 3 (Go 1 Ok)) (AttrC.main 1) in
  s.(life_of) = Exit_process 0 ∧ s.(threads) !! 2%Z = None
  ∧ lines_of 1 s = [line (B "state : 1"); line (B "thread stack size : " ++ dec stacksize); tid_line 2 1].
Proof. split_and!; vm_compute; reflexivity. Qed.

(** pthread_cancel.c, for every interleaving and every outcome of the calls:
    a thread other than [main] has printed the first lines of [callback] and
    nothing else; it has ended either after all fifty thousand rounds, with the
    value NULL, or by its cancellation, which was requested, with the value
    PTHREAD_CANCELED. *)
Theorem cancel_cuts_output strerror M s t :
  treach (CancelC.code strerror) (λ _, True) (CancelC.main M) s → t ≠ M →
  lines_of t s `prefix_of` callback_lines t CancelC.rounds
  ∧ (∀ x v, s.(threads) !! t = Some x → x.(t_state) = Ended v →
       v = Null ∧ lines_of t s = callback_lines t CancelC.rounds ∨ v = PTHREAD_CANCELED ∧ x.(t_cancelled) = true).
Proof.
  intros H Ht. apply cinv_reach in H. pose proof (ci_child _ _ H t Ht) as Hc.
  assert (∀ i, i ≤ CancelC.rounds → callback_lines t i `prefix_of` callback_lines t CancelC.rounds) as Hpre.
  { intros i Hi. unfold callback_lines. apply prefix_cons. replace CancelC.rounds with (i + (CancelC.rounds - i)) by lia.
    rewrite seq_app, map_app. by apply prefix_app_r. }
  assert (∀ ls : list bytes, ls = [] → ls `prefix_of` callback_lines t CancelC.rounds) as Hnil by (intros ls ->; apply prefix_nil).
  destruct (threads s !! t) as [[[l|v] d c]|]; cbn [callback_ok] in Hc.
  - destruct Hc as [-> Hc]. split; [|by intros x v [= <-]]. destruct l; try done; [by apply Hnil|]. destruct Hc as [Hi ->]. by apply Hpre.
  - split.
    + destruct Hc as [[_ ->]|(_ & _ & [->|(i & Hi & ->)])]; [done|apply prefix_nil|by apply Hpre].
    + intros x w [= <-] [= <-]. destruct Hc as [[-> Hc]|(-> & -> & _)]; [by left|by right].
  - split; [by apply Hnil|]. by intros x v [=].
Qed.

(** The child is cancelled after its second line. *)
Definition cancel_turns : list turn :=
  [Go 1 (Made 2); Go 2 Ok; Go 1 Ok; Go 1 Ok; Go 2 Ok; Perish 2].

Lemma cancel_cuts_output_witness :
  let s := run_turns (CancelC.code (λ _, [])) cancel_turns (CancelC.main 1) in
  lines_of 2 s = callback_lines 2 1 ∧ lines_of 2 s `prefix_of` callback_lines 2 CancelC.rounds.
Proof.
  split; [vm_compute; reflexivity|]. apply (cancel_cuts_output (λ _, []) 1 _ 2); [|lia].
  apply run_turns_reach. repeat constructor.
Defined.
