(* ===== verification/Webbench.v ===== *)
(** * The load generator of the web server

    webServer/test_presure/webbench-1.5: [webbench.c] and the [socket.c] it
    includes.  The global variables are a record that the functions thread;
    the system calls are those of the world of a process.  [getopt_long] is
    not modelled: [main] takes the options it reports, in order, and the first
    argument that is no option.  Host names are resolved by parameters. *)
From Stdlib Require SpecFloat.
From S2P Require Import Prelude CString HttpConn Posix NetBytes Sockets.

Module Webbench.

(** ** The C string functions used here only *)

(** Index of the first occurrence of [t] in [s]. *)
Fixpoint strstr (s t : bytes) : option nat :=
  if bool_decide (take (length t) s = t) then Some 0
  else match s with [] => None | _ :: k => S <$> strstr k t end.

(** Length of the prefix of [s] without a character of [set]. *)
Definition strcspn (s set : bytes) : nat := default (length s) (strpbrk s set).

(** Index of the last [c] in [s]. *)
Fixpoint strrchr (s : bytes) (c : ascii) : option nat :=
  match s with
  | [] => None
  | x :: k => match strrchr k c with
              | Some n => Some (S n)
              | None => if Ascii.eqb x c then Some 0 else None
              end
  end.

(** Stores into an array; a store past its end is undefined. *)
Definition store_at (p : nat) (d buf : bytes) : M bytes :=
  if decide (p + length d ≤ length buf) then mret (store p d buf) else undefined.
Definition strcpy (buf s : bytes) : M bytes := store_at 0 (s ++ [NUL]) buf.
Definition strcat (buf s : bytes) : M bytes :=
  t ← c_string buf; store_at (length t) (s ++ [NUL]) buf.
(** [strncpy(buf, s, n)] writes [n] bytes. *)
Definition strncpy_to (buf s : bytes) (n : nat) : M bytes := store_at 0 (strncpy s n) buf.

(** ** The global variables *)

Inductive METHOD := METHOD_GET | METHOD_HEAD | METHOD_OPTIONS | METHOD_TRACE.
#[export] Instance METHOD_eq_dec : EqDecision METHOD.
Proof. solve_decision. Defined.

Definition MAXHOSTNAMELEN : nat := 64.
Definition REQUEST_SIZE : nat := 2048.

Record globals := Globals {
  timerexpired : bool  (* set by the handler of SIGALRM *);
  speed : Z  (* pages fetched *);
  failed : Z  (* requests that failed *);
  gbytes : Z  (* bytes read *);
  http10 : Z  (* 0 for HTTP/0.9, 1 for HTTP/1.0, 2 for HTTP/1.1 *);
  wmethod : METHOD;
  clients : Z;
  force : bool;
  force_reload : bool;
  proxyport : Z;
  proxyhost : option bytes  (* None for NULL *);
  benchtime : Z;
  whost : bytes  (* MAXHOSTNAMELEN bytes *);
  wrequest : bytes  (* REQUEST_SIZE bytes *)
}.

Definition set_timerexpired (v : bool) (g : globals) : globals :=
  Globals v g.(speed) g.(failed) g.(gbytes) g.(http10) g.(wmethod) g.(clients) g.(force) g.(force_reload) g.(proxyport) g.(proxyhost) g.(benchtime) g.(whost) g.(wrequest).
Definition set_speed (v : Z) (g : globals) : globals :=
  Globals g.(timerexpired) v g.(failed) g.(gbytes) g.(http10) g.(wmethod) g.(clients) g.(force) g.(force_reload) g.(proxyport) g.(proxyhost) g.(benchtime) g.(whost) g.(wrequest).
Definition set_failed (v : Z) (g : globals) : globals :=
  Globals g.(timerexpired) g.(speed) v g.(gbytes) g.(http10) g.(wmethod) g.(clients) g.(force) g.(force_reload) g.(proxyport) g.(proxyhost) g.(benchtime) g.(whost) g.(wrequest).
Definition set_gbytes (v : Z) (g : globals) : globals :=
  Globals g.(timerexpired) g.(speed) g.(failed) v g.(http10) g.(wmethod) g.(clients) g.(force) g.(force_reload) g.(proxyport) g.(proxyhost) g.(benchtime) g.(whost) g.(wrequest).
Definition set_http10 (v : Z) (g : globals) : globals :=
  Globals g.(timerexpired) g.(speed) g.(failed) g.(gbytes) v g.(wmethod) g.(clients) g.(force) g.(force_reload) g.(proxyport) g.(proxyhost) g.(benchtime) g.(whost) g.(wrequest).
Definition set_wmethod (v : METHOD) (g : globals) : globals :=
  Globals g.(timerexpired) g.(speed) g.(failed) g.(gbytes) g.(http10) v g.(clients) g.(force) g.(force_reload) g.(proxyport) g.(proxyhost) g.(benchtime) g.(whost) g.(wrequest).
Definition set_clients (v : Z) (g : globals) : globals :=
  Globals g.(timerexpired) g.(speed) g.(failed) g.(gbytes) g.(http10) g.(wmethod) v g.(force) g.(force_reload) g.(proxyport) g.(proxyhost) g.(benchtime) g.(whost) g.(wrequest).
Definition set_force (v : bool) (g : globals) : globals :=
  Globals g.(timerexpired) g.(speed) g.(failed) g.(gbytes) g.(http10) g.(wmethod) g.(clients) v g.(force_reload) g.(proxyport) g.(proxyhost) g.(benchtime) g.(whost) g.(wrequest).
Definition set_force_reload (v : bool) (g : globals) : globals :=
  Globals g.(timerexpired) g.(speed) g.(failed) g.(gbytes) g.(http10) g.(wmethod) g.(clients) g.(force) v g.(proxyport) g.(proxyhost) g.(benchtime) g.(whost) g.(wrequest).
Definition set_proxyport (v : Z) (g : globals) : globals :=
  Globals g.(timerexpired) g.(speed) g.(failed) g.(gbytes) g.(http10) g.(wmethod) g.(clients) g.(force) g.(force_reload) v g.(proxyhost) g.(benchtime) g.(whost) g.(wrequest).
Definition set_proxyhost (v : option bytes) (g : globals) : globals :=
  Globals g.(timerexpired) g.(speed) g.(failed) g.(gbytes) g.(http10) g.(wmethod) g.(clients) g.(force) g.(force_reload) g.(proxyport) v g.(benchtime) g.(whost) g.(wrequest).
Definition set_benchtime (v : Z) (g : globals) : globals :=
  Globals g.(timerexpired) g.(speed) g.(failed) g.(gbytes) g.(http10) g.(wmethod) g.(clients) g.(force) g.(force_reload) g.(proxyport) g.(proxyhost) v g.(whost) g.(wrequest).
Definition set_whost (v : bytes) (g : globals) : globals :=
  Globals g.(timerexpired) g.(speed) g.(failed) g.(gbytes) g.(http10) g.(wmethod) g.(clients) g.(force) g.(force_reload) g.(proxyport) g.(proxyhost) g.(benchtime) v g.(wrequest).
Definition set_wrequest (v : bytes) (g : globals) : globals :=
  Globals g.(timerexpired) g.(speed) g.(failed) g.(gbytes) g.(http10) g.(wmethod) g.(clients) g.(force) g.(force_reload) g.(proxyport) g.(proxyhost) g.(benchtime) g.(whost) v.

Definition initial : globals :=
  Globals false 0 0 0 1 METHOD_GET 1 false false 80 None 30
    (replicate MAXHOSTNAMELEN NUL) (replicate REQUEST_SIZE NUL).

Definition is_null {A} (o : option A) : bool := match o with None => true | Some _ => false end.

(** ** The request *)

Definition PROGRAM_VERSION := B "1.5".

Definition method_name (m : METHOD) : bytes :=
  match m with
  | METHOD_GET => B "GET" | METHOD_HEAD => B "HEAD"
  | METHOD_OPTIONS => B "OPTIONS" | METHOD_TRACE => B "TRACE"
  end.

(** The protocol the method and the options need at least. *)
Definition raise_protocol (g : globals) : globals :=
  let g := if g.(force_reload) && negb (is_null g.(proxyhost)) && (g.(http10) <? 1)%Z
           then set_http10 1 g else g in
  let g := if bool_decide (g.(wmethod) = METHOD_HEAD) && (g.(http10) <? 1)%Z then set_http10 1 g else g in
  let g := if bool_decide (g.(wmethod) = METHOD_OPTIONS) && (g.(http10) <? 2)%Z then set_http10 2 g else g in
  if bool_decide (g.(wmethod) = METHOD_TRACE) && (g.(http10) <? 2)%Z then set_http10 2 g else g.

(** [if (c) strcat(buf, s);] *)
Definition strcat_if (c : bool) (buf s : bytes) : M bytes := if c then strcat buf s else mret buf.

(** The host, and the port if there is one, of [rest], the URL after [://],
    into [host] and [proxyport]. *)
Definition take_host (rest : bytes) (g : globals) : M globals :=
  match strchr rest ":"%char, strchr rest "/"%char with
  | Some a, Some b =>
      if (a <? b)%nat then
        h ← strncpy_to g.(whost) rest a;
        tmp ← strncpy_to (replicate 10 NUL) (drop (a + 1) rest) (b - a - 1);
        s ← c_string tmp;
        let port := atoi s in
        mret (set_proxyport (if (port =? 0)%Z then 80%Z else port) (set_whost h g))
      else
        h ← strncpy_to g.(whost) rest (strcspn rest (B "/"));
        mret (set_whost h g)
  | _, _ =>
      h ← strncpy_to g.(whost) rest (strcspn rest (B "/"));
      mret (set_whost h g)
  end.

(** The protocol, the header lines and the empty line, appended to [rq]. *)
Definition finish_request (g : globals) (rq : bytes) : M bytes :=
  rq ← (if (g.(http10) =? 1)%Z then strcat rq (B " HTTP/1.0")
        else if (g.(http10) =? 2)%Z then strcat rq (B " HTTP/1.1") else mret rq);
  rq ← strcat rq CRLF;
  rq ← strcat_if (0 <? g.(http10))%Z rq (B "User-Agent: WebBench " ++ PROGRAM_VERSION ++ CRLF);
  rq ← (if is_null g.(proxyhost) && (0 <? g.(http10))%Z then
          rq ← strcat rq (B "Host: ");
          h ← c_string g.(whost);
          rq ← strcat rq h;
          strcat rq CRLF
        else mret rq);
  rq ← strcat_if (g.(force_reload) && negb (is_null g.(proxyhost))) rq (B "Pragma: no-cache" ++ CRLF);
  rq ← strcat_if (1 <? g.(http10))%Z rq (B "Connection: close" ++ CRLF);
  strcat_if (0 <? g.(http10))%Z rq CRLF.

(** [fprintf(stderr, s); exit(2);] *)
Definition refuse {A} (s : bytes) : M A := print s;; exit 2.

Definition not_valid (url : bytes) : bytes := LF :: url ++ B ": is not a valid URL." ++ [LF].
Definition too_long : bytes := B "URL is too long." ++ [LF].
Definition only_http : bytes :=
  LF :: B "Only HTTP protocol is directly supported, set --proxy for others." ++ [LF].
Definition no_slash : bytes := LF :: B "Invalid URL syntax - hostname don't ends with '/'." ++ [LF].

Definition build_request (url : bytes) (g : globals) : M globals :=
  let g := set_wrequest (replicate REQUEST_SIZE NUL) (set_whost (replicate MAXHOSTNAMELEN NUL) g) in
  let g := raise_protocol g in
  rq ← strcpy g.(wrequest) (method_name g.(wmethod));
  rq ← strcat rq (B " ");
  match strstr url (B "://") with
  | None => refuse (not_valid url)
  | Some k =>
      if decide (1500 < length url) then refuse too_long
      else if is_null g.(proxyhost) && negb (strncaseeq (B "http://") url 7) then refuse only_http
      else
        let i := k + 3 in
        let rest := drop i url in
        if is_null (strchr rest "/"%char) then refuse no_slash
        else
          '(g, rq) ← (if is_null g.(proxyhost) then
                        g ← take_host rest g;
                        (* strcat(request + strlen(request), ...) *)
                        rq ← strcat rq (drop (strcspn rest (B "/")) rest);
                        mret (g, rq)
                      else rq ← strcat rq url; mret (g, rq));
          rq ← finish_request g rq;
          mret (set_wrequest rq g)
  end.

(** ** The connection to the server *)

Section network.
(** [inet_addr] on a dotted address and [gethostbyname] on a name: the
    address in network byte order, or none. *)
Variable inet_addr : bytes → option Z.
Variable gethostbyname : bytes → option Z.

(** socket.c.  The socket stays open when [connect] fails. *)
Definition Socket (host : bytes) (clientPort : Z) : M Z :=
  match (match inet_addr host with Some a => Some a | None => gethostbyname host end) with
  | None => mret (-1)%Z
  | Some a =>
      sock ← socket_stream;
      if (sock <? 0)%Z then mret sock
      else
        r ← connect sock (Inet a (htons (clientPort mod 2 ^ 16)));
        if (r <? 0)%Z then mret (-1)%Z else mret sock
  end.

(** ** The requests of one child *)

(** [x += n] on an [int]. *)
Definition add_int (x n : Z) : M Z :=
  if ((- 2 ^ 31 <=? x + n) && (x + n <? 2 ^ 31))%Z then mret (x + n)%Z else undefined.

(** [shutdown(s, 1)]. *)
Definition shutdown (fd : Z) : M Z :=
  call (d ← fd_desc fd;
        match d with
        | Some (DConn _) => mret 0%Z
        | Some (DSocket _) => fail ENOTCONN
        | Some _ => fail ENOTSOCK
        | None => fail EBADF
        end).

(** The variables of a child and how many system calls it completes before
    the one during which [SIGALRM] is delivered. *)
Record child := Child { vars : globals; alarm_in : nat }.

Definition alarm_handler (g : globals) : globals := set_timerexpired true g.

(** A system call, during which the alarm may go off. *)
Definition sys {A} (m : M A) (s : child) : M (A * child) :=
  a ← m;
  mret (a, match s.(alarm_in) with
           | 0 => Child (alarm_handler s.(vars)) 0
           | S n => Child s.(vars) n
           end).

Definition with_vars (s : child) (g : globals) : child := Child g s.(alarm_in).
Definition count_failed (s : child) : M child :=
  n ← add_int s.(vars).(failed) 1; mret (with_vars s (set_failed n s.(vars))).

(** [failed++; close(s); continue;] *)
Definition give_up_on (fd : Z) (s : child) : M child :=
  s ← count_failed s; '(_, s) ← sys (close fd) s; mret s.

(** The inner loop: whether the page was read to its end (or to the alarm);
    otherwise the next try follows. *)
Definition read_turn (fd : Z) (buf_s : bytes * child) : M (bytes * child + bool * child) :=
  let '(buf, s) := buf_s in
  if s.(vars).(timerexpired) then mret (inr (true, s))
  else
    '((i, buf), s) ← sys (read fd buf 1500) s;
    if (i <? 0)%Z then s ← give_up_on fd s; mret (inr (false, s))
    else if (i =? 0)%Z then mret (inr (true, s))
    else n ← add_int s.(vars).(gbytes) i; mret (inl (buf, with_vars s (set_gbytes n s.(vars)))).

(** One turn of the outer loop. *)
Definition try_turn (fuel : nat) (host : bytes) (port : Z) (req : bytes) (s : child) : M (child + child) :=
  if s.(vars).(timerexpired) then
    mret (inr (if (0 <? s.(vars).(failed))%Z
               then with_vars s (set_failed (s.(vars).(failed) - 1) s.(vars)) else s))
  else
    '(fd, s) ← sys (Socket host port) s;
    if (fd <? 0)%Z then s ← count_failed s; mret (inl s)
    else
      '(n, s) ← sys (write fd req) s;
      if negb (n =? Z.of_nat (length req))%Z then s ← give_up_on fd s; mret (inl s)
      else
        '(r, s) ← (if (s.(vars).(http10) =? 0)%Z then sys (shutdown fd) s else mret (0%Z, s));
        if negb (r =? 0)%Z then s ← give_up_on fd s; mret (inl s)
        else
          '(go, s) ← (if s.(vars).(force) then mret (true, s)
                      else loop fuel (read_turn fd) (replicate 1500 NUL, s));
          if negb go then mret (inl s)
          else
            '(r, s) ← sys (close fd) s;
            if negb (r =? 0)%Z then s ← count_failed s; mret (inl s)
            else n ← add_int s.(vars).(speed) 1; mret (inl (with_vars s (set_speed n s.(vars)))).

(** [benchcore(host, port, req)]; [n] system calls come before the alarm. *)
Definition benchcore (fuel : nat) (host : bytes) (port : Z) (reqbuf : bytes) (n : nat) (g : globals) : M globals :=
  r ← call (mret 0%Z);   (* sigaction *)
  if negb (r =? 0)%Z then exit 3
  else
    req ← c_string reqbuf;
    s ← loop fuel (try_turn fuel host port req) (Child g n);
    mret s.(vars).

(** ** The benchmark *)

(** [fscanf(f, "%d %d %d", ...)] on the bytes that have arrived: the numbers
    read, fewer than three when a character does not match, or nothing yet
    ([None]): the end of the file is never seen, since the parent keeps the
    other end of the pipe open. *)
Fixpoint scan_digits (acc : Z) (s : bytes) : Z * bytes :=
  match s with
  | c :: k => if isdigit c then scan_digits (acc * 10 + digit c) k else (acc, s)
  | [] => (acc, [])
  end.
Definition scan_int (s : bytes) : option (option Z * bytes) :=
  let s := skip_spaces s in
  let '(sign, s) := match s with
                    | c :: k => if Ascii.eqb c "-" then (-1, k)%Z else if Ascii.eqb c "+" then (1, k)%Z else (1, s)%Z
                    | [] => (1, s)%Z
                    end in
  match s with
  | [] => None
  | c :: _ =>
      if isdigit c then
        match scan_digits 0 s with
        | (_, []) => None
        | (n, k) => Some (Some (to_int32 (Z.max (- 2 ^ 63) (Z.min (2 ^ 63 - 1) (sign * n)))), k)
        end
      else Some (None, s)
  end.
Fixpoint fscanf (n : nat) (s : bytes) : option (list Z * bytes) :=
  match n with
  | 0 => Some ([], s)
  | S n =>
      '(x, s) ← scan_int s;
      match x with
      | None => Some ([], s)
      | Some x => '(xs, s) ← fscanf n s; Some (x :: xs, s)
      end
  end.

(** The line a child sends. *)
Definition result_line (g : globals) : bytes :=
  dec g.(speed) ++ SP :: dec g.(failed) ++ SP :: dec g.(gbytes) ++ [LF].

(** The loop of the parent: the sums, and the last [i]; [pid], the number of
    conversions, is less than 2 when the second one is missing. *)
Fixpoint collect (fuel : nat) (piped : bytes) (i : Z) (k : option Z) (g : globals) : M (Z * globals) :=
  match fuel with
  | 0 => λ w, (NoFuel, w)
  | S fuel =>
      match fscanf 3 piped with
      | None => block
      | Some (xs, piped) =>
          let i := default i (xs !! 0) in
          let k := match xs !! 2 with Some x => Some x | None => k end in
          match xs !! 1 with
          | None => print (B "Some of our childrens died." ++ [LF]);; mret (i, g)
          | Some j =>
              a ← add_int g.(speed) i; b ← add_int g.(failed) j;
              match k with
              | None => undefined   (* k was never assigned *)
              | Some k' =>
                  c ← add_int g.(gbytes) k'; d ← add_int g.(clients) (-1);
                  let g := set_clients d (set_gbytes c (set_failed b (set_speed a g))) in
                  if (g.(clients) =? 0)%Z then mret (i, g) else collect fuel piped i k g
              end
          end
      end
  end.

(** Single precision arithmetic. *)
Definition float_of (z : Z) : SpecFloat.spec_float := SpecFloat.binary_normalize 24 128 z 0 false.
Definition float_div (a b : SpecFloat.spec_float) : SpecFloat.spec_float := SpecFloat.SFdiv 24 128 a b.
(** [(int)x]: towards zero; undefined when the value is no [int]. *)
Definition int_of (x : SpecFloat.spec_float) : M Z :=
  match x with
  | SpecFloat.S754_zero _ => mret 0%Z
  | SpecFloat.S754_finite s m e =>
      let a := Z.shiftl (Zpos m) e in
      let v := if s then (- a)%Z else a in
      if ((- 2 ^ 31 <=? v) && (v <? 2 ^ 31))%Z then mret v else undefined
  | _ => undefined
  end.
Definition pages_per_min (pages benchtime : Z) : M Z :=
  int_of (float_div (float_of pages) (float_div (float_of benchtime) (float_of 60))).
Definition bytes_per_sec (n benchtime : Z) : M Z := int_of (float_div (float_of n) (float_of benchtime)).

Definition report (g : globals) : M unit :=
  sum ← add_int g.(speed) g.(failed);
  p ← pages_per_min sum g.(benchtime); b ← bytes_per_sec g.(gbytes) g.(benchtime);
  print (LF :: B "Speed=" ++ dec p ++ B " pages/min, " ++ dec b ++ B " bytes/sec." ++ LF ::
         B "Requests: " ++ dec g.(speed) ++ B " susceed, " ++ dec g.(failed) ++ B " failed." ++ [LF]).

(** The forks: the index at the end of the loop and the last pid. *)
Fixpoint forks (n : nat) (i pid : Z) : M (Z * Z) :=
  match n with
  | 0 => mret (i, pid)
  | S n =>
      pid ← fork;
      if (pid <=? 0)%Z then sleep 1;; mret (i, pid) else forks n (i + 1) pid
  end.

Definition target (g : globals) : bytes := default g.(whost) g.(proxyhost).

(** [bench()] and its result, which [main] returns.  A child leaves the bytes
    it puts into the pipe; the parent reads [piped], what its children put
    there. *)
Definition bench (fuel n : nat) (piped : bytes) (g : globals) : M (Z * bytes) :=
  h ← c_string (target g);
  i ← Socket h g.(proxyport);
  if (i <? 0)%Z then
    print (LF :: B "Connect to server failed. Aborting benchmark." ++ [LF]);; mret (1%Z, [])
  else
    close i;;
    r ← call (mret 0%Z);   (* pipe *)
    if negb (r =? 0)%Z then perror "pipe failed.";; mret (3%Z, [])
    else
      '(i, pid) ← forks (Z.to_nat g.(clients)) 0 0;
      if (pid <? 0)%Z then
        print (B "problems forking worker no. " ++ dec i ++ [LF]);; perror "fork failed.";; mret (3%Z, [])
      else if (pid =? 0)%Z then
        g ← benchcore fuel h g.(proxyport) g.(wrequest) n g;
        f ← call (mret 0%Z);   (* fdopen *)
        if (f <? 0)%Z then perror "open pipe for writing failed.";; mret (3%Z, [])
        else mret (0%Z, result_line g)
      else
        f ← call (mret 0%Z);   (* fdopen *)
        if (f <? 0)%Z then perror "open pipe for reading failed.";; mret (3%Z, [])
        else
          '(i, g) ← collect fuel piped i None (set_gbytes 0 (set_failed 0 (set_speed 0 g)));
          report g;; mret (i, []).

(** ** The program *)

(** What [getopt_long] reports: an option letter with its argument, or a long
    option that stores into its variable. *)
Inductive opt :=
| Flag_force | Flag_reload | Flag_method (m : METHOD)
| Letter (c : ascii) (optarg : bytes).

Definition usage : M unit :=
  print (concat (map (λ l, B l ++ [LF]) [
    "webbench [option]... URL";
    "  -f|--force               Don't wait for reply from server.";
    "  -r|--reload              Send reload request - Pragma: no-cache.";
    "  -t|--time <sec>          Run benchmark for <sec> seconds. Default 30.";
    "  -p|--proxy <server:port> Use proxy server for request.";
    "  -c|--clients <n>         Run <n> HTTP clients at once. Default one.";
    "  -9|--http09              Use HTTP/0.9 style requests.";
    "  -1|--http10              Use HTTP/1.0 protocol.";
    "  -2|--http11              Use HTTP/1.1 protocol.";
    "  --get                    Use GET request method.";
    "  --head                   Use HEAD request method.";
    "  --options                Use OPTIONS request method.";
    "  --trace                  Use TRACE request method.";
    "  -?|-h|--help             This information.";
    "  -V|--version             Display program version."])).

(** [case 'p']: the server and the port of a proxy. *)
Definition set_proxy (optarg : bytes) (g : globals) : M globals :=
  match strrchr optarg ":"%char with
  | None => mret (set_proxyhost (Some (optarg ++ [NUL])) g)
  | Some 0 => print (B "Error in option --proxy " ++ optarg ++ B ": Missing hostname." ++ [LF]);; exit 2
  | Some p =>
      if (p =? length optarg - 1)%nat then
        print (B "Error in option --proxy " ++ optarg ++ B " Port number is missing." ++ [LF]);; exit 2
      else mret (set_proxyport (atoi (drop (p + 1) optarg)) (set_proxyhost (Some (take p optarg ++ [NUL])) g))
  end.

Definition apply_opt (o : opt) (g : globals) : M globals :=
  match o with
  | Flag_force => mret (set_force true g)
  | Flag_reload => mret (set_force_reload true g)
  | Flag_method m => mret (set_wmethod m g)
  | Letter c a =>
      if Ascii.eqb c "f" then mret (set_force true g)
      else if Ascii.eqb c "r" then mret (set_force_reload true g)
      else if Ascii.eqb c "9" then mret (set_http10 0 g)
      else if Ascii.eqb c "1" then mret (set_http10 1 g)
      else if Ascii.eqb c "2" then mret (set_http10 2 g)
      else if Ascii.eqb c "V" then print (PROGRAM_VERSION ++ [LF]);; exit 0
      else if Ascii.eqb c "t" then mret (set_benchtime (atoi a) g)
      else if Ascii.eqb c "p" then set_proxy a g
      else if Ascii.eqb c "c" then mret (set_clients (atoi a) g)
      else if Ascii.eqb c ":" || Ascii.eqb c "h" || Ascii.eqb c "?" then usage;; exit 2
      else mret g
  end.

Definition copyright : bytes :=
  B "Webbench - Simple Web Benchmark " ++ PROGRAM_VERSION ++ LF ::
  B "Copyright (c) Radim Kolar 1997-2004, GPL Open Source Software." ++ [LF].

(** What is printed before the benchmark. *)
Definition bench_info (url : bytes) (g : globals) : bytes :=
  LF :: B "Benchmarking: " ++ method_name g.(wmethod) ++ SP :: url ++
  (if (g.(http10) =? 0)%Z then B " (using HTTP/0.9)"
   else if (g.(http10) =? 2)%Z then B " (using HTTP/1.1)" else []) ++
  LF :: (if (g.(clients) =? 1)%Z then B "1 client" else dec g.(clients) ++ B " clients") ++
  B ", running " ++ dec g.(benchtime) ++ B " sec" ++
  (if g.(force) then B ", early socket close" else []) ++
  match g.(proxyhost) with
  | Some h => B ", via proxy server " ++ upto h ++ B ":" ++ dec g.(proxyport)
  | None => []
  end ++
  (if g.(force_reload) then B ", forcing reload" else []) ++ B "." ++ [LF].

(** [main] and the value it returns: [opts] are the options before the first
    argument [url] that is no option; [n] and [piped] as for [bench]. *)
Definition main (fuel n : nat) (piped : bytes) (opts : list opt) (url : option bytes) : M (Z * bytes) :=
  if bool_decide (opts = []) && is_null url then usage;; mret (2%Z, [])
  else
    g ← for_each opts apply_opt initial;
    match url with
    | None => print (B "webbench: Missing URL!" ++ [LF]);; usage;; mret (2%Z, [])
    | Some url =>
        let g := if (g.(clients) =? 0)%Z then set_clients 1 g else g in
        let g := if (g.(benchtime) =? 0)%Z then set_benchtime 60 g else g in
        print copyright;;
        g ← build_request url g;
        print (bench_info url g);;
        bench fuel n piped g
    end.
End network.
End Webbench.
