(* ===== verification/WebbenchProofs.v ===== *)
(** * The load generator: its requests and its counts

    What webbench sends for a URL, what the web server makes of it, what a
    child counts until its alarm and what the parent adds up. *)
From S2P Require Import Prelude CString HttpConn HttpWrite HttpParse Posix NetBytes Sockets Webbench.
Import Webbench.

(** ** Arrays that hold a C string *)

Record holds (n : nat) (buf t : bytes) : Prop := Holds {
  h_size : length buf = n;
  h_text : cstr buf = Some t
}.

Lemma holds_zeros n : 0 < n → holds n (replicate n NUL) [].
Proof. intros. split; [apply length_replicate|by apply cstr_zeros]. Qed.

Lemma store_at_ok p d buf w : p + length d ≤ length buf → store_at p d buf w = (Ok (store p d buf), w).
Proof. intros. unfold store_at. by rewrite decide_True. Qed.

Lemma strcat_holds n buf t s w :
  holds n buf t → Forall nonNUL s → length t + length s < n →
  ∃ buf', strcat buf s w = (Ok buf', w) ∧ holds n buf' (t ++ s).
Proof.
  intros [Hn Ht] Hs Hl. exists (store (length t) (s ++ [NUL]) buf). unfold strcat.
  erewrite bind_ok by by apply c_string_ok.
  rewrite store_at_ok by (rewrite length_app; simpl; lia). split; [done|].
  destruct (cstr_Some _ _ Ht) as [Hnn [k ->]]. split.
  - rewrite length_store; [done|]. rewrite !length_app in *. simpl in *. lia.
  - unfold store. rewrite take_app_exact, <- app_assoc. simpl. rewrite app_assoc.
    by apply cstr_app, Forall_app.
Qed.

Lemma strcpy_holds n s w :
  Forall nonNUL s → length s < n →
  ∃ buf, strcpy (replicate n NUL) s w = (Ok buf, w) ∧ holds n buf s.
Proof.
  intros Hs Hl. eexists. unfold strcpy. rewrite store_at_ok by (rewrite length_app, length_replicate; simpl; lia).
  split; [done|]. split.
  - rewrite length_store; rewrite ?length_app, ?length_replicate; simpl; lia.
  - unfold store. simpl. rewrite <- app_assoc. by apply cstr_app.
Qed.

Lemma strncpy_holds n s m w :
  Forall nonNUL s → m < n →
  ∃ buf, strncpy_to (replicate n NUL) s m w = (Ok buf, w) ∧ holds n buf (take m s).
Proof.
  intros Hs Hm. eexists. unfold strncpy_to.
  rewrite store_at_ok by (rewrite length_strncpy, length_replicate; lia). split; [done|]. split.
  - rewrite length_store; rewrite ?length_strncpy, ?length_replicate; lia.
  - unfold store. simpl. rewrite length_strncpy, drop_replicate.
    destruct (n - m) as [|j] eqn:E; [lia|]. by apply cstr_strncpy.
Qed.

(** A part that is appended or not; the length of the text stays bounded. *)
Lemma strcat_if_holds (c : bool) n m buf t s w :
  holds n buf t → length t ≤ m → Forall nonNUL s → m + length s < n →
  ∃ buf', strcat_if c buf s w = (Ok buf', w) ∧ holds n buf' (t ++ if c then s else [])
    ∧ length (t ++ if c then s else []) ≤ m + length s.
Proof.
  intros H Hm Hs Hl. destruct c; simpl.
  - destruct (strcat_holds n buf t s w) as (buf' & ? & ?); [done|done|lia|].
    exists buf'. split_and!; [done|done|]. rewrite length_app. lia.
  - exists buf. rewrite app_nil_r. split_and!; [done|done|lia].
Qed.

(** ** The text of a request *)

Definition protocol_text (g : globals) : bytes :=
  if (g.(http10) =? 1)%Z then B " HTTP/1.0" else if (g.(http10) =? 2)%Z then B " HTTP/1.1" else [].

(** What follows the method and the path. *)
Definition tail_text (g : globals) (h : bytes) : bytes :=
  protocol_text g ++ CRLF ++
  (if (0 <? g.(http10))%Z then B "User-Agent: WebBench 1.5" ++ CRLF else []) ++
  (if is_null g.(proxyhost) && (0 <? g.(http10))%Z then B "Host: " ++ h ++ CRLF else []) ++
  (if g.(force_reload) && negb (is_null g.(proxyhost)) then B "Pragma: no-cache" ++ CRLF else []) ++
  (if (1 <? g.(http10))%Z then B "Connection: close" ++ CRLF else []) ++
  (if (0 <? g.(http10))%Z then CRLF else []).

Lemma protocol_holds g n m rq t w :
  holds n rq t → length t ≤ m → m + 9 < n →
  ∃ rq', (if (http10 g =? 1)%Z then strcat rq (B " HTTP/1.0")
          else if (http10 g =? 2)%Z then strcat rq (B " HTTP/1.1") else mret rq) w = (Ok rq', w)
    ∧ holds n rq' (t ++ protocol_text g) ∧ length (t ++ protocol_text g) ≤ m + 9.
Proof.
  intros H Hm Hl. unfold protocol_text. repeat case_match.
  - destruct (strcat_if_holds true n m rq t (B " HTTP/1.0") w) as (b & ? & ? & ?);
      [done|done|by apply B_nonNUL|simpl; lia|by exists b].
  - destruct (strcat_if_holds true n m rq t (B " HTTP/1.1") w) as (b & ? & ? & ?);
      [done|done|by apply B_nonNUL|simpl; lia|by exists b].
  - exists rq. rewrite app_nil_r. split_and!; [done|done|lia].
Qed.

Lemma host_line_holds (c : bool) n m rq t hb h w :
  holds n rq t → length t ≤ m → cstr hb = Some h → m + length h + 8 < n →
  ∃ rq', (if c then rq ← strcat rq (B "Host: "); h ← c_string hb; rq ← strcat rq h; strcat rq CRLF
          else mret rq) w = (Ok rq', w)
    ∧ holds n rq' (t ++ if c then B "Host: " ++ h ++ CRLF else [])
    ∧ length (t ++ if c then B "Host: " ++ h ++ CRLF else []) ≤ m + length h + 8.
Proof.
  intros H Hm Hh Hl. destruct (cstr_Some _ _ Hh) as [Hn _]. destruct c.
  - destruct (strcat_holds n rq t (B "Host: ") w H) as (r1 & E1 & H1); [by apply B_nonNUL|len_lia|].
    destruct (strcat_holds n r1 _ h w H1) as (r2 & E2 & H2); [done|len_lia|].
    destruct (strcat_holds n r2 _ CRLF w H2) as (r3 & E3 & H3); [repeat constructor; done|len_lia|].
    exists r3. erewrite bind_ok by exact E1. erewrite bind_ok by by apply c_string_ok.
    erewrite bind_ok by exact E2. rewrite E3, <- !app_assoc in *. split_and!; [done|done|len_lia].
  - exists rq. rewrite app_nil_r. split_and!; [done|done|lia].
Qed.

Lemma finish_request_ok g rq t h w :
  holds REQUEST_SIZE rq t → cstr g.(whost) = Some h → length t + length h + 100 ≤ REQUEST_SIZE →
  ∃ rq', finish_request g rq w = (Ok rq', w) ∧ holds REQUEST_SIZE rq' (t ++ tail_text g h).
Proof.
  intros H Hh Hl. unfold finish_request, tail_text.
  destruct (protocol_holds g REQUEST_SIZE (length t) rq t w) as (r1 & E1 & H1 & L1); [done..|lia|].
  erewrite bind_ok by exact E1.
  edestruct (strcat_if_holds true) as (r2 & E2 & H2 & L2);
    [exact H1|exact L1|instantiate (1 := CRLF); repeat constructor; done|simpl; lia|].
  erewrite bind_ok by exact E2.
  edestruct (strcat_if_holds (0 <? http10 g)%Z) as (r3 & E3 & H3 & L3);
    [exact H2|exact L2|instantiate (1 := B "User-Agent: WebBench " ++ PROGRAM_VERSION ++ CRLF); repeat constructor; done|simpl; lia|].
  erewrite bind_ok by exact E3.
  edestruct (host_line_holds (is_null g.(proxyhost) && (0 <? http10 g)%Z)) as (r4 & E4 & H4 & L4);
    [exact H3|exact L3|exact Hh|simpl; lia|].
  erewrite bind_ok by exact E4.
  edestruct (strcat_if_holds (force_reload g && negb (is_null g.(proxyhost)))) as (r5 & E5 & H5 & L5);
    [exact H4|exact L4|instantiate (1 := B "Pragma: no-cache" ++ CRLF); repeat constructor; done|simpl; lia|].
  erewrite bind_ok by exact E5.
  edestruct (strcat_if_holds (1 <? http10 g)%Z) as (r6 & E6 & H6 & L6);
    [exact H5|exact L5|instantiate (1 := B "Connection: close" ++ CRLF); repeat constructor; done|simpl; lia|].
  erewrite bind_ok by exact E6.
  edestruct (strcat_if_holds (0 <? http10 g)%Z) as (r7 & E7 & H7 & _);
    [exact H6|exact L6|instantiate (1 := CRLF); repeat constructor; done|simpl; lia|].
  exists r7. split; [exact E7|]. by rewrite <- !app_assoc in H7.
Qed.

(** ** URLs of a server that is asked directly *)

Definition port_text (port : option bytes) : bytes :=
  match port with Some p => ":"%char :: p | None => [] end.
Definition direct_url (h : bytes) (port : option bytes) (u : bytes) : bytes :=
  B "http://" ++ h ++ port_text port ++ u.

(** The port [build_request] takes from the URL. *)
Definition port_number (old : Z) (port : option bytes) : Z :=
  match port with
  | Some p => if (atoi p =? 0)%Z then 80%Z else atoi p
  | None => old
  end.

(** A host name and a port that fit their arrays, and a path. *)
Record direct_ok (h : bytes) (port : option bytes) (u : bytes) : Prop := DirectOk {
  d_host : Forall (λ x, nonNUL x ∧ plain x ∧ (x ∉ B ":/")) h;
  d_host_fits : length h < MAXHOSTNAMELEN;
  d_port : match port with
           | Some p => Forall (λ x, nonNUL x ∧ (x ∉ B "/")) p ∧ length p < 10
           | None => True
           end;
  d_path : head u = Some ("/"%char) ∧ Forall nonNUL u;
  d_fits : length (direct_url h port u) ≤ 1500
}.

Lemma path_cons u : head u = Some ("/"%char) → ∃ k, u = "/"%char :: k.
Proof. destruct u as [|x k]; intros; simplify_eq/=. by exists k. Qed.

(** The URL after [://]. *)
Definition rest_of (h : bytes) (port : option bytes) (u : bytes) : bytes := h ++ port_text port ++ u.

Lemma host_before h port u (ok : direct_ok h port u) x : x ∈ B ":/" → Forall (λ y, y ∉ [x]) h.
Proof.
  intros Hx. eapply Forall_impl; [apply (d_host _ _ _ ok)|]. intros y (_ & _ & Hy).
  rewrite list_elem_of_singleton. naive_solver.
Qed.

Lemma port_before h port u (ok : direct_ok h port u) : Forall (λ y, y ∉ ["/"%char]) (port_text port).
Proof.
  pose proof (d_port _ _ _ ok) as H. destruct port as [p|]; [|constructor].
  destruct H as [H _]. constructor; [set_solver|].
  eapply Forall_impl; [exact H|]. intros y [_ Hy]. done.
Qed.

Lemma rest_slash h port u (ok : direct_ok h port u) : strpbrk (rest_of h port u) ["/"%char] = Some (length (h ++ port_text port)).
Proof.
  destruct (path_cons u) as [k Hk]; [apply (d_path _ _ _ ok)|].
  unfold rest_of. rewrite app_assoc, Hk. apply strpbrk_app; [|set_solver].
  apply Forall_app. split; [apply (host_before h port u); [done|set_solver]|by apply (port_before h port u)].
Qed.

Lemma rest_nonNUL h port u (ok : direct_ok h port u) : Forall nonNUL (rest_of h port u).
Proof.
  destruct ok as [Hh _ Hp [_ Hu] _]. unfold rest_of. apply Forall_app. split.
  { eapply Forall_impl; [exact Hh|naive_solver]. }
  apply Forall_app. split; [|done]. destruct port as [p|]; [|constructor].
  destruct Hp as [Hp _]. constructor; [done|]. eapply Forall_impl; [exact Hp|naive_solver].
Qed.

Lemma rest_colon h port u (ok : direct_ok h port u) :
  match port with
  | Some _ => strpbrk (rest_of h port u) [":"%char] = Some (length h)
  | None => ∀ a, strpbrk (rest_of h port u) [":"%char] = Some a → length h < a
  end.
Proof.
  pose proof (host_before h port u ok ":"%char ltac:(set_solver)) as Hh.
  destruct (path_cons u) as [k Hk]; [apply (d_path _ _ _ ok)|].
  unfold rest_of. destruct port as [p|].
  - cbn [port_text app]. apply strpbrk_app; [done|set_solver].
  - cbn [port_text app]. intros a (s1 & c & s2 & E & <- & Hc & _)%strpbrk_Some.
    apply list_elem_of_singleton in Hc as ->.
    destruct (decide (length h < length s1)); [done|]. exfalso.
    assert ((h ++ u) !! length s1 = Some ":"%char) as El by (rewrite E; apply lookup_app_exact).
    destruct (decide (length s1 = length h)) as [Eq|].
    + rewrite Eq, Hk, lookup_app_exact in El. done.
    + rewrite lookup_app_l in El by lia. rewrite Forall_lookup in Hh.
      specialize (Hh _ _ El). set_solver.
Qed.

Lemma take_rest h port u : take (length h) (rest_of h port u) = h.
Proof. apply take_app_exact. Qed.

Lemma take_host_direct h port u (ok : direct_ok h port u) g w :
  g.(whost) = replicate MAXHOSTNAMELEN NUL →
  ∃ hb, take_host (rest_of h port u) g w = (Ok (set_proxyport (port_number g.(proxyport) port) (set_whost hb g)), w)
    ∧ cstr hb = Some h.
Proof.
  intros Hg. unfold take_host, strchr. pose proof (rest_colon h port u ok) as Hc. rewrite (rest_slash h port u ok).
  pose proof (d_host_fits _ _ _ ok) as Hf. pose proof (d_port _ _ _ ok) as Hp.
  destruct port as [p|].
  - rewrite Hc. destruct (Nat.ltb_spec (length h) (length (h ++ port_text (Some p)))) as [_|Hl].
    2:{ rewrite length_app in Hl. simpl in Hl. lia. }
    rewrite Hg. destruct (strncpy_holds MAXHOSTNAMELEN (rest_of h (Some p) u) (length h) w) as (hb & E & [_ H]);
      [by apply rest_nonNUL|done|].
    exists hb. rewrite take_rest in H. split; [|done]. erewrite bind_ok by exact E.
    destruct Hp as [Hpn Hp10].
    replace (length (h ++ port_text (Some p)) - length h - 1) with (length p) by len_lia.
    assert (drop (length h + 1) (rest_of h (Some p) u) = p ++ u) as ->.
    { unfold rest_of. rewrite <- drop_drop, drop_app_exact. done. }
    destruct (strncpy_holds 10 (p ++ u) (length p) w) as (tb & E' & [_ H']); [|done|].
    { apply Forall_app. split; [eapply Forall_impl; [exact Hpn|naive_solver]|apply (d_path _ _ _ ok)]. }
    erewrite bind_ok by exact E'. rewrite take_app_exact in H'.
    erewrite bind_ok by by apply c_string_ok. done.
  - assert (strcspn (rest_of h None u) (B "/") = length h) as Es.
    { unfold strcspn. change (B "/") with ["/"%char]. rewrite (rest_slash h None u ok). simpl. by rewrite app_nil_r. }
    assert ((h ++ port_text None) = h) as -> by apply app_nil_r.
    rewrite Es. destruct (strncpy_holds MAXHOSTNAMELEN (rest_of h None u) (length h) w) as (hb & E & [_ H]);
      [by apply rest_nonNUL|done|].
    exists hb. rewrite take_rest in H. split; [|done].
    assert (set_proxyport (port_number (proxyport g) None) (set_whost hb g) = set_whost hb g) as ->
      by by destruct g.
    destruct (strpbrk (rest_of h None u) [":"%char]) as [a|]; [|rewrite Hg; by erewrite bind_ok by exact E].
    destruct (Nat.ltb_spec a (length h)); [specialize (Hc a eq_refl); lia|].
    rewrite Hg. by erewrite bind_ok by exact E.
Qed.

(** ** The request of a direct URL *)

(** The variables after [build_request]. *)
Definition prepared (g : globals) : globals :=
  raise_protocol (set_wrequest (replicate REQUEST_SIZE NUL) (set_whost (replicate MAXHOSTNAMELEN NUL) g)).

(** The text of the request. *)
Definition request_text (g : globals) (h u : bytes) : bytes :=
  method_name g.(wmethod) ++ SP :: u ++ tail_text (prepared g) h.

Lemma method_name_nonNUL m : Forall nonNUL (method_name m).
Proof. by destruct m; apply B_nonNUL. Qed.

Lemma method_name_length m : length (method_name m) ≤ 7.
Proof. destruct m; simpl; lia. Qed.

(** Raising the protocol changes nothing else, up to HTTP/1.1, and nothing at
    all for a GET request to the server itself. *)
Lemma raise_if (c : bool) v g :
  ∃ v', (if c && (g.(http10) <? v)%Z then set_http10 v g else g) = set_http10 v' g
    ∧ (g.(http10) ≤ v' ≤ Z.max v g.(http10))%Z ∧ (c = false → v' = g.(http10)).
Proof.
  destruct (c && (g.(http10) <? v)%Z) eqn:E; [exists v|exists g.(http10)].
  - apply andb_true_iff in E as [-> E]. split_and!; [done|lia|lia|done].
  - split_and!; [by destruct g|lia|lia|done].
Qed.

Lemma raise_protocol_frame g :
  ∃ v, raise_protocol g = set_http10 v g ∧ (g.(http10) ≤ v ≤ Z.max 2 g.(http10))%Z
    ∧ (g.(wmethod) = METHOD_GET → g.(proxyhost) = None → v = g.(http10)).
Proof.
  unfold raise_protocol. cbv zeta.
  destruct (raise_if (force_reload g && negb (is_null (proxyhost g))) 1 g) as (v1 & -> & ? & E1).
  destruct (raise_if (bool_decide (wmethod (set_http10 v1 g) = METHOD_HEAD)) 1 (set_http10 v1 g)) as (v2 & -> & ? & E2).
  set (g2 := set_http10 v2 _). destruct (raise_if (bool_decide (wmethod g2 = METHOD_OPTIONS)) 2 g2) as (v3 & -> & ? & E3).
  set (g3 := set_http10 v3 _). destruct (raise_if (bool_decide (wmethod g3 = METHOD_TRACE)) 2 g3) as (v4 & -> & ? & E4).
  exists v4. split; [done|]. cbn [http10 wmethod set_http10 g2 g3] in *. split; [lia|]. intros Hm Hp.
  rewrite Hp, andb_false_r in E1. rewrite Hm in E2, E3, E4.
  rewrite E4, E3, E2, E1 by done. done.
Qed.

Lemma prepared_frame g :
  (prepared g).(wmethod) = g.(wmethod) ∧ (prepared g).(proxyhost) = g.(proxyhost)
  ∧ (prepared g).(force_reload) = g.(force_reload) ∧ (prepared g).(whost) = replicate MAXHOSTNAMELEN NUL
  ∧ (prepared g).(wrequest) = replicate REQUEST_SIZE NUL ∧ (prepared g).(proxyport) = g.(proxyport)
  ∧ (g.(http10) ≤ (prepared g).(http10))%Z.
Proof.
  unfold prepared. set (g' := set_wrequest _ _). destruct (raise_protocol_frame g') as (v & -> & ? & _).
  split_and!; try reflexivity. cbn in *. lia.
Qed.

Lemma tail_text_frame g g' h :
  g.(http10) = g'.(http10) → g.(proxyhost) = g'.(proxyhost) → g.(force_reload) = g'.(force_reload) →
  tail_text g h = tail_text g' h.
Proof. unfold tail_text, protocol_text. by intros -> -> ->. Qed.

Lemma build_request_direct g h port u w :
  direct_ok h port u → g.(proxyhost) = None →
  ∃ g', build_request (direct_url h port u) g w = (Ok g', w)
    ∧ cstr g'.(wrequest) = Some (request_text g h u) ∧ length (request_text g h u) < REQUEST_SIZE
    ∧ cstr g'.(whost) = Some h ∧ g'.(proxyport) = port_number g.(proxyport) port
    ∧ g'.(http10) = (prepared g).(http10) ∧ g'.(proxyhost) = None.
Proof.
  intros ok Hp. destruct (prepared_frame g) as (Em & Ep & Er & Eh & Eq & Eo & _).
  unfold build_request. fold (prepared g). cbv zeta. rewrite Em, Eq, Ep, Hp.
  pose proof (method_name_length (wmethod g)) as Hm.
  assert (length (method_name (wmethod g) ++ B " ") ≤ 8) as Hm8
    by (rewrite length_app; change (length (B " ")) with 1; lia).
  destruct (strcpy_holds REQUEST_SIZE (method_name (wmethod g)) w) as (r1 & E1 & H1);
    [apply method_name_nonNUL|unfold REQUEST_SIZE; lia|].
  erewrite bind_ok by exact E1.
  destruct (strcat_holds REQUEST_SIZE r1 _ (B " ") w H1) as (r2 & E2 & H2);
    [by apply B_nonNUL|unfold REQUEST_SIZE; simpl; lia|].
  erewrite bind_ok by exact E2.
  assert (strstr (direct_url h port u) (B "://") = Some 4) as -> by reflexivity.
  pose proof (d_fits _ _ _ ok) as Hf. rewrite decide_False by lia.
  assert (strncaseeq (B "http://") (direct_url h port u) 7 = true) as -> by reflexivity.
  cbn [is_null negb andb]. change (drop (4 + 3) (direct_url h port u)) with (rest_of h port u).
  assert (strcspn (rest_of h port u) (B "/") = length (h ++ port_text port)) as Es.
  { unfold strcspn. change (B "/") with ["/"%char]. by rewrite (rest_slash h port u ok). }
  unfold strchr. rewrite (rest_slash h port u ok), Es. cbn [is_null].
  destruct (take_host_direct h port u ok (prepared g) w Eh) as (hb & E3 & H3).
  assert (drop (length (h ++ port_text port)) (rest_of h port u) = u) as ->.
  { unfold rest_of. rewrite app_assoc. apply drop_app_exact. }
  destruct (d_path _ _ _ ok) as [_ Hu].
  assert (length h + length u ≤ 1493) as Hlu.
  { revert Hf. unfold direct_url. rewrite !length_app. simpl. lia. }
  destruct (strcat_holds REQUEST_SIZE r2 _ u w H2) as (r4 & E4 & H4); [done|unfold REQUEST_SIZE; lia|].
  set (g3 := set_proxyport _ _) in E3.
  erewrite bind_ok.
  2:{ erewrite bind_ok by exact E3. erewrite bind_ok by exact E4. reflexivity. }
  cbv beta iota. destruct (finish_request_ok g3 r4 _ h w H4) as (r5 & E5 & [L5 H5]);
    [exact H3|rewrite length_app; unfold REQUEST_SIZE; lia|].
  erewrite bind_ok by exact E5. eexists. split; [reflexivity|].
  assert (tail_text g3 h = tail_text (prepared g) h) as Et by by apply tail_text_frame.
  rewrite Et in H5. assert (method_name (wmethod g) ++ SP :: u ++ tail_text (prepared g) h
    = ((method_name (wmethod g) ++ B " ") ++ u) ++ tail_text (prepared g) h) as Eqt by app_eq.
  unfold request_text. rewrite Eqt.
  destruct (cstr_Some _ _ H5) as [_ [k Hk]]. split_and!.
  - exact H5.
  - rewrite <- L5, Hk, (length_app _ (NUL :: k)). simpl. lia.
  - exact H3.
  - unfold g3. simpl. by rewrite Eo.
  - reflexivity.
  - unfold g3. simpl. by rewrite Ep.
Qed.

(** ** The web server's view of the request *)

Lemma method_name_blank m : Forall (λ x, x ∉ blank) (method_name m).
Proof. destruct m; repeat constructor; set_solver. Qed.

Lemma strcaseeq_GET m : strcaseeq (method_name m) (B "GET") = bool_decide (m = METHOD_GET).
Proof. by destruct m. Qed.

(** The first word of a line in the buffer becomes a C string of its own. *)
Lemma cstr_word a k l : Forall nonNUL a → cstr (<[length a := NUL]> (a ++ k :: l)) = Some a.
Proof. intros. rewrite insert_app_exact. by apply cstr_app. Qed.

Lemma parseRequestLine_refuses c m u v post :
  c.(readBuffer) = method_name m ++ SP :: u ++ v ++ NUL :: post → url_ok u →
  v = [] ∨ v = B " HTTP/1.0" ∨ v = B " HTTP/1.1" → m ≠ METHOD_GET ∨ v ≠ B " HTTP/1.1" →
  ∃ d, parseRequestLine 0 c = Some (BAD_REQUEST, d).
Proof.
  intros Hb Hu Hv Hno. pose proof (url_nonNUL u Hu) as Hn. pose proof (method_name_nonNUL m) as Hmn.
  assert (Forall nonNUL v) as Hvn by (destruct Hv as [->|[->| ->]]; by apply B_nonNUL || constructor).
  assert (Forall (λ x, x ∉ blank) u) as Hub by (eapply Forall_impl; [apply Hu|naive_solver]).
  unfold parseRequestLine.
  assert (str_at c 0 = Some (method_name m ++ SP :: u ++ v)) as ->.
  { unfold str_at. rewrite drop_0, Hb.
    replace (method_name m ++ SP :: u ++ v ++ NUL :: post)
      with ((method_name m ++ SP :: u ++ v) ++ NUL :: post) by app_eq.
    apply cstr_app. apply Forall_app. split; [done|]. constructor; [done|]. by apply Forall_app. }
  cbn beta match zeta delta [mbind option_bind].
  rewrite strpbrk_app by (apply method_name_blank || apply Forall_SP_blank). cbn [Nat.add].
  set (c1 := set_url _ _).
  assert (c1.(readBuffer) = method_name m ++ NUL :: u ++ v ++ NUL :: post) as Hb1.
  { unfold c1. cbn [readBuffer set_url set_readBuffer]. rewrite Hb. apply insert_app_exact. }
  assert (str_at c1 0 = Some (method_name m)) as ->.
  { unfold str_at. rewrite drop_0, Hb1. by apply cstr_app. }
  cbn beta match zeta delta [mbind option_bind]. rewrite strcaseeq_GET.
  case_bool_decide as Em; cbn [negb]; [|by eexists]. subst m.
  destruct Hno as [|Hno]; [done|]. cbn [method_name] in *.
  assert (str_at (set_method GET c1) (length (B "GET") + 1) = Some (u ++ v)) as ->.
  { unfold str_at. cbn [readBuffer set_method]. rewrite Hb1.
    change (cstr (u ++ v ++ NUL :: post) = Some (u ++ v)). rewrite app_assoc.
    by apply cstr_app, Forall_app. }
  cbn beta match zeta delta [mbind option_bind].
  destruct Hv as [->|[->| ->]]; [|..|done].
  { rewrite app_nil_r, strpbrk_None by done. by eexists. }
  change (B " HTTP/1.0") with (SP :: B "HTTP/1.0").
  rewrite strpbrk_app by (done || apply Forall_SP_blank). cbv zeta.
  set (c2 := set_version _ _).
  assert (str_at c2 (length (B "GET") + 1 + length u + 1) = Some (B "HTTP/1.0")) as ->.
  { unfold str_at, c2. cbn [readBuffer set_version set_readBuffer set_method]. rewrite Hb1.
    change (B " HTTP/1.0" ++ NUL :: post) with (SP :: B "HTTP/1.0" ++ NUL :: post).
    replace (B "GET" ++ NUL :: u ++ SP :: B "HTTP/1.0" ++ NUL :: post)
      with ((B "GET" ++ NUL :: u) ++ SP :: B "HTTP/1.0" ++ NUL :: post) by app_eq.
    replace (length (B "GET") + 1 + length u) with (length (B "GET" ++ NUL :: u)) by (rewrite length_app; simpl; lia).
    rewrite insert_app_exact, Nat.add_comm.
    replace ((B "GET" ++ NUL :: u) ++ NUL :: B "HTTP/1.0" ++ NUL :: post)
      with (((B "GET" ++ NUL :: u) ++ [NUL]) ++ B "HTTP/1.0" ++ NUL :: post) by app_eq.
    rewrite drop_at by (rewrite (length_app _ [NUL]); simpl; lia). by apply cstr_app, B_nonNUL. }
  by eexists.
Qed.

Lemma processRead_refuses fuel fs c line post :
  Forall plain line → length (line ++ CRLF ++ post) ≤ READ_BUFFER_SIZE →
  (∀ d k, d.(readBuffer) = line ++ NUL :: k → ∃ e, parseRequestLine 0 d = Some (BAD_REQUEST, e)) →
  ∃ d, processRead (S fuel) fs (received (line ++ CRLF ++ post) c) = Done BAD_REQUEST d.
Proof.
  intros Hl Hs Hbad. unfold processRead. set (rq := line ++ CRLF ++ post) in *. set (c0 := received rq c).
  assert (c0.(readBuffer) = [] ++ line ++ CR :: LF :: post ++ replicate (READ_BUFFER_SIZE - length rq) NUL) as Hb.
  { unfold c0, received. cbn [readBuffer set_readIndex set_readBuffer]. unfold rq at 1, CRLF.
    by rewrite <- app_assoc. }
  rewrite processRead_loop_turn by done.
  rewrite (parseLine_line c0 [] line (post ++ replicate (READ_BUFFER_SIZE - length rq) NUL)); [|done..|].
  2:{ change (length line + 2 ≤ length rq). unfold rq. rewrite !length_app. simpl. lia. }
  cbn [negb]. rewrite bool_decide_eq_true_2 by done. cbn [negb checkState set_startLine set_checkIndex set_readBuffer].
  change (checkState c0) with CHECK_STATE_REQUESTLINE. change (startLine c0) with 0. cbv iota.
  set (d := set_startLine _ _).
  match goal with |- context [parseRequestLine ?x d] => change x with 0 end.
  destruct (Hbad d (NUL :: post ++ replicate (READ_BUFFER_SIZE - length rq) NUL)) as [e ->]; [done|].
  by eexists.
Qed.

(** The header lines of an HTTP/1.1 request. *)
Definition wb_headers (h : bytes) : list bytes :=
  [B "User-Agent: WebBench 1.5"; B "Host: " ++ h; B "Connection: close"].

Lemma wb_headers_ok h : Forall (λ x, nonNUL x ∧ plain x) h → Forall header_ok (wb_headers h).
Proof.
  intros Hh. repeat constructor; done.
Qed.

(** The server is asked directly. *)
Lemma prepared_http10 g :
  g.(proxyhost) = None → (0 ≤ g.(http10) ≤ 2)%Z →
  (0 ≤ (prepared g).(http10) ≤ 2)%Z ∧ (g.(wmethod) = METHOD_GET → (prepared g).(http10) = g.(http10)).
Proof.
  unfold prepared. set (g' := set_wrequest _ _). intros Hp Hh.
  destruct (raise_protocol_frame g') as (v & -> & Hv & E). cbn [http10 set_http10].
  change (http10 g') with (http10 g) in *. split; [lia|]. intros Hm. by apply E.
Qed.

Lemma request_text_served g h u :
  g.(proxyhost) = None → g.(wmethod) = METHOD_GET → g.(http10) = 2%Z →
  request_text g h u = request u (wb_headers h).
Proof.
  intros Hp Hm Hh. destruct (prepared_http10 g) as [_ E]; [done|lia|]. specialize (E Hm).
  destruct (prepared_frame g) as (_ & Ep & _ & _).
  unfold request_text, tail_text, protocol_text, request, wb_headers. rewrite E, Ep, Hp, Hm, Hh, andb_false_r.
  cbn [is_null andb]. repeat (progress (simpl; rewrite <- ?app_assoc)). done.
Qed.

Lemma request_text_line g h u :
  ∃ post, request_text g h u = (method_name g.(wmethod) ++ SP :: u ++ protocol_text (prepared g)) ++ CRLF ++ post.
Proof.
  eexists. unfold request_text, tail_text. rewrite <- !app_assoc. cbn [app]. rewrite <- !app_assoc. reflexivity.
Qed.

Lemma protocol_text_cases g :
  (0 ≤ g.(http10) ≤ 2)%Z →
  protocol_text g = [] ∨ protocol_text g = B " HTTP/1.0" ∨ protocol_text g = B " HTTP/1.1".
Proof. intros. unfold protocol_text. repeat case_match; naive_solver. Qed.

Lemma protocol_text_11 g : protocol_text g = B " HTTP/1.1" → g.(http10) = 2%Z.
Proof. unfold protocol_text. repeat case_match; intros; try done. lia. Qed.

Lemma url_plain u : url_ok u → Forall plain u.
Proof. intros [_ H]. eapply Forall_impl; [exact H|naive_solver]. Qed.

Lemma refused_line_plain m u v :
  url_ok u → v = [] ∨ v = B " HTTP/1.0" ∨ v = B " HTTP/1.1" → Forall plain (method_name m ++ SP :: u ++ v).
Proof.
  intros Hu Hv. apply Forall_app. split; [by destruct m; repeat constructor|].
  constructor; [done|]. apply Forall_app. split; [by apply url_plain|].
  destruct Hv as [->|[->| ->]]; repeat constructor; done.
Qed.

(** A request that is not an HTTP/1.1 GET is refused. *)
Lemma request_text_refused fuel fs c g h u :
  url_ok u → g.(proxyhost) = None → (0 ≤ g.(http10) ≤ 2)%Z → length (request_text g h u) ≤ READ_BUFFER_SIZE →
  g.(wmethod) ≠ METHOD_GET ∨ g.(http10) ≠ 2%Z →
  ∃ d, processRead (S fuel) fs (received (request_text g h u) c) = Done BAD_REQUEST d.
Proof.
  intros Hu Hp Hh Hl Hno. destruct (prepared_http10 g Hp Hh) as [Hh' Eh].
  pose proof (protocol_text_cases _ Hh') as Hv.
  destruct (request_text_line g h u) as [post Ht]. rewrite Ht in *.
  apply processRead_refuses; [by apply refused_line_plain|done|]. intros d k Hd.
  eapply (parseRequestLine_refuses d (wmethod g) u (protocol_text (prepared g)) k); [|done|done|].
  - rewrite Hd, <- !app_assoc. cbn [app]. by rewrite <- app_assoc.
  - destruct (decide (wmethod g = METHOD_GET)) as [E|]; [|by left]. right.
    intros E2%protocol_text_11. rewrite Eh in E2 by done. destruct Hno; done.
Qed.

(** ** Properties: the requests *)

(** C21. For a URL of the server whose host name and port fit their arrays
    webbench builds a request that fits its array of 2048 bytes, and the web
    server answers it with the file the path deserves when webbench was told
    to send HTTP/1.1 GET requests; every other request, among them that of the
    default options, is answered as a bad request. *)
Theorem webbench_requests fuel fs c g h port u w :
  direct_ok h port u → url_ok u → g.(proxyhost) = None → (0 ≤ g.(http10) ≤ 2)%Z → 5 ≤ fuel →
  ∃ g' rq d, build_request (direct_url h port u) g w = (Ok g', w)
    ∧ cstr g'.(wrequest) = Some rq ∧ length rq < REQUEST_SIZE
    ∧ cstr g'.(whost) = Some h ∧ g'.(proxyport) = port_number g.(proxyport) port
    ∧ processRead fuel fs (received rq c)
      = Done (if bool_decide (g.(wmethod) = METHOD_GET) && (g.(http10) =? 2)%Z
              then serve fs (resource u) else BAD_REQUEST) d.
Proof.
  intros Hd Hu Hp Hh Hf.
  destruct (build_request_direct g h port u w Hd Hp) as (g' & E & Ht & Hl & Hg & Hport & _).
  assert (length (request_text g h u) ≤ READ_BUFFER_SIZE) as Hl'
    by (change READ_BUFFER_SIZE with REQUEST_SIZE; lia).
  destruct (bool_decide (wmethod g = METHOD_GET) && (http10 g =? 2)%Z) eqn:Eb.
  - apply andb_true_iff in Eb as [Em%bool_decide_eq_true E2%Z.eqb_eq].
    rewrite (request_text_served g h u Hp Em E2) in *.
    destruct (processRead_request_loop fuel fs c u (wb_headers h)) as (d & Hr & _); [done| |done|simpl; lia|].
    + apply wb_headers_ok. eapply Forall_impl; [apply (d_host _ _ _ Hd)|naive_solver].
    + by exists g', (request u (wb_headers h)), d.
  - destruct fuel as [|fuel]; [lia|].
    destruct (request_text_refused fuel fs c g h u) as (d & Hr); [done..| |].
    + destruct (decide (wmethod g = METHOD_GET)) as [Em|]; [|by left]. right. intros E2.
      rewrite bool_decide_eq_true_2, E2 in Eb by done. done.
    + by exists g', (request_text g h u), d.
Qed.

(** A host name that does not fit its array overruns it. *)
Lemma take_host_overruns h u g w :
  Forall (λ x, x ∉ B ":/") h → MAXHOSTNAMELEN < length h → head u = Some ("/"%char) →
  length g.(whost) = MAXHOSTNAMELEN → (take_host (h ++ u) g w).1 = UB.
Proof.
  intros Hh Hl Hu Hg. destruct (path_cons u Hu) as [k ->].
  assert (∀ n, n = length h → strncpy_to g.(whost) (h ++ "/"%char :: k) n w = (UB, w)) as E.
  { intros n ->. unfold strncpy_to, store_at. rewrite decide_False; [done|]. rewrite length_strncpy. lia. }
  assert (strpbrk (h ++ "/"%char :: k) ["/"%char] = Some (length h)) as Es.
  { apply strpbrk_app; [|set_solver]. eapply Forall_impl; [exact Hh|]. intros x Hx.
    rewrite list_elem_of_singleton. intros ->. apply Hx. set_solver. }
  assert (strcspn (h ++ "/"%char :: k) (B "/") = length h) as Ec.
  { unfold strcspn. change (B "/") with ["/"%char]. by rewrite Es. }
  unfold take_host, strchr. rewrite Es, Ec.
  destruct (strpbrk (h ++ "/"%char :: k) [":"%char]) as [a|] eqn:Ea; [|by erewrite bind_UB by by apply E].
  destruct (Nat.ltb_spec a (length h)) as [Hlt|]; [exfalso|by erewrite bind_UB by by apply E].
  apply strpbrk_Some in Ea as (s1 & c & s2 & Eq & <- & Hc & _). apply list_elem_of_singleton in Hc as ->.
  assert ((h ++ "/"%char :: k) !! length s1 = Some ":"%char) as El by (rewrite Eq; apply lookup_app_exact).
  rewrite lookup_app_l in El by done. rewrite Forall_lookup in Hh. apply (Hh _ _ El). set_solver.
Qed.

(** ** Witness: the page of the server, over HTTP/1.1 *)

Lemma sample_direct_ok : direct_ok (B "localhost") (Some (B "10000")) (B "/index.html").
Proof.
  split; [|apply Nat.ltb_lt; reflexivity| | |apply Nat.leb_le; reflexivity].
  - unfold nonNUL, plain. apply (bool_decide_unpack _). by vm_compute.
  - split; [|apply Nat.ltb_lt; reflexivity]. unfold nonNUL. apply (bool_decide_unpack _). by vm_compute.
  - split; [done|]. by apply B_nonNUL.
Qed.

Lemma webbench_requests_witness :
  ∃ g' rq d, build_request (B "http://localhost:10000/index.html") (set_http10 2 initial) start = (Ok g', start)
    ∧ cstr g'.(wrequest) = Some rq ∧ g'.(proxyport) = 10000%Z
    ∧ processRead 5 sample_fs (received rq sample_conn) = Done FILE_REQUEST d.
Proof.
  destruct (webbench_requests 5 sample_fs sample_conn (set_http10 2 initial) (B "localhost") (Some (B "10000"))
    (B "/index.html") start) as (g' & rq & d & E & Ht & _ & _ & Hp & Hr);
    [apply sample_direct_ok|apply sample_url_ok|reflexivity|split; discriminate|apply Nat.leb_le; reflexivity|].
  exists g', rq, d. split_and!; [exact E|exact Ht|exact Hp|exact Hr].
Defined.
