(* ===== verification/WebbenchCounts.v ===== *)
(** * The load generator: what is counted

    A child of webbench visits the server until its alarm goes off and counts
    pages, failures and bytes; the parent adds up what its children report.
    The alarm may go off in any system call. *)
From S2P Require Import Prelude CString HttpConn Posix NetBytes Sockets Webbench.
Import Webbench.

(** ** The part of the world a child uses *)

Record net (w : world) (acc : list (Z + saddr * list rx)) (cs : list conn) (fds : gmap Z odesc) : Prop := Net {
  n_faults : w.(w_faults) = [];
  n_accept : w.(w_accept) = acc;
  n_conns : w.(w_conns) = cs;
  n_fds : w.(w_fds) = fds
}.

Lemma socket_fresh w acc cs fds :
  net w acc cs fds →
  socket_stream w = (let fd := lowest (size fds) 0 fds in (Ok fd, set_w_fds (<[fd := DSocket None]> fds) w)).
Proof. intros [Hf _ _ Hd]. unfold socket_stream. rewrite call_ok by done. unfold new_fd. step_eq. rewrite Hd. reflexivity. Qed.

Lemma add_int_fits x n w : (- 2 ^ 31 ≤ x + n < 2 ^ 31)%Z → add_int x n w = (Ok (x + n)%Z, w).
Proof. intros. unfold add_int. rewrite (proj2 (Z.leb_le _ _)), (proj2 (Z.ltb_lt _ _)) by lia. done. Qed.

Section visits.
Variables (inet_addr gethostbyname : bytes → option Z) (host : bytes) (port a : Z).
Hypothesis resolves : inet_addr host = Some a.

Abbreviation addr := (Inet a (htons (port mod 2 ^ 16))).
Abbreviation Socket' := (Socket inet_addr gethostbyname host port).

Lemma Socket_refused w e acc cs fds :
  net w (inl e :: acc) cs fds →
  ∃ w', Socket' w = (Ok (-1)%Z, w') ∧ net w' acc cs (<[lowest (size fds) 0 fds := DSocket None]> fds).
Proof.
  intros H. pose proof (socket_fresh _ _ _ _ H) as Es. destruct H as [Hf Ha Hc Hd].
  unfold Socket. rewrite resolves. erewrite bind_ok by exact Es. clear Es.
  pose proof (lowest_le (size fds) 0 fds). set (fd := lowest _ _ _) in *.
  destruct (Z.ltb_spec fd 0); [lia|]. set (w1 := set_w_fds _ _).
  assert (connect fd addr w1 = (Ok (-1)%Z, set_w_errno e (set_w_accept acc w1))) as E.
  { unfold connect, w1. step_eq. cbn [w_fds set_w_fds]. rewrite lookup_insert_eq. step_eq.
    cbn [w_accept set_w_fds]. by rewrite Ha. }
  erewrite bind_ok by exact E. eexists. split; [reflexivity|]. by split.
Qed.

Lemma Socket_connects w peer script acc cs fds :
  net w (inr (peer, script) :: acc) cs fds →
  ∃ fd w', Socket' w = (Ok fd, w') ∧ (0 ≤ fd)%Z ∧ fds !! fd = None
    ∧ net w' acc (cs ++ [Conn script [] O_RDWR addr]) (<[fd := DConn (length cs)]> fds)
    ∧ w'.(w_forks) = w.(w_forks) ∧ w'.(w_out) = w.(w_out).
Proof.
  intros H. pose proof (socket_fresh _ _ _ _ H) as Es. destruct H as [Hf Ha Hc Hd].
  unfold Socket. rewrite resolves. erewrite bind_ok by exact Es. clear Es.
  pose proof (lowest_le (size fds) 0 fds). pose proof (lowest_fresh fds). set (fd := lowest _ _ _) in *.
  destruct (Z.ltb_spec fd 0); [lia|]. set (w1 := set_w_fds _ _).
  eexists fd, _. erewrite bind_ok.
  2:{ apply (connect_conn w1 fd addr None peer script acc); [apply lookup_insert_eq|done]. }
  split; [reflexivity|]. split; [done|]. split; [done|]. split; [|done]. split; try done; cbn.
  - by rewrite Hc.
  - rewrite Hc. apply insert_insert_eq.
Qed.

(** ** Calls on the connection of the visit *)

Section connection.
Variables (fd : Z) (fds : gmap Z odesc) (cs : list conn) (acc : list (Z + saddr * list rx)).
Hypothesis fresh : fds !! fd = None.

(** Connected, with [script] to read and [tx] written. *)
Definition visiting (script : list rx) (tx : bytes) (w : world) : Prop :=
  net w acc (cs ++ [Conn script tx O_RDWR addr]) (<[fd := DConn (length cs)]> fds).

Lemma visiting_conn script tx w :
  visiting script tx w →
  w.(w_fds) !! fd = Some (DConn (length cs))
  ∧ w.(w_conns) !! length cs = Some (Conn script tx O_RDWR addr).
Proof. intros [_ _ -> ->]. split; [apply lookup_insert_eq|apply lookup_app_exact]. Qed.

Lemma visiting_update script tx script' tx' w :
  visiting script tx w → visiting script' tx' (update_conn (length cs) (Conn script' tx' O_RDWR addr) w).
Proof.
  intros [Hf Ha Hc Hd]. split; try done. unfold update_conn. cbn [w_conns set_w_conns]. rewrite Hc.
  apply insert_app_exact.
Qed.

Lemma visiting_write script tx d w :
  visiting script tx w →
  ∃ w', write fd d w = (Ok (Z.of_nat (length d)), w') ∧ visiting script (tx ++ d) w'.
Proof.
  intros H. destruct (visiting_conn _ _ _ H) as [H1 H2]. eexists.
  erewrite write_conn; [|by destruct H|done|done]. split; [done|]. by eapply visiting_update.
Qed.

Lemma visiting_read x script tx buf w :
  visiting (RxData x :: script) tx w → length x ≤ 1500 →
  ∃ w', read fd buf 1500 w = (Ok (Z.of_nat (length x), fill x buf), w') ∧ visiting script tx w'.
Proof.
  intros H Hx. destruct (visiting_conn _ _ _ H) as [H1 H2]. eexists.
  erewrite read_data; [|by destruct H|done|done|done]. split; [done|]. by eapply visiting_update.
Qed.

Lemma visiting_end tx buf w :
  visiting [] tx w → read fd buf 1500 w = (Ok (0%Z, buf), w).
Proof.
  intros H. destruct (visiting_conn _ _ _ H) as [H1 H2]. by erewrite read_end; [|destruct H|..].
Qed.

Lemma visiting_error e script tx buf w :
  visiting (RxErr e :: script) tx w →
  ∃ w', read fd buf 1500 w = (Ok ((-1)%Z, buf), w') ∧ visiting script tx w'.
Proof.
  intros H. destruct (visiting_conn _ _ _ H) as [H1 H2]. eexists. split.
  - rewrite (read_sys w) with (z := (-1)%Z) (d := []) (w' := set_w_errno e (update_conn (length cs) (Conn script tx O_RDWR addr) w));
      [done|by destruct H|].
    unfold sys_read. step_eq. rewrite H1. step_eq. rewrite H2. reflexivity.
  - destruct (visiting_update _ _ script tx w H). by split.
Qed.

Lemma visiting_shutdown script tx w : visiting script tx w → shutdown fd w = (Ok 0%Z, w).
Proof.
  intros H. destruct (visiting_conn _ _ _ H) as [H1 H2]. unfold shutdown.
  rewrite call_ok by by destruct H. step_eq. by rewrite H1.
Qed.

Lemma visiting_close script tx w :
  visiting script tx w →
  ∃ w', close fd w = (Ok 0%Z, w') ∧ net w' acc (cs ++ [Conn script tx O_RDWR addr]) fds.
Proof.
  intros H. destruct (visiting_conn _ _ _ H) as [H1 H2]. eexists.
  rewrite close_open by by eexists. split; [done|]. destruct H as [Hf Ha Hc Hd]. split; try done.
  cbn. rewrite Hd. by rewrite delete_insert_id.
Qed.
End connection.

(** ** Visits *)

Lemma bind_same {A C} (m m' : M A) (f : A → M C) w w' : m w = m' w' → (m ≫= f) w = (m' ≫= f) w'.
Proof. intros H. unfold mbind, M_bind. by rewrite H. Qed.

(** What the server does to a visit: it refuses the connection, sends a page
    in segments, or the connection breaks after some segments. *)
Inductive visit := Refused (e : Z) | Page (peer : saddr) (ds : list bytes) | Broken (peer : saddr) (ds : list bytes) (e : Z).

Definition meets (v : visit) : Z + saddr * list rx :=
  match v with
  | Refused e => inl e
  | Page p ds => inr (p, map RxData ds)
  | Broken p ds e => inr (p, map RxData ds ++ [RxErr e])
  end.
Definition segments (v : visit) : list bytes :=
  match v with Refused _ => [] | Page _ ds | Broken _ ds _ => ds end.
Definition visit_ok (v : visit) : Prop := Forall (λ d, 0 < length d ≤ 1500) (segments v).

Definition size_of (v : visit) : Z := Z.of_nat (length (concat (segments v))).
Definition page_of (v : visit) : Z := match v with Page _ _ => 1 | _ => 0 end.
Definition fail_of (v : visit) : Z := match v with Page _ _ => 0 | _ => 1 end.
(** What the server gets, and the descriptor that is left. *)
Definition conns_of (req : bytes) (v : visit) : list conn :=
  match v with Refused _ => [] | _ => [Conn [] req O_RDWR addr] end.
Definition fds_after (v : visit) (fds : gmap Z odesc) : gmap Z odesc :=
  match v with Refused _ => <[lowest (size fds) 0 fds := DSocket None]> fds | _ => fds end.

(** The system calls of a visit, and those of them before the last read. *)
Definition half_close (g : globals) : nat := if (g.(http10) =? 0)%Z then 1 else 0.
Definition quiet (g : globals) (v : visit) : nat :=
  match v with Refused _ => 0 | _ => 2 + half_close g + length (segments v) end.
Definition calls (g : globals) (v : visit) : nat :=
  match v with Refused _ => 1 | _ => quiet g v + 2 end.

(** The variables after a visit. *)
Definition counted (v : visit) (g : globals) : globals :=
  set_gbytes (g.(gbytes) + size_of v) (set_failed (g.(failed) + fail_of v) (set_speed (g.(speed) + page_of v) g)).

(** The child when [k] calls have passed. *)
Definition passed (k : nat) (n : nat) (g : globals) : child :=
  Child (if (n <? k)%nat then alarm_handler g else g) (n - k).

Lemma sys_passed {A} (m : M A) g n w x w' :
  m w = (Ok x, w') → sys m (Child g n) w = (Ok (x, passed 1 n g), w').
Proof.
  intros H. unfold sys, passed. erewrite bind_ok by exact H. cbn [alarm_in vars].
  destruct n; cbn; rewrite ?Nat.sub_0_r; reflexivity.
Qed.

Lemma passed_quiet n g : 0 < n → passed 1 n g = Child g (n - 1).
Proof. intros. unfold passed. by destruct (Nat.ltb_spec n 1); [lia|]. Qed.

(** The counters stay inside [int]. *)
Definition room (g : globals) (p f b : Z) : Prop :=
  (0 ≤ g.(speed) ∧ g.(speed) + p < 2 ^ 31 ∧ 0 ≤ g.(failed) ∧ g.(failed) + f < 2 ^ 31
   ∧ 0 ≤ g.(gbytes) ∧ g.(gbytes) + b < 2 ^ 31)%Z.

(** The segments of a page. *)
Lemma read_segments fd fds cs acc ds rest tx buf g n w f :
  visiting fd fds cs acc (map RxData ds ++ rest) tx w →
  Forall (λ d, 0 < length d ≤ 1500) ds → length ds ≤ n → g.(timerexpired) = false →
  (0 ≤ g.(gbytes) ∧ g.(gbytes) + Z.of_nat (length (concat ds)) < 2 ^ 31)%Z →
  ∃ buf' w', loop (length ds + f) (read_turn fd) (buf, Child g n) w
      = loop f (read_turn fd) (buf', Child (set_gbytes (g.(gbytes) + Z.of_nat (length (concat ds))) g) (n - length ds)) w'
    ∧ visiting fd fds cs acc rest tx w'.
Proof.
  intros Hv Hds. revert buf g n w Hv. induction Hds as [|d ds [Hd0 Hd] _ IH]; intros buf g n w Hv Hn Ht Hb.
  { exists buf, w. split; [|done]. simpl. rewrite Z.add_0_r, Nat.sub_0_r. by destruct g. }
  cbn [concat length map app] in *. rewrite length_app in Hb.
  destruct (visiting_read fd fds cs acc d _ tx buf w Hv Hd) as (w1 & E1 & Hv1).
  destruct (IH (fill d buf) (set_gbytes (g.(gbytes) + Z.of_nat (length d)) g) (n - 1) w1)
    as (buf' & w' & E' & Hv'); [done|lia|done|cbn; lia|].
  exists buf', w'. split; [|done]. cbn [Nat.add]. erewrite loop_next.
  - rewrite E'. cbn [gbytes set_gbytes]. rewrite length_app, Nat2Z.inj_add, Z.add_assoc.
    replace (n - 1 - length ds) with (n - S (length ds)) by lia. by destruct g.
  - unfold read_turn. cbn [vars]. rewrite Ht.
    erewrite bind_ok by (apply sys_passed; exact E1). cbn [fst snd]. rewrite passed_quiet by lia.
    destruct (Z.ltb_spec (Z.of_nat (length d)) 0); [lia|].
    destruct (Z.eqb_spec (Z.of_nat (length d)) 0); [lia|]. cbn [vars].
    erewrite bind_ok by (apply add_int_fits; lia). reflexivity.
Qed.

(** The end of the page: an empty read, [close], [speed++]. *)
Lemma page_end fd fds cs acc tx buf g n w f :
  visiting fd fds cs acc [] tx w → fds !! fd = None → g.(timerexpired) = false →
  (0 ≤ g.(speed) ∧ g.(speed) + 1 < 2 ^ 31)%Z →
  ∃ w', ('(go, s) ← loop (S f) (read_turn fd) (buf, Child g n);
         if negb go then mret (inl s)
         else '(r, s) ← sys (close fd) s;
              if negb (r =? 0)%Z then s ← count_failed s; mret (inl s)
              else n ← add_int s.(vars).(speed) 1; mret (inl (B:=child) (with_vars s (set_speed n s.(vars))))) w
        = (Ok (inl (passed 2 n (set_speed (g.(speed) + 1) g))), w')
    ∧ net w' acc (cs ++ [Conn [] tx O_RDWR addr]) fds.
Proof.
  intros Hv Hf Ht Hs. destruct (visiting_close fd fds cs acc Hf [] tx w Hv) as (w' & Ec & Hw). exists w'. split; [|done].
  erewrite bind_ok.
  2:{ apply loop_break. unfold read_turn. cbn [vars]. rewrite Ht.
      erewrite bind_ok by (apply sys_passed; by eapply visiting_end). reflexivity. }
  cbv beta iota. cbn [negb].
  assert (passed 1 n g = Child (vars (passed 1 n g)) (n - 1)) as -> by done.
  erewrite bind_ok by (apply sys_passed; exact Ec). cbn [negb Z.eqb].
  assert ((vars (passed 1 (n - 1) (vars (passed 1 n g)))).(speed) = g.(speed)) as ->.
  { unfold passed. cbn [vars]. repeat case_match; by destruct g. }
  erewrite bind_ok by (apply add_int_fits; lia).
  unfold passed, with_vars. destruct n as [|[|n]]; destruct g; cbn; rewrite ?Nat.sub_0_r; reflexivity.
Qed.

(** The end of a broken visit: a failing read, [failed++], [close]. *)
Lemma broken_end fd fds cs acc e tx buf g n w f :
  visiting fd fds cs acc [RxErr e] tx w → fds !! fd = None → g.(timerexpired) = false →
  (0 ≤ g.(failed) ∧ g.(failed) + 1 < 2 ^ 31)%Z →
  ∃ w', loop (S f) (read_turn fd) (buf, Child g n) w
        = (Ok (false, passed 2 n (set_failed (g.(failed) + 1) g)), w')
    ∧ net w' acc (cs ++ [Conn [] tx O_RDWR addr]) fds.
Proof.
  intros Hv Hf Ht Hs. destruct (visiting_error fd fds cs acc e [] tx buf w Hv) as (w1 & Ee & Hv1).
  destruct (visiting_close fd fds cs acc Hf [] tx w1 Hv1) as (w' & Ec & Hw). exists w'. split; [|done].
  apply loop_break. unfold read_turn. cbn [vars]. rewrite Ht.
  erewrite bind_ok by (apply sys_passed; exact Ee). cbn [Z.ltb Z.compare]. unfold give_up_on, count_failed.
  assert ((vars (passed 1 n g)).(failed) = g.(failed)) as ->.
  { unfold passed. cbn [vars]. case_match; by destruct g. }
  erewrite bind_ok; [reflexivity|].
  erewrite bind_ok by (erewrite bind_ok by (apply add_int_fits; lia); reflexivity).
  unfold with_vars. erewrite bind_ok by (apply sys_passed; exact Ec). cbv beta iota.
  unfold mret, M_ret. do 2 f_equal.
  unfold passed. destruct n as [|[|n]]; destruct g; cbn; rewrite ?Nat.sub_0_r; reflexivity.
Qed.

Abbreviation try' := (try_turn inet_addr gethostbyname).

(** What follows the request, as [try_turn] has it. *)
Definition after_request (fuel : nat) (fd : Z) (s : child) : M (child + child) :=
  '(go, s) ← loop fuel (read_turn fd) (replicate 1500 NUL, s);
  if negb go then mret (inl s)
  else '(r, s) ← sys (close fd) s;
       if negb (r =? 0)%Z then s ← count_failed s; mret (inl s)
       else n ← add_int s.(vars).(speed) 1; mret (inl (with_vars s (set_speed n s.(vars)))).

Lemma sys_passed_more {A} (m : M A) k g n w x w' :
  m w = (Ok x, w') → sys m (passed k n g) w = (Ok (x, passed (k + 1) n g), w').
Proof.
  intros H. unfold passed at 1. rewrite (sys_passed _ _ _ _ _ _ H). do 3 f_equal. unfold passed.
  replace (n - k - 1) with (n - (k + 1)) by lia.
  destruct (Nat.ltb_spec (n - k) 1), (Nat.ltb_spec n k), (Nat.ltb_spec n (k + 1)); try lia; by destruct g.
Qed.

Lemma passed_vars k n g :
  (vars (passed k n g)).(http10) = g.(http10) ∧ (vars (passed k n g)).(force) = g.(force).
Proof. unfold passed. cbn [vars]. case_match; by destruct g. Qed.

(** The connection and the request, whether or not the alarm goes off. *)
Lemma visit_begins fuel req peer script g n w acc cs fds :
  net w (inr (peer, script) :: acc) cs fds → g.(timerexpired) = false → g.(force) = false →
  ∃ fd w', try' fuel host port req (Child g n) w = after_request fuel fd (passed (2 + half_close g) n g) w'
    ∧ visiting fd fds cs acc script req w' ∧ fds !! fd = None.
Proof.
  intros Hw Ht Hf. destruct (Socket_connects _ _ _ _ _ _ Hw) as (fd & w1 & E1 & Hfd & Hfr & Hv1 & _).
  destruct (visiting_write fd fds cs acc script [] req w1 Hv1) as (w2 & E2 & Hv2). cbn [app] in Hv2.
  exists fd, w2. split; [|done]. unfold try_turn. cbn [vars]. rewrite Ht.
  erewrite bind_ok by (apply sys_passed; exact E1). cbv beta iota. destruct (Z.ltb_spec fd 0); [lia|].
  erewrite bind_ok by (apply sys_passed_more; exact E2). cbv beta iota. rewrite Z.eqb_refl. cbn [negb].
  destruct (passed_vars (1 + 1) n g) as [Eh Ef]. rewrite Eh. unfold half_close. destruct (http10 g =? 0)%Z.
  - erewrite bind_ok by (apply sys_passed_more; by eapply visiting_shutdown). cbv beta iota. cbn [Z.eqb negb].
    destruct (passed_vars (1 + 1 + 1) n g) as [_ Ef2]. rewrite Ef2, Hf. reflexivity.
  - step_eq. cbv beta iota. cbn [Z.eqb negb]. rewrite Ef, Hf. reflexivity.
Qed.

(** With no alarm in these calls. *)
Lemma visit_starts fuel req peer script g n w acc cs fds :
  net w (inr (peer, script) :: acc) cs fds → g.(timerexpired) = false → g.(force) = false →
  2 + half_close g ≤ n →
  ∃ fd w', try' fuel host port req (Child g n) w = after_request fuel fd (Child g (n - (2 + half_close g))) w'
    ∧ visiting fd fds cs acc script req w' ∧ fds !! fd = None.
Proof.
  intros Hw Ht Hf Hn. destruct (visit_begins fuel req peer script g n w acc cs fds Hw Ht Hf) as (fd & w' & E & Hv).
  exists fd, w'. split; [|done]. rewrite E. unfold passed. by destruct (Nat.ltb_spec n (2 + half_close g)); [lia|].
Qed.

Lemma passed_after k j n g : k ≤ n → passed j (n - k) g = passed (k + j) n g.
Proof.
  intros. unfold passed. replace (n - k - j) with (n - (k + j)) by lia.
  destruct (Nat.ltb_spec (n - k) j), (Nat.ltb_spec n (k + j)); try lia; done.
Qed.

(** One visit that no alarm disturbs before its last read. *)
Lemma try_visit v fuel req g n w acc cs fds :
  visit_ok v → net w (meets v :: acc) cs fds → g.(timerexpired) = false → g.(force) = false →
  quiet g v ≤ n → length (segments v) < fuel → room g (page_of v) (fail_of v) (size_of v) →
  ∃ w', try' fuel host port req (Child g n) w = (Ok (inl (passed (calls g v) n (counted v g))), w')
    ∧ net w' acc (cs ++ conns_of req v) (fds_after v fds).
Proof.
  intros Hok Hw Ht Hf Hn Hfu (? & ? & ? & ? & ? & ?). destruct v as [e|p ds|p ds e]; cbn [segments] in *.
  - destruct (Socket_refused _ _ _ _ _ Hw) as (w' & E & Hw'). exists w'.
    cbn [conns_of fds_after]. rewrite app_nil_r. split; [|done].
    unfold try_turn. cbn [vars]. rewrite Ht. erewrite bind_ok by (apply sys_passed; exact E).
    cbv beta iota. cbn [Z.ltb Z.compare]. unfold count_failed.
    assert ((vars (passed 1 n g)).(failed) = g.(failed)) as ->.
    { unfold passed. cbn [vars]. case_match; by destruct g. }
    cbn [page_of fail_of] in *.
    erewrite bind_ok by (erewrite bind_ok by (apply add_int_fits; lia); reflexivity).
    unfold mret, M_ret. do 3 f_equal. unfold with_vars, passed, counted, calls, size_of. cbn [segments concat length page_of fail_of].
    destruct n; destruct g; cbn; rewrite ?Z.add_0_r; reflexivity.
  - destruct (visit_starts fuel req p (map RxData ds) g n w acc cs fds) as (fd & w1 & E1 & Hv & Hfr); [done..|cbn in Hn; lia|].
    cbn [quiet] in Hn. rewrite <- (app_nil_r (map RxData ds)) in Hv.
    replace fuel with (length ds + S (fuel - length ds - 1)) in E1 |- * by lia.
    edestruct (read_segments fd fds cs acc ds [] req (replicate 1500 NUL) g (n - (2 + half_close g)) w1 (S (fuel - length ds - 1)))
      as (buf & w2 & E2 & Hv2); [done|done|cbn in Hn; lia|done|unfold size_of in *; cbn [segments] in *; lia|].
    set (g2 := set_gbytes _ _) in E2.
    destruct (page_end fd fds cs acc req buf g2 (n - (2 + half_close g) - length ds) w2 (fuel - length ds - 1)) as (w' & E3 & Hw');
      [done|done|done|cbn; cbn in *; lia|].
    exists w'. split; [|done]. rewrite E1. unfold after_request.
    rewrite (bind_same _ _ _ _ _ E2), E3. do 3 f_equal.
    rewrite !passed_after by (cbn [segments] in Hn; lia). cbn [calls quiet segments].
    f_equal; [lia|]. unfold g2, counted, size_of. cbn [segments page_of fail_of].
    rewrite Z.add_0_r. by destruct g.
  - destruct (visit_starts fuel req p (map RxData ds ++ [RxErr e]) g n w acc cs fds) as (fd & w1 & E1 & Hv & Hfr); [done..|cbn in Hn; lia|].
    cbn [quiet] in Hn.
    replace fuel with (length ds + S (fuel - length ds - 1)) in E1 |- * by lia.
    edestruct (read_segments fd fds cs acc ds [RxErr e] req (replicate 1500 NUL) g (n - (2 + half_close g)) w1 (S (fuel - length ds - 1)))
      as (buf & w2 & E2 & Hv2); [done|done|cbn in Hn; lia|done|unfold size_of in *; cbn [segments] in *; lia|].
    set (g2 := set_gbytes _ _) in E2.
    destruct (broken_end fd fds cs acc e req buf g2 (n - (2 + half_close g) - length ds) w2 (fuel - length ds - 1)) as (w' & E3 & Hw');
      [done|done|done|cbn; cbn in *; lia|].
    exists w'. split; [|done]. rewrite E1. unfold after_request.
    erewrite bind_ok by (rewrite E2; exact E3). cbv beta iota. unfold mret, M_ret. do 3 f_equal.
    rewrite !passed_after by (cbn [segments] in Hn; lia). cbn [calls quiet segments].
    f_equal; [lia|]. unfold g2, counted, size_of. cbn [segments page_of fail_of].
    rewrite Z.add_0_r. by destruct g.
Qed.

(** *** A visit that the alarm cuts *)

(** The alarm has gone off: the page counts, whatever is left of it. *)
Lemma cut_end fd fds cs acc script tx buf g w f :
  visiting fd fds cs acc script tx w → fds !! fd = None → (0 ≤ g.(speed) ∧ g.(speed) + 1 < 2 ^ 31)%Z →
  ∃ w', ('(go, s) ← loop (S f) (read_turn fd) (buf, Child (alarm_handler g) 0);
         if negb go then mret (inl s)
         else '(r, s) ← sys (close fd) s;
              if negb (r =? 0)%Z then s ← count_failed s; mret (inl s)
              else n ← add_int s.(vars).(speed) 1; mret (inl (B:=child) (with_vars s (set_speed n s.(vars))))) w
        = (Ok (inl (Child (alarm_handler (set_speed (g.(speed) + 1) g)) 0)), w')
    ∧ net w' acc (cs ++ [Conn script tx O_RDWR addr]) fds.
Proof.
  intros Hv Hf Hs. destruct (visiting_close fd fds cs acc Hf script tx w Hv) as (w' & Ec & Hw). exists w'. split; [|done].
  erewrite bind_ok; [|apply loop_break; reflexivity]. cbv beta iota. cbn [negb].
  erewrite bind_ok by (apply sys_passed; exact Ec). cbn [negb Z.eqb].
  change ((vars (passed 1 0 (alarm_handler g))).(speed)) with g.(speed).
  erewrite bind_ok by (apply add_int_fits; lia). by destruct g.
Qed.

(** The segments that a visit reads when the alarm goes off in its call [m], and
    how the visit is counted. *)
Definition read_before (g : globals) (m : nat) : nat := m - (1 + half_close g).
Definition cut (g : globals) (m : nat) (v : visit) : visit :=
  if decide (m < quiet g v) then
    match v with
    | Refused e => v
    | Page p ds | Broken p ds _ => Page p (take (read_before g m) ds)
    end
  else v.
(** What the server has got then, and what it had still to send. *)
Definition conns_cut (req : bytes) (g : globals) (m : nat) (v : visit) : list conn :=
  if decide (m < quiet g v) then
    match v with
    | Refused _ => []
    | Page _ ds => [Conn (map RxData (drop (read_before g m) ds)) req O_RDWR addr]
    | Broken _ ds e => [Conn (map RxData (drop (read_before g m) ds) ++ [RxErr e]) req O_RDWR addr]
    end
  else conns_of req v.

Lemma try_cut_at fuel req peer ds rest g n w acc cs fds :
  Forall (λ d, 0 < length d ≤ 1500) ds → net w (inr (peer, map RxData ds ++ rest) :: acc) cs fds →
  g.(timerexpired) = false → g.(force) = false → n < 2 + half_close g + length ds → length ds < fuel →
  room g 1 0 (Z.of_nat (length (concat (take (read_before g n) ds)))) →
  ∃ w', try' fuel host port req (Child g n) w
        = (Ok (inl (Child (alarm_handler (counted (Page peer (take (read_before g n) ds)) g)) 0)), w')
    ∧ net w' acc (cs ++ [Conn (map RxData (drop (read_before g n) ds) ++ rest) req O_RDWR addr]) fds.
Proof.
  intros Hds Hw Ht Hf Hn Hfu (? & ? & ? & ? & ? & ?).
  destruct (visit_begins fuel req peer _ g n w acc cs fds Hw Ht Hf) as (fd & w1 & E1 & Hv & Hfr).
  rewrite E1. unfold after_request, passed. destruct (Nat.ltb_spec n (2 + half_close g)) as [Hlt|Hge].
  - unfold read_before. replace (n - (1 + half_close g)) with 0 by lia. replace (n - (2 + half_close g)) with 0 by lia.
    destruct fuel as [|f]; [lia|].
    destruct (cut_end fd fds cs acc _ req (replicate 1500 NUL) g w1 f Hv Hfr) as (w' & -> & Hw'); [lia|].
    exists w'. split; [|done]. do 4 f_equal. unfold counted, size_of. cbn. rewrite !Z.add_0_r. by destruct g.
  - set (j := n - (2 + half_close g)) in *. assert (read_before g n = S j) as Ej by (unfold read_before; lia).
    rewrite Ej in *. destruct (lookup_lt_is_Some_2 ds j) as [d Hd]; [lia|].
    pose proof (take_drop_middle ds j d Hd) as Eds. pose proof (Forall_lookup_1 _ _ _ _ Hds Hd) as [Hd0 Hd1].
    rewrite (take_S_r _ _ _ Hd) in *. rewrite <- Eds, map_app, <- app_assoc in Hv. cbn [map app] in Hv.
    rewrite concat_app, length_app in *. cbn [concat app] in *. rewrite app_nil_r in *.
    assert (length (take j ds) = j) as Lj by (rewrite length_take; lia).
    replace fuel with (length (take j ds) + S (S (fuel - j - 2))) in E1 |- * by lia.
    destruct (read_segments fd fds cs acc (take j ds) _ req (replicate 1500 NUL) g j w1 (S (S (fuel - j - 2))) Hv)
      as (buf & w2 & E2 & Hv2); [by apply Forall_take|lia|done|lia|].
    rewrite (bind_same _ _ _ _ _ E2). rewrite Lj, Nat.sub_diag. set (g2 := set_gbytes _ _).
    destruct (visiting_read fd fds cs acc d _ req buf w2 Hv2 Hd1) as (w3 & E3 & Hv3).
    assert (loop (S (S (fuel - j - 2))) (read_turn fd) (buf, Child g2 0) w2
      = loop (S (fuel - j - 2)) (read_turn fd)
          (fill d buf, Child (alarm_handler (set_gbytes (g2.(gbytes) + Z.of_nat (length d)) g2)) 0) w3) as E4.
    { apply loop_next. unfold read_turn. cbn [vars]. change (timerexpired g2) with (timerexpired g). rewrite Ht.
      erewrite bind_ok by (apply sys_passed; exact E3). cbn [fst snd].
      destruct (Z.ltb_spec (Z.of_nat (length d)) 0); [lia|].
      destruct (Z.eqb_spec (Z.of_nat (length d)) 0); [lia|].
      change (gbytes (vars (passed 1 0 g2))) with (gbytes g2).
      erewrite bind_ok by (apply add_int_fits; unfold g2; cbn; lia). by destruct g. }
    rewrite (bind_same _ _ _ _ _ E4).
    destruct (cut_end fd fds cs acc _ req (fill d buf) (set_gbytes (g2.(gbytes) + Z.of_nat (length d)) g2) w3 (fuel - j - 2) Hv3 Hfr)
      as (w' & -> & Hw'); [unfold g2; cbn; lia|].
    exists w'. split; [|done]. do 4 f_equal. unfold counted, size_of, g2. cbn [segments page_of fail_of].
    rewrite concat_app, length_app. cbn [concat app]. rewrite app_nil_r, Nat2Z.inj_add, Z.add_0_r, Z.add_assoc. by destruct g.
Qed.

(** The visit during which the alarm goes off. *)
Lemma try_last v fuel req g n w acc cs fds :
  visit_ok v → net w (meets v :: acc) cs fds → g.(timerexpired) = false → g.(force) = false →
  n < calls g v → length (segments v) < fuel → room g (page_of (cut g n v)) (fail_of (cut g n v)) (size_of (cut g n v)) →
  ∃ w', try' fuel host port req (Child g n) w = (Ok (inl (Child (alarm_handler (counted (cut g n v) g)) 0)), w')
    ∧ net w' acc (cs ++ conns_cut req g n v) (fds_after v fds).
Proof.
  intros Hok Hw Ht Hf Hn Hfu Hr. unfold cut, conns_cut in *. case_decide as Hq.
  - destruct v as [e|p ds|p ds e]; [cbn in Hq; lia|..]; cbn [segments quiet fds_after page_of fail_of size_of] in *.
    + rewrite <- (app_nil_r (map RxData (drop _ _))). apply try_cut_at; try done. by rewrite app_nil_r.
    + by apply try_cut_at.
  - destruct (try_visit v fuel req g n w acc cs fds) as (w' & E & Hw'); [done..|lia|done|done|].
    exists w'. split; [|done]. rewrite E. unfold passed. destruct (Nat.ltb_spec n (calls g v)); [|lia].
    by replace (n - calls g v) with 0 by lia.
Qed.

(** ** A run of a child *)

Definition total (f : visit → Z) (vs : list visit) : Z := foldr (λ v z, f v + z)%Z 0%Z vs.
Definition all_calls (g : globals) (vs : list visit) : nat := foldr (λ v k, calls g v + k) 0 vs.
Fixpoint fds_after_all (vs : list visit) (fds : gmap Z odesc) : gmap Z odesc :=
  match vs with [] => fds | v :: vs => fds_after_all vs (fds_after v fds) end.

(** The variables after the visits [vs]. *)
Definition counted_all (vs : list visit) (g : globals) : globals :=
  set_gbytes (g.(gbytes) + total size_of vs)
    (set_failed (g.(failed) + total fail_of vs) (set_speed (g.(speed) + total page_of vs) g)).

Lemma counts_nonneg v : (0 ≤ page_of v ∧ 0 ≤ fail_of v ∧ 0 ≤ size_of v)%Z.
Proof. unfold size_of. destruct v; simpl; lia. Qed.

Lemma total_nonneg vs : (0 ≤ total page_of vs ∧ 0 ≤ total fail_of vs ∧ 0 ≤ total size_of vs)%Z.
Proof.
  induction vs as [|v vs IH]; [done|]. pose proof (counts_nonneg v).
  unfold total in *. cbn [foldr]. lia.
Qed.

Lemma total_app f vs vs' : total f (vs ++ vs') = (total f vs + total f vs')%Z.
Proof. induction vs as [|v vs IH]; [done|]. unfold total in *. cbn [foldr app]. rewrite IH. lia. Qed.

Lemma all_calls_counted v g vs : all_calls (counted v g) vs = all_calls g vs.
Proof. induction vs as [|v' vs IH]; [done|]. unfold all_calls in *. cbn [foldr]. by rewrite IH. Qed.

Lemma counted_all_cons v vs g : counted_all vs (counted v g) = counted_all (v :: vs) g.
Proof. destruct g. unfold counted_all, counted, total. cbn. by rewrite !Z.add_assoc. Qed.

Lemma loop_visits fuel req vs g n w acc cs fds f :
  Forall (λ v, visit_ok v ∧ length (segments v) < fuel) vs → net w (map meets vs ++ acc) cs fds →
  g.(timerexpired) = false → g.(force) = false → all_calls g vs ≤ n →
  room g (total page_of vs) (total fail_of vs) (total size_of vs) →
  ∃ w', loop (length vs + f) (try' fuel host port req) (Child g n) w
      = loop f (try' fuel host port req) (Child (counted_all vs g) (n - all_calls g vs)) w'
    ∧ net w' acc (cs ++ concat (map (conns_of req) vs)) (fds_after_all vs fds).
Proof.
  intros Hvs. revert g n w cs fds. induction Hvs as [|v vs [Hv Hs] _ IH]; intros g n w cs fds Hw Ht Hf Hn Hr.
  { exists w. cbn. rewrite app_nil_r, Nat.sub_0_r. split; [|done]. f_equal. f_equal.
    unfold counted_all, total. cbn. rewrite !Z.add_0_r. by destruct g. }
  pose proof (total_nonneg vs). pose proof (counts_nonneg v).
  assert (all_calls g (v :: vs) = calls g v + all_calls g vs) as Ec by done.
  assert (∀ h, total h (v :: vs) = (h v + total h vs)%Z) as Et by done.
  rewrite Ec in *. rewrite !Et in Hr. unfold room in Hr.
  assert (quiet g v ≤ calls g v) by (destruct v; simpl; lia).
  destruct (try_visit v fuel req g n w (map meets vs ++ acc) cs fds) as (w1 & E1 & Hw1);
    [done|done|done|done|lia|done|unfold room; lia|].
  destruct (IH (counted v g) (n - calls g v) w1 (cs ++ conns_of req v) (fds_after v fds))
    as (w' & E & Hw'); [done|done|done|rewrite all_calls_counted; lia|unfold room; cbn; lia|].
  exists w'. cbn [map concat fds_after_all]. rewrite app_assoc. split; [|done].
  cbn [length Nat.add]. erewrite loop_next by exact E1.
  unfold passed. destruct (Nat.ltb_spec n (calls g v)); [lia|].
  rewrite E, all_calls_counted, counted_all_cons. by replace (n - calls g v - all_calls g vs) with (n - (calls g v + all_calls g vs)) by lia.
Qed.

(** The correction at the end: one failure less, if there is any. *)
Definition corrected (g : globals) : globals :=
  set_timerexpired true (if (0 <? g.(failed))%Z then set_failed (g.(failed) - 1) g else g).

Lemma child_run fuel req vs v g n w acc cs fds f :
  Forall (λ v, visit_ok v ∧ length (segments v) < fuel) (vs ++ [v]) →
  net w (map meets (vs ++ [v]) ++ acc) cs fds →
  g.(timerexpired) = false → g.(force) = false →
  all_calls g vs ≤ n < all_calls g vs + calls g v →
  let last := cut g (n - all_calls g vs) v in
  room g (total page_of (vs ++ [last])) (total fail_of (vs ++ [last])) (total size_of (vs ++ [last])) →
  ∃ s w', loop (length vs + 2 + f) (try' fuel host port req) (Child g n) w = (Ok s, w')
    ∧ s.(vars) = corrected (counted_all (vs ++ [last]) g)
    ∧ net w' acc (cs ++ concat (map (conns_of req) vs) ++ conns_cut req g (n - all_calls g vs) v) (fds_after_all (vs ++ [v]) fds).
Proof.
  intros Hvs Hw Ht Hf [Hn1 Hn2] last Hr. apply Forall_app in Hvs as [Hvs Hv]. apply Forall_singleton in Hv as [Hv Hs].
  rewrite map_app, <- app_assoc in Hw. rewrite !total_app in Hr. unfold room in Hr.
  pose proof (total_nonneg vs). pose proof (counts_nonneg last).
  assert (∀ h u, total h [u] = h u) as Et by (intros; unfold total; cbn; lia). rewrite !Et in Hr.
  destruct (loop_visits fuel req vs g n w (map meets [v] ++ acc) cs fds (2 + f)) as (w1 & E1 & Hw1);
    [done|done|done|done|lia|unfold room; lia|].
  set (g1 := counted_all vs g) in *.
  destruct (try_last v fuel req g1 (n - all_calls g vs) w1 acc (cs ++ concat (map (conns_of req) vs)) (fds_after_all vs fds))
    as (w2 & E2 & Hw2); [done|done|done|done|change (calls g1 v) with (calls g v); lia|done| |].
  { change (cut g1 (n - all_calls g vs) v) with last. unfold room, g1. cbn. lia. }
  rewrite <- Nat.add_assoc, E1. cbn [Nat.add]. erewrite loop_next by exact E2.
  change (cut g1 (n - all_calls g vs) v) with last.
  eexists _, w2. split; [apply loop_break; reflexivity|]. split.
  - unfold corrected. cbn [vars]. unfold g1, counted, counted_all. rewrite !total_app, !Et. cbn. rewrite !Z.add_assoc.
    by destruct (0 <? _)%Z.
  - rewrite app_assoc.
    replace (fds_after_all (vs ++ [v]) fds) with (fds_after v (fds_after_all vs fds)); [exact Hw2|].
    clear. revert fds. induction vs as [|x vs IH]; intros fds; [done|]. cbn. apply IH.
Qed.
End visits.

(** ** The parent *)

Lemma isdigit_pretty d : (d < 10)%N → isdigit (pretty_N_char d) = true ∧ digit (pretty_N_char d) = Z.of_N d.
Proof.
  intros H. assert (d = 0 ∨ d = 1 ∨ d = 2 ∨ d = 3 ∨ d = 4 ∨ d = 5 ∨ d = 6 ∨ d = 7 ∨ d = 8 ∨ d = 9)%N as Hd by lia.
  repeat destruct Hd as [->|Hd]; try done. by subst.
Qed.

(** The digits of a number, read in front of any text. *)
Lemma scan_pretty_go x t : ∃ k, (0 ≤ k)%Z ∧ ∀ acc s,
  scan_digits acc (B (pretty_N_go x s) ++ t) = scan_digits (acc * 10 ^ k + Z.of_N x) (B s ++ t).
Proof.
  induction (N.lt_wf_0 x) as [x _ IH]. destruct (decide (0 < x)%N) as [Hx|Hx].
  - destruct (IH (x / 10)%N) as (k & Hk & E); [apply N.div_lt; lia|].
    exists (k + 1)%Z. split; [lia|]. intros acc s. rewrite pretty_N_go_step by done. rewrite E.
    destruct (isdigit_pretty (x mod 10)) as [E1 E2]; [apply N.mod_lt; lia|].
    change (B (String (pretty_N_char (x mod 10)) s) ++ t) with (pretty_N_char (x mod 10) :: B s ++ t).
    cbn [scan_digits]. rewrite E1, E2. f_equal.
    rewrite Z.pow_add_r by lia. rewrite N2Z.inj_mod, N2Z.inj_div.
    pose proof (Z.div_mod (Z.of_N x) 10). lia.
  - exists 0%Z. split; [lia|]. intros acc s. replace x with 0%N by lia. f_equal. lia.
Qed.

Lemma scan_dec z c k : (0 ≤ z)%Z → isdigit c = false → scan_digits 0 (dec z ++ c :: k) = (z, c :: k).
Proof.
  intros Hz Hc. unfold dec. destruct z as [|p|p]; [| |lia].
  { change (B (pretty 0%Z) ++ c :: k) with ("0"%char :: c :: k). cbn [scan_digits].
    change (isdigit "0") with true. cbn [scan_digits]. by rewrite Hc. }
  change (pretty (Z.pos p)) with (pretty (N.pos p)). unfold pretty, pretty_N. rewrite decide_False by done.
  destruct (scan_pretty_go (N.pos p) (c :: k)) as (j & _ & ->).
  change (B "" ++ c :: k) with (c :: k). cbn [scan_digits]. by rewrite Hc.
Qed.

Lemma dec_head z : (0 ≤ z)%Z → ∃ c k, dec z = c :: k ∧ isdigit c = true.
Proof.
  intros Hz. destruct (decide (z = 0)%Z) as [->|Hn]; [by exists "0"%char, []|].
  pose proof (scan_dec z SP [] Hz eq_refl) as H. destruct (dec z) as [|c k] eqn:E.
  - cbn [app scan_digits] in H. change (isdigit SP) with false in H. congruence.
  - exists c, k. split; [done|]. destruct (isdigit c) eqn:Ec; [done|].
    cbn [app scan_digits] in H. rewrite Ec in H. congruence.
Qed.

Lemma isdigit_not c : isdigit c = true → isspace c = false ∧ Ascii.eqb c "-" = false ∧ Ascii.eqb c "+" = false.
Proof.
  intros H%isdigit_chars. cbv [B String.list_ascii_of_string] in H.
  repeat (apply elem_of_cons in H as [->|H]; [split_and!; reflexivity|]). by apply not_elem_of_nil in H.
Qed.

(** Blank, number, then a character that is no digit. *)
Lemma scan_int_dec z b c k :
  (0 ≤ z < 2 ^ 31)%Z → Forall (λ x, isspace x = true) b → isdigit c = false →
  scan_int (b ++ dec z ++ c :: k) = Some (Some z, c :: k).
Proof.
  intros Hz Hb Hc. unfold scan_int.
  destruct (dec_head z) as (d & r & Ed & Hd); [lia|]. destruct (isdigit_not d Hd) as (H1 & H2 & H3).
  assert (skip_spaces (b ++ dec z ++ c :: k) = dec z ++ c :: k) as ->.
  { induction Hb as [|x b Hx _ IH]; cbn; [rewrite Ed; cbn; by rewrite H1|by rewrite Hx]. }
  pose proof (scan_dec z c k) as Es. rewrite Ed in *. cbn [app] in *. rewrite H2, H3, Hd, Es by (done || lia).
  do 3 f_equal. rewrite to_int32_id; lia.
Qed.

(** What the children report, in the order in which their lines arrive. *)
Definition line_of_report (r : Z * Z * Z) : bytes :=
  dec r.1.1 ++ SP :: dec r.1.2 ++ SP :: dec r.2 ++ [LF].
Definition report_ok (r : Z * Z * Z) : Prop :=
  (0 ≤ r.1.1 < 2 ^ 31 ∧ 0 ≤ r.1.2 < 2 ^ 31 ∧ 0 ≤ r.2 < 2 ^ 31)%Z.

Lemma fscanf_line b r k :
  report_ok r → Forall (λ x, isspace x = true) b →
  fscanf 3 (b ++ line_of_report r ++ k) = Some ([r.1.1; r.1.2; r.2], LF :: k).
Proof.
  intros (H1 & H2 & H3) Hb. unfold line_of_report. rewrite <- !app_assoc. cbn [app fscanf].
  rewrite <- !app_assoc. cbn [app]. rewrite <- !app_assoc. cbn [app].
  rewrite scan_int_dec by done. cbn [mbind option_bind].
  change (SP :: dec r.1.2 ++ SP :: dec r.2 ++ LF :: k) with ([SP] ++ dec r.1.2 ++ SP :: dec r.2 ++ LF :: k).
  rewrite scan_int_dec by (done || by repeat constructor). cbn [mbind option_bind].
  change (SP :: dec r.2 ++ LF :: k) with ([SP] ++ dec r.2 ++ LF :: k).
  by rewrite scan_int_dec by (done || by repeat constructor).
Qed.

Definition sum_of (f : Z * Z * Z → Z) (rs : list (Z * Z * Z)) : Z := foldr (λ r z, f r + z)%Z 0%Z rs.

Lemma sum_of_perm f rs rs' : rs ≡ₚ rs' → sum_of f rs = sum_of f rs'.
Proof. unfold sum_of. induction 1; cbn; lia. Qed.

Lemma sum_of_nonneg f rs : (∀ r, r ∈ rs → 0 ≤ f r)%Z → (0 ≤ sum_of f rs)%Z.
Proof.
  induction rs as [|r rs IH]; intros H; [done|]. unfold sum_of in *. cbn [foldr].
  pose proof (H r ltac:(set_solver)). assert (∀ r, r ∈ rs → 0 ≤ f r)%Z by set_solver. specialize (IH H1). lia.
Qed.

Definition sp (r : Z * Z * Z) : Z := r.1.1.
Definition fa (r : Z * Z * Z) : Z := r.1.2.
Definition by_ (r : Z * Z * Z) : Z := r.2.

(** The variables of the parent when the reports [rs] are read. *)
Definition summed (rs : list (Z * Z * Z)) (g : globals) : globals :=
  set_clients (g.(clients) - Z.of_nat (length rs))
    (set_gbytes (g.(gbytes) + sum_of by_ rs)
      (set_failed (g.(failed) + sum_of fa rs) (set_speed (g.(speed) + sum_of sp rs) g))).

Lemma sums_nonneg rs :
  Forall report_ok rs → (0 ≤ sum_of sp rs ∧ 0 ≤ sum_of fa rs ∧ 0 ≤ sum_of by_ rs)%Z.
Proof.
  intros H. rewrite Forall_forall in H.
  split_and!; apply sum_of_nonneg; intros r Hr; destruct (H r Hr) as (? & ? & ?); unfold sp, fa, by_; lia.
Qed.

Lemma sum_of_cons f r rs : sum_of f (r :: rs) = (f r + sum_of f rs)%Z.
Proof. done. Qed.

Lemma sum_of_nil f : sum_of f [] = 0%Z.
Proof. done. Qed.

Lemma summed_cons r rs g : summed rs (summed [r] g) = summed (r :: rs) g.
Proof.
  destruct g. cbv [summed set_clients set_gbytes set_failed set_speed timerexpired speed failed gbytes http10
    wmethod clients force force_reload proxyport proxyhost benchtime whost wrequest].
  rewrite !sum_of_cons, !sum_of_nil. cbn [length]. f_equal; lia.
Qed.

(** One report. *)
Lemma collect_one fuel b r k i kk g w :
  Forall (λ x, isspace x = true) b → report_ok r → room g (sp r) (fa r) (by_ r) →
  (0 < g.(clients) < 2 ^ 31)%Z →
  collect (S fuel) (b ++ line_of_report r ++ k) i kk g w
  = (if (g.(clients) =? 1)%Z then (Ok (sp r, summed [r] g), w)
     else collect fuel (LF :: k) (sp r) (Some (by_ r)) (summed [r] g) w).
Proof.
  intros Hb Hr (? & ? & ? & ? & ? & ?) Hc. pose proof Hr as (? & ? & ?). unfold sp, fa, by_ in *.
  cbn [collect]. rewrite fscanf_line by done. cbn [lookup list_lookup from_option]. unfold id.
  erewrite bind_ok by (apply add_int_fits; lia). erewrite bind_ok by (apply add_int_fits; lia).
  erewrite bind_ok by (apply add_int_fits; lia). erewrite bind_ok by (apply add_int_fits; lia).
  cbn [clients set_clients].
  assert (set_clients (clients g + -1) (set_gbytes (gbytes g + r.2)
    (set_failed (failed g + r.1.2) (set_speed (speed g + r.1.1) g))) = summed [r] g) as ->.
  { unfold summed, sum_of, sp, fa, by_. cbn. by rewrite !Z.add_0_r. }
  destruct (Z.eqb_spec (clients g + -1) 0), (Z.eqb_spec (clients g) 1); try lia; done.
Qed.

Lemma collect_reports fuel rs r b k i kk g w :
  Forall report_ok (rs ++ [r]) → Forall (λ x, isspace x = true) b → length rs < fuel →
  g.(clients) = Z.of_nat (S (length rs)) → (g.(clients) < 2 ^ 31)%Z →
  room g (sum_of sp (rs ++ [r])) (sum_of fa (rs ++ [r])) (sum_of by_ (rs ++ [r])) →
  collect fuel (b ++ concat (map line_of_report (rs ++ [r])) ++ k) i kk g w
  = (Ok (sp r, summed (rs ++ [r]) g), w).
Proof.
  intros Hrs. revert b i kk g fuel. induction rs as [|x rs IH]; intros b i kk g fuel Hb Hf Hc Hc' Hroom.
  - cbn [app] in *. rewrite Forall_singleton in Hrs. destruct fuel as [|fuel]; [cbn in Hf; lia|].
    cbn [map concat]. rewrite app_nil_r. unfold room in Hroom. rewrite !sum_of_cons, !sum_of_nil in Hroom.
    rewrite collect_one by (done || lia || (unfold room; lia)). by rewrite Hc.
  - cbn [app map concat length] in *. apply Forall_cons in Hrs as [Hx Hrs]. destruct fuel as [|fuel]; [lia|].
    pose proof (sums_nonneg _ Hrs). pose proof Hx as (? & ? & ?). unfold room in Hroom. rewrite !sum_of_cons in Hroom.
    rewrite <- app_assoc. rewrite collect_one by (done || lia || (unfold room; lia)).
    destruct (Z.eqb_spec (clients g) 1); [lia|].
    change (LF :: concat (map line_of_report (rs ++ [r])) ++ k) with ([LF] ++ concat (map line_of_report (rs ++ [r])) ++ k).
    rewrite IH; [by rewrite summed_cons|done|by repeat constructor|lia| | |].
    + unfold summed. cbn. lia.
    + unfold summed. cbn. lia.
    + unfold room, summed. cbn -[sum_of]. rewrite !sum_of_cons, !sum_of_nil. unfold sp, fa, by_ in *. lia.
Qed.

(** Without the last report the parent waits. *)
Lemma collect_waits fuel rs b i kk g w :
  Forall report_ok rs → Forall (λ x, isspace x = true) b → length rs < fuel →
  (Z.of_nat (length rs) < g.(clients) < 2 ^ 31)%Z →
  room g (sum_of sp rs) (sum_of fa rs) (sum_of by_ rs) →
  collect fuel (b ++ concat (map line_of_report rs)) i kk g w = (Blocked, w).
Proof.
  intros Hrs. revert b i kk g fuel. induction Hrs as [|x rs Hx Hrs IH]; intros b i kk g fuel Hb Hf Hc Hroom;
    (destruct fuel as [|fuel]; [cbn in Hf; lia|]).
  - assert (skip_spaces b = []) as Eb.
    { clear -Hb. induction Hb as [|y b Hy _ IHb]; cbn [skip_spaces]; [done|by rewrite Hy]. }
    assert (scan_int b = None) as Es by (unfold scan_int; by rewrite Eb).
    cbn [map concat collect fscanf]. rewrite app_nil_r, Es. done.
  - cbn [map concat length] in *.
    pose proof (sums_nonneg _ Hrs). pose proof Hx as (? & ? & ?). unfold room in Hroom. rewrite !sum_of_cons in Hroom.
    rewrite collect_one by (done || lia || (unfold room; lia)).
    destruct (Z.eqb_spec (clients g) 1); [lia|].
    apply (IH [LF]); [by repeat constructor|lia|unfold summed; cbn; lia|].
    unfold room, summed. cbn -[sum_of]. rewrite !sum_of_cons, !sum_of_nil. unfold sp, fa, by_ in *. lia.
Qed.

Lemma result_line_report g : result_line g = line_of_report (g.(speed), g.(failed), g.(gbytes)).
Proof. done. Qed.

Lemma forks_parent pids k i pid w :
  w.(w_forks) = pids → Forall (λ p, (0 < p)%Z) pids → length pids = k →
  ∃ pid', forks k i pid w = (Ok ((i + Z.of_nat k)%Z, pid'), set_w_forks [] w) ∧ (k = 0 → pid' = pid)
    ∧ (0 < k → (0 < pid')%Z).
Proof.
  intros Hw Hp. revert k i pid w Hw. induction Hp as [|p pids Hp _ IH]; intros k i pid w Hw <-.
  { exists pid. cbn. rewrite Z.add_0_r. split_and!; [|done|lia]. destruct w. cbn in *. by subst. }
  cbn [length forks].
  assert (fork w = (Ok p, set_w_forks pids w)) as E.
  { unfold fork. step_eq. rewrite Hw. step_eq. destruct (Z.ltb_spec p 0); [lia|done]. }
  erewrite bind_ok by exact E. destruct (Z.leb_spec p 0); [lia|].
  destruct (IH (length pids) (i + 1)%Z p (set_w_forks pids w)) as (q & E' & H0 & H1); [done|done|].
  exists q. rewrite E'. split_and!; [|done|].
  - do 2 f_equal. f_equal. lia.
  - intros _. destruct (length pids); [by rewrite H0|apply H1; lia].
Qed.

(** The two lines of the end. *)
Definition report_text (p b s f : Z) : bytes :=
  LF :: B "Speed=" ++ dec p ++ B " pages/min, " ++ dec b ++ B " bytes/sec." ++ LF ::
  B "Requests: " ++ dec s ++ B " susceed, " ++ dec f ++ B " failed." ++ [LF].

Lemma report_prints g p b w :
  (- 2 ^ 31 ≤ g.(speed) + g.(failed) < 2 ^ 31)%Z →
  (∀ w, pages_per_min (g.(speed) + g.(failed)) g.(benchtime) w = (Ok p, w)) →
  (∀ w, bytes_per_sec g.(gbytes) g.(benchtime) w = (Ok b, w)) →
  report g w = (Ok tt, say (report_text p b g.(speed) g.(failed)) w).
Proof.
  intros Hr Hp Hb. unfold report. erewrite bind_ok by by apply add_int_fits.
  erewrite bind_ok by apply Hp. erewrite bind_ok by apply Hb. apply print_say.
Qed.

(** The parent of a benchmark whose server answers and whose forks succeed. *)
Section parent.
Variables (inet_addr gethostbyname : bytes → option Z) (a : Z) (h : bytes).
Hypothesis resolves : inet_addr h = Some a.

Lemma bench_parent fuel n g piped w peer script acc cs fds pids :
  cstr (target g) = Some h → net w (inr (peer, script) :: acc) cs fds →
  w.(w_forks) = pids → Forall (λ p, (0 < p)%Z) pids → length pids = Z.to_nat g.(clients) → (0 < g.(clients))%Z →
  ∃ w', bench inet_addr gethostbyname fuel n piped g w
      = ('(i, g) ← collect fuel piped g.(clients) None (set_gbytes 0 (set_failed 0 (set_speed 0 g)));
         report g;; mret (i, [])) w'
    ∧ w'.(w_out) = w.(w_out).
Proof.
  intros Hh Hw Hfk Hp Hlen Hc. unfold bench. erewrite bind_ok by by apply c_string_ok.
  destruct (Socket_connects inet_addr gethostbyname h (proxyport g) a resolves _ _ _ _ _ _ Hw)
    as (fd & w1 & E1 & Hfd & _ & [Hf1 _ _ Hd1] & Hk1 & Hout1).
  assert (is_Some (w1.(w_fds) !! fd)) by (rewrite Hd1, lookup_insert_eq; by eexists).
  erewrite bind_ok by exact E1. destruct (Z.ltb_spec fd 0); [lia|].
  erewrite bind_ok by by apply close_open. set (w2 := set_w_epoll _ _).
  erewrite bind_ok; [|by rewrite call_ok]. cbn [Z.eqb negb].
  destruct (forks_parent pids (Z.to_nat (clients g)) 0 0 w2) as (pid & E2 & _ & Hpid); [by rewrite <- Hfk|done|done|].
  specialize (Hpid ltac:(lia)). erewrite bind_ok by exact E2. cbv beta iota.
  destruct (Z.ltb_spec pid 0); [lia|]. destruct (Z.eqb_spec pid 0); [lia|].
  erewrite bind_ok; [|by rewrite call_ok]. cbn [Z.ltb Z.compare].
  exists (set_w_forks [] w2). split; [|done]. by rewrite Z.add_0_l, Z2Nat.id by lia.
Qed.
End parent.

Lemma set_counts_zero g : room (set_gbytes 0 (set_failed 0 (set_speed 0 g))) = room (set_gbytes 0 (set_failed 0 (set_speed 0 initial))).
Proof. done. Qed.

(** When a child dies before it reports, the parent waits for ever: it holds
    the writing end of its own pipe, so the end of the file never comes. *)
Lemma bench_waits inet_addr gethostbyname a h fuel n g w rs peer script acc cs fds pids :
  inet_addr h = Some a → cstr (target g) = Some h → net w (inr (peer, script) :: acc) cs fds →
  w.(w_forks) = pids → Forall (λ p, (0 < p)%Z) pids → length pids = Z.to_nat g.(clients) →
  Forall report_ok rs → (Z.of_nat (length rs) < g.(clients) < 2 ^ 31)%Z → length rs < fuel →
  (sum_of sp rs < 2 ^ 31 ∧ sum_of fa rs < 2 ^ 31 ∧ sum_of by_ rs < 2 ^ 31)%Z →
  (bench inet_addr gethostbyname fuel n (concat (map line_of_report rs)) g w).1 = Blocked.
Proof.
  intros Ha Hh Hw Hfk Hp Hlen Hrs Hc Hf (? & ? & ?).
  destruct (bench_parent inet_addr gethostbyname a h Ha fuel n g (concat (map line_of_report rs)) w peer script acc cs fds pids)
    as (w1 & -> & _); [done..|lia|].
  erewrite bind_blocked; [done|]. apply (collect_waits fuel rs []); [done|constructor|done|done|].
  rewrite set_counts_zero. unfold room. cbn. lia.
Qed.

(** ** Properties: the counts *)

(** C34. A child (without the option [-f]) that visits the server until its alarm
    goes off, in any system call of its last visit, returns the number of pages
    it read to their end, the bytes read in all visits, the broken ones too, and
    the number of failed visits less one, if there was any: the failure the
    alarm itself causes is taken back, and so is another one when the alarm
    caused none.  If the alarm goes off before the last read of a visit, the
    visit counts as a page that was read to its end, with the bytes read so far,
    however much of the page is missing.  Every connection got the request, and
    every refused one leaves a descriptor. *)
Theorem benchcore_counts inet_addr gethostbyname host port a fuel reqbuf req vs v g n w acc cs fds :
  inet_addr host = Some a → cstr reqbuf = Some req →
  Forall (λ v, visit_ok v ∧ length (segments v) < fuel) (vs ++ [v]) → length vs + 2 ≤ fuel →
  net w (map meets (vs ++ [v]) ++ acc) cs fds → g.(timerexpired) = false → g.(force) = false →
  all_calls g vs ≤ n < all_calls g vs + calls g v →
  let last := cut g (n - all_calls g vs) v in
  room g (total page_of (vs ++ [last])) (total fail_of (vs ++ [last])) (total size_of (vs ++ [last])) →
  ∃ w', benchcore inet_addr gethostbyname fuel host port reqbuf n g w
      = (Ok (corrected (counted_all (vs ++ [last]) g)), w')
    ∧ net w' acc (cs ++ concat (map (conns_of port a req) vs) ++ conns_cut port a req g (n - all_calls g vs) v)
        (fds_after_all (vs ++ [v]) fds).
Proof.
  intros Ha Hreq Hvs Hfuel Hw Ht Hf Hn last Hr. unfold benchcore.
  erewrite bind_ok; [|by rewrite call_ok by by destruct Hw]. cbn [Z.eqb negb].
  erewrite bind_ok by by apply c_string_ok.
  destruct (child_run inet_addr gethostbyname host port a Ha fuel req vs v g n w acc cs fds (fuel - length vs - 2))
    as (s & w' & E & Hs & Hw'); [done..|].
  replace (length vs + 2 + (fuel - length vs - 2)) with fuel in E by lia.
  erewrite bind_ok by exact E. rewrite Hs. by exists w'.
Qed.

(** The parent adds up what its children report, in whatever order their
    lines arrive, and prints the sums; its result, which [main] returns, is
    not 0 but the number of pages of the child whose line came last. *)
Theorem bench_adds_up inet_addr gethostbyname a h fuel n g w results rs r p b peer script acc cs fds pids :
  inet_addr h = Some a → cstr (target g) = Some h → net w (inr (peer, script) :: acc) cs fds →
  w.(w_forks) = pids → Forall (λ p, (0 < p)%Z) pids → length pids = Z.to_nat g.(clients) →
  results ≡ₚ rs ++ [r] → Forall report_ok results → g.(clients) = Z.of_nat (length results) →
  (g.(clients) < 2 ^ 31)%Z → length rs < fuel →
  (sum_of sp results + sum_of fa results < 2 ^ 31 ∧ sum_of by_ results < 2 ^ 31)%Z →
  (∀ w, pages_per_min (sum_of sp results + sum_of fa results) g.(benchtime) w = (Ok p, w)) →
  (∀ w, bytes_per_sec (sum_of by_ results) g.(benchtime) w = (Ok b, w)) →
  ∃ w', bench inet_addr gethostbyname fuel n (concat (map line_of_report (rs ++ [r]))) g w = (Ok (sp r, []), w')
    ∧ w'.(w_out) = w.(w_out) ++ report_text p b (sum_of sp results) (sum_of fa results).
Proof.
  intros Ha Hh Hw Hfk Hp Hlen Hperm Hrs Hc Hc' Hf [? ?] Hpm Hbs.
  pose proof (Permutation_length Hperm) as Hl. rewrite length_app in Hl. cbn in Hl.
  rewrite !(sum_of_perm _ _ _ Hperm) in *. rewrite Hperm in Hrs. pose proof (sums_nonneg _ Hrs).
  destruct (bench_parent inet_addr gethostbyname a h Ha fuel n g (concat (map line_of_report (rs ++ [r]))) w peer script acc cs fds pids)
    as (w1 & -> & Hout); [done..|lia|].
  assert (collect fuel (concat (map line_of_report (rs ++ [r]))) g.(clients) None
    (set_gbytes 0 (set_failed 0 (set_speed 0 g))) w1
    = (Ok (sp r, summed (rs ++ [r]) (set_gbytes 0 (set_failed 0 (set_speed 0 g)))), w1)) as E.
  { rewrite <- (app_nil_r (concat _)). apply (collect_reports fuel rs r []); [done|constructor|done|cbn; lia|done|].
    rewrite set_counts_zero. unfold room. cbn. lia. }
  erewrite bind_ok by exact E. cbv beta iota. erewrite bind_ok by (by eapply report_prints; cbn; try lia).
  eexists. split; [reflexivity|]. unfold say. cbn [w_out set_w_out speed failed summed set_clients set_gbytes set_failed set_speed].
  by rewrite Hout.
Qed.

(** ** Witnesses *)

(** A refused visit, a page of two segments, and a page that the alarm cuts after
    the first of its three segments. *)
Definition sample_visits : list visit := [Refused 111; Page (Inet 1 2) [B "HTTP/1.1 200 OK"; B "page"]].
Definition cut_visit : visit := Page (Inet 1 2) [B "HTTP"; B "/1.1"; B " 200"].
Definition sample_address (s : bytes) : option Z := Some 1%Z.
Definition nobody (s : bytes) : option Z := None.
Definition visits_world : world := set_w_accept (map meets (sample_visits ++ [cut_visit])) start.

Lemma benchcore_counts_witness :
  ∃ w' g', benchcore sample_address nobody 10 (B "localhost") 80 (B "GET /" ++ [NUL]) 9 (set_http10 2 initial) visits_world
      = (Ok g', w') ∧ g'.(speed) = 2%Z ∧ g'.(failed) = 0%Z ∧ g'.(gbytes) = 23%Z.
Proof.
  destruct (benchcore_counts sample_address nobody (B "localhost") 80 1 10 (B "GET /" ++ [NUL]) (B "GET /")
    sample_visits cut_visit (set_http10 2 initial) 9 visits_world [] [] std_fds) as (w' & E & _).
  - reflexivity.
  - reflexivity.
  - repeat constructor; cbn; try lia.
  - cbn. lia.
  - by split.
  - reflexivity.
  - reflexivity.
  - cbn. lia.
  - unfold room. vm_compute. split_and!; done.
  - exists w'. eexists. split; [exact E|]. split_and!; reflexivity.
Defined.

Definition bench_world : world := set_w_forks [101; 102]%Z (set_w_accept [inr (Inet 1 2, [])] start).
Definition two_clients : globals :=
  set_whost (B "localhost" ++ replicate 55 NUL) (set_clients 2 initial).

Lemma bench_adds_up_witness :
  ∃ w', bench sample_address nobody 5 0 (concat (map line_of_report [(40, 0, 900); (20, 3, 600)]%Z)) two_clients bench_world
      = (Ok (20%Z, []), w')
    ∧ w'.(w_out) = report_text 126 50 60 3.
Proof.
  apply (bench_adds_up sample_address nobody 1 (B "localhost") 5 0 two_clients bench_world
    [(20, 3, 600); (40, 0, 900)]%Z [(40, 0, 900)]%Z (20, 3, 600)%Z 126 50 (Inet 1 2) [] [] [] std_fds [101; 102]%Z).
  - reflexivity.
  - reflexivity.
  - by split.
  - reflexivity.
  - repeat constructor.
  - reflexivity.
  - apply Permutation_swap.
  - repeat constructor; cbn; lia.
  - reflexivity.
  - reflexivity.
  - cbn. lia.
  - vm_compute. by split.
  - intros w. reflexivity.
  - intros w. reflexivity.
Defined.
