(* ===== verification/Intset.v ===== *)
(** * The integer set of Redis

    redis-5.0.10/src/intset.c: a sorted set of integers in one block of
    memory, every element in 2, 4 or 8 bytes.  The block is a list of bytes;
    a read or a store outside it is undefined and makes the operation return
    [None].  The host is little-endian, so that the conversions of
    endianconv.h do nothing. *)
From S2P Require Import Prelude.

Module Intset.

(** ** Bytes of integers *)

(** The [n] bytes of an integer, lowest first, and the integer of some bytes,
    unsigned and in two's complement. *)
Fixpoint le_bytes (n : nat) (v : Z) : list Z :=
  match n with 0 => [] | S n => (v mod 256)%Z :: le_bytes n (v / 256)%Z end.
Fixpoint le_unsigned (l : list Z) : Z :=
  match l with [] => 0 | b :: l => b + 256 * le_unsigned l end%Z.
Definition le_signed (l : list Z) : Z :=
  let u := le_unsigned l in
  let m := (256 ^ Z.of_nat (length l))%Z in
  if (2 * u <? m)%Z then u else (u - m)%Z.

(** [memcpy] from and to a block. *)
Definition load (p n : Z) (mem : list Z) : option (list Z) :=
  if decide (0 ≤ p ∧ 0 ≤ n ∧ p + n ≤ Z.of_nat (length mem))%Z
  then Some (take (Z.to_nat n) (drop (Z.to_nat p) mem)) else None.
Definition save (p : Z) (d mem : list Z) : option (list Z) :=
  if decide (0 ≤ p ∧ p + Z.of_nat (length d) ≤ Z.of_nat (length mem))%Z
  then Some (take (Z.to_nat p) mem ++ d ++ drop (Z.to_nat p + length d) mem) else None.
(** [memmove(mem + dst, mem + src, n)]. *)
Definition memmove (dst src n : Z) (mem : list Z) : option (list Z) :=
  d ← load src n mem; save dst d mem.

(** ** The set *)

Record intset := IntSet { encoding : Z; length_ : Z; contents : list Z }.

Definition INTSET_ENC_INT16 : Z := 2.
Definition INTSET_ENC_INT32 : Z := 4.
Definition INTSET_ENC_INT64 : Z := 8.
Definition INT16_MIN : Z := - 2 ^ 15.
Definition INT16_MAX : Z := 2 ^ 15 - 1.
Definition INT32_MIN : Z := - 2 ^ 31.
Definition INT32_MAX : Z := 2 ^ 31 - 1.

Definition to_u32 (z : Z) : Z := (z mod 2 ^ 32)%Z.

Definition _intsetValueEncoding (v : Z) : Z :=
  if ((v <? INT32_MIN) || (INT32_MAX <? v))%Z then INTSET_ENC_INT64
  else if ((v <? INT16_MIN) || (INT16_MAX <? v))%Z then INTSET_ENC_INT32
  else INTSET_ENC_INT16.

(** The width of an access: 8, 4, and 2 for every other encoding. *)
Definition width (enc : Z) : Z :=
  if (enc =? INTSET_ENC_INT64)%Z then 8 else if (enc =? INTSET_ENC_INT32)%Z then 4 else 2.

Definition _intsetGetEncoded (s : intset) (pos enc : Z) : option Z :=
  le_signed <$> load (pos * width enc) (width enc) s.(contents).

Definition _intsetGet (s : intset) (pos : Z) : option Z := _intsetGetEncoded s pos s.(encoding).

Definition _intsetSet (s : intset) (pos value : Z) : option intset :=
  let w := width s.(encoding) in
  mem ← save (pos * w) (le_bytes (Z.to_nat w) value) s.(contents);
  Some (IntSet s.(encoding) s.(length_) mem).

Definition intsetNew : intset := IntSet INTSET_ENC_INT16 0 [].

Section realloc.
(** What the bytes are that [zrealloc] adds. *)
Variable junk : Z.

(** The size is computed in 32 bits. *)
Definition intsetResize (s : intset) (len : Z) : intset :=
  let size := Z.to_nat (to_u32 (len * s.(encoding))) in
  IntSet s.(encoding) s.(length_)
    (take size s.(contents) ++ replicate (size - length s.(contents)) junk).

(** ** Search *)

(** The loop of [intsetSearch]: [min], [mid] and [cur] when it ends; [mid] is
    computed in [unsigned int]. *)
Fixpoint search_loop (fuel : nat) (s : intset) (value min max mid cur : Z) : option (Z * Z * Z) :=
  match fuel with
  | 0 => None
  | S fuel =>
      if (max >=? min)%Z then
        let mid := Z.shiftr (to_u32 (min + max)) 1 in
        cur ← _intsetGet s mid;
        if (value >? cur)%Z then search_loop fuel s value (mid + 1) max mid cur
        else if (value <? cur)%Z then search_loop fuel s value min (mid - 1) mid cur
        else Some (min, mid, cur)
      else Some (min, mid, cur)
  end.

(** The result and [*pos]; [fuel] bounds the turns of the loop. *)
Definition intsetSearch (fuel : nat) (s : intset) (value : Z) : option (bool * Z) :=
  let max := to_int32 (s.(length_) - 1) in
  if (s.(length_) =? 0)%Z then Some (false, 0%Z)
  else
    last ← _intsetGet s max;
    if (value >? last)%Z then Some (false, s.(length_))
    else
      first ← _intsetGet s 0;
      if (value <? first)%Z then Some (false, 0%Z)
      else
        '(min, mid, cur) ← search_loop fuel s value 0 max (-1) (-1);
        if (value =? cur)%Z then Some (true, mid) else Some (false, min).

(** ** Insertion *)

(** [while (length--) _intsetSet(s, length + prepend, ...)]. *)
Fixpoint upgrade_loop (length : nat) (s : intset) (prepend curenc : Z) : option intset :=
  match length with
  | 0 => Some s
  | S length =>
      v ← _intsetGetEncoded s (Z.of_nat length) curenc;
      s ← _intsetSet s (Z.of_nat length + prepend) v;
      upgrade_loop length s prepend curenc
  end.

Definition set_length (s : intset) (n : Z) : intset := IntSet s.(encoding) (to_u32 n) s.(contents).

Definition intsetUpgradeAndAdd (s : intset) (value : Z) : option intset :=
  let curenc := s.(encoding) in
  let newenc := _intsetValueEncoding value in
  let length := to_int32 s.(length_) in
  let prepend := if (value <? 0)%Z then 1%Z else 0%Z in
  let s := IntSet newenc s.(length_) s.(contents) in
  let s := intsetResize s (to_u32 (s.(length_) + 1)) in
  s ← upgrade_loop (Z.to_nat length) s prepend curenc;
  s ← (if (prepend =? 1)%Z then _intsetSet s 0 value else _intsetSet s (to_int32 s.(length_)) value);
  Some (set_length s (s.(length_) + 1)).

Definition intsetMoveTail (s : intset) (from to : Z) : option intset :=
  let bytes := to_u32 (s.(length_) - from) in
  let w := width s.(encoding) in
  mem ← memmove (to * w) (from * w) (to_u32 (bytes * w)) s.(contents);
  Some (IntSet s.(encoding) s.(length_) mem).

(** The set and [*success]. *)
Definition intsetAdd (fuel : nat) (s : intset) (value : Z) : option (intset * bool) :=
  let valenc := _intsetValueEncoding value in
  if (valenc >? s.(encoding))%Z then
    s ← intsetUpgradeAndAdd s value; Some (s, true)
  else
    '(found, pos) ← intsetSearch fuel s value;
    if (found : bool) then Some (s, false)
    else
      let s := intsetResize s (to_u32 (s.(length_) + 1)) in
      s ← (if (pos <? s.(length_))%Z then intsetMoveTail s pos (pos + 1) else Some s);
      s ← _intsetSet s (to_int32 pos) value;
      Some (set_length s (s.(length_) + 1), true).

(** ** Removal and queries *)

Definition intsetRemove (fuel : nat) (s : intset) (value : Z) : option (intset * bool) :=
  let valenc := _intsetValueEncoding value in
  if (valenc <=? s.(encoding))%Z then
    '(found, pos) ← intsetSearch fuel s value;
    if (found : bool) then
      let len := s.(length_) in
      s ← (if (pos <? len - 1)%Z then intsetMoveTail s (pos + 1) pos else Some s);
      let s := intsetResize s (len - 1) in
      Some (set_length s (len - 1), true)
    else Some (s, false)
  else Some (s, false).

Definition intsetFind (fuel : nat) (s : intset) (value : Z) : option bool :=
  let valenc := _intsetValueEncoding value in
  if (valenc <=? s.(encoding))%Z then fst <$> intsetSearch fuel s value else Some false.

(** [rand()] gave [r]. *)
Definition intsetRandom (s : intset) (r : Z) : option Z :=
  if (s.(length_) =? 0)%Z then None else _intsetGet s (to_int32 (r mod s.(length_))).

(** The result and [*value]. *)
Definition intsetGet (s : intset) (pos : Z) : option (option Z) :=
  if (pos <? s.(length_))%Z then Some <$> _intsetGet s (to_int32 pos) else Some None.

Definition intsetLen (s : intset) : Z := s.(length_).

(** [sizeof(intset)] is 8; the product is computed in 32 bits. *)
Definition intsetBlobLen (s : intset) : Z := (8 + to_u32 (s.(length_) * s.(encoding)))%Z.
End realloc.
End Intset.
