(* ===== verification/IntsetProofs.v ===== *)
(** * The integer set of Redis is a finite set of integers

    The block of memory encodes a strictly increasing list; every operation
    of intset.c, with its binary search, the moves of the tail and the change
    of the width of all elements in place, is the operation on that list. *)
From stdpp Require Import sorting.
From S2P Require Import Prelude Intset.
Import Intset.

(** ** Bytes of integers *)

Lemma length_le_bytes n v : length (le_bytes n v) = n.
Proof. revert v. induction n as [|n IH]; intros v; cbn; [done|]. by rewrite IH. Qed.

Lemma le_unsigned_bytes n v : le_unsigned (le_bytes n v) = (v mod 256 ^ Z.of_nat n)%Z.
Proof.
  revert v. induction n as [|n IH]; intros v; cbn [le_bytes le_unsigned].
  - by rewrite Z.mod_1_r.
  - rewrite IH, Nat2Z.inj_succ, Z.pow_succ_r by lia.
    rewrite (Z.rem_mul_r v 256 (256 ^ Z.of_nat n)); lia.
Qed.

(** An integer of [n] bytes. *)
Definition fits (n : nat) (v : Z) : Prop := (- 256 ^ Z.of_nat n ≤ 2 * v < 256 ^ Z.of_nat n)%Z.

Lemma le_signed_bytes n v : fits n v → le_signed (le_bytes n v) = v.
Proof.
  unfold fits, le_signed. intros H. rewrite length_le_bytes, le_unsigned_bytes.
  set (m := (256 ^ Z.of_nat n)%Z) in *. destruct (decide (0 ≤ v)%Z).
  - rewrite Z.mod_small by lia. destruct (Z.ltb_spec (2 * v) m); lia.
  - assert (v mod m = v + m)%Z as ->.
    { rewrite <- (Z.mod_add v 1 m) by lia. rewrite Z.mod_small; lia. }
    destruct (Z.ltb_spec (2 * (v + m)) m); lia.
Qed.

Lemma fits_mono n m v : n ≤ m → fits n v → fits m v.
Proof.
  unfold fits. intros H. pose proof (Z.pow_le_mono_r 256 (Z.of_nat n) (Z.of_nat m) ltac:(lia) ltac:(lia)). lia.
Qed.

(** ** Blocks of encoded integers *)

Definition enc (w : nat) (vs : list Z) : list Z := concat (map (le_bytes w) vs).

Lemma length_enc w vs : length (enc w vs) = length vs * w.
Proof. induction vs as [|v vs IH]; cbn; [done|]. unfold enc in *. rewrite length_app, length_le_bytes, IH. lia. Qed.

Lemma enc_app w vs us : enc w (vs ++ us) = enc w vs ++ enc w us.
Proof. unfold enc. by rewrite map_app, concat_app. Qed.

Lemma enc_cons w v vs : enc w (v :: vs) = le_bytes w v ++ enc w vs.
Proof. done. Qed.

Lemma take_enc w i vs : take (i * w) (enc w vs) = enc w (take i vs).
Proof.
  destruct (decide (i ≤ length vs)) as [H|H].
  - rewrite <- (take_drop i vs) at 1. rewrite enc_app.
    replace (i * w) with (length (enc w (take i vs))); [apply take_app_exact|].
    rewrite length_enc, length_take. f_equal. lia.
  - rewrite !take_ge; [done|lia|]. rewrite length_enc. nia.
Qed.

Lemma drop_enc w i vs : drop (i * w) (enc w vs) = enc w (drop i vs).
Proof.
  destruct (decide (i ≤ length vs)) as [H|H].
  - rewrite <- (take_drop i vs) at 1. rewrite enc_app.
    replace (i * w) with (length (enc w (take i vs))); [apply drop_app_exact|].
    rewrite length_enc, length_take. f_equal. lia.
  - rewrite !drop_ge; [done|lia|]. rewrite length_enc. nia.
Qed.

(** ** Loads and stores *)

Lemma load_ok p n mem :
  p + n ≤ length mem → load (Z.of_nat p) (Z.of_nat n) mem = Some (take n (drop p mem)).
Proof. intros. unfold load. rewrite decide_True by lia. by rewrite !Nat2Z.id. Qed.

Lemma save_ok p d mem :
  p + length d ≤ length mem → save (Z.of_nat p) d mem = Some (take p mem ++ d ++ drop (p + length d) mem).
Proof. intros. unfold save. rewrite decide_True by lia. by rewrite !Nat2Z.id. Qed.

(** What a store changes. *)
Lemma save_parts p d mem :
  p + length d ≤ length mem →
  ∃ mem', save (Z.of_nat p) d mem = Some mem' ∧ length mem' = length mem
    ∧ (∀ q, q ≤ p → take q mem' = take q mem) ∧ drop p mem' = d ++ drop (p + length d) mem.
Proof.
  intros H. rewrite save_ok by done. eexists. split; [done|]. split_and!.
  - rewrite !length_app, length_take, length_drop. lia.
  - intros q Hq. rewrite take_app_le by (rewrite length_take; lia). rewrite take_take. f_equal. lia.
  - rewrite drop_app_le by (rewrite length_take; lia). rewrite drop_ge by (rewrite length_take; lia). done.
Qed.

(** An element of a block that starts with encoded integers. *)
Lemma load_enc w i vs v rest :
  vs !! i = Some v → load (Z.of_nat (i * w)) (Z.of_nat w) (enc w vs ++ rest) = Some (le_bytes w v).
Proof.
  intros Hi. pose proof (lookup_lt_Some _ _ _ Hi). rewrite load_ok.
  - f_equal. rewrite drop_app_le by (rewrite length_enc; nia). rewrite drop_enc.
    rewrite (drop_S vs v i) by done. rewrite enc_cons, <- app_assoc.
    rewrite take_app_le by (rewrite length_le_bytes; lia). rewrite take_ge; [done|]. by rewrite length_le_bytes.
  - rewrite length_app, length_enc. nia.
Qed.

(** ** The invariant *)

(** The encodings. *)
Definition enc_ok (e : Z) : Prop := e = 2%Z ∨ e = 4%Z ∨ e = 8%Z.

Lemma width_ok e : enc_ok e → width e = e.
Proof. by intros [->|[->| ->]]. Qed.

(** The set [s] holds the strictly increasing list [vs], in a block of exactly
    its size, which is below 4 GB. *)
Record repr (s : intset) (vs : list Z) : Prop := Repr {
  r_enc : enc_ok s.(encoding);
  r_len : s.(length_) = Z.of_nat (length vs);
  r_mem : s.(contents) = enc (Z.to_nat s.(encoding)) vs;
  r_fits : Forall (fits (Z.to_nat s.(encoding))) vs;
  r_sorted : StronglySorted Z.lt vs;
  r_small : (Z.of_nat (length vs) * 8 < 2 ^ 32)%Z
}.

Lemma enc_pos e : enc_ok e → (0 < e ≤ 8)%Z.
Proof. intros [->|[->| ->]]; lia. Qed.

(** Reading an element, also when there is more memory behind the elements. *)
Lemma getEncoded_at e len vs rest i v :
  enc_ok e → Forall (fits (Z.to_nat e)) vs → vs !! i = Some v →
  ∀ e', _intsetGetEncoded (IntSet e' len (enc (Z.to_nat e) vs ++ rest)) (Z.of_nat i) e = Some v.
Proof.
  intros He Hf Hi e'. unfold _intsetGetEncoded. cbn [contents]. rewrite width_ok by done.
  pose proof (enc_pos e He).
  replace (Z.of_nat i * e)%Z with (Z.of_nat (i * Z.to_nat e)) by lia.
  replace e with (Z.of_nat (Z.to_nat e)) at 2 by lia.
  rewrite (load_enc _ _ _ v) by done. cbn. f_equal. apply le_signed_bytes.
  by eapply (proj1 (Forall_lookup _ _) Hf).
Qed.

Lemma intsetGet_at s vs i v : repr s vs → vs !! i = Some v → _intsetGet s (Z.of_nat i) = Some v.
Proof.
  intros [He _ Hm Hf _ _] Hi. destruct s as [e l mem]. cbn in *. unfold _intsetGet. cbn [encoding].
  rewrite Hm, <- (app_nil_r (enc _ _)). by apply getEncoded_at.
Qed.

(** ** Search *)

(** Strictly increasing lists as arrays. *)
Lemma sorted_lookup vs i j x y :
  StronglySorted Z.lt vs → vs !! i = Some x → vs !! j = Some y → i < j → (x < y)%Z.
Proof.
  intros Hs. revert i j. induction Hs as [|v vs Hs IH Hv]; intros i j Hi Hj Hij; [by rewrite lookup_nil in Hi|].
  destruct j as [|j]; [lia|]. destruct i as [|i]; cbn in *.
  - simplify_eq. rewrite Forall_lookup in Hv. eauto.
  - eapply IH; [done|done|lia].
Qed.

(** Where [v] belongs in [vs]. *)
Definition place (vs : list Z) (v : Z) (p : nat) : Prop :=
  p ≤ length vs ∧ (∀ i x, vs !! i = Some x → i < p → (x < v)%Z) ∧ (∀ i x, vs !! i = Some x → p ≤ i → (v < x)%Z).

Lemma search_loop_spec s vs v fuel lo hi mid cur :
  repr s vs → (0 ≤ lo ≤ hi + 1)%Z → (hi < Z.of_nat (length vs))%Z → (hi - lo + 1 < Z.of_nat fuel)%Z →
  (∀ i x, vs !! i = Some x → (Z.of_nat i < lo)%Z → (x < v)%Z) →
  (∀ i x, vs !! i = Some x → (hi < Z.of_nat i)%Z → (v < x)%Z) →
  (hi < lo → cur ≠ v)%Z →
  ∃ lo' mid' cur', search_loop fuel s v lo hi mid cur = Some (lo', mid', cur')
    ∧ (if (v =? cur')%Z then vs !! Z.to_nat mid' = Some v ∧ (0 ≤ mid')%Z else place vs v (Z.to_nat lo') ∧ (0 ≤ lo')%Z).
Proof.
  intros Hr. revert lo hi mid cur. induction fuel as [|fuel IH]; intros lo hi mid cur Hlo Hhi Hf Hl Hh Hc; [lia|].
  cbn [search_loop]. destruct (Z.geb_spec hi lo) as [Hge|Hlt].
  - pose proof (r_small _ _ Hr).
    set (m := Z.shiftr (to_u32 (lo + hi)) 1).
    assert (lo ≤ m ≤ hi)%Z as Hm.
    { unfold m, to_u32. rewrite Z.mod_small by lia. rewrite Z.shiftr_div_pow2 by lia. change (2 ^ 1)%Z with 2%Z.
      pose proof (Z.div_mod (lo + hi) 2). pose proof (Z.mod_pos_bound (lo + hi) 2). lia. }
    destruct (lookup_lt_is_Some_2 vs (Z.to_nat m)) as [x Hx]; [lia|].
    rewrite <- (Z2Nat.id m) by lia. rewrite (intsetGet_at s vs (Z.to_nat m) x) by done.
    cbn [mbind option_bind]. rewrite Z2Nat.id by lia. rewrite Z.gtb_ltb.
    destruct (Z.ltb_spec x v) as [Hxv|Hxv].
    + apply IH; [lia..| |done|intros; lia].
      intros i y Hy Hi. destruct (decide (i = Z.to_nat m)) as [->|]; [by simplify_eq|].
      assert (y < x)%Z; [|lia]. eapply (sorted_lookup vs i (Z.to_nat m)); [apply Hr|done|done|lia].
    + destruct (Z.ltb_spec v x) as [Hvx|Hvx].
      * apply IH; [lia..|done| |intros; lia].
        intros i y Hy Hi. destruct (decide (i = Z.to_nat m)) as [->|]; [by simplify_eq|].
        assert (x < y)%Z; [|lia]. eapply (sorted_lookup vs (Z.to_nat m) i); [apply Hr|done|done|lia].
      * assert (x = v) as -> by lia. eexists _, _, _. split; [done|]. rewrite Z.eqb_refl. split; [done|lia].
  - eexists _, _, _. split; [done|]. destruct (Z.eqb_spec v cur) as [->|]; [by specialize (Hc Hlt)|].
    split; [|lia]. assert (hi = lo - 1)%Z as -> by lia. split; [lia|].
    split; intros i x Hx Hi; [eapply Hl|eapply Hh]; eauto; lia.
Qed.

Lemma intsetSearch_spec fuel s vs v :
  repr s vs → length vs < fuel →
  ∃ found pos, intsetSearch fuel s v = Some (found, pos) ∧ (0 ≤ pos)%Z
    ∧ (if (found : bool) then vs !! Z.to_nat pos = Some v else place vs v (Z.to_nat pos)).
Proof.
  intros Hr Hf. pose proof (r_len _ _ Hr) as Hlen. pose proof (r_small _ _ Hr) as Hsm.
  unfold intsetSearch. rewrite Hlen. destruct (Z.eqb_spec (Z.of_nat (length vs)) 0) as [E|E].
  - eexists _, _. split; [done|]. split; [lia|]. destruct vs; [|done].
    split; [done|]. split; intros i x Hx; by rewrite lookup_nil in Hx.
  - rewrite to_int32_id by lia. destruct (lookup_lt_is_Some_2 vs (length vs - 1)) as [x Hx]; [lia|].
    destruct (lookup_lt_is_Some_2 vs 0) as [y Hy]; [lia|].
    replace (Z.of_nat (length vs) - 1)%Z with (Z.of_nat (length vs - 1)) by lia.
    rewrite (intsetGet_at s vs _ x) by done. cbn [mbind option_bind]. rewrite Z.gtb_ltb.
    destruct (Z.ltb_spec x v) as [Hxv|Hxv].
    { eexists _, _. split; [done|]. split; [lia|]. rewrite Nat2Z.id. split; [done|]. split.
      - intros i z Hz _. pose proof (lookup_lt_Some _ _ _ Hz).
        destruct (decide (i = length vs - 1)) as [->|]; [by simplify_eq|].
        assert (z < x)%Z; [|lia]. eapply (sorted_lookup vs i (length vs - 1)); [apply Hr|done|done|lia].
      - intros i z Hz Hi. pose proof (lookup_lt_Some _ _ _ Hz). lia. }
    assert (_intsetGet s 0 = Some y) as -> by by apply (intsetGet_at s vs 0 y). cbn [mbind option_bind].
    destruct (Z.ltb_spec v y) as [Hvy|Hvy].
    { eexists _, _. split; [done|]. split; [lia|]. split; [cbn; lia|]. split; [intros; cbn in *; lia|].
      intros i z Hz _. destruct i as [|i]; [by simplify_eq|].
      assert (y < z)%Z; [|lia]. eapply (sorted_lookup vs 0 (S i)); [apply Hr|done|done|lia]. }
    destruct (search_loop_spec s vs v fuel 0 (Z.of_nat (length vs - 1)) (-1) (-1))
      as (lo & mid & cur & -> & H); [done|lia|lia|lia| | |lia|].
    + intros i z _ Hi. lia.
    + intros i z Hz Hi. pose proof (lookup_lt_Some _ _ _ Hz). lia.
    + cbn [mbind option_bind]. destruct (v =? cur)%Z; destruct H as [H ?]; eexists _, _; done.
Qed.

(** ** Lists with an element inserted or removed *)

Definition ins (p : nat) (v : Z) (vs : list Z) : list Z := take p vs ++ v :: drop p vs.

Lemma place_parts vs v p :
  place vs v p → Forall (λ x, x < v)%Z (take p vs) ∧ Forall (λ x, v < x)%Z (drop p vs).
Proof.
  intros (Hp & H1 & H2). split; apply Forall_lookup; intros i x Hx.
  - apply lookup_take_Some in Hx as [Hx Hi]. eauto.
  - rewrite lookup_drop in Hx. eapply H2; [done|lia].
Qed.

Lemma ins_sorted vs v p : StronglySorted Z.lt vs → place vs v p → StronglySorted Z.lt (ins p v vs).
Proof.
  intros Hs Hp. destruct (place_parts _ _ _ Hp) as [H1 H2]. rewrite Forall_forall in H1.
  rewrite <- (take_drop p vs) in Hs. apply StronglySorted_app in Hs as (Hx & Ha & Hb).
  apply StronglySorted_app. split_and!; [|done|by apply StronglySorted_cons].
  intros x y Hxl [->|Hyl]%elem_of_cons; [by apply H1|]. by apply Hx.
Qed.

Lemma ins_perm p v vs : ins p v vs ≡ₚ v :: vs.
Proof. unfold ins. by rewrite <- Permutation_middle, take_drop. Qed.

Lemma length_ins p v vs : length (ins p v vs) = S (length vs).
Proof. by rewrite (Permutation_length (ins_perm p v vs)). Qed.

Lemma place_absent vs v p : place vs v p → v ∉ vs.
Proof.
  intros (_ & H1 & H2) [i Hi]%list_elem_of_lookup. destruct (decide (i < p)); [specialize (H1 _ _ Hi)|specialize (H2 _ _ Hi)]; lia.
Qed.

(** ** Insertion without a change of width *)

Lemma to_u32_id z : (0 ≤ z < 2 ^ 32)%Z → to_u32 z = z.
Proof. intros. unfold to_u32. by rewrite Z.mod_small. Qed.

(** A store of one element. *)
Lemma intsetSet_at e len mem i v :
  enc_ok e → (i + 1) * Z.to_nat e ≤ length mem →
  ∃ mem', _intsetSet (IntSet e len mem) (Z.of_nat i) v = Some (IntSet e len mem') ∧ length mem' = length mem
    ∧ (∀ q, q ≤ i * Z.to_nat e → take q mem' = take q mem)
    ∧ drop (i * Z.to_nat e) mem' = le_bytes (Z.to_nat e) v ++ drop ((i + 1) * Z.to_nat e) mem.
Proof.
  intros He Hl. pose proof (enc_pos e He). unfold _intsetSet. cbn [encoding contents length_]. rewrite width_ok by done.
  replace (Z.of_nat i * e)%Z with (Z.of_nat (i * Z.to_nat e)) by lia.
  destruct (save_parts (i * Z.to_nat e) (le_bytes (Z.to_nat e) v) mem) as (mem' & E & H1 & H2 & H3);
    [rewrite length_le_bytes; lia|].
  rewrite E. exists mem'. split_and!; [done|done|done|].
  rewrite H3, length_le_bytes. do 2 f_equal. lia.
Qed.

Section operations.
Variable junk : Z.

(** The block with room for one more element. *)
Lemma resize_grows s vs :
  repr s vs → (Z.of_nat (S (length vs)) * 8 < 2 ^ 32)%Z →
  ∃ slot, intsetResize junk s (to_u32 (s.(length_) + 1))
      = IntSet s.(encoding) s.(length_) (enc (Z.to_nat s.(encoding)) vs ++ slot)
    ∧ length slot = Z.to_nat s.(encoding).
Proof.
  intros [He Hl Hm _ _ _] Hs. destruct s as [e l mem]. cbn in *. subst. pose proof (enc_pos e He).
  exists (replicate (Z.to_nat e) junk). unfold intsetResize. cbn [encoding contents length_].
  rewrite !to_u32_id; [|nia|rewrite to_u32_id; nia]. split; [|apply length_replicate]. f_equal.
  rewrite length_enc. rewrite take_ge by (rewrite length_enc; nia). do 2 f_equal. nia.
Qed.

Lemma moveTail_up e vs slot p :
  enc_ok e → length slot = Z.to_nat e → p ≤ length vs → (Z.of_nat (S (length vs)) * 8 < 2 ^ 32)%Z →
  ∃ mem, (if (Z.of_nat p <? Z.of_nat (length vs))%Z
          then intsetMoveTail (IntSet e (Z.of_nat (length vs)) (enc (Z.to_nat e) vs ++ slot)) (Z.of_nat p) (Z.of_nat p + 1)
          else Some (IntSet e (Z.of_nat (length vs)) (enc (Z.to_nat e) vs ++ slot)))
         = Some (IntSet e (Z.of_nat (length vs)) mem)
    ∧ length mem = S (length vs) * Z.to_nat e ∧ take (p * Z.to_nat e) mem = enc (Z.to_nat e) (take p vs)
    ∧ drop ((p + 1) * Z.to_nat e) mem = enc (Z.to_nat e) (drop p vs).
Proof.
  intros He Hslot Hp Hs. pose proof (enc_pos e He). set (w := Z.to_nat e) in *.
  assert (length (enc w vs ++ slot) = S (length vs) * w) as Hlm by (rewrite length_app, length_enc; lia).
  assert (take (p * w) (enc w vs ++ slot) = enc w (take p vs)) as Ht
    by (rewrite take_app_le by (rewrite length_enc; nia); apply take_enc).
  destruct (Z.ltb_spec (Z.of_nat p) (Z.of_nat (length vs))) as [Hlt|Hge].
  - unfold intsetMoveTail. cbn [encoding length_ contents]. rewrite width_ok by done.
    rewrite (to_u32_id (Z.of_nat (length vs) - Z.of_nat p)) by lia. rewrite to_u32_id by nia.
    replace ((Z.of_nat p + 1) * e)%Z with (Z.of_nat ((p + 1) * w)) by (unfold w; lia).
    replace (Z.of_nat p * e)%Z with (Z.of_nat (p * w)) by (unfold w; lia).
    replace ((Z.of_nat (length vs) - Z.of_nat p) * e)%Z with (Z.of_nat ((length vs - p) * w)) by (unfold w; lia).
    unfold memmove. rewrite load_ok by (rewrite Hlm; nia). cbn [mbind option_bind].
    assert (take ((length vs - p) * w) (drop (p * w) (enc w vs ++ slot)) = enc w (drop p vs)) as ->.
    { rewrite drop_app_le by (rewrite length_enc; nia). rewrite drop_enc, take_app_le by (rewrite length_enc, length_drop; lia).
      rewrite take_enc, take_ge; [done|]. rewrite length_drop. lia. }
    assert (length (enc w (drop p vs)) = (length vs - p) * w) as Hld by (rewrite length_enc, length_drop; lia).
    destruct (save_parts ((p + 1) * w) (enc w (drop p vs)) (enc w vs ++ slot)) as (mem & -> & H1 & H2 & H3);
      [rewrite Hlm, Hld; nia|].
    exists mem. split; [done|]. split; [congruence|]. split; [rewrite H2 by nia; done|].
    rewrite H3, (drop_ge (enc w vs ++ slot)) by (rewrite Hlm, Hld; nia). by rewrite app_nil_r.
  - eexists. split; [done|]. split; [done|]. split; [done|]. assert (p = length vs) as -> by lia.
    rewrite (drop_ge vs) by lia. apply drop_ge. rewrite Hlm. nia.
Qed.

Lemma repr_ins s vs v p :
  repr s vs → place vs v p → fits (Z.to_nat s.(encoding)) v → (Z.of_nat (S (length vs)) * 8 < 2 ^ 32)%Z →
  repr (IntSet s.(encoding) (Z.of_nat (S (length vs))) (enc (Z.to_nat s.(encoding)) (ins p v vs))) (ins p v vs).
Proof.
  intros [He Hl Hm Hf Hs _] Hp Hv Hsm. split; cbn; try done.
  - by rewrite length_ins.
  - by rewrite ins_perm, Forall_cons.
  - by apply ins_sorted.
  - by rewrite length_ins.
Qed.

Lemma mem_eq (p : nat) (mem a b : list Z) : take p mem = a → drop p mem = b → mem = a ++ b.
Proof. intros <- <-. by rewrite take_drop. Qed.
(** Insertion where the width is enough. *)
Lemma intsetAdd_same fuel s vs v :
  repr s vs → length vs < fuel → fits (Z.to_nat s.(encoding)) v → (_intsetValueEncoding v ≤ s.(encoding))%Z →
  (Z.of_nat (S (length vs)) * 8 < 2 ^ 32)%Z →
  ∃ s' p, intsetAdd junk fuel s v = Some (s', bool_decide (v ∉ vs))
    ∧ repr s' (if bool_decide (v ∉ vs) then ins p v vs else vs).
Proof.
  intros Hr Hf Hfit He Hsm. unfold intsetAdd. rewrite Z.gtb_ltb. destruct (Z.ltb_spec s.(encoding) (_intsetValueEncoding v)) as [?|_]; [lia|].
  destruct (intsetSearch_spec fuel s vs v Hr Hf) as (found & pos & -> & Hpos & H). cbn [mbind option_bind].
  destruct found.
  - exists s, 0. rewrite bool_decide_eq_false_2; [done|]. intros Hn. apply Hn. by eapply list_elem_of_lookup_2.
  - destruct (Z_of_nat_complete pos Hpos) as [p ->]. rewrite Nat2Z.id in H.
    pose proof H as (Hp & _). pose proof (place_absent _ _ _ H) as Hab.
    destruct (resize_grows s vs Hr Hsm) as (slot & -> & Hslot). pose proof (r_len _ _ Hr) as Hl. cbn [length_]. rewrite Hl.
    destruct (moveTail_up s.(encoding) vs slot p) as (mem & -> & Hlm & Ht & Hd); [apply Hr|done|done|done|].
    cbn [mbind option_bind]. rewrite to_int32_id by lia. pose proof (enc_pos _ (r_enc _ _ Hr)).
    destruct (intsetSet_at s.(encoding) (Z.of_nat (length vs)) mem p v) as (mem' & -> & Hlm' & Ht' & Hd'); [apply Hr|nia|].
    cbn [mbind option_bind]. unfold set_length. cbn [encoding length_ contents].
    exists (IntSet s.(encoding) (Z.of_nat (S (length vs))) (enc (Z.to_nat s.(encoding)) (ins p v vs))), p.
    rewrite bool_decide_eq_true_2 by done. split; [|by apply repr_ins].
    rewrite to_u32_id by lia. do 3 f_equal; [lia|].
    unfold ins. rewrite enc_app, enc_cons. apply (mem_eq (p * Z.to_nat s.(encoding))).
    + by rewrite Ht'.
    + by rewrite Hd', Hd.
Qed.
(** ** Insertion with a change of width *)

(** The loop works from the last element down: in front the elements still to
    be moved, in the old width, behind the elements moved, in the new one. *)
Lemma upgrade_loop_spec n (old new : Z) len vs prep slot mem i :
  enc_ok old → enc_ok new → (old ≤ new)%Z → prep ≤ 1 → length vs = n → i ≤ n →
  Forall (fits (Z.to_nat old)) vs → length mem = S n * Z.to_nat new →
  take (i * Z.to_nat old) mem = enc (Z.to_nat old) (take i vs) →
  drop ((i + prep) * Z.to_nat new) mem = enc (Z.to_nat new) (drop i vs) ++ slot →
  ∃ mem', upgrade_loop i (IntSet new len mem) (Z.of_nat prep) old = Some (IntSet new len mem')
    ∧ length mem' = S n * Z.to_nat new
    ∧ drop (prep * Z.to_nat new) mem' = enc (Z.to_nat new) vs ++ slot.
Proof.
  intros Ho Hn Hle Hprep Hlen. pose proof (enc_pos _ Ho). pose proof (enc_pos _ Hn).
  revert mem. induction i as [|i IH]; intros mem Hi Hf Hlm Ht Hd.
  - exists mem. split_and!; [done|done|]. by rewrite Nat.add_0_l, drop_0 in Hd.
  - cbn [upgrade_loop]. destruct (lookup_lt_is_Some_2 vs i) as [v Hv]; [lia|].
    assert (_intsetGetEncoded (IntSet new len mem) (Z.of_nat i) old = Some v) as ->.
    { rewrite <- (take_drop (S i * Z.to_nat old) mem), Ht. apply getEncoded_at; [done|by apply Forall_take|].
      rewrite lookup_take_lt by lia. done. }
    cbn [mbind option_bind].
    replace (Z.of_nat i + Z.of_nat prep)%Z with (Z.of_nat (i + prep)) by lia.
    destruct (intsetSet_at new len mem (i + prep) v) as (mem' & -> & Hlm' & Ht' & Hd'); [done|nia|].
    cbn [mbind option_bind]. apply IH; [lia|done|congruence| |].
    + rewrite Ht' by nia.
      replace (i * Z.to_nat old) with ((i * Z.to_nat old) `min` (S i * Z.to_nat old)) at 1 by nia.
      rewrite <- take_take, Ht, take_enc, take_take. do 2 f_equal. lia.
    + rewrite Hd'. replace (i + prep + 1) with (S i + prep) by lia. rewrite Hd, (drop_S vs v i) by done.
      by rewrite enc_cons, app_assoc.
Qed.

(** The width a value needs, and the values a width holds. *)
Lemma valueEncoding_ok v : enc_ok (_intsetValueEncoding v).
Proof. unfold _intsetValueEncoding, enc_ok. repeat case_match; naive_solver. Qed.

Lemma valueEncoding_le v e :
  enc_ok e → (- 2 ^ 63 ≤ v < 2 ^ 63)%Z → (_intsetValueEncoding v ≤ e)%Z ↔ fits (Z.to_nat e) v.
Proof.
  intros He Hv. unfold _intsetValueEncoding, INT32_MIN, INT32_MAX, INT16_MIN, INT16_MAX.
  assert (fits 2 v ↔ - 2 ^ 15 ≤ v < 2 ^ 15)%Z as H2.
  { unfold fits. change (256 ^ Z.of_nat 2)%Z with (2 ^ 16)%Z. lia. }
  assert (fits 4 v ↔ - 2 ^ 31 ≤ v < 2 ^ 31)%Z as H4.
  { unfold fits. change (256 ^ Z.of_nat 4)%Z with (2 ^ 32)%Z. lia. }
  assert (fits 8 v) as H8.
  { unfold fits. change (256 ^ Z.of_nat 8)%Z with (2 ^ 64)%Z. lia. }
  unfold INTSET_ENC_INT64, INTSET_ENC_INT32, INTSET_ENC_INT16.
  destruct He as [->|[->| ->]]; [change (Z.to_nat 2) with 2; rewrite H2|change (Z.to_nat 4) with 4; rewrite H4
    |change (Z.to_nat 8) with 8]; repeat case_match; split; try done; lia.
Qed.

(** A value that does not fit lies outside the values that do. *)
Lemma place_outside e vs v :
  Forall (fits e) vs → ¬ fits e v → place vs v (if (v <? 0)%Z then 0 else length vs).
Proof.
  intros Hf Hv. rewrite Forall_lookup in Hf.
  assert (0 < 256 ^ Z.of_nat e)%Z by (apply Z.pow_pos_nonneg; lia).
  destruct (Z.ltb_spec v 0).
  - split; [lia|]. split; [lia|]. intros i x Hx _. specialize (Hf _ _ Hx). unfold fits in *. lia.
  - split; [done|]. split; [|intros i x Hx; apply lookup_lt_Some in Hx; lia].
    intros i x Hx _. specialize (Hf _ _ Hx). unfold fits in *. lia.
Qed.

Lemma intsetUpgrade_spec s vs v :
  repr s vs → (- 2 ^ 63 ≤ v < 2 ^ 63)%Z → (s.(encoding) < _intsetValueEncoding v)%Z →
  (Z.of_nat (S (length vs)) * 8 < 2 ^ 32)%Z →
  let p := if (v <? 0)%Z then 0 else length vs in
  intsetUpgradeAndAdd junk s v
  = Some (IntSet (_intsetValueEncoding v) (Z.of_nat (S (length vs)))
           (enc (Z.to_nat (_intsetValueEncoding v)) (ins p v vs))).
Proof.
  intros [He Hl Hm Hf _ _] Hv Hlt Hsm p. pose proof (valueEncoding_ok v) as Hne.
  set (old := s.(encoding)) in *. set (new := _intsetValueEncoding v) in *.
  pose proof (enc_pos _ He). pose proof (enc_pos _ Hne). set (n := length vs) in *.
  set (prep := if (v <? 0)%Z then 1 else 0). assert (prep ≤ 1) by (unfold prep; case_match; lia).
  unfold intsetUpgradeAndAdd. fold old new. cbn [encoding length_]. rewrite Hl, Hm.
  assert ((if (v <? 0)%Z then 1%Z else 0%Z) = Z.of_nat prep) as -> by (unfold prep; by case_match).
  rewrite to_int32_id, Nat2Z.id by lia. rewrite (to_u32_id (Z.of_nat n + 1)) by lia.
  unfold intsetResize. cbn [encoding length_ contents].
  assert (Z.to_nat (to_u32 ((Z.of_nat n + 1) * new)) = S n * Z.to_nat new) as -> by (rewrite to_u32_id; nia).
  rewrite take_ge by (rewrite length_enc; fold n; nia).
  set (mem := enc (Z.to_nat old) vs ++ _).
  assert (length mem = S n * Z.to_nat new) as Hlm
    by (unfold mem; rewrite length_app, length_replicate, length_enc; fold n; nia).
  destruct (upgrade_loop_spec n old new (Z.of_nat n) vs prep (drop ((n + prep) * Z.to_nat new) mem) mem n)
    as (mem1 & -> & Hl1 & Hd1); try done; [lia| | |].
  { unfold mem. replace (n * Z.to_nat old) with (length (enc (Z.to_nat old) vs)) by (rewrite length_enc; done).
    rewrite take_app_exact, take_ge; done. }
  { by rewrite (drop_ge vs) by (fold n; lia). }
  cbn [mbind option_bind]. cbn [length_].
  assert (∃ mem2, (if (Z.of_nat prep =? 1)%Z then _intsetSet (IntSet new (Z.of_nat n) mem1) 0 v
      else _intsetSet (IntSet new (Z.of_nat n) mem1) (to_int32 (Z.of_nat n)) v) = Some (IntSet new (Z.of_nat n) mem2)
      ∧ mem2 = enc (Z.to_nat new) (ins p v vs)) as (mem2 & -> & ->).
  { unfold p, prep in *. destruct (v <? 0)%Z; cbn [Z.of_nat Pos.of_succ_nat Z.eqb Pos.eqb].
    - destruct (intsetSet_at new (Z.of_nat n) mem1 0 v) as (mem2 & E & _ & _ & Hd2); [done|nia|].
      exists mem2. split; [exact E|]. cbn [Nat.mul] in Hd2. rewrite drop_0 in Hd2. rewrite Hd2.
      change (ins 0 v vs) with (v :: vs). rewrite enc_cons. f_equal. cbn [Nat.add]. rewrite Hd1, (drop_ge mem) by (rewrite Hlm; nia).
      apply app_nil_r.
    - rewrite to_int32_id by lia.
      destruct (intsetSet_at new (Z.of_nat n) mem1 n v) as (mem2 & E & Hl2 & Ht2 & Hd2); [done|nia|].
      exists mem2. split; [exact E|]. unfold ins. rewrite take_ge, drop_ge by (fold n; lia).
      rewrite enc_app, enc_cons. apply (mem_eq (n * Z.to_nat new)).
      + rewrite Ht2 by done. cbn [Nat.mul] in Hd1. rewrite drop_0 in Hd1. rewrite Hd1.
        replace (n * Z.to_nat new) with (length (enc (Z.to_nat new) vs)) by (rewrite length_enc; done).
        apply take_app_exact.
      + rewrite Hd2. f_equal. rewrite drop_ge; [done|]. rewrite Hl1. lia. }
  cbn [mbind option_bind]. unfold set_length. cbn [encoding length_ contents]. rewrite to_u32_id by lia.
  do 2 f_equal. lia.
Qed.

(** Insertion, of any value. *)
Lemma intsetAdd_spec fuel s vs v :
  repr s vs → length vs < fuel → (- 2 ^ 63 ≤ v < 2 ^ 63)%Z → (Z.of_nat (S (length vs)) * 8 < 2 ^ 32)%Z →
  ∃ s' p, intsetAdd junk fuel s v = Some (s', bool_decide (v ∉ vs))
    ∧ repr s' (if bool_decide (v ∉ vs) then ins p v vs else vs).
Proof.
  intros Hr Hf Hv Hsm. pose proof (r_enc _ _ Hr) as He.
  destruct (decide (_intsetValueEncoding v ≤ s.(encoding))%Z) as [Hle|Hgt].
  { apply intsetAdd_same; try done. by apply valueEncoding_le. }
  assert (¬ fits (Z.to_nat s.(encoding)) v) as Hnf by (rewrite <- valueEncoding_le; done).
  pose proof (place_outside _ vs v (r_fits _ _ Hr) Hnf) as Hp. pose proof (place_absent _ _ _ Hp).
  set (p := if (v <? 0)%Z then 0 else length vs) in *.
  unfold intsetAdd. rewrite Z.gtb_ltb. destruct (Z.ltb_spec s.(encoding) (_intsetValueEncoding v)); [|lia].
  rewrite (intsetUpgrade_spec s vs v) by (done || lia). fold p. cbn [mbind option_bind].
  rewrite bool_decide_eq_true_2 by done. eexists _, p. split; [done|].
  pose proof (valueEncoding_ok v) as Hne. split; cbn [encoding length_ contents]; try done.
  - by rewrite length_ins.
  - rewrite ins_perm, Forall_cons. split; [by apply valueEncoding_le|].
    eapply Forall_impl; [apply (r_fits _ _ Hr)|]. intros x. apply fits_mono. lia.
  - apply ins_sorted; [apply Hr|done].
  - by rewrite length_ins.
Qed.

(** ** Removal *)

Definition del (p : nat) (vs : list Z) : list Z := take p vs ++ drop (S p) vs.

Lemma del_perm p v vs : vs !! p = Some v → vs ≡ₚ v :: del p vs.
Proof. intros H. unfold del. rewrite <- (take_drop_middle vs p v) at 1 by done. by rewrite Permutation_middle. Qed.

Lemma del_sorted p vs : StronglySorted Z.lt vs → StronglySorted Z.lt (del p vs).
Proof.
  intros Hs. unfold del. destruct (vs !! p) as [v|] eqn:E.
  - rewrite <- (take_drop_middle vs p v) in Hs by done. apply StronglySorted_app in Hs as (H1 & H2 & H3).
    apply StronglySorted_cons in H3 as [_ H3]. apply StronglySorted_app. split_and!; [|done|done].
    intros x y Hx Hy. apply H1; [done|]. set_solver.
  - apply lookup_ge_None in E. by rewrite take_ge, drop_ge, app_nil_r by lia.
Qed.

Lemma moveTail_down e vs p v :
  enc_ok e → vs !! p = Some v → (Z.of_nat (length vs) * 8 < 2 ^ 32)%Z →
  ∃ mem, (if (Z.of_nat p <? Z.of_nat (length vs) - 1)%Z
          then intsetMoveTail (IntSet e (Z.of_nat (length vs)) (enc (Z.to_nat e) vs)) (Z.of_nat p + 1) (Z.of_nat p)
          else Some (IntSet e (Z.of_nat (length vs)) (enc (Z.to_nat e) vs)))
         = Some (IntSet e (Z.of_nat (length vs)) mem)
    ∧ take ((length vs - 1) * Z.to_nat e) mem = enc (Z.to_nat e) (del p vs) ∧ length mem = length vs * Z.to_nat e.
Proof.
  intros He Hp Hs. pose proof (enc_pos e He). set (w := Z.to_nat e) in *. pose proof (lookup_lt_Some _ _ _ Hp).
  assert (length (del p vs) = length vs - 1) as Hld by (unfold del; rewrite length_app, length_take, length_drop; lia).
  destruct (Z.ltb_spec (Z.of_nat p) (Z.of_nat (length vs) - 1)) as [Hlt|Hge].
  - unfold intsetMoveTail. cbn [encoding length_ contents]. rewrite width_ok by done.
    rewrite (to_u32_id (Z.of_nat (length vs) - (Z.of_nat p + 1))) by lia. rewrite to_u32_id by nia.
    replace ((Z.of_nat p + 1) * e)%Z with (Z.of_nat (S p * w)) by (unfold w; lia).
    replace (Z.of_nat p * e)%Z with (Z.of_nat (p * w)) by (unfold w; lia).
    replace ((Z.of_nat (length vs) - (Z.of_nat p + 1)) * e)%Z with (Z.of_nat ((length vs - S p) * w)) by (unfold w; lia).
    unfold memmove. rewrite load_ok by (rewrite length_enc; nia). cbn [mbind option_bind].
    rewrite drop_enc, take_enc, (take_ge (drop (S p) vs)) by (rewrite length_drop; lia).
    destruct (save_parts (p * w) (enc w (drop (S p) vs)) (enc w vs)) as (mem & -> & H1 & H2 & H3);
      [rewrite !length_enc, length_drop; nia|].
    exists mem. split; [done|]. split; [|by rewrite H1, length_enc].
    rewrite (mem_eq (p * w) mem _ _ (H2 _ (le_n _)) H3), take_enc, app_assoc, <- enc_app.
    replace ((length vs - 1) * w) with (length (enc w (del p vs))) by (rewrite length_enc, Hld; done).
    apply take_app_exact.
  - eexists. split; [done|]. split; [|apply length_enc]. rewrite take_enc. f_equal. unfold del.
    rewrite drop_ge, app_nil_r by lia. f_equal. lia.
Qed.

Lemma intsetRemove_spec fuel s vs v :
  repr s vs → length vs < fuel → (- 2 ^ 63 ≤ v < 2 ^ 63)%Z →
  ∃ s' us, intsetRemove junk fuel s v = Some (s', bool_decide (v ∈ vs)) ∧ repr s' us
    ∧ (if bool_decide (v ∈ vs) then vs ≡ₚ v :: us else us = vs).
Proof.
  intros Hr Hf Hv. pose proof (r_enc _ _ Hr) as He. unfold intsetRemove.
  destruct (Z.leb_spec (_intsetValueEncoding v) s.(encoding)) as [Hle|Hgt].
  - destruct (intsetSearch_spec fuel s vs v Hr Hf) as (found & pos & -> & Hpos & H). cbn [mbind option_bind].
    destruct (Z_of_nat_complete pos Hpos) as [p ->]. rewrite Nat2Z.id in H. destruct found.
    + rewrite bool_decide_eq_true_2 by (by eapply list_elem_of_lookup_2). pose proof (r_small _ _ Hr) as Hsm.
      destruct (moveTail_down s.(encoding) vs p v) as (mem & Em & Ht & Hlm); [done|done|done|].
      destruct Hr as [_ Hl Hm Hfit Hs _]. destruct s as [e l m]. cbn in *. subst l m. rewrite Em. cbn [mbind option_bind].
      pose proof (lookup_lt_Some _ _ _ H). pose proof (enc_pos _ He). pose proof (del_perm _ _ _ H) as Hperm.
      pose proof (Permutation_length Hperm) as Hpl. cbn in Hpl.
      unfold intsetResize, set_length. cbn [encoding length_ contents].
      assert (Z.to_nat (to_u32 ((Z.of_nat (length vs) - 1) * e)) = (length vs - 1) * Z.to_nat e) as -> by (rewrite to_u32_id; nia).
      rewrite Ht. replace ((length vs - 1) * Z.to_nat e - length mem) with 0 by (rewrite Hlm; nia).
      cbn [replicate]. rewrite app_nil_r, to_u32_id by lia.
      eexists _, (del p vs). split; [done|]. split; [|done]. split; cbn [encoding length_ contents]; try done; try lia.
      * rewrite Hperm in Hfit. by apply Forall_cons in Hfit as [_ Hfit].
      * by apply del_sorted.
    + exists s, vs. rewrite bool_decide_eq_false_2 by by eapply place_absent. done.
  - exists s, vs. rewrite bool_decide_eq_false_2; [done|]. intros Hin.
    pose proof (r_fits _ _ Hr) as Hfit. rewrite Forall_forall in Hfit.
    apply Hfit in Hin. rewrite <- valueEncoding_le in Hin by done. lia.
Qed.

(** ** Queries *)

Lemma intsetFind_spec fuel s vs v :
  repr s vs → length vs < fuel → (- 2 ^ 63 ≤ v < 2 ^ 63)%Z → intsetFind fuel s v = Some (bool_decide (v ∈ vs)).
Proof.
  intros Hr Hf Hv. pose proof (r_enc _ _ Hr) as He. unfold intsetFind.
  destruct (Z.leb_spec (_intsetValueEncoding v) s.(encoding)) as [Hle|Hgt].
  - destruct (intsetSearch_spec fuel s vs v Hr Hf) as (found & pos & -> & Hpos & H). cbn. f_equal. destruct found.
    + symmetry. apply bool_decide_eq_true_2. by eapply list_elem_of_lookup_2.
    + symmetry. apply bool_decide_eq_false_2. by eapply place_absent.
  - f_equal. symmetry. apply bool_decide_eq_false_2. intros Hin.
    pose proof (r_fits _ _ Hr) as Hfit. rewrite Forall_forall in Hfit.
    apply Hfit in Hin. rewrite <- valueEncoding_le in Hin by done. lia.
Qed.

Lemma intsetGet_spec s vs i :
  repr s vs → (0 ≤ i < 2 ^ 31)%Z → intsetGet s i = Some (vs !! Z.to_nat i).
Proof.
  intros Hr Hi. unfold intsetGet. rewrite (r_len _ _ Hr). destruct (Z.ltb_spec i (Z.of_nat (length vs))).
  - destruct (lookup_lt_is_Some_2 vs (Z.to_nat i)) as [x Hx]; [lia|]. rewrite to_int32_id, Hx by lia.
    rewrite <- (Z2Nat.id i) by lia. by rewrite (intsetGet_at s vs _ x).
  - by rewrite lookup_ge_None_2 by lia.
Qed.

(** A random element is one of the set. *)
Lemma intsetRandom_spec s vs r :
  repr s vs → vs ≠ [] → (0 ≤ r)%Z → ∃ x, intsetRandom s r = Some x ∧ x ∈ vs.
Proof.
  intros Hr Hne Hr0. unfold intsetRandom. rewrite (r_len _ _ Hr). pose proof (r_small _ _ Hr).
  assert (0 < length vs) by (destruct vs; [done|cbn; lia]).
  destruct (Z.eqb_spec (Z.of_nat (length vs)) 0); [lia|].
  pose proof (Z.mod_pos_bound r (Z.of_nat (length vs)) ltac:(lia)).
  set (i := (r mod Z.of_nat (length vs))%Z) in *. rewrite to_int32_id by lia.
  destruct (lookup_lt_is_Some_2 vs (Z.to_nat i)) as [x Hx]; [lia|].
  exists x. rewrite <- (Z2Nat.id i) by lia. split; [by apply (intsetGet_at s vs)|by eapply list_elem_of_lookup_2].
Qed.

(** The block size does not wrap around. *)
Lemma intsetBlobLen_spec s vs : repr s vs → intsetBlobLen s = (8 + Z.of_nat (length s.(contents)))%Z.
Proof.
  intros [He Hl Hm _ _ Hsm]. unfold intsetBlobLen. rewrite Hl, Hm, length_enc. pose proof (enc_pos _ He).
  rewrite to_u32_id by nia. lia.
Qed.
End operations.

(** ** Sequences of operations *)

Inductive op := OAdd (v : Z) | ORemove (v : Z) | OFind (v : Z).
Definition op_value (o : op) : Z := match o with OAdd v | ORemove v | OFind v => v end.

(** An operation on the block, and on a set of integers, with its answer:
    whether the value was new, was there, is there. *)
Definition apply_op (junk : Z) (fuel : nat) (o : op) (s : intset) : option (intset * bool) :=
  match o with
  | OAdd v => intsetAdd junk fuel s v
  | ORemove v => intsetRemove junk fuel s v
  | OFind v => b ← intsetFind fuel s v; Some (s, b)
  end.
Definition apply_set (o : op) (X : gset Z) : gset Z * bool :=
  match o with
  | OAdd v => ({[v]} ∪ X, bool_decide (v ∉ X))
  | ORemove v => (X ∖ {[v]}, bool_decide (v ∈ X))
  | OFind v => (X, bool_decide (v ∈ X))
  end.

Fixpoint run (junk : Z) (fuel : nat) (ops : list op) (s : intset) : option (intset * list bool) :=
  match ops with
  | [] => Some (s, [])
  | o :: ops => '(s, b) ← apply_op junk fuel o s; '(s, bs) ← run junk fuel ops s; Some (s, b :: bs)
  end.
Fixpoint run_set (ops : list op) (X : gset Z) : gset Z * list bool :=
  match ops with
  | [] => (X, [])
  | o :: ops => let '(Y, b) := apply_set o X in let '(Z, bs) := run_set ops Y in (Z, b :: bs)
  end.

Lemma repr_new : repr intsetNew [].
Proof. split; cbn; [by left|done|done|by apply Forall_nil|apply SSorted_nil|done]. Qed.

Lemma sorted_NoDup vs : StronglySorted Z.lt vs → NoDup vs.
Proof.
  induction 1 as [|x l Hs IH Hx]; constructor; [|done]. rewrite Forall_forall in Hx.
  intros Hin. specialize (Hx _ Hin). lia.
Qed.

(** One operation refines the operation on the set. *)
Lemma apply_refines junk fuel o s vs :
  repr s vs → (- 2 ^ 63 ≤ op_value o < 2 ^ 63)%Z → (Z.of_nat (S (length vs)) * 8 < 2 ^ 32)%Z → length vs < fuel →
  ∃ s' us, apply_op junk fuel o s = Some (s', (apply_set o (list_to_set vs)).2) ∧ repr s' us
    ∧ list_to_set us = (apply_set o (list_to_set vs)).1 ∧ length us ≤ S (length vs).
Proof.
  intros Hr Hv Hsm Hf. destruct o as [v|v|v]; cbn [op_value apply_op apply_set fst snd] in *.
  - destruct (intsetAdd_spec junk fuel s vs v Hr) as (s1 & p & E & Hr1); [lia|done|lia|].
    eexists s1, _. rewrite E. split; [|split; [exact Hr1|]].
    + do 2 f_equal. apply bool_decide_ext. by rewrite elem_of_list_to_set.
    + case_bool_decide as Hin; [rewrite length_ins, ins_perm; by split|]. split; [set_solver|lia].
  - destruct (intsetRemove_spec junk fuel s vs v Hr) as (s1 & us & E & Hr1 & Hp); [lia|done|].
    exists s1, us. rewrite E. split; [|split; [exact Hr1|]].
    + do 2 f_equal. apply bool_decide_ext. by rewrite elem_of_list_to_set.
    + case_bool_decide as Hin; [|subst us; split; [set_solver|lia]].
      split; [|apply Permutation_length in Hp; cbn in Hp; lia].
      pose proof (sorted_NoDup _ (r_sorted _ _ Hr)) as Hnd. rewrite Hp in Hnd. apply NoDup_cons in Hnd as [Hnd _].
      rewrite Hp. cbn. set_solver.
  - exists s, vs. rewrite (intsetFind_spec fuel s vs v) by (done || lia). cbn [mbind option_bind].
    split_and!; [|done|done|lia]. do 2 f_equal. apply bool_decide_ext. by rewrite elem_of_list_to_set.
Qed.

Lemma run_refines junk fuel ops s vs :
  repr s vs → Forall (λ o, - 2 ^ 63 ≤ op_value o < 2 ^ 63)%Z ops →
  (Z.of_nat (length vs + length ops) * 8 < 2 ^ 32)%Z → length vs + length ops ≤ fuel →
  ∃ s' us, run junk fuel ops s = Some (s', (run_set ops (list_to_set vs)).2) ∧ repr s' us
    ∧ list_to_set us = (run_set ops (list_to_set vs)).1 ∧ length us ≤ length vs + length ops.
Proof.
  intros Hr Hv. revert s vs Hr. induction Hv as [|o ops Ho _ IH]; intros s vs Hr Hsm Hf.
  { exists s, vs. cbn. split_and!; try done. lia. }
  cbn [length] in *. cbn [run run_set].
  destruct (apply_refines junk fuel o s vs Hr Ho) as (s1 & us & -> & Hr1 & EY & Hl); [lia|lia|].
  cbn [mbind option_bind]. destruct (apply_set o (list_to_set vs)) as [Y b]. cbn [fst snd] in *. subst Y.
  destruct (IH s1 us Hr1) as (s2 & us2 & -> & Hr2 & E2 & Hl2); [lia|lia|]. cbn [mbind option_bind].
  destruct (run_set ops (list_to_set us)) as [Z bs]. exists s2, us2. cbn [fst snd] in *. split_and!; try done. lia.
Qed.

(** Two sorted lists of the same elements are the same. *)
Lemma sorted_elements vs us :
  StronglySorted Z.lt vs → StronglySorted Z.lt us → list_to_set vs =@{gset Z} list_to_set us → vs = us.
Proof.
  intros Hv Hu E. apply (StronglySorted_unique_strong Z.lt); [lia|done|done|].
  apply NoDup_Permutation; [by apply sorted_NoDup..|]. intros x.
  by rewrite <- !(elem_of_list_to_set (C := gset Z)), E.
Qed.

(** The wrap-around of the 32-bit size: for 2^29 elements of eight bytes the
    new block has no room for any element. *)
Lemma resize_wraps junk s : s.(encoding) = 8%Z → (intsetResize junk s (2 ^ 29)).(contents) = [].
Proof. intros He. unfold intsetResize. by rewrite He. Qed.

(** ** Properties *)

(** C20. The integer set of intset.c is a set of integers: whatever the bytes of
    new memory are, any sequence of fewer than 2^29 additions, removals and
    searches of 64-bit values, from the empty set, stays inside its block and
    gives the answers of the mathematical set; at its end the block holds the
    elements of that set once each, in increasing order. *)
Theorem intset_refines_set junk fuel ops :
  Forall (λ o, - 2 ^ 63 ≤ op_value o < 2 ^ 63)%Z ops → (Z.of_nat (length ops) * 8 < 2 ^ 32)%Z → length ops ≤ fuel →
  ∃ s' us, run junk fuel ops intsetNew = Some (s', (run_set ops ∅).2) ∧ repr s' us
    ∧ list_to_set us = (run_set ops ∅).1 ∧ intsetLen s' = Z.of_nat (size (run_set ops ∅).1).
Proof.
  intros Hv Hsm Hf. destruct (run_refines junk fuel ops intsetNew [] repr_new Hv Hsm Hf) as (s' & us & E & Hr & Eu & _).
  exists s', us. change (list_to_set []) with (∅ : gset Z) in *. split_and!; try done.
  unfold intsetLen. rewrite (r_len _ _ Hr), <- Eu, size_list_to_set; [done|]. by apply sorted_NoDup, Hr.
Qed.

(** The order of the memory does not depend on the order of the operations:
    [intsetGet] reads the elements by rank, and nothing beyond them. *)
Theorem intset_ordered s t vs us i :
  repr s vs → repr t us → list_to_set vs =@{gset Z} list_to_set us → (0 ≤ i < 2 ^ 31)%Z →
  intsetGet s i = intsetGet t i ∧ intsetGet s i = Some (vs !! Z.to_nat i).
Proof.
  intros Hs Ht E Hi. assert (vs = us) as <- by (apply sorted_elements; [apply Hs|apply Ht|done]).
  rewrite (intsetGet_spec s vs i), (intsetGet_spec t vs i) by done. done.
Qed.

(** ** Witnesses *)

Definition sample_ops : list op :=
  [OAdd 5; OAdd (-3); OAdd 70000; OAdd 5; OFind 70000; ORemove (-3); OAdd (-5000000000); OFind (-3); ORemove 6].

Lemma intset_refines_set_witness :
  ∃ s' us, run 204 9 sample_ops intsetNew = Some (s', [true; true; true; false; true; true; true; false; false])
    ∧ repr s' us ∧ intsetLen s' = 3%Z.
Proof.
  destruct (intset_refines_set 204 9 sample_ops) as (s' & us & E & Hr & _ & Hl).
  - repeat constructor; cbn; lia.
  - cbn. lia.
  - apply Nat.leb_le. reflexivity.
  - exists s', us. split; [exact E|]. split; [exact Hr|exact Hl].
Defined.

Lemma intset_ordered_witness :
  ∃ s, run 204 9 sample_ops intsetNew = Some (s, (run_set sample_ops ∅).2) ∧ intsetGet s 1 = Some (Some 5%Z).
Proof.
  destruct (run_refines 204 9 sample_ops intsetNew [] repr_new) as (s & us & E & Hr & Eu & _);
    [repeat constructor; cbn; lia|cbn; lia|apply Nat.leb_le; reflexivity|].
  exists s. split; [exact E|].
  destruct (intset_ordered s s us us 1 Hr Hr eq_refl) as [_ ->]; [lia|].
  assert (us = [-5000000000; 5; 70000]%Z) as ->; [|reflexivity].
  apply sorted_elements; [apply Hr|repeat constructor; lia|]. rewrite Eu. vm_compute. reflexivity.
Defined.
