(* ===== verification/RedisUtil.v ===== *)
(** * Integers and their decimal texts in Redis

    redis-5.0.10/src/util.c: [digits10], [sdigits10], [ll2string],
    [string2ll], [string2l] and [memtoll].  An unsigned 64-bit number is a [Z]
    from 0 to 2^64 - 1; a [char] array is a list of bytes, and a store outside
    it is undefined ([None]). *)
From S2P Require Import Prelude CString.

Module RedisUtil.

Definition LLONG_MAX : Z := 2 ^ 63 - 1.
Definition LLONG_MIN : Z := - 2 ^ 63.
Definition ULLONG_MAX : Z := 2 ^ 64 - 1.

(** ** Printing *)

Definition b2z (b : bool) : Z := if b then 1 else 0.

(** The recursion is on [v / 10^12]: two calls are enough for 64 bits. *)
Fixpoint digits10_go (fuel : nat) (v : Z) : Z :=
  match fuel with
  | 0%nat => 0
  | S fuel =>
      if v <? 10 then 1
      else if v <? 100 then 2
      else if v <? 1000 then 3
      else if v <? 1000000000000 then
        if v <? 100000000 then
          if v <? 1000000 then
            if v <? 10000 then 4 else 5 + b2z (v >=? 100000)
          else 7 + b2z (v >=? 10000000)
        else if v <? 10000000000 then 9 + b2z (v >=? 1000000000)
        else 11 + b2z (v >=? 100000000000)
      else 12 + digits10_go fuel (v / 1000000000000)
  end%Z.
Definition digits10 (v : Z) : Z := digits10_go 2 v.

(** The magnitude of a [long long], as the code computes it. *)
Definition magnitude (v : Z) : Z :=
  if (v <? 0)%Z then (if negb (v =? LLONG_MIN)%Z then (- v) mod 2 ^ 64 else LLONG_MAX + 1)%Z else v.

Definition sdigits10 (v : Z) : Z :=
  if (v <? 0)%Z then (digits10 (magnitude v) + 1)%Z else digits10 v.

Definition digits_table : bytes :=
  B "0001020304050607080910111213141516171819" ++ B "2021222324252627282930313233343536373839"
  ++ B "4041424344454647484950515253545556575859" ++ B "6061626364656667686970717273747576777879"
  ++ B "8081828384858687888990919293949596979899".

(** [dst[i] = c]. *)
Definition put (i : Z) (c : ascii) (dst : bytes) : option bytes :=
  if decide (0 ≤ i < Z.of_nat (length dst))%Z then Some (<[Z.to_nat i := c]> dst) else None.
Definition table (i : Z) : option ascii := digits_table !! Z.to_nat i.

(** [while (value >= 100)]: [next], the value left and the array. *)
Fixpoint print_loop (fuel : nat) (next value : Z) (dst : bytes) : option (Z * Z * bytes) :=
  match fuel with
  | 0 => None
  | S fuel =>
      if (value >=? 100)%Z then
        let i := (value mod 100 * 2)%Z in
        let value := (value / 100)%Z in
        c ← table (i + 1); dst ← put next c dst;
        c ← table i; dst ← put (next - 1) c dst;
        print_loop fuel (next - 2) value dst
      else Some (next, value, dst)
  end.

(** The last one or two digits. *)
Definition print_last (next value : Z) (dst : bytes) : option bytes :=
  if (value <? 10)%Z then put next (ascii_of_N (Z.to_N (48 + value))) dst
  else
    let i := (value * 2)%Z in
    c ← table (i + 1); dst ← put next c dst;
    c ← table i; put (next - 1) c dst.

(** The result and the array; ten turns are enough for 64 bits. *)
Definition ll2string (dst : bytes) (dstlen : Z) (svalue : Z) : option (Z * bytes) :=
  let negative := b2z (svalue <? 0)%Z in
  let value := magnitude svalue in
  let length := (digits10 value + negative)%Z in
  if (length >=? dstlen)%Z then Some (0%Z, dst)
  else
    dst ← put length NUL dst;
    '(next, value, dst) ← print_loop 11 (length - 1) value dst;
    dst ← print_last next value dst;
    dst ← (if (negative =? 1)%Z then put 0 "-"%char dst else Some dst);
    Some (length, dst).

(** ** Parsing *)

Definition digit_1_9 (c : ascii) : bool := ((49 <=? ord c) && (ord c <=? 57))%Z.

(** [while (plen < slen && p[0] >= '0' && p[0] <= '9')]: [None] is a return of
    0, otherwise the number, an [unsigned long long], and the bytes that are
    left. *)
Fixpoint parse_loop (v : Z) (p : bytes) : option (Z * bytes) :=
  match p with
  | [] => Some (v, [])
  | c :: p' =>
      if isdigit c then
        if (v >? ULLONG_MAX / 10)%Z then None
        else
          let v := ((v * 10) mod 2 ^ 64)%Z in
          if (v >? ULLONG_MAX - digit c)%Z then None
          else parse_loop ((v + digit c) mod 2 ^ 64)%Z p'
      else Some (v, p)
  end.

(** [None] is the result 0. *)
Definition string2ll (s : bytes) : option Z :=
  match s with
  | [] => None
  | c :: k =>
      if bool_decide (s = ["0"%char]) then Some 0%Z
      else
        let negative := Ascii.eqb c "-" in
        let p := if negative then k else s in
        match p with
        | [] => None
        | d :: p =>
            if digit_1_9 d then
              '(v, rest) ← parse_loop (digit d) p;
              match rest with
              | _ :: _ => None
              | [] =>
                  if negative then
                    if (v >? - (LLONG_MIN + 1) + 1)%Z then None else Some (- v)%Z
                  else if (v >? LLONG_MAX)%Z then None else Some v
              end
            else None
        end
  end.

(** A [long] has 64 bits too. *)
Definition string2l (s : bytes) : option Z :=
  llval ← string2ll s;
  if ((llval <? - 2 ^ 63) || (2 ^ 63 - 1 <? llval))%Z then None else Some llval.

(** ** Amounts of memory *)

(** The digits after an optional sign, and the rest. *)
Fixpoint span_digits (s : bytes) : bytes * bytes :=
  match s with
  | c :: k => if isdigit c then let '(a, b) := span_digits k in (c :: a, b) else ([], s)
  | [] => ([], [])
  end.

Definition unit_of (u : bytes) : option Z :=
  match u with
  | [] => Some 1%Z
  | _ =>
      if strcaseeq u (B "b") then Some 1%Z
      else if strcaseeq u (B "k") then Some 1000%Z
      else if strcaseeq u (B "kb") then Some 1024%Z
      else if strcaseeq u (B "m") then Some (1000 * 1000)%Z
      else if strcaseeq u (B "mb") then Some (1024 * 1024)%Z
      else if strcaseeq u (B "g") then Some (1000 * 1000 * 1000)%Z
      else if strcaseeq u (B "gb") then Some (1024 * 1024 * 1024)%Z
      else None
  end.

(** The result and [*err]; [None] is the signed overflow of the product.
    [strtoll] clamps to 64 bits; glibc does not set [errno] to EINVAL for a
    text without digits, and leaves [endptr] at its start. *)
Definition memtoll (p : bytes) : option (Z * bool) :=
  let '(sign, k) := match p with c :: k => if Ascii.eqb c "-" then ([c], k) else ([], p) | [] => ([], []) end in
  let '(ds, u) := span_digits k in
  match unit_of u with
  | None => Some (0%Z, true)
  | Some mul =>
      if decide (128 ≤ length (sign ++ ds)) then Some (0%Z, true)
      else
        match sign, ds with
        | _ :: _, [] => Some (0%Z, true)   (* *endptr is '-' *)
        | _, _ =>
            let val := strtol (sign ++ ds) in
            let r := (val * mul)%Z in
            if ((LLONG_MIN <=? r) && (r <=? LLONG_MAX))%Z then Some (r, false) else None
        end
  end.
End RedisUtil.
