(* ===== verification/RedisUtilProofs.v ===== *)
(** * Integers and their decimal texts in Redis: correctness

    [ll2string] writes the decimal text of a number, [string2ll] accepts
    exactly the decimal texts of the 64-bit integers and gives back the
    number, and [digits10] is the length of the text. *)
From S2P Require Import Prelude CString RedisUtil.
Import RedisUtil.

(** ** Decimal texts *)

Lemma B_pretty_go x s : B (pretty_N_go x s) = B (pretty_N_go x "") ++ B s.
Proof.
  revert s. induction (N.lt_wf_0 x) as [x _ IH]. intros s. destruct (decide (0 < x)%N) as [Hx|Hx].
  - rewrite !(pretty_N_go_step x) by done. assert (x / 10 < x)%N as Hlt by (apply N.div_lt; lia).
    rewrite (IH _ Hlt (String (pretty_N_char (x mod 10)) s)), (IH _ Hlt (String (pretty_N_char (x mod 10)) "")).
    by rewrite <- app_assoc.
  - by replace x with 0%N by lia.
Qed.

Definition digit_char (d : Z) : ascii := ascii_of_N (Z.to_N (48 + d)).

Lemma pretty_char d : (d < 10)%N → pretty_N_char d = digit_char (Z.of_N d).
Proof.
  intros H. assert (d = 0 ∨ d = 1 ∨ d = 2 ∨ d = 3 ∨ d = 4 ∨ d = 5 ∨ d = 6 ∨ d = 7 ∨ d = 8 ∨ d = 9)%N as Hd by lia.
  repeat destruct Hd as [->|Hd]; try done. by subst.
Qed.

Lemma dec_pos x : (0 < x)%N → dec (Z.of_N x) = B (pretty_N_go x "").
Proof.
  intros Hx. destruct x as [|p]; [lia|]. unfold dec. cbn [Z.of_N].
  change (pretty (Z.pos p)) with (pretty (N.pos p)). unfold pretty, pretty_N. by rewrite decide_False.
Qed.

Lemma dec_digit d : (0 ≤ d < 10)%Z → dec d = [digit_char d].
Proof.
  intros H. assert (d = 0 ∨ d = 1 ∨ d = 2 ∨ d = 3 ∨ d = 4 ∨ d = 5 ∨ d = 6 ∨ d = 7 ∨ d = 8 ∨ d = 9)%Z as Hd by lia.
  repeat destruct Hd as [->|Hd]; try done. by subst.
Qed.

(** The last digit. *)
Lemma dec_snoc q d : (0 < q)%Z → (0 ≤ d < 10)%Z → dec (q * 10 + d) = dec q ++ [digit_char d].
Proof.
  intros Hq Hd. rewrite <- (Z2N.id (q * 10 + d)) by lia. rewrite dec_pos by lia.
  rewrite pretty_N_go_step by lia. rewrite B_pretty_go.
  assert (Z.to_N (q * 10 + d) / 10 = Z.to_N q)%N as ->.
  { apply N2Z.inj. rewrite N2Z.inj_div, !Z2N.id by lia. rewrite Z.div_add_l, Z.div_small by lia. lia. }
  assert (Z.to_N (q * 10 + d) mod 10 = Z.to_N d)%N as ->.
  { apply N2Z.inj. rewrite N2Z.inj_mod, !Z2N.id by lia. rewrite Z.add_comm, Z.mod_add, Z.mod_small by lia. lia. }
  rewrite pretty_char, Z2N.id by lia. rewrite <- (dec_pos (Z.to_N q)), Z2N.id by lia. done.
Qed.

Lemma dec_neg v : (v < 0)%Z → dec v = "-"%char :: dec (- v).
Proof. intros H. destruct v as [|p|p]; [lia..|]. done. Qed.

(** A positive number starts with a digit from 1 to 9. *)
Lemma digit_chars d : (0 ≤ d < 10)%Z →
  isdigit (digit_char d) = true ∧ digit (digit_char d) = d ∧ Ascii.eqb (digit_char d) "-" = false
  ∧ digit_1_9 (digit_char d) = negb (d =? 0)%Z.
Proof.
  intros H. assert (d = 0 ∨ d = 1 ∨ d = 2 ∨ d = 3 ∨ d = 4 ∨ d = 5 ∨ d = 6 ∨ d = 7 ∨ d = 8 ∨ d = 9)%Z as Hd by lia.
  repeat destruct Hd as [->|Hd]; try done. by subst.
Qed.

Lemma digit_char_inj d e : (0 ≤ d < 10)%Z → (0 ≤ e < 10)%Z → digit_char d = digit_char e → d = e.
Proof. intros Hd He E. destruct (digit_chars d Hd) as (_ & <- & _), (digit_chars e He) as (_ & <- & _). by rewrite E. Qed.

Lemma isdigit_char c : isdigit c = true → (0 ≤ digit c < 10)%Z ∧ c = digit_char (digit c).
Proof.
  intros H. unfold digit_char, digit, isdigit in *. apply andb_true_iff in H as [H1%N.leb_le H2%N.leb_le].
  split; [lia|].
  replace (48 + (Z.of_N (N_of_ascii c) - 48))%Z with (Z.of_N (N_of_ascii c)) by lia.
  by rewrite N2Z.id, ascii_N_embedding.
Qed.

(** Induction over the digits of a positive number. *)
Lemma decimal_ind (P : Z → Prop) :
  (∀ d, 0 < d < 10 → P d)%Z → (∀ q d, 0 < q → 0 ≤ d < 10 → P q → P (q * 10 + d))%Z → ∀ v, (0 < v)%Z → P v.
Proof.
  intros H1 H2 v Hv. assert (0 ≤ v)%Z as H0 by lia. revert Hv.
  revert v H0. apply (Zlt_0_ind (λ v, 0 < v → P v)%Z). intros v IH _ Hv.
  destruct (decide (v < 10)%Z); [apply H1; lia|].
  pose proof (Z.div_mod v 10 ltac:(lia)) as E. pose proof (Z.mod_pos_bound v 10 ltac:(lia)).
  rewrite E, Z.mul_comm. assert (0 < v / 10)%Z by (apply Z.div_str_pos; lia). apply H2; [done|lia|].
  apply IH; [|done]. split; [lia|]. apply Z.div_lt; lia.
Qed.

Lemma dec_starts v : (0 < v)%Z → ∃ d k, dec v = digit_char d :: k ∧ (0 < d < 10)%Z ∧ Forall (λ c, isdigit c = true) k.
Proof.
  revert v. apply decimal_ind.
  - intros d Hd. exists d, []. rewrite dec_digit by lia. done.
  - intros q d Hq Hd (d' & k & E & Hd' & Hk). exists d', (k ++ [digit_char d]).
    rewrite dec_snoc, E by done. split; [done|]. split; [done|]. apply Forall_app. split; [done|].
    constructor; [|done]. by apply digit_chars.
Qed.

(** ** Parsing *)

(** The loop reads the digits of [v] as [v]. *)
Lemma parse_loop_dec v : (0 < v)%Z → (v ≤ ULLONG_MAX)%Z → ∀ d k rest,
  dec v = digit_char d :: k → (0 < d < 10)%Z → parse_loop d (k ++ rest) = parse_loop v rest.
Proof.
  revert v. apply (decimal_ind (λ v, v ≤ ULLONG_MAX → ∀ d k rest,
    dec v = digit_char d :: k → 0 < d < 10 → parse_loop d (k ++ rest) = parse_loop v rest)%Z).
  - intros e He _ d k rest E Hd. rewrite dec_digit in E by lia. injection E as E <-.
    apply digit_char_inj in E as ->; [|lia..]. done.
  - intros q e Hq He IH Hmax d k rest E Hd. rewrite dec_snoc in E by done.
    destruct (dec_starts q Hq) as (d' & k' & Eq & Hd' & _). rewrite Eq in E. injection E as E <-.
    apply digit_char_inj in E as ->; [|lia..].
    rewrite <- app_assoc, (IH ltac:(lia) d k') by done. cbn [app parse_loop].
    destruct (digit_chars e He) as (-> & -> & _). unfold ULLONG_MAX in *. rewrite !Z.gtb_ltb.
    pose proof (Z.div_mod (2 ^ 64 - 1) 10 ltac:(lia)). pose proof (Z.mod_pos_bound (2 ^ 64 - 1) 10 ltac:(lia)).
    destruct (Z.ltb_spec ((2 ^ 64 - 1) / 10) q); [lia|].
    rewrite (Z.mod_small (q * 10)) by lia.
    destruct (Z.ltb_spec (2 ^ 64 - 1 - e) (q * 10)); [lia|]. by rewrite Z.mod_small by lia.
Qed.

(** What the loop accepts is a decimal text. *)
Lemma parse_loop_sound v p n :
  (0 < v)%Z → parse_loop v p = Some (n, []) → dec n = dec v ++ p ∧ (0 < n)%Z.
Proof.
  revert v. induction p as [|c p IH]; intros v Hv H; cbn [parse_loop] in H.
  { simplify_eq. by rewrite app_nil_r. }
  destruct (isdigit c) eqn:Ec; [|done]. destruct (isdigit_char c Ec) as [Hd Hc].
  unfold ULLONG_MAX in H. pose proof (Z.div_mod (2 ^ 64 - 1) 10 ltac:(lia)). pose proof (Z.mod_pos_bound (2 ^ 64 - 1) 10 ltac:(lia)).
  destruct (Z.gtb_spec v ((2 ^ 64 - 1) / 10)); [done|]. rewrite (Z.mod_small (v * 10)) in H by lia.
  destruct (Z.gtb_spec (v * 10) (2 ^ 64 - 1 - digit c)); [done|]. rewrite Z.mod_small in H by lia.
  apply IH in H as [-> Hn]; [|lia]. rewrite dec_snoc by lia. rewrite <- Hc, <- app_assoc. done.
Qed.

Lemma dec_0 : dec 0 = ["0"%char].
Proof. done. Qed.

Lemma dec_ne_0 v : (0 < v)%Z → dec v ≠ ["0"%char].
Proof.
  intros Hv E. destruct (dec_starts v Hv) as (d & k & E' & Hd & _). rewrite E' in E. injection E as E _.
  destruct (digit_chars d) as (_ & Ed & _); [lia|]. rewrite E in Ed. change (0 = d)%Z in Ed. lia.
Qed.

(** A text of a positive number, with or without a sign. *)
Lemma string2ll_magnitude v (neg : bool) :
  (0 < v ≤ ULLONG_MAX)%Z →
  string2ll ((if neg then ["-"%char] else []) ++ dec v)
  = (if neg then if (v >? - (LLONG_MIN + 1) + 1)%Z then None else Some (- v)%Z
     else if (v >? LLONG_MAX)%Z then None else Some v).
Proof.
  intros Hv. destruct (dec_starts v) as (d & k & E & Hd & _); [lia|].
  destruct (digit_chars d) as (_ & Edig & Em & E19); [lia|].
  assert (parse_loop d k = Some (v, [])) as Ep.
  { rewrite <- (app_nil_r k). rewrite (parse_loop_dec v) with (d := d) by (done || lia). done. }
  assert (digit_1_9 (digit_char d) = true) as E1 by (rewrite E19; destruct (Z.eqb_spec d 0); [lia|done]).
  destruct neg; cbn [app]; rewrite E; unfold string2ll.
  - rewrite bool_decide_eq_false_2 by done. change (Ascii.eqb "-" "-") with true. cbv iota. rewrite E1, Edig, Ep. done.
  - rewrite bool_decide_eq_false_2 by (rewrite <- E; apply dec_ne_0; lia). rewrite Em, E1, Edig, Ep. done.
Qed.

Lemma string2ll_complete v : (LLONG_MIN ≤ v ≤ LLONG_MAX)%Z → string2ll (dec v) = Some v.
Proof.
  unfold LLONG_MIN, LLONG_MAX. intros Hv. destruct (decide (v = 0)%Z) as [->|]; [done|].
  destruct (decide (0 < v)%Z).
  - change (dec v) with ([] ++ dec v). rewrite (string2ll_magnitude v false) by (unfold ULLONG_MAX; lia). rewrite Z.gtb_ltb.
    unfold LLONG_MAX. destruct (Z.ltb_spec (2 ^ 63 - 1) v); [lia|done].
  - rewrite dec_neg by lia. change ("-"%char :: dec (- v)) with (["-"%char] ++ dec (- v)).
    rewrite (string2ll_magnitude (- v) true) by (unfold ULLONG_MAX; lia). rewrite Z.gtb_ltb.
    unfold LLONG_MIN. destruct (Z.ltb_spec (- (- 2 ^ 63 + 1) + 1) (- v)); [lia|]. f_equal. lia.
Qed.

(** The first digit and the loop. *)
Lemma digit_loop_sound d p n :
  digit_1_9 d = true → parse_loop (digit d) p = Some (n, []) → d :: p = dec n ∧ (0 < n)%Z.
Proof.
  intros Hd H. assert (isdigit d = true ∧ 0 < digit d)%Z as [Hi Hp].
  { unfold digit_1_9, isdigit, digit, ord in *. apply andb_true_iff in Hd as [H1%Z.leb_le H2%Z.leb_le].
    split; [apply andb_true_iff; split; apply N.leb_le; lia|lia]. }
  destruct (isdigit_char d Hi) as [Hr Hc]. apply parse_loop_sound in H as [-> Hn]; [|done].
  split; [|done]. rewrite dec_digit by lia. by rewrite <- Hc.
Qed.

Lemma string2ll_sound s v : string2ll s = Some v → s = dec v ∧ (LLONG_MIN ≤ v ≤ LLONG_MAX)%Z.
Proof.
  unfold string2ll. destruct s as [|c k]; [done|]. case_bool_decide as E0; [intros [= <-]; by rewrite E0|].
  destruct (Ascii.eqb_spec c "-") as [->|Hc].
  - destruct k as [|d p]; [done|]. destruct (digit_1_9 d) eqn:Ed; [|done].
    destruct (parse_loop (digit d) p) as [[n rest]|] eqn:Ep; [|done]. cbn [mbind option_bind].
    destruct rest; [|done]. rewrite Z.gtb_ltb. destruct (Z.ltb_spec (- (LLONG_MIN + 1) + 1) n); [done|]. intros [= <-].
    destruct (digit_loop_sound d p n Ed Ep) as [-> Hn]. rewrite (dec_neg (- n)), Z.opp_involutive by lia.
    unfold LLONG_MIN, LLONG_MAX in *. split; [done|lia].
  - destruct (digit_1_9 c) eqn:Ed; [|done].
    destruct (parse_loop (digit c) k) as [[n rest]|] eqn:Ep; [|done]. cbn [mbind option_bind].
    destruct rest; [|done]. rewrite Z.gtb_ltb. destruct (Z.ltb_spec LLONG_MAX n); [done|]. intros [= <-].
    destruct (digit_loop_sound c k n Ed Ep) as [-> Hn]. unfold LLONG_MIN, LLONG_MAX in *. split; [done|lia].
Qed.

(** ** Printing *)

Lemma dec_bounds v : (0 < v)%Z → (10 ^ (Z.of_nat (length (dec v)) - 1) ≤ v < 10 ^ Z.of_nat (length (dec v)))%Z.
Proof.
  revert v. apply decimal_ind.
  - intros d Hd. rewrite dec_digit by lia. cbn. lia.
  - intros q d Hq Hd IH. rewrite dec_snoc, length_app by done. cbn [length].
    set (n := Z.of_nat (length (dec q))) in *. replace (Z.of_nat (length (dec q) + 1)) with (n + 1)%Z by (unfold n; lia).
    assert (0 < n)%Z by (destruct (dec_starts q Hq) as (? & ? & E & _); unfold n; rewrite E; cbn; lia).
    replace (n + 1 - 1)%Z with (n - 1 + 1)%Z by lia. rewrite !Z.pow_add_r by lia. lia.
Qed.

Lemma length_dec_exact v k : (0 ≤ k)%Z → (10 ^ k ≤ v < 10 ^ (k + 1))%Z → Z.of_nat (length (dec v)) = (k + 1)%Z.
Proof.
  intros Hk Hv. assert (0 < 10 ^ k)%Z by (apply Z.pow_pos_nonneg; lia).
  destruct (dec_bounds v) as [H1 H2]; [lia|]. set (n := Z.of_nat (length (dec v))) in *.
  assert (n - 1 < k + 1)%Z by (apply (Z.pow_lt_mono_r_iff 10); lia).
  assert (k < n)%Z by (apply (Z.pow_lt_mono_r_iff 10); lia). lia.
Qed.

(** The length of the text of a number between two powers of ten. *)
Ltac by_len k := match goal with |- context [dec ?v] => rewrite (length_dec_exact v k); [reflexivity|lia|lia] end.

Lemma digits10_small fuel v : (0 ≤ v < 10 ^ 12)%Z → digits10_go (S fuel) v = Z.of_nat (length (dec v)).
Proof.
  intros Hv. destruct (decide (v = 0)%Z) as [->|]; [done|]. cbn [digits10_go].
  destruct (Z.ltb_spec v 10); [by_len 0%Z|].
  destruct (Z.ltb_spec v 100); [by_len 1%Z|].
  destruct (Z.ltb_spec v 1000); [by_len 2%Z|].
  destruct (Z.ltb_spec v 1000000000000); [|lia].
  unfold b2z. rewrite !Z.geb_leb.
  destruct (Z.ltb_spec v 100000000).
  - destruct (Z.ltb_spec v 1000000).
    + destruct (Z.ltb_spec v 10000); [by_len 3%Z|].
      destruct (Z.leb_spec 100000 v); [by_len 5%Z|by_len 4%Z].
    + destruct (Z.leb_spec 10000000 v); [by_len 7%Z|by_len 6%Z].
  - destruct (Z.ltb_spec v 10000000000).
    + destruct (Z.leb_spec 1000000000 v); [by_len 9%Z|by_len 8%Z].
    + destruct (Z.leb_spec 100000000000 v); [by_len 11%Z|by_len 10%Z].
Qed.

Lemma digits10_length v : (0 ≤ v ≤ ULLONG_MAX)%Z → digits10 v = Z.of_nat (length (dec v)).
Proof.
  unfold ULLONG_MAX, digits10. intros Hv. destruct (decide (v < 10 ^ 12)%Z); [apply digits10_small; lia|].
  set (q := (v / 1000000000000)%Z). assert (0 < q)%Z by (apply Z.div_str_pos; lia).
  pose proof (Z.div_mod v 1000000000000 ltac:(lia)). pose proof (Z.mod_pos_bound v 1000000000000 ltac:(lia)).
  fold q in H0. assert (digits10_go 2 v = 12 + digits10_go 1 q)%Z as ->.
  { cbn [digits10_go]. destruct (Z.ltb_spec v 10); [lia|]. destruct (Z.ltb_spec v 100); [lia|].
    destruct (Z.ltb_spec v 1000); [lia|]. destruct (Z.ltb_spec v 1000000000000); [lia|]. done. }
  rewrite digits10_small by lia. destruct (dec_bounds q) as [H2 H3]; [lia|].
  set (m := Z.of_nat (length (dec q))) in *.
  assert (0 < m)%Z by (destruct (dec_starts q) as (? & ? & E & _); [lia|]; unfold m; rewrite E; cbn; lia).
  rewrite (length_dec_exact v (m - 1 + 12)); [lia|lia|].
  replace (m - 1 + 12 + 1)%Z with (m + 12)%Z by lia. rewrite !Z.pow_add_r by lia.
  change (10 ^ 12)%Z with 1000000000000%Z. lia.
Qed.

(** The table of pairs of digits. *)
Lemma table_pair r : (0 ≤ r < 100)%Z →
  table (r * 2) = Some (digit_char (r / 10)) ∧ table (r * 2 + 1) = Some (digit_char (r mod 10)).
Proof.
  intros Hr.
  assert (forallb (λ n, bool_decide (table (Z.of_nat n * 2) = Some (digit_char (Z.of_nat n / 10))
    ∧ table (Z.of_nat n * 2 + 1) = Some (digit_char (Z.of_nat n mod 10)))) (seq 0 100) = true) as H by by vm_compute.
  pose proof (forallb_below _ _ H (Z.to_nat r) ltac:(lia)) as Hn. apply bool_decide_eq_true in Hn.
  by rewrite Z2Nat.id in Hn by lia.
Qed.

Lemma put_app a x b c i : i = Z.of_nat (length a) → put i c (a ++ x :: b) = Some (a ++ c :: b).
Proof.
  intros ->. unfold put. rewrite decide_True by (rewrite length_app; cbn; lia). by rewrite Nat2Z.id, insert_app_exact.
Qed.

(** The two last digits of a number. *)
Lemma dec_pair v : (100 ≤ v)%Z →
  dec v = dec (v / 100) ++ [digit_char (v mod 100 / 10); digit_char (v mod 100 mod 10)].
Proof.
  intros Hv. pose proof (Z.div_mod v 100 ltac:(lia)) as E. pose proof (Z.mod_pos_bound v 100 ltac:(lia)).
  assert (0 < v / 100)%Z by (apply Z.div_str_pos; lia). set (r := (v mod 100)%Z) in *.
  pose proof (Z.div_mod r 10 ltac:(lia)). pose proof (Z.mod_pos_bound r 10 ltac:(lia)).
  replace v with ((v / 100 * 10 + r / 10) * 10 + r mod 10)%Z at 1 by lia.
  rewrite !dec_snoc by lia. by rewrite <- app_assoc.
Qed.

(** Two stores at the end of the free part of the array. *)
Lemma put_pair a x y b i r :
  i = Z.of_nat (length a + 1) → (0 ≤ r < 100)%Z →
  (c ← table (r * 2 + 1); dst ← put i c (a ++ x :: y :: b); c ← table (r * 2); put (i - 1) c dst)
  = Some (a ++ digit_char (r / 10) :: digit_char (r mod 10) :: b).
Proof.
  intros -> Hr. destruct (table_pair r Hr) as [-> ->]. cbn [mbind option_bind].
  replace (a ++ x :: y :: b) with ((a ++ [x]) ++ y :: b) by by rewrite <- app_assoc.
  rewrite put_app by (rewrite length_app; done). cbn [mbind option_bind]. rewrite <- app_assoc.
  cbn [app]. apply put_app. lia.
Qed.

(** The text of [v] in front of [b], after [a]. *)
Lemma print_ok fuel v a gap b :
  0 < fuel → (0 ≤ v < 100 ^ Z.of_nat fuel)%Z → length gap = length (dec v) →
  ('(next, value, dst) ← print_loop fuel (Z.of_nat (length (a ++ gap)) - 1) v (a ++ gap ++ b);
   print_last next value dst) = Some (a ++ dec v ++ b).
Proof.
  revert v gap b. induction fuel as [|fuel IH]; intros v gap b Hfu Hv Hg; [lia|].
  cbn [print_loop]. rewrite Z.geb_leb. destruct (Z.leb_spec 100 v) as [Hge|Hlt].
  - pose proof (dec_pair v Hge) as E. rewrite E, length_app in Hg. cbn [length] in Hg.
    destruct (dec_starts (v / 100)) as (d0 & k0 & E0 & _); [apply Z.div_str_pos; lia|].
    destruct gap as [|y gap _] using rev_ind; [cbn [length app] in Hg; lia|]. destruct gap as [|x gap _] using rev_ind; [cbn [length app] in Hg; lia|].
    rewrite !length_app in Hg. cbn [length] in Hg.
    assert (a ++ ((gap ++ [x]) ++ [y]) ++ b = (a ++ gap) ++ x :: y :: b) as -> by (rewrite <- !app_assoc; done).
    replace (Z.of_nat (length (a ++ (gap ++ [x]) ++ [y])) - 1)%Z with (Z.of_nat (length (a ++ gap) + 1))
      by (rewrite !length_app; cbn; lia).
    pose proof (Z.mod_pos_bound v 100 ltac:(lia)) as Hm.
    pose proof (put_pair (a ++ gap) x y b _ (v mod 100) eq_refl Hm) as Hp.
    destruct (table (v mod 100 * 2 + 1)) as [c1|]; [|done]. cbn [mbind option_bind] in Hp |- *.
    destruct (put (Z.of_nat (length (a ++ gap) + 1)) c1 _) as [dst1|]; [|done]. cbn [mbind option_bind] in Hp |- *.
    destruct (table (v mod 100 * 2)) as [c2|]; [|done]. cbn [mbind option_bind] in Hp |- *. rewrite Hp. cbn [mbind option_bind].
    replace (Z.of_nat (length (a ++ gap) + 1) - 2)%Z with (Z.of_nat (length (a ++ gap)) - 1)%Z by lia.
    rewrite <- app_assoc, E.
    set (b' := digit_char (v mod 100 / 10) :: digit_char ((v mod 100) mod 10) :: b).
    replace (a ++ (dec (v / 100) ++ [digit_char (v mod 100 / 10); digit_char ((v mod 100) mod 10)]) ++ b)
      with (a ++ dec (v / 100) ++ b') by (rewrite <- !app_assoc; done).
    rewrite Nat2Z.inj_succ, Z.pow_succ_r in Hv by lia.
    apply IH; [destruct fuel; [cbn in Hv; lia|lia]| |lia]. split; [apply Z.div_pos; lia|]. apply Z.div_lt_upper_bound; lia.
  - cbn [mbind option_bind]. unfold print_last. destruct (Z.ltb_spec v 10).
    + rewrite dec_digit in Hg |- * by lia. destruct gap as [|x [|]]; [done| |done].
      change (a ++ [x] ++ b) with (a ++ x :: b). rewrite put_app; [done|]. rewrite length_app. cbn [length]. lia.
    + assert (dec v = [digit_char (v / 10); digit_char (v mod 10)]) as Ed.
      { pose proof (Z.div_mod v 10 ltac:(lia)). pose proof (Z.mod_pos_bound v 10 ltac:(lia)).
        replace v with (v / 10 * 10 + v mod 10)%Z at 1 by lia. rewrite dec_snoc, dec_digit by lia. done. }
      rewrite Ed in Hg |- *. destruct gap as [|x [|y [|]]]; [done|done| |done].
      apply (put_pair a x y b); [rewrite length_app; cbn [length]; lia|lia].
Qed.

Lemma magnitude_abs v : (LLONG_MIN ≤ v ≤ LLONG_MAX)%Z → magnitude v = Z.abs v.
Proof.
  unfold LLONG_MIN, LLONG_MAX, magnitude. intros Hv. destruct (Z.ltb_spec v 0); [|lia].
  unfold LLONG_MIN, LLONG_MAX. destruct (Z.eqb_spec v (- 2 ^ 63)); cbn [negb]; [lia|]. rewrite Z.mod_small; lia.
Qed.

Lemma length_dec_signed v : (LLONG_MIN ≤ v ≤ LLONG_MAX)%Z →
  (digits10 (magnitude v) + b2z (v <? 0))%Z = Z.of_nat (length (dec v)).
Proof.
  intros Hv. rewrite magnitude_abs by done. unfold LLONG_MIN, LLONG_MAX in Hv.
  rewrite digits10_length by (unfold ULLONG_MAX; lia). unfold b2z. destruct (Z.ltb_spec v 0).
  - rewrite (dec_neg v) by done. rewrite Z.abs_neq by lia. cbn [length]. lia.
  - rewrite Z.abs_eq by lia. lia.
Qed.

Lemma ll2string_spec dst v :
  (LLONG_MIN ≤ v ≤ LLONG_MAX)%Z →
  ll2string dst (Z.of_nat (length dst)) v
  = Some (if decide (length (dec v) < length dst)
          then (Z.of_nat (length (dec v)), dec v ++ NUL :: drop (S (length (dec v))) dst) else (0%Z, dst)).
Proof.
  intros Hv. unfold ll2string. rewrite length_dec_signed by done. rewrite Z.geb_leb.
  destruct (decide (length (dec v) < length dst)) as [Hl|Hl];
    destruct (Z.leb_spec (Z.of_nat (length dst)) (Z.of_nat (length (dec v)))); try lia; [|done].
  set (n := length (dec v)) in *.
  assert (∃ gap x rest, dst = gap ++ x :: rest ∧ length gap = n ∧ drop (S n) dst = rest) as (gap & x & rest & -> & Hgap & Hrest).
  { destruct (lookup_lt_is_Some_2 dst n) as [x Hx]; [lia|]. exists (take n dst), x, (drop (S n) dst).
    split; [symmetry; by apply take_drop_middle|]. split; [rewrite length_take; lia|done]. }
  rewrite Hrest. clear Hrest.
  rewrite put_app by by rewrite Hgap. cbn [mbind option_bind]. rewrite magnitude_abs by done.
  assert (0 ≤ Z.abs v < 100 ^ Z.of_nat 11)%Z as Hb.
  { unfold LLONG_MIN, LLONG_MAX in Hv. change (100 ^ Z.of_nat 11)%Z with (10 ^ 22)%Z. lia. }
  unfold b2z. destruct (Z.ltb_spec v 0) as [Hneg|Hpos].
  - pose proof (dec_neg v Hneg) as Ed. unfold n in *. rewrite Ed in Hgap. destruct gap as [|y gap]; [done|].
    cbn [length] in Hgap. replace (Z.of_nat (length (dec v)) - 1)%Z with (Z.of_nat (length ([y] ++ gap)) - 1)%Z
      by (rewrite Ed; cbn [length app]; lia).
    change ((y :: gap) ++ NUL :: rest) with ([y] ++ gap ++ NUL :: rest).
    rewrite Z.abs_neq in * by lia.
    pose proof (print_ok 11 (- v) [y] gap (NUL :: rest) ltac:(lia) Hb ltac:(lia)) as Hp.
    destruct (print_loop 11 _ _ _) as [[[next value] dst']|]; [|done]. cbn [mbind option_bind] in *.
    rewrite Hp. cbn [mbind option_bind Z.eqb Pos.eqb]. rewrite Ed. done.
  - rewrite Z.abs_eq in * by lia. rewrite <- Hgap.
    pose proof (print_ok 11 v [] gap (NUL :: rest) ltac:(lia) Hb Hgap) as Hp. cbn [app] in Hp.
    destruct (print_loop 11 _ _ _) as [[[next value] dst']|]; [|done]. cbn [mbind option_bind] in *.
    rewrite Hp. done.
Qed.

(** ** Amounts of memory: runs *)

Example memtoll_runs :
  memtoll (B "1Gb") = Some (1073741824%Z, false) ∧ memtoll (B "-2k") = Some ((-2000)%Z, false)
  ∧ memtoll (B "12x") = Some (0%Z, true) ∧ memtoll (B "-") = Some (0%Z, true)
  ∧ memtoll (B "kb") = Some (0%Z, false) ∧ memtoll (B "9000000000gb") = None.
Proof. by vm_compute. Qed.

(** ** Properties *)

(** C26. [string2ll] is strict: it accepts a text exactly when it is the decimal
    text of a 64-bit integer (no space, sign or zero too many, nothing after
    it, no overflow), and then gives that integer. *)
Theorem string2ll_strict s v :
  string2ll s = Some v ↔ s = dec v ∧ (- 2 ^ 63 ≤ v < 2 ^ 63)%Z.
Proof.
  split.
  - intros [-> Hv]%string2ll_sound. unfold LLONG_MIN, LLONG_MAX in Hv. split; [done|lia].
  - intros [-> Hv]. apply string2ll_complete. unfold LLONG_MIN, LLONG_MAX. lia.
Qed.

Lemma cstr_dec v k : cstr (dec v ++ NUL :: k) = Some (dec v).
Proof. apply cstr_app, dec_nonNUL. Qed.

(** C25. [ll2string] stores the decimal text of every 64-bit integer, with its NUL,
    inside the array and returns its length, and [string2ll] reads the same
    integer back; when text and NUL do not fit, it returns 0 and stores
    nothing.  21 bytes are always enough. *)
Theorem ll2string_roundtrip dst v :
  (- 2 ^ 63 ≤ v < 2 ^ 63)%Z →
  ∃ n dst', ll2string dst (Z.of_nat (length dst)) v = Some (n, dst')
    ∧ (if decide (length (dec v) < length dst)
       then n = sdigits10 v ∧ n = Z.of_nat (length (dec v)) ∧ length dst' = length dst
            ∧ cstr dst' = Some (dec v) ∧ string2ll (dec v) = Some v
       else n = 0%Z ∧ dst' = dst)
    ∧ (21 ≤ length dst → length (dec v) < length dst).
Proof.
  intros Hv. assert (LLONG_MIN ≤ v ≤ LLONG_MAX)%Z as Hv' by (unfold LLONG_MIN, LLONG_MAX; lia).
  assert (21 ≤ length dst → length (dec v) < length dst) as H21.
  { intros H21. assert (length (dec v) ≤ 20); [|lia].
    destruct (decide (v = 0)%Z) as [->|]; [change (length (dec 0)) with 1; lia|].
    assert (∀ x, (0 < x ≤ 2 ^ 63)%Z → length (dec x) ≤ 19) as H19.
    { intros x Hx. destruct (dec_bounds x) as [H1 _]; [lia|].
      assert (Z.of_nat (length (dec x)) - 1 < 19)%Z; [|lia]. apply (Z.pow_lt_mono_r_iff 10); lia. }
    destruct (decide (0 < v)%Z); [specialize (H19 v ltac:(lia)); lia|].
    rewrite dec_neg by lia. cbn [length]. specialize (H19 (- v)%Z ltac:(lia)). lia. }
  rewrite ll2string_spec by done. destruct (decide (length (dec v) < length dst)) as [Hl|Hl];
    eexists _, _; (split; [reflexivity|]); (split; [|exact H21]); [|done].
  pose proof (length_dec_signed v Hv') as Hd. split_and!.
  - rewrite <- Hd. unfold sdigits10, magnitude, b2z. destruct (v <? 0)%Z; lia.
  - done.
  - rewrite length_app. cbn [length]. rewrite length_drop. lia.
  - apply cstr_dec.
  - by apply string2ll_complete.
Qed.

(** ** Witness *)

Lemma ll2string_roundtrip_witness :
  ∃ n dst', ll2string (replicate 21 NUL) 21 (- 2 ^ 63) = Some (n, dst')
    ∧ cstr dst' = Some (B "-9223372036854775808") ∧ string2ll (B "-9223372036854775808") = Some (- 2 ^ 63)%Z.
Proof.
  destruct (ll2string_roundtrip (replicate 21 NUL) (- 2 ^ 63)) as (n & dst' & E & H & _); [lia|].
  exists n, dst'. split; [exact E|]. destruct (decide _) as [_|Hn]; [|exfalso; apply Hn; apply Nat.ltb_lt; reflexivity].
  destruct H as (_ & _ & _ & Hc & Hs). split; [exact Hc|exact Hs].
Defined.
