(* ===== verification/Dict.v ===== *)
(** * The hash table of Redis

    redis-5.0.10/src/dict.c: a table of chains that is moved, some buckets at
    a time, to a table of another size while it is used.  A chain is the list
    of its entries, the first one in front; a table that was never allocated
    has no buckets, and an access to a bucket that does not exist is undefined
    ([None]).  The hash function and the equality of keys are parameters (the
    [dictType] of the dictionary). *)
From S2P Require Import Prelude.

Module Dict.

Section dict.
Context {K V : Type} `{EqDecision K}.
(** [dictHashKey]; [keyCompare] is equality. *)
Variable hashFunction : K → Z.
(** The global settings. *)
Variable dict_can_resize : bool.

Definition DICT_HT_INITIAL_SIZE : Z := 4.
Definition dict_force_resize_ratio : Z := 5.
Definition LONG_MAX : Z := 2 ^ 63 - 1.

(** ** The tables *)

Abbreviation dictEntry := (K * V)%type.

Record dictht := Dictht { table : list (list dictEntry); size_ : Z; sizemask : Z; used : Z }.
Record dict := MkDict { ht0 : dictht; ht1 : dictht; rehashidx : Z; iterators : Z }.

Definition _dictReset : dictht := Dictht [] 0 0 0.
Definition dictCreate : dict := MkDict _dictReset _dictReset (-1) 0.

Definition dictIsRehashing (d : dict) : bool := negb (d.(rehashidx) =? -1)%Z.
Definition dictSize (d : dict) : Z := (d.(ht0).(used) + d.(ht1).(used))%Z.

(** [ht->table[i]] and a store to it. *)
Definition bucket (h : dictht) (i : Z) : option (list dictEntry) :=
  if (0 <=? i)%Z then h.(table) !! Z.to_nat i else None.
Definition set_bucket (h : dictht) (i : Z) (b : list dictEntry) : option dictht :=
  if decide (0 ≤ i < Z.of_nat (length h.(table)))%Z
  then Some (Dictht (<[Z.to_nat i := b]> h.(table)) h.(size_) h.(sizemask) h.(used)) else None.
Definition add_used (n : Z) (h : dictht) : dictht := Dictht h.(table) h.(size_) h.(sizemask) (h.(used) + n).

Definition index_in (h : dictht) (k : K) : Z := Z.land (hashFunction k) h.(sizemask).

(** ** Growing *)

Fixpoint next_power (fuel : nat) (i size : Z) : option Z :=
  match fuel with
  | 0 => None
  | S fuel => if (i >=? size)%Z then Some i else next_power fuel (i * 2) size
  end.
(** 64 doublings reach every [unsigned long]. *)
Definition _dictNextPower (size : Z) : option Z :=
  if (size >=? LONG_MAX)%Z then Some (LONG_MAX + 1)%Z else next_power 64 DICT_HT_INITIAL_SIZE size.

(** The result is whether [DICT_OK]. *)
Definition dictExpand (d : dict) (size : Z) : option (bool * dict) :=
  if dictIsRehashing d || (d.(ht0).(used) >? size)%Z then Some (false, d)
  else
    realsize ← _dictNextPower size;
    if (realsize =? d.(ht0).(size_))%Z then Some (false, d)
    else
      let n := Dictht (replicate (Z.to_nat realsize) []) realsize (realsize - 1) 0 in
      if (d.(ht0).(size_) =? 0)%Z   (* ht[0].table == NULL *)
      then Some (true, MkDict n d.(ht1) d.(rehashidx) d.(iterators))
      else Some (true, MkDict d.(ht0) n 0 d.(iterators)).

Definition dictResize (d : dict) : option (bool * dict) :=
  if negb dict_can_resize || dictIsRehashing d then Some (false, d)
  else
    let minimal := to_int32 d.(ht0).(used) in
    dictExpand d (if (minimal <? DICT_HT_INITIAL_SIZE)%Z then DICT_HT_INITIAL_SIZE else minimal).

Definition _dictExpandIfNeeded (d : dict) : option (bool * dict) :=
  if dictIsRehashing d then Some (true, d)
  else if (d.(ht0).(size_) =? 0)%Z then dictExpand d DICT_HT_INITIAL_SIZE
  else if (d.(ht0).(used) >=? d.(ht0).(size_))%Z
          && (dict_can_resize || (d.(ht0).(used) / d.(ht0).(size_) >? dict_force_resize_ratio)%Z)
  then dictExpand d (d.(ht0).(used) * 2)
  else Some (true, d).

(** ** Moving buckets *)

(** The inner loop over empty buckets: the index of the next bucket in use,
    or, after [empty_visits] empty ones, the index where to go on.
    [--empty_visits == 0] is asked before the count could pass 0, so the count
    is never 0 when the loop is entered. *)
Fixpoint skip_empty (empty_visits : nat) (h : dictht) (idx : Z) : option (Z + nat * Z) :=
  b ← bucket h idx;
  match b, empty_visits with
  | _ :: _, _ => Some (inr (empty_visits, idx))
  | [], 0 | [], 1 => Some (inl (idx + 1)%Z)
  | [], S empty_visits => skip_empty empty_visits h (idx + 1)
  end.

(** The loop over the entries of a bucket. *)
Fixpoint move_chain (de : list dictEntry) (d : dict) : option dict :=
  match de with
  | [] => Some d
  | e :: nextde =>
      let h := index_in d.(ht1) e.1 in
      b ← bucket d.(ht1) h;
      t1 ← set_bucket d.(ht1) h (e :: b);
      move_chain nextde (MkDict (add_used (-1) d.(ht0)) (add_used 1 t1) d.(rehashidx) d.(iterators))
  end.

(** The end of [dictRehash]. *)
Definition rehash_done (d : dict) : bool * dict :=
  if (d.(ht0).(used) =? 0)%Z
  then (false, MkDict d.(ht1) _dictReset (-1) d.(iterators))
  else (true, d).

(** [while (n-- && d->ht[0].used != 0)]; the result is whether more is left. *)
Fixpoint rehash_loop (n empty_visits : nat) (d : dict) : option (bool * dict) :=
  match n with
  | 0 => Some (rehash_done d)
  | S n =>
      if (d.(ht0).(used) =? 0)%Z then Some (rehash_done d)
      else if (d.(ht0).(size_) >? d.(rehashidx))%Z then   (* assert *)
        r ← skip_empty empty_visits d.(ht0) d.(rehashidx);
        match r with
        | inl idx => Some (true, MkDict d.(ht0) d.(ht1) idx d.(iterators))
        | inr (empty_visits, idx) =>
            de ← bucket d.(ht0) idx;
            d ← move_chain de (MkDict d.(ht0) d.(ht1) idx d.(iterators));
            t0 ← set_bucket d.(ht0) idx [];
            rehash_loop n empty_visits (MkDict t0 d.(ht1) (idx + 1) d.(iterators))
        end
      else None
  end.

Definition dictRehash (d : dict) (n : nat) : option (bool * dict) :=
  if negb (dictIsRehashing d) then Some (false, d) else rehash_loop n (n * 10) d.

(** [while (dictRehash(d,100))], left when the clock says that more than [ms]
    milliseconds have passed ([late], for every turn of the loop); the result
    is the number of steps that were allowed. *)
Fixpoint rehash_ms (fuel : nat) (late : nat → bool) (rounds : nat) (rehashes : Z) (d : dict) : option (Z * dict) :=
  match fuel with
  | 0 => None
  | S fuel =>
      '(more, d) ← dictRehash d 100;
      if negb more then Some (rehashes, d)
      else if late rounds then Some ((rehashes + 100)%Z, d)
      else rehash_ms fuel late (S rounds) (rehashes + 100) d
  end.
(** Every turn but the last passes a bucket of [ht[0]]. *)
Definition dictRehashMilliseconds (late : nat → bool) (d : dict) : option (Z * dict) :=
  rehash_ms (S (S (length d.(ht0).(table)))) late 0 0 d.

Definition _dictRehashStep (d : dict) : option dict :=
  if (d.(iterators) =? 0)%Z then snd <$> dictRehash d 1 else Some d.

Definition rehash_if (d : dict) : option dict :=
  if dictIsRehashing d then _dictRehashStep d else Some d.

(** ** Searching *)

(** The entry of [k] in a chain. *)
Definition find_chain (k : K) (b : list dictEntry) : option V :=
  snd <$> List.find (λ e, bool_decide (k = e.1)) b.

(** The loop over the tables: the value of [k]. *)
Definition search (d : dict) (k : K) : option (option V) :=
  b ← bucket d.(ht0) (index_in d.(ht0) k);
  match find_chain k b with
  | Some v => Some (Some v)
  | None =>
      if negb (dictIsRehashing d) then Some None
      else b ← bucket d.(ht1) (index_in d.(ht1) k); Some (find_chain k b)
  end.

Definition dictFind (d : dict) (k : K) : option (option V * dict) :=
  if (dictSize d =? 0)%Z then Some (None, d)
  else
    d ← rehash_if d;
    r ← search d k;
    Some (r, d).

Definition dictFetchValue (d : dict) (k : K) : option (option V * dict) := dictFind d k.

(** ** Adding *)

(** -1 is [None]: the key exists, or the table could not be expanded. *)
Definition _dictKeyIndex (d : dict) (k : K) : option (option Z * dict) :=
  '(ok, d) ← _dictExpandIfNeeded d;
  if negb ok then Some (None, d)
  else
    r ← search d k;
    match r with
    | Some _ => Some (None, d)
    | None => Some (Some (index_in (if dictIsRehashing d then d.(ht1) else d.(ht0)) k), d)
    end.

(** [dictAddRaw] followed by [dictSetVal]; the result is whether the entry is
    new. *)
Definition dictAdd (d : dict) (k : K) (v : V) : option (bool * dict) :=
  d ← rehash_if d;
  '(idx, d) ← _dictKeyIndex d k;
  match idx with
  | None => Some (false, d)
  | Some i =>
      if dictIsRehashing d then
        b ← bucket d.(ht1) i;
        t ← set_bucket d.(ht1) i ((k, v) :: b);
        Some (true, MkDict d.(ht0) (add_used 1 t) d.(rehashidx) d.(iterators))
      else
        b ← bucket d.(ht0) i;
        t ← set_bucket d.(ht0) i ((k, v) :: b);
        Some (true, MkDict (add_used 1 t) d.(ht1) d.(rehashidx) d.(iterators))
  end.

(** A new value in the entry of [k], which [_dictKeyIndex] has found
    ([*existing]). *)
Fixpoint set_chain (k : K) (v : V) (b : list dictEntry) : list dictEntry :=
  match b with
  | [] => []
  | e :: b => if bool_decide (k = e.1) then (e.1, v) :: b else e :: set_chain k v b
  end.
Definition set_value (d : dict) (k : K) (v : V) : option dict :=
  b ← bucket d.(ht0) (index_in d.(ht0) k);
  match find_chain k b with
  | Some _ =>
      t ← set_bucket d.(ht0) (index_in d.(ht0) k) (set_chain k v b);
      Some (MkDict t d.(ht1) d.(rehashidx) d.(iterators))
  | None =>
      b ← bucket d.(ht1) (index_in d.(ht1) k);
      _ ← find_chain k b;   (* existing == NULL *)
      t ← set_bucket d.(ht1) (index_in d.(ht1) k) (set_chain k v b);
      Some (MkDict d.(ht0) t d.(rehashidx) d.(iterators))
  end.

(** The result is 1 for a new key. *)
Definition dictReplace (d : dict) (k : K) (v : V) : option (bool * dict) :=
  '(new, d) ← dictAdd d k v;
  if (new : bool) then Some (true, d)
  else d ← set_value d k v; Some (false, d).

(** ** Deleting *)

Fixpoint unlink_chain (k : K) (b : list dictEntry) : list dictEntry :=
  match b with
  | [] => []
  | e :: b => if bool_decide (k = e.1) then b else e :: unlink_chain k b
  end.

Definition dictGenericDelete (d : dict) (k : K) : option (option V * dict) :=
  if (d.(ht0).(used) =? 0)%Z && (d.(ht1).(used) =? 0)%Z then Some (None, d)
  else
    d ← rehash_if d;
    b ← bucket d.(ht0) (index_in d.(ht0) k);
    match find_chain k b with
    | Some v =>
        t ← set_bucket d.(ht0) (index_in d.(ht0) k) (unlink_chain k b);
        Some (Some v, MkDict (add_used (-1) t) d.(ht1) d.(rehashidx) d.(iterators))
    | None =>
        if negb (dictIsRehashing d) then Some (None, d)
        else
          b ← bucket d.(ht1) (index_in d.(ht1) k);
          match find_chain k b with
          | Some v =>
              t ← set_bucket d.(ht1) (index_in d.(ht1) k) (unlink_chain k b);
              Some (Some v, MkDict d.(ht0) (add_used (-1) t) d.(rehashidx) d.(iterators))
          | None => Some (None, d)
          end
    end.

(** The result is whether [DICT_OK]; [dictUnlink] returns the entry. *)
Definition dictDelete (d : dict) (k : K) : option (bool * dict) :=
  '(r, d) ← dictGenericDelete d k; Some (bool_decide (is_Some r), d).
Definition dictUnlink (d : dict) (k : K) : option (option V * dict) := dictGenericDelete d k.

(** ** Iterating *)

(** The entry the iterator stands on and, saved, the rest of its chain.  The
    fingerprint an iterator that is not safe takes is not modelled. *)
Record dictIterator := Iter {
  it_table : bool  (* in ht[1] *);
  it_index : Z;
  it_safe : bool;
  it_entry : option dictEntry;
  it_next : list dictEntry
}.

Definition dictGetIterator : dictIterator := Iter false (-1) false None [].
Definition dictGetSafeIterator : dictIterator := Iter false (-1) true None [].

Definition iterators_add (n : Z) (d : dict) : dict := MkDict d.(ht0) d.(ht1) d.(rehashidx) (d.(iterators) + n).
Definition started (it : dictIterator) : bool := negb ((it.(it_index) =? -1)%Z && negb it.(it_table)).

(** [iter->entry] on the chain [b], or on none. *)
Definition on_chain (it : dictIterator) (b : list dictEntry) : dictIterator :=
  Iter it.(it_table) it.(it_index) it.(it_safe) (head b) (tail b).

(** The next bucket: [None] is the end of the tables. *)
Definition next_bucket (it : dictIterator) (d : dict) : option (option dictIterator) :=
  let i := (it.(it_index) + 1)%Z in
  let h := if it.(it_table) then d.(ht1) else d.(ht0) in
  if (i >=? h.(size_))%Z then
    if dictIsRehashing d && negb it.(it_table) then
      b ← bucket d.(ht1) 0; Some (Some (on_chain (Iter true 0 it.(it_safe) None []) b))
    else Some None
  else b ← bucket h i; Some (Some (on_chain (Iter it.(it_table) i it.(it_safe) None []) b)).

(** The entry, the iterator and the dictionary, whose [iterators] a safe
    iterator counts when it starts. *)
Fixpoint dictNext (fuel : nat) (it : dictIterator) (d : dict) : option (option dictEntry * dictIterator * dict) :=
  match fuel with
  | 0 => None
  | S fuel =>
      '(it', d) ← (match it.(it_entry) with
                   | None =>
                       let d := if negb (started it) && it.(it_safe) then iterators_add 1 d else d in
                       o ← next_bucket it d; Some (o, d)
                   | Some _ => Some (Some (on_chain it it.(it_next)), d)
                   end);
      match it' with
      | None => Some (None, Iter it.(it_table) (it.(it_index) + 1) it.(it_safe) None [], d)
      | Some it' =>
          match it'.(it_entry) with
          | Some e => Some (Some e, it', d)
          | None => dictNext fuel it' d
          end
      end
  end.

Definition dictReleaseIterator (it : dictIterator) (d : dict) : dict :=
  if started it && it.(it_safe) then iterators_add (-1) d else d.

(** ** Scanning *)

(** [unsigned long] has 64 bits. *)
Definition to_ulong (z : Z) : Z := (z mod 2 ^ 64)%Z.
Definition ulong_not (z : Z) : Z := Z.lxor z (2 ^ 64 - 1).

(** One turn of the loop of [rev], which exchanges blocks of [s] bits. *)
Definition swap_blocks (s mask v : Z) : Z :=
  Z.lor (Z.land (Z.shiftr v s) mask) (Z.land (to_ulong (Z.shiftl v s)) (ulong_not mask)).
(** [while ((s >>= 1) > 0)]; 64 is halved seven times. *)
Fixpoint rev_loop (fuel : nat) (s mask v : Z) : Z :=
  match fuel with
  | 0 => v
  | S fuel =>
      let s := Z.shiftr s 1 in
      if (s >? 0)%Z then
        let mask := Z.lxor mask (to_ulong (Z.shiftl mask s)) in
        rev_loop fuel s mask (swap_blocks s mask v)
      else v
  end.
(** [rev]. *)
Definition rev_bits (v : Z) : Z := rev_loop 7 64 (2 ^ 64 - 1) v.

(** The increment of the reversed cursor. *)
Definition next_cursor (m v : Z) : Z :=
  let v := Z.lor v (ulong_not m) in
  let v := rev_bits v in
  let v := to_ulong (v + 1) in
  rev_bits v.

(** The [do] loop over the larger table: what is emitted, and the cursor. *)
Fixpoint scan_larger (fuel : nat) (t1 : dictht) (m0 m1 v : Z) : option (list dictEntry * Z) :=
  match fuel with
  | 0 => None
  | S fuel =>
      de ← bucket t1 (Z.land v m1);
      let v := next_cursor m1 v in
      if (Z.land v (Z.lxor m0 m1) =? 0)%Z then Some (de, v)
      else '(l, v) ← scan_larger fuel t1 m0 m1 v; Some (de ++ l, v)
  end.

(** The entries [fn] is called with, in order, and the new cursor. *)
Definition dictScan (d : dict) (v : Z) : option (list dictEntry * Z) :=
  if (dictSize d =? 0)%Z then Some ([], 0%Z)
  else if negb (dictIsRehashing d) then
    let t0 := d.(ht0) in
    let m0 := t0.(sizemask) in
    de ← bucket t0 (Z.land v m0);
    Some (de, next_cursor m0 v)
  else
    let '(t0, t1) := if (d.(ht0).(size_) >? d.(ht1).(size_))%Z then (d.(ht1), d.(ht0)) else (d.(ht0), d.(ht1)) in
    let m0 := t0.(sizemask) in
    let m1 := t1.(sizemask) in
    de ← bucket t0 (Z.land v m0);
    '(l, v) ← scan_larger (S (length t1.(table))) t1 m0 m1 v;
    Some (de ++ l, v).

(** [_dictClear] frees every entry; the tables are as new. *)
Definition dictEmpty (d : dict) : dict := MkDict _dictReset _dictReset (-1) 0.
End dict.
Arguments dictht : clear implicits.
Arguments dict : clear implicits.
Arguments dictIterator : clear implicits.
Arguments dictGetIterator {K V}.
Arguments dictGetSafeIterator {K V}.
End Dict.
