(* ===== verification/DictProofs.v ===== *)
(** * The hash table of Redis is a finite map

    The two tables together hold the pairs of a map, every one in the chain
    its hash names; adding, replacing, deleting and searching are the
    operations on the map, and moving the buckets changes nothing of it and
    comes to an end. *)
From S2P Require Import Prelude Dict.
Import Dict.

(** The pairs of a table around one bucket. *)
Lemma concat_split {A} (t : list (list A)) i b :
  t !! i = Some b → concat t ≡ₚ b ++ concat (delete i t).
Proof.
  intros Hi. rewrite <- (take_drop_middle t i b) at 1 by done. rewrite delete_take_drop, !concat_app. cbn [concat].
  rewrite !app_assoc, (Permutation_app_comm (concat (take i t)) b). by rewrite <- !app_assoc.
Qed.

Lemma concat_insert {A} (t : list (list A)) i b b' :
  t !! i = Some b → concat (<[i := b']> t) ≡ₚ b' ++ concat (delete i t).
Proof.
  intros Hi. pose proof (lookup_lt_Some _ _ _ Hi).
  rewrite (concat_split _ i b') by (by apply list_lookup_insert_eq).
  by rewrite !delete_take_drop, take_insert_ge, drop_insert_lt by lia.
Qed.

Section proofs.
Context {K V : Type} `{Countable K}.
Variable hash : K → Z.
Variable can_resize : bool.

Implicit Types (h : dictht K V) (d : dict K V) (b : list (K * V)).

(** ** Tables *)

Definition entries_of h : list (K * V) := concat h.(table).

Record ht_ok h : Prop := HtOk {
  h_power : ∃ n, (0 ≤ n ≤ 63)%Z ∧ h.(size_) = (2 ^ n)%Z;
  h_length : Z.of_nat (length h.(table)) = h.(size_);
  h_mask : h.(sizemask) = (h.(size_) - 1)%Z;
  h_used : h.(used) = Z.of_nat (length (entries_of h));
  h_index : ∀ i b e, h.(table) !! i = Some b → e ∈ b → index_in hash h e.1 = Z.of_nat i
}.

Lemma ht_size_pos h : ht_ok h → (0 < h.(size_))%Z.
Proof. intros [(n & Hn & ->) _ _ _ _]. apply Z.pow_pos_nonneg; lia. Qed.

Lemma index_range h k : ht_ok h → (0 ≤ index_in hash h k < h.(size_))%Z.
Proof.
  intros [(n & Hn & Hs) _ Hm _ _]. unfold index_in. rewrite Hm, Hs.
  replace (2 ^ n - 1)%Z with (Z.ones n) by (rewrite Z.ones_equiv; lia).
  rewrite Z.land_ones by lia. apply Z.mod_pos_bound. apply Z.pow_pos_nonneg; lia.
Qed.

Lemma bucket_at h i : ht_ok h → (0 ≤ i < h.(size_))%Z → ∃ b, bucket h i = Some b ∧ h.(table) !! Z.to_nat i = Some b.
Proof.
  intros Hh Hi. destruct (lookup_lt_is_Some_2 h.(table) (Z.to_nat i)) as [b Hb];
    [pose proof (h_length _ Hh); lia|].
  exists b. split; [|done]. unfold bucket. by rewrite (proj2 (Z.leb_le 0 i)) by lia.
Qed.

Lemma set_bucket_at h i b b' :
  ht_ok h → (0 ≤ i < h.(size_))%Z → h.(table) !! Z.to_nat i = Some b →
  set_bucket h i b' = Some (Dictht (<[Z.to_nat i := b']> h.(table)) h.(size_) h.(sizemask) h.(used)).
Proof.
  intros Hh Hi Hb. unfold set_bucket. rewrite decide_True; [done|]. pose proof (h_length _ Hh). lia.
Qed.

(** A bucket with other entries of the same index. *)
Lemma ht_ok_set h i b b' n :
  ht_ok h → h.(table) !! i = Some b → n = (Z.of_nat (length b') - Z.of_nat (length b))%Z →
  (∀ e, e ∈ b' → index_in hash h e.1 = Z.of_nat i) →
  ht_ok (add_used n (Dictht (<[i := b']> h.(table)) h.(size_) h.(sizemask) h.(used))).
Proof.
  intros [Hp Hl Hm Hu Hx] Hb -> Hb'. split; cbn; try done.
  - by rewrite length_insert.
  - rewrite Hu. unfold entries_of. cbn.
    rewrite (Permutation_length (concat_insert _ _ _ b' Hb)), (Permutation_length (concat_split _ _ _ Hb)).
    rewrite !length_app. lia.
  - intros j c e Hc He. unfold index_in in *. cbn. destruct (decide (i = j)) as [<-|Hne].
    + rewrite list_lookup_insert_eq in Hc by (by eapply lookup_lt_Some). simplify_eq. by apply Hb'.
    + rewrite list_lookup_insert_ne in Hc by done. by eapply Hx.
Qed.

(** ** Chains *)

Lemma find_chain_cons k e b :
  find_chain k (e :: b) = if decide (k = e.1) then Some e.2 else find_chain k b.
Proof. unfold find_chain. cbn. case_bool_decide; case_decide; done. Qed.

Lemma find_chain_unlink k v b : find_chain k b = Some v → b ≡ₚ (k, v) :: unlink_chain k b.
Proof.
  induction b as [|[k' v'] b IH]; [done|]. rewrite find_chain_cons. cbn.
  case_decide; case_bool_decide; intros Hf; simplify_eq; [done|]. rewrite (IH Hf) at 1. apply Permutation_swap.
Qed.

Lemma find_chain_set k v v' b : find_chain k b = Some v → set_chain k v' b ≡ₚ (k, v') :: unlink_chain k b.
Proof.
  induction b as [|[k' v''] b IH]; [done|]. rewrite find_chain_cons. cbn.
  case_decide; case_bool_decide; intros Hf; simplify_eq; [done|]. rewrite (IH Hf). apply Permutation_swap.
Qed.

Lemma find_chain_None k b v : find_chain k b = None → (k, v) ∉ b.
Proof.
  induction b as [|[k' v'] b IH]; [intros _; by apply not_elem_of_nil|]. rewrite find_chain_cons. cbn.
  case_decide; [done|]. intros Hf. rewrite elem_of_cons. naive_solver.
Qed.

Lemma find_chain_Some k b v : find_chain k b = Some v → (k, v) ∈ b.
Proof. intros Hf. rewrite (find_chain_unlink _ _ _ Hf). left. Qed.

(** ** Dictionaries *)

Definition contents d : list (K * V) := entries_of d.(ht0) ++ entries_of d.(ht1).

(** The tables of a dictionary that is not being moved, and of one that is. *)
Definition wf d : Prop :=
  if dictIsRehashing d
  then ht_ok d.(ht0) ∧ ht_ok d.(ht1) ∧ (0 ≤ d.(rehashidx))%Z ∧
       ∀ i b, d.(ht0).(table) !! i = Some b → (Z.of_nat i < d.(rehashidx))%Z → b = []
  else d.(ht1) = _dictReset ∧ (d.(ht0) = _dictReset ∨ ht_ok d.(ht0)).

(** The dictionary holds the pairs of a list, and of a map. *)
Definition keeps d (l : list (K * V)) : Prop := wf d ∧ contents d ≡ₚ l.
Definition holds d (m : gmap K V) : Prop := keeps d (map_to_list m).

Lemma holds_lookup d m k v : holds d m → (k, v) ∈ contents d ↔ m !! k = Some v.
Proof. intros [_ Hp]. rewrite Hp. apply elem_of_map_to_list. Qed.

Lemma elem_of_entries h k v :
  ht_ok h → (k, v) ∈ entries_of h ↔ ∃ b, bucket h (index_in hash h k) = Some b ∧ (k, v) ∈ b.
Proof.
  intros Hh. destruct (bucket_at h (index_in hash h k)) as (b & Hb & Hl); [done|by apply index_range|].
  pose proof (index_range h k Hh). unfold entries_of. rewrite Hb. split.
  - intros (c & Hc & Hin)%list_elem_of_In%in_concat. exists b. split; [done|].
    apply list_elem_of_In, list_elem_of_lookup in Hc as [i Hi]. apply list_elem_of_In in Hin.
    pose proof (h_index _ Hh _ _ _ Hi Hin) as Hx. cbn in Hx. rewrite Hx, Nat2Z.id in Hl. by simplify_eq.
  - intros (c & Hc & Hin). injection Hc as <-. apply list_elem_of_In, in_concat. exists b.
    split; apply list_elem_of_In; [by eapply list_elem_of_lookup_2|done].
Qed.

Lemma find_in_table h k :
  ht_ok h → NoDup (entries_of h).*1 →
  ∃ b, bucket h (index_in hash h k) = Some b ∧ h.(table) !! Z.to_nat (index_in hash h k) = Some b ∧
       ∀ v, find_chain k b = Some v ↔ (k, v) ∈ entries_of h.
Proof.
  intros Hh Hd. destruct (bucket_at h (index_in hash h k)) as (b & Hb & Hl); [done|by apply index_range|].
  exists b. do 2 (split; [done|]). intros v. split.
  - intros Hf. apply elem_of_entries; [done|]. exists b. split; [done|]. by apply find_chain_Some.
  - intros Hin. destruct (find_chain k b) as [w|] eqn:Hf.
    + apply (elem_of_list_to_map (M := gmap K) _ _ _ Hd) in Hin. rewrite <- Hin. symmetry.
      apply (elem_of_list_to_map (M := gmap K) _ _ _ Hd), elem_of_entries; [done|]. exists b. split; [done|]. by apply find_chain_Some.
    + apply elem_of_entries in Hin as (? & ? & Hin); [|done]. simplify_eq. by apply (find_chain_None _ _ v) in Hf.
Qed.

(** ** Moving *)

Lemma used_bucket h i :
  ht_ok h → (∀ j b, h.(table) !! j = Some b → (Z.of_nat j < i)%Z → b = []) → h.(used) ≠ 0%Z →
  ∃ j e b, (i ≤ Z.of_nat j)%Z ∧ h.(table) !! j = Some (e :: b).
Proof.
  intros Hh Hi Hu. rewrite (h_used _ Hh) in Hu. unfold entries_of in Hu.
  destruct (concat h.(table)) as [|e l] eqn:Hc; [done|].
  assert (In e (concat h.(table))) as (b & Hb & He)%in_concat by (rewrite Hc; by left).
  apply list_elem_of_In, list_elem_of_lookup in Hb as [j Hj]. destruct b as [|e' b]; [done|].
  exists j, e', b. split; [|done]. destruct (Z.le_gt_cases i (Z.of_nat j)); [done|]. by specialize (Hi _ _ Hj ltac:(lia)).
Qed.

(** Up to a bucket in use that lies ahead, all buckets passed are empty. *)
Lemma skip_empty_spec ev : ∀ h i j e b,
  (0 ≤ i)%Z → (i ≤ Z.of_nat j)%Z → h.(table) !! j = Some (e :: b) →
  ∃ r, skip_empty ev h i = Some r ∧
    let i' := match r with inl i' | inr (_, i') => i' end in
    (i ≤ i' ≤ Z.of_nat j)%Z ∧
    (∀ k c, h.(table) !! k = Some c → (i ≤ Z.of_nat k < i')%Z → c = []) ∧
    match r with inl _ => (i < i')%Z | inr (_, _) => ∃ c, bucket h i' = Some c ∧ c ≠ [] end.
Proof.
  induction ev as [|ev IH]; intros h i j e b Hi Hij Hj;
    assert (∃ c, bucket h i = Some c ∧ h.(table) !! Z.to_nat i = Some c) as (c & Hc & Hl)
      by (unfold bucket; rewrite (proj2 (Z.leb_le 0 i)) by lia;
          destruct (lookup_lt_is_Some_2 h.(table) (Z.to_nat i)) as [c Hc];
          [apply lookup_lt_Some in Hj; lia|eauto]);
    destruct c as [|e' c];
    assert (i = Z.of_nat j → h.(table) !! Z.to_nat i = Some (e :: b)) as Hneq by (intros ->; by rewrite Nat2Z.id).
  all: cbn [skip_empty]; rewrite Hc; cbn [mbind option_bind].
  all: assert (∀ k c, h.(table) !! k = Some c → (i ≤ Z.of_nat k < i + 1)%Z → h.(table) !! Z.to_nat i = Some c)
    as Hone by (intros k c' Hk Hr; replace i with (Z.of_nat k) by lia; by rewrite Nat2Z.id).
  1,2,4: eexists; split; [done|]; cbn; (split; [|split]);
    [first [lia|destruct (decide (i = Z.of_nat j)) as [E|]; [specialize (Hneq E); congruence|lia]]
    |intros k c' Hk Hr; try lia; specialize (Hone _ _ Hk ltac:(lia)); congruence|try lia; eauto].
  assert (i ≠ Z.of_nat j) by (intros E; specialize (Hneq E); congruence).
  destruct ev as [|ev].
  - eexists. split; [done|]. cbn. split; [lia|]. split; [|lia].
    intros k c' Hk Hr. specialize (Hone _ _ Hk Hr). congruence.
  - destruct (IH h (i + 1)%Z j e b) as (r & Hr & Hr1 & Hr2 & Hr3); [lia|lia|done|].
    exists r. split; [exact Hr|]. destruct r as [i'|[ev' i']]; cbn in *; (split; [lia|]; split; [|try lia; done]);
      intros k c' Hk Hrk; (destruct (decide (Z.of_nat k = i)); [specialize (Hone _ _ Hk ltac:(lia)); congruence|eapply Hr2; [done|lia]]).
Qed.

(** An entry put in front of its chain. *)
Lemma push_bucket h k v :
  ht_ok h →
  ∃ b, bucket h (index_in hash h k) = Some b ∧
    ∃ t, set_bucket h (index_in hash h k) ((k, v) :: b) = Some t ∧
      ht_ok (add_used 1 t) ∧ entries_of (add_used 1 t) ≡ₚ (k, v) :: entries_of h.
Proof.
  intros Hh. pose proof (index_range h k Hh) as Hr.
  destruct (bucket_at h _ Hh Hr) as (b & Hb & Hl). exists b. split; [done|].
  eexists. split; [by eapply set_bucket_at|]. split.
  - eapply ht_ok_set; [done|done|cbn [length]; lia|].
    intros e [->|He]%elem_of_cons; cbn [fst]; [lia|]. by eapply h_index.
  - unfold entries_of. cbn. rewrite (concat_insert _ _ _ _ Hl), (concat_split _ _ _ Hl). done.
Qed.

Lemma move_chain_spec de : ∀ d,
  ht_ok d.(ht1) →
  ∃ t, move_chain hash de d =
         Some (MkDict (add_used (- Z.of_nat (length de)) d.(ht0)) t d.(rehashidx) d.(iterators)) ∧
       ht_ok t ∧ entries_of t ≡ₚ de ++ entries_of d.(ht1).
Proof.
  induction de as [|[k v] de IH]; intros [t0 t1 x n] Ht; cbn [ht0 ht1 rehashidx iterators] in *.
  - exists t1. split; [|done]. cbn. destruct t0. unfold add_used. cbn. by rewrite Z.add_0_r.
  - destruct (push_bucket t1 k v Ht) as (b & Hb & t & Hs & Hok & He).
    cbn [move_chain fst ht0 ht1 rehashidx iterators]. rewrite Hb. cbn [mbind option_bind]. rewrite Hs. cbn [mbind option_bind].
    destruct (IH (MkDict (add_used (-1) t0) (add_used 1 t) x n) Hok) as (t' & Hm & Hok' & He').
    exists t'. rewrite Hm. cbn [ht0 ht1 rehashidx iterators] in *. split; [|split; [done|]].
    + do 2 f_equal. unfold add_used. cbn [table size_ sizemask used length]. f_equal. lia.
    + rewrite He', He. cbn. by rewrite Permutation_middle.
Qed.

(** A dictionary that is being moved, with what it holds. *)
Definition moving d (l : list (K * V)) : Prop :=
  ht_ok d.(ht0) ∧ ht_ok d.(ht1) ∧ (0 ≤ d.(rehashidx))%Z ∧
  (∀ i b, d.(ht0).(table) !! i = Some b → (Z.of_nat i < d.(rehashidx))%Z → b = []) ∧
  contents d ≡ₚ l.

(** One bucket moved. *)
Lemma move_bucket d idx c l :
  moving d l → (d.(rehashidx) ≤ idx < d.(ht0).(size_))%Z →
  (∀ k b, d.(ht0).(table) !! k = Some b → (d.(rehashidx) ≤ Z.of_nat k < idx)%Z → b = []) →
  bucket d.(ht0) idx = Some c →
  ∃ t1 t0, move_chain hash c (MkDict d.(ht0) d.(ht1) idx d.(iterators)) =
             Some (MkDict (add_used (- Z.of_nat (length c)) d.(ht0)) t1 idx d.(iterators)) ∧
    set_bucket (add_used (- Z.of_nat (length c)) d.(ht0)) idx [] = Some t0 ∧
    size_ t0 = size_ d.(ht0) ∧
    moving (MkDict t0 t1 (idx + 1) d.(iterators)) l.
Proof.
  intros (H0 & H1 & Hx & Hz & Hp) Hi Hsk Hc.
  destruct (move_chain_spec c (MkDict d.(ht0) d.(ht1) idx d.(iterators)) H1) as (t1 & Hm & Ht1 & He).
  destruct (bucket_at _ idx H0 ltac:(lia)) as (c' & Hc' & Hl). rewrite Hc in Hc'. injection Hc' as <-.
  exists t1. eexists. split; [exact Hm|].
  split; [unfold set_bucket; rewrite decide_True; [done|]; cbn; pose proof (h_length _ H0); lia|].
  split; [done|]. refine (conj _ (conj _ (conj _ (conj _ _)))); cbn [ht0 ht1 rehashidx iterators]; [|done|lia| |].
  - refine (ht_ok_set d.(ht0) (Z.to_nat idx) c [] _ H0 Hl _ _); [cbn; lia|].
    intros e He'. by apply not_elem_of_nil in He'.
  - intros j b Hj Hlt. cbn in Hj. destruct (decide (Z.to_nat idx = j)) as [<-|Hne].
    + rewrite list_lookup_insert_eq in Hj by (by eapply lookup_lt_Some). congruence.
    + rewrite list_lookup_insert_ne in Hj by done.
      destruct (Z.lt_ge_cases (Z.of_nat j) d.(rehashidx)); [by eapply Hz|eapply Hsk; [done|lia]].
  - rewrite <- Hp. unfold contents. cbn. rewrite He. unfold entries_of. cbn.
    rewrite (concat_insert _ _ _ _ Hl), (concat_split _ _ _ Hl). cbn.
    rewrite <- app_assoc. apply Permutation_app_swap_app.
Qed.

Lemma moving_keeps d l : moving d l → keeps d l.
Proof.
  intros (H0 & H1 & Hx & Hz & Hp). split; [|done]. unfold wf, dictIsRehashing.
  destruct (Z.eqb_spec d.(rehashidx) (-1)); [lia|]. done.
Qed.

Lemma keeps_moving d l : keeps d l → dictIsRehashing d = true → moving d l.
Proof. intros [Hw Hp] Hr. unfold wf in Hw. rewrite Hr in Hw. unfold moving. naive_solver. Qed.

Lemma moving_rehashing d l : moving d l → dictIsRehashing d = true.
Proof. intros (_ & _ & Hx & _). unfold dictIsRehashing. destruct (Z.eqb_spec d.(rehashidx) (-1)); [lia|done]. Qed.

(** The end of the move, or not yet. *)
Lemma rehash_done_spec d l :
  moving d l →
  let '(more, d') := rehash_done d in
  keeps d' l ∧ ht_ok d'.(ht0) ∧ d'.(iterators) = d.(iterators) ∧ dictIsRehashing d' = more ∧ (more = true → d' = d).
Proof.
  intros Hmv. pose proof (moving_rehashing _ _ Hmv) as Hre. pose proof (moving_keeps _ _ Hmv) as Hk.
  destruct Hmv as (H0 & H1 & Hx & Hz & Hp). unfold rehash_done.
  destruct (Z.eqb_spec d.(ht0).(used) 0) as [Hu|Hu]; [|by repeat (split; [done|])].
  split; [|by split]. split; [by split; [|right]|]. rewrite (h_used _ H0) in Hu. rewrite <- Hp. unfold contents. cbn [ht0 ht1].
  destruct (entries_of d.(ht0)); [|done]. cbn. by rewrite app_nil_r.
Qed.

(** [n] steps lose no entry; unless the move ends, the index has grown. *)
Lemma rehash_loop_spec n : ∀ ev d l,
  moving d l →
  ∃ more d', rehash_loop hash n ev d = Some (more, d') ∧
    keeps d' l ∧ ht_ok d'.(ht0) ∧ d'.(iterators) = d.(iterators) ∧ dictIsRehashing d' = more ∧
    (more = true → d'.(ht0).(size_) = d.(ht0).(size_) ∧ (d.(rehashidx) ≤ d'.(rehashidx))%Z ∧
                   (n ≠ 0 → (d.(rehashidx) < d'.(rehashidx))%Z) ∧ d'.(ht0).(used) ≠ 0%Z).
Proof.
  induction n as [|n IH]; intros ev d l Hmv; cbn [rehash_loop].
  - pose proof (rehash_done_spec d l Hmv) as Hd. destruct (rehash_done d) as [more d'] eqn:E.
    exists more, d'. split; [done|]. destruct Hd as (? & ? & ? & ? & Hm). do 4 (split; [done|]).
    intros ->. rewrite (Hm eq_refl) in *. split; [done|]. split; [done|]. split; [done|].
    unfold rehash_done in E. by destruct (Z.eqb_spec d.(ht0).(used) 0).
  - destruct (Z.eqb_spec d.(ht0).(used) 0) as [Hu|Hu].
    + pose proof (rehash_done_spec d l Hmv) as Hd. unfold rehash_done in *. rewrite (proj2 (Z.eqb_eq _ _) Hu) in *.
      destruct Hd as (? & ? & ? & ? & _). do 2 eexists. by do 5 (split; [done|]).
    + pose proof Hmv as (H0 & H1 & Hx & Hz & Hp).
      destruct (used_bucket _ _ H0 Hz Hu) as (j & e & b & Hij & Hj).
      pose proof (lookup_lt_Some _ _ _ Hj) as Hlt. pose proof (h_length _ H0) as Hlen.
      rewrite (proj2 (Z.gtb_lt _ _)) by lia.
      destruct (skip_empty_spec ev d.(ht0) d.(rehashidx) j e b Hx Hij Hj) as (r & -> & Hr & Hsk & Hcase).
      destruct r as [idx|[ev' idx]]; cbn [mbind option_bind] in *.
      * do 2 eexists. split; [done|]. assert (moving (MkDict d.(ht0) d.(ht1) idx d.(iterators)) l) as Hm'.
        { refine (conj H0 (conj H1 (conj _ (conj _ Hp)))); cbn; [lia|]. intros k c Hk Hlk.
          destruct (Z.lt_ge_cases (Z.of_nat k) d.(rehashidx)); [by eapply Hz|eapply Hsk; [done|lia]]. }
        split; [by apply moving_keeps|]. split; [done|]. split; [done|].
        split; [by eapply moving_rehashing|]. cbn. intros _. split; [done|]. split; [lia|]. split; [lia|done].
      * destruct Hcase as (c & Hc & _). rewrite Hc. cbn [mbind option_bind].
        destruct (move_bucket d idx c l Hmv ltac:(lia) Hsk Hc) as (t1 & t0 & Hmc & Hst & Hsz & Hm').
        rewrite Hmc. cbn [mbind option_bind ht0 ht1 rehashidx iterators]. rewrite Hst. cbn [mbind option_bind].
        destruct (IH ev' _ l Hm') as (more & d' & Hlp & Hk & Ho & Hit & Hre & Hgrow).
        exists more, d'. split; [done|]. do 4 (split; [done|]). intros Hmo.
        destruct (Hgrow Hmo) as (Hs & Hg & _ & Hu'). cbn in *. rewrite Hs, Hsz. split; [done|]. split; [lia|]. split; [lia|done].
Qed.

Lemma dictRehash_spec d l n :
  keeps d l →
  ∃ more d', dictRehash hash d n = Some (more, d') ∧ keeps d' l ∧
    (ht_ok d.(ht0) → ht_ok d'.(ht0)) ∧ d'.(iterators) = d.(iterators) ∧ dictIsRehashing d' = more ∧
    (more = true → d'.(ht0).(size_) = d.(ht0).(size_) ∧ (n ≠ 0 → (d.(rehashidx) < d'.(rehashidx))%Z) ∧
                   (d'.(rehashidx) < d.(ht0).(size_))%Z).
Proof.
  intros Hk. unfold dictRehash. destruct (dictIsRehashing d) eqn:Hr; cbn [negb].
  - destruct (rehash_loop_spec n (n * 10) d l (keeps_moving _ _ Hk Hr)) as (more & d' & Hl & Hk' & Ho & Hi & Hre & Hg).
    exists more, d'. do 5 (split; [done|]). intros Hm. destruct (Hg Hm) as (Hs & _ & Hgr & Hu). split; [done|]. split; [done|].
    rewrite Hm in Hre. destruct (keeps_moving _ _ Hk' Hre) as (H0 & _ & _ & Hz & _).
    destruct (used_bucket _ _ H0 Hz Hu) as (j & ? & ? & Hj & Hl').
    apply lookup_lt_Some in Hl'. pose proof (h_length _ H0). lia.
  - do 2 eexists. split; [done|]. by do 4 (split; [done|]).
Qed.

Lemma rehash_if_spec d l :
  keeps d l →
  ∃ d', rehash_if hash d = Some d' ∧ keeps d' l ∧ (ht_ok d.(ht0) → ht_ok d'.(ht0)) ∧ d'.(iterators) = d.(iterators).
Proof.
  intros Hk. unfold rehash_if, _dictRehashStep. destruct (dictIsRehashing d) eqn:Hr; [|by exists d].
  destruct (Z.eqb d.(iterators) 0); [|by exists d].
  destruct (dictRehash_spec d l 1 Hk) as (more & d' & -> & ? & ? & ? & _). by exists d'.
Qed.

(** ** Sizes *)

Lemma wf_used d : wf d →
  d.(ht0).(used) = Z.of_nat (length (entries_of d.(ht0))) ∧ d.(ht1).(used) = Z.of_nat (length (entries_of d.(ht1))).
Proof.
  unfold wf. destruct (dictIsRehashing d).
  - intros (H0 & H1 & _). split; by apply h_used.
  - intros (-> & [->|H0]); (split; [|done]); [done|by apply h_used].
Qed.

Lemma dictSize_keeps d l : keeps d l → dictSize d = Z.of_nat (length l).
Proof.
  intros [Hw Hp]. destruct (wf_used d Hw) as [E0 E1]. unfold dictSize. rewrite E0, E1, <- (Permutation_length Hp).
  unfold contents. rewrite length_app. lia.
Qed.

Lemma keeps_allocated d l : keeps d l → l ≠ [] → ht_ok d.(ht0).
Proof.
  intros [Hw Hp] Hl. unfold wf in Hw. destruct (dictIsRehashing d); [naive_solver|].
  destruct Hw as (H1 & [H0|?]); [|done]. unfold contents in Hp. rewrite H0, H1 in Hp. cbn in Hp.
  by apply Permutation_nil in Hp.
Qed.

Lemma next_power_spec fuel : ∀ i size,
  (0 < i)%Z → (size ≤ i * 2 ^ Z.of_nat fuel)%Z →
  ∃ n, (0 ≤ n)%Z ∧ next_power (S fuel) i size = Some (i * 2 ^ n)%Z ∧ (size ≤ i * 2 ^ n)%Z ∧ (n = 0 ∨ i * 2 ^ n < 2 * size)%Z.
Proof.
  induction fuel as [|fuel IH]; intros i size Hi Hs; cbn [next_power].
  - rewrite Z.mul_1_r in Hs. rewrite (proj2 (Z.geb_le _ _)) by lia. exists 0%Z. rewrite Z.mul_1_r. split_and!; [done|done|lia|by left].
  - destruct (Z.geb_spec i size) as [Hle|Hlt].
    + exists 0%Z. rewrite Z.mul_1_r. split_and!; [done|done|lia|by left].
    + destruct (IH (i * 2)%Z size) as (n & Hn & Hp & Hle & Hlt2); [lia| |].
      { rewrite Nat2Z.inj_succ, Z.pow_succ_r in Hs by lia. lia. }
      exists (n + 1)%Z. split; [lia|]. rewrite Z.pow_add_r by lia.
      replace (i * (2 ^ n * 2 ^ 1))%Z with (i * 2 * 2 ^ n)%Z by lia. split_and!; [done|done|].
      right. destruct Hlt2 as [->|]; lia.
Qed.

Lemma dictNextPower_spec size :
  (size ≤ 2 ^ 63)%Z → ∃ n, (0 ≤ n ≤ 63)%Z ∧ _dictNextPower size = Some (2 ^ n)%Z ∧ (size ≤ 2 ^ n)%Z.
Proof.
  intros Hs. unfold _dictNextPower. destruct (Z.geb_spec size LONG_MAX).
  - exists 63%Z. split; [lia|]. split; [done|lia].
  - destruct (next_power_spec 63 DICT_HT_INITIAL_SIZE size) as (n & Hn & Hp & Hle & Hlt2); [done| |].
    { unfold DICT_HT_INITIAL_SIZE. change (Z.of_nat 63) with 63%Z. lia. }
    unfold DICT_HT_INITIAL_SIZE, LONG_MAX in *. exists (n + 2)%Z. split.
    + split; [lia|]. destruct Hlt2 as [->|Hlt2]; [lia|]. apply Z.nlt_ge. intros Hbig.
      assert (2 ^ 62 ≤ 2 ^ n)%Z by (apply Z.pow_le_mono_r; lia). lia.
    + rewrite Z.pow_add_r by lia. replace (2 ^ n * 2 ^ 2)%Z with (4 * 2 ^ n)%Z by lia. done.
Qed.

(** ** Growing *)

Lemma concat_replicate_nil {A} n : concat (replicate n (@nil A)) = [].
Proof. by induction n. Qed.

Lemma fresh_table_ok n :
  (0 ≤ n ≤ 63)%Z → ht_ok (Dictht (replicate (Z.to_nat (2 ^ n)) []) (2 ^ n) (2 ^ n - 1) 0).
Proof.
  intros Hn. pose proof (Z.pow_pos_nonneg 2 n ltac:(lia) (proj1 Hn)). split; cbn; try done.
  - by exists n.
  - rewrite length_replicate. lia.
  - unfold entries_of. cbn. by rewrite concat_replicate_nil.
  - intros i b e [-> _]%lookup_replicate He. by apply not_elem_of_nil in He.
Qed.

Lemma dictExpand_spec d l size :
  keeps d l → (size ≤ 2 ^ 63)%Z →
  ∃ ok d', dictExpand d size = Some (ok, d') ∧ keeps d' l ∧ d'.(iterators) = d.(iterators) ∧
    (ok = true ∨ ht_ok d.(ht0) → ht_ok d'.(ht0)) ∧
    (dictIsRehashing d = false → (d.(ht0).(used) ≤ size)%Z → (d.(ht0).(size_) < size)%Z → ok = true) ∧
    (ok = false → d' = d).
Proof.
  intros Hk Hs. unfold dictExpand.
  destruct (dictIsRehashing d || (d.(ht0).(used) >? size)%Z) eqn:Hbad.
  { do 2 eexists. split; [done|]. do 2 (split; [done|]). split; [naive_solver|]. split; [|done].
    intros Hr Hu _. rewrite Hr in Hbad. cbn in Hbad. lia. }
  apply orb_false_iff in Hbad as [Hr Hu]. destruct (dictNextPower_spec size Hs) as (n & Hn & -> & Hle). cbn [mbind option_bind].
  destruct (Z.eqb_spec (2 ^ n) d.(ht0).(size_)) as [He|Hne].
  { do 2 eexists. split; [done|]. do 2 (split; [done|]). split; [naive_solver|]. split; [|done]. lia. }
  pose proof (fresh_table_ok n Hn) as Hf. pose proof Hk as [Hw Hp]. unfold wf in Hw. rewrite Hr in Hw.
  destruct Hw as (H1 & H0). destruct (Z.eqb_spec d.(ht0).(size_) 0) as [Hz|Hnz].
  - destruct H0 as [H0|H0]; [|pose proof (ht_size_pos _ H0); lia].
    do 2 eexists. split; [done|]. refine (conj _ (conj eq_refl (conj _ (conj _ _)))); [|done|done|done].
    split; [unfold wf; cbn; unfold dictIsRehashing in *; cbn; rewrite Hr; by split; [|right]|].
    rewrite <- Hp. unfold contents, entries_of. cbn. by rewrite concat_replicate_nil, H0.
  - destruct H0 as [H0|H0]; [by rewrite H0 in Hnz|].
    do 2 eexists. split; [done|]. refine (conj _ (conj eq_refl (conj _ (conj _ _)))); [|done|done|done].
    apply moving_keeps. refine (conj H0 (conj Hf (conj _ (conj _ _)))); cbn; [done|lia|].
    rewrite <- Hp. unfold contents, entries_of. cbn. by rewrite concat_replicate_nil, H1.
Qed.

(** What the code can hold: the doubled size is an [unsigned long]. *)
Abbreviation fits l := (Z.of_nat (length l) ≤ 2 ^ 62)%Z.

Lemma expandIfNeeded_spec d l :
  keeps d l → fits l →
  ∃ d', _dictExpandIfNeeded can_resize d = Some (true, d') ∧ keeps d' l ∧ ht_ok d'.(ht0) ∧ d'.(iterators) = d.(iterators).
Proof.
  intros Hk Hl. unfold _dictExpandIfNeeded. destruct (dictIsRehashing d) eqn:Hr.
  { exists d. split; [done|]. split; [done|]. split; [|done]. by destruct (keeps_moving _ _ Hk Hr). }
  pose proof (dictSize_keeps _ _ Hk) as Hsz. unfold dictSize in Hsz.
  pose proof (wf_used _ (proj1 Hk)) as [Hu0 Hu1].
  assert (d.(ht0) = _dictReset ∨ ht_ok d.(ht0)) as H0 by (destruct Hk as [Hw _]; unfold wf in Hw; rewrite Hr in Hw; naive_solver).
  destruct (Z.eqb_spec d.(ht0).(size_) 0) as [Hz|Hnz].
  - assert (d.(ht0) = _dictReset) as E by (destruct H0 as [|H0]; [done|pose proof (ht_size_pos _ H0); lia]).
    destruct (dictExpand_spec d l DICT_HT_INITIAL_SIZE Hk ltac:(done)) as (ok & d' & -> & Hk' & Hi & Ho & Hok & _).
    rewrite Hok in * by (done || rewrite E; done). exists d'. split; [done|]. split; [done|]. split; [naive_solver|done].
  - destruct H0 as [E|H0]; [by rewrite E in Hnz|]. pose proof (ht_size_pos _ H0).
    destruct (_ && _) eqn:Hc; [|by exists d].
    apply andb_true_iff in Hc as [Hge _].
    destruct (dictExpand_spec d l (d.(ht0).(used) * 2) Hk ltac:(lia)) as (ok & d' & -> & Hk' & Hi & Ho & Hok & _).
    rewrite Hok in * by (done || lia). exists d'. split; [done|]. split; [done|]. split; [naive_solver|done].
Qed.

Lemma dictResize_spec d l :
  keeps d l → ∃ ok d', dictResize can_resize d = Some (ok, d') ∧ keeps d' l.
Proof.
  intros Hk. unfold dictResize. destruct (negb can_resize || dictIsRehashing d); [by do 2 eexists|].
  destruct (dictExpand_spec d l (if (to_int32 d.(ht0).(used) <? DICT_HT_INITIAL_SIZE)%Z then DICT_HT_INITIAL_SIZE
      else to_int32 d.(ht0).(used)) Hk) as (ok & d' & -> & Hk' & _); [|by do 2 eexists].
  destruct (_ <? _)%Z; [done|]. pose proof (to_int32_range d.(ht0).(used)). lia.
Qed.

(** ** Searching *)

Lemma nodup_parts d m : holds d m →
  NoDup (entries_of d.(ht0)).*1 ∧ NoDup (entries_of d.(ht1)).*1.
Proof.
  intros [_ Hp]. assert (NoDup (contents d).*1) as Hd by (rewrite Hp; apply NoDup_fst_map_to_list).
  unfold contents in Hd. rewrite fmap_app in Hd. apply NoDup_app in Hd. naive_solver.
Qed.

(** Where a key is, or would be. *)
Lemma locate d m k :
  holds d m → ht_ok d.(ht0) →
  ∃ b0, bucket d.(ht0) (index_in hash d.(ht0) k) = Some b0 ∧
    d.(ht0).(table) !! Z.to_nat (index_in hash d.(ht0) k) = Some b0 ∧
    match find_chain k b0 with
    | Some v => m !! k = Some v
    | None =>
        if dictIsRehashing d then
          ∃ b1, bucket d.(ht1) (index_in hash d.(ht1) k) = Some b1 ∧
            d.(ht1).(table) !! Z.to_nat (index_in hash d.(ht1) k) = Some b1 ∧ find_chain k b1 = m !! k
        else m !! k = None
    end.
Proof.
  intros Hh H0. destruct (nodup_parts _ _ Hh) as [N0 N1].
  destruct (find_in_table _ k H0 N0) as (b0 & Hb & Hl & Hf0). exists b0. do 2 (split; [done|]).
  pose proof (λ v, holds_lookup d m k v Hh) as Hm. unfold contents in Hm. setoid_rewrite elem_of_app in Hm.
  setoid_rewrite <- Hf0 in Hm. destruct (find_chain k b0) as [v|]; [apply Hm; by left|].
  destruct (dictIsRehashing d) eqn:Hr.
  - destruct (keeps_moving _ _ Hh Hr) as (_ & H1 & _).
    destruct (find_in_table _ k H1 N1) as (b1 & Hb1 & Hl1 & Hf1). exists b1. do 2 (split; [done|]).
    apply option_eq. intros v. rewrite Hf1, <- Hm. naive_solver.
  - destruct Hh as [Hw _]. unfold wf in Hw. rewrite Hr in Hw. destruct Hw as [Hw _]. rewrite Hw in Hm.
    apply option_eq. intros v. rewrite <- Hm. cbn. rewrite elem_of_nil. naive_solver.
Qed.

Lemma search_spec d m k : holds d m → ht_ok d.(ht0) → search hash d k = Some (m !! k).
Proof.
  intros Hh H0. destruct (locate d m k Hh H0) as (b0 & Hb & _ & Hc). unfold search. rewrite Hb. cbn [mbind option_bind].
  destruct (find_chain k b0); [by rewrite Hc|].
  destruct (dictIsRehashing d); cbn [negb]; [|by rewrite Hc].
  destruct Hc as (b1 & -> & _ & <-). done.
Qed.

Lemma dictFind_spec d m k : holds d m → ∃ d', dictFind hash d k = Some (m !! k, d') ∧ holds d' m.
Proof.
  intros Hh. unfold dictFind. rewrite (dictSize_keeps _ _ Hh), length_map_to_list.
  destruct (Z.eqb_spec (Z.of_nat (size m)) 0) as [Hz|Hz].
  - assert (m = ∅) as -> by (apply map_size_empty_inv; lia). exists d. by rewrite lookup_empty.
  - destruct (rehash_if_spec d _ Hh) as (d' & -> & Hh' & _). cbn [mbind option_bind].
    rewrite (search_spec d' m k Hh'); [by exists d'|].
    apply (keeps_allocated _ _ Hh'). intros E. apply map_to_list_empty_iff in E as ->. by rewrite map_size_empty in Hz.
Qed.

(** ** Changing *)

Lemma wf_with0 d t x : wf d → ht_ok t →
  (∀ j b, t.(table) !! j = Some b → (Z.of_nat j < d.(rehashidx))%Z → b = []) →
  wf (MkDict t d.(ht1) d.(rehashidx) x).
Proof.
  unfold wf, dictIsRehashing. cbn. destruct (d.(rehashidx) =? -1)%Z; naive_solver.
Qed.

Lemma wf_with1 d t x : dictIsRehashing d = true → wf d → ht_ok t → wf (MkDict d.(ht0) t d.(rehashidx) x).
Proof. unfold wf, dictIsRehashing. cbn. intros ->. naive_solver. Qed.

(** The chain of [k] replaced by one with the entries [b']. *)
Lemma change_bucket h k b b' :
  ht_ok h → h.(table) !! Z.to_nat (index_in hash h k) = Some b →
  (∀ e, e ∈ b' → e.1 = k ∨ e ∈ b) →
  ∃ t, set_bucket h (index_in hash h k) b' = Some t ∧
    t.(table) = <[Z.to_nat (index_in hash h k) := b']> h.(table) ∧
    ht_ok (add_used (Z.of_nat (length b') - Z.of_nat (length b)) t) ∧
    ∃ r, entries_of h ≡ₚ b ++ r ∧ entries_of t ≡ₚ b' ++ r.
Proof.
  intros Hh Hl Hb. pose proof (index_range h k Hh) as Hr.
  eexists. split; [by eapply set_bucket_at|]. split; [done|]. split.
  - eapply ht_ok_set; [done|done|done|]. intros e He. destruct (Hb e He) as [->|He']; [lia|]. by eapply h_index.
  - eexists. unfold entries_of. cbn. split; [by apply concat_split|by eapply concat_insert].
Qed.

Lemma elem_of_unlink k b e : e ∈ unlink_chain k b → e ∈ b.
Proof.
  induction b as [|e' b IH]; [done|]. cbn. case_bool_decide; rewrite ?elem_of_cons; naive_solver.
Qed.

(** The chain of [k] has [k]'s entry, and gets another entry or none for it. *)
Lemma change_in_table h k v b (o : option V) :
  ht_ok h → h.(table) !! Z.to_nat (index_in hash h k) = Some b → find_chain k b = Some v →
  let b' := match o with Some v' => set_chain k v' b | None => unlink_chain k b end in
  let n := match o with Some _ => 0%Z | None => (-1)%Z end in
  ∃ t, set_bucket h (index_in hash h k) b' = Some t ∧
    t.(table) = <[Z.to_nat (index_in hash h k) := b']> h.(table) ∧ ht_ok (add_used n t) ∧
    ∃ r, entries_of h ≡ₚ (k, v) :: r ∧
      entries_of t ≡ₚ match o with Some v' => (k, v') :: r | None => r end.
Proof.
  intros Hh Hl Hf. cbn zeta. pose proof (find_chain_unlink _ _ _ Hf) as Hu.
  destruct (change_bucket h k b (match o with Some v' => set_chain k v' b | None => unlink_chain k b end) Hh Hl)
    as (t & Hs & Ht & Hok & r & Hr & Hr').
  { intros e He. destruct o as [v'|]; [rewrite (find_chain_set _ _ v' _ Hf) in He; apply elem_of_cons in He as [->|He]; [by left|]|];
      right; by eapply elem_of_unlink. }
  exists t. do 2 (split; [done|]). split.
  - replace (match o with Some _ => 0%Z | None => (-1)%Z end) with
      (Z.of_nat (length (match o with Some v' => set_chain k v' b | None => unlink_chain k b end)) - Z.of_nat (length b))%Z; [done|].
    rewrite (Permutation_length Hu). destruct o as [v'|]; [rewrite (Permutation_length (find_chain_set _ _ v' _ Hf))|]; cbn [length]; lia.
  - exists (unlink_chain k b ++ r). rewrite Hr, Hr'. split; [by rewrite Hu at 1|].
    destruct o as [v'|]; [by rewrite (find_chain_set _ _ v' _ Hf)|done].
Qed.

(** What the map says of an entry changed or taken. *)
Lemma holds_changed d m k v r (o : option V) :
  contents d ≡ₚ (k, v) :: r → holds d m →
  match o with Some v' => (k, v') :: r | None => r end ≡ₚ map_to_list (partial_alter (λ _, o) k m).
Proof.
  intros Hc Hh. assert (m !! k = Some v) as Hk by (apply (holds_lookup d m k v Hh); rewrite Hc; left).
  assert (r ≡ₚ map_to_list (delete k m)) as Hr.
  { apply (Permutation_cons_inv (a := (k, v))). rewrite <- Hc, (map_to_list_delete m k v Hk). apply Hh. }
  destruct o as [v'|]; [|done]. change (partial_alter (λ _, Some v') k m) with (<[k := v']> m).
  rewrite <- (insert_delete_eq m k v'), map_to_list_insert by apply lookup_delete_eq. by rewrite Hr.
Qed.

(** A bucket of [ht[0]] that was in use lies ahead of the index. *)
Lemma change_ahead d k b b' t :
  wf d → d.(ht0).(table) !! Z.to_nat (index_in hash d.(ht0) k) = Some b → b ≠ [] → (0 ≤ index_in hash d.(ht0) k)%Z →
  t.(table) = <[Z.to_nat (index_in hash d.(ht0) k) := b']> d.(ht0).(table) →
  ∀ j c, t.(table) !! j = Some c → (Z.of_nat j < d.(rehashidx))%Z → c = [].
Proof.
  intros Hw Hb Hne Hi -> j c Hj Hlt. unfold wf in Hw. destruct (dictIsRehashing d) eqn:Hr.
  - destruct Hw as (_ & _ & _ & Hz). destruct (decide (Z.to_nat (index_in hash d.(ht0) k) = j)) as [<-|Hnj].
    + by specialize (Hz _ _ Hb Hlt).
    + rewrite list_lookup_insert_ne in Hj by done. by eapply Hz.
  - unfold dictIsRehashing in Hr. destruct (Z.eqb_spec d.(rehashidx) (-1)); [lia|done].
Qed.

Lemma found_not_empty k b v : find_chain k b = Some v → b ≠ [].
Proof. by intros ? ->. Qed.

(** The entry of [k] in [ht[0]] or in [ht[1]] changed. *)
Lemma change0 d m k v b o :
  holds d m → ht_ok d.(ht0) → d.(ht0).(table) !! Z.to_nat (index_in hash d.(ht0) k) = Some b → find_chain k b = Some v →
  let b' := match o with Some v' => set_chain k v' b | None => unlink_chain k b end in
  let n := match o with Some _ => 0%Z | None => (-1)%Z end in
  ∃ t, set_bucket d.(ht0) (index_in hash d.(ht0) k) b' = Some t ∧
    holds (MkDict (add_used n t) d.(ht1) d.(rehashidx) d.(iterators)) (partial_alter (λ _, o) k m).
Proof.
  intros Hh H0 Hl Hf. destruct (change_in_table _ k v b o H0 Hl Hf) as (t & Hs & Ht & Hok & r & Hr & Hr').
  exists t. split; [done|]. split.
  - apply wf_with0; [apply Hh|done|]. cbn [table add_used].
    eapply change_ahead; [apply Hh|done|by eapply found_not_empty|by apply index_range|done].
  - rewrite <- (holds_changed d m k v (r ++ entries_of d.(ht1)) o); [|unfold contents; by rewrite Hr|done].
    unfold contents. cbn [ht0 ht1]. change (entries_of (add_used _ t)) with (entries_of t). rewrite Hr'. by destruct o.
Qed.

Lemma change1 d m k v b o :
  holds d m → dictIsRehashing d = true → d.(ht1).(table) !! Z.to_nat (index_in hash d.(ht1) k) = Some b → find_chain k b = Some v →
  let b' := match o with Some v' => set_chain k v' b | None => unlink_chain k b end in
  let n := match o with Some _ => 0%Z | None => (-1)%Z end in
  ∃ t, set_bucket d.(ht1) (index_in hash d.(ht1) k) b' = Some t ∧
    holds (MkDict d.(ht0) (add_used n t) d.(rehashidx) d.(iterators)) (partial_alter (λ _, o) k m).
Proof.
  intros Hh Hre Hl Hf. destruct (keeps_moving _ _ Hh Hre) as (_ & H1 & _).
  destruct (change_in_table _ k v b o H1 Hl Hf) as (t & Hs & Ht & Hok & r & Hr & Hr').
  exists t. split; [done|]. split; [apply wf_with1; [done|apply Hh|done]|].
  rewrite <- (holds_changed d m k v (entries_of d.(ht0) ++ r) o); [| |done].
  - unfold contents. cbn [ht0 ht1]. change (entries_of (add_used _ t)) with (entries_of t). rewrite Hr'.
    destruct o; [by rewrite Permutation_middle|done].
  - unfold contents. rewrite Hr. by rewrite Permutation_middle.
Qed.

(** ** The operations on the map *)

Lemma dictGenericDelete_spec d m k :
  holds d m → ∃ d', dictGenericDelete hash d k = Some (m !! k, d') ∧ holds d' (delete k m).
Proof.
  intros Hh. unfold dictGenericDelete. pose proof (dictSize_keeps _ _ Hh) as Hs. rewrite length_map_to_list in Hs.
  pose proof (wf_used _ (proj1 Hh)) as [Hu0 Hu1]. unfold dictSize in Hs.
  destruct (_ && _)%bool eqn:Hz.
  { assert (m = ∅) as -> by (apply map_size_empty_inv; lia). exists d. by rewrite lookup_empty, delete_empty. }
  destruct (rehash_if_spec d _ Hh) as (d' & -> & Hh' & _). cbn [mbind option_bind].
  assert (ht_ok d'.(ht0)) as H0.
  { apply (keeps_allocated _ _ Hh'). intros E. apply map_to_list_empty_iff in E as ->. rewrite map_size_empty in Hs. lia. }
  destruct (locate d' m k Hh' H0) as (b0 & Hb & Hl & Hc). rewrite Hb. cbn [mbind option_bind].
  destruct (find_chain k b0) as [v|] eqn:Hf.
  - destruct (change0 d' m k v b0 None Hh' H0 Hl Hf) as (t & -> & Hn). cbn [mbind option_bind]. rewrite Hc. eauto.
  - destruct (dictIsRehashing d') eqn:Hr; cbn [negb]; [|rewrite Hc, delete_id by done; eauto].
    destruct Hc as (b1 & -> & Hl1 & Hm). cbn [mbind option_bind]. destruct (find_chain k b1) as [v|] eqn:Hf1; rewrite <- Hm.
    + destruct (change1 d' m k v b1 None Hh' Hr Hl1 Hf1) as (t & -> & Hn). cbn [mbind option_bind]. eauto.
    + rewrite delete_id by done. eauto.
Qed.

(** A new entry in front of its chain. *)
Lemma dictAdd_spec d m k v :
  holds d m → (Z.of_nat (size m) ≤ 2 ^ 62)%Z →
  ∃ d', dictAdd hash can_resize d k v = Some (bool_decide (m !! k = None), d') ∧
    holds d' (if decide (m !! k = None) then <[k := v]> m else m) ∧ ht_ok d'.(ht0).
Proof.
  intros Hh Hs. unfold dictAdd. destruct (rehash_if_spec d _ Hh) as (d1 & -> & Hh1 & _). cbn [mbind option_bind].
  unfold _dictKeyIndex. destruct (expandIfNeeded_spec d1 _ Hh1) as (d2 & -> & Hh2 & H0 & _);
    [by rewrite length_map_to_list|]. cbn [mbind option_bind negb].
  rewrite (search_spec d2 m k Hh2 H0). cbn [mbind option_bind].
  destruct (m !! k) as [w|] eqn:Hk; cbn [mbind option_bind]; [by exists d2|].
  rewrite decide_True by done. rewrite bool_decide_true by done.
  assert (∀ l, l ≡ₚ (k, v) :: contents d2 → l ≡ₚ map_to_list (<[k := v]> m)) as Hadd.
  { intros l ->. rewrite map_to_list_insert by done. by rewrite (proj2 Hh2). }
  destruct (dictIsRehashing d2) eqn:Hr.
  - destruct (keeps_moving _ _ Hh2 Hr) as (_ & H1 & _).
    destruct (push_bucket d2.(ht1) k v H1) as (b & -> & t & Hs' & Hok & He). cbn [mbind option_bind]. rewrite Hs'. cbn [mbind option_bind].
    eexists. split; [done|]. split; [|done]. split; [apply wf_with1; [done|apply Hh2|done]|].
    apply Hadd. unfold contents. cbn [ht0 ht1]. by rewrite He, <- Permutation_middle.
  - destruct (push_bucket d2.(ht0) k v H0) as (b & -> & t & Hs' & Hok & He). cbn [mbind option_bind]. rewrite Hs'. cbn [mbind option_bind].
    eexists. split; [done|]. split; [|done]. split.
    + apply wf_with0; [apply Hh2|done|]. unfold dictIsRehashing in Hr. lia.
    + apply Hadd. unfold contents. cbn [ht0 ht1]. by rewrite He.
Qed.

Lemma add_used_0 h : add_used 0 h = h.
Proof. destruct h. unfold add_used. cbn. by rewrite Z.add_0_r. Qed.

Lemma set_value_spec d m k v w :
  holds d m → ht_ok d.(ht0) → m !! k = Some w →
  ∃ d', set_value hash d k v = Some d' ∧ holds d' (<[k := v]> m).
Proof.
  intros Hh H0 Hk. unfold set_value. destruct (locate d m k Hh H0) as (b0 & -> & Hl & Hc). cbn [mbind option_bind].
  destruct (find_chain k b0) as [v0|] eqn:Hf.
  - destruct (change0 d m k v0 b0 (Some v) Hh H0 Hl Hf) as (t & -> & Hn). cbn [mbind option_bind]. rewrite add_used_0 in Hn. eauto.
  - destruct (dictIsRehashing d) eqn:Hr; [|congruence]. destruct Hc as (b1 & -> & Hl1 & Hm). cbn [mbind option_bind].
    rewrite Hk in Hm. rewrite Hm. cbn [mbind option_bind].
    destruct (change1 d m k w b1 (Some v) Hh Hr Hl1 Hm) as (t & -> & Hn). cbn [mbind option_bind]. rewrite add_used_0 in Hn. eauto.
Qed.

Lemma dictReplace_spec d m k v :
  holds d m → (Z.of_nat (size m) ≤ 2 ^ 62)%Z →
  ∃ d', dictReplace hash can_resize d k v = Some (bool_decide (m !! k = None), d') ∧ holds d' (<[k := v]> m).
Proof.
  intros Hh Hs. unfold dictReplace. destruct (dictAdd_spec d m k v Hh Hs) as (d1 & -> & Hh1 & H0). cbn [mbind option_bind].
  destruct (m !! k) as [w|] eqn:Hk; [|rewrite decide_True in Hh1 by done; eauto].
  rewrite decide_False in Hh1 by done. rewrite bool_decide_false by done.
  destruct (set_value_spec d1 m k v w Hh1 H0 Hk) as (d2 & -> & Hh2). cbn [mbind option_bind]. eauto.
Qed.

(** ** Iterating *)

Implicit Types (it : dictIterator K V).

(** The bucket in front of the iterator, and what it has still to visit. *)
Definition it_ht it d : dictht K V := if it.(it_table) then d.(ht1) else d.(ht0).
Definition ahead it d : list (list (K * V)) :=
  drop (Z.to_nat (it.(it_index) + 1)) (it_ht it d).(table) ++ (if it.(it_table) then [] else d.(ht1).(table)).

Record it_ok it d : Prop := ItOk {
  i_wf : wf d;
  i_low : (-1 ≤ it.(it_index))%Z;
  i_high : (it.(it_index) < (it_ht it d).(size_) ∨ it.(it_index) = -1)%Z;
  i_table : it.(it_table) = true → dictIsRehashing d = true;
  i_entry : it.(it_entry) = None → it.(it_next) = [];
  i_run : is_Some it.(it_entry) → started it = true
}.

Lemma wf_length d (t : bool) : wf d → Z.of_nat (length (if t then d.(ht1) else d.(ht0)).(table)) = (if t then d.(ht1) else d.(ht0)).(size_).
Proof.
  unfold wf. destruct (dictIsRehashing d).
  - intros (H0 & H1 & _). destruct t; by apply h_length.
  - intros (E & [E'|H0]); rewrite E; destruct t; try done; [by rewrite E'|by apply h_length].
Qed.

(** The next bucket is the first one ahead; at the end there is none. *)
Lemma next_bucket_spec it d :
  it_ok it d → it.(it_entry) = None →
  match ahead it d with
  | [] => next_bucket it d = Some None
  | b :: bs => ∃ it', next_bucket it d = Some (Some (on_chain it' b)) ∧ it_ok (on_chain it' b) d ∧
                 ahead (on_chain it' b) d = bs ∧ it'.(it_safe) = it.(it_safe) ∧ started (on_chain it' b) = true
  end.
Proof.
  intros [Hw Hlo Hhi Ht He _] Hn. unfold next_bucket, ahead, it_ht in *.
  pose proof (wf_length d it.(it_table) Hw) as Hlen. destruct it as [t i sf e nx]. cbn [it_table it_index it_safe it_entry it_next] in *.
  destruct (Z.geb_spec (i + 1) (if t then d.(ht1) else d.(ht0)).(size_)) as [Hge|Hlt].
  - rewrite drop_ge by lia. cbn [app]. destruct t; cbn [negb]; rewrite ?andb_false_r, ?andb_true_r; [done|].
    destruct (dictIsRehashing d) eqn:Hr.
    + pose proof Hw as Hw'. unfold wf in Hw'. rewrite Hr in Hw'. destruct Hw' as (_ & H1 & _).
      pose proof (ht_size_pos _ H1). pose proof (h_length _ H1). destruct d.(ht1).(table) as [|b bs] eqn:Hb; [cbn in *; lia|].
      exists (Iter true 0 sf None []). unfold bucket. cbn [Z.leb]. rewrite Hb. cbn. split; [done|].
      split; [|rewrite Hb; split; [by rewrite app_nil_r|done]]. split; cbn; [done|lia|lia|done|by destruct b|done].
    + unfold wf in Hw. rewrite Hr in Hw. destruct Hw as [-> _]. done.
  - destruct (lookup_lt_is_Some_2 (if t then d.(ht1) else d.(ht0)).(table) (Z.to_nat (i + 1))) as [b Hb]; [lia|].
    rewrite (drop_S _ b) by done. cbn [app]. exists (Iter t (i + 1) sf None []).
    unfold bucket. rewrite (proj2 (Z.leb_le 0 (i + 1))) by lia. rewrite Hb. cbn [mbind option_bind].
    assert (started (on_chain (Iter t (i + 1) sf None []) b) = true) as Hst
      by (unfold started; cbn; destruct (Z.eqb_spec (i + 1) (-1)); [lia|done]).
    split; [done|]. split; [split; cbn; [done|lia|by left|done|by destruct b|done]|]. split; [|done].
    cbn. by replace (Z.to_nat (i + 1 + 1)) with (S (Z.to_nat (i + 1))) by lia.
Qed.

Lemma on_chain_ok it d b : it_ok it d → b = [] ∨ started it = true → it_ok (on_chain it b) d.
Proof.
  intros [? ? ? ? ?] Hb. split; try done; cbn; destruct b; try done; [by intros [? ?]|]. by destruct Hb.
Qed.

(** A safe iterator that starts is counted in the dictionary. *)
Definition counted it d : dict K V := if negb (started it) && it.(it_safe) then iterators_add 1 d else d.

Lemma counted_started it d : started it = true → counted it d = d.
Proof. unfold counted. by intros ->. Qed.

Lemma counted_ahead it it' d : ahead it (counted it' d) = ahead it d.
Proof. unfold counted. by destruct (_ && _). Qed.

Lemma counted_ok it d : it_ok it d → it_ok it (counted it d).
Proof. intros [? ? ? ? ? ?]. unfold counted. destruct (_ && _); by split. Qed.

(** The entry the iterator gives is the next one of those ahead. *)
Lemma dictNext_spec fuel : ∀ it d,
  it_ok it d → length (ahead it d) + (if it.(it_entry) is Some _ then 2 else 1) ≤ fuel →
  match it.(it_next) ++ concat (ahead it d) with
  | [] => ∃ it', dictNext fuel it d = Some (None, it', counted it d) ∧ started it' = true ∧ it'.(it_safe) = it.(it_safe)
  | e :: es => ∃ it', dictNext fuel it d = Some (Some e, it', counted it d) ∧ it_ok it' (counted it d) ∧ started it' = true ∧
                 it'.(it_safe) = it.(it_safe) ∧ it'.(it_next) ++ concat (ahead it' d) = es ∧
                 length (ahead it' d) ≤ length (ahead it d)
  end.
Proof.
  induction fuel as [|fuel IH]; intros it d Hok Hf; [destruct it.(it_entry); lia|]. cbn [dictNext].
  destruct (it.(it_entry)) as [e0|] eqn:Hent; cbn [mbind option_bind].
  - assert (started it = true) as Hrun by (apply (i_run _ _ Hok); by rewrite Hent). rewrite (counted_started it d Hrun).
    destruct (it.(it_next)) as [|e es] eqn:Hnx.
    + pose proof (IH (on_chain it []) d) as IH'. rewrite (counted_started (on_chain it []) d Hrun) in IH'.
      apply IH'; [apply on_chain_ok; [done|by left]|]. change (ahead (on_chain it []) d) with (ahead it d). cbn. lia.
    + cbn [on_chain it_entry head app]. exists (on_chain it (e :: es)). split; [done|].
      split; [apply on_chain_ok; [done|by right]|]. by repeat (split; [done|]).
  - fold (counted it d). rewrite (i_entry _ _ Hok Hent). cbn [app].
    pose proof (next_bucket_spec it _ (counted_ok _ _ Hok) Hent) as Hb. rewrite counted_ahead in Hb.
    destruct (ahead it d) as [|b bs] eqn:Ha; cbn [concat].
    + rewrite Hb. cbn [mbind option_bind]. eexists. split; [done|]. split; [|done].
      unfold started. cbn. destruct Hok as [_ Hlo _ _ _ _]. destruct (Z.eqb_spec (it.(it_index) + 1) (-1)); [lia|done].
    + destruct Hb as (it' & -> & Hok' & Ha' & Hs' & Hst'). cbn [mbind option_bind]. rewrite counted_ahead in Ha'.
      destruct b as [|e es]; cbn [on_chain it_entry head] in *.
      * pose proof (IH (on_chain it' []) _ Hok') as IH'. rewrite counted_ahead, (counted_started _ _ Hst') in IH'.
        cbn [on_chain it_entry it_next head tail app] in IH'.
        rewrite Ha' in IH'. cbn [length] in Hf. specialize (IH' ltac:(lia)). cbn [app].
        destruct (concat bs) as [|e es].
        -- destruct IH' as (it2 & -> & H1 & H2). exists it2. split; [done|]. split; [done|by rewrite H2, <- Hs'].
        -- destruct IH' as (it2 & -> & H1 & H2 & H3 & H4 & H5). rewrite counted_ahead in H4, H5.
           exists it2. do 3 (split; [done|]). split; [by rewrite H3, <- Hs'|].
           split; [done|]. cbn [length]. lia.
      * exists (on_chain it' (e :: es)). split; [done|]. split; [done|]. split; [done|]. split; [done|].
        cbn [on_chain it_next tail]. rewrite Ha'. split; [done|]. cbn [length]. lia.
Qed.

(** A whole iteration, as a caller writes it. *)
Fixpoint iterate (fuel n : nat) it d : option (list (K * V) * dict K V) :=
  match n with
  | 0 => None
  | S n =>
      '(e, it, d) ← dictNext fuel it d;
      match e with
      | None => Some ([], dictReleaseIterator it d)
      | Some e => '(es, d) ← iterate fuel n it d; Some (e :: es, d)
      end
  end.

Lemma release_counted it it' d :
  started it = false → started it' = true → it'.(it_safe) = it.(it_safe) → dictReleaseIterator it' (counted it d) = d.
Proof.
  intros H1 H2 H3. unfold dictReleaseIterator, counted. rewrite H1, H2, H3. cbn [negb andb].
  destruct it.(it_safe); [|done]. destruct d. unfold iterators_add. cbn. f_equal. lia.
Qed.

Lemma iterate_spec fuel n it0 d : started it0 = false → ∀ it,
  it_ok it (counted it0 d) → started it = true → it.(it_safe) = it0.(it_safe) → length (ahead it d) + 2 ≤ fuel →
  length (it.(it_next) ++ concat (ahead it d)) < n →
  iterate fuel n it (counted it0 d) = Some (it.(it_next) ++ concat (ahead it d), d).
Proof.
  intros H0. induction n as [|n IH]; intros it Hok Hst Hs Hf Hn; [lia|]. cbn [iterate].
  pose proof (dictNext_spec fuel it (counted it0 d) Hok) as Hx. rewrite counted_ahead, (counted_started it _ Hst) in Hx.
  destruct (_ ++ _) as [|e es] eqn:Hl.
  - destruct Hx as (it' & -> & ? & ?); [destruct it.(it_entry); lia|]. cbn [mbind option_bind]. by rewrite release_counted by congruence.
  - destruct Hx as (it' & -> & Hok' & Hst' & Hs' & Hl' & Hle); [destruct it.(it_entry); lia|]. cbn [mbind option_bind].
    rewrite counted_ahead in Hl', Hle. rewrite IH; [|done|done|congruence|lia|rewrite Hl'; cbn in Hn; lia].
    cbn [mbind option_bind]. by rewrite Hl'.
Qed.

(** The iteration gives every pair once and leaves the dictionary as it was. *)
Lemma iterate_all d (safe : bool) fuel n :
  wf d → length d.(ht0).(table) + length d.(ht1).(table) + 2 ≤ fuel → length (contents d) < n →
  iterate fuel n (if safe then dictGetSafeIterator else dictGetIterator) d = Some (contents d, d).
Proof.
  intros Hw Hf Hn. set (it := if safe then dictGetSafeIterator else dictGetIterator : dictIterator K V).
  assert (started it = false) as Hst by (by destruct safe).
  assert (it_ok it d) as Hok by (destruct safe; split; cbn; try done; try lia; by intros [? ?]).
  assert (it.(it_next) = []) as En by (by destruct safe).
  assert (concat (ahead it d) = contents d) as Ea by (destruct safe; unfold ahead; cbn; by rewrite drop_0, concat_app).
  assert (length (ahead it d) = length d.(ht0).(table) + length d.(ht1).(table)) as El
    by (destruct safe; unfold ahead; cbn; by rewrite drop_0, length_app).
  destruct n as [|n]; [lia|]. cbn [iterate]. pose proof (dictNext_spec fuel it d Hok) as Hx. rewrite En, Ea in Hx. cbn [app] in Hx.
  destruct (contents d) as [|e es] eqn:Hc.
  - destruct Hx as (it' & -> & ? & ?); [destruct it.(it_entry); lia|]. cbn [mbind option_bind]. by rewrite release_counted.
  - destruct Hx as (it' & -> & Hok' & Hst' & Hs' & Hl' & Hle); [destruct it.(it_entry); lia|]. cbn [mbind option_bind].
    rewrite (iterate_spec fuel n it d Hst it'); [|done..|lia|rewrite Hl'; cbn in Hn; lia]. cbn [mbind option_bind]. by rewrite Hl'.
Qed.
End proofs.

(** ** A run of operations *)

Inductive dict_op (K V : Type) :=
  | OAdd (k : K) (v : V)
  | OReplace (k : K) (v : V)
  | OFind (k : K)
  | ODelete (k : K)
  | OUnlink (k : K)
  | OResize
  | ORehash (n : nat)
  | OEmpty.
Arguments OAdd {K V}.
Arguments OReplace {K V}.
Arguments OFind {K V}.
Arguments ODelete {K V}.
Arguments OUnlink {K V}.
Arguments OResize {K V}.
Arguments ORehash {K V}.
Arguments OEmpty {K V}.

(** What an operation tells its caller about the keys. *)
Inductive dict_answer (V : Type) :=
  | Done
  | Answer (new : bool)
  | Value (v : option V).
Arguments Done {V}.
Arguments Answer {V}.
Arguments Value {V}.

Section runs.
Context {K V : Type} `{Countable K}.
Variable hash : K → Z.

Implicit Types (d : dict K V) (m : gmap K V).

(** An operation of the code, with [dict_can_resize] as it is then. *)
Definition dict_exec (o : bool * dict_op K V) d : option (dict_answer V * dict K V) :=
  let '(can_resize, o) := o in
  match o with
  | OAdd k v => prod_map Answer id <$> dictAdd hash can_resize d k v
  | OReplace k v => prod_map Answer id <$> dictReplace hash can_resize d k v
  | OFind k => prod_map Value id <$> dictFind hash d k
  | ODelete k => prod_map Answer id <$> dictDelete hash d k
  | OUnlink k => prod_map Value id <$> dictUnlink hash d k
  | OResize => '(_, d) ← dictResize can_resize d; Some (Done, d)
  | ORehash n => '(_, d) ← dictRehash hash d n; Some (Done, d)
  | OEmpty => Some (Done, dictEmpty d)
  end.

(** The same operation on the map. *)
Definition map_exec (o : bool * dict_op K V) m : dict_answer V * gmap K V :=
  match o.2 with
  | OAdd k v => (Answer (bool_decide (m !! k = None)), if decide (m !! k = None) then <[k := v]> m else m)
  | OReplace k v => (Answer (bool_decide (m !! k = None)), <[k := v]> m)
  | OFind k => (Value (m !! k), m)
  | ODelete k => (Answer (bool_decide (is_Some (m !! k))), delete k m)
  | OUnlink k => (Value (m !! k), delete k m)
  | OResize | ORehash _ => (Done, m)
  | OEmpty => (Done, ∅)
  end.

Fixpoint dict_run (ops : list (bool * dict_op K V)) d : option (list (dict_answer V) * dict K V) :=
  match ops with
  | [] => Some ([], d)
  | o :: ops => '(a, d) ← dict_exec o d; '(l, d) ← dict_run ops d; Some (a :: l, d)
  end.
Fixpoint map_run (ops : list (bool * dict_op K V)) m : list (dict_answer V) * gmap K V :=
  match ops with
  | [] => ([], m)
  | o :: ops => let '(a, m) := map_exec o m in let '(l, m) := map_run ops m in (a :: l, m)
  end.

Lemma dict_exec_spec o d m :
  holds hash d m → (Z.of_nat (size m) ≤ 2 ^ 62)%Z →
  ∃ d', dict_exec o d = Some ((map_exec o m).1, d') ∧ holds hash d' (map_exec o m).2.
Proof.
  intros Hh Hs. destruct o as [c [k v|k v|k|k|k| |n|]]; cbn.
  - destruct (dictAdd_spec hash c d m k v Hh Hs) as (d' & -> & Hh' & _). by exists d'.
  - destruct (dictReplace_spec hash c d m k v Hh Hs) as (d' & -> & Hh'). by exists d'.
  - destruct (dictFind_spec hash d m k Hh) as (d' & -> & Hh'). by exists d'.
  - unfold dictDelete. destruct (dictGenericDelete_spec hash d m k Hh) as (d' & -> & Hh'). by exists d'.
  - unfold dictUnlink. destruct (dictGenericDelete_spec hash d m k Hh) as (d' & -> & Hh'). by exists d'.
  - destruct (dictResize_spec hash c d _ Hh) as (ok & d' & -> & Hh'). by exists d'.
  - destruct (dictRehash_spec hash d _ n Hh) as (more & d' & -> & Hh' & _). by exists d'.
  - exists (dictEmpty d). split; [done|]. split; [by split; [|left]|]. by rewrite map_to_list_empty.
Qed.

Lemma map_exec_size o m : size (map_exec o m).2 ≤ S (size m).
Proof.
  destruct o as [c [k v|k v|k|k|k| |n|]]; cbn; try lia.
  - case_decide; [|lia]. by rewrite map_size_insert_None.
  - rewrite map_size_insert. destruct (m !! k); cbn; lia.
  - rewrite map_size_delete. destruct (m !! k); cbn; lia.
  - rewrite map_size_delete. destruct (m !! k); cbn; lia.
  - rewrite map_size_empty. lia.
Qed.

Lemma dict_run_spec ops : ∀ d m,
  holds hash d m → (Z.of_nat (size m) + Z.of_nat (length ops) ≤ 2 ^ 62)%Z →
  ∃ d', dict_run ops d = Some ((map_run ops m).1, d') ∧ holds hash d' (map_run ops m).2.
Proof.
  induction ops as [|o ops IH]; intros d m Hh Hs; [by exists d|].
  cbn [length] in Hs. destruct (dict_exec_spec o d m Hh ltac:(lia)) as (d1 & E1 & Hh1).
  pose proof (map_exec_size o m) as Hsz. cbn [dict_run map_run]. rewrite E1. cbn [mbind option_bind].
  destruct (map_exec o m) as [a m1]. cbn [fst snd] in *.
  destruct (IH d1 m1 Hh1 ltac:(lia)) as (d2 & -> & Hh2). cbn [mbind option_bind].
  destruct (map_run ops m1) as [l m2]. by exists d2.
Qed.

Lemma dictCreate_holds : holds hash (dictCreate : dict K V) ∅.
Proof. split; [by split; [|left]|]. by rewrite map_to_list_empty. Qed.

(** Moving in rounds of 100 steps: the clock ends it, or there is nothing left;
    what the dictionary holds is the same. *)
Lemma rehash_ms_spec fuel : ∀ late rounds n d m,
  holds hash d m →
  (dictIsRehashing d = true → d.(ht0).(size_) - d.(rehashidx) < Z.of_nat fuel)%Z → 1 ≤ fuel →
  ∃ n' d', rehash_ms hash fuel late rounds n d = Some (n', d') ∧ holds hash d' m ∧
    (dictIsRehashing d' = true → ∃ r, rounds ≤ r < rounds + fuel ∧ late r = true).
Proof.
  induction fuel as [|fuel IH]; intros late rounds n d m Hh Hf H1; [lia|]. cbn [rehash_ms].
  destruct (dictRehash_spec hash d _ 100 Hh) as (more & d1 & E & Hh1 & _ & _ & Hre & Hg).
  rewrite E. cbn [mbind option_bind]. destruct more; cbn [negb]; [|do 2 eexists; split; [done|]; by rewrite Hre].
  destruct (Hg eq_refl) as (Hs & Hgr & Hlt). specialize (Hgr ltac:(lia)).
  destruct (late rounds) eqn:Hla.
  { do 2 eexists. split; [done|]. split; [done|]. intros _. exists rounds. split; [lia|done]. }
  assert (dictIsRehashing d = true) as Hd.
  { destruct (dictIsRehashing d) eqn:Hn; [done|]. unfold dictRehash in E. rewrite Hn in E. done. }
  specialize (Hf Hd). destruct (IH late (S rounds) (n + 100)%Z d1 m Hh1) as (n' & d' & -> & Hh' & Hl); [lia|lia|].
  do 2 eexists. split; [done|]. split; [done|]. intros Hr. destruct (Hl Hr) as (r & ? & ?). exists r. split; [lia|done].
Qed.

Lemma rehashing_size d m : holds hash d m → dictIsRehashing d = true →
  d.(ht0).(size_) = Z.of_nat (length d.(ht0).(table)) ∧ (0 ≤ d.(rehashidx))%Z.
Proof.
  intros Hh Hr. destruct (keeps_moving hash _ _ Hh Hr) as (H0 & _ & Hx & _). split; [|done].
  by rewrite (h_length _ _ H0).
Qed.

(** C24. [dictRehashMilliseconds] ends after any such run, whatever the clock
    says, and every key is found with the same value before and after; if the
    clock never ends it, it returns with the move complete. *)
Theorem dict_rehash_ends ops late :
  (Z.of_nat (length ops) ≤ 2 ^ 62)%Z →
  ∃ answers d n d', dict_run ops dictCreate = Some (answers, d) ∧
    dictRehashMilliseconds hash late d = Some (n, d') ∧
    (∀ k, ∃ d1 d2, dictFind hash d k = Some ((map_run ops ∅).2 !! k, d1) ∧
                   dictFind hash d' k = Some ((map_run ops ∅).2 !! k, d2)) ∧
    ((∀ r, late r = false) → dictIsRehashing d' = false).
Proof.
  intros Hl. destruct (dict_run_spec ops dictCreate ∅ dictCreate_holds) as (d & Hr & Hh); [rewrite map_size_empty; lia|].
  destruct (rehash_ms_spec (S (S (length d.(ht0).(table)))) late 0 0 d _ Hh) as (n & d' & Hms & Hh' & Hla); [|lia|].
  { intros Hre. pose proof (rehashing_size _ _ Hh Hre). lia. }
  exists (map_run ops ∅).1, d, n, d'. split; [done|]. split; [done|]. split.
  - intros k. destruct (dictFind_spec hash d _ k Hh) as (d1 & ? & _), (dictFind_spec hash d' _ k Hh') as (d2 & ? & _). by exists d1, d2.
  - intros Hnl. destruct (dictIsRehashing d'); [|done]. destruct (Hla eq_refl) as (r & _ & Hr'). by rewrite Hnl in Hr'.
Qed.

(** C18. The hash table of Redis ([dict.c]) is a finite map.  For every run of
    at most 2^62 calls of [dictAdd], [dictReplace], [dictFind], [dictDelete],
    [dictUnlink], [dictResize], [dictRehash] and [dictEmpty] on a new
    dictionary, whatever the hash function is and whether resizing is allowed
    or not at each call: no call reads or writes outside a table, the assertion
    of [dictRehash] holds, every answer is the one of the same call on the map
    and [dictSize] is the number of its keys; growing, shrinking and moving
    buckets one by one is never seen.  An iterator, safe or not, visits every
    pair of the map once, in both tables, and leaves the dictionary as it
    was. *)
Theorem dict_refines_map ops :
  (Z.of_nat (length ops) ≤ 2 ^ 62)%Z →
  ∃ d, dict_run ops dictCreate = Some ((map_run ops ∅).1, d) ∧
    dictSize d = Z.of_nat (size (map_run ops ∅).2) ∧
    ∀ safe fuel n, length d.(ht0).(table) + length d.(ht1).(table) + 2 ≤ fuel → size (map_run ops ∅).2 < n →
      ∃ l, iterate fuel n (if safe : bool then dictGetSafeIterator else dictGetIterator) d = Some (l, d) ∧
           l ≡ₚ map_to_list (map_run ops ∅).2.
Proof.
  intros Hl. destruct (dict_run_spec ops dictCreate ∅ dictCreate_holds) as (d & Hr & Hh); [rewrite map_size_empty; lia|].
  exists d. split; [done|]. split; [by rewrite (dictSize_keeps _ _ _ Hh), length_map_to_list|].
  intros safe fuel n Hf Hn. exists (contents d). split; [|apply Hh].
  apply (iterate_all hash); [apply Hh|done|]. by rewrite (Permutation_length (proj2 Hh)), length_map_to_list.
Qed.
End runs.

(** ** Runs of integers *)

Definition low_bits (k : Z) : Z := Z.land k (2 ^ 64 - 1).
Definition some_ops : list (bool * dict_op Z Z) :=
  ((λ k, (true, OAdd (Z.of_nat k) (Z.of_nat (k * k)))) <$> seq 0 9) ++
  [(true, ODelete 3%Z); (false, OReplace 4%Z 99%Z); (true, OFind 4%Z); (true, OFind 3%Z); (true, OAdd 5%Z 0%Z)].

Lemma dict_refines_map_witness :
  (Z.of_nat (length some_ops) ≤ 2 ^ 62)%Z ∧
  ∃ d, dict_run low_bits some_ops dictCreate =
         Some (replicate 9 (Answer true) ++
               [Answer true; Answer false; Value (Some 99%Z); Value None; Answer false], d) ∧
       dictSize d = 8%Z ∧ dictIsRehashing d = true.
Proof.
  split; [done|]. destruct (dict_refines_map low_bits some_ops ltac:(done)) as (d & Hr & Hs & _).
  exists d. split; [rewrite Hr; f_equal; by vm_compute|]. split; [rewrite Hs; by vm_compute|].
  revert Hr. vm_compute. by intros [= <-].
Defined.

Lemma dict_rehash_ends_witness :
  ∃ answers d n d', dict_run low_bits some_ops dictCreate = Some (answers, d) ∧ dictIsRehashing d = true ∧
    dictRehashMilliseconds low_bits (λ _, false) d = Some (n, d') ∧ dictIsRehashing d' = false.
Proof.
  destruct (dict_rehash_ends low_bits some_ops (λ _, false) ltac:(done)) as (a & d & n & d' & Hr & Hm & _ & He).
  exists a, d, n, d'. split; [done|]. split; [revert Hr; vm_compute; by intros [= _ <-]|]. split; [done|]. by apply He.
Defined.
