(* ===== verification/DictScan.v ===== *)
(** * Scanning the hash table of Redis

    [dictScan] keeps no state but a cursor, and the table may grow, shrink and
    be moved between two calls.  Seen with its bits reversed the cursor only
    grows, and everything whose reversed hash lies below it has been emitted:
    so a key that stays in the table is never missed. *)
From S2P Require Import Prelude Dict DictProofs.
Import Dict.

(** ** Reversed bits *)

Abbreviation ulong v := (0 ≤ v < 2 ^ 64)%Z.

Lemma to_ulong_range z : ulong (to_ulong z).
Proof. unfold to_ulong. apply Z.mod_pos_bound. lia. Qed.

Lemma to_ulong_id z : ulong z → to_ulong z = z.
Proof. apply Z.mod_small. Qed.

Lemma testbit_ulong v i : ulong v → (64 ≤ i)%Z → Z.testbit v i = false.
Proof.
  intros Hv Hi. destruct (decide (v = 0)%Z) as [->|Hne]; [apply Z.bits_0|].
  apply Z.bits_above_log2; [lia|]. apply Z.log2_lt_pow2; [lia|].
  assert (2 ^ 64 ≤ 2 ^ i)%Z by (apply Z.pow_le_mono_r; lia). lia.
Qed.

Lemma ulong_bits v : (0 ≤ v)%Z → (∀ i, (64 ≤ i)%Z → Z.testbit v i = false) → ulong v.
Proof.
  intros Hv Hb. split; [done|]. destruct (decide (v = 0)%Z) as [->|Hne]; [lia|].
  apply Z.log2_lt_pow2; [lia|]. apply Z.nle_gt. intros Hle. pose proof (Z.bit_log2 v ltac:(lia)) as E. by rewrite Hb in E.
Qed.

Lemma ulong_ext v w : ulong v → ulong w → (∀ i, (0 ≤ i < 64)%Z → Z.testbit v i = Z.testbit w i) → v = w.
Proof.
  intros Hv Hw Hb. apply Z.bits_inj'. intros i Hi. destruct (Z.lt_ge_cases i 64); [by apply Hb|].
  by rewrite !testbit_ulong.
Qed.

Lemma testbit_to_ulong v i : (0 ≤ i < 64)%Z → Z.testbit (to_ulong v) i = Z.testbit v i.
Proof. intros Hi. unfold to_ulong. by rewrite Z.mod_pow2_bits_low by lia. Qed.

Lemma testbit_not m i : (0 ≤ i < 64)%Z → Z.testbit (ulong_not m) i = negb (Z.testbit m i).
Proof.
  intros Hi. unfold ulong_not. rewrite Z.lxor_spec. change (2 ^ 64 - 1)%Z with (Z.ones 64).
  rewrite Z.ones_spec_low by lia. apply xorb_true_r.
Qed.

Lemma swap_bit s mask v i :
  (0 ≤ i < 64)%Z → (0 ≤ s)%Z → (0 ≤ mask)%Z → 
  Z.testbit (swap_blocks s mask v) i = if Z.testbit mask i then Z.testbit v (i + s) else Z.testbit v (i - s).
Proof.
  intros Hi Hs Hm. unfold swap_blocks. rewrite Z.lor_spec, !Z.land_spec, testbit_not, testbit_to_ulong by lia.
  rewrite Z.shiftr_spec, Z.shiftl_spec by lia. destruct (Z.testbit mask i); cbn [negb].
  - by rewrite andb_true_r, andb_false_r, orb_false_r.
  - by rewrite andb_true_r, andb_false_r.
Qed.

(** The index a bit comes from, if all steps stay inside the word. *)
Fixpoint source_loop (fuel : nat) (s mask i : Z) : option Z :=
  match fuel with
  | 0%nat => Some i
  | S fuel =>
      let s := Z.shiftr s 1 in
      if (s >? 0)%Z then
        let mask := Z.lxor mask (to_ulong (Z.shiftl mask s)) in
        j ← source_loop fuel s mask i;
        if ((0 <=? j) && (j <? 64))%Z then Some (if Z.testbit mask j then j + s else j - s)%Z else None
      else Some i
  end.

Lemma rev_loop_bit fuel : ∀ s mask v i j,
  source_loop fuel s mask i = Some j → (0 ≤ s)%Z → (0 ≤ mask)%Z →
  Z.testbit (rev_loop fuel s mask v) i = Z.testbit v j.
Proof.
  induction fuel as [|fuel IH]; intros s mask v i j Hj Hs Hm; cbn [source_loop rev_loop] in *; [by simplify_eq|].
  destruct (Z.gtb_spec (Z.shiftr s 1) 0) as [Hpos|]; [|by simplify_eq].
  set (mask' := Z.lxor mask (to_ulong (Z.shiftl mask (Z.shiftr s 1)))) in *.
  assert (0 ≤ mask')%Z by (apply Z.lxor_nonneg; pose proof (to_ulong_range (Z.shiftl mask (Z.shiftr s 1))); lia).
  destruct (source_loop fuel (Z.shiftr s 1) mask' i) as [j'|] eqn:Ej; [|done]. cbn [mbind option_bind] in Hj.
  destruct ((0 <=? j') && (j' <? 64))%Z eqn:Hr; [|done]. apply andb_true_iff in Hr as [H1%Z.leb_le H2%Z.ltb_lt].
  injection Hj as <-. rewrite (IH _ _ _ _ _ Ej) by lia. rewrite swap_bit by lia. by destruct (Z.testbit mask' j').
Qed.

Lemma rev_bits_bit v i : (0 ≤ i < 64)%Z → Z.testbit (rev_bits v) i = Z.testbit v (63 - i).
Proof.
  intros Hi. apply rev_loop_bit; [|lia|lia].
  assert (forallb (λ n, bool_decide (source_loop 7 64 (2 ^ 64 - 1) (Z.of_nat n) = Some (63 - Z.of_nat n)%Z)) (seq 0 64) = true) as H
    by by vm_compute.
  pose proof (forallb_below _ _ H (Z.to_nat i) ltac:(lia)) as Hn. apply bool_decide_eq_true in Hn. by rewrite Z2Nat.id in Hn by lia.
Qed.

Lemma swap_range s mask v : ulong v → (0 ≤ s)%Z → ulong mask → ulong (swap_blocks s mask v).
Proof.
  intros Hv Hs Hm. unfold swap_blocks. pose proof (to_ulong_range (Z.shiftl v s)) as Hu. apply ulong_bits.
  - apply Z.lor_nonneg. split; apply Z.land_nonneg; [right; lia|left; lia].
  - intros i Hi. rewrite Z.lor_spec, !Z.land_spec, (testbit_ulong mask), (testbit_ulong (to_ulong _)) by done. by rewrite andb_false_r.
Qed.

Lemma rev_bits_range v : ulong v → ulong (rev_bits v).
Proof.
  intros Hv. unfold rev_bits. assert (∀ fuel s mask v, ulong v → (0 ≤ s)%Z → ulong mask → ulong (rev_loop fuel s mask v)) as H; [|by apply H].
  clear. induction fuel as [|fuel IH]; intros s mask v Hv Hs Hm; [done|]. cbn [rev_loop].
  destruct (Z.gtb_spec (Z.shiftr s 1) 0); [|done].
  assert (ulong (Z.lxor mask (to_ulong (Z.shiftl mask (Z.shiftr s 1))))) as Hm'.
  { pose proof (to_ulong_range (Z.shiftl mask (Z.shiftr s 1))). apply ulong_bits; [apply Z.lxor_nonneg; lia|].
    intros i Hi. by rewrite Z.lxor_spec, !testbit_ulong. }
  apply IH; [|lia|done]. apply swap_range; [done|lia|done].
Qed.

Lemma rev_bits_twice v : ulong v → rev_bits (rev_bits v) = v.
Proof.
  intros Hv. apply ulong_ext; [by apply rev_bits_range, rev_bits_range|done|]. intros i Hi.
  rewrite !rev_bits_bit by lia. f_equal. lia.
Qed.

(** ** The cursor, reversed *)

(** From here on only the lemmas above are used of it. *)
#[local] Opaque rev_bits.
#[local] Strategy opaque [rev_bits].

Lemma glue_bits a k i : (0 ≤ k)%Z → (0 ≤ i)%Z →
  Z.testbit (a * 2 ^ k + Z.ones k) i = if (i <? k)%Z then true else Z.testbit a (i - k).
Proof.
  intros Hk Hi. pose proof (Z.pow_pos_nonneg 2 k ltac:(lia) Hk) as Hp. rewrite Z.ones_equiv. destruct (Z.ltb_spec i k).
  - rewrite <- (Z.mod_pow2_bits_low _ k) by lia. rewrite Z.add_comm, Z.mod_add, Z.mod_small by lia.
    rewrite <- Z.ones_equiv. apply Z.ones_spec_low. lia.
  - replace i with (i - k + k)%Z at 1 by lia. rewrite <- Z.div_pow2_bits by lia.
    by rewrite Z.div_add_l, Z.div_small, Z.add_0_r by lia.
Qed.

Lemma mask_bit n i : (0 ≤ n)%Z → (0 ≤ i)%Z → Z.testbit (2 ^ n - 1) i = (i <? n)%Z.
Proof.
  intros Hn Hi. replace (2 ^ n - 1)%Z with (Z.ones n) by (rewrite Z.ones_equiv; lia). destruct (Z.ltb_spec i n).
  - apply Z.ones_spec_low. lia.
  - apply Z.ones_spec_high. lia.
Qed.

(** The end of the block of [2 ^ (64 - n)] reversed hashes around [r]. *)
Definition block_end (n r : Z) : Z := ((r / 2 ^ (64 - n) + 1) * 2 ^ (64 - n))%Z.

Lemma block_end_bounds n r : (0 ≤ n ≤ 63)%Z → ulong r → (r < block_end n r ≤ 2 ^ 64)%Z.
Proof.
  intros Hn Hr. unfold block_end. pose proof (Z.pow_pos_nonneg 2 (64 - n) ltac:(lia) ltac:(lia)) as Hp.
  pose proof (Z.div_mod r (2 ^ (64 - n)) ltac:(lia)). pose proof (Z.mod_pos_bound r (2 ^ (64 - n)) Hp). split; [lia|].
  assert (2 ^ 64 = 2 ^ n * 2 ^ (64 - n))%Z as E by (rewrite <- Z.pow_add_r by lia; f_equal; lia).
  assert (r / 2 ^ (64 - n) < 2 ^ n)%Z by (apply Z.div_lt_upper_bound; lia). nia.
Qed.

Lemma next_cursor_eq m v : next_cursor m v = rev_bits (to_ulong (rev_bits (Z.lor v (ulong_not m)) + 1)).
Proof. reflexivity. Qed.

Lemma next_cursor_range m v : ulong (next_cursor m v).
Proof. rewrite next_cursor_eq. apply rev_bits_range, to_ulong_range. Qed.

Lemma next_cursor_rev n v : (0 ≤ n ≤ 63)%Z → ulong v →
  rev_bits (next_cursor (2 ^ n - 1) v) = to_ulong (block_end n (rev_bits v)).
Proof.
  intros Hn Hv. rewrite next_cursor_eq, rev_bits_twice by apply to_ulong_range. unfold block_end.
  pose proof (rev_bits_range v Hv) as Hr. pose proof (Z.pow_pos_nonneg 2 (64 - n) ltac:(lia) ltac:(lia)) as Hp.
  assert (ulong (ulong_not (2 ^ n - 1))) as Hnot.
  { pose proof (Z.pow_pos_nonneg 2 n ltac:(lia) ltac:(lia)).
    assert (2 ^ n ≤ 2 ^ 63)%Z by (apply Z.pow_le_mono_r; lia). unfold ulong_not.
    apply ulong_bits; [apply Z.lxor_nonneg; lia|]. intros i Hi. by rewrite Z.lxor_spec, !testbit_ulong by lia. }
  assert (rev_bits (Z.lor v (ulong_not (2 ^ n - 1))) = rev_bits v / 2 ^ (64 - n) * 2 ^ (64 - n) + Z.ones (64 - n))%Z as E.
  { apply ulong_ext.
    - apply rev_bits_range, ulong_bits; [apply Z.lor_nonneg; lia|]. intros i Hi. by rewrite Z.lor_spec, !testbit_ulong.
    - pose proof (block_end_bounds n (rev_bits v) Hn Hr) as Hb. unfold block_end in Hb. rewrite Z.ones_equiv.
      pose proof (Z.div_pos (rev_bits v) (2 ^ (64 - n)) ltac:(lia) Hp). nia.
    - intros i Hi. rewrite glue_bits, rev_bits_bit, Z.lor_spec, testbit_not, mask_bit by lia.
      destruct (Z.ltb_spec i (64 - n)), (Z.ltb_spec (63 - i) n); try lia; cbn [negb].
      rewrite orb_false_r, Z.div_pow2_bits, rev_bits_bit by lia. f_equal. lia. }
  rewrite E, Z.ones_equiv. generalize (rev_bits v / 2 ^ (64 - n))%Z. intros a.
  by replace (a * 2 ^ (64 - n) + Z.pred (2 ^ (64 - n)) + 1)%Z with ((a + 1) * 2 ^ (64 - n))%Z by lia.
Qed.

(** Hashes of one block are in one bucket. *)
Lemma same_block n h v : (0 ≤ n ≤ 63)%Z → ulong h → ulong v →
  (rev_bits h / 2 ^ (64 - n) = rev_bits v / 2 ^ (64 - n))%Z → Z.land h (2 ^ n - 1) = Z.land v (2 ^ n - 1).
Proof.
  intros Hn Hh Hv E. apply Z.bits_inj'. intros i Hi. rewrite !Z.land_spec, mask_bit by lia.
  destruct (Z.ltb_spec i n); [|by rewrite !andb_false_r]. rewrite !andb_true_r.
  pose proof (f_equal (λ z, Z.testbit z (n - 1 - i)) E) as Eb. cbn beta in Eb.
  rewrite !Z.div_pow2_bits, !rev_bits_bit in Eb by lia. by replace (63 - (n - 1 - i + (64 - n)))%Z with i in Eb by lia.
Qed.

Lemma in_block n r p : (0 ≤ n ≤ 63)%Z → (r ≤ p < block_end n r)%Z → (p / 2 ^ (64 - n) = r / 2 ^ (64 - n))%Z.
Proof.
  intros Hn Hp. unfold block_end in Hp. pose proof (Z.pow_pos_nonneg 2 (64 - n) ltac:(lia) ltac:(lia)).
  pose proof (Z.div_mod r (2 ^ (64 - n)) ltac:(lia)). pose proof (Z.mod_pos_bound r (2 ^ (64 - n)) ltac:(lia)).
  apply Z.le_antisymm; [|by apply Z.div_le_mono; lia].
  assert (p / 2 ^ (64 - n) < r / 2 ^ (64 - n) + 1)%Z; [|lia]. apply Z.div_lt_upper_bound; lia.
Qed.

(** A cursor at the end of a block of the smaller table ends the [do] loop. *)
Lemma cursor_aligned n0 n1 v q : (0 ≤ n0 ≤ 63)%Z → (0 ≤ n1 ≤ 63)%Z → (n0 ≤ n1)%Z → ulong v →
  rev_bits v = to_ulong (q * 2 ^ (64 - n0)) → Z.land v (Z.lxor (2 ^ n0 - 1) (2 ^ n1 - 1)) = 0%Z.
Proof.
  intros Hn0 Hn1 Hle Hv E. apply Z.bits_inj'. intros i Hi. rewrite Z.land_spec, Z.lxor_spec, !mask_bit, Z.bits_0 by lia.
  destruct (Z.ltb_spec i n0), (Z.ltb_spec i n1); try lia; cbn [xorb]; rewrite ?andb_false_r; try done. rewrite andb_true_r.
  replace i with (63 - (63 - i))%Z by lia. rewrite <- rev_bits_bit by lia. rewrite E, testbit_to_ulong by lia.
  apply Z.mul_pow2_bits_low. lia.
Qed.

(** ** One call *)

Section scan.
Context {K V : Type} `{Countable K}.
Variable hash : K → Z.
(** [uint64_t]. *)
Hypothesis hash_range : ∀ k, ulong (hash k).

Implicit Types (h : dictht K V) (d : dict K V) (m : gmap K V).

Definition pos (k : K) : Z := rev_bits (hash k).

Lemma pos_range k : ulong (pos k).
Proof. apply rev_bits_range, hash_range. Qed.

Lemma ht_mask h : ht_ok hash h → ∃ n, (0 ≤ n ≤ 63)%Z ∧ h.(size_) = (2 ^ n)%Z ∧ h.(sizemask) = (2 ^ n - 1)%Z.
Proof. intros Hh. destruct (h_power _ _ Hh) as (n & Hn & Hs). exists n. by rewrite (h_mask _ _ Hh), Hs. Qed.

Lemma land_mask_range n v : (0 ≤ n)%Z → (0 ≤ Z.land v (2 ^ n - 1) < 2 ^ n)%Z.
Proof.
  intros Hn. replace (2 ^ n - 1)%Z with (Z.ones n) by (rewrite Z.ones_equiv; lia).
  rewrite Z.land_ones by done. apply Z.mod_pos_bound, Z.pow_pos_nonneg; lia.
Qed.

(** The bucket at the cursor holds everything of its block. *)
Lemma scan_bucket h n v : ht_ok hash h → (0 ≤ n ≤ 63)%Z → h.(size_) = (2 ^ n)%Z → ulong v →
  ∃ b, bucket h (Z.land v (2 ^ n - 1)) = Some b ∧ (∀ e, e ∈ b → e ∈ entries_of h) ∧
    ∀ k w, (k, w) ∈ entries_of h → (rev_bits v ≤ pos k < block_end n (rev_bits v))%Z → (k, w) ∈ b.
Proof.
  intros Hh Hn Hs Hv. assert (0 ≤ Z.land v (2 ^ n - 1) < h.(size_))%Z as Hr by (rewrite Hs; apply land_mask_range; lia).
  destruct (bucket_at hash h _ Hh Hr) as (b & Hb & Hl). exists b. split; [done|]. split.
  - intros e He. apply list_elem_of_In, in_concat. exists b. split; apply list_elem_of_In; [by eapply list_elem_of_lookup_2|done].
  - intros k w Hin Hp. apply (elem_of_entries hash) in Hin as (c & Hc & Hin); [|done].
    apply (in_block n) in Hp; [|done]. pose proof (same_block n (hash k) v Hn (hash_range k) Hv Hp) as E.
    unfold index_in in Hc. rewrite (h_mask _ _ Hh), Hs, E in Hc. congruence.
Qed.

(** The larger table, up to the end of the block of the smaller one. *)
Lemma scan_larger_spec h n0 n1 fuel : ht_ok hash h → h.(size_) = (2 ^ n1)%Z → (0 ≤ n0 ≤ n1)%Z → (n1 ≤ 63)%Z → ∀ v q,
  ulong v → (rev_bits v < q * 2 ^ (64 - n0) ≤ 2 ^ 64)%Z →
  (q * 2 ^ (64 - n0) - rev_bits v / 2 ^ (64 - n1) * 2 ^ (64 - n1) ≤ Z.of_nat fuel * 2 ^ (64 - n1))%Z →
  ∃ l v' e, scan_larger fuel h (2 ^ n0 - 1) (2 ^ n1 - 1) v = Some (l, v') ∧ ulong v' ∧
    rev_bits v' = to_ulong e ∧ (rev_bits v < e ≤ q * 2 ^ (64 - n0))%Z ∧ (∃ c, e = c * 2 ^ (64 - n1))%Z ∧
    (∀ x, x ∈ l → x ∈ entries_of h) ∧
    ∀ k w, (k, w) ∈ entries_of h → (rev_bits v ≤ pos k < e)%Z → (k, w) ∈ l.
Proof.
  intros Hh Hs Hn0 Hn1. assert (0 ≤ n1 ≤ 63)%Z as Hn by lia.
  pose proof (Z.pow_pos_nonneg 2 (64 - n1) ltac:(lia) ltac:(lia)) as Hp1.
  induction fuel as [|fuel IH]; intros v q Hv Hq Hf.
  { pose proof (Z.div_mod (rev_bits v) (2 ^ (64 - n1)) ltac:(lia)). pose proof (Z.mod_pos_bound (rev_bits v) (2 ^ (64 - n1)) Hp1). lia. }
  pose proof (rev_bits_range v Hv) as Hrv. pose proof (block_end_bounds n1 (rev_bits v) Hn Hrv) as He.
  cbn [scan_larger]. destruct (scan_bucket h n1 v Hh Hn Hs Hv) as (b & -> & Hsound & Hcov). cbn [mbind option_bind].
  pose proof (next_cursor_range (2 ^ n1 - 1) v) as Hv1. pose proof (next_cursor_rev n1 v Hn Hv) as Er.
  set (v1 := next_cursor (2 ^ n1 - 1) v) in *. set (e1 := block_end n1 (rev_bits v)) in *.
  assert (e1 ≤ q * 2 ^ (64 - n0))%Z as Hle.
  { unfold e1, block_end. replace (64 - n0)%Z with ((n1 - n0) + (64 - n1))%Z in * by lia. rewrite Z.pow_add_r in * by lia.
    rewrite Z.mul_assoc in *. apply Z.mul_le_mono_nonneg_r; [lia|]. apply Z.le_succ_l. apply Z.div_lt_upper_bound; lia. }
  destruct (Z.eqb_spec (Z.land v1 (Z.lxor (2 ^ n0 - 1) (2 ^ n1 - 1))) 0) as [Hz|Hnz].
  - exists b, v1, e1. split_and!; try done; try lia. by eexists.
  - assert (e1 ≠ q * 2 ^ (64 - n0))%Z as Hne.
    { intros E. apply Hnz. apply (cursor_aligned n0 n1 v1 q); [lia|lia|lia|done|]. by rewrite Er, E. }
    assert (to_ulong e1 = e1) as Eu by (apply to_ulong_id; lia). rewrite Eu in Er.
    destruct (IH v1 q Hv1) as (l & v' & e & E & Hv' & Erv & He' & Hc & Hsl & Hcl).
    + rewrite Er. lia.
    + rewrite Er. unfold e1, block_end. rewrite Z.div_mul by lia. unfold block_end in *. lia.
    + rewrite E. cbn [mbind option_bind]. rewrite Er in *. exists (b ++ l), v', e. split_and!; try done; try lia.
      * intros x [Hx|Hx]%elem_of_app; [by apply Hsound|by apply Hsl].
      * intros k w Hin Hp. apply elem_of_app. destruct (Z.lt_ge_cases (pos k) e1); [left|right].
        -- apply Hcov; [done|lia].
        -- apply Hcl; [done|lia].
Qed.

(** As many turns as the larger table has buckets, and one, are enough. *)
Lemma scan_fuel n0 n1 r (len : nat) : (0 ≤ n0 ≤ n1)%Z → (n1 ≤ 63)%Z → ulong r → Z.of_nat len = (2 ^ n1)%Z →
  ((r / 2 ^ (64 - n0) + 1) * 2 ^ (64 - n0) - r / 2 ^ (64 - n1) * 2 ^ (64 - n1) ≤ Z.of_nat (S len) * 2 ^ (64 - n1))%Z.
Proof.
  intros Hn0 Hn1 Hr Hl. pose proof (Z.pow_pos_nonneg 2 (64 - n1) ltac:(lia) ltac:(lia)) as Hp1.
  pose proof (Z.pow_pos_nonneg 2 (64 - n0) ltac:(lia) ltac:(lia)) as Hp0.
  pose proof (Z.div_mod r (2 ^ (64 - n1)) ltac:(lia)). pose proof (Z.mod_pos_bound r (2 ^ (64 - n1)) Hp1).
  pose proof (Z.div_mod r (2 ^ (64 - n0)) ltac:(lia)). pose proof (Z.mod_pos_bound r (2 ^ (64 - n0)) Hp0).
  assert (2 ^ (64 - n0) = 2 ^ (n1 - n0) * 2 ^ (64 - n1))%Z as E by (rewrite <- Z.pow_add_r by lia; f_equal; lia).
  assert (2 ^ (n1 - n0) ≤ 2 ^ n1)%Z by (apply Z.pow_le_mono_r; lia). nia.
Qed.

(** The exponent of the larger of the tables in use. *)
Definition log_size d : Z := Z.log2 (Z.max d.(ht0).(size_) d.(ht1).(size_)).

(** A call is defined, emits pairs of the dictionary, among them all those from
    the cursor to the next one, and the reversed cursor grows. *)
Lemma dictScan_spec d l v :
  keeps hash d l → ulong v →
  ∃ out v' e, dictScan d v = Some (out, v') ∧ ulong v' ∧
    rev_bits v' = to_ulong e ∧ (rev_bits v < e ≤ 2 ^ 64)%Z ∧ (l = [] → e = 2 ^ 64)%Z ∧
    (l ≠ [] → ∃ c, e = c * 2 ^ (64 - log_size d))%Z ∧
    (∀ x, x ∈ out → x ∈ contents d) ∧
    ∀ k w, (k, w) ∈ contents d → (rev_bits v ≤ pos k < e)%Z → (k, w) ∈ out.
Proof.
  intros Hk Hv. pose proof (rev_bits_range v Hv) as Hr. pose proof (dictSize_keeps _ _ _ Hk) as Hsz. unfold dictScan. rewrite Hsz.
  destruct (Z.eqb_spec (Z.of_nat (length l)) 0) as [Hz|Hz].
  { destruct l; [|done]. assert (contents d = []) as Hc by (by apply Permutation_nil, Permutation_sym, Hk).
    exists [], 0%Z, (2 ^ 64)%Z. rewrite Hc. split_and!; try done; try lia; try (by intros ? ?%not_elem_of_nil). }
  assert (l ≠ []) as Hl by by destruct l. pose proof (keeps_allocated _ _ _ Hk Hl) as H0.
  destruct (ht_mask _ H0) as (n & Hn & Hs & Hm). destruct (dictIsRehashing d) eqn:Hre; cbn [negb].
  - destruct (keeps_moving _ _ _ Hk Hre) as (_ & H1 & _). destruct (ht_mask _ H1) as (n' & Hn' & Hs' & Hm').
    assert (∃ t0 t1 n0 n1, (if (d.(ht0).(size_) >? d.(ht1).(size_))%Z then (d.(ht1), d.(ht0)) else (d.(ht0), d.(ht1))) = (t0, t1) ∧
      ht_ok hash t0 ∧ ht_ok hash t1 ∧ t0.(size_) = (2 ^ n0)%Z ∧ t1.(size_) = (2 ^ n1)%Z ∧ (0 ≤ n0 ≤ n1)%Z ∧ (n1 ≤ 63)%Z ∧
      log_size d = n1 ∧ entries_of t0 ++ entries_of t1 ≡ₚ contents d)
      as (t0 & t1 & n0 & n1 & -> & Ht0 & Ht1 & Hs0 & Hs1 & Hn0 & Hn1 & Hlog & Hent).
    { unfold log_size, contents. destruct (Z.gtb_spec d.(ht0).(size_) d.(ht1).(size_)) as [Hgt|Hle]; rewrite Hs, Hs' in *.
      - exists d.(ht1), d.(ht0), n', n. assert (n' < n)%Z by (apply (Z.pow_lt_mono_r_iff 2); lia).
        split_and!; try done; try lia; [|apply Permutation_app_comm]. rewrite Z.max_l by lia. apply Z.log2_pow2. lia.
      - exists d.(ht0), d.(ht1), n, n'. assert (n ≤ n')%Z by (apply (Z.pow_le_mono_r_iff 2); lia).
        split_and!; try done; try lia. rewrite Z.max_r by lia. apply Z.log2_pow2. lia. }
    rewrite (h_mask _ _ Ht0), (h_mask _ _ Ht1), Hs0, Hs1.
    destruct (scan_bucket t0 n0 v Ht0 ltac:(lia) Hs0 Hv) as (b & -> & Hsound & Hcov). cbn [mbind option_bind].
    pose proof (block_end_bounds n0 (rev_bits v) ltac:(lia) Hr) as Hb.
    destruct (scan_larger_spec t1 n0 n1 (S (length t1.(table))) Ht1 Hs1 Hn0 Hn1 v (rev_bits v / 2 ^ (64 - n0) + 1) Hv)
      as (out & v' & e & -> & Hv' & Er & He & Hc & Hsl & Hcl).
    + exact Hb.
    + by apply scan_fuel; [lia..|rewrite <- Hs1; apply (h_length _ _ Ht1)].
    + cbn [mbind option_bind]. exists (b ++ out), v', e. fold (block_end n0 (rev_bits v)) in He. rewrite Hlog.
      split_and!; try done; try lia.
      * intros x. rewrite <- Hent, !elem_of_app. intros [Hx|Hx]; [left; by apply Hsound|right; by apply Hsl].
      * intros k w. rewrite <- Hent, !elem_of_app. intros [Hx|Hx] Hp; [left; apply Hcov; [done|lia]|right; by apply Hcl].
  - assert (d.(ht1) = _dictReset) as H1 by (destruct Hk as [Hw _]; unfold wf in Hw; rewrite Hre in Hw; apply Hw).
    assert (contents d = entries_of d.(ht0)) as -> by (unfold contents; rewrite H1; cbn; apply app_nil_r).
    rewrite Hm. destruct (scan_bucket _ n v H0 Hn Hs Hv) as (b & -> & Hsound & Hcov). cbn [mbind option_bind].
    pose proof (block_end_bounds n (rev_bits v) Hn Hr) as Hb.
    exists b, (next_cursor (2 ^ n - 1) v), (block_end n (rev_bits v)).
    split; [done|]. split; [apply next_cursor_range|]. split; [by apply next_cursor_rev|]. split_and!; try done; try lia.
    intros _. unfold log_size. rewrite H1, Hs. cbn [size_ _dictReset].
    rewrite Z.max_l by (pose proof (Z.pow_pos_nonneg 2 n); lia). rewrite Z.log2_pow2 by lia. by eexists.
Qed.

Lemma log_size_range d l : keeps hash d l →
  (0 ≤ log_size d ≤ 63)%Z ∧ (2 ^ log_size d ≤ Z.max 1 (Z.max d.(ht0).(size_) d.(ht1).(size_)))%Z.
Proof.
  intros [Hw _]. unfold wf in Hw. unfold log_size. destruct (dictIsRehashing d).
  - destruct Hw as (H0 & H1 & _). destruct (ht_mask _ H0) as (n & Hn & -> & _), (ht_mask _ H1) as (n' & Hn' & -> & _).
    destruct (Z.max_spec (2 ^ n) (2 ^ n')) as [[_ ->]|[_ ->]]; rewrite Z.log2_pow2 by lia; (split; [lia|apply Z.le_max_r]).
  - destruct Hw as (H1 & [H0|H0]); rewrite H1; cbn [size_ _dictReset].
    + rewrite H0. by vm_compute.
    + destruct (ht_mask _ H0) as (n & Hn & -> & _). pose proof (Z.pow_pos_nonneg 2 n).
      rewrite Z.max_l, Z.log2_pow2 by lia. split; [lia|apply Z.le_max_r].
Qed.

(** The cursor is 0 again exactly at the end of the reversed hashes. *)
Lemma cursor_done v r e : ulong v → rev_bits v = to_ulong e → (0 ≤ r < e)%Z → (e ≤ 2 ^ 64)%Z → (v = 0 ↔ e = 2 ^ 64)%Z.
Proof.
  intros Hv E He He'. assert (rev_bits 0 = 0)%Z as R0 by by vm_compute. split.
  - intros ->. rewrite R0 in E. destruct (decide (e = 2 ^ 64)%Z); [done|]. rewrite to_ulong_id in E by lia. lia.
  - intros ->. assert (rev_bits v = 0)%Z as E' by (rewrite E; by vm_compute). rewrite <- (rev_bits_twice v Hv), E'. done.
Qed.

(** ** A scan *)

(** Between two calls the dictionary may be changed by any operations; the scan
    ends when the cursor is 0 again. *)
Fixpoint scan_run (batches : list (list (bool * dict_op K V))) d (v : Z) : option (list (K * V) * Z * dict K V) :=
  match batches with
  | [] => Some ([], v, d)
  | ops :: batches =>
      '(_, d) ← dict_run hash ops d;
      '(l, v) ← dictScan d v;
      if (v =? 0)%Z then Some (l, v, d)
      else '(l', v, d) ← scan_run batches d v; Some (l ++ l', v, d)
  end.

(** The key is there at every call; the pair was there at one of them. *)
Fixpoint stays (k : K) (batches : list (list (bool * dict_op K V))) m : Prop :=
  match batches with
  | [] => True
  | ops :: batches => let m := (map_run ops m).2 in is_Some (m !! k) ∧ stays k batches m
  end.
Fixpoint appears (e : K * V) (batches : list (list (bool * dict_op K V))) m : Prop :=
  match batches with
  | [] => False
  | ops :: batches => let m := (map_run ops m).2 in m !! e.1 = Some e.2 ∨ appears e batches m
  end.

Lemma map_run_size ops : ∀ m, size (map_run ops m).2 ≤ size m + length ops.
Proof.
  induction ops as [|o ops IH]; intros m; [cbn; lia|]. cbn [map_run length]. pose proof (map_exec_size o m).
  destruct (map_exec o m) as [a m1]. specialize (IH m1). destruct (map_run ops m1). cbn [fst snd] in *. lia.
Qed.

Lemma scan_run_spec batches : ∀ d m v,
  holds hash d m → ulong v → (Z.of_nat (size m) + Z.of_nat (length (concat batches)) ≤ 2 ^ 62)%Z →
  ∃ out v' d', scan_run batches d v = Some (out, v', d') ∧ ulong v' ∧ (∃ m', holds hash d' m') ∧ (batches = [] → v' = v) ∧
    (∀ e, e ∈ out → appears e batches m) ∧
    (v' = 0%Z → batches ≠ [] → ∀ k, stays k batches m → (rev_bits v ≤ pos k)%Z → ∃ w, (k, w) ∈ out).
Proof.
  induction batches as [|ops batches IH]; intros d m v Hh Hv Hs.
  { exists [], v, d. split; [done|]. split; [done|]. split; [by exists m|]. split; [done|]. split; [by intros ? ?%not_elem_of_nil|done]. }
  cbn [concat] in Hs. rewrite length_app in Hs. cbn [scan_run].
  destruct (dict_run_spec hash ops d m Hh ltac:(lia)) as (d1 & -> & Hh1). cbn [mbind option_bind].
  pose proof (map_run_size ops m) as Hms. set (m1 := (map_run ops m).2) in *.
  destruct (dictScan_spec d1 _ v Hh1 Hv) as (out & v1 & e & -> & Hv1 & Er & He & _ & _ & Hsound & Hcov). cbn [mbind option_bind].
  pose proof (rev_bits_range v Hv) as Hr. pose proof (cursor_done v1 (rev_bits v) e Hv1 Er ltac:(lia) ltac:(lia)) as Hdone.
  assert (∀ x, x ∈ out → m1 !! x.1 = Some x.2) as Hs1.
  { intros [k w] Hx. apply (holds_lookup hash d1 m1 k w Hh1). by apply Hsound. }
  assert (∀ k, is_Some (m1 !! k) → (rev_bits v ≤ pos k < e)%Z → ∃ w, (k, w) ∈ out) as Hc1.
  { intros k [w Hw] Hp. exists w. apply Hcov; [|done]. by apply (holds_lookup hash d1 m1 k w Hh1). }
  destruct (Z.eqb_spec v1 0) as [Hz|Hnz].
  - exists out, v1, d1. split; [done|]. split; [done|]. split; [by exists m1|]. split; [done|]. split; [intros x Hx; left; by apply Hs1|].
    intros _ _ k [Hk _] Hp. apply Hc1; [done|]. pose proof (pos_range k). apply Hdone in Hz. lia.
  - assert (e ≠ 2 ^ 64)%Z as He2 by (intros E; by apply Hnz, Hdone). rewrite to_ulong_id in Er by lia.
    destruct (IH d1 m1 v1 Hh1 Hv1 ltac:(lia)) as (out' & v' & d' & -> & Hv' & Hh' & Hnil & Hs' & Hc'). cbn [mbind option_bind].
    exists (out ++ out'), v', d'. split; [done|]. split; [done|]. split; [done|]. split; [done|]. split.
    + intros x [Hx|Hx]%elem_of_app; cbn; [left; by apply Hs1|right; by apply Hs'].
    + intros Hv0 _ k [Hk Hst] Hp. destruct (Z.lt_ge_cases (pos k) e) as [Hlt|Hge].
      * destruct (Hc1 k Hk ltac:(lia)) as [w Hw]. exists w. apply elem_of_app. by left.
      * destruct batches as [|b bs]; [rewrite Hnil in Hv0 by done; done|].
        destruct (Hc' Hv0 ltac:(done) k Hst ltac:(lia)) as [w Hw]. exists w. apply elem_of_app. by right.
Qed.

(** A dictionary that does not change is scanned in at most as many calls as
    the larger table has buckets. *)
Lemma scan_static d m n : holds hash d m → ∀ v,
  ulong v → 1 ≤ n →
  (2 ^ 64 - rev_bits v / 2 ^ (64 - log_size d) * 2 ^ (64 - log_size d) ≤ Z.of_nat n * 2 ^ (64 - log_size d))%Z →
  ∃ out, scan_run (replicate n []) d v = Some (out, 0%Z, d).
Proof.
  intros Hh. destruct (log_size_range d _ Hh) as [HL _]. set (L := log_size d) in *.
  pose proof (Z.pow_pos_nonneg 2 (64 - L) ltac:(lia) ltac:(lia)) as Hp.
  induction n as [|n IH]; intros v Hv H1 Hn; [lia|]. cbn [replicate scan_run dict_run mbind option_bind].
  destruct (dictScan_spec d _ v Hh Hv) as (out & v1 & e & -> & Hv1 & Er & He & Hnil & Hmul & _ & _). cbn [mbind option_bind].
  pose proof (rev_bits_range v Hv) as Hr. pose proof (cursor_done v1 (rev_bits v) e Hv1 Er ltac:(lia) ltac:(lia)) as Hdone.
  destruct (Z.eqb_spec v1 0) as [->|Hnz]; [by exists out|].
  assert (e ≠ 2 ^ 64)%Z as He2 by (intros E; by apply Hnz, Hdone). rewrite to_ulong_id in Er by lia.
  assert (map_to_list m ≠ []) as Hne by (intros E; by apply He2, Hnil). destruct (Hmul Hne) as [c Hc]. fold L in Hc.
  pose proof (Z.div_mod (rev_bits v) (2 ^ (64 - L)) ltac:(lia)). pose proof (Z.mod_pos_bound (rev_bits v) (2 ^ (64 - L)) Hp).
  assert (rev_bits v / 2 ^ (64 - L) < c)%Z by (apply Z.div_lt_upper_bound; lia).
  assert (rev_bits v1 / 2 ^ (64 - L) = c)%Z as Hq by (rewrite Er, Hc; apply Z.div_mul; lia).
  destruct (IH v1 Hv1) as [out' ->]; [|rewrite Hq; nia|cbn [mbind option_bind]; by eexists].
  destruct n; [|lia]. nia.
Qed.

(** C19. A scan of the hash table of Redis misses nothing.  Let [dictScan] be called
    again and again, from the cursor 0, and let the dictionary be changed
    between the calls by any operations, also by those that make it grow,
    shrink or move its buckets: when the cursor is 0 again, every key that was
    in the dictionary at every call has been emitted, and whatever was emitted
    was in the dictionary at one of the calls.  From any point on, as many calls
    as the larger table has buckets are enough to end the scan if the
    dictionary is not changed any more. *)
Theorem dict_scan_complete batches :
  (Z.of_nat (length (concat batches)) ≤ 2 ^ 62)%Z →
  ∃ out v d, scan_run batches dictCreate 0 = Some (out, v, d) ∧
    (∀ e, e ∈ out → appears e batches ∅) ∧
    (v = 0%Z → batches ≠ [] → ∀ k, stays k batches ∅ → ∃ w, (k, w) ∈ out) ∧
    ∀ n, 1 ≤ n → (Z.max d.(ht0).(size_) d.(ht1).(size_) ≤ Z.of_nat n)%Z →
      ∃ out', scan_run (replicate n []) d v = Some (out', 0%Z, d).
Proof.
  intros Hl. destruct (scan_run_spec batches dictCreate ∅ 0%Z (dictCreate_holds hash)) as (out & v & d & E & Hv & [m Hh] & _ & Hs & Hc);
    [lia|rewrite map_size_empty; lia|].
  exists out, v, d. split; [done|]. split; [done|]. split.
  - intros Hv0 Hb k Hst. apply Hc; [done..|]. assert (rev_bits 0 = 0)%Z as -> by by vm_compute. apply pos_range.
  - intros n H1 Hn. apply (scan_static d m n Hh v Hv H1). destruct (log_size_range d _ Hh) as [HL Hsz].
    pose proof (Z.div_pos (rev_bits v) (2 ^ (64 - log_size d)) ltac:(apply rev_bits_range; done) ltac:(apply Z.pow_pos_nonneg; lia)).
    pose proof (Z.pow_pos_nonneg 2 (64 - log_size d) ltac:(lia) ltac:(lia)).
    assert (2 ^ 64 = 2 ^ log_size d * 2 ^ (64 - log_size d))%Z as Ep by (rewrite <- Z.pow_add_r by lia; f_equal; lia).
    assert (2 ^ log_size d ≤ Z.of_nat n)%Z; [lia|nia].
Qed.
End scan.

(** Nine keys; between the calls the table grows, is moved and loses a key. *)
Definition some_batches : list (list (bool * dict_op Z Z)) :=
  [(λ k, (true, OAdd (Z.of_nat k) (Z.of_nat (k * k)))) <$> seq 0 9;
   [(true, OAdd 20%Z 1%Z); (true, ODelete 3%Z)]; [(true, ORehash 4)]; []; [(true, OFind 7%Z)]]
  ++ replicate 14 [].

Lemma dict_scan_complete_witness :
  ∃ out d, scan_run low_bits some_batches dictCreate 0 = Some (out, 0%Z, d) ∧ (∃ w, (8%Z, w) ∈ out) ∧ (5%Z, 25%Z) ∈ out.
Proof.
  assert (∀ k, ulong (low_bits k)) as Hr.
  { intros k. unfold low_bits. change (2 ^ 64 - 1)%Z with (Z.ones 64). rewrite Z.land_ones by lia. by apply Z.mod_pos_bound. }
  destruct (dict_scan_complete low_bits Hr some_batches) as (out & v & d & E & Hs & Hc & _); [by vm_compute|].
  assert (v = 0%Z) as ->.
  { revert E. vm_compute. by intros [= _ <- _]. }
  exists out, d. split; [done|]. split.
  - apply Hc; [done|done|]. vm_compute. by repeat (split; [by eexists|]).
  - destruct (Hc eq_refl ltac:(done) 5%Z) as [w Hw]; [vm_compute; by repeat (split; [by eexists|])|].
    pose proof (Hs _ Hw) as Ha. vm_compute in Ha.
    repeat (destruct Ha as [Ha|Ha]; [injection Ha as <-; exact Hw|]). destruct Ha.
Defined.
