(* ===== verification/SetType.v ===== *)
(** * The set type of Redis

    redis-5.0.10/src/t_set.c: a set of byte strings, kept as an integer set
    while all its elements are the decimal texts of 64-bit integers and there
    are not too many of them, and as a hash table afterwards; with
    [sdsfromlonglong] of sds.c, which prints the integers for the table, and
    [htNeedsResize] of server.c.  [None] is undefined behaviour or a failed
    [serverAssert]. *)
From S2P Require Import Prelude CString Intset RedisUtil Dict.

Module SetType.
Import Intset RedisUtil Dict.

(** ** Integers as strings (sds.c) *)

Definition SDS_LLSTR_SIZE : nat := 21.

(** The loop that stores the digits, the last one first: [p] and the array. *)
Fixpoint digits_loop (fuel : nat) (p v : Z) (s : bytes) : option (Z * bytes) :=
  match fuel with
  | 0 => None
  | S fuel =>
      s ← put p (ascii_of_N (Z.to_N (48 + v mod 10))) s;
      let v := (v / 10)%Z in
      if (v =? 0)%Z then Some ((p + 1)%Z, s) else digits_loop fuel (p + 1) v s
  end.

(** [while (s < p)], exchanging the characters at both ends. *)
Fixpoint reverse_loop (fuel : nat) (i p : Z) (s : bytes) : option bytes :=
  match fuel with
  | 0 => None
  | S fuel =>
      if (i <? p)%Z then
        aux ← s !! Z.to_nat i;
        c ← s !! Z.to_nat p;
        s ← put i c s;
        s ← put p aux s;
        reverse_loop fuel (i + 1) (p - 1) s
      else Some s
  end.

(** The length and the array; [-value] overflows for the smallest number.  20
    digits are enough for 64 bits. *)
Definition sdsll2str (s : bytes) (value : Z) : option (Z * bytes) :=
  if (value =? LLONG_MIN)%Z then None
  else
    '(p, s) ← digits_loop 20 0 (Z.abs value) s;
    '(p, s) ← (if (value <? 0)%Z then s ← put p "-"%char s; Some ((p + 1)%Z, s) else Some (p, s));
    s ← put p NUL s;
    let l := p in
    s ← reverse_loop 11 0 (p - 1) s;
    Some (l, s).

(** [buf] is what the array held before. *)
Definition sdsfromlonglong (buf : bytes) (value : Z) : option bytes :=
  '(len, buf) ← sdsll2str buf value; Some (take (Z.to_nat len) buf).

(** ** The sets *)

Definition isSdsRepresentableAsLongLong (s : bytes) : option Z := string2ll s.

(** An object of type OBJ_SET, by its encoding. *)
Inductive robj :=
| OBJ_ENCODING_INTSET (ptr : intset)
| OBJ_ENCODING_HT (ptr : dict bytes unit).

Section sets.
(** [dictSdsHash], [dict_can_resize], the bytes of new memory, the array of
    [sdsfromlonglong] and [server.set_max_intset_entries]. *)
Variable hash : bytes → Z.
Variable can_resize : bool.
Variable junk : Z.
Variable stack : bytes.
Variable set_max_intset_entries : Z.

Definition createSetObject : robj := OBJ_ENCODING_HT dictCreate.
Definition createIntsetObject : robj := OBJ_ENCODING_INTSET intsetNew.

Definition setTypeCreate (value : bytes) : robj :=
  match isSdsRepresentableAsLongLong value with Some _ => createIntsetObject | None => createSetObject end.

(** Enough for the search in a set: one turn per element and one more. *)
Definition search_fuel (s : intset) : nat := S (Z.to_nat (intsetLen s)).

(** The loop of [setTypeConvert] over the elements, from index [i]. *)
Fixpoint convert_loop (fuel : nat) (s : intset) (i : Z) (d : dict bytes unit) : option (dict bytes unit) :=
  match fuel with
  | 0 => None
  | S fuel =>
      intele ← intsetGet s i;
      match intele with
      | None => Some d
      | Some intele =>
          element ← sdsfromlonglong stack intele;
          '(ok, d) ← dictAdd hash can_resize d element tt;
          if (ok : bool) then convert_loop fuel s (i + 1) d else None   (* serverAssert *)
      end
  end.

(** [setTypeConvert(setobj, OBJ_ENCODING_HT)] on an integer set. *)
Definition setTypeConvert (s : intset) : option robj :=
  '(_, d) ← dictExpand dictCreate (intsetLen s);
  d ← convert_loop (search_fuel s) s 0 d;
  Some (OBJ_ENCODING_HT d).

Definition setTypeAdd (subject : robj) (value : bytes) : option (bool * robj) :=
  match subject with
  | OBJ_ENCODING_HT ht =>
      '(new, ht) ← dictAdd hash can_resize ht value tt;
      Some (new, OBJ_ENCODING_HT ht)
  | OBJ_ENCODING_INTSET s =>
      match isSdsRepresentableAsLongLong value with
      | Some llval =>
          '(s, success) ← intsetAdd junk (search_fuel s) s llval;
          if (success : bool) then
            subject ← (if (intsetLen s >? set_max_intset_entries)%Z then setTypeConvert s
                       else Some (OBJ_ENCODING_INTSET s));
            Some (true, subject)
          else Some (false, OBJ_ENCODING_INTSET s)
      | None =>
          subject ← setTypeConvert s;
          match subject with
          | OBJ_ENCODING_HT ht =>
              '(ok, ht) ← dictAdd hash can_resize ht value tt;
              if (ok : bool) then Some (true, OBJ_ENCODING_HT ht) else None   (* serverAssert *)
          | OBJ_ENCODING_INTSET _ => None
          end
      end
  end.

Definition HASHTABLE_MIN_FILL : Z := 10.
Definition htNeedsResize (d : dict bytes unit) : bool :=
  let size := (d.(ht0).(size_) + d.(ht1).(size_))%Z in
  let used := dictSize d in
  (size >? DICT_HT_INITIAL_SIZE)%Z && (used * 100 / size <? HASHTABLE_MIN_FILL)%Z.

Definition setTypeRemove (setobj : robj) (value : bytes) : option (bool * robj) :=
  match setobj with
  | OBJ_ENCODING_HT d =>
      '(ok, d) ← dictDelete hash d value;
      if (ok : bool) then
        d ← (if htNeedsResize d then snd <$> dictResize can_resize d else Some d);
        Some (true, OBJ_ENCODING_HT d)
      else Some (false, OBJ_ENCODING_HT d)
  | OBJ_ENCODING_INTSET s =>
      match isSdsRepresentableAsLongLong value with
      | Some llval =>
          '(s, success) ← intsetRemove junk (search_fuel s) s llval;
          Some (success, OBJ_ENCODING_INTSET s)
      | None => Some (false, setobj)
      end
  end.

(** A search in a table moves a bucket of it, so that the set is a result
    too. *)
Definition setTypeIsMember (subject : robj) (value : bytes) : option (bool * robj) :=
  match subject with
  | OBJ_ENCODING_HT d =>
      '(e, d) ← dictFind hash d value; Some (bool_decide (is_Some e), OBJ_ENCODING_HT d)
  | OBJ_ENCODING_INTSET s =>
      match isSdsRepresentableAsLongLong value with
      | Some llval => b ← intsetFind (search_fuel s) s llval; Some (b, subject)
      | None => Some (false, subject)
      end
  end.

(** The iterator, by the encoding of its set; [None] is the end (-1).  The
    integer of an element is printed by [setTypeNextObject]. *)
Inductive setTypeIterator :=
| Iter_ht (di : dictIterator bytes unit)
| Iter_intset (ii : Z).

Definition setTypeInitIterator (subject : robj) : setTypeIterator :=
  match subject with
  | OBJ_ENCODING_HT _ => Iter_ht dictGetIterator
  | OBJ_ENCODING_INTSET _ => Iter_intset 0
  end.

Definition setTypeNext (fuel : nat) (si : setTypeIterator) (subject : robj) :
    option (option (bytes + Z) * setTypeIterator) :=
  match si, subject with
  | Iter_ht di, OBJ_ENCODING_HT d =>
      '(de, di, _) ← dictNext fuel di d;
      Some (match de with Some e => Some (inl e.1) | None => None end, Iter_ht di)
  | Iter_intset ii, OBJ_ENCODING_INTSET s =>
      llele ← intsetGet s ii;
      Some (match llele with Some v => Some (inr v) | None => None end, Iter_intset (ii + 1))
  | _, _ => None
  end.

Definition setTypeNextObject (fuel : nat) (si : setTypeIterator) (subject : robj) :
    option (option bytes * setTypeIterator) :=
  '(e, si) ← setTypeNext fuel si subject;
  match e with
  | None => Some (None, si)
  | Some (inr intele) => s ← sdsfromlonglong stack intele; Some (Some s, si)
  | Some (inl sdsele) => Some (Some sdsele, si)
  end.

Definition setTypeSize (subject : robj) : Z :=
  match subject with
  | OBJ_ENCODING_HT d => dictSize d
  | OBJ_ENCODING_INTSET s => intsetLen s
  end.
End sets.
End SetType.
