(* ===== verification/SetTypeProofs.v ===== *)
(** * The set type of Redis is a set of strings

    Whatever the encoding, and across the change from one to the other: the
    operations of t_set.c are those of a set of byte strings. *)
From S2P Require Import Prelude CString Intset RedisUtil Dict DictProofs IntsetProofs RedisUtilProofs SetType.
Import RedisUtil SetType.

(** ** Integers as strings *)

Lemma digits_loop_spec fuel v a gap b :
  (0 ≤ v)%Z → length gap = length (dec v) → length gap ≤ fuel →
  digits_loop fuel (Z.of_nat (length a)) v (a ++ gap ++ b) =
    Some (Z.of_nat (length a + length gap), a ++ rev (dec v) ++ b).
Proof.
  revert v a gap. induction fuel as [|fuel IH]; intros v a gap Hv Hg Hf.
  - destruct (decide (v = 0)%Z) as [->|]; [by rewrite dec_0 in Hg; cbn in Hg; lia|].
    destruct (dec_starts v) as (? & ? & E & _); [lia|]. rewrite E in Hg. cbn in Hg. lia.
  - cbn [digits_loop]. fold (digit_char (v mod 10)). pose proof (Z.mod_pos_bound v 10 ltac:(lia)) as Hm.
    destruct gap as [|x gap]; [destruct (decide (v < 10)%Z); [by rewrite dec_digit in Hg by lia|
      destruct (dec_starts v) as (? & ? & E & _); [lia|]; by rewrite E in Hg]|].
    cbn [app]. rewrite put_app by done. cbn [mbind option_bind].
    destruct (Z.eqb_spec (v / 10) 0) as [Hz|Hz].
    + assert (v < 10)%Z by (apply Z.div_small_iff in Hz; lia). rewrite dec_digit in Hg |- * by lia.
      destruct gap; [|done]. rewrite Z.mod_small by lia. cbn [rev app length]. do 2 f_equal. lia.
    + assert (0 < v / 10)%Z by (pose proof (Z.div_pos v 10); lia).
      assert (dec v = dec (v / 10) ++ [digit_char (v mod 10)]) as E.
      { rewrite <- dec_snoc by lia. f_equal. pose proof (Z.div_mod v 10). lia. }
      rewrite E, length_app in Hg. cbn [length] in *.
      replace (a ++ digit_char (v mod 10) :: gap ++ b) with ((a ++ [digit_char (v mod 10)]) ++ gap ++ b) by by rewrite <- app_assoc.
      replace (Z.of_nat (length a) + 1)%Z with (Z.of_nat (length (a ++ [digit_char (v mod 10)]))) by (rewrite length_app; cbn; lia).
      rewrite IH by lia. rewrite E, rev_app_distr, length_app. cbn [rev app length]. rewrite <- !app_assoc. cbn [app].
      do 2 f_equal. lia.
Qed.

Lemma reverse_loop_spec fuel a m b :
  length m < 2 * fuel →
  reverse_loop fuel (Z.of_nat (length a)) (Z.of_nat (length a + length m) - 1) (a ++ m ++ b) = Some (a ++ rev m ++ b).
Proof.
  revert a m b. induction fuel as [|fuel IH]; intros a m b Hl; [lia|]. cbn [reverse_loop].
  destruct m as [|x m]; [|destruct m as [|y m _] using rev_ind].
  - rewrite (proj2 (Z.ltb_ge _ _)) by (cbn [length]; lia). done.
  - rewrite (proj2 (Z.ltb_ge _ _)) by (cbn [length]; lia). done.
  - cbn [length] in *. rewrite length_app in *. cbn [length] in *. rewrite (proj2 (Z.ltb_lt _ _)) by lia. rewrite Nat2Z.id. cbn [app].
    rewrite (list_lookup_middle a _ x (length a)) by done. cbn [mbind option_bind].
    replace (Z.of_nat (length a + S (length m + 1)) - 1)%Z with (Z.of_nat (length (a ++ x :: m)))
      by (rewrite length_app; cbn [length]; lia). rewrite Nat2Z.id.
    replace (a ++ x :: (m ++ [y]) ++ b) with ((a ++ x :: m) ++ y :: b) by (rewrite <- !app_assoc; done).
    rewrite list_lookup_middle by done. cbn [mbind option_bind].
    replace ((a ++ x :: m) ++ y :: b) with (a ++ x :: m ++ y :: b) by (by rewrite <- app_assoc).
    rewrite put_app by done. cbn [mbind option_bind].
    replace (a ++ y :: m ++ y :: b) with ((a ++ y :: m) ++ y :: b) by (by rewrite <- app_assoc).
    rewrite put_app by (rewrite !length_app; done). cbn [mbind option_bind].
    replace ((a ++ y :: m) ++ x :: b) with ((a ++ [y]) ++ m ++ x :: b) by (by rewrite <- !app_assoc).
    replace (Z.of_nat (length a) + 1)%Z with (Z.of_nat (length (a ++ [y]))) by (rewrite length_app; cbn; lia).
    replace (Z.of_nat (length (a ++ x :: m)) - 1)%Z with (Z.of_nat (length (a ++ [y]) + length m) - 1)%Z
      by (rewrite !length_app; cbn [length]; lia).
    rewrite IH by lia. f_equal. cbn [rev]. rewrite rev_app_distr. cbn [rev app]. by rewrite <- !app_assoc.
Qed.

(** A number of 64 bits that [sdsll2str] can negate. *)
Definition printable (v : Z) : Prop := (LLONG_MIN < v ≤ LLONG_MAX)%Z.

Lemma length_dec_abs v : printable v → length (dec (Z.abs v)) ≤ 19.
Proof.
  unfold printable, LLONG_MIN, LLONG_MAX. intros Hv. destruct (decide (v = 0)%Z) as [->|Hne]; [change (length (dec (Z.abs 0))) with 1; lia|].
  destruct (dec_bounds (Z.abs v)) as [Hlo _]; [lia|].
  destruct (decide (length (dec (Z.abs v)) ≤ 19)) as [|Hgt]; [done|].
  assert (10 ^ 19 ≤ 10 ^ (Z.of_nat (length (dec (Z.abs v))) - 1))%Z by (apply Z.pow_le_mono_r; lia). lia.
Qed.

Lemma sdsfromlonglong_spec buf v :
  length buf = SDS_LLSTR_SIZE → printable v → sdsfromlonglong buf v = Some (dec v).
Proof.
  intros Hb Hv. pose proof (length_dec_abs v Hv) as Hl. unfold sdsfromlonglong, sdsll2str.
  unfold SDS_LLSTR_SIZE in Hb. destruct (Z.eqb_spec v LLONG_MIN) as [->|_]; [unfold printable in Hv; lia|].
  set (n := length (dec (Z.abs v))) in *.
  pose proof (digits_loop_spec 20 (Z.abs v) [] (take n buf) (drop n buf)) as Hd.
  cbn [app length Nat.add] in Hd. change (Z.of_nat 0) with 0%Z in Hd. rewrite take_drop, length_take in Hd. rewrite Hd by lia. clear Hd. cbn [mbind option_bind].
  replace (n `min` length buf) with n by lia.
  assert (length (rev (dec (Z.abs v))) = n) as Hr by by rewrite length_rev.
  assert (∀ t rest x, length t < 22 → put (Z.of_nat (length t)) NUL (t ++ x :: rest) = Some (t ++ NUL :: rest) ∧
            reverse_loop 11 0 (Z.of_nat (length t) - 1) (t ++ NUL :: rest) = Some (rev t ++ NUL :: rest)) as Hend.
  { intros t rest x Ht. split; [by apply put_app|]. apply (reverse_loop_spec 11 [] t (NUL :: rest)). lia. }
  destruct (drop n buf) as [|x [|y rest]] eqn:Hdr; [apply (f_equal length) in Hdr; rewrite length_drop in Hdr; cbn in Hdr; lia..|].
  destruct (Z.ltb_spec v 0) as [Hneg|Hpos].
  - rewrite (put_app _ x) by (by rewrite Hr). cbn [mbind option_bind].
    set (t := rev (dec (Z.abs v)) ++ ["-"%char]). assert (length t = n + 1) as Ht by (unfold t; rewrite length_app, Hr; done).
    replace (rev (dec (Z.abs v)) ++ "-"%char :: y :: rest) with (t ++ y :: rest) by (unfold t; by rewrite <- app_assoc).
    destruct (Hend t rest y) as [E1 E2]; [lia|].
    replace (Z.of_nat n + 1)%Z with (Z.of_nat (length t)) by lia. rewrite E1. cbn [mbind option_bind]. rewrite E2. cbn [mbind option_bind].
    assert (rev t = dec v) as -> by (unfold t; rewrite rev_app_distr, rev_involutive, (dec_neg v) by done;
      by replace (Z.abs v) with (- v)%Z by lia).
    f_equal. apply take_app_length'. rewrite Nat2Z.id, Ht, (dec_neg v) by done. cbn [length].
    unfold n. replace (Z.abs v) with (- v)%Z by lia. lia.
  - destruct (Hend (rev (dec (Z.abs v))) (y :: rest) x) as [E1 E2]; [lia|]. rewrite Hr in E1, E2. cbn [mbind option_bind]. rewrite E1. cbn [mbind option_bind].
    rewrite E2. cbn [mbind option_bind]. rewrite rev_involutive. replace (Z.abs v) with v by lia. f_equal. apply take_app_length'.
    unfold n. replace (Z.abs v) with v by lia. by rewrite Nat2Z.id.
Qed.

Lemma dec_inj_64 v w : printable v → printable w → dec v = dec w → v = w.
Proof.
  unfold printable. intros Hv Hw E. pose proof (string2ll_complete v ltac:(lia)) as H1. pose proof (string2ll_complete w ltac:(lia)) as H2.
  rewrite E in H1. congruence.
Qed.

(** ** What a set holds *)

Section sets.
Variable hash : bytes → Z.
Variable can_resize : bool.
Variable junk : Z.
Variable stack : bytes.
Variable max : Z.
Hypothesis stack_size : length stack = SDS_LLSTR_SIZE.
(** So that the size of an integer set does not wrap around. *)
Hypothesis max_small : (0 ≤ max < 2 ^ 29 - 1)%Z.

Definition set_of (o : robj) (X : gset bytes) : Prop :=
  match o with
  | OBJ_ENCODING_INTSET s =>
      ∃ vs, IntsetProofs.repr s vs ∧ Forall printable vs ∧ (Z.of_nat (length vs) ≤ max)%Z ∧ X = list_to_set (dec <$> vs)
  | OBJ_ENCODING_HT d => ∃ m : gmap bytes unit, DictProofs.holds hash d m ∧ X = dom m
  end.

(** The text of a number is in the set exactly when the number is. *)
Lemma elem_of_texts v vs : printable v → Forall printable vs → dec v ∈ (list_to_set (dec <$> vs) : gset bytes) ↔ v ∈ vs.
Proof.
  intros Hv Hvs. rewrite elem_of_list_to_set, list_elem_of_fmap. split; [|by exists v].
  intros (w & E & Hw). rewrite Forall_forall in Hvs. by rewrite (dec_inj_64 v w Hv (Hvs _ Hw) E).
Qed.

Lemma texts_perm vs us : vs ≡ₚ us → list_to_set (dec <$> vs) =@{gset bytes} list_to_set (dec <$> us).
Proof. intros Hp. apply list_to_set_perm_L. by rewrite Hp. Qed.

Lemma no_number value vs : isSdsRepresentableAsLongLong value = None → Forall printable vs →
  value ∉ (list_to_set (dec <$> vs) : gset bytes).
Proof.
  unfold isSdsRepresentableAsLongLong. intros Hn Hvs. rewrite elem_of_list_to_set, list_elem_of_fmap. intros (w & -> & Hw).
  rewrite Forall_forall in Hvs. specialize (Hvs _ Hw). unfold printable in Hvs. by rewrite string2ll_complete in Hn by lia.
Qed.

Lemma search_fuel_ok s vs : IntsetProofs.repr s vs → length vs < search_fuel s.
Proof. intros Hr. unfold search_fuel, Intset.intsetLen. rewrite (r_len _ _ Hr), Nat2Z.id. lia. Qed.

(** A key that is added to the table of a set. *)
Lemma dictAdd_dom (d : Dict.dict bytes unit) (m : gmap bytes unit) value :
  DictProofs.holds hash d m → (Z.of_nat (size m) ≤ 2 ^ 62)%Z →
  ∃ (d' : Dict.dict bytes unit) (m' : gmap bytes unit), Dict.dictAdd hash can_resize d value tt = Some (bool_decide (value ∉ dom m), d') ∧
    DictProofs.holds hash d' m' ∧ dom m' = {[value]} ∪ dom m ∧ size m' ≤ S (size m).
Proof.
  intros Hh Hs. destruct (dictAdd_spec hash can_resize d m value tt Hh Hs) as (d' & E & Hh' & _).
  exists d', (if decide (m !! value = None) then <[value := tt]> m else m). rewrite E.
  assert (value ∉ dom m ↔ m !! value = None) as Hd by apply not_elem_of_dom.
  split; [by rewrite (bool_decide_ext _ _ Hd)|]. split; [done|]. case_decide as Hn.
  - split; [by rewrite dom_insert_L|]. rewrite map_size_insert, Hn. done.
  - split; [|lia]. assert (value ∈ dom m) by (apply elem_of_dom; by apply not_eq_None_Some). set_solver.
Qed.

Lemma member_dom (m : gmap bytes unit) value : bool_decide (value ∈ dom m) = bool_decide (is_Some (m !! value)).
Proof. apply bool_decide_ext. apply elem_of_dom. Qed.

Lemma texts_NoDup vs : NoDup vs → Forall printable vs → NoDup (dec <$> vs).
Proof.
  intros Hn Hp. rewrite Forall_forall in Hp.
  induction vs as [|v vs IH]; [constructor|]. apply NoDup_cons in Hn as [Hv Hn]. cbn. constructor.
  - intros (w & E & Hw)%list_elem_of_fmap. apply dec_inj_64 in E; [by subst|apply Hp; left|apply Hp; by right].
  - apply IH; [done|]. intros x Hx. apply Hp. by right.
Qed.

Lemma size_texts vs : NoDup vs → Forall printable vs → size (list_to_set (dec <$> vs) : gset bytes) = length vs.
Proof. intros Hn Hp. by rewrite size_list_to_set, length_fmap by by apply texts_NoDup. Qed.

(** The loop of the conversion adds the elements that are left. *)
Lemma convert_loop_spec s vs : IntsetProofs.repr s vs → Forall printable vs → ∀ fuel i (d : Dict.dict bytes unit) (m : gmap bytes unit),
  i ≤ length vs → length vs - i < fuel →
  DictProofs.holds hash d m → dom m = (list_to_set (dec <$> take i vs) : gset bytes) → size m ≤ i →
  ∃ (d' : Dict.dict bytes unit) (m' : gmap bytes unit), convert_loop hash can_resize stack fuel s (Z.of_nat i) d = Some d' ∧ DictProofs.holds hash d' m' ∧
    dom m' = (list_to_set (dec <$> vs) : gset bytes).
Proof.
  intros Hr Hp. pose proof (r_small _ _ Hr) as Hsm. pose proof (sorted_NoDup _ (r_sorted _ _ Hr)) as Hnd.
  induction fuel as [|fuel IH]; intros i d m Hi Hf Hh Hd Hsz; [lia|]. cbn [convert_loop].
  rewrite (intsetGet_spec s vs (Z.of_nat i) Hr), Nat2Z.id by lia. cbn [mbind option_bind].
  destruct (vs !! i) as [v|] eqn:Hv.
  - assert (printable v) as Hpv by (by eapply (proj1 (Forall_lookup _ _) Hp)).
    rewrite (sdsfromlonglong_spec stack v stack_size Hpv). cbn [mbind option_bind].
    destruct (dictAdd_dom d m (dec v) Hh) as (d1 & m1 & E & Hh1 & Hd1 & Hs1); [lia|].
    assert (dec v ∉ dom m) as Hnew.
    { rewrite Hd, elem_of_texts by (done || by apply Forall_take). intros Hin.
      apply list_elem_of_lookup in Hin as [j Hj]. pose proof (lookup_lt_Some _ _ _ Hj) as Hlt. rewrite length_take in Hlt.
      rewrite lookup_take_lt in Hj by lia. pose proof (NoDup_lookup _ _ _ _ Hnd Hj Hv). lia. }
    rewrite E, bool_decide_true by done. cbn [mbind option_bind].
    replace (Z.of_nat i + 1)%Z with (Z.of_nat (S i)) by lia. pose proof (lookup_lt_Some _ _ _ Hv).
    apply (IH (S i) d1 m1); [lia|lia|done| |lia].
    rewrite Hd1, Hd, (take_S_r _ _ v) by done. rewrite fmap_app, list_to_set_app_L. cbn. set_solver.
  - apply lookup_ge_None in Hv. exists d, m. split; [done|]. split; [done|]. by rewrite Hd, take_ge.
Qed.

Lemma setTypeConvert_spec s vs :
  IntsetProofs.repr s vs → Forall printable vs →
  ∃ (d : Dict.dict bytes unit) (m : gmap bytes unit), setTypeConvert hash can_resize stack s = Some (OBJ_ENCODING_HT d) ∧ DictProofs.holds hash d m ∧
    dom m = (list_to_set (dec <$> vs) : gset bytes).
Proof.
  intros Hr Hp. unfold setTypeConvert. pose proof (r_small _ _ Hr) as Hsm.
  destruct (dictExpand_spec hash (Dict.dictCreate : Dict.dict bytes unit) _ (Intset.intsetLen s) (dictCreate_holds hash)) as (ok & d0 & -> & Hk & _).
  { unfold Intset.intsetLen. rewrite (r_len _ _ Hr). lia. }
  cbn [mbind option_bind]. pose proof (search_fuel_ok _ _ Hr) as Hf.
  destruct (convert_loop_spec s vs Hr Hp (search_fuel s) 0 d0 ∅) as (d & m & E & Hh & Hd); [lia|lia|exact Hk|done|done|].
  change (Z.of_nat 0) with 0%Z in E. rewrite E. cbn [mbind option_bind]. by exists d, m.
Qed.

(** ** The operations *)

Lemma setTypeCreate_spec value : set_of (setTypeCreate value) ∅.
Proof.
  unfold setTypeCreate. destruct (isSdsRepresentableAsLongLong value).
  - exists []. split; [apply repr_new|]. split; [constructor|]. split; [cbn; lia|done].
  - exists ∅. split; [apply dictCreate_holds|]. by rewrite dom_empty_L.
Qed.

(** The strings the set can hold: the smallest number cannot be printed. *)
Definition storable (value : bytes) : Prop := value ≠ dec LLONG_MIN.

Lemma number_cases value : storable value →
  match isSdsRepresentableAsLongLong value with
  | Some v => value = dec v ∧ printable v
  | None => True
  end.
Proof.
  intros Hs. unfold isSdsRepresentableAsLongLong. destruct (string2ll value) as [v|] eqn:E; [|done].
  apply string2ll_sound in E as [-> Hv]. split; [done|]. unfold printable.
  destruct (decide (v = LLONG_MIN)) as [->|]; [done|lia].
Qed.

Lemma printable_64 v : printable v → (- 2 ^ 63 ≤ v < 2 ^ 63)%Z.
Proof. unfold printable, LLONG_MIN, LLONG_MAX. lia. Qed.

Lemma setTypeAdd_spec o X value :
  set_of o X → storable value → (Z.of_nat (size X) ≤ 2 ^ 61)%Z →
  ∃ o', setTypeAdd hash can_resize junk stack max o value = Some (bool_decide (value ∉ X), o') ∧ set_of o' ({[value]} ∪ X).
Proof.
  intros Ho Hv Hs. pose proof (number_cases value Hv) as Hc. destruct o as [s|d]; cbn [setTypeAdd set_of] in *.
  - destruct Ho as (vs & Hr & Hp & Hl & ->). destruct (isSdsRepresentableAsLongLong value) as [v|] eqn:Hn.
    + destruct Hc as [-> Hpv]. destruct (intsetAdd_spec junk (search_fuel s) s vs v Hr (search_fuel_ok _ _ Hr) (printable_64 v Hpv))
        as (s' & p & E & Hr'); [lia|]. rewrite E. cbn [mbind option_bind].
      assert (bool_decide (v ∉ vs) = bool_decide (dec v ∉ (list_to_set (dec <$> vs) : gset bytes))) as Hb
        by (apply bool_decide_ext; by rewrite elem_of_texts).
      rewrite <- Hb. case_bool_decide as Hin.
      * assert (Forall printable (ins p v vs)) as Hp' by (rewrite ins_perm; by constructor).
        assert (list_to_set (dec <$> ins p v vs) =@{gset bytes} {[dec v]} ∪ list_to_set (dec <$> vs)) as Es by apply (texts_perm _ (v :: vs)), ins_perm.
        unfold Intset.intsetLen. rewrite (r_len _ _ Hr'), length_ins.
        destruct (Z.gtb_spec (Z.of_nat (S (length vs))) max).
        -- destruct (setTypeConvert_spec s' _ Hr' Hp') as (d & m & -> & Hh & Hd). cbn [mbind option_bind].
           eexists. split; [done|]. exists m. by rewrite Hd.
        -- cbn [mbind option_bind]. eexists. split; [done|]. exists (ins p v vs). rewrite length_ins. split_and!; [done|done|lia|done].
      * eexists. split; [done|]. exists vs. split_and!; [done..|].
        assert (dec v ∈ (list_to_set (dec <$> vs) : gset bytes)); [|set_solver].
        apply elem_of_texts; [done|done|]. by destruct (decide (v ∈ vs)).
    + pose proof (no_number value vs Hn Hp) as Hnot. rewrite bool_decide_true by done.
      destruct (setTypeConvert_spec s vs Hr Hp) as (d & m & -> & Hh & Hd). cbn [mbind option_bind].
      destruct (dictAdd_dom d m value Hh) as (d' & m' & E & Hh' & Hd' & _).
      { rewrite <- size_dom, Hd. lia. }
      rewrite E, Hd, bool_decide_true by done. cbn [mbind option_bind]. eexists. split; [done|]. exists m'. by rewrite Hd', Hd.
  - destruct Ho as (m & Hh & ->). rewrite size_dom in Hs. destruct (dictAdd_dom d m value Hh) as (d' & m' & -> & Hh' & Hd' & _); [lia|].
    cbn [mbind option_bind]. eexists. split; [done|]. exists m'. done.
Qed.

Lemma setTypeRemove_spec o X value :
  set_of o X → storable value →
  ∃ o', setTypeRemove hash can_resize junk o value = Some (bool_decide (value ∈ X), o') ∧ set_of o' (X ∖ {[value]}).
Proof.
  intros Ho Hv. pose proof (number_cases value Hv) as Hc. destruct o as [s|d]; cbn [setTypeRemove set_of] in *.
  - destruct Ho as (vs & Hr & Hp & Hl & ->). destruct (isSdsRepresentableAsLongLong value) as [v|] eqn:Hn.
    + destruct Hc as [-> Hpv]. destruct (intsetRemove_spec junk (search_fuel s) s vs v Hr (search_fuel_ok _ _ Hr) (printable_64 v Hpv))
        as (s' & us & -> & Hr' & Hus). cbn [mbind option_bind].
      rewrite <- (bool_decide_ext _ _ (elem_of_texts v vs Hpv Hp)).
      eexists. split; [done|]. exists us. split; [done|].
      destruct (decide (v ∈ vs)) as [Hin|Hin]; [rewrite bool_decide_true in Hus by done|rewrite bool_decide_false in Hus by done].
      * pose proof (sorted_NoDup _ (r_sorted _ _ Hr)) as Hnd. rewrite Hus in Hnd. apply NoDup_cons in Hnd as [Hnew _].
        pose proof (Permutation_length Hus). cbn [length] in *. pose proof Hp as Hp'. rewrite Hus in Hp'. apply Forall_cons in Hp' as [_ Hp'].
        split_and!; [done|lia|]. rewrite (texts_perm _ _ Hus). cbn.
        assert (dec v ∉ (list_to_set (dec <$> us) : gset bytes)) by by rewrite elem_of_texts. set_solver.
      * subst us. split_and!; [done|done|]. assert (dec v ∉ (list_to_set (dec <$> vs) : gset bytes)) by by rewrite elem_of_texts. set_solver.
    + pose proof (no_number value vs Hn Hp) as Hnot. rewrite bool_decide_false by done. eexists. split; [done|].
      exists vs. split_and!; [done..|set_solver].
  - destruct Ho as (m & Hh & ->). unfold Dict.dictDelete.
    destruct (dictGenericDelete_spec hash d m value Hh) as (d' & -> & Hh'). cbn [mbind option_bind].
    rewrite <- (member_dom m value).
    assert (dom m ∖ {[value]} = dom (delete value m)) as Ed by by rewrite dom_delete_L.
    case_bool_decide as Hin; [|eexists; split; [done|]; by exists (delete value m)].
    destruct (htNeedsResize d'); [|eexists; split; [done|]; by exists (delete value m)].
    destruct (dictResize_spec hash can_resize d' _ Hh') as (ok & d2 & -> & Hh2). cbn.
    eexists. split; [done|]. by exists (delete value m).
Qed.

Lemma setTypeIsMember_spec o X value :
  set_of o X → storable value →
  ∃ o', setTypeIsMember hash o value = Some (bool_decide (value ∈ X), o') ∧ set_of o' X.
Proof.
  intros Ho Hv. pose proof (number_cases value Hv) as Hc. destruct o as [s|d]; cbn [setTypeIsMember set_of] in *.
  - destruct Ho as (vs & Hr & Hp & Hl & ->). destruct (isSdsRepresentableAsLongLong value) as [v|] eqn:Hn.
    + destruct Hc as [-> Hpv]. rewrite (intsetFind_spec (search_fuel s) s vs v Hr (search_fuel_ok _ _ Hr) (printable_64 v Hpv)).
      cbn [mbind option_bind]. rewrite <- (bool_decide_ext _ _ (elem_of_texts v vs Hpv Hp)). eexists. split; [done|]. by exists vs.
    + rewrite bool_decide_false by by apply no_number. eexists. split; [done|]. by exists vs.
  - destruct Ho as (m & Hh & ->). destruct (dictFind_spec hash d m value Hh) as (d' & -> & Hh'). cbn [mbind option_bind].
    rewrite <- (member_dom m value). eexists. split; [done|]. by exists m.
Qed.

Lemma setTypeSize_spec o X : set_of o X → setTypeSize o = Z.of_nat (size X).
Proof.
  destruct o as [s|d]; cbn [setTypeSize set_of].
  - intros (vs & Hr & Hp & _ & ->). rewrite size_texts by (done || by apply sorted_NoDup, Hr). apply (r_len _ _ Hr).
  - intros (m & Hh & ->). by rewrite (dictSize_keeps hash d _ Hh), length_map_to_list, size_dom.
Qed.

(** ** Iterating *)

(** The loop of a caller of [setTypeNextObject]. *)
Fixpoint set_elements (fuel n : nat) (si : setTypeIterator) (o : robj) : option (list bytes) :=
  match n with
  | 0 => None
  | S n =>
      '(e, si) ← setTypeNextObject stack fuel si o;
      match e with
      | None => Some []
      | Some e => es ← set_elements fuel n si o; Some (e :: es)
      end
  end.

Lemma elements_intset fuel s vs : IntsetProofs.repr s vs → Forall printable vs → ∀ n i,
  i ≤ length vs → length vs - i < n →
  set_elements fuel n (Iter_intset (Z.of_nat i)) (OBJ_ENCODING_INTSET s) = Some (dec <$> drop i vs).
Proof.
  intros Hr Hp. pose proof (r_small _ _ Hr) as Hsm. induction n as [|n IH]; intros i Hi Hn; [lia|].
  cbn [set_elements]. unfold setTypeNextObject, setTypeNext.
  rewrite (intsetGet_spec s vs (Z.of_nat i) Hr), Nat2Z.id by lia. cbn [mbind option_bind].
  destruct (vs !! i) as [v|] eqn:Hv.
  - assert (printable v) as Hpv by (by eapply (proj1 (Forall_lookup _ _) Hp)).
    rewrite (sdsfromlonglong_spec stack v stack_size Hpv). cbn [mbind option_bind].
    replace (Z.of_nat i + 1)%Z with (Z.of_nat (S i)) by lia. pose proof (lookup_lt_Some _ _ _ Hv).
    rewrite IH by lia. cbn [mbind option_bind]. by rewrite (drop_S vs v i Hv).
  - apply lookup_ge_None in Hv. by rewrite drop_ge.
Qed.

Lemma elements_ht fuel d : ∀ n it,
  it_ok hash it d → it.(Dict.it_safe) = false → length (ahead it d) + 2 ≤ fuel →
  length (it.(Dict.it_next) ++ concat (ahead it d)) < n →
  set_elements fuel n (Iter_ht it) (OBJ_ENCODING_HT d) = Some (it.(Dict.it_next) ++ concat (ahead it d)).*1.
Proof.
  induction n as [|n IH]; intros it Hok Hs Hf Hn; [lia|]. cbn [set_elements]. unfold setTypeNextObject, setTypeNext.
  pose proof (dictNext_spec hash fuel it d Hok) as Hx.
  assert (counted it d = d) as Hc by (unfold counted; by rewrite Hs, andb_false_r). rewrite Hc in Hx.
  destruct (_ ++ _) as [|e es] eqn:Hl.
  - destruct Hx as (it' & -> & _); [destruct it.(Dict.it_entry); lia|]. done.
  - destruct Hx as (it' & -> & Hok' & _ & Hs' & Hl' & Hle); [destruct it.(Dict.it_entry); lia|]. cbn [mbind option_bind].
    rewrite IH; [|done|congruence|lia|rewrite Hl'; cbn in Hn; lia]. cbn [mbind option_bind]. by rewrite Hl'.
Qed.

(** Turns that are enough for an iteration. *)
Definition buckets (o : robj) : nat :=
  match o with
  | OBJ_ENCODING_INTSET _ => 0
  | OBJ_ENCODING_HT d => length d.(Dict.ht0).(Dict.table) + length d.(Dict.ht1).(Dict.table)
  end.

Lemma elements_spec o X fuel n :
  set_of o X → buckets o + 2 ≤ fuel → size X < n →
  ∃ l, set_elements fuel n (setTypeInitIterator o) o = Some l ∧ l ≡ₚ elements X.
Proof.
  intros Ho Hf Hn. destruct o as [s|d]; cbn [set_of setTypeInitIterator buckets] in *.
  - destruct Ho as (vs & Hr & Hp & _ & ->). pose proof (sorted_NoDup _ (r_sorted _ _ Hr)) as Hnd. rewrite size_texts in Hn by done.
    exists (dec <$> vs). change 0%Z with (Z.of_nat 0). rewrite (elements_intset fuel s vs Hr Hp) by lia. split; [by rewrite drop_0|].
    apply NoDup_Permutation; [|apply NoDup_elements|intros x; by rewrite elem_of_elements, elem_of_list_to_set].
    by apply texts_NoDup.
  - destruct Ho as (m & Hh & ->). rewrite size_dom in Hn. pose proof (proj2 Hh) as Hperm.
    assert (concat (ahead (Dict.dictGetIterator : Dict.dictIterator bytes unit) d) = contents d) as Ea
      by (unfold ahead; cbn; by rewrite drop_0, concat_app).
    rewrite elements_ht.
    + cbn [Dict.it_next Dict.dictGetIterator app]. rewrite Ea. eexists. split; [done|]. rewrite Hperm.
      apply NoDup_Permutation; [apply NoDup_fst_map_to_list|apply NoDup_elements|].
      intros x. rewrite elem_of_elements, elem_of_dom, list_elem_of_fmap. split.
      * intros ([k v] & -> & Hin%elem_of_map_to_list). by exists v.
      * intros [v Hv]. exists (x, v). split; [done|]. by apply elem_of_map_to_list.
    + split; cbn; [apply Hh|lia|by right|done|done|by intros [? ?]].
    + done.
    + unfold ahead. cbn. rewrite drop_0, length_app. lia.
    + rewrite Ea. cbn. by rewrite (Permutation_length Hperm), length_map_to_list.
Qed.
End sets.

(** ** Runs *)

Inductive set_op := SAdd (value : bytes) | SRemove (value : bytes) | SIsMember (value : bytes).
Definition set_op_value (o : set_op) : bytes := match o with SAdd v | SRemove v | SIsMember v => v end.

Section runs.
Variable hash : bytes → Z.
Variable junk : Z.
Variable stack : bytes.
Variable max : Z.

(** An operation, with [dict_can_resize] as it is then, on the object and on a
    set of strings. *)
Definition set_exec (o : bool * set_op) (x : robj) : option (bool * robj) :=
  match o.2 with
  | SAdd v => setTypeAdd hash o.1 junk stack max x v
  | SRemove v => setTypeRemove hash o.1 junk x v
  | SIsMember v => setTypeIsMember hash x v
  end.
Definition spec_exec (o : set_op) (X : gset bytes) : bool * gset bytes :=
  match o with
  | SAdd v => (bool_decide (v ∉ X), {[v]} ∪ X)
  | SRemove v => (bool_decide (v ∈ X), X ∖ {[v]})
  | SIsMember v => (bool_decide (v ∈ X), X)
  end.

Fixpoint set_run (ops : list (bool * set_op)) (x : robj) : option (list bool * robj) :=
  match ops with
  | [] => Some ([], x)
  | o :: ops => '(b, x) ← set_exec o x; '(bs, x) ← set_run ops x; Some (b :: bs, x)
  end.
Fixpoint spec_run (ops : list (bool * set_op)) (X : gset bytes) : list bool * gset bytes :=
  match ops with
  | [] => ([], X)
  | o :: ops => let '(b, X) := spec_exec o.2 X in let '(bs, X) := spec_run ops X in (b :: bs, X)
  end.

Hypothesis stack_size : length stack = SDS_LLSTR_SIZE.
Hypothesis max_small : (0 ≤ max < 2 ^ 29 - 1)%Z.

Lemma set_exec_spec o x X :
  set_of hash max x X → storable (set_op_value o.2) → (Z.of_nat (size X) ≤ 2 ^ 61)%Z →
  ∃ x', set_exec o x = Some ((spec_exec o.2 X).1, x') ∧ set_of hash max x' (spec_exec o.2 X).2.
Proof.
  intros Hx Hv Hs. destruct o as [c [v|v|v]]; cbn in *.
  - by eapply setTypeAdd_spec.
  - by eapply setTypeRemove_spec.
  - by eapply setTypeIsMember_spec.
Qed.

Lemma spec_exec_size o X : size (spec_exec o X).2 ≤ S (size X).
Proof.
  destruct o as [v|v|v]; cbn; [|apply Nat.le_le_succ_r, subseteq_size; set_solver|lia].
  pose proof (size_union_alt {[v]} X) as E. rewrite size_singleton in E.
  assert (size (X ∖ {[v]}) ≤ size X) by (apply subseteq_size; set_solver). lia.
Qed.

Lemma set_run_spec ops : ∀ x X,
  set_of hash max x X → Forall (λ o, storable (set_op_value o.2)) ops →
  (Z.of_nat (size X) + Z.of_nat (length ops) ≤ 2 ^ 61)%Z →
  ∃ x', set_run ops x = Some ((spec_run ops X).1, x') ∧ set_of hash max x' (spec_run ops X).2.
Proof.
  induction ops as [|o ops IH]; intros x X Hx Hv Hs; [by exists x|]. apply Forall_cons in Hv as [Hv Hvs]. cbn [length] in Hs.
  destruct (set_exec_spec o x X Hx Hv ltac:(lia)) as (x1 & E & Hx1). pose proof (spec_exec_size o.2 X) as Hsz.
  cbn [set_run spec_run]. rewrite E. destruct (spec_exec o.2 X) as [b Y]. cbn [mbind option_bind fst snd] in *.
  destruct (IH x1 Y Hx1 Hvs ltac:(lia)) as (x2 & -> & Hx2). cbn [mbind option_bind].
  destruct (spec_run ops Y) as [bs Y']. by exists x2.
Qed.

Lemma set_encoding s X : set_of hash max (OBJ_ENCODING_INTSET s) X →
  (Z.of_nat (size X) ≤ max)%Z ∧ ∀ x, x ∈ X → is_Some (string2ll x).
Proof.
  intros (vs & Hr & Hp & Hl & ->). split; [by rewrite size_texts by (done || by apply sorted_NoDup, Hr)|].
  intros x (v & -> & Hin)%elem_of_list_to_set%list_elem_of_fmap. rewrite Forall_forall in Hp. specialize (Hp _ Hin).
  unfold printable in Hp. rewrite string2ll_complete by lia. by exists v.
Qed.

(** C17. The set type of Redis is a set of byte strings.  From a new set, whatever
    its first encoding is, any run of at most 2^61 calls of [setTypeAdd],
    [setTypeRemove] and [setTypeIsMember] is defined, no assertion of the code
    fails, and the answers are those of a mathematical set, also across the
    conversion from the integer set to the hash table; [setTypeSize] is the
    number of elements, an iteration gives every element once, and the set is
    an integer set only while all elements are decimal texts and at most
    [set_max_intset_entries] many.  This holds for a limit below 2^29 - 1 and
    for every string but the text of the smallest 64-bit integer. *)
Theorem setType_refines_set value ops :
  Forall (λ o, storable (set_op_value o.2)) ops → (Z.of_nat (length ops) ≤ 2 ^ 61)%Z →
  ∃ o, set_run ops (setTypeCreate value) = Some ((spec_run ops ∅).1, o) ∧
    setTypeSize o = Z.of_nat (size (spec_run ops ∅).2) ∧
    (∀ fuel n, buckets o + 2 ≤ fuel → size (spec_run ops ∅).2 < n →
       ∃ l, set_elements stack fuel n (setTypeInitIterator o) o = Some l ∧ l ≡ₚ elements (spec_run ops ∅).2) ∧
    match o with
    | OBJ_ENCODING_INTSET _ =>
        (Z.of_nat (size (spec_run ops ∅).2) ≤ max)%Z ∧ ∀ x, x ∈ (spec_run ops ∅).2 → is_Some (string2ll x)
    | OBJ_ENCODING_HT _ => True
    end.
Proof.
  intros Hv Hl. destruct (set_run_spec ops (setTypeCreate value) ∅) as (o & E & Ho);
    [by eapply setTypeCreate_spec|done|rewrite size_empty; lia|].
  exists o. split; [done|]. split; [by eapply setTypeSize_spec|]. split; [by intros; eapply elements_spec|].
  destruct o; [by eapply set_encoding|done].
Qed.
End runs.

(** With a limit of two integers: the third addition, or a word, converts. *)
Definition few_ops : list (bool * set_op) :=
  (λ o, (true, o)) <$> [SAdd (B "7"); SAdd (B "-40000"); SAdd (B "7"); SIsMember (B "07"); SAdd (B "12"); SAdd (B "abc");
                        SRemove (B "-40000"); SIsMember (B "12"); SIsMember (B "-40000")].
Definition byte_sum (k : bytes) : Z := foldr (λ c z, (ord c + 31 * z) mod 2 ^ 64)%Z 0%Z k.

Lemma setType_refines_set_witness :
  ∃ o, set_run byte_sum 204 (replicate 21 NUL) 2 few_ops (setTypeCreate (B "7")) =
         Some ([true; true; false; false; true; true; true; true; false], o) ∧ setTypeSize o = 3%Z.
Proof.
  destruct (setType_refines_set byte_sum 204 (replicate 21 NUL) 2 eq_refl ltac:(lia) (B "7") few_ops) as (o & E & Hs & _).
  - repeat constructor; by vm_compute.
  - by vm_compute.
  - exists o. split; [rewrite E; f_equal; by vm_compute|]. rewrite Hs. by vm_compute.
Defined.
